(* ===== verification/_CoqProject ===== *)
-Q . S2P
Prelude.v
BitcoinLib.v
Effects.v
Errors.v
Reader.v
Auxpow.v
Qbit.v
Nbits.v
Lineage.v
Classifier.v
LiveLoop.v
Poller.v
Blocks.v
SyncState.v
CoreQueue.v
Backbone.v
LiveWindow.v
Events.v
Reconcile.v
CoreSuffix.v
Reorg.v
HeaderCache.v
Live.v
Cascade.v
Payload.v
EventStore.v
ChildHead.v
Writes.v
Capture.v
HistoricalQueue.v
Chains.v
Family.v
Pools.v
Attribution.v
PoolStore.v
Reclassify.v
Recheck.v
