(* ===== verification/Prelude.v ===== *)
(** * Merge Mining Monitor: a verification development

    The monitor watches merge-mined chains and Bitcoin. Producers poll child daemons, parse
    the proofs of work their blocks carry, check which Bitcoin parent a proof commits to, and
    store an event. A classifier asks Bitcoin Core what the parent is (canonical, stale, an
    invalid block, or unknown); a read model derives one row per parent from its events and
    from Core. A backbone producer keeps the canonical chain of Core in the same table, and
    repairs it when Core reorganises. All paths are below [src/crates].

    ** Files, from the bottom up

    - [Prelude] (this file): results, machine integers, byte strings, lists, tactics and hints.
    - [BitcoinLib]: the [bitcoin] crate as a class [BitcoinLib] of operations and a class
      [BitcoinLibLaws] of the documented behaviour the proofs use; [Toy] is an instance.
    - [Effects]: the state and error monad of the asynchronous code, with [steps], the relation
      a computation moves its world along. [Errors]: [anyhow::Error] and its recoverable values
      ([mmm-bitcoin-core/src/availability.rs], [bitcoin_core_backbone/integrity.rs]).
    - [Reader], [Auxpow], [Qbit]: the wire reader, the AuxPoW and Qbit parsers, the commitment
      checks and the decoders of stored evidence ([mmm-capture/src/auxpow]).
    - [Nbits], [Lineage]: the difficulty table, the lineage of a header and the orphan verdicts
      ([mmm-capture/src/nbits_table.rs], [lineage.rs], [btc_orphan.rs]).
    - [Classifier]: the parent classifier over a Core source, with its RPC client
      ([mmm-bitcoin-core/src/parent_classifier], [bitcoin_rpc.rs]).
    - [LiveLoop]: supervision, retries and backoff ([mmm-producers/src/live_loop.rs]).
    - [Poller]: the poller of a child chain and its durable cursor
      ([mmm-producers/src/poller/mod.rs], [mmm-store/src/poll_cursor.rs]).
    - [Blocks]: the block table, its constraints and both upserts
      ([mmm-read-model/src/writers.rs]). [SyncState]: the row that holds the progress and the
      last error of the backbone ([bitcoin_core_backbone/sync_state.rs],
      [mutation/core_suffix_status.rs]). [CoreQueue]: the durable queue of parents to reconcile
      ([mutation/core_suffix.rs]).
    - [Backbone]: the ordinary sync of the backbone ([bitcoin_core_backbone/mod.rs]).
      [LiveWindow]: the verified window at the tip ([live_window.rs]).
    - [Events], [Reconcile]: events, proofs, and the reconcile of one parent
      ([mmm-read-model/src/queries.rs], [classify.rs], [competition.rs], [reconcile.rs]).
    - [CoreSuffix]: the transaction that replaces a suffix of the canonical chain
      ([mutation/core_suffix.rs]). [Reorg]: the repair that plans it
      ([bitcoin_core_backbone/reorg.rs]).
    - [HeaderCache]: the cache of Core's epoch headers, its publication and the schedule of
      rechecks ([mmm-store/src/bitcoin_core_header.rs], [bitcoin_epoch_cache.rs]). [Live]: the
      follow tick of the backbone ([bitcoin_core_backbone/live.rs]).
    - [Cascade]: the reconcile of one parent in its own transaction and the cascade over its
      dependents (the rest of [reconcile.rs]).
    - [Payload]: captured payloads and child block observations ([mmm-capture/src/capture]).
      [EventStore]: the upsert of events, observations, attributions and provenance
      ([mmm-store/src/event.rs], [observation.rs], [capture_write.rs]).
    - [ChildHead]: the heads of the child chains and the displacement of the blocks they replace
      ([mmm-store/src/child_displacement.rs]).
    - [Writes]: the statements that sessions run on the tables of the store and the invariant
      they keep, with the link between a parent's hash and its target that makes nears safe.
    - [Capture]: the lineage gate and the capture, retraction and revocation transactions
      ([mutation/mod.rs], [mutation/lineage_gate.rs]).
    - [HistoricalQueue]: the queue of the parents a publication touched, its drain, the bulk
      rollup and the removal of rows a publication no longer has ([mutation/historical_queue.rs] and
      the statements it uses).
    - [Chains]: the table of the chains and the ranges of a backfill
      ([mmm-producers/src/chains/spec.rs], [backfill.rs]). [Family]: the capture, the rescan and
      the backfill of a height of a chain that carries AuxPoW or Qbit proofs
      ([chains/auxpow_family], [mmm-store/src/capture_error.rs]).
    - [Pools]: the snapshot of Bitcoin pools, its matches, and the registries of identities
      ([mmm-capture/src/pool_resolver], [identity_registry.rs]). [Attribution]: the pools of a
      captured block and the policy of replays ([capture/mod.rs], [child_payout.rs],
      [attribution_policy.rs]). [PoolStore]: the tables of pools and identities
      ([mmm-store/src/pool.rs]). [Reclassify]: the command that resolves stored pools again
      ([mmm-producers/src/reclassify_pools]).
    - [Recheck]: the pages of undecided parents, the recheck that the header cache schedules and
      the demotion of known stale orphans ([mmm-read-model/src/unknown_reclassify.rs],
      [known_stale_reclassify.rs]).

    ** State and effects

    A table is a finite map by primary key; a statement is a function on it that returns the
    new table or the error of a violated constraint. A transaction is run on a copy that is
    dropped on failure. Calls to Core, to a daemon, and the failure of a database statement are
    operations of a class over an abstract world: their answers may change between two calls,
    and no theorem assumes more of them than it states. Two sessions interleave where the code
    releases its locks: a reconcile is given the tables before and after it waits, and the
    queue has an explicit attempt counter. Integers of 32 and 64 bits are [Z] with the checked,
    wrapping or saturating operation the code uses.

    ** What the theorems show

    - Parsers: a block is returned exactly for authentic bytes, one parent marker commits to
      one child, branches bind their leaves, stored evidence decodes to the verified record,
      and reading stays inside its input.
    - Verdicts: what each lineage, orphan and classifier verdict means; absence is attested only
      by a Core that was ready before and after.
    - Pollers and supervision: the cursor never passes an unprocessed height and never moves
      back, a healthy chain is caught up, and waits stay within their bounds.
    - Tables: no write breaks a constraint or loses evidence; skipped updates are idle.
    - Backbone: ordinary sync keeps one complete linked row per height up to the cursor; the
      window check is exact; a planned repair is a valid replacement; a committed replacement
      stores exactly the new chain, keeps or rebinds every other row, and queues the blocks
      that joined or left the chain; repair and drain end.
    - Read model: a reconcile writes only what it locked, reports what it changed, stores a
      proven verdict on the parent and its events, and never lets an inconclusive verdict take a
      placement away; proofs are rebuilt from the contributing events. A cascade reconciles the
      dependents that the tables hold right after each of its commits, once each, and ends.
    - Header cache and follower: a refresh keeps consecutive epochs and never a changed final
      one; a recheck owed is never lost; a repair counts only when verified. A page of the
      recheck and its cursor are stored together, its pages visit each undecided parent once,
      and a run that ends owes nothing; every known stale orphan is excluded, and no other row.
    - Capture: a child block has one event and one observation per source, linked to each other;
      evidence is joined, never overwritten; a write that reports no change changed no input;
      a known pool is never forgotten; a capture is all or nothing, is written only when the gate
      passed it on the tables it read, and leaves consistent tables whatever Core answers, while
      other sessions commit the statements of [Capture.others]. A displaced child block is
      exactly one the daemon replaced; the head of a processed height names the block and the
      parent of the proof the daemon sent, and a rescan skips only what a
      trusted head covers; a failure of a height is recorded or reported.
    - Publications: the drain of the queue loses no seed and ends; the bulk rollup stores what
      a rebuild would; a removal takes exactly the rows that are absent.
    - Pools: the longest tag wins and has one owner; a registry is accepted exactly when it is
      well formed, and leaves its namespace equal to its entries with every change queued; a
      replay visits every candidate once and without [--overwrite] takes no pool away.

    ** Fuel and bounds

    - [Backbone.prefix_fuel] is two more than the distance from the cursor to the highest stored
      row: every pass but the last consumes a stored height ([prefix_advance_maximal]).
    - The drain of [CoreQueue] takes its fuel as an argument; [drain_terminates] gives a bound
      that is enough in both modes.
    - The repair loop of [Reorg] needs three passes in live mode ([repair_live_terminates]). In
      batch mode each further pass follows a replaced suffix, so the bound depends on Core.
    - The cascade of [Cascade] takes its fuel as an argument; [cascade_terminates] shows that
      under a budget some fuel is enough from every world.
    - The drain of [HistoricalQueue] takes its fuel as an argument; [historical_drain_terminates]
      gives a bound. The scan of [Reclassify] takes a number of pages; [scan_visits_once] shows
      that the greatest id plus one is enough.
    - The demotion of [Recheck] needs one more turn than there are rows to demote. A hold of the
      recheck needs fuel for one batch of the drain, 26; the number of holds is an argument,
      because what the reconciles queue depends on Core.
    - [LiveLoop.run_ticks] and the poller run for a given number of iterations, because the
      loops of the program do not end; the statements hold for every number.

    ** Not modelled

    Advisory locks (the order in which the code takes them is not a theorem), message texts and
    the JSON details of stored errors beyond the fields the code reads back, logging and metrics,
    delays. Of the read model: source health, relationship summaries and protocol commitments,
    which are single SQL statements over tables the model does not have. Of the producers:
    the captures of RSK, Hathor and Elastos, whose proofs come from chain-specific RPC documents,
    and the import of published CSV files; the passes of [reclassify-pools] over their
    identities. The HTTP API, the command line and the transport crates are input and output. The
    catalogue of invalid blocks is a parameter, and captures take the resolution of pools as one:
    [Attribution] models what the code passes. *)

From stdpp Require Export base option list strings gmap sets relations.
From Stdlib Require Export ZArith Lia.
From Stdlib Require Export Init.Byte.
From Stdlib Require Strings.Byte.

Open Scope Z_scope.

(** ** Results and errors *)

Inductive result (E A : Type) : Type :=
| Ok (a : A)
| Err (e : E).
Arguments Ok {E A} a.
Arguments Err {E A} e.

#[global] Instance result_ret E : MRet (result E) := λ A a, Ok a.
#[global] Instance result_bind E : MBind (result E) := λ A B f m,
  match m with Ok a => f a | Err e => Err e end.
#[global] Instance result_fmap E : FMap (result E) := λ A B f m,
  match m with Ok a => Ok (f a) | Err e => Err e end.

(** [anyhow::ensure!]: continue when the condition holds, else return the error. *)
Definition ensure {E} (c : bool) (e : E) : result E unit :=
  if c then Ok () else Err e.

(** [Result::map_err] and [Option::ok_or]. *)
Definition map_err {E F A} (f : E → F) (m : result E A) : result F A :=
  match m with Ok a => Ok a | Err e => Err (f e) end.

Definition ok_or {E A} (e : E) (o : option A) : result E A :=
  match o with Some a => Ok a | None => Err e end.

Definition result_ok {E A} (m : result E A) : option A :=
  match m with Ok a => Some a | Err _ => None end.

Definition is_ok {E A} (m : result E A) : bool :=
  match m with Ok _ => true | Err _ => false end.

Lemma bind_Ok {E A B} (m : result E A) (f : A → result E B) b :
  m ≫= f = Ok b ↔ ∃ a, m = Ok a ∧ f a = Ok b.
Proof. destruct m; naive_solver. Qed.

Lemma bind_Err {E A B} (m : result E A) (f : A → result E B) e :
  m ≫= f = Err e ↔ m = Err e ∨ ∃ a, m = Ok a ∧ f a = Err e.
Proof. destruct m; naive_solver. Qed.

Lemma ensure_Ok {E} c (e : E) u : ensure c e = Ok u ↔ c = true.
Proof. destruct c, u; naive_solver. Qed.

Lemma ensure_Err {E} c (e e' : E) : ensure c e = Err e' ↔ c = false ∧ e = e'.
Proof. destruct c; naive_solver. Qed.

Lemma ok_or_Ok {E A} (e : E) (o : option A) a : ok_or e o = Ok a ↔ o = Some a.
Proof. destruct o; naive_solver. Qed.

Lemma map_err_Ok {E F A} (f : E → F) (m : result E A) a :
  map_err f m = Ok a ↔ m = Ok a.
Proof. destruct m; naive_solver. Qed.

Lemma result_ok_Some {E A} (m : result E A) a : result_ok m = Some a ↔ m = Ok a.
Proof. destruct m; naive_solver. Qed.

(** [Option::is_some] and [Option::filter]. *)
Definition is_some {A} (o : option A) : bool := match o with Some _ => true | None => false end.

Definition opt_filter {A} (p : A → bool) (o : option A) : option A :=
  match o with Some a => if p a then Some a else None | None => None end.

Lemma is_some_true {A} (o : option A) : is_some o = true ↔ is_Some o.
Proof. destruct o; simpl; split; eauto; [done|intros []; done]. Qed.

Lemma opt_filter_Some {A} (p : A → bool) o a : opt_filter p o = Some a ↔ o = Some a ∧ p a = true.
Proof.
  destruct o as [x|]; simpl; [|split; [done|by intros []]].
  destruct (p x) eqn:E; split; [by intros [= <-]|by intros [[= <-] _]|done|].
  intros [[= <-] ?]. congruence.
Qed.

(** [anyhow::Error]: a message, a message with added context, or a value of a
    concrete error type (recovered with [downcast_ref]). Interpolated values are
    dropped from the messages: no code inspects them. *)
Inductive error : Type :=
| Msg (m : string)
| Ctx (m : string) (e : error)
| Typed (ty : string) (e : error).

Definition with_context {A} (m : string) (r : result error A) : result error A :=
  map_err (Ctx m) r.

(** [downcast_ref::<ty>().is_some()], which looks through added context. *)
Fixpoint downcast (ty : string) (e : error) : bool :=
  match e with
  | Msg _ => false
  | Ctx _ e => downcast ty e
  | Typed ty' _ => bool_decide (ty = ty')
  end.

Lemma with_context_Ok {A} m (r : result error A) a : with_context m r = Ok a ↔ r = Ok a.
Proof. apply map_err_Ok. Qed.

Create HintDb mmm.

(** Decompose a successful monadic computation into its steps. *)
Ltac res_inv :=
  repeat match goal with
  | H : @mret _ (result_ret _) _ _ = Ok _ |- _ => cbv [mret result_ret] in H
  | H : Ok _ = Ok _ |- _ => progress simplify_eq
  | H : Ok _ = Err _ |- _ => discriminate H
  | H : Err _ = Ok _ |- _ => discriminate H
  | H : (_ ≫= _) = Ok _ |- _ => apply bind_Ok in H as (? & ? & ?)
  | H : ensure _ _ = Ok _ |- _ => apply ensure_Ok in H
  | H : ok_or _ _ = Ok _ |- _ => apply ok_or_Ok in H
  | H : map_err _ _ = Ok _ |- _ => apply map_err_Ok in H
  | H : with_context _ _ = Ok _ |- _ => apply with_context_Ok in H
  | H : bool_decide _ = true |- _ => apply bool_decide_eq_true in H
  | H : bool_decide _ = false |- _ => apply bool_decide_eq_false in H
  | x : unit |- _ => destruct x
  end.

(** ** Machine integers

    Values are integers kept in the range of their Rust type; [usize] is the
    64-bit [usize] of the supported targets. *)

Definition in_i32 (z : Z) : Prop := -2147483648 ≤ z ≤ 2147483647.
Definition in_u32 (z : Z) : Prop := 0 ≤ z < 4294967296.
Definition in_i64 (z : Z) : Prop := -9223372036854775808 ≤ z ≤ 9223372036854775807.

Definition i32_MIN : Z := -2147483648.
Definition i32_MAX : Z := 2147483647.
Definition i64_MAX : Z := 9223372036854775807.
Definition i64_MIN : Z := -9223372036854775808.
Definition usize_MAX : Z := 18446744073709551615.

Definition wrap_u32 (z : Z) : Z := z mod 4294967296.
Definition wrap_i32 (z : Z) : Z := (z + 2147483648) mod 4294967296 - 2147483648.
(** [x as i32] for a [u32], [x as u32] for an [i32]. *)
Definition as_i32 : Z → Z := wrap_i32.
Definition as_u32 : Z → Z := wrap_u32.

Definition wrapping_add_u32 (a b : Z) : Z := wrap_u32 (a + b).
Definition wrapping_mul_u32 (a b : Z) : Z := wrap_u32 (a * b).

(** Plain [+] and [-] on [i32] (they wrap in release builds). *)
Definition add_i32 (a b : Z) : Z := wrap_i32 (a + b).
Definition sub_i32 (a b : Z) : Z := wrap_i32 (a - b).

Definition clamp (lo hi z : Z) : Z := Z.max lo (Z.min hi z).
Definition saturating_add_i32 (a b : Z) : Z := clamp i32_MIN i32_MAX (a + b).
Definition saturating_sub_i32 (a b : Z) : Z := clamp i32_MIN i32_MAX (a - b).
Definition saturating_sub_i64 (a b : Z) : Z := clamp i64_MIN i64_MAX (a - b).
Definition saturating_add_i64 (a b : Z) : Z := clamp i64_MIN i64_MAX (a + b).

Definition checked_i32 (z : Z) : option Z :=
  if (i32_MIN <=? z) && (z <=? i32_MAX) then Some z else None.
Definition checked_add_i32 (a b : Z) : option Z := checked_i32 (a + b).
Definition checked_sub_i32 (a b : Z) : option Z := checked_i32 (a - b).
(** [u32::try_from] of an [i32]: refuses negative values. *)
Definition u32_try_from (z : Z) : option Z := if 0 <=? z then Some z else None.

Lemma wrap_u32_range z : in_u32 (wrap_u32 z).
Proof. apply Z.mod_pos_bound. lia. Qed.
Lemma wrap_u32_id z : in_u32 z → wrap_u32 z = z.
Proof. intros. by apply Z.mod_small. Qed.
Lemma wrap_i32_range z : in_i32 (wrap_i32 z).
Proof. pose proof (Z.mod_pos_bound (z + 2147483648) 4294967296). unfold in_i32, wrap_i32. lia. Qed.
Lemma wrap_i32_id z : in_i32 z → wrap_i32 z = z.
Proof. unfold in_i32, wrap_i32. intros. rewrite Z.mod_small; lia. Qed.
Lemma as_u32_as_i32 z : in_u32 z → as_u32 (as_i32 z) = z.
Proof.
  intros Hz. unfold as_u32, as_i32, wrap_u32, wrap_i32.
  rewrite Zminus_mod_idemp_l. replace (z + 2147483648 - 2147483648) with z by lia.
  by apply Z.mod_small.
Qed.
Lemma as_i32_as_u32 z : in_i32 z → as_i32 (as_u32 z) = z.
Proof.
  intros Hz. unfold as_u32, as_i32, wrap_u32, wrap_i32.
  rewrite Zplus_mod_idemp_l. apply wrap_i32_id in Hz. done.
Qed.
Lemma checked_i32_Some z w : checked_i32 z = Some w ↔ w = z ∧ in_i32 z.
Proof. unfold checked_i32, in_i32, i32_MIN, i32_MAX. destruct (_ && _) eqn:E; naive_solver lia. Qed.
Lemma checked_i32_in z : in_i32 z → checked_i32 z = Some z.
Proof. intros. by apply checked_i32_Some. Qed.
Lemma add_i32_id a b : in_i32 (a + b) → add_i32 a b = a + b.
Proof. apply wrap_i32_id. Qed.
Lemma sub_i32_id a b : in_i32 (a - b) → sub_i32 a b = a - b.
Proof. apply wrap_i32_id. Qed.
#[export] Hint Resolve wrap_u32_range wrap_i32_range : mmm.

(** ** Bytes *)

#[global] Instance byte_eq_dec : EqDecision byte := Byte.byte_eq_dec.
#[global] Instance byte_countable : Countable byte :=
  inj_countable Byte.to_N Byte.of_N Byte.of_to_N.

Definition u8 (b : byte) : Z := Z.of_N (Byte.to_N b).
Definition byte_of_Z (z : Z) : byte := default x00 (Byte.of_N (Z.to_N (z mod 256))).

Lemma u8_range b : 0 ≤ u8 b < 256.
Proof. unfold u8. pose proof (Byte.to_N_bounded b). lia. Qed.

Lemma u8_byte_of_Z z : u8 (byte_of_Z z) = z mod 256.
Proof.
  unfold u8, byte_of_Z. pose proof (Z.mod_pos_bound z 256 eq_refl) as Hz.
  destruct (Byte.of_N _) as [b|] eqn:E; simpl.
  - apply Byte.to_of_N in E. rewrite E. lia.
  - apply Byte.of_N_None_iff in E. lia.
Qed.

Lemma u8_inj b c : u8 b = u8 c → b = c.
Proof.
  unfold u8. intros H%N2Z.inj. pose proof (Byte.of_to_N b). pose proof (Byte.of_to_N c).
  congruence.
Qed.

Lemma byte_of_Z_u8 b : byte_of_Z (u8 b) = b.
Proof. apply u8_inj. rewrite u8_byte_of_Z. apply Z.mod_small, u8_range. Qed.

(** Little-endian integers: [from_le_bytes], and its inverse at [n] bytes. *)
Fixpoint from_le_bytes (bs : list byte) : Z :=
  match bs with
  | [] => 0
  | b :: bs => u8 b + 256 * from_le_bytes bs
  end.

Fixpoint to_le_bytes (n : nat) (z : Z) : list byte :=
  match n with
  | O => []
  | S n => byte_of_Z z :: to_le_bytes n (z / 256)
  end.

Definition i32_from_le_bytes (bs : list byte) : Z := as_i32 (from_le_bytes bs).

Lemma length_to_le_bytes n z : length (to_le_bytes n z) = n.
Proof. revert z. induction n; simpl; auto. Qed.

Lemma pow256_S n : 256 ^ Z.of_nat (S n) = 256 * 256 ^ Z.of_nat n.
Proof. rewrite Nat2Z.inj_succ, Z.pow_succ_r; lia. Qed.

Lemma from_le_bytes_range bs : 0 ≤ from_le_bytes bs < 256 ^ Z.of_nat (length bs).
Proof.
  induction bs as [|b bs IH]; simpl length; [simpl; lia|].
  rewrite pow256_S. simpl. pose proof (u8_range b). lia.
Qed.

Lemma from_to_le_bytes n z :
  0 ≤ z < 256 ^ Z.of_nat n → from_le_bytes (to_le_bytes n z) = z.
Proof.
  revert z. induction n as [|n IH]; intros z Hz; [simpl in *; lia|].
  rewrite pow256_S in Hz. simpl. rewrite u8_byte_of_Z, IH.
  - pose proof (Z.div_mod z 256). lia.
  - split; [apply Z.div_pos; lia|]. apply Z.div_lt_upper_bound; lia.
Qed.

Lemma to_from_le_bytes bs : to_le_bytes (length bs) (from_le_bytes bs) = bs.
Proof.
  induction bs as [|b bs IH]; [done|]. simpl. f_equal.
  - apply u8_inj. rewrite u8_byte_of_Z. pose proof (u8_range b).
    rewrite Z.mul_comm, Z.mod_add by lia. apply Z.mod_small; lia.
  - rewrite Z.mul_comm, Z.div_add by lia. pose proof (u8_range b).
    rewrite Z.div_small by lia. done.
Qed.

Lemma from_le_bytes_inj bs cs :
  length bs = length cs → from_le_bytes bs = from_le_bytes cs → bs = cs.
Proof. intros Hl He. rewrite <-(to_from_le_bytes bs), Hl, He. apply to_from_le_bytes. Qed.

Lemma from_le_bytes_app a b :
  from_le_bytes (a ++ b) = from_le_bytes a + 256 ^ Z.of_nat (length a) * from_le_bytes b.
Proof.
  induction a as [|x a IH]; simpl length; [simpl; lia|].
  rewrite pow256_S. simpl. rewrite IH. lia.
Qed.

Lemma from_le_bytes_zeros n : from_le_bytes (replicate n x00) = 0.
Proof. induction n as [|n IH]; [done|]. simpl. by rewrite IH. Qed.

Lemma from_le_bytes_u32 bs : length bs = 4%nat → in_u32 (from_le_bytes bs).
Proof. intros Hl. pose proof (from_le_bytes_range bs) as H. rewrite Hl in H. apply H. Qed.

Lemma i32_le_roundtrip z :
  in_i32 z → i32_from_le_bytes (to_le_bytes 4 (as_u32 z)) = z.
Proof.
  intros Hz. unfold i32_from_le_bytes. rewrite from_to_le_bytes.
  - by apply as_i32_as_u32.
  - apply wrap_u32_range.
Qed.

(** ** Slices *)

(** [&l[i..j]], used only where [i <= j <= l.len()]. *)
Definition slice {A} (i j : nat) (l : list A) : list A := take (j - i) (drop i l).

(** [l.windows(n)] for [n > 0]. *)
Fixpoint windows {A} (n : nat) (l : list A) : list (list A) :=
  match l with
  | [] => []
  | _ :: t => if decide (n ≤ length l)%nat then take n l :: windows n t else []
  end.

(** [Iterator::position]. *)
Definition position {A} (p : A → bool) (l : list A) : option nat :=
  fst <$> list_find p l.

Lemma length_slice {A} i j (l : list A) :
  (i ≤ j ≤ length l)%nat → length (slice i j l) = (j - i)%nat.
Proof. intros. unfold slice. rewrite length_take, length_drop. lia. Qed.

Lemma lookup_windows {A} n (l : list A) i w :
  (0 < n)%nat →
  windows n l !! i = Some w ↔ (i + n ≤ length l)%nat ∧ w = take n (drop i l).
Proof.
  intros Hn. revert i. induction l as [|x l IH]; intros i.
  - simpl. split; [done|]. simpl. intros [? _]. lia.
  - cbn [windows]. case_decide as Hd.
    + destruct i as [|i]; simpl.
      * simpl in *. split; [intros [= <-]; split; [lia|done]|]. intros [_ ->]. done.
      * rewrite IH. simpl. split; intros [? ->]; split; try done; lia.
    + simpl in *. split; [done|]. intros [? _]. lia.
Qed.

Lemma position_Some {A} (p : A → bool) l i :
  position p l = Some i ↔
  (∃ x, l !! i = Some x ∧ p x = true) ∧
  ∀ j y, (j < i)%nat → l !! j = Some y → p y = false.
Proof.
  unfold position. rewrite fmap_Some. split.
  - intros ([k x] & (H1 & H2 & H3)%list_find_Some & ->). simpl. split.
    + exists x. split; [done|]. by apply Is_true_true.
    + intros j y Hj Hy. apply not_true_iff_false. intros Hp.
      apply (H3 j y); [done..|]. by apply Is_true_true.
  - intros [(x & Hx & Hp) Hlt]. exists (i, x). split; [|done].
    apply list_find_Some. split_and!; [done|by apply Is_true_true|].
    intros j y Hy Hj Hpy. apply Is_true_true in Hpy. rewrite (Hlt j y) in Hpy; done.
Qed.

Lemma position_None {A} (p : A → bool) l :
  position p l = None ↔ ∀ x, x ∈ l → p x = false.
Proof.
  unfold position. rewrite fmap_None, list_find_None, Forall_forall.
  split; intros H x Hx; specialize (H x Hx).
  - apply not_true_iff_false. intros Hp. apply H. by apply Is_true_true.
  - intros Hp%Is_true_true. congruence.
Qed.

(** ** Maps *)

(** Collecting pairs into a map: a later pair replaces an earlier one. *)
Definition map_collect `{Countable K} {V} (kvs : list (K * V)) : gmap K V :=
  list_to_map (reverse kvs).

Lemma map_collect_lookup `{Countable K} {V} (kvs : list (K * V)) k v :
  NoDup kvs.*1 → map_collect kvs !! k = Some v ↔ (k, v) ∈ kvs.
Proof.
  intros Hn. unfold map_collect.
  rewrite <-elem_of_list_to_map, elem_of_reverse; [done|].
  rewrite fmap_reverse. by rewrite reverse_Permutation.
Qed.

#[global] Arguments to_le_bytes : simpl never.
#[global] Arguments from_le_bytes : simpl never.
#[global] Arguments slice : simpl never.
#[global] Arguments windows : simpl never.

(** ** Filtering *)

Lemma list_filter_id {A} (P : A → Prop) `{∀ x, Decision (P x)} (l : list A) :
  (∀ x, x ∈ l → P x) → filter P l = l.
Proof.
  induction l as [|x l IH]; intros HP; [done|].
  rewrite filter_cons_True by (apply HP; left). f_equal. apply IH. intros y Hy. apply HP. by right.
Qed.

Lemma list_filter_none {A} (P : A → Prop) `{∀ x, Decision (P x)} (l : list A) :
  (∀ x, x ∈ l → ¬ P x) → filter P l = [].
Proof.
  induction l as [|x l IH]; intros HP; [done|].
  rewrite filter_cons_False by (apply HP; left). apply IH. intros y Hy. apply HP. by right.
Qed.
