(* ===== verification/BitcoinLib.v ===== *)
(** * The [bitcoin] crate, as the monitor uses it

    The sources link the third-party [bitcoin] crate (rust-bitcoin). Its code is
    not part of the repository, so it is a parameter of this development: the
    class [BitcoinLib] lists the functions the monitor calls, and the class
    [BitcoinLibLaws] states the documented facts some theorems need. The structs
    have the fields the sources read or write in struct literals. [Toy] is a small
    executable instance that satisfies the laws; the witnesses of the theorems
    that mention the crate run on it. *)

From S2P Require Import Prelude.

Abbreviation bytes := (list byte).

(** [bitcoin::block::Header]. *)
Record Header := mkHeader {
  hdr_version : Z;
  prev_blockhash : bytes;
  merkle_root : bytes;
  hdr_time : Z;
  hdr_bits : Z;
  hdr_nonce : Z;
}.

(** [bitcoin::TxIn], with [OutPoint] as a pair. *)
Record TxIn := mkTxIn {
  previous_output : bytes * Z;
  script_sig : bytes;
  sequence : Z;
  witness : list bytes;
}.

Record TxOut := mkTxOut { txo_value : Z; script_pubkey : bytes }.

Record Transaction := mkTransaction {
  tx_version : Z;
  lock_time : Z;
  tx_input : list TxIn;
  tx_output : list TxOut;
}.

Record Block := mkBlock { blk_header : Header; txdata : list Transaction }.

#[global] Instance Header_eq_dec : EqDecision Header.
Proof. solve_decision. Defined.
#[global] Instance TxOut_eq_dec : EqDecision TxOut.
Proof. solve_decision. Defined.
#[global] Instance TxIn_eq_dec : EqDecision TxIn.
Proof. solve_decision. Defined.
#[global] Instance Transaction_eq_dec : EqDecision Transaction.
Proof. solve_decision. Defined.

(** [Header::SIZE]. *)
Definition HEADER_SIZE : nat := 80.

Class BitcoinLib := {
  (** [sha256d::Hash::hash(..).to_byte_array()]. *)
  sha256d : bytes → bytes;
  (** [Header::block_hash().to_byte_array()]. *)
  block_hash : Header → bytes;
  (** [Transaction::compute_txid().to_byte_array()]. *)
  compute_txid : Transaction → bytes;
  is_coinbase : Transaction → bool;
  (** [deserialize::<Header>] and [serialize]. *)
  deserialize_header : bytes → option Header;
  serialize_header : Header → bytes;
  (** [deserialize_partial::<Transaction>]: the value and the bytes consumed. *)
  deserialize_partial_tx : bytes → option (Transaction * nat);
  deserialize_tx : bytes → option Transaction;
  (** [deserialize::<Vec<TxOut>>]. *)
  deserialize_txouts : bytes → option (list TxOut);
  deserialize_block : bytes → option Block;
  check_merkle_root : Block → bool;
  (** [Target] as the 256-bit integer it wraps. *)
  target_from_compact : Z → Z;
  is_met_by : Z → bytes → bool;
  (** [Script::is_op_return]. *)
  is_op_return : bytes → bool;
  (** [Address::from_script(.., Network::Bitcoin)] as a string. *)
  address_from_script : bytes → option string;
}.

Definition header_wf (h : Header) : Prop :=
  in_i32 (hdr_version h) ∧ length (prev_blockhash h) = 32%nat ∧
  length (merkle_root h) = 32%nat ∧ in_u32 (hdr_time h) ∧
  in_u32 (hdr_bits h) ∧ in_u32 (hdr_nonce h).

Class BitcoinLibLaws `{BitcoinLib} := {
  sha256d_length bs : length (sha256d bs) = 32%nat;
  block_hash_length h : length (block_hash h) = 32%nat;
  compute_txid_length tx : length (compute_txid tx) = 32%nat;
  is_coinbase_single_input tx : is_coinbase tx = true → length (tx_input tx) = 1%nat;
  (** Every 80-byte string is a header, and its fields are in range. *)
  deserialize_header_total bs :
    length bs = HEADER_SIZE →
    ∃ h, deserialize_header bs = Some h ∧ header_wf h ∧ serialize_header h = bs;
  serialize_header_length h : header_wf h → length (serialize_header h) = HEADER_SIZE;
  serialize_deserialize_header h :
    header_wf h → deserialize_header (serialize_header h) = Some h;
  (** A transaction decodes from its own bytes, whatever follows them. *)
  deserialize_partial_tx_prefix bs tx n :
    deserialize_partial_tx bs = Some (tx, n) →
    (n ≤ length bs)%nat ∧
    ∀ tail, deserialize_partial_tx (take n bs ++ tail) = Some (tx, n);
  (** Version, two counts and the lock time take at least ten bytes. *)
  deserialize_partial_tx_min bs tx n :
    deserialize_partial_tx bs = Some (tx, n) → (10 ≤ n)%nat;
  (** [Target::is_met_by] compares the little-endian hash with the target. *)
  is_met_by_le t h : is_met_by t h = (from_le_bytes h <=? t);
  (** [OP_RETURN] is the opcode 0x6a. *)
  is_op_return_first s : is_op_return s = true ↔ head s = Some x6a;
}.

(** ** An executable instance *)
Module Toy.

Definition pad32 (bs : bytes) : bytes := take 32 (bs ++ replicate 32 x00).

Definition ser_header (h : Header) : bytes :=
  to_le_bytes 4 (as_u32 (hdr_version h)) ++ prev_blockhash h ++ merkle_root h ++
  to_le_bytes 4 (hdr_time h) ++ to_le_bytes 4 (hdr_bits h) ++
  to_le_bytes 4 (hdr_nonce h).

Definition de_header (bs : bytes) : option Header :=
  if decide (length bs = 80%nat) then
    Some {| hdr_version := i32_from_le_bytes (slice 0 4 bs);
            prev_blockhash := slice 4 36 bs;
            merkle_root := slice 36 68 bs;
            hdr_time := from_le_bytes (slice 68 72 bs);
            hdr_bits := from_le_bytes (slice 72 76 bs);
            hdr_nonce := from_le_bytes (slice 76 80 bs) |}
  else None.

(** A transaction is the script of its only input. *)
Definition script_tx (script : bytes) : Transaction :=
  {| tx_version := 1; lock_time := 0;
     tx_input := [{| previous_output := (replicate 32 x00, 4294967295);
                     script_sig := script; sequence := 0; witness := [] |}];
     tx_output := [] |}.

(** The wire form: four version bytes, the script with its length, five more. *)
Definition tx_bytes (script : bytes) : bytes :=
  replicate 4 x01 ++ byte_of_Z (Z.of_nat (length script)) :: script ++ replicate 5 x00.

Definition de_partial_tx (bs : bytes) : option (Transaction * nat) :=
  match bs with
  | v1 :: v2 :: v3 :: v4 :: b :: bs =>
      let n := Z.to_nat (u8 b) in
      if decide (n + 5 ≤ length bs)%nat then Some (script_tx (take n bs), 10 + n)%nat else None
  | _ => None
  end.

Definition de_tx (bs : bytes) : option Transaction :=
  '(tx, n) ← de_partial_tx bs;
  if decide (n = length bs) then Some tx else None.

Definition txid (tx : Transaction) : bytes :=
  pad32 (default [] (script_sig <$> head (tx_input tx))).

Definition hash_header (h : Header) : bytes := pad32 (ser_header h).

Definition de_block (bs : bytes) : option Block :=
  h ← de_header (take 80 bs);
  tx ← de_tx (drop 80 bs);
  Some {| blk_header := h; txdata := [tx] |}.

#[export] Instance toy : BitcoinLib := {
  sha256d := pad32;
  block_hash := hash_header;
  compute_txid := txid;
  is_coinbase tx := bool_decide (length (tx_input tx) = 1%nat);
  deserialize_header := de_header;
  serialize_header := ser_header;
  deserialize_partial_tx := de_partial_tx;
  deserialize_tx := de_tx;
  deserialize_txouts bs := Some [{| txo_value := 0; script_pubkey := bs |}];
  deserialize_block := de_block;
  check_merkle_root b :=
    bool_decide (Some (merkle_root (blk_header b)) = txid <$> head (txdata b));
  target_from_compact bits := Z.land bits 8388607 * 256 ^ (Z.shiftr bits 24 - 3);
  is_met_by t h := from_le_bytes h <=? t;
  is_op_return s := bool_decide (head s = Some x6a);
  address_from_script _ := None;
}.

Lemma length_pad32 bs : length (pad32 bs) = 32%nat.
Proof. unfold pad32. rewrite length_take, length_app, length_replicate. lia. Qed.

Lemma ser_header_length h : header_wf h → length (ser_header h) = 80%nat.
Proof.
  intros (_ & Hp & Hm & _). unfold ser_header.
  rewrite !length_app, !length_to_le_bytes. lia.
Qed.

Lemma slice_app_l {A} (l k : list A) n : length l = n → slice 0 n (l ++ k) = l.
Proof. intros <-. unfold slice. rewrite Nat.sub_0_r, drop_0. apply take_app_length. Qed.

Lemma slice_app_r {A} (l k : list A) n i j :
  length l = n → slice (n + i) (n + j) (l ++ k) = slice i j k.
Proof.
  intros <-. unfold slice. rewrite drop_app_add. f_equal. lia.
Qed.

Lemma de_ser_header h : header_wf h → de_header (ser_header h) = Some h.
Proof.
  intros Hwf. unfold de_header. rewrite decide_True by by apply ser_header_length.
  destruct Hwf as (Hv & Hp & Hm & Ht & Hb & Hn), h as [v p m t b n]; simpl in *.
  unfold ser_header; cbn [hdr_version prev_blockhash merkle_root hdr_time hdr_bits hdr_nonce].
  do 2 f_equal.
  - rewrite slice_app_l by apply length_to_le_bytes. by apply i32_le_roundtrip.
  - rewrite (slice_app_r _ _ 4 0 32) by apply length_to_le_bytes. by apply slice_app_l.
  - rewrite (slice_app_r _ _ 4 32 64) by apply length_to_le_bytes.
    rewrite (slice_app_r _ _ 32 0 32) by done. by apply slice_app_l.
  - rewrite (slice_app_r _ _ 4 64 68) by apply length_to_le_bytes.
    rewrite (slice_app_r _ _ 32 32 36) by done.
    rewrite (slice_app_r _ _ 32 0 4) by done.
    rewrite slice_app_l by apply length_to_le_bytes. by apply from_to_le_bytes.
  - rewrite (slice_app_r _ _ 4 68 72) by apply length_to_le_bytes.
    rewrite (slice_app_r _ _ 32 36 40) by done.
    rewrite (slice_app_r _ _ 32 4 8) by done.
    rewrite (slice_app_r _ _ 4 0 4) by apply length_to_le_bytes.
    rewrite slice_app_l by apply length_to_le_bytes. by apply from_to_le_bytes.
  - rewrite (slice_app_r _ _ 4 72 76) by apply length_to_le_bytes.
    rewrite (slice_app_r _ _ 32 40 44) by done.
    rewrite (slice_app_r _ _ 32 8 12) by done.
    rewrite (slice_app_r _ _ 4 4 8) by apply length_to_le_bytes.
    rewrite (slice_app_r _ _ 4 0 4) by apply length_to_le_bytes.
    unfold slice. rewrite drop_0, take_ge by (rewrite length_to_le_bytes; lia).
    by apply from_to_le_bytes.
Qed.

Lemma header_bytes_split (bs : bytes) :
  length bs = 80%nat →
  bs = slice 0 4 bs ++ slice 4 36 bs ++ slice 36 68 bs ++ slice 68 72 bs ++
       slice 72 76 bs ++ slice 76 80 bs.
Proof.
  intros Hl. unfold slice. simpl.
  assert (∀ i j n, (j = i + n)%nat → take n (drop i bs) ++ drop j bs = drop i bs) as E.
  { intros i j n ->. rewrite <-drop_drop. apply take_drop. }
  rewrite (take_ge (drop 76 bs)) by (rewrite length_drop; lia).
  rewrite (E 72 76 4)%nat, (E 68 72 4)%nat, (E 36 68 32)%nat, (E 4 36 32)%nat by lia.
  symmetry. apply take_drop.
Qed.

Lemma de_header_total bs :
  length bs = 80%nat → ∃ h, de_header bs = Some h ∧ header_wf h ∧ ser_header h = bs.
Proof.
  intros Hl. unfold de_header. rewrite decide_True by done.
  eexists. split; [done|]. split.
  - repeat split; simpl; try apply wrap_i32_range;
      try (rewrite length_slice; lia); apply from_le_bytes_u32; rewrite length_slice; lia.
  - unfold ser_header; cbn [hdr_version prev_blockhash merkle_root hdr_time hdr_bits hdr_nonce].
    rewrite (header_bytes_split bs) at 7 by done.
    unfold i32_from_le_bytes. rewrite as_u32_as_i32 by
      (apply from_le_bytes_u32; rewrite length_slice; lia).
    assert (∀ i j, (j = i + 4)%nat → (j ≤ 80)%nat →
      to_le_bytes 4 (from_le_bytes (slice i j bs)) = slice i j bs) as E.
    { intros i j -> Hj. rewrite <-(to_from_le_bytes (slice i _ bs)) at 2.
      rewrite length_slice by lia. f_equal. lia. }
    by rewrite !E by lia.
Qed.

Lemma de_partial_tx_prefix bs tx n :
  de_partial_tx bs = Some (tx, n) →
  (n ≤ length bs)%nat ∧ ∀ tail, de_partial_tx (take n bs ++ tail) = Some (tx, n).
Proof.
  destruct bs as [|v1 [|v2 [|v3 [|v4 [|b bs]]]]]; try done.
  unfold de_partial_tx. cbv zeta. case_decide as Hd; [|done].
  intros [= <- <-]. split; [simpl; lia|]. intros tail.
  change (take _ (v1 :: v2 :: v3 :: v4 :: b :: bs))
    with (v1 :: v2 :: v3 :: v4 :: b :: take (5 + Z.to_nat (u8 b)) bs).
  remember (5 + Z.to_nat (u8 b))%nat as k eqn:Hk. simpl app.
  assert (length (take k bs) = k) as Hl by (rewrite length_take; lia).
  cbv beta iota. rewrite decide_True by (rewrite length_app; lia).
  rewrite take_app_le by (rewrite Hl; lia). by rewrite take_take, Nat.min_l by lia.
Qed.

Lemma de_partial_tx_min bs tx n : de_partial_tx bs = Some (tx, n) → (10 ≤ n)%nat.
Proof.
  unfold de_partial_tx. do 5 (destruct bs as [|? bs]; [done|]). cbv zeta.
  case_decide; [|done]. intros [= _ <-]. lia.
Qed.

#[export] Instance toy_laws : BitcoinLibLaws.
Proof.
  constructor.
  - intros. apply length_pad32.
  - intros. apply length_pad32.
  - intros. apply length_pad32.
  - intros tx H. by apply bool_decide_eq_true in H.
  - apply de_header_total.
  - apply ser_header_length.
  - apply de_ser_header.
  - apply de_partial_tx_prefix.
  - apply de_partial_tx_min.
  - done.
  - intros s. apply bool_decide_eq_true.
Qed.

End Toy.
