(* ===== verification/Effects.v ===== *)
(** * Effectful code

    The asynchronous code of the monitor talks to services (Bitcoin Core, child
    daemons, the database) whose answers may change between two calls. Such code is
    modelled in a monad over an abstract world: a call returns a value or an error
    and a new world. Nothing is assumed of the world. *)

From S2P Require Import Prelude.

Definition stM (W E A : Type) : Type := W → result E A * W.

#[global] Instance stM_ret W E : MRet (stM W E) := λ A a w, (Ok a, w).
#[global] Instance stM_bind W E : MBind (stM W E) := λ A B f m w,
  match m w with
  | (Ok a, w) => f a w
  | (Err e, w) => (Err e, w)
  end.

Definition throw {W E A} (e : E) : stM W E A := λ w, (Err e, w).
Definition lift {W E A} (r : result E A) : stM W E A := λ w, (r, w).
(** [match m.await { Ok(..) => .., Err(..) => .. }]: the outcome as a value. *)
Definition attempt {W E A} (m : stM W E A) : stM W E (result E A) := λ w,
  let '(r, w) := m w in (Ok r, w).
(** [with_context] on the error of an effect. *)
Definition on_err {W E A} (f : E → E) (m : stM W E A) : stM W E A := λ w,
  let '(r, w) := m w in (map_err f r, w).
(** Read and update the world. *)
Definition gets {W E A} (f : W → A) : stM W E A := λ w, (Ok (f w), w).
Definition modify {W E} (f : W → W) : stM W E unit := λ w, (Ok (), f w).
(** An effect that also reports a value of its own on failure. *)
Definition state_run {W E A} (f : W → A * W) : stM W E A := λ w, let '(a, w) := f w in (Ok a, w).
Definition guardM {W E} (c : bool) (e : E) : stM W E unit := lift (ensure c e).

Section lemmas.
Context {W E : Type}.

Lemma st_bind_Ok {A B} (m : stM W E A) (f : A → stM W E B) w b w' :
  (m ≫= f) w = (Ok b, w') ↔ ∃ a w1, m w = (Ok a, w1) ∧ f a w1 = (Ok b, w').
Proof.
  unfold mbind, stM_bind. destruct (m w) as [[a|e] w1]; naive_solver.
Qed.

Lemma st_attempt_Ok {A} (m : stM W E A) w r w' :
  attempt m w = (Ok r, w') ↔ m w = (r, w').
Proof. unfold attempt. destruct (m w) as [r0 w0]. naive_solver. Qed.

Lemma st_lift_Ok {A} (r : result E A) (w w' : W) a : lift r w = (Ok a, w') ↔ r = Ok a ∧ w' = w.
Proof. unfold lift. naive_solver. Qed.

Lemma st_ret_Ok {A} (a b : A) (w w' : W) :
  (mret a : stM W E A) w = (Ok b, w') ↔ b = a ∧ w' = w.
Proof. unfold mret, stM_ret. naive_solver. Qed.

Lemma st_on_err_Ok {A} f (m : stM W E A) w a w' : on_err f m w = (Ok a, w') ↔ m w = (Ok a, w').
Proof. unfold on_err. destruct (m w) as [[|] ?]; naive_solver. Qed.

Lemma st_guard_Ok c (e : E) (w w' : W) u : guardM c e w = (Ok u, w') ↔ c = true ∧ w' = w.
Proof. unfold guardM. rewrite st_lift_Ok, ensure_Ok. done. Qed.

Lemma st_gets_Ok {A} (f : W → A) w a w' :
  (gets f : stM W E A) w = (Ok a, w') ↔ a = f w ∧ w' = w.
Proof. unfold gets. naive_solver. Qed.

Lemma st_modify_Ok (f : W → W) w u w' :
  (modify f : stM W E unit) w = (Ok u, w') ↔ w' = f w.
Proof. unfold modify. destruct u. naive_solver. Qed.

Lemma st_attempt_bind {A B} (m : stM W E A) (f : result E A → stM W E B) w :
  (attempt m ≫= f) w = f (m w).1 (m w).2.
Proof. unfold attempt, mbind, stM_bind. by destruct (m w). Qed.

(** [m] moves the world along [R], whatever its outcome. *)
Definition steps {A} (R : W → W → Prop) (m : stM W E A) : Prop := ∀ w, R w (m w).2.

Section steps.
Context (R : W → W → Prop) `{!PreOrder R}.

Lemma steps_ret {A} (a : A) : steps R (mret a : stM W E A).
Proof. intros w. simpl. reflexivity. Qed.
Lemma steps_lift {A} (r : result E A) : steps R (lift r : stM W E A).
Proof. intros w. simpl. reflexivity. Qed.
Lemma steps_throw {A} (e : E) : steps R (throw e : stM W E A).
Proof. intros w. simpl. reflexivity. Qed.
Lemma steps_gets {A} (f : W → A) : steps R (gets f : stM W E A).
Proof. intros w. simpl. reflexivity. Qed.
Lemma steps_bind {A B} (m : stM W E A) (f : A → stM W E B) :
  steps R m → (∀ a, steps R (f a)) → steps R (m ≫= f).
Proof.
  intros Hm Hf w. unfold mbind, stM_bind. specialize (Hm w).
  destruct (m w) as [[a|e] w1]; [|done]. simpl in Hm. etrans; [exact Hm|apply Hf].
Qed.
Lemma steps_attempt {A} (m : stM W E A) : steps R m → steps R (attempt m).
Proof. intros Hm w. unfold attempt. specialize (Hm w). by destruct (m w). Qed.
Lemma steps_on_err {A} f (m : stM W E A) : steps R m → steps R (on_err f m).
Proof. intros Hm w. unfold on_err. specialize (Hm w). by destruct (m w). Qed.

(** From a world of [P], [m] moves along [R] and a result leaves a world of [Q]. *)
Definition guarantees {A} (P : W → Prop) (m : stM W E A) (Q : A → W → Prop) : Prop :=
  ∀ w, P w → R w (m w).2 ∧ ∀ a, (m w).1 = Ok a → Q a (m w).2.

Lemma guarantees_steps {A} (P : W → Prop) (m : stM W E A) :
  guarantees P m (λ _ _, True) → (∀ w, P w) → steps R m.
Proof. intros Hm HP w. by apply Hm. Qed.
Lemma guarantees_bind {A B} (P : W → Prop) (m : stM W E A) (Q : A → W → Prop) (f : A → stM W E B) S :
  guarantees P m Q → (∀ a, guarantees (Q a) (f a) S) → guarantees P (m ≫= f) S.
Proof.
  intros Hm Hf w HP. destruct (Hm w HP) as [HR HQ]. unfold mbind, stM_bind.
  destruct (m w) as [[a|e] w1]; [|by split].
  destruct (Hf a w1 (HQ a eq_refl)) as [HR2 HS]. split; [|done]. etrans; [exact HR|exact HR2].
Qed.
(** A step of the environment keeps what is stable along [R]. *)
Lemma guarantees_stable {A} (P : W → Prop) (m : stM W E A) :
  steps R m → (∀ w w', P w → R w w' → P w') → guarantees P m (λ _, P).
Proof. intros Hm Hs w HP. split; [apply Hm|]. intros a _. eapply Hs; [exact HP|apply Hm]. Qed.
Lemma guarantees_post {A} (P : W → Prop) (m : stM W E A) (Q Q' : A → W → Prop) :
  guarantees P m Q → (∀ a w, Q a w → Q' a w) → guarantees P m Q'.
Proof. intros Hm Hq w HP. destruct (Hm w HP). split; eauto. Qed.
Lemma guarantees_ret {A} (P : W → Prop) (a : A) (Q : A → W → Prop) :
  (∀ w, P w → Q a w) → guarantees P (mret a : stM W E A) Q.
Proof. intros HQ w HP. split; [reflexivity|]. intros b [= <-]. by apply HQ. Qed.
End steps.
End lemmas.

(** Decompose a successful effectful computation into its steps. *)
Ltac st_inv :=
  repeat match goal with
  | H : (Ok _, _) = (Ok _, _) |- _ => progress simplify_eq
  | H : (Err _, _) = (Ok _, _) |- _ => discriminate H
  | H : (_ ≫= _) _ = (Ok _, _) |- _ => apply st_bind_Ok in H as (? & ? & ? & ?)
  | H : attempt _ _ = (Ok _, _) |- _ => apply (proj1 (st_attempt_Ok _ _ _ _)) in H
  | H : @mret _ (stM_ret _ _) _ _ _ = (Ok _, _) |- _ => apply st_ret_Ok in H as [? ?]; simplify_eq
  | H : lift _ _ = (Ok _, _) |- _ => apply st_lift_Ok in H as [? ?]; simplify_eq
  | H : throw _ _ = (Ok _, _) |- _ => discriminate H
  | H : on_err _ _ _ = (Ok _, _) |- _ => apply (proj1 (st_on_err_Ok _ _ _ _ _)) in H
  | H : guardM _ _ _ = (Ok _, _) |- _ => apply st_guard_Ok in H as [? ?]; simplify_eq
  | H : gets _ _ = (Ok _, _) |- _ => apply st_gets_Ok in H as [? ?]; simplify_eq
  | H : modify _ _ = (Ok _, _) |- _ => apply st_modify_Ok in H; simplify_eq
  | x : unit |- _ => destruct x
  end.

Create HintDb steps.
#[export] Hint Resolve steps_ret steps_lift steps_throw steps_gets : steps.

(** Walk through the binds and tests of an effect. *)
Ltac solve_steps :=
  repeat first
    [ progress intros | progress cbv zeta
    | solve [eauto 2 with steps nocore typeclass_instances]
    | apply steps_bind; [apply _| |] | apply steps_attempt | apply steps_on_err
    | match goal with
      | |- steps _ (if ?b then _ else _) => destruct b
      | |- steps _ (match ?x with _ => _ end) => destruct x
      end ].
