(* ===== verification/Errors.v ===== *)
(** * Application errors

    The one error type of the program, [anyhow::Error], with the concrete error
    types its callers recover: the Core categories of
    [crates/mmm-bitcoin-core/src/availability.rs], Core's JSON-RPC errors, and the
    producers' own markers. [downcast_ref] finds a value through added context. *)

From S2P Require Import Prelude.

Inductive CoreUnavailable :=
| UTransport | UTimeout | UWarmup | UInitialBlockDownload | UHeaderLag | UStaleTip.

Inductive CoreFault := WrongNetwork | Authentication | InvalidResponse.

(** [bitcoin_core_backbone/integrity.rs]. *)
Inductive BackboneIntegrityError :=
| HeightConflict | LinkMismatch | LiveWindowInvariant | TargetTipChanged.

Inductive anyhow :=
| RpcError (code : Z) (message : string)
| Unavailable (u : CoreUnavailable)
| Fault (f : CoreFault)
| LocalRecoveryPending (reason : string)
| HeaderCacheIntegrity
| BackboneIntegrity (k : BackboneIntegrityError)
| ReconcileBudgetExhausted
| ReconcileLockSetChanged (event_id : Z)
| PgError (sqlstate : string)
| Other (m : string)
| Context (m : string) (e : anyhow)
| FaultContext (f : CoreFault) (e : anyhow)
| HeaderCacheContext (e : anyhow)
| IntegrityFailureContext (code : string) (height : Z) (e : anyhow).

(** The error under the added context. A context value of a concrete type is found
    by [downcast_ref] as well, before the error it wraps. *)
Fixpoint root (e : anyhow) : anyhow :=
  match e with
  | Context _ e | FaultContext _ e | HeaderCacheContext e | IntegrityFailureContext _ _ e => root e
  | e => e
  end.

(** [downcast_ref::<CoreError>()], for an error Core answered. *)
Definition core_rpc_error (e : anyhow) : option (Z * string) :=
  match root e with RpcError code message => Some (code, message) | _ => None end.

(** [downcast_ref::<CoreUnavailable>()]. *)
Definition downcast_unavailable (e : anyhow) : option CoreUnavailable :=
  match root e with Unavailable u => Some u | _ => None end.

(** [downcast_ref::<LocalRecoveryPending>()]. *)
Definition downcast_local_recovery (e : anyhow) : option string :=
  match root e with LocalRecoveryPending r => Some r | _ => None end.

(** [downcast_ref::<BackboneIntegrityError>()]. *)
Definition downcast_backbone (e : anyhow) : option BackboneIntegrityError :=
  match root e with BackboneIntegrity k => Some k | _ => None end.

(** [downcast_ref::<CoreFault>()]. *)
Fixpoint downcast_fault (e : anyhow) : option CoreFault :=
  match e with
  | Fault f | FaultContext f _ => Some f
  | Context _ e | HeaderCacheContext e | IntegrityFailureContext _ _ e => downcast_fault e
  | _ => None
  end.

Fixpoint is_bitcoin_core_header_cache_integrity_error (e : anyhow) : bool :=
  match e with
  | HeaderCacheIntegrity | HeaderCacheContext _ => true
  | Context _ e | FaultContext _ e | IntegrityFailureContext _ _ e =>
      is_bitcoin_core_header_cache_integrity_error e
  | _ => false
  end.

Definition is_backbone_integrity_error (e : anyhow) : bool :=
  match downcast_backbone e with Some _ => true | None => false end.

(** [BackboneIntegrityFailure::into_error], and [downcast_ref::<BackboneIntegrityFailure>()]
    with the code and height to persist. *)
Definition into_error (k : BackboneIntegrityError) (code : string) (height : Z) : anyhow :=
  IntegrityFailureContext code height (BackboneIntegrity k).

Fixpoint downcast_integrity_failure (e : anyhow) : option (string * Z) :=
  match e with
  | IntegrityFailureContext code height _ => Some (code, height)
  | Context _ e | FaultContext _ e | HeaderCacheContext e => downcast_integrity_failure e
  | _ => None
  end.

(** [integrity_error]: the kind under a message. *)
Definition integrity_error (k : BackboneIntegrityError) (m : string) : anyhow :=
  Context m (BackboneIntegrity k).

Definition is_reconcile_budget_exhausted (e : anyhow) : bool :=
  match root e with ReconcileBudgetExhausted => true | _ => false end.

Definition is_reconcile_lock_set_changed (e : anyhow) : bool :=
  match root e with ReconcileLockSetChanged _ => true | _ => false end.

(** [downcast_ref::<tokio_postgres::Error>().and_then(Error::code)]. *)
Definition pg_code (e : anyhow) : option string :=
  match root e with PgError c => Some c | _ => None end.
Definition LOCK_NOT_AVAILABLE : string := "55P03".

Definition CoreUnavailable_code (u : CoreUnavailable) : string :=
  match u with
  | UTransport => "core_unreachable"
  | UTimeout => "core_timeout"
  | UWarmup => "core_warmup"
  | UInitialBlockDownload => "core_initial_block_download"
  | UHeaderLag => "core_header_lag"
  | UStaleTip => "core_stale_tip"
  end.

Definition CoreFault_code (f : CoreFault) : string :=
  match f with
  | WrongNetwork => "core_wrong_network"
  | Authentication => "core_authentication"
  | InvalidResponse => "core_invalid_response"
  end.
