(* ===== verification/Reader.v ===== *)
(** * The bounded byte cursor and the [CAuxPow] reader

    Models [crates/mmm-capture/src/auxpow/reader.rs] and the proof data types of
    [auxpow/mod.rs]. A reader is a buffer and a position; every operation is a
    function [Reader → result error (A * Reader)], because no caller looks at a
    reader again after an error. *)

From S2P Require Import Prelude BitcoinLib.

(** ** Data *)

Record ParsedHeader := mkParsedHeader { ph_header : Header }.

Record MerkleBranch := mkMerkleBranch {
  mb_hashes : list bytes;
  mb_index : Z;
}.

Record ParsedTransaction := mkParsedTransaction {
  pt_txid : bytes;
  pt_is_coinbase : bool;
  pt_first_input_script : option bytes;
  pt_outputs : list TxOut;
}.

Record ParsedAuxpow := mkParsedAuxpow {
  pa_coinbase_tx : ParsedTransaction;
  pa_hash_block : bytes;
  pa_coinbase_branch : MerkleBranch;
  pa_chain_branch : MerkleBranch;
  pa_parent_header : ParsedHeader;
}.

Record Reader := mkReader { rd_buf : bytes; rd_pos : nat }.

#[global] Instance ParsedHeader_eq_dec : EqDecision ParsedHeader.
Proof. solve_decision. Defined.
#[global] Instance MerkleBranch_eq_dec : EqDecision MerkleBranch.
Proof. solve_decision. Defined.

(** The reader monad. *)
Definition readM (A : Type) : Type := Reader → result error (A * Reader).

#[global] Instance readM_ret : MRet readM := λ A a r, Ok (a, r).
#[global] Instance readM_bind : MBind readM := λ A B f m r,
  match m r with Ok (a, r') => f a r' | Err e => Err e end.

Definition liftM {A} (m : result error A) : readM A := λ r,
  match m with Ok a => Ok (a, r) | Err e => Err e end.
Definition contextM {A} (msg : string) (m : readM A) : readM A := λ r,
  with_context msg (m r).
Definition ensureM (c : bool) (e : error) : readM unit := liftM (ensure c e).

(** ** [Reader] *)

Definition Reader_new (buf : bytes) : Reader := mkReader buf 0.
Definition is_eof (r : Reader) : bool := bool_decide (length (rd_buf r) ≤ rd_pos r)%nat.
Definition remaining_slice (r : Reader) : bytes := drop (rd_pos r) (rd_buf r).

Definition read_slice (len : nat) : readM bytes := λ r,
  let end_ := (rd_pos r + len)%nat in
  _ ← ensure (Z.of_nat end_ <=? usize_MAX) (Msg "reader position overflow");
  _ ← ensure (bool_decide (end_ ≤ length (rd_buf r))%nat) (Msg "unexpected end of input");
  Ok (slice (rd_pos r) end_ (rd_buf r), mkReader (rd_buf r) end_).

Definition skip (len : nat) : readM unit := _ ← read_slice len; mret ().
Definition read_array (n : nat) : readM bytes := read_slice n.
Definition read_u8 : readM byte := a ← read_array 1; mret (default x00 (head a)).
Definition read_i32 : readM Z := a ← read_array 4; mret (i32_from_le_bytes a).

Definition read_varint : readM Z :=
  first ← read_u8;
  let v := u8 first in
  if v <=? 252 then mret v
  else if v =? 253 then a ← read_array 2; mret (from_le_bytes a)
  else if v =? 254 then a ← read_array 4; mret (from_le_bytes a)
  else a ← read_array 8; mret (from_le_bytes a).

Definition read_varint_usize : readM Z :=
  v ← read_varint;
  _ ← ensureM (v <=? usize_MAX) (Msg "varint value overflows usize");
  mret v.

(** ** Records *)

Fixpoint read_hashes (msg : string) (count : nat) : readM (list bytes) :=
  match count with
  | O => mret []
  | S count =>
      h ← contextM msg (read_array 32);
      hs ← read_hashes msg count;
      mret (h :: hs)
  end.

(** The count is bounded by [remaining / 32] before anything is allocated. *)
Definition read_merkle_branch : readM (list bytes) :=
  count ← read_varint_usize;
  _ ← (λ r, ensureM (count <=? Z.of_nat (length (remaining_slice r)) / 32)
              (Msg "merkle branch count exceeds the remaining bytes") r);
  read_hashes "read merkle branch hash" (Z.to_nat count).

Section with_lib.
Context `{BitcoinLib}.

Definition parse_header (raw : bytes) : result error ParsedHeader :=
  h ← with_context "deserialize Bitcoin block header"
        (ok_or (Msg "encode::Error") (deserialize_header raw));
  mret (mkParsedHeader h).

Definition read_transaction : readM ParsedTransaction := λ r,
  '(tx, consumed) ← with_context "parse transaction"
     (ok_or (Msg "encode::Error") (deserialize_partial_tx (remaining_slice r)));
  '(_, r) ← skip consumed r;
  Ok ({| pt_txid := compute_txid tx;
         pt_is_coinbase := is_coinbase tx;
         pt_first_input_script := script_sig <$> head (tx_input tx);
         pt_outputs := tx_output tx |}, r).

Definition read_auxpow : readM ParsedAuxpow :=
  coinbase_tx ← contextM "parse parent coinbase transaction" read_transaction;
  hash_block ← contextM "read AuxPoW hashBlock" (read_array 32);
  coinbase_branch_hashes ← contextM "read parent merkle branch" read_merkle_branch;
  coinbase_branch_index ← contextM "read parent merkle index" read_i32;
  chain_branch_hashes ← contextM "read child chain merkle branch" read_merkle_branch;
  chain_branch_index ← contextM "read child chain index" read_i32;
  raw ← contextM "read parent header" (read_array HEADER_SIZE);
  parent_header ← liftM (with_context "parse parent header" (parse_header raw));
  mret {| pa_coinbase_tx := coinbase_tx;
          pa_hash_block := hash_block;
          pa_coinbase_branch := mkMerkleBranch coinbase_branch_hashes coinbase_branch_index;
          pa_chain_branch := mkMerkleBranch chain_branch_hashes chain_branch_index;
          pa_parent_header := parent_header |}.

End with_lib.

(** ** The reader's contract

    [reads m enc a]: started where the bytes [enc] begin, [m] returns [a] and
    stops where they end, whatever surrounds them. [read_local m]: a successful
    run of [m] keeps the position in the buffer, never moves it back, and reads
    nothing but the bytes it moved over. *)

Definition reader_inv (r : Reader) : Prop :=
  (rd_pos r ≤ length (rd_buf r))%nat ∧ Z.of_nat (length (rd_buf r)) ≤ usize_MAX.

Definition reads {A} (m : readM A) (enc : bytes) (a : A) : Prop :=
  ∀ pre tail, Z.of_nat (length (pre ++ enc ++ tail)) ≤ usize_MAX →
    m (mkReader (pre ++ enc ++ tail) (length pre)) =
    Ok (a, mkReader (pre ++ enc ++ tail) (length pre + length enc)).

Definition read_local {A} (m : readM A) : Prop :=
  ∀ r a r', reader_inv r → m r = Ok (a, r') →
    reader_inv r' ∧ rd_buf r' = rd_buf r ∧ (rd_pos r ≤ rd_pos r')%nat ∧
    reads m (slice (rd_pos r) (rd_pos r') (rd_buf r)) a.

Lemma slice_join {A} i j k (l : list A) :
  (i ≤ j ≤ k)%nat → slice i j l ++ slice j k l = slice i k l.
Proof.
  intros. unfold slice. replace (drop j l) with (drop (j - i) (drop i l)).
  - replace (k - i)%nat with (j - i + (k - j))%nat by lia. apply take_take_drop.
  - rewrite drop_drop. f_equal. lia.
Qed.

Lemma slice_refl {A} i (l : list A) : slice i i l = [].
Proof. unfold slice. by rewrite Nat.sub_diag. Qed.

Lemma reads_ret {A} (a : A) : reads (mret a) [] a.
Proof. intros pre tail _. simpl. by rewrite Nat.add_0_r. Qed.

Lemma reads_bind {A B} (m : readM A) (f : A → readM B) e1 e2 a b :
  reads m e1 a → reads (f a) e2 b → reads (m ≫= f) (e1 ++ e2) b.
Proof.
  intros Hm Hf pre tail Hl. unfold mbind, readM_bind.
  rewrite <-(assoc_L (++) e1) in *. rewrite Hm by done.
  specialize (Hf (pre ++ e1) tail). rewrite !length_app, <-!(assoc_L (++)) in Hf.
  rewrite Hf by (rewrite !length_app in *; lia). rewrite length_app. do 3 f_equal. lia.
Qed.

Lemma reads_context {A} msg (m : readM A) e a : reads m e a → reads (contextM msg m) e a.
Proof. intros Hm pre tail Hl. unfold contextM. by rewrite Hm. Qed.

Lemma read_slice_Ok n r :
  reader_inv r → (rd_pos r + n ≤ length (rd_buf r))%nat →
  read_slice n r =
  Ok (slice (rd_pos r) (rd_pos r + n) (rd_buf r), mkReader (rd_buf r) (rd_pos r + n)).
Proof.
  intros [_ Hl] Hn. unfold read_slice.
  replace (_ <=? usize_MAX) with true by (symmetry; apply Z.leb_le; lia).
  by rewrite bool_decide_eq_true_2 by lia.
Qed.

Lemma reads_slice n e : length e = n → reads (read_slice n) e e.
Proof.
  intros <- pre tail Hl. rewrite read_slice_Ok; simpl.
  - unfold slice. replace (_ - length pre)%nat with (length e) by lia.
    by rewrite drop_app_length, take_app_length.
  - split; simpl; [rewrite length_app; lia|done].
  - rewrite !length_app. lia.
Qed.

Lemma local_ret {A} (a : A) : read_local (mret a).
Proof.
  intros r a' r' Hr [= <- <-]. split_and!; [done..|]. rewrite slice_refl. apply reads_ret.
Qed.

Lemma local_bind {A B} (m : readM A) (f : A → readM B) :
  read_local m → (∀ a, read_local (f a)) → read_local (m ≫= f).
Proof.
  intros Hm Hf r b r2 Hr Hb. unfold mbind, readM_bind in Hb.
  destruct (m r) as [[a r1]|] eqn:E1; [|done].
  destruct (Hm _ _ _ Hr E1) as (Hr1 & Hb1 & Hp1 & Hd1).
  destruct (Hf _ _ _ _ Hr1 Hb) as (Hr2 & Hb2 & Hp2 & Hd2).
  split_and!; [done|congruence|lia|].
  rewrite <-(slice_join _ (rd_pos r1)) by lia. rewrite Hb1 in Hd2.
  by eapply reads_bind.
Qed.

Lemma local_context {A} msg (m : readM A) : read_local m → read_local (contextM msg m).
Proof.
  intros Hm r a r' Hr Ha. unfold contextM in Ha. res_inv.
  destruct (Hm _ _ _ Hr Ha) as (? & ? & ? & ?). split_and!; try done.
  by apply reads_context.
Qed.

Lemma local_lift {A} (m : result error A) : read_local (liftM m).
Proof.
  intros r a r' Hr Ha. unfold liftM in Ha. destruct m; [|done]. injection Ha as -> ->.
  split_and!; [done..|]. rewrite slice_refl. intros pre tail _. simpl.
  by rewrite Nat.add_0_r.
Qed.

Lemma local_slice n : read_local (read_slice n).
Proof.
  intros r a r' [Hp Hl] Ha. unfold read_slice in Ha. res_inv.
  simpl. split_and!; try done; try lia.
  apply reads_slice. rewrite length_slice by lia. lia.
Qed.

(** Readers proved local, by name. *)
Create HintDb rlocal.
#[export] Hint Resolve local_slice local_lift local_ret : rlocal.

(** Walk through the binds and tests of a reader. *)
Ltac solve_local :=
  repeat first
    [ progress intros | progress cbv zeta
    | solve [auto 1 with rlocal nocore]
    | apply local_bind | apply local_ret | apply local_context
    | apply local_lift | apply local_slice
    | match goal with |- read_local (if ?b then _ else _) => destruct b end
    | assumption ].

Lemma local_varint : read_local read_varint.
Proof. unfold read_varint, read_u8, read_array. solve_local. Qed.

#[export] Hint Resolve local_varint : rlocal.

Lemma local_varint_usize : read_local read_varint_usize.
Proof. unfold read_varint_usize, ensureM. solve_local. Qed.

Lemma local_i32 : read_local read_i32.
Proof. unfold read_i32, read_array. solve_local. Qed.

Lemma local_array n : read_local (read_array n).
Proof. apply local_slice. Qed.

#[export] Hint Resolve local_varint_usize local_i32 local_array : rlocal.

Lemma varint_nonneg r v r' : read_varint r = Ok (v, r') → 0 ≤ v.
Proof.
  unfold read_varint, mbind, readM_bind.
  destruct (read_u8 r) as [[b r1]|]; [|done].
  pose proof (u8_range b). unfold mret, readM_ret.
  repeat case_match; intros; simplify_eq; first [lia|apply from_le_bytes_range].
Qed.

Lemma varint_usize_range r v r' : read_varint_usize r = Ok (v, r') → 0 ≤ v ≤ usize_MAX.
Proof.
  unfold read_varint_usize, ensureM, liftM, mbind, readM_bind.
  destruct (read_varint r) as [[w r1]|] eqn:E; [|done]. apply varint_nonneg in E.
  destruct (ensure _ _) eqn:E2; [|done]. res_inv. intros [= -> _]. lia.
Qed.

(** ** Merkle branches *)

Definition hash32 (h : bytes) : Prop := length h = 32%nat.

Lemma length_concat_hashes hs : Forall hash32 hs → length (concat hs) = (32 * length hs)%nat.
Proof. induction 1 as [|h hs Hh _ IH]; [done|]. simpl. rewrite length_app, IH, Hh. lia. Qed.

Lemma reads_hashes msg hs :
  Forall hash32 hs → reads (read_hashes msg (length hs)) (concat hs) hs.
Proof.
  induction 1 as [|h hs Hh _ IH]; [apply reads_ret|]. simpl.
  eapply reads_bind; [apply reads_context, reads_slice, Hh|].
  rewrite <-(app_nil_r (concat hs)). eapply reads_bind; [apply IH|]. apply reads_ret.
Qed.

Lemma reader_split r n :
  reader_inv r → (rd_pos r + n ≤ length (rd_buf r))%nat →
  r = mkReader (take (rd_pos r) (rd_buf r) ++ slice (rd_pos r) (rd_pos r + n) (rd_buf r)
                  ++ drop (rd_pos r + n) (rd_buf r))
        (length (take (rd_pos r) (rd_buf r))).
Proof.
  destruct r as [buf pos]; simpl. intros [Hp _] Hn. simpl in *. f_equal.
  - unfold slice. replace (pos + n - pos)%nat with n by lia.
    rewrite <-drop_drop, take_drop. symmetry. apply take_drop.
  - rewrite length_take. lia.
Qed.

(** A reader of [enc] run at a position where [enc] stands. *)
Lemma reads_at {A} (m : readM A) r n a :
  reader_inv r → (rd_pos r + n ≤ length (rd_buf r))%nat →
  reads m (slice (rd_pos r) (rd_pos r + n) (rd_buf r)) a →
  m r = Ok (a, mkReader (rd_buf r) (rd_pos r + n)).
Proof.
  intros Hr Hn Hm. pose proof (reader_split r n Hr Hn) as E.
  specialize (Hm (take (rd_pos r) (rd_buf r)) (drop (rd_pos r + n) (rd_buf r))).
  rewrite <-E in Hm. destruct r as [buf pos]; simpl in *. injection E as E1 E2.
  destruct Hr as [Hp Hl]; simpl in *.
  rewrite Hm by (rewrite <-E1; done).
  rewrite <-E1, <-E2, length_slice by lia. do 3 f_equal. lia.
Qed.

Fixpoint chunks32 (n : nat) (bs : bytes) : list bytes :=
  match n with O => [] | S n => take 32 bs :: chunks32 n (drop 32 bs) end.

Lemma chunks32_spec n bs :
  (32 * n ≤ length bs)%nat →
  Forall hash32 (chunks32 n bs) ∧ length (chunks32 n bs) = n ∧
  concat (chunks32 n bs) = take (32 * n) bs.
Proof.
  revert bs. induction n as [|n IH]; intros bs Hn; [done|]. simpl.
  destruct (IH (drop 32 bs)) as (H1 & H2 & H3); [rewrite length_drop; lia|].
  split_and!; [constructor; [unfold hash32; rewrite length_take; lia|done]|by f_equal|].
  rewrite H3, take_take_drop. f_equal. lia.
Qed.

Lemma read_hashes_Ok msg n r :
  reader_inv r → (32 * n ≤ length (remaining_slice r))%nat →
  ∃ hs, read_hashes msg n r = Ok (hs, mkReader (rd_buf r) (rd_pos r + 32 * n)) ∧
        Forall hash32 hs ∧ length hs = n ∧ concat hs = take (32 * n) (remaining_slice r).
Proof.
  intros Hr Hn. destruct (chunks32_spec n (remaining_slice r) Hn) as (H1 & H2 & H3).
  eexists. split; [|by split_and!].
  apply reads_at; [done|destruct Hr; unfold remaining_slice in Hn; rewrite length_drop in Hn; lia|].
  unfold slice. replace (_ - rd_pos r)%nat with (32 * n)%nat by lia.
  fold (remaining_slice r). rewrite <-H3. rewrite <-H2 at 1. by apply reads_hashes.
Qed.

Lemma reads_merkle_branch e hs :
  reads read_varint_usize e (Z.of_nat (length hs)) → Forall hash32 hs →
  reads read_merkle_branch (e ++ concat hs) hs.
Proof.
  intros He Hhs. unfold read_merkle_branch. eapply reads_bind; [apply He|].
  intros pre tail Hl. unfold mbind, readM_bind, ensureM, liftM.
  rewrite (proj2 (ensure_Ok _ _ tt)).
  - rewrite Nat2Z.id. by apply reads_hashes.
  - apply Z.leb_le, Z.div_le_lower_bound; [lia|].
    unfold remaining_slice; simpl. rewrite drop_app_length, length_app.
    rewrite length_concat_hashes by done. lia.
Qed.

(** The complete behaviour of [read_merkle_branch] after its count: with enough
    bytes left it returns exactly that many hashes, cut from the buffer in order,
    and otherwise it fails before reading or allocating any. *)
Lemma read_merkle_branch_spec r c r1 :
  reader_inv r → read_varint_usize r = Ok (c, r1) →
  if decide (32 * c ≤ Z.of_nat (length (remaining_slice r1))) then
    ∃ hs, read_merkle_branch r = Ok (hs, mkReader (rd_buf r) (rd_pos r1 + 32 * Z.to_nat c)) ∧
          Z.of_nat (length hs) = c ∧ Forall hash32 hs ∧
          concat hs = take (32 * Z.to_nat c) (remaining_slice r1)
  else read_merkle_branch r = Err (Msg "merkle branch count exceeds the remaining bytes").
Proof.
  intros Hr Hc. pose proof (varint_usize_range _ _ _ Hc) as [Hc0 _].
  destruct (local_varint_usize _ _ _ Hr Hc) as (Hr1 & Hb & _ & _).
  unfold read_merkle_branch, mbind, readM_bind, ensureM, liftM. rewrite Hc.
  case_decide as Hd.
  - rewrite (proj2 (ensure_Ok _ _ tt)) by (apply Z.leb_le, Z.div_le_lower_bound; lia).
    destruct (read_hashes_Ok "read merkle branch hash" (Z.to_nat c) r1 Hr1) as (hs & E & H1 & H2 & H3);
      [lia|].
    exists hs. rewrite E, Hb. split_and!; [done|lia|done..].
  - replace (c <=? _) with false; [done|]. symmetry.
    apply Z.leb_gt, Z.div_lt_upper_bound; lia.
Qed.

Lemma local_merkle_branch : read_local read_merkle_branch.
Proof.
  intros r hs r' Hr Hrun.
  destruct (read_varint_usize r) as [[c r1]|e] eqn:Hc.
  2: { unfold read_merkle_branch, mbind, readM_bind in Hrun. by rewrite Hc in Hrun. }
  pose proof (read_merkle_branch_spec r c r1 Hr Hc) as Hs.
  case_decide as Hd; [|congruence]. destruct Hs as (hs' & E & Hn & Hf & Hcat).
  rewrite E in Hrun. injection Hrun as <- <-. simpl.
  destruct (local_varint_usize _ _ _ Hr Hc) as (Hr1 & Hb & Hp & Hd1).
  assert (32 * Z.to_nat c ≤ length (remaining_slice r1))%nat as Hn'.
  { pose proof (varint_usize_range _ _ _ Hc). lia. }
  unfold remaining_slice in Hn'. rewrite length_drop in Hn'.
  destruct Hr1 as [Hr1 Hl1].
  split_and!; [split; simpl; rewrite <-Hb; [lia|done]|done|lia|].
  rewrite <-(slice_join _ (rd_pos r1)) by lia.
  replace (slice (rd_pos r1) _ (rd_buf r)) with (concat hs').
  - apply reads_merkle_branch; [by rewrite Hn|done].
  - rewrite Hcat. unfold remaining_slice, slice. rewrite Hb. f_equal. lia.
Qed.
#[export] Hint Resolve local_merkle_branch : rlocal.

(** ** Encodings *)

Definition encode_varint (v : Z) : bytes :=
  if v <=? 252 then [byte_of_Z v]
  else if v <? 65536 then xfd :: to_le_bytes 2 v
  else if v <? 4294967296 then xfe :: to_le_bytes 4 v
  else xff :: to_le_bytes 8 v.

Definition encode_branch (b : MerkleBranch) : bytes :=
  encode_varint (Z.of_nat (length (mb_hashes b))) ++ concat (mb_hashes b) ++
  to_le_bytes 4 (as_u32 (mb_index b)).

Definition branch_wf (b : MerkleBranch) : Prop :=
  Forall hash32 (mb_hashes b) ∧ in_i32 (mb_index b) ∧
  Z.of_nat (length (mb_hashes b)) ≤ usize_MAX.

Lemma reads_u8 b : reads read_u8 [b] b.
Proof.
  unfold read_u8, read_array. rewrite <-(app_nil_r [b]).
  eapply reads_bind; [by apply (reads_slice 1)|]. apply reads_ret.
Qed.

Lemma reads_le n v :
  0 ≤ v < 256 ^ Z.of_nat n →
  reads (a ← read_array n; mret (from_le_bytes a)) (to_le_bytes n v) v.
Proof.
  intros Hv. rewrite <-(app_nil_r (to_le_bytes n v)).
  eapply reads_bind; [apply reads_slice, length_to_le_bytes|].
  rewrite from_to_le_bytes by done. apply reads_ret.
Qed.

Lemma reads_i32 z : in_i32 z → reads read_i32 (to_le_bytes 4 (as_u32 z)) z.
Proof.
  intros Hz. unfold read_i32. rewrite <-(app_nil_r (to_le_bytes 4 _)).
  eapply reads_bind; [apply reads_slice, length_to_le_bytes|].
  rewrite i32_le_roundtrip by done. apply reads_ret.
Qed.

Lemma reads_varint v : 0 ≤ v ≤ usize_MAX → reads read_varint (encode_varint v) v.
Proof.
  unfold usize_MAX. intros Hv. unfold read_varint, encode_varint.
  assert (∀ (k : Z → readM Z) b e, reads (k (u8 b)) e v →
            reads (first ← read_u8; k (u8 first)) (b :: e) v) as Hk.
  { intros k b e Hb. change (b :: e) with ([b] ++ e). eapply reads_bind; [apply reads_u8|done]. }
  set (k := λ w, if w <=? 252 then mret w
                 else if w =? 253 then a ← read_array 2; mret (from_le_bytes a)
                 else if w =? 254 then a ← read_array 4; mret (from_le_bytes a)
                 else (a ← read_array 8; mret (from_le_bytes a)) : readM Z).
  change (reads (first ← read_u8; k (u8 first)) (if v <=? 252 then [byte_of_Z v]
    else if v <? 65536 then xfd :: to_le_bytes 2 v
    else if v <? 4294967296 then xfe :: to_le_bytes 4 v else xff :: to_le_bytes 8 v) v).
  repeat case_match; apply Hk.
  - rewrite u8_byte_of_Z, Z.mod_small by lia. unfold k.
    replace (v <=? 252) with true by lia. apply reads_ret.
  - apply (reads_le 2). change (256 ^ _) with 65536. lia.
  - apply (reads_le 4). change (256 ^ _) with 4294967296. lia.
  - apply (reads_le 8). change (256 ^ _) with 18446744073709551616. lia.
Qed.

Lemma reads_varint_usize v : 0 ≤ v ≤ usize_MAX → reads read_varint_usize (encode_varint v) v.
Proof.
  intros Hv. unfold read_varint_usize. rewrite <-(app_nil_r (encode_varint v)).
  eapply reads_bind; [by apply reads_varint|]. unfold ensureM.
  rewrite (proj2 (ensure_Ok _ _ tt)) by lia. apply reads_ret.
Qed.

Section roundtrip.
Context `{BitcoinLibLaws}.

(** A [CAuxPow] record whose parent coinbase is given by its own encoding. *)
Definition encode_auxpow (tx_bytes hash_block : bytes) (coinbase chain : MerkleBranch)
    (parent : Header) : bytes :=
  tx_bytes ++ hash_block ++ encode_branch coinbase ++ encode_branch chain ++
  serialize_header parent.

Definition parsed_transaction (tx : Transaction) : ParsedTransaction :=
  {| pt_txid := compute_txid tx; pt_is_coinbase := is_coinbase tx;
     pt_first_input_script := script_sig <$> head (tx_input tx);
     pt_outputs := tx_output tx |}.

Lemma reads_transaction bs tx :
  deserialize_partial_tx bs = Some (tx, length bs) →
  reads read_transaction bs (parsed_transaction tx).
Proof.
  intros Hd pre tail Hl. unfold read_transaction, remaining_slice. simpl.
  rewrite drop_app_length.
  destruct (deserialize_partial_tx_prefix _ _ _ Hd) as [_ Ht]. specialize (Ht tail).
  rewrite take_ge in Ht by done. rewrite Ht. simpl.
  unfold skip, mbind, readM_bind. by rewrite (reads_slice (length bs) bs).
Qed.

Lemma local_transaction : read_local read_transaction.
Proof.
  intros r t r' Hr Hrun. unfold read_transaction in Hrun.
  destruct (deserialize_partial_tx (remaining_slice r)) as [[tx n]|] eqn:E; [|done].
  destruct (deserialize_partial_tx_prefix _ _ _ E) as [Hn Ht].
  unfold remaining_slice in Hn. rewrite length_drop in Hn.
  simpl in Hrun. unfold skip, mbind, readM_bind in Hrun.
  rewrite read_slice_Ok in Hrun by (done || (destruct Hr; lia)).
  simpl in Hrun. injection Hrun as <- <-. destruct Hr as [Hr Hl]. simpl.
  split_and!; [split; simpl; [lia|done]|done|lia|].
  apply reads_transaction. rewrite length_slice by lia.
  replace (rd_pos r + n - rd_pos r)%nat with n by lia.
  specialize (Ht []). rewrite app_nil_r in Ht. rewrite <-Ht. f_equal.
  unfold slice, remaining_slice. f_equal. lia.
Qed.
Hint Resolve local_transaction : rlocal.

(** A successful read of a whole [CAuxPow] record stays inside the buffer and
    depends on nothing but the bytes it consumed. *)
Lemma local_auxpow : read_local read_auxpow.
Proof. unfold read_auxpow. solve_local. Qed.

Lemma reads_auxpow tx_bytes tx hash_block coinbase chain parent :
  deserialize_partial_tx tx_bytes = Some (tx, length tx_bytes) →
  hash32 hash_block → branch_wf coinbase → branch_wf chain → header_wf parent →
  reads read_auxpow (encode_auxpow tx_bytes hash_block coinbase chain parent)
    {| pa_coinbase_tx := parsed_transaction tx;
       pa_hash_block := hash_block;
       pa_coinbase_branch := coinbase;
       pa_chain_branch := chain;
       pa_parent_header := mkParsedHeader parent |}.
Proof.
  intros Htx Hhb Hcb Hch Hp. unfold read_auxpow, encode_auxpow.
  assert (∀ b, branch_wf b →
    reads read_merkle_branch (encode_varint (Z.of_nat (length (mb_hashes b))) ++
                              concat (mb_hashes b)) (mb_hashes b)) as Hmb.
  { intros b (Hf & _ & Hl). apply reads_merkle_branch; [|done].
    apply reads_varint_usize. lia. }
  eapply reads_bind; [by apply reads_context, reads_transaction|].
  eapply reads_bind; [by apply reads_context, reads_slice|].
  unfold encode_branch at 1. rewrite <-!(assoc_L (++)), (assoc_L (++) (encode_varint _)).
  eapply reads_bind; [by apply reads_context, Hmb|].
  eapply reads_bind; [apply reads_context, reads_i32; by destruct Hcb as (_ & ? & _)|].
  unfold encode_branch. rewrite <-!(assoc_L (++)), (assoc_L (++) (encode_varint _)).
  eapply reads_bind; [by apply reads_context, Hmb|].
  eapply reads_bind; [apply reads_context, reads_i32; by destruct Hch as (_ & ? & _)|].
  rewrite <-(app_nil_r (serialize_header parent)).
  eapply reads_bind; [apply reads_context, reads_slice; by apply serialize_header_length|].
  unfold parse_header. rewrite serialize_deserialize_header by done. simpl.
  destruct coinbase, chain. apply reads_ret.
Qed.

End roundtrip.
#[export] Hint Resolve local_transaction local_auxpow : rlocal.

(** ** Properties *)

Section claims.
Context `{BitcoinLibLaws}.

(** Reading back an encoded [CAuxPow] record (parent coinbase, [hashBlock], the
    two merkle branches with their indices, parent header) returns exactly those
    fields and stops at the end of the record, whatever bytes precede and follow
    it in the buffer. *)
Theorem read_auxpow_roundtrip tx_bytes tx hash_block coinbase chain parent pre tail :
  deserialize_partial_tx tx_bytes = Some (tx, length tx_bytes) →
  hash32 hash_block → branch_wf coinbase → branch_wf chain → header_wf parent →
  let enc := encode_auxpow tx_bytes hash_block coinbase chain parent in
  Z.of_nat (length (pre ++ enc ++ tail)) ≤ usize_MAX →
  read_auxpow (mkReader (pre ++ enc ++ tail) (length pre)) =
  Ok ({| pa_coinbase_tx := parsed_transaction tx;
         pa_hash_block := hash_block;
         pa_coinbase_branch := coinbase;
         pa_chain_branch := chain;
         pa_parent_header := mkParsedHeader parent |},
      mkReader (pre ++ enc ++ tail) (length pre + length enc)).
Proof. intros Htx Hhb Hcb Hch Hp enc Hl. by apply reads_auxpow. Qed.

(** A successful [read_auxpow] leaves the buffer alone, moves the position
    forward inside it, and depends only on the bytes it moved over: the same bytes
    between any other surroundings decode to the same record. *)
Theorem read_auxpow_confined r a r' :
  reader_inv r → read_auxpow r = Ok (a, r') →
  rd_buf r' = rd_buf r ∧ (rd_pos r ≤ rd_pos r' ≤ length (rd_buf r))%nat ∧
  ∀ pre tail,
    let enc := slice (rd_pos r) (rd_pos r') (rd_buf r) in
    Z.of_nat (length (pre ++ enc ++ tail)) ≤ usize_MAX →
    read_auxpow (mkReader (pre ++ enc ++ tail) (length pre)) =
    Ok (a, mkReader (pre ++ enc ++ tail) (length pre + length enc)).
Proof.
  intros Hr Ha. destruct (local_auxpow _ _ _ Hr Ha) as ([Hp _] & Hb & Hm & Hd).
  rewrite Hb in Hp. split_and!; [done..|]. intros pre tail enc. apply Hd.
Qed.

End claims.

(** [read_merkle_branch] on every input: it fails exactly as its count does;
    a count larger than the remaining bytes divided by 32 is refused before any
    hash is read; any other count returns exactly that many 32-byte hashes, the
    consecutive chunks of the input, and stops after them. *)
Theorem read_merkle_branch_total r :
  reader_inv r →
  match read_varint_usize r with
  | Err e => read_merkle_branch r = Err e
  | Ok (c, r1) =>
      if decide (32 * c ≤ Z.of_nat (length (remaining_slice r1))) then
        ∃ hs, read_merkle_branch r =
                Ok (hs, mkReader (rd_buf r) (rd_pos r1 + 32 * Z.to_nat c)) ∧
              Z.of_nat (length hs) = c ∧ Forall hash32 hs ∧
              concat hs = take (32 * Z.to_nat c) (remaining_slice r1)
      else read_merkle_branch r =
             Err (Msg "merkle branch count exceeds the remaining bytes")
  end.
Proof.
  intros Hr. destruct (read_varint_usize r) as [[c r1]|e] eqn:Hc.
  - by apply read_merkle_branch_spec.
  - unfold read_merkle_branch, mbind, readM_bind. by rewrite Hc.
Qed.

(** ** Witnesses *)

Import Toy.

Definition ex_header : Header :=
  {| hdr_version := 536870912; prev_blockhash := replicate 32 x11;
     merkle_root := replicate 32 x22; hdr_time := 1700000000;
     hdr_bits := 486604799; hdr_nonce := 7 |}.

Definition ex_branch : MerkleBranch := mkMerkleBranch [replicate 32 x33] 1.

Definition ex_auxpow_bytes : bytes :=
  encode_auxpow (tx_bytes [x61; x62]) (replicate 32 x00) ex_branch (mkMerkleBranch [] 0) ex_header.

Lemma ex_header_wf : header_wf ex_header.
Proof. repeat split; vm_compute; congruence. Qed.

Lemma ex_branch_wf : branch_wf ex_branch.
Proof. repeat split; [repeat constructor|..]; vm_compute; congruence. Qed.

Lemma empty_branch_wf : branch_wf (mkMerkleBranch [] 0).
Proof. repeat split; [constructor|..]; vm_compute; congruence. Qed.

Lemma read_auxpow_roundtrip_witness :
  ∃ a, read_auxpow (mkReader ([x7f] ++ ex_auxpow_bytes ++ [x01]) (length [x7f])) =
       Ok (a, mkReader ([x7f] ++ ex_auxpow_bytes ++ [x01])
                (length [x7f] + length ex_auxpow_bytes)) ∧
       pa_coinbase_branch a = ex_branch.
Proof.
  eexists. split.
  - apply (@read_auxpow_roundtrip toy toy_laws (tx_bytes [x61; x62]) (Toy.script_tx [x61; x62])
      (replicate 32 x00) ex_branch (mkMerkleBranch [] 0) ex_header [x7f] [x01]
      ltac:(vm_compute; reflexivity) eq_refl ex_branch_wf empty_branch_wf ex_header_wf).
    vm_compute. congruence.
  - reflexivity.
Defined.

Lemma read_auxpow_confined_witness :
  ∃ a r', read_auxpow (Reader_new ex_auxpow_bytes) = Ok (a, r') ∧
    (rd_pos r' ≤ length ex_auxpow_bytes)%nat.
Proof.
  destruct (read_auxpow (Reader_new ex_auxpow_bytes)) as [[a r']|] eqn:E.
  - exists a, r'. split; [done|].
    refine (proj2 (proj1 (proj2 (read_auxpow_confined (Reader_new ex_auxpow_bytes) a r' _ E)))).
    split; vm_compute; [lia|congruence].
  - vm_compute in E. discriminate E.
Defined.

Lemma read_merkle_branch_total_witness :
  reader_inv (Reader_new (xff :: replicate 8 xff)) ∧
  read_merkle_branch (Reader_new (xff :: replicate 8 xff)) =
  Err (Msg "merkle branch count exceeds the remaining bytes").
Proof.
  assert (reader_inv (Reader_new (xff :: replicate 8 xff))) as Hr.
  { split; vm_compute; [lia|congruence]. }
  split; [done|]. exact (read_merkle_branch_total _ Hr).
Defined.
