(* ===== verification/Auxpow.v ===== *)
(** * Namecoin-family AuxPoW: commitments, targets, heights and block parsers

    Models [crates/mmm-capture/src/auxpow/{mod,verify,decode,classic}.rs]: the
    merkle folds and slot rule behind every proof, the classic and the Elastos
    commitment checks, compact targets, BIP34 heights, the stored-proof decoders
    and the four block parsers. *)

From S2P Require Import Prelude BitcoinLib Reader.

(** ** Data ([mod.rs], [decode.rs]) *)

Definition VERSION_AUXPOW : Z := Z.shiftl 1 8.

Record AuxpowProof := mkAuxpowProof {
  ap_hash_block : bytes;
  ap_coinbase_branch : MerkleBranch;
  ap_chain_branch : MerkleBranch;
}.

Record ParsedAuxpowBlock := mkParsedAuxpowBlock {
  child_header : ParsedHeader;
  child_height : option Z;
  child_coinbase_txid : option bytes;
  child_coinbase_script : option bytes;
  child_coinbase_outputs : list TxOut;
  child_coinbase_output_addresses : list string;
  parent_header : ParsedHeader;
  proof : AuxpowProof;
  parent_coinbase_txid : bytes;
  parent_coinbase_script : bytes;
  parent_coinbase_outputs : list TxOut;
  parent_coinbase_output_addresses : list string;
  auxpow_bytes : bytes;
}.

Inductive ParsedNamecoinBlock :=
| NonAuxpow (h : ParsedHeader)
| AuxpowBlock (b : ParsedAuxpowBlock).

Record ParsedChildBlockCoinbase := mkParsedChildBlockCoinbase {
  pc_header : ParsedHeader;
  pc_height : option Z;
  pc_coinbase_txid : bytes;
  pc_coinbase_script : bytes;
  pc_coinbase_outputs : list TxOut;
}.

Record ChildCoinbase := mkChildCoinbase {
  cc_height : option Z;
  cc_txid : option bytes;
  cc_script : option bytes;
  cc_outputs : list TxOut;
  cc_output_addresses : list string;
}.

Definition ChildCoinbase_absent : ChildCoinbase :=
  {| cc_height := None; cc_txid := None; cc_script := None;
     cc_outputs := []; cc_output_addresses := [] |}.

Record AuxMarker := mkAuxMarker {
  aux_merkle_root : bytes;
  merkle_size : Z;
  merkle_nonce : Z;
}.

Record AuxMerkleBranchDetail := mkBranchDetail {
  bd_index : Z;
  bd_siblings : list bytes;
}.

Record AuxpowProofDetail := mkAuxpowProofDetail {
  pd_slot_index : Z;
  pd_parent_header_hash : bytes;
  pd_hash_block : bytes;
  pd_coinbase_branch : AuxMerkleBranchDetail;
  pd_blockchain_branch : AuxMerkleBranchDetail;
}.

Definition AUXPOW_MAGIC : bytes := [xfa; xbe; x6d; x6d].
Definition ELASTOS_AUXPOW_CHAIN_ID : Z := 1224.
Definition MAX_ELASTOS_AUXPOW_BYTES : nat := 4096.
Definition CLASSIC_MAX_CHAIN_BRANCH : nat := 30.
Definition CLASSIC_MARKERLESS_ROOT_WINDOW : nat := 20.

(** [u32::from_le_bytes(script[i..i + 4])]. *)
Definition u32_at (i : nat) (script : bytes) : Z := from_le_bytes (slice i (i + 4) script).

(** ** [verify.rs] *)

Definition find_subslice (haystack needle : bytes) : option nat :=
  position (λ w, bool_decide (w = needle)) (windows (length needle) haystack).

(** The wrapping linear congruential slot rule. *)
Definition auxpow_expected_index (nonce chain_id : Z) (branch_len : nat) : Z :=
  let rand := nonce in
  let rand := wrapping_add_u32 (wrapping_mul_u32 rand 1103515245) 12345 in
  let rand := wrapping_add_u32 rand chain_id in
  let rand := wrapping_add_u32 (wrapping_mul_u32 rand 1103515245) 12345 in
  rand mod Z.shiftl 1 (Z.of_nat branch_len).

(** Locate the display-order root and read its [(tree_size, nonce)] footer. *)
Definition read_commitment_footer (script display_root : bytes) : result error (Z * Z) :=
  root_pos ← ok_or (Msg "display-order chain commitment missing from the parent coinbase scriptSig")
               (find_subslice script display_root);
  _ ← match find_subslice script AUXPOW_MAGIC with
      | Some marker =>
          _ ← ensure (bool_decide (find_subslice (drop (marker + 1) script) AUXPOW_MAGIC = None))
                (Msg "multiple merged-mining markers in the parent coinbase scriptSig");
          ensure (bool_decide (marker + length AUXPOW_MAGIC = root_pos)%nat)
            (Msg "the merged-mining marker is not immediately before the chain commitment")
      | None =>
          ensure (bool_decide (root_pos ≤ CLASSIC_MARKERLESS_ROOT_WINDOW)%nat)
            (Msg "a markerless chain commitment must start within the first bytes")
      end;
  _ ← ensure (bool_decide (root_pos + 40 ≤ length script)%nat)
        (Msg "truncated chain commitment footer");
  mret (u32_at (root_pos + 32) script, u32_at (root_pos + 36) script).

(** Positions of the merged-mining marker, in order. *)
Definition marker_positions (script : bytes) : list nat :=
  omap (λ '(i, w), if bool_decide (w = AUXPOW_MAGIC) then Some i else None)
    (imap pair (windows (length AUXPOW_MAGIC) script)).

Definition parse_coinbase_height (script_sig : bytes) : option Z :=
  if bool_decide (length script_sig < 2)%nat then None else
  let byte_len := Z.to_nat (u8 (default x00 (head script_sig))) in
  if negb (bool_decide (1 ≤ byte_len ≤ 4)%nat)
     || bool_decide (length script_sig < 1 + byte_len)%nat then None else
  let raw := slice 1 (1 + byte_len) script_sig ++ replicate (4 - byte_len) x00 in
  let height := i32_from_le_bytes raw in
  if 0 <=? height then Some height else None.

Definition parse_bip34_height (script_sig : bytes) : option Z :=
  height ← parse_coinbase_height script_sig;
  if height <=? 2000000 then Some height else None.

Definition parse_child_bip34_height (script_sig : bytes) : option Z :=
  height ← parse_coinbase_height script_sig;
  let last := default x00 (script_sig !! Z.to_nat (u8 (default x00 (head script_sig)))) in
  if Z.land (u8 last) 128 =? 0 then Some height else None.

(** ** [decode.rs]: stored bytes that need no library *)

Definition decode_aux_marker (coinbase_script : bytes) : option AuxMarker :=
  magic_pos ← position (λ w, bool_decide (w = AUXPOW_MAGIC))
                (windows (length AUXPOW_MAGIC) coinbase_script);
  let after := (magic_pos + length AUXPOW_MAGIC)%nat in
  let root_end := (after + 32)%nat in
  let size_end := (root_end + 4)%nat in
  let nonce_end := (size_end + 4)%nat in
  if bool_decide (length coinbase_script < nonce_end)%nat then None else
  Some {| aux_merkle_root := slice after root_end coinbase_script;
          merkle_size := from_le_bytes (slice root_end size_end coinbase_script);
          merkle_nonce := from_le_bytes (slice size_end nonce_end coinbase_script) |}.

(** Printable ASCII runs; [str::trim] only meets spaces in them. *)
Definition is_printable (b : byte) : bool := (32 <=? u8 b) && (u8 b <=? 126).

Fixpoint trim_start (run : bytes) : bytes :=
  match run with
  | b :: rest => if bool_decide (b = x20) then trim_start rest else run
  | [] => []
  end.
Definition trim (run : bytes) : bytes := reverse (trim_start (reverse (trim_start run))).

Definition flush_run (run : bytes) (tags : list bytes) : list bytes :=
  let trimmed := trim run in
  if bool_decide (4 ≤ length trimmed)%nat then tags ++ [trimmed] else tags.

Fixpoint scan_tags (script run : bytes) (tags : list bytes) : list bytes :=
  match script with
  | [] => flush_run run tags
  | b :: script =>
      if is_printable b then scan_tags script (run ++ [b]) tags
      else scan_tags script [] (flush_run run tags)
  end.

(** [tags.join(" ")]. *)
Fixpoint join_space (tags : list bytes) : bytes :=
  match tags with
  | [] => []
  | [t] => t
  | t :: rest => t ++ x20 :: join_space rest
  end.

Definition extract_coinbase_tag (coinbase_script : bytes) : option bytes :=
  let tags := scan_tags coinbase_script [] [] in
  if bool_decide (tags = []) then None else Some (join_space tags).

Section with_lib.
Context `{BitcoinLib}.

Definition ParsedHeader_hash (h : ParsedHeader) : bytes := block_hash (ph_header h).

Definition sha256d_pair (left right : bytes) : bytes := sha256d (left ++ right).

Fixpoint fold_branch (acc : bytes) (index : Z) (hashes : list bytes) : bytes :=
  match hashes with
  | [] => acc
  | sib :: rest =>
      fold_branch (if Z.land index 1 =? 1 then sha256d_pair sib acc else sha256d_pair acc sib)
        (Z.shiftr index 1) rest
  end.

Definition fold_merkle_branch (leaf : bytes) (branch : MerkleBranch) : bytes :=
  fold_branch leaf (as_u32 (mb_index branch)) (mb_hashes branch).

(** The Elastos [CAuxPow] commitment. *)
Definition verify_auxpow_commitment (parsed : ParsedAuxpowBlock) (child_block_hash : bytes)
    (chain_id : Z) : result error unit :=
  let script := parent_coinbase_script parsed in
  let markers := marker_positions script in
  magic_pos ← ok_or (Msg "AuxPoW magic (fabe6d6d) absent from the parent coinbase scriptSig")
                (head markers);
  _ ← ensure (bool_decide (tail markers = []))
        (Msg "multiple AuxPoW magic markers in the parent coinbase scriptSig");
  let after := (magic_pos + length AUXPOW_MAGIC)%nat in
  _ ← ensure (bool_decide (after + 40 ≤ length script)%nat)
        (Msg "AuxPoW commitment truncated after the fabe6d6d marker");
  let aux_merkle_root := slice after (after + 32) script in
  let tree_size := u32_at (after + 32) script in
  let nonce := u32_at (after + 36) script in
  let chain := ap_chain_branch (proof parsed) in
  let coinbase := ap_coinbase_branch (proof parsed) in
  let branch_len := length (mb_hashes chain) in
  _ ← ensure (bool_decide (branch_len < 32)%nat)
        (Msg "AuxPoW chain merkle branch is too deep");
  expected_size ← ok_or (Msg "AuxPoW chain merkle branch length is unrepresentable")
    (if bool_decide (branch_len < 32)%nat then Some (Z.shiftl 1 (Z.of_nat branch_len)) else None);
  _ ← ensure (tree_size =? expected_size) (Msg "AuxPoW tree size != 1 << branch_len");
  _ ← ensure (0 <=? mb_index coinbase) (Msg "negative parent coinbase merkle branch index");
  _ ← ensure (0 <=? mb_index chain) (Msg "negative AuxPoW chain merkle branch index");
  _ ← ensure (mb_index coinbase =? 0) (Msg "parent coinbase is not the first transaction");
  let expected_slot := auxpow_expected_index nonce chain_id branch_len in
  chain_index ← ok_or (Msg "unwrap") (u32_try_from (mb_index chain));
  _ ← ensure (chain_index =? expected_slot)
        (Msg "AuxPoW chain slot != deterministic slot for chain id");
  let coinbase_root := fold_merkle_branch (parent_coinbase_txid parsed) coinbase in
  _ ← ensure (bool_decide (coinbase_root = merkle_root (ph_header (parent_header parsed))))
        (Msg "parent coinbase merkle proof does not reach the parent header merkle root");
  let child_leaf := reverse child_block_hash in
  let chain_root := fold_merkle_branch child_leaf chain in
  let expected_root := reverse aux_merkle_root in
  ensure (bool_decide (chain_root = expected_root))
    (Msg "child block hash does not fold to the committed AuxPoW merkle root").

(** The classic [CAuxPow::check] commitment. *)
Definition verify_classic_auxpow_commitment (parsed : ParsedAuxpowBlock)
    (child_block_hash : bytes) (chain_id : Z) : result error unit :=
  let chain := ap_chain_branch (proof parsed) in
  let coinbase := ap_coinbase_branch (proof parsed) in
  let branch_len := length (mb_hashes chain) in
  _ ← ensure (bool_decide (branch_len ≤ CLASSIC_MAX_CHAIN_BRANCH)%nat)
        (Msg "AuxPoW chain merkle branch is too long");
  _ ← ensure (mb_index coinbase =? 0) (Msg "parent coinbase is not the first transaction");
  _ ← ensure (0 <=? mb_index chain) (Msg "negative AuxPoW chain merkle branch index");
  let coinbase_root := fold_merkle_branch (parent_coinbase_txid parsed) coinbase in
  _ ← ensure (bool_decide (coinbase_root = merkle_root (ph_header (parent_header parsed))))
        (Msg "parent coinbase merkle proof does not reach the parent header merkle root");
  let display_root := reverse (fold_merkle_branch child_block_hash chain) in
  '(tree_size, nonce) ← read_commitment_footer (parent_coinbase_script parsed) display_root;
  _ ← ensure (tree_size =? Z.shiftl 1 (Z.of_nat branch_len))
        (Msg "AuxPoW tree size != 1 << branch_len");
  let expected_slot := auxpow_expected_index nonce chain_id branch_len in
  chain_index ← ok_or (Msg "unwrap") (u32_try_from (mb_index chain));
  ensure (chain_index =? expected_slot)
    (Msg "AuxPoW chain slot != deterministic slot for chain id").

Definition well_formed_compact_target (bits : Z) : option Z :=
  let exponent := Z.shiftr bits 24 in
  let mantissa := Z.land bits 8388607 in
  let sign := negb (Z.land bits 8388608 =? 0) in
  if sign || (mantissa =? 0) || (exponent =? 0) || (32 <? exponent) then None
  else Some (target_from_compact bits).

Definition validates_target (hash : bytes) (bits : Z) : bool :=
  match well_formed_compact_target bits with
  | Some target => is_met_by target hash
  | None => false
  end.

Definition pow_validates_target (header : Header) : bool :=
  validates_target (block_hash header) (hdr_bits header).

(** ** [decode.rs] *)

Definition output_addresses (outputs : list TxOut) : list string :=
  omap (λ o, address_from_script (script_pubkey o)) outputs.

Definition decode_auxpow_proof (aux_merkle_proof : bytes) : option AuxpowProofDetail :=
  '(auxpow, reader) ← result_ok (read_auxpow (Reader_new aux_merkle_proof));
  if negb (is_eof reader) then None else
  slot_index ← u32_try_from (mb_index (pa_chain_branch auxpow));
  coinbase_index ← u32_try_from (mb_index (pa_coinbase_branch auxpow));
  Some {| pd_slot_index := slot_index;
          pd_parent_header_hash := ParsedHeader_hash (pa_parent_header auxpow);
          pd_hash_block := pa_hash_block auxpow;
          pd_coinbase_branch := mkBranchDetail coinbase_index (mb_hashes (pa_coinbase_branch auxpow));
          pd_blockchain_branch := mkBranchDetail slot_index (mb_hashes (pa_chain_branch auxpow)) |}.

(** ** [mod.rs] and [classic.rs] *)

Definition assemble_auxpow_block (ch : ParsedHeader) (child : ChildCoinbase)
    (auxpow : ParsedAuxpow) (bytes_ : bytes) : ParsedAuxpowBlock :=
  let tx := pa_coinbase_tx auxpow in
  {| child_header := ch;
     child_height := cc_height child;
     child_coinbase_txid := cc_txid child;
     child_coinbase_script := cc_script child;
     child_coinbase_outputs := cc_outputs child;
     child_coinbase_output_addresses := cc_output_addresses child;
     parent_header := pa_parent_header auxpow;
     proof := {| ap_hash_block := pa_hash_block auxpow;
                 ap_coinbase_branch := pa_coinbase_branch auxpow;
                 ap_chain_branch := pa_chain_branch auxpow |};
     parent_coinbase_txid := pt_txid tx;
     parent_coinbase_script := default [] (pt_first_input_script tx);
     parent_coinbase_outputs := pt_outputs tx;
     parent_coinbase_output_addresses := output_addresses (pt_outputs tx);
     auxpow_bytes := bytes_ |}.

(** The AuxPoW flag of a header's version. *)
Definition has_auxpow_flag (h : ParsedHeader) : bool :=
  negb (Z.land (hdr_version (ph_header h)) VERSION_AUXPOW =? 0).

Definition read_classic_prefix (raw : bytes)
    : result error (ParsedHeader * option (ParsedAuxpow * nat)) :=
  _ ← ensure (bool_decide (HEADER_SIZE ≤ length raw)%nat)
        (Msg "block is shorter than an 80-byte header");
  '(raw_header, reader) ← read_array HEADER_SIZE (Reader_new raw);
  header ← with_context "parse child header" (parse_header raw_header);
  if negb (has_auxpow_flag header) then mret (header, None) else
  '(auxpow, reader) ← contextM "parse AuxPoW payload" read_auxpow reader;
  mret (header, Some (auxpow, rd_pos reader)).

Definition parse_namecoin_block (raw : bytes) : result error ParsedNamecoinBlock :=
  '(ch, prefix) ← read_classic_prefix raw;
  match prefix with
  | None => mret (NonAuxpow ch)
  | Some (auxpow, auxpow_end) =>
      let auxpow_start := HEADER_SIZE in
      '(_, reader) ← skip auxpow_end (Reader_new raw);
      child ← (if negb (is_eof reader) then
        '(tx_count, reader) ← contextM "read child tx count" read_varint_usize reader;
        _ ← ensure (0 <? tx_count) (Msg "AuxPoW child block has no transactions");
        '(coinbase, _) ← contextM "parse child coinbase transaction" read_transaction reader;
        let script := pt_first_input_script coinbase in
        mret {| cc_height := script ≫= parse_bip34_height;
                cc_txid := Some (pt_txid coinbase);
                cc_script := script;
                cc_outputs := pt_outputs coinbase;
                cc_output_addresses := [] |}
       else Err (Msg "AuxPoW child block is missing its transaction vector"));
      mret (AuxpowBlock (assemble_auxpow_block ch child auxpow (slice auxpow_start auxpow_end raw)))
  end.

Definition parse_auxpow_header_blob (raw : bytes) : result error ParsedAuxpowBlock :=
  _ ← ensure (bool_decide (HEADER_SIZE ≤ length raw)%nat)
        (Msg "blob is shorter than an 80-byte header");
  ch ← with_context "parse child header" (parse_header (slice 0 HEADER_SIZE raw));
  _ ← ensure (has_auxpow_flag ch)
        (Msg "header+CAuxPow blob does not carry the AuxPoW version bit");
  '(_, reader) ← skip HEADER_SIZE (Reader_new raw);
  let auxpow_start := rd_pos reader in
  '(auxpow, reader) ← contextM "parse AuxPoW payload" read_auxpow reader;
  let auxpow_end := rd_pos reader in
  mret (assemble_auxpow_block ch ChildCoinbase_absent auxpow (slice auxpow_start auxpow_end raw)).

Definition parse_child_block_coinbase_with_height (raw : bytes)
    (height_parser : bytes → option Z) : result error ParsedChildBlockCoinbase :=
  block ← with_context "deserialize full child block"
            (ok_or (Msg "encode::Error") (deserialize_block raw));
  _ ← ensure (check_merkle_root block)
        (Msg "child block transaction merkle root does not match header");
  coinbase ← ok_or (Msg "child block has no transactions") (head (txdata block));
  _ ← ensure (is_coinbase coinbase) (Msg "child block first transaction is not coinbase");
  input ← ok_or (Msg "child coinbase transaction has no inputs") (head (tx_input coinbase));
  let script := script_sig input in
  mret {| pc_header := mkParsedHeader (blk_header block);
          pc_height := height_parser script;
          pc_coinbase_txid := compute_txid coinbase;
          pc_coinbase_script := script;
          pc_coinbase_outputs := tx_output coinbase |}.

Definition parse_child_block_coinbase (raw : bytes) : result error ParsedChildBlockCoinbase :=
  parse_child_block_coinbase_with_height raw parse_bip34_height.

Definition attach_child_block_coinbase (parsed : ParsedAuxpowBlock)
    (child : ParsedChildBlockCoinbase) : result error ParsedAuxpowBlock :=
  _ ← ensure (bool_decide (ParsedHeader_hash (child_header parsed) = ParsedHeader_hash (pc_header child)))
        (Msg "full child block hash does not match AuxPoW proof child header");
  mret {| child_header := child_header parsed;
          child_height := match child_height parsed with
                          | Some h => Some h | None => pc_height child end;
          child_coinbase_txid := Some (pc_coinbase_txid child);
          child_coinbase_script := Some (pc_coinbase_script child);
          child_coinbase_outputs := pc_coinbase_outputs child;
          child_coinbase_output_addresses := [];
          parent_header := parent_header parsed;
          proof := proof parsed;
          parent_coinbase_txid := parent_coinbase_txid parsed;
          parent_coinbase_script := parent_coinbase_script parsed;
          parent_coinbase_outputs := parent_coinbase_outputs parsed;
          parent_coinbase_output_addresses := parent_coinbase_output_addresses parsed;
          auxpow_bytes := auxpow_bytes parsed |}.

Definition parse_elastos_auxpow (ch : ParsedHeader) (auxpow_blob : bytes)
    : result error ParsedAuxpowBlock :=
  _ ← ensure (bool_decide (length auxpow_blob ≤ MAX_ELASTOS_AUXPOW_BYTES)%nat)
        (Msg "Elastos auxpow blob is over the byte cap");
  '(auxpow, reader) ← contextM "parse Elastos CAuxPow blob" read_auxpow (Reader_new auxpow_blob);
  _ ← ensure (is_eof reader) (Msg "trailing bytes after the Elastos CAuxPow blob");
  mret (assemble_auxpow_block ch ChildCoinbase_absent auxpow auxpow_blob).

(** The chain id a classic version carries above bit 16. *)
Definition version_chain_id (h : ParsedHeader) : Z :=
  Z.shiftr (as_u32 (hdr_version (ph_header h))) 16.

Definition parse_verified_classic_block (raw requested_hash : bytes)
    (requested_height chain_id : Z) : result error ParsedNamecoinBlock :=
  '(header, prefix) ← read_classic_prefix raw;
  _ ← ensure (bool_decide (ParsedHeader_hash header = requested_hash))
        (Msg "child block does not match requested hash");
  match prefix with
  | None => mret (NonAuxpow header)
  | Some (auxpow, body_offset) =>
      _ ← ensure (pt_is_coinbase (pa_coinbase_tx auxpow)) (Msg "parent transaction is not coinbase");
      _ ← ensure (version_chain_id header =? chain_id) (Msg "unexpected child chain ID");
      _ ← ensure (negb (version_chain_id (pa_parent_header auxpow) =? chain_id))
            (Msg "parent header carries the child chain ID");
      let child_bytes := take HEADER_SIZE raw ++ drop body_offset raw in
      child ← parse_child_block_coinbase_with_height child_bytes parse_child_bip34_height;
      _ ← ensure (bool_decide (pc_height child = Some requested_height))
            (Msg "child coinbase height does not match RPC height");
      let proof0 := assemble_auxpow_block header ChildCoinbase_absent auxpow
                      (slice HEADER_SIZE body_offset raw) in
      proof ← attach_child_block_coinbase proof0 child;
      _ ← verify_classic_auxpow_commitment proof requested_hash chain_id;
      _ ← ensure (validates_target (ParsedHeader_hash (parent_header proof))
                    (hdr_bits (ph_header (child_header proof))))
            (Msg "parent work does not satisfy child target");
      mret (AuxpowBlock proof)
  end.

End with_lib.

(** ** Byte search *)

(** [needle] stands at position [i] of [hay]. *)
Definition occurs_at (needle hay : bytes) (i : nat) : Prop :=
  take (length needle) (drop i hay) = needle.

Definition first_occurrence (needle hay : bytes) (i : nat) : Prop :=
  occurs_at needle hay i ∧ ∀ j, (j < i)%nat → ¬ occurs_at needle hay j.

Lemma occurs_at_bound needle hay i :
  occurs_at needle hay i → (0 < length needle)%nat → (i + length needle ≤ length hay)%nat.
Proof.
  unfold occurs_at. intros Ho Hn. apply (f_equal length) in Ho.
  rewrite length_take, length_drop in Ho. lia.
Qed.

Lemma window_occurs needle hay i :
  (0 < length needle)%nat →
  windows (length needle) hay !! i = Some needle ↔ occurs_at needle hay i.
Proof.
  intros Hn. rewrite lookup_windows by done. split; [by intros [_ Hw]|].
  intros Ho. split; [by apply occurs_at_bound|by symmetry].
Qed.

Lemma find_subslice_Some needle hay i :
  (0 < length needle)%nat →
  find_subslice hay needle = Some i ↔ first_occurrence needle hay i.
Proof.
  intros Hn. unfold find_subslice. rewrite position_Some. split.
  - intros [(w & Hw & ->%bool_decide_eq_true) Hlt]. split; [by apply window_occurs|].
    intros j Hj Ho%window_occurs; [|done].
    specialize (Hlt j needle Hj Ho). by rewrite bool_decide_eq_true_2 in Hlt.
  - intros [Ho Hlt]. split.
    + exists needle. rewrite window_occurs by done. by rewrite bool_decide_eq_true_2.
    + intros j y Hj Hy. apply bool_decide_eq_false. intros ->.
      apply (Hlt j Hj). by apply window_occurs.
Qed.

Lemma find_subslice_None needle hay :
  (0 < length needle)%nat →
  find_subslice hay needle = None ↔ ∀ i, ¬ occurs_at needle hay i.
Proof.
  intros Hn. unfold find_subslice. rewrite position_None. split.
  - intros Hno i Ho%window_occurs; [|done].
    specialize (Hno needle (list_elem_of_lookup_2 _ _ _ Ho)).
    by rewrite bool_decide_eq_true_2 in Hno.
  - intros Hno w [i Hi]%list_elem_of_lookup. apply bool_decide_eq_false. intros ->.
    apply (Hno i). by apply window_occurs.
Qed.

Lemma occurs_at_drop needle hay k i :
  occurs_at needle (drop k hay) i ↔ occurs_at needle hay (k + i).
Proof. unfold occurs_at. by rewrite drop_drop. Qed.

(** ** The commitment footer *)

(** Where a classic coinbase may carry its chain root: right after the only
    marker, or near the start of a script without one. *)
Definition commitment_at (script root : bytes) (pos : nat) : Prop :=
  first_occurrence root script pos ∧
  ((∃ m, (m + 4 = pos)%nat ∧ ∀ j, occurs_at AUXPOW_MAGIC script j ↔ j = m) ∨
   ((pos ≤ 20)%nat ∧ ∀ j, ¬ occurs_at AUXPOW_MAGIC script j)) ∧
  (pos + 40 ≤ length script)%nat.

Lemma magic_unique script m :
  find_subslice script AUXPOW_MAGIC = Some m ∧
  find_subslice (drop (m + 1) script) AUXPOW_MAGIC = None ↔
  ∀ j, occurs_at AUXPOW_MAGIC script j ↔ j = m.
Proof.
  rewrite find_subslice_Some, find_subslice_None by (simpl; lia). split.
  - intros [[Ho Hlt] Hno] j. split; [|by intros ->]. intros Hj.
    destruct (decide (j < m)%nat) as [|Hjm]; [by destruct (Hlt j)|].
    destruct (decide (j = m)) as [|Hne]; [done|].
    destruct (Hno (j - (m + 1))%nat). apply occurs_at_drop.
    by replace (m + 1 + (j - (m + 1)))%nat with j by lia.
  - intros Hu. split; [split; [by apply Hu|]|].
    + intros j Hj ->%Hu. lia.
    + intros i ?%occurs_at_drop%Hu. lia.
Qed.

Lemma footer_spec script root ts nonce :
  (0 < length root)%nat →
  read_commitment_footer script root = Ok (ts, nonce) ↔
  ∃ pos, commitment_at script root pos ∧
         ts = u32_at (pos + 32) script ∧ nonce = u32_at (pos + 36) script.
Proof.
  intros Hr. unfold read_commitment_footer. split.
  - intros Hf. res_inv. rename x into pos, H into Hpos, H0 into Hmark.
    exists pos. split; [|done]. apply find_subslice_Some in Hpos; [|done].
    split; [done|]. split; [|done].
    case_match eqn:Hm; res_inv.
    + left. exists n. split; [by simpl in *; lia|]. by apply magic_unique.
    + right. split; [done|]. by apply find_subslice_None; [simpl; lia|].
  - intros (pos & (Hpos & Hmark & Hlen) & -> & ->).
    apply find_subslice_Some in Hpos; [|done]. rewrite Hpos. simpl.
    destruct Hmark as [(m & Hm & Hu)|[Hw Hno]].
    + apply magic_unique in Hu as [-> Hn]. simpl.
      rewrite bool_decide_eq_true_2 by done. simpl.
      rewrite bool_decide_eq_true_2 by done. simpl.
      by rewrite bool_decide_eq_true_2 by done.
    + apply find_subslice_None in Hno; [|simpl; lia]. rewrite Hno. simpl.
      rewrite bool_decide_eq_true_2 by done. simpl.
      by rewrite bool_decide_eq_true_2 by done.
Qed.

(** ** Slots *)

Lemma expected_index_alt nonce chain_id n :
  (n ≤ 32)%nat →
  auxpow_expected_index nonce chain_id n =
  ((nonce * 1103515245 + 12345 + chain_id) * 1103515245 + 12345) mod 2 ^ Z.of_nat n.
Proof.
  intros Hn. unfold auxpow_expected_index, wrapping_add_u32, wrapping_mul_u32.
  rewrite Z.shiftl_1_l. set (m := 2 ^ Z.of_nat n).
  assert (∀ z, ∃ k, wrap_u32 z = z + k * m) as E.
  { intros z. exists (- (2 ^ (32 - Z.of_nat n) * (z / 4294967296))).
    unfold wrap_u32. rewrite Z.mod_eq by lia.
    replace 4294967296 with (2 ^ (32 - Z.of_nat n) * m) at 1; [ring|].
    unfold m. rewrite <-Z.pow_add_r by lia.
    by replace (32 - Z.of_nat n + Z.of_nat n) with 32 by lia. }
  destruct (E (nonce * 1103515245)) as [k1 ->].
  destruct (E (nonce * 1103515245 + k1 * m + 12345)) as [k2 ->].
  set (a := nonce * 1103515245 + k1 * m + 12345 + k2 * m + chain_id).
  destruct (E a) as [k3 ->]. destruct (E ((a + k3 * m) * 1103515245)) as [k4 ->].
  destruct (E ((a + k3 * m) * 1103515245 + k4 * m + 12345)) as [k5 ->]. subst a.
  rewrite <-(Z_mod_plus_full ((nonce * 1103515245 + 12345 + chain_id) * 1103515245 + 12345)
    ((k1 + k2 + k3) * 1103515245 + k4 + k5) m). f_equal. ring.
Qed.

(** ** Merkle folds *)

Section laws.
Context `{BitcoinLibLaws}.

(** What a fold hashes, level by level. *)
Fixpoint fold_inputs (acc : bytes) (index : Z) (hashes : list bytes) : list bytes :=
  match hashes with
  | [] => []
  | sib :: rest =>
      let input := if Z.land index 1 =? 1 then sib ++ acc else acc ++ sib in
      input :: fold_inputs (sha256d input) (Z.shiftr index 1) rest
  end.
Definition branch_inputs (leaf : bytes) (branch : MerkleBranch) : list bytes :=
  fold_inputs leaf (as_u32 (mb_index branch)) (mb_hashes branch).

(** Two lists of inputs collide at a level: they differ there and have the same digest. *)
Definition inputs_collide (l1 l2 : list bytes) : Prop :=
  ∃ n x y, l1 !! n = Some x ∧ l2 !! n = Some y ∧ x ≠ y ∧ sha256d x = sha256d y.

Lemma inputs_collide_cons x y l1 l2 : inputs_collide l1 l2 → inputs_collide (x :: l1) (y :: l2).
Proof. intros (n & a & b & Ha & Hb & Hc). by exists (S n), a, b. Qed.

Lemma fold_branch_step acc i sib hs :
  fold_branch acc i (sib :: hs) =
  fold_branch (sha256d (if Z.land i 1 =? 1 then sib ++ acc else acc ++ sib)) (Z.shiftr i 1) hs.
Proof. simpl. unfold sha256d_pair. by destruct (_ =? 1). Qed.

Lemma fold_branch_binding hs1 hs2 acc1 acc2 i :
  length hs1 = length hs2 → Forall hash32 hs1 → Forall hash32 hs2 →
  hash32 acc1 → hash32 acc2 →
  fold_branch acc1 i hs1 = fold_branch acc2 i hs2 →
  (acc1 = acc2 ∧ hs1 = hs2) ∨ inputs_collide (fold_inputs acc1 i hs1) (fold_inputs acc2 i hs2).
Proof.
  intros Hl Hf1. revert hs2 acc1 acc2 i Hl.
  induction Hf1 as [|s1 hs1 Hs1 _ IH]; intros [|s2 hs2] acc1 acc2 i Hl Hf2 Ha1 Ha2 He;
    try done; [by left|].
  apply Forall_cons in Hf2 as [Hs2 Hf2]. simpl in Hl. injection Hl as Hl. rewrite !fold_branch_step in He.
  apply IH in He as [[Heq ->]|Hc]; try done; [|right; by apply inputs_collide_cons|apply sha256d_length..].
  set (x := if _ =? 1 then s1 ++ acc1 else acc1 ++ s1) in *.
  set (y := if _ =? 1 then s2 ++ acc2 else acc2 ++ s2) in *.
  destruct (decide (x = y)) as [E|Hne]; [left|right; by exists 0%nat, x, y].
  unfold x, y, hash32 in *. destruct (_ =? 1); apply app_inj_1 in E as [-> ->]; try done; congruence.
Qed.

Lemma fold_merkle_branch_length leaf b :
  hash32 leaf → hash32 (fold_merkle_branch leaf b).
Proof.
  unfold fold_merkle_branch. generalize (as_u32 (mb_index b)). revert leaf.
  induction (mb_hashes b) as [|s hs IH]; intros leaf i Hl; [done|]. simpl.
  apply IH. destruct (_ =? 1); apply sha256d_length.
Qed.

(** ** The classic commitment *)

(** The property [CAuxPow::check] establishes for a child block hash. *)
Definition classic_commitment (parsed : ParsedAuxpowBlock) (child : bytes) (chain_id : Z) : Prop :=
  let chain := ap_chain_branch (proof parsed) in
  let coinbase := ap_coinbase_branch (proof parsed) in
  let script := parent_coinbase_script parsed in
  let n := length (mb_hashes chain) in
  (n ≤ 30)%nat ∧ mb_index coinbase = 0 ∧
  fold_merkle_branch (parent_coinbase_txid parsed) coinbase =
    merkle_root (ph_header (parent_header parsed)) ∧
  ∃ pos, commitment_at script (reverse (fold_merkle_branch child chain)) pos ∧
         u32_at (pos + 32) script = 2 ^ Z.of_nat n ∧
         mb_index chain = auxpow_expected_index (u32_at (pos + 36) script) chain_id n.

Lemma expected_index_range nonce chain_id n :
  0 ≤ auxpow_expected_index nonce chain_id n < 2 ^ Z.of_nat n.
Proof.
  unfold auxpow_expected_index. rewrite Z.shiftl_1_l. apply Z.mod_pos_bound. lia.
Qed.

Lemma verify_classic_spec parsed child chain_id :
  hash32 child →
  verify_classic_auxpow_commitment parsed child chain_id = Ok () ↔
  classic_commitment parsed child chain_id.
Proof.
  intros Hc. unfold verify_classic_auxpow_commitment, classic_commitment. cbv zeta.
  assert (0 < length (reverse (fold_merkle_branch child (ap_chain_branch (proof parsed)))))%nat
    as Hroot.
  { rewrite length_reverse, fold_merkle_branch_length by done. lia. }
  split.
  - intros Hv. res_inv. destruct x3 as [ts nonce]. res_inv.
    apply footer_spec in H5 as (pos & Hat & -> & ->); [|done].
    rewrite Z.shiftl_1_l in *. unfold u32_try_from in *. case_match; simplify_eq.
    split_and!; [done|lia|done|]. exists pos. split_and!; [done|lia|lia].
  - intros (Hn & Hi & Hroot' & pos & Hat & Hts & Hidx).
    rewrite bool_decide_eq_true_2 by done. rewrite Hi. simpl.
    assert (0 ≤ mb_index (ap_chain_branch (proof parsed))) as Hnn.
    { rewrite Hidx. apply expected_index_range. }
    replace (0 <=? _) with true by lia. simpl.
    rewrite bool_decide_eq_true_2 by done. simpl.
    rewrite (proj2 (footer_spec _ _ (u32_at (pos + 32) (parent_coinbase_script parsed))
      (u32_at (pos + 36) (parent_coinbase_script parsed)) Hroot)) by eauto.
    simpl. rewrite Hts, Z.shiftl_1_l, Z.eqb_refl. simpl.
    unfold u32_try_from. replace (0 <=? _) with true by lia. simpl.
    by rewrite <-Hidx, Z.eqb_refl.
Qed.

Lemma occurs_at_inj r1 r2 script i :
  length r1 = length r2 → occurs_at r1 script i → occurs_at r2 script i → r1 = r2.
Proof. unfold occurs_at. intros Hl <- <-. by rewrite Hl. Qed.

Lemma commitment_with_marker script root pos m :
  occurs_at AUXPOW_MAGIC script m → commitment_at script root pos → pos = (m + 4)%nat.
Proof.
  intros Hm (_ & [(m' & <- & Hu)|[_ Hno]] & _); [|by destruct (Hno m)].
  apply Hu in Hm as ->. done.
Qed.

Lemma classic_commitment_unique p1 p2 h1 h2 cid m :
  hash32 h1 → hash32 h2 →
  Forall hash32 (mb_hashes (ap_chain_branch (proof p1))) →
  Forall hash32 (mb_hashes (ap_chain_branch (proof p2))) →
  parent_coinbase_script p1 = parent_coinbase_script p2 →
  occurs_at AUXPOW_MAGIC (parent_coinbase_script p1) m →
  classic_commitment p1 h1 cid → classic_commitment p2 h2 cid →
  (h1 = h2 ∧ ap_chain_branch (proof p1) = ap_chain_branch (proof p2)) ∨
  inputs_collide (branch_inputs h1 (ap_chain_branch (proof p1))) (branch_inputs h2 (ap_chain_branch (proof p2))).
Proof.
  intros Hh1 Hh2 Hf1 Hf2 Hs Hm (_ & _ & _ & pos1 & Hat1 & Hts1 & Hi1)
    (_ & _ & _ & pos2 & Hat2 & Hts2 & Hi2).
  rewrite <-Hs in *.
  assert (pos1 = m + 4)%nat as -> by by eapply commitment_with_marker.
  assert (pos2 = m + 4)%nat as -> by by eapply commitment_with_marker.
  destruct (ap_chain_branch (proof p1)) as [hs1 i1], (ap_chain_branch (proof p2)) as [hs2 i2].
  simpl in *. rewrite Hts1 in Hts2. apply Z.pow_inj_r in Hts2; [|lia..].
  apply Nat2Z.inj in Hts2. rewrite <-Hts2 in Hi2. assert (i1 = i2) as <- by congruence.
  destruct Hat1 as [[Ho1 _] _], Hat2 as [[Ho2 _] _].
  eapply occurs_at_inj in Ho1; [|..|exact Ho2].
  2: { by rewrite !length_reverse, !fold_merkle_branch_length. }
  apply (inj reverse) in Ho1. symmetry in Ho1. unfold fold_merkle_branch in Ho1. simpl in Ho1.
  apply fold_branch_binding in Ho1 as [[-> ->]|]; auto.
Qed.

(** ** The classic block parser *)

Definition buffer_ok (raw : bytes) : Prop := Z.of_nat (length raw) ≤ usize_MAX.

Lemma reader_new_inv raw : buffer_ok raw → reader_inv (Reader_new raw).
Proof. intros Hb. split; [simpl; lia|done]. Qed.

Lemma read_header_prefix raw h r :
  buffer_ok raw → (HEADER_SIZE ≤ length raw)%nat →
  read_array HEADER_SIZE (Reader_new raw) = Ok (h, r) →
  h = take HEADER_SIZE raw ∧ r = mkReader raw HEADER_SIZE.
Proof.
  intros Hb Hl. unfold read_array.
  rewrite read_slice_Ok by (simpl; lia || by apply reader_new_inv).
  intros [= <- <-]. split; [|done]. unfold slice. simpl. by rewrite drop_0.
Qed.

Lemma parse_header_Ok raw h :
  parse_header raw = Ok h → length raw = HEADER_SIZE →
  serialize_header (ph_header h) = raw ∧ header_wf (ph_header h).
Proof.
  unfold parse_header. intros Hp Hl. res_inv.
  destruct (deserialize_header_total raw Hl) as (h' & E & Hwf & Hs). simpl.
  simplify_eq. done.
Qed.

Lemma read_classic_prefix_spec raw h pre :
  buffer_ok raw → read_classic_prefix raw = Ok (h, pre) →
  (HEADER_SIZE ≤ length raw)%nat ∧
  serialize_header (ph_header h) = take HEADER_SIZE raw ∧ header_wf (ph_header h) ∧
  match pre with
  | None => has_auxpow_flag h = false
  | Some (ap, off) =>
      has_auxpow_flag h = true ∧ (HEADER_SIZE ≤ off ≤ length raw)%nat ∧
      reads read_auxpow (slice HEADER_SIZE off raw) ap
  end.
Proof.
  intros Hb Hp. unfold read_classic_prefix in Hp. res_inv.
  destruct x0 as [hdr r]. apply read_header_prefix in H2 as [-> ->]; [|done..].
  res_inv. split; [done|].
  assert (length (take HEADER_SIZE raw) = HEADER_SIZE) as Hl.
  { rewrite length_take. lia. }
  destruct (has_auxpow_flag x) eqn:Hflag; simpl in *; res_inv.
  - destruct x0 as [ap r']. res_inv. unfold contextM in *. res_inv.
    apply parse_header_Ok in H2 as [Hs Hw]; [|done].
    destruct (local_auxpow (mkReader raw HEADER_SIZE) ap r') as ([Hi _] & Hbuf & Hm & Hd).
    { by split. } { done. }
    rewrite Hbuf in Hi. simpl in *. split_and!; try done.
  - apply parse_header_Ok in H2 as [Hs Hw]; [|done]. done.
Qed.

Lemma validates_target_spec h bits :
  validates_target h bits = true ↔
  ∃ t, well_formed_compact_target bits = Some t ∧ from_le_bytes h ≤ t.
Proof.
  unfold validates_target. destruct (well_formed_compact_target bits) as [t|].
  - rewrite is_met_by_le, Z.leb_le. naive_solver.
  - naive_solver.
Qed.

Lemma parse_child_Ok raw hp c :
  parse_child_block_coinbase_with_height raw hp = Ok c →
  ∃ block coinbase input,
    deserialize_block raw = Some block ∧ check_merkle_root block = true ∧
    head (txdata block) = Some coinbase ∧ is_coinbase coinbase = true ∧
    head (tx_input coinbase) = Some input ∧
    c = {| pc_header := mkParsedHeader (blk_header block);
           pc_height := hp (script_sig input);
           pc_coinbase_txid := compute_txid coinbase;
           pc_coinbase_script := script_sig input;
           pc_coinbase_outputs := tx_output coinbase |}.
Proof. unfold parse_child_block_coinbase_with_height. intros Hp. res_inv. naive_solver. Qed.

(** A block authenticated by the classic parser: the wire layout, the requested
    identity, the strict chain ids, the child body, the commitment and the work. *)
Definition classic_authentic (raw h : bytes) (height cid : Z) (p : ParsedAuxpowBlock) : Prop :=
  ∃ body block coinbase input target script0,
    let hb := serialize_header (ph_header (child_header p)) in
    header_wf (ph_header (child_header p)) ∧ raw = hb ++ auxpow_bytes p ++ body ∧
    reads read_auxpow (auxpow_bytes p)
      {| pa_coinbase_tx := {| pt_txid := parent_coinbase_txid p; pt_is_coinbase := true;
           pt_first_input_script := script0;
           pt_outputs := parent_coinbase_outputs p |};
         pa_hash_block := ap_hash_block (proof p);
         pa_coinbase_branch := ap_coinbase_branch (proof p);
         pa_chain_branch := ap_chain_branch (proof p);
         pa_parent_header := parent_header p |} ∧
    parent_coinbase_script p = default [] script0 ∧
    parent_coinbase_output_addresses p = output_addresses (parent_coinbase_outputs p) ∧
    ParsedHeader_hash (child_header p) = h ∧ has_auxpow_flag (child_header p) = true ∧
    version_chain_id (child_header p) = cid ∧ version_chain_id (parent_header p) ≠ cid ∧
    deserialize_block (hb ++ body) = Some block ∧ check_merkle_root block = true ∧
    block_hash (blk_header block) = h ∧
    head (txdata block) = Some coinbase ∧ is_coinbase coinbase = true ∧
    head (tx_input coinbase) = Some input ∧
    parse_child_bip34_height (script_sig input) = Some height ∧
    child_height p = Some height ∧
    child_coinbase_txid p = Some (compute_txid coinbase) ∧
    child_coinbase_script p = Some (script_sig input) ∧
    child_coinbase_outputs p = tx_output coinbase ∧ child_coinbase_output_addresses p = [] ∧
    classic_commitment p h cid ∧
    well_formed_compact_target (hdr_bits (ph_header (child_header p))) = Some target ∧
    from_le_bytes (ParsedHeader_hash (parent_header p)) ≤ target.

Lemma split_raw (raw : bytes) off :
  (HEADER_SIZE ≤ off)%nat →
  raw = take HEADER_SIZE raw ++ slice HEADER_SIZE off raw ++ drop off raw.
Proof.
  intros Ho. unfold slice. rewrite <-(take_drop HEADER_SIZE raw) at 1. f_equal.
  rewrite <-(take_drop (off - HEADER_SIZE) (drop HEADER_SIZE raw)) at 1. f_equal.
  rewrite drop_drop. f_equal. lia.
Qed.

Lemma attach_Ok parsed child p :
  attach_child_block_coinbase parsed child = Ok p →
  ParsedHeader_hash (child_header parsed) = ParsedHeader_hash (pc_header child) ∧
  child_header p = child_header parsed ∧ parent_header p = parent_header parsed ∧
  proof p = proof parsed ∧ auxpow_bytes p = auxpow_bytes parsed ∧
  parent_coinbase_txid p = parent_coinbase_txid parsed ∧
  parent_coinbase_script p = parent_coinbase_script parsed ∧
  parent_coinbase_outputs p = parent_coinbase_outputs parsed ∧
  child_height p = match child_height parsed with Some h => Some h | None => pc_height child end ∧
  child_coinbase_txid p = Some (pc_coinbase_txid child) ∧
  child_coinbase_script p = Some (pc_coinbase_script child) ∧
  child_coinbase_outputs p = pc_coinbase_outputs child ∧
  child_coinbase_output_addresses p = [] ∧
  parent_coinbase_output_addresses p = parent_coinbase_output_addresses parsed.
Proof. unfold attach_child_block_coinbase. intros Ha. res_inv. by split_and!. Qed.

Lemma classic_parser_sound raw h height cid p :
  buffer_ok raw →
  parse_verified_classic_block raw h height cid = Ok (AuxpowBlock p) →
  classic_authentic raw h height cid p.
Proof.
  intros Hb Hp. unfold parse_verified_classic_block in Hp. res_inv.
  destruct x as [hdr pre]. res_inv.
  apply read_classic_prefix_spec in H1 as (Hlen & Hser & Hwf & Hpre); [|done].
  destruct pre as [[ap off]|]; res_inv.
  destruct Hpre as (Hflag & Hoff & Hreads).
  apply parse_child_Ok in H5 as (block & coinbase & input & Hblk & Hmr & Hcb & Hic & Hin & ->).
  apply attach_Ok in H7 as (Eh & E1 & E2 & E3 & E4 & E5 & E6 & E7 & E8 & E9 & E10 & E11 & E12 & E13).
  apply verify_classic_spec in H8; [|apply block_hash_length].
  apply validates_target_spec in H9 as (t & Ht & Hle).
  exists (drop off raw), block, coinbase, input, t, (pt_first_input_script (pa_coinbase_tx ap)).
  simpl in *. rewrite E4, E5, E6, E7, E13, E1, E2, E3 in *. rewrite Hser.
  split_and!; try done; try lia.
  - apply split_raw. lia.
  - destruct ap as [[] ? ? ? ?]; simpl in *. by rewrite <-H1.
  - congruence.
Qed.

#[local] Opaque HEADER_SIZE.

Lemma read_classic_prefix_complete h enc ap body :
  let raw := serialize_header (ph_header h) ++ enc ++ body in
  buffer_ok raw → header_wf (ph_header h) → has_auxpow_flag h = true →
  reads read_auxpow enc ap →
  read_classic_prefix raw = Ok (h, Some (ap, (HEADER_SIZE + length enc)%nat)).
Proof.
  intros raw Hb Hwf Hflag Hr. unfold read_classic_prefix.
  pose proof (serialize_header_length _ Hwf) as Hl.
  rewrite bool_decide_eq_true_2 by (unfold raw; rewrite length_app; lia). simpl.
  unfold read_array. rewrite read_slice_Ok by
    (first [by apply reader_new_inv | unfold raw; simpl; rewrite !length_app; lia]).
  simpl. unfold slice. rewrite Nat.sub_0_r, drop_0.
  assert (take HEADER_SIZE raw = serialize_header (ph_header h)) as ->.
  { by apply take_app_length'. }
  unfold parse_header. rewrite serialize_deserialize_header by done. simpl.
  destruct h as [h]. simpl in *. rewrite Hflag. simpl. unfold contextM, with_context.
  specialize (Hr (serialize_header h) body Hb). rewrite Hl in Hr. fold raw in Hr.
  by rewrite Hr.
Qed.

Lemma classic_parser_complete raw h height cid p :
  buffer_ok raw → classic_authentic raw h height cid p →
  parse_verified_classic_block raw h height cid = Ok (AuxpowBlock p).
Proof.
  intros Hb (body & block & cb & input & t & script0 & Hwf & Hraw & Hr & Hs & Ha & Hh & Hflag &
    Hc & Hpc & Hblk & Hmr & Hbh & Hcb & Hic & Hin & Hht & E1 & E2 & E3 & E4 & E5 & Hcom & Ht & Hle).
  unfold parse_verified_classic_block. rewrite Hraw in Hb |- *.
  rewrite (read_classic_prefix_complete _ _ _ _ Hb Hwf Hflag Hr). simpl.
  rewrite bool_decide_eq_true_2 by done. simpl.
  rewrite Hc, Z.eqb_refl. simpl. replace (_ =? cid) with false by lia. simpl.
  pose proof (serialize_header_length _ Hwf) as Hl.
  rewrite (take_app_length' _ _ HEADER_SIZE) by done.
  rewrite drop_app_add' by done. rewrite drop_app_length.
  unfold parse_child_block_coinbase_with_height. rewrite Hblk. simpl. rewrite Hmr. simpl.
  rewrite Hcb. simpl. rewrite Hic. simpl. rewrite Hin. simpl.
  rewrite Hht, bool_decide_eq_true_2 by done. simpl.
  unfold attach_child_block_coinbase, assemble_auxpow_block. simpl.
  rewrite bool_decide_eq_true_2 by (unfold ParsedHeader_hash in *; simpl; congruence). simpl.
  unfold slice. rewrite drop_app_length' by done. 
  replace (HEADER_SIZE + length (auxpow_bytes p) - HEADER_SIZE)%nat with (length (auxpow_bytes p)) by lia.
  rewrite take_app_length, <-Hs, <-Ha.
  destruct p as [? ? ? ? ? ? ? [] ? ? ? ? ?]. simpl in *. subst.
  apply verify_classic_spec in Hcom; [|apply block_hash_length]. rewrite Hcom. simpl.
  by rewrite (proj2 (validates_target_spec _ _)) by eauto.
Qed.

#[local] Transparent HEADER_SIZE.

End laws.

(** ** The Elastos commitment *)

Lemma omap_NoDup_partial_inj {A B} (f : A → option B) l :
  NoDup l → (∀ x y b, x ∈ l → y ∈ l → f x = Some b → f y = Some b → x = y) →
  NoDup (omap f l).
Proof.
  induction 1 as [|x l Hx Hl IH]; intros Hinj; simpl; [constructor|].
  assert (NoDup (omap f l)) as IH'.
  { apply IH. intros y z b ? ?. apply Hinj; by right. }
  destruct (f x) as [b|] eqn:E; [|done]. constructor; [|done].
  intros (y & Hy & Ey)%list_elem_of_omap.
  assert (x = y) as <-; [|done]. apply (Hinj x y b); [by left|by right|done..].
Qed.

Lemma marker_positions_elem script i :
  i ∈ marker_positions script ↔ occurs_at AUXPOW_MAGIC script i.
Proof.
  unfold marker_positions. rewrite list_elem_of_omap. rewrite <-window_occurs by (simpl; lia).
  split.
  - intros ([j w] & (j' & w' & [= -> ->] & Hw)%elem_of_lookup_imap & E).
    case_bool_decide; by simplify_eq.
  - intros Hw. exists (i, AUXPOW_MAGIC). split.
    + by apply (elem_of_lookup_imap_2 pair).
    + by rewrite bool_decide_eq_true_2.
Qed.

Lemma marker_positions_NoDup script : NoDup (marker_positions script).
Proof.
  apply omap_NoDup_partial_inj.
  - apply NoDup_alt. intros i j [a b] Hi Hj. rewrite list_lookup_imap in Hi, Hj.
    destruct (_ !! i), (_ !! j); simplify_option_eq; done.
  - intros [i w] [j w'] b (? & ? & [= <- <-] & Hi)%elem_of_lookup_imap
      (? & ? & [= <- <-] & Hj)%elem_of_lookup_imap ? ?.
    do 2 case_bool_decide; by simplify_eq.
Qed.

Lemma marker_positions_single script m :
  marker_positions script = [m] ↔ ∀ j, occurs_at AUXPOW_MAGIC script j ↔ j = m.
Proof.
  setoid_rewrite <-marker_positions_elem. split; [intros ->; set_solver|].
  intros Hu. pose proof (marker_positions_NoDup script) as Hn.
  destruct (marker_positions script) as [|a [|b l]].
  - pose proof (proj2 (Hu m) eq_refl) as Hin. by apply not_elem_of_nil in Hin.
  - f_equal. apply Hu. set_solver.
  - assert (a = m) by (apply Hu; set_solver). assert (b = m) by (apply Hu; set_solver). subst.
    apply NoDup_cons in Hn as [Hn _]. set_solver.
Qed.

Lemma head_tail_single {A} (l : list A) x : head l = Some x ∧ tail l = [] ↔ l = [x].
Proof. destruct l as [|y [|]]; naive_solver. Qed.

(** What the Elastos check establishes: the root after the only marker, in
    reversed byte order, is the fold of the reversed child hash. *)
Definition elastos_commitment `{BitcoinLib} (parsed : ParsedAuxpowBlock) (child : bytes)
    (chain_id : Z) : Prop :=
  let chain := ap_chain_branch (proof parsed) in
  let coinbase := ap_coinbase_branch (proof parsed) in
  let script := parent_coinbase_script parsed in
  let n := length (mb_hashes chain) in
  (n < 32)%nat ∧ mb_index coinbase = 0 ∧
  fold_merkle_branch (parent_coinbase_txid parsed) coinbase =
    merkle_root (ph_header (parent_header parsed)) ∧
  ∃ m, (∀ j, occurs_at AUXPOW_MAGIC script j ↔ j = m) ∧ (m + 44 ≤ length script)%nat ∧
       reverse (slice (m + 4) (m + 36) script) = fold_merkle_branch (reverse child) chain ∧
       u32_at (m + 36) script = 2 ^ Z.of_nat n ∧
       mb_index chain = auxpow_expected_index (u32_at (m + 40) script) chain_id n.

(** The Elastos commitment check succeeds exactly when the script has one
    marker followed by a whole footer, the chain branch is shallower than 32, the
    coinbase is the first transaction of the parent block, the reversed root is the
    fold of the reversed child hash, and size and slot are the ones the footer and
    the chain id give. *)
Theorem elastos_commitment_exact `{BitcoinLib} parsed child chain_id :
  verify_auxpow_commitment parsed child chain_id = Ok () ↔
  elastos_commitment parsed child chain_id.
Proof.
  unfold verify_auxpow_commitment, elastos_commitment. cbv zeta. split.
  - intros Hv. res_inv. unfold u32_try_from in *. simpl in *.
    do 2 case_match; simplify_eq. res_inv.
    assert (marker_positions (parent_coinbase_script parsed) = [x]) as Hm
      by by apply head_tail_single.
    rewrite Z.shiftl_1_l in *. split_and!; [done|lia|done|].
    exists x. rewrite <-marker_positions_single. split; [done|].
    replace (x + 4 + 32)%nat with (x + 36)%nat in * by lia.
    replace (x + 4 + 36)%nat with (x + 40)%nat in * by lia.
    split_and!; [lia|done|lia|lia].
  - intros (Hn & Hi & Hroot & m & Hu & Hlen & Hchain & Hts & Hidx).
    apply marker_positions_single in Hu. rewrite Hu. simpl.
    rewrite (bool_decide_eq_true_2 (_ + 40 ≤ _)%nat) by lia. simpl.
    rewrite (bool_decide_eq_true_2 (_ < 32)%nat) by done. simpl.
    replace (m + 4 + 32)%nat with (m + 36)%nat by lia.
    replace (m + 4 + 36)%nat with (m + 40)%nat by lia.
    rewrite Z.shiftl_1_l, Hts, Z.eqb_refl, Hi. simpl.
    assert (0 ≤ mb_index (ap_chain_branch (proof parsed))) as Hnn
      by (rewrite Hidx; apply expected_index_range).
    unfold u32_try_from. replace (0 <=? _) with true by lia. simpl.
    rewrite <-Hidx, Z.eqb_refl, bool_decide_eq_true_2 by done. simpl.
    by rewrite bool_decide_eq_true_2 by done.
Qed.

(** ** Coinbase heights *)

(** A push of the [n] low bytes of [h], with [1 <= n <= 4], before [tail]. *)
Definition height_push (n : nat) (h : Z) (tail : bytes) : bytes :=
  byte_of_Z (Z.of_nat n) :: to_le_bytes n h ++ tail.

Lemma pow256_le4 n : (1 ≤ n ≤ 4)%nat → 256 ≤ 256 ^ Z.of_nat n ≤ 4294967296.
Proof.
  intros Hn. assert (n = 1 ∨ n = 2 ∨ n = 3 ∨ n = 4)%nat as [->|[->|[->| ->]]] by lia;
    vm_compute; split; discriminate.
Qed.

Lemma u8_byte_of_nat n : (n ≤ 4)%nat → Z.to_nat (u8 (byte_of_Z (Z.of_nat n))) = n.
Proof. intros. rewrite u8_byte_of_Z, Z.mod_small; lia. Qed.

Lemma height_parse_push n bs tail :
  (1 ≤ n ≤ 4)%nat → length bs = n → from_le_bytes bs ≤ i32_MAX →
  parse_coinbase_height (byte_of_Z (Z.of_nat n) :: bs ++ tail) = Some (from_le_bytes bs).
Proof.
  intros Hn Hl Hmax. unfold parse_coinbase_height. simpl length. simpl head.
  rewrite bool_decide_eq_false_2 by (rewrite length_app; lia).
  change (default x00 (head (?b :: _))) with b. cbv zeta. rewrite u8_byte_of_nat by lia.
  rewrite bool_decide_eq_true_2 by lia.
  rewrite bool_decide_eq_false_2 by (rewrite length_app; lia).
  cbn [negb orb]. unfold slice. rewrite Nat.add_comm, Nat.add_sub.
  change (drop 1 (?x :: ?l)) with l.
  rewrite take_app_length' by done. unfold i32_from_le_bytes.
  rewrite from_le_bytes_app, from_le_bytes_zeros, Z.mul_0_r, Z.add_0_r.
  pose proof (from_le_bytes_range bs).
  unfold as_i32. rewrite wrap_i32_id by (unfold in_i32, i32_MAX in *; lia).
  by replace (0 <=? _) with true by lia.
Qed.

Lemma height_parse_inv s h :
  parse_coinbase_height s = Some h →
  ∃ n bs tail, (1 ≤ n ≤ 4)%nat ∧ length bs = n ∧ h = from_le_bytes bs ∧ h ≤ i32_MAX ∧
               s = byte_of_Z (Z.of_nat n) :: bs ++ tail.
Proof.
  unfold parse_coinbase_height. case_bool_decide as H2; [done|]. cbv zeta.
  destruct s as [|b s]; [simpl in H2; lia|]. change (default x00 (head (b :: s))) with b.
  set (n := Z.to_nat (u8 b)).
  destruct (negb _ || _) eqn:Hc; [done|].
  apply orb_false_iff in Hc as [Hn Hl]. apply negb_false_iff, bool_decide_eq_true in Hn.
  apply bool_decide_eq_false in Hl. simpl in Hl.
  unfold slice. rewrite (Nat.add_comm 1 n), Nat.add_sub.
  change (drop 1 (b :: s)) with s.
  assert (length (take n s) = n) as Ht by (rewrite length_take; lia).
  unfold i32_from_le_bytes. rewrite from_le_bytes_app, from_le_bytes_zeros, Z.mul_0_r, Z.add_0_r.
  pose proof (from_le_bytes_range (take n s)) as Hr. rewrite Ht in Hr.
  pose proof (pow256_le4 n Hn) as Hp.
  destruct (0 <=? _) eqn:H0; intros [= <-].
  assert (from_le_bytes (take n s) ≤ i32_MAX).
  { unfold as_i32, wrap_i32, i32_MAX in *.
    destruct (decide (from_le_bytes (take n s) ≤ 2147483647)); [done|].
    replace (from_le_bytes (take n s) + 2147483648)
      with (from_le_bytes (take n s) - 2147483648 + 1 * 4294967296) in H0 by lia.
    rewrite Z.mod_add, Z.mod_small in H0; lia. }
  exists n, (take n s), (drop n s). rewrite take_drop.
  unfold as_i32. rewrite wrap_i32_id by (unfold in_i32, i32_MAX in *; lia).
  split_and!; try done; try lia. f_equal. unfold n.
  rewrite Z2Nat.id by apply u8_range.
  by rewrite byte_of_Z_u8.
Qed.

Lemma parse_coinbase_height_spec s h :
  parse_coinbase_height s = Some h ↔
  ∃ n tail, (1 ≤ n ≤ 4)%nat ∧ s = height_push n h tail ∧ 0 ≤ h < 256 ^ Z.of_nat n ∧ h ≤ i32_MAX.
Proof.
  split.
  - intros (n & bs & tail & Hn & Hl & -> & Hm & ->)%height_parse_inv.
    exists n, tail. pose proof (from_le_bytes_range bs). rewrite Hl in *.
    split_and!; try done; try lia. unfold height_push.
    subst n. by rewrite to_from_le_bytes.
  - intros (n & tail & Hn & -> & Hr & Hm).
    rewrite <-(from_to_le_bytes n h) at 2 by done. apply height_parse_push; [done| |].
    + apply length_to_le_bytes.
    + by rewrite from_to_le_bytes.
Qed.

(** The top byte of an [n]-byte push decides its script-number sign. *)
Lemma top_byte_sign n h :
  0 ≤ h < 256 ^ Z.of_nat (S n) →
  Z.land (u8 (default x00 (to_le_bytes (S n) h !! n))) 128 = 0 ↔ h < 128 * 256 ^ Z.of_nat n.
Proof.
  revert h. induction n as [|n IH]; intros h Hh.
  - change (to_le_bytes 1 h !! 0%nat) with (Some (byte_of_Z h)). simpl in *.
    rewrite u8_byte_of_Z, Z.mod_small by lia.
    assert (Z.land h 128 = if 128 <=? h then 128 else 0) as ->.
    { assert (Forall (λ k : nat, Z.land (Z.of_nat k) 128 =
        if 128 <=? Z.of_nat k then 128 else 0) (seq 0 256)) as E.
      { apply (bool_decide_unpack _). vm_compute. exact I. }
      rewrite Forall_forall in E. rewrite <-(Z2Nat.id h) by lia.
      apply E, elem_of_seq. lia. }
    destruct (128 <=? h) eqn:?; lia.
  - change (to_le_bytes (S (S n)) h !! S n) with (to_le_bytes (S n) (h / 256) !! n).
    rewrite pow256_S in Hh |- *. rewrite IH.
    + split; intros Hlt.
      * assert (h / 256 * 256 ≤ (128 * 256 ^ Z.of_nat n - 1) * 256) by nia.
        pose proof (Z.div_mod h 256). pose proof (Z.mod_pos_bound h 256). nia.
      * apply Z.div_lt_upper_bound; nia.
    + split; [apply Z.div_pos; lia|]. apply Z.div_lt_upper_bound; nia.
Qed.

Lemma height_push_top n h tail :
  (1 ≤ n ≤ 4)%nat →
  default x00 (height_push n h tail !! Z.to_nat (u8 (default x00 (head (height_push n h tail))))) =
  default x00 (to_le_bytes n h !! pred n).
Proof.
  intros Hn. unfold height_push. change (default x00 (head (?b :: _))) with b.
  rewrite u8_byte_of_nat by lia. destruct n as [|n]; [lia|].
  change ((?b :: ?l) !! S n) with (l !! n).
  rewrite lookup_app_l by (rewrite length_to_le_bytes; lia). done.
Qed.

(** ** Slots of two chains *)

Lemma expected_index_collision nonce c1 c2 n :
  (n ≤ 32)%nat →
  auxpow_expected_index nonce c1 n = auxpow_expected_index nonce c2 n ↔
  c1 mod 2 ^ Z.of_nat n = c2 mod 2 ^ Z.of_nat n.
Proof.
  intros Hn. rewrite !expected_index_alt by done. set (m := 2 ^ Z.of_nat n).
  assert (m ≠ 0) as Hm by (unfold m; lia).
  assert (∀ a b, a mod m = b mod m ↔ (m | a - b)) as E.
  { intros a b. rewrite <-Z.mod_divide by done. split.
    - intros He. rewrite Zminus_mod, He, Z.sub_diag. by apply Z.mod_0_l.
    - intros He. apply Z.mod_divide in He as [k Hk]; [|done].
      replace a with (b + k * m) by lia. by rewrite Z.mod_add. }
  rewrite !E.
  replace (_ - _) with (1103515245 * (c1 - c2)) by ring. split.
  - intros Hd. apply Z.gauss in Hd; [done|].
    unfold m. apply Z.coprime_pow_l; [lia|reflexivity].
  - intros Hd. by apply Z.divide_mul_r.
Qed.

(** ** Claims *)

Section claims.
Context `{BitcoinLibLaws}.

(** C31. The strict classic parser accepts exactly the authentic AuxPoW blocks: it
    returns a parsed block if and only if the bytes are a child header, a CAuxPow
    record and a child body, the header has the requested hash, the AuxPoW flag and
    the expected chain id, the parent header does not carry that chain id, the body
    is a block with a valid merkle root whose coinbase carries the requested
    height, the parent coinbase commits to the child hash, and the parent hash
    meets the child target; the fields returned are those of the bytes. *)
Theorem classic_block_authentic raw h height cid p :
  buffer_ok raw →
  parse_verified_classic_block raw h height cid = Ok (AuxpowBlock p) ↔
  classic_authentic raw h height cid p.
Proof.
  intros Hb. split; [by apply classic_parser_sound|by apply classic_parser_complete].
Qed.

(** Two merkle proofs with the same index and depth that fold to the same root
    have the same leaf and the same siblings, unless at some level
    the two folds hash different inputs to the same digest. *)
Theorem merkle_branch_binding leaf1 leaf2 hs1 hs2 i :
  hash32 leaf1 → hash32 leaf2 → Forall hash32 hs1 → Forall hash32 hs2 →
  length hs1 = length hs2 →
  fold_merkle_branch leaf1 (mkMerkleBranch hs1 i) = fold_merkle_branch leaf2 (mkMerkleBranch hs2 i) →
  (leaf1 = leaf2 ∧ hs1 = hs2) ∨
  inputs_collide (branch_inputs leaf1 (mkMerkleBranch hs1 i)) (branch_inputs leaf2 (mkMerkleBranch hs2 i)).
Proof. intros. by eapply fold_branch_binding. Qed.

(** C35. A parent coinbase script with a merged-mining marker commits to at most one
    child block per chain id: two proofs over the same script that both verify for
    the same chain name the same child hash and carry the same chain branch, unless
    at some level of the two branches their folds hash different inputs to the same
    double SHA-256 digest. *)
Theorem classic_one_child_per_marker p1 p2 h1 h2 cid m :
  hash32 h1 → hash32 h2 →
  Forall hash32 (mb_hashes (ap_chain_branch (proof p1))) →
  Forall hash32 (mb_hashes (ap_chain_branch (proof p2))) →
  parent_coinbase_script p1 = parent_coinbase_script p2 →
  occurs_at AUXPOW_MAGIC (parent_coinbase_script p1) m →
  verify_classic_auxpow_commitment p1 h1 cid = Ok () →
  verify_classic_auxpow_commitment p2 h2 cid = Ok () →
  (h1 = h2 ∧ ap_chain_branch (proof p1) = ap_chain_branch (proof p2)) ∨
  inputs_collide (branch_inputs h1 (ap_chain_branch (proof p1))) (branch_inputs h2 (ap_chain_branch (proof p2))).
Proof.
  intros Hh1 Hh2 ? ? ? ? Hv1 Hv2. apply verify_classic_spec in Hv1, Hv2; [|done..].
  by eapply classic_commitment_unique.
Qed.

(** The evidence a verified classic block stores can be read back: its CAuxPow
    bytes decode to the parent hash, [hashBlock] and both branches of the block,
    with the indices unchanged. *)
Theorem classic_evidence_decodes raw h height cid p :
  buffer_ok raw →
  parse_verified_classic_block raw h height cid = Ok (AuxpowBlock p) →
  decode_auxpow_proof (auxpow_bytes p) =
  Some {| pd_slot_index := mb_index (ap_chain_branch (proof p));
          pd_parent_header_hash := ParsedHeader_hash (parent_header p);
          pd_hash_block := ap_hash_block (proof p);
          pd_coinbase_branch := mkBranchDetail 0 (mb_hashes (ap_coinbase_branch (proof p)));
          pd_blockchain_branch := mkBranchDetail (mb_index (ap_chain_branch (proof p)))
                                    (mb_hashes (ap_chain_branch (proof p))) |}.
Proof.
  intros Hb Hp. apply classic_parser_sound in Hp as
    (body & block & cb & input & t & script0 & Hwf & Hraw & Hr & Hrest); [|done].
  destruct Hrest as (_ & _ & _ & _ & _ & _ & _ & _ & _ & _ & _ & _ & _ & _ & _ & _ & _ & _ &
    (_ & Hi & _ & pos & _ & _ & Hidx) & _).
  unfold decode_auxpow_proof, Reader_new.
  specialize (Hr [] []). simpl in Hr. rewrite app_nil_r in Hr. rewrite Hr.
  2: { unfold buffer_ok in Hb. rewrite Hraw, !length_app in Hb. lia. }
  simpl. unfold is_eof. simpl. rewrite bool_decide_eq_true_2 by done. simpl.
  assert (0 ≤ mb_index (ap_chain_branch (proof p))) as Hnn by
    (rewrite Hidx; apply expected_index_range).
  rewrite Hi. unfold u32_try_from. by rewrite (Zle_imp_le_bool _ _ Hnn).
Qed.

(** The marker the presentation layer decodes is the one the verifier checked:
    for a verified classic proof whose coinbase script has a marker, the decoded
    root is the fold of the child hash in display order, the size is two to the
    branch depth, and the nonce yields the proof's slot. *)
Theorem decoded_marker_is_verified p h cid m :
  hash32 h → occurs_at AUXPOW_MAGIC (parent_coinbase_script p) m →
  verify_classic_auxpow_commitment p h cid = Ok () →
  ∃ mk, decode_aux_marker (parent_coinbase_script p) = Some mk ∧
        aux_merkle_root mk = reverse (fold_merkle_branch h (ap_chain_branch (proof p))) ∧
        merkle_size mk = 2 ^ Z.of_nat (length (mb_hashes (ap_chain_branch (proof p)))) ∧
        mb_index (ap_chain_branch (proof p)) =
          auxpow_expected_index (merkle_nonce mk) cid
            (length (mb_hashes (ap_chain_branch (proof p)))).
Proof.
  intros Hh Hm Hv. apply verify_classic_spec in Hv as (_ & _ & _ & pos & Hat & Hts & Hidx); [|done].
  pose proof (commitment_with_marker _ _ _ _ Hm Hat) as ->.
  destruct Hat as ((Ho & _) & [(m' & Hm' & Hu)|[_ Hno]] & Hlen); [|by destruct (Hno m)].
  assert (m' = m) as -> by lia.
  unfold decode_aux_marker. change (position _ _) with (find_subslice (parent_coinbase_script p) AUXPOW_MAGIC).
  apply magic_unique in Hu as [-> _]. simpl. rewrite bool_decide_eq_false_2 by lia.
  eexists. split; [done|]. simpl. unfold u32_at in *. split_and!.
  - unfold occurs_at in Ho. rewrite length_reverse, fold_merkle_branch_length in Ho by done.
    rewrite <-Ho. unfold slice. by rewrite Nat.add_comm, Nat.add_sub.
  - by rewrite <-Hts, <-Nat.add_assoc.
  - rewrite Hidx. by replace (m + 4 + 32 + 4)%nat with (m + 4 + 36)%nat by lia.
Qed.

End claims.

(** The wrapping 32-bit slot computation is the unbounded linear congruential
    rule modulo the tree size, its result is a slot of the tree, and two chains
    collide on a slot exactly when their ids agree modulo the tree size, whatever
    the nonce. *)
Theorem slot_rule nonce c1 c2 n :
  (n < 32)%nat →
  auxpow_expected_index nonce c1 n =
    ((nonce * 1103515245 + 12345 + c1) * 1103515245 + 12345) mod 2 ^ Z.of_nat n ∧
  0 ≤ auxpow_expected_index nonce c1 n < 2 ^ Z.of_nat n ∧
  (auxpow_expected_index nonce c1 n = auxpow_expected_index nonce c2 n ↔
   c1 mod 2 ^ Z.of_nat n = c2 mod 2 ^ Z.of_nat n).
Proof.
  intros Hn. split; [apply expected_index_alt; lia|]. split; [apply expected_index_range|].
  apply expected_index_collision. lia.
Qed.

(** Coinbase heights: the parent-side decoder returns [h] exactly when the
    script starts with a push of one to four little-endian bytes of [h] and [h] is
    at most two million; the child-side decoder has no ceiling but refuses a push
    whose top bit is set, the sign of a script number. *)
Theorem coinbase_height_exact s h :
  (parse_bip34_height s = Some h ↔
   ∃ n tail, (1 ≤ n ≤ 4)%nat ∧ s = height_push n h tail ∧ 0 ≤ h < 256 ^ Z.of_nat n ∧ h ≤ 2000000) ∧
  (parse_child_bip34_height s = Some h ↔
   ∃ n tail, (1 ≤ n ≤ 4)%nat ∧ s = height_push n h tail ∧ 0 ≤ h < 128 * 256 ^ Z.of_nat (pred n)).
Proof.
  unfold parse_bip34_height, parse_child_bip34_height. split; rewrite bind_Some;
    setoid_rewrite parse_coinbase_height_spec.
  - split.
    + intros (h' & (n & tail & Hn & -> & Hr & Hm) & Hc).
      destruct (h' <=? 2000000) eqn:E; simplify_eq. exists n, tail. split_and!; try done; lia.
    + intros (n & tail & Hn & -> & Hr & Hm). exists h. split.
      * exists n, tail. unfold i32_MAX. split_and!; try done; lia.
      * by replace (h <=? 2000000) with true by lia.
  - split.
    + intros (h' & (n & tail & Hn & -> & Hr & Hm) & Hc). exists n, tail. cbv zeta in Hc.
      rewrite height_push_top in Hc by done. destruct n as [|n]; [lia|]. simpl pred in *.
      destruct (_ =? 0) eqn:E; simplify_eq. apply Z.eqb_eq, top_byte_sign in E; [|done].
      split_and!; try done; lia.
    + intros (n & tail & Hn & -> & Hr). exists h. cbv zeta.
      destruct n as [|n]; [lia|]. simpl pred in *. rewrite height_push_top by done.
      assert (0 ≤ h < 256 ^ Z.of_nat (S n)) as Hr' by (rewrite pow256_S; lia). split.
      * exists (S n), tail. pose proof (pow256_le4 (S n) Hn) as Hp. rewrite pow256_S in Hp.
        unfold i32_MAX. split_and!; try done; lia.
      * apply top_byte_sign in Hr' as E. rewrite (proj2 (Z.eqb_eq _ _)); [done|]. apply E. lia.
Qed.

(** ** Witnesses *)

Import Toy.

(** A block whose branches are empty: the parent merkle root is the parent
    coinbase id and the committed root is the child hash. *)
Definition ex_child_header : Header :=
  {| hdr_version := 65792; prev_blockhash := replicate 32 x07;
     merkle_root := pad32 [x01; x05]; hdr_time := 1700000000;
     hdr_bits := 545259519; hdr_nonce := 9 |}.
Definition ex_child_hash : bytes := hash_header ex_child_header.
Definition ex_parent_script : bytes :=
  AUXPOW_MAGIC ++ reverse ex_child_hash ++ to_le_bytes 4 1 ++ to_le_bytes 4 77.
Definition ex_parent_header : Header :=
  {| hdr_version := 536870912; prev_blockhash := replicate 32 x00;
     merkle_root := pad32 ex_parent_script; hdr_time := 1700000001;
     hdr_bits := 545259519; hdr_nonce := 3 |}.
Definition ex_record : bytes :=
  encode_auxpow (tx_bytes ex_parent_script) (replicate 32 x00) (mkMerkleBranch [] 0)
    (mkMerkleBranch [] 0) ex_parent_header.
Definition ex_raw : bytes := ser_header ex_child_header ++ ex_record ++ tx_bytes [x01; x05].
Definition ex_block : ParsedAuxpowBlock :=
  {| child_header := mkParsedHeader ex_child_header; child_height := Some 5;
     child_coinbase_txid := Some (pad32 [x01; x05]);
     child_coinbase_script := Some [x01; x05];
     child_coinbase_outputs := []; child_coinbase_output_addresses := [];
     parent_header := mkParsedHeader ex_parent_header;
     proof := {| ap_hash_block := replicate 32 x00;
                 ap_coinbase_branch := mkMerkleBranch [] 0;
                 ap_chain_branch := mkMerkleBranch [] 0 |};
     parent_coinbase_txid := pad32 ex_parent_script;
     parent_coinbase_script := ex_parent_script;
     parent_coinbase_outputs := []; parent_coinbase_output_addresses := [];
     auxpow_bytes := ex_record |}.

Lemma ex_raw_ok : buffer_ok ex_raw.
Proof. vm_compute. congruence. Qed.

Lemma ex_raw_parses :
  parse_verified_classic_block ex_raw ex_child_hash 5 1 = Ok (AuxpowBlock ex_block).
Proof. vm_compute. reflexivity. Qed.

Lemma classic_block_authentic_witness :
  classic_authentic ex_raw ex_child_hash 5 1 ex_block.
Proof. apply (classic_block_authentic ex_raw _ _ _ _ ex_raw_ok), ex_raw_parses. Defined.

(** With the toy hash, which keeps the first 32 bytes, siblings on the right collide. *)
Lemma merkle_branch_binding_witness :
  inputs_collide (branch_inputs (replicate 32 x01) (mkMerkleBranch [replicate 32 x02] 0))
    (branch_inputs (replicate 32 x01) (mkMerkleBranch [replicate 32 x03] 0)).
Proof.
  destruct (@merkle_branch_binding toy toy_laws (replicate 32 x01) (replicate 32 x01)
    [replicate 32 x02] [replicate 32 x03] 0) as [[_ E]|Hc]; [reflexivity| | | |reflexivity|vm_compute; reflexivity|..];
    [repeat constructor..|discriminate E|exact Hc].
Defined.

(** Two blocks with one parent script and different branches. *)
Definition ex_deep_script : bytes :=
  AUXPOW_MAGIC ++ reverse ex_child_hash ++ to_le_bytes 4 2 ++ to_le_bytes 4 77.
Definition ex_deep (sibling : bytes) : ParsedAuxpowBlock :=
  {| child_header := mkParsedHeader ex_child_header; child_height := Some 5;
     child_coinbase_txid := Some (pad32 [x01; x05]);
     child_coinbase_script := Some [x01; x05];
     child_coinbase_outputs := []; child_coinbase_output_addresses := [];
     parent_header := mkParsedHeader {| hdr_version := 536870912; prev_blockhash := replicate 32 x00;
       merkle_root := pad32 ex_deep_script; hdr_time := 1700000001; hdr_bits := 545259519; hdr_nonce := 3 |};
     proof := {| ap_hash_block := replicate 32 x00;
                 ap_coinbase_branch := mkMerkleBranch [] 0;
                 ap_chain_branch := mkMerkleBranch [sibling] 0 |};
     parent_coinbase_txid := pad32 ex_deep_script;
     parent_coinbase_script := ex_deep_script;
     parent_coinbase_outputs := []; parent_coinbase_output_addresses := [];
     auxpow_bytes := [] |}.

Lemma classic_one_child_per_marker_witness :
  verify_classic_auxpow_commitment (ex_deep (replicate 32 x02)) ex_child_hash 1 = Ok () ∧
  verify_classic_auxpow_commitment (ex_deep (replicate 32 x03)) ex_child_hash 1 = Ok () ∧
  inputs_collide (branch_inputs ex_child_hash (mkMerkleBranch [replicate 32 x02] 0))
    (branch_inputs ex_child_hash (mkMerkleBranch [replicate 32 x03] 0)).
Proof.
  split; [vm_compute; reflexivity|]. split; [vm_compute; reflexivity|].
  destruct (@classic_one_child_per_marker toy toy_laws (ex_deep (replicate 32 x02)) (ex_deep (replicate 32 x03))
    ex_child_hash ex_child_hash 1 0) as [[_ E]|Hc]; try (vm_compute; reflexivity); [repeat constructor..|discriminate E|exact Hc].
Defined.

Lemma classic_evidence_decodes_witness :
  is_Some (decode_auxpow_proof (auxpow_bytes ex_block)).
Proof.
  rewrite (classic_evidence_decodes ex_raw ex_child_hash 5 1 ex_block ex_raw_ok ex_raw_parses).
  eexists; reflexivity.
Defined.

Lemma decoded_marker_is_verified_witness :
  ∃ mk, decode_aux_marker ex_parent_script = Some mk ∧
        aux_merkle_root mk = reverse ex_child_hash.
Proof.
  destruct (@decoded_marker_is_verified toy toy_laws ex_block ex_child_hash 1 0
    eq_refl eq_refl ltac:(vm_compute; reflexivity)) as (mk & Hd & Hr & _).
  exists mk. split; [exact Hd|exact Hr].
Defined.

Lemma slot_rule_witness :
  (3 < 32)%nat ∧ (auxpow_expected_index 7 1 3 = auxpow_expected_index 7 9 3).
Proof. split; [lia|]. apply (slot_rule 7 1 9 3); [lia|reflexivity]. Defined.
