(* ===== verification/Qbit.v ===== *)
(** * Qbit proofs

    Models [crates/mmm-capture/src/auxpow/qbit.rs]: the version gate, the
    extended header, the proof reader with its branch caps, the commitment check,
    the block parser and the stored-proof decoder. *)

From S2P Require Import Prelude BitcoinLib Reader Auxpow.

Definition QBIT_AUXPOW_CHAIN_ID : Z := 47.
Definition QBIT_PARENT_BRANCH_CAP : Z := 31.
Definition QBIT_CHAIN_BRANCH_CAP : Z := 30.

(** [QbitProofError], recovered by callers with [downcast_ref]. *)
Definition proof_error (e : error) : error := Typed "QbitProofError" e.

(** [0x0000ff..ff] as a big-endian 256-bit integer. *)
Definition qbit_pow_limit : Z := 2 ^ 240 - 1.

Record ParsedQbitAuxpow := mkParsedQbitAuxpow {
  q_child_header : ParsedHeader;
  q_parent_header : ParsedHeader;
  q_parent_coinbase_txid : bytes;
  q_parent_coinbase_script : bytes;
  q_parent_coinbase_outputs : list TxOut;
  q_parent_coinbase_output_addresses : list string;
  q_coinbase_branch : MerkleBranch;
  q_chain_branch : MerkleBranch;
  q_auxpow_bytes : bytes;
}.

Inductive ParsedQbitBlock :=
| QDirect (h : ParsedHeader)
| QAuxpow (p : ParsedQbitAuxpow).

Record ParsedQbitAuxpowBlock := mkParsedQbitAuxpowBlock {
  qb_proof : ParsedQbitAuxpow;
  qb_coinbase : ParsedChildBlockCoinbase;
}.

Record QbitRawAuxpow := mkQbitRawAuxpow {
  qr_coinbase_txid : bytes;
  qr_coinbase_script : bytes;
  qr_coinbase_outputs : list TxOut;
  qr_coinbase_branch : MerkleBranch;
  qr_chain_branch : MerkleBranch;
  qr_parent_header : ParsedHeader;
}.

Record QbitProofDetail := mkQbitProofDetail {
  qd_slot_index : Z;
  qd_parent_header_hash : bytes;
  qd_coinbase_branch : AuxMerkleBranchDetail;
  qd_blockchain_branch : AuxMerkleBranchDetail;
}.

Definition qbit_version_gate (version height : Z) : result error bool :=
  _ ← (if 0 <? height then
         ensure ((4 <=? version) && (version <? 2147483648))
           (Msg "Qbit minimum block version is 4 after genesis")
       else Ok ());
  let shaped := Z.land version 3758096384 =? 536870912 in
  _ ← ensure (shaped || (Z.land version 4294967040 =? 0))
        (Msg "Qbit non-canonical top-bit version layout");
  _ ← ensure (negb shaped || (Z.land version 7680 =? 0)) (Msg "Qbit reserved version bits set");
  let merged := shaped && negb (Z.land version 256 =? 0) in
  _ ← (if merged then
         let chain_id := Z.land (Z.shiftr version 13) 65535 in
         ensure (chain_id =? QBIT_AUXPOW_CHAIN_ID) (Msg "Qbit AuxPoW chain id != mainnet chain id")
       else Ok ());
  mret merged.

Definition read_qbit_branch (cap : Z) : readM (list bytes) :=
  count ← contextM "read Qbit merkle branch count" read_u8;
  _ ← ensureM (u8 count <=? cap) (Msg "Qbit merkle branch count exceeds limit");
  read_hashes "read Qbit merkle branch hash" (Z.to_nat (u8 count)).

Section with_lib.
Context `{BitcoinLib}.

Definition qbit_child_target (bits : Z) : result error Z :=
  ok_or (Msg "invalid Qbit header target")
    (target ← well_formed_compact_target bits;
     if negb (target =? 0) && (target <=? qbit_pow_limit) then Some target else None).

Definition read_qbit_tx : readM Transaction := λ r,
  _ ← ensure (negb (bool_decide (remaining_slice r !! 4%nat = Some x00)))
        (Msg "Qbit parent coinbase must use non-witness encoding");
  '(tx, consumed) ← with_context "parse Qbit parent coinbase transaction"
      (ok_or (Msg "encode::Error") (deserialize_partial_tx (remaining_slice r)));
  '(_, r) ← skip consumed r;
  _ ← ensure (is_coinbase tx) (Msg "Qbit proof transaction is not coinbase");
  mret (tx, r).

Definition read_qbit_auxpow : readM QbitRawAuxpow :=
  tx ← read_qbit_tx;
  input ← liftM (ok_or (Msg "expect: is_coinbase guarantees exactly one input") (head (tx_input tx)));
  coinbase_hashes ← contextM "read Qbit parent merkle branch" (read_qbit_branch QBIT_PARENT_BRANCH_CAP);
  coinbase_index ← contextM "read Qbit parent merkle index" read_i32;
  chain_hashes ← contextM "read Qbit chain merkle branch" (read_qbit_branch QBIT_CHAIN_BRANCH_CAP);
  chain_index ← contextM "read Qbit chain index" read_i32;
  raw_parent ← contextM "read Qbit parent header" (read_array HEADER_SIZE);
  parent ← contextM "parse Qbit parent header" (liftM (parse_header raw_parent));
  mret {| qr_coinbase_txid := compute_txid tx;
          qr_coinbase_script := script_sig input;
          qr_coinbase_outputs := tx_output tx;
          qr_coinbase_branch := mkMerkleBranch coinbase_hashes coinbase_index;
          qr_chain_branch := mkMerkleBranch chain_hashes chain_index;
          qr_parent_header := parent |}.

Definition verify_qbit_proof (child_header : ParsedHeader) (auxpow : QbitRawAuxpow)
    : result error unit :=
  _ ← ensure (mb_index (qr_coinbase_branch auxpow) =? 0) (Msg "Qbit coinbase branch index must be zero");
  let chain_len := length (mb_hashes (qr_chain_branch auxpow)) in
  let chain_index := mb_index (qr_chain_branch auxpow) in
  _ ← ensure ((0 <=? chain_index) && (chain_index <? Z.shiftl 1 (Z.of_nat chain_len)))
        (Msg "Qbit chain index outside tree width");
  let coinbase_root := fold_merkle_branch (qr_coinbase_txid auxpow) (qr_coinbase_branch auxpow) in
  _ ← ensure (bool_decide (coinbase_root = merkle_root (ph_header (qr_parent_header auxpow))))
        (Msg "Qbit parent coinbase Merkle root mismatch");
  let chain_root := fold_merkle_branch (ParsedHeader_hash child_header) (qr_chain_branch auxpow) in
  let display_root := reverse chain_root in
  '(tree_size, nonce) ← with_context "Qbit chain commitment"
                          (read_commitment_footer (qr_coinbase_script auxpow) display_root);
  _ ← ensure (tree_size =? Z.shiftl 1 (Z.of_nat chain_len))
        (Msg "Qbit commitment tree size != 1 << chain_len");
  let expected_slot := auxpow_expected_index nonce QBIT_AUXPOW_CHAIN_ID chain_len in
  ensure (as_u32 chain_index =? expected_slot)
    (Msg "Qbit commitment chain slot != deterministic slot").

Definition parse_qbit_extended_header (raw : bytes) (child_height : Z)
    : result error ParsedQbitBlock :=
  _ ← ensure (bool_decide (HEADER_SIZE ≤ length raw)%nat)
        (Msg "Qbit extended header is shorter than an 80-byte header");
  child_header ← with_context "parse Qbit child header" (parse_header (slice 0 HEADER_SIZE raw));
  let version := as_u32 (hdr_version (ph_header child_header)) in
  merged ← qbit_version_gate version child_height;
  child_target ← qbit_child_target (hdr_bits (ph_header child_header));
  '(_, reader) ← skip HEADER_SIZE (Reader_new raw);
  if negb merged then
    _ ← ensure (is_eof reader) (Msg "trailing bytes on direct Qbit header");
    _ ← ensure (is_met_by child_target (ParsedHeader_hash child_header))
          (Msg "direct Qbit proof fails child target");
    mret (QDirect child_header)
  else
  let auxpow_start := rd_pos reader in
  '(auxpow, reader) ← map_err proof_error (read_qbit_auxpow reader);
  _ ← ensure (is_eof reader) (proof_error (Msg "trailing bytes on Qbit AuxPoW header"));
  _ ← map_err proof_error (verify_qbit_proof child_header auxpow);
  _ ← ensure (is_met_by child_target (ParsedHeader_hash (qr_parent_header auxpow)))
        (Msg "Qbit parent proof fails child header target");
  mret (QAuxpow {| q_child_header := child_header;
                   q_parent_header := qr_parent_header auxpow;
                   q_parent_coinbase_txid := qr_coinbase_txid auxpow;
                   q_parent_coinbase_script := qr_coinbase_script auxpow;
                   q_parent_coinbase_outputs := qr_coinbase_outputs auxpow;
                   q_parent_coinbase_output_addresses := output_addresses (qr_coinbase_outputs auxpow);
                   q_coinbase_branch := qr_coinbase_branch auxpow;
                   q_chain_branch := qr_chain_branch auxpow;
                   q_auxpow_bytes := slice auxpow_start (rd_pos reader) raw |}).

Definition qbit_extended_header_prefix (raw : bytes) (child_height : Z) : result error bytes :=
  _ ← ensure (bool_decide (HEADER_SIZE ≤ length raw)%nat)
        (Msg "Qbit block is shorter than an 80-byte header");
  child_header ← with_context "parse Qbit child header" (parse_header (slice 0 HEADER_SIZE raw));
  let version := as_u32 (hdr_version (ph_header child_header)) in
  merged ← qbit_version_gate version child_height;
  if negb merged then mret (take HEADER_SIZE raw) else
  '(_, reader) ← skip HEADER_SIZE (Reader_new raw);
  '(_, reader) ← map_err proof_error (read_qbit_auxpow reader);
  mret (take (rd_pos reader) raw).

(** [i32::try_from] of a [u32]. *)
Definition i32_try_from_u32 (z : Z) : option Z := if z <=? i32_MAX then Some z else None.

Definition parse_qbit_block (raw : bytes) (child_height : Z)
    : result error (option ParsedQbitAuxpowBlock) :=
  prefix ← qbit_extended_header_prefix raw child_height;
  parsed ← parse_qbit_extended_header prefix child_height;
  match parsed with
  | QDirect _ => mret None
  | QAuxpow proof =>
      let child_bytes := take HEADER_SIZE raw ++ drop (length prefix) raw in
      coinbase ← parse_child_block_coinbase_with_height child_bytes parse_child_bip34_height;
      native_height ← ok_or (Msg "Qbit native height exceeds signed range")
                        (i32_try_from_u32 child_height);
      _ ← ensure (bool_decide (pc_height coinbase = Some native_height))
            (Msg "Qbit child coinbase height does not match native height");
      mret (Some {| qb_proof := proof; qb_coinbase := coinbase |})
  end.

Definition decode_qbit_auxpow_proof (aux_merkle_proof : bytes) : option QbitProofDetail :=
  '(auxpow, reader) ← result_ok (read_qbit_auxpow (Reader_new aux_merkle_proof));
  if negb (is_eof reader) then None else
  slot_index ← u32_try_from (mb_index (qr_chain_branch auxpow));
  coinbase_index ← u32_try_from (mb_index (qr_coinbase_branch auxpow));
  Some {| qd_slot_index := slot_index;
          qd_parent_header_hash := ParsedHeader_hash (qr_parent_header auxpow);
          qd_coinbase_branch := mkBranchDetail coinbase_index (mb_hashes (qr_coinbase_branch auxpow));
          qd_blockchain_branch := mkBranchDetail slot_index (mb_hashes (qr_chain_branch auxpow)) |}.

End with_lib.

(** ** The version gate *)

Lemma land_field v n k :
  0 ≤ n → 0 ≤ k → Z.land v (Z.shiftl (Z.ones k) n) = 2 ^ n * (v / 2 ^ n mod 2 ^ k).
Proof.
  intros Hn Hk. rewrite <-Z.land_ones, <-Z.shiftr_div_pow2 by done.
  rewrite Z.mul_comm, <-Z.shiftl_mul_pow2 by done. apply Z.bits_inj'. intros i Hi.
  rewrite Z.land_spec, !Z.shiftl_spec, Z.land_spec by done.
  destruct (decide (n ≤ i)).
  - rewrite Z.shiftr_spec by lia. by replace (i - n + n) with i by lia.
  - rewrite !(Z.testbit_neg_r _ (i - n)) by lia. by rewrite andb_false_r.
Qed.

(** The only layout of a merged version: top bits 001, chain id 47 at bit 13, the
    AuxPoW bit, and a free low byte. *)
Definition qbit_merged_version (v : Z) : Prop := 537256192 ≤ v < 537256448.

Lemma gate_fields v :
  in_u32 v →
  Z.land v 3758096384 = 536870912 * (v / 536870912) ∧
  Z.land v 4294967040 = 256 * (v / 256) ∧
  Z.land v 7680 = 512 * (v / 512 mod 16) ∧
  Z.land v 256 = 256 * (v / 256 mod 2) ∧
  Z.land (Z.shiftr v 13) 65535 = v / 8192 mod 65536.
Proof.
  intros Hv. unfold in_u32 in Hv.
  pose proof (land_field v 29 3 ltac:(done) ltac:(done)) as E1.
  pose proof (land_field v 8 24 ltac:(done) ltac:(done)) as E2.
  pose proof (land_field v 9 4 ltac:(done) ltac:(done)) as E3.
  pose proof (land_field v 8 1 ltac:(done) ltac:(done)) as E4.
  pose proof (Z.land_ones (Z.shiftr v 13) 16 ltac:(done)) as E5.
  rewrite Z.shiftr_div_pow2 in E5 by done.
  change (2 ^ 29) with 536870912 in E1. change (2 ^ 3) with 8 in E1.
  change (2 ^ 24) with 16777216 in E2.
  rewrite (Z.mod_small (v / 536870912)) in E1.
  2: { split; [apply Z.div_pos; lia|apply Z.div_lt_upper_bound; lia]. }
  rewrite (Z.mod_small (v / 2 ^ 8)) in E2.
  2: { change (2 ^ 8) with 256. split; [apply Z.div_pos; lia|apply Z.div_lt_upper_bound; lia]. }
  split_and!; [exact E1|exact E2|exact E3|exact E4|]. rewrite Z.shiftr_div_pow2 by done. exact E5.
Qed.

Lemma qbit_gate_true v h :
  in_u32 v → qbit_version_gate v h = Ok true ↔ qbit_merged_version v.
Proof.
  intros Hv. destruct (gate_fields v Hv) as (E1 & E2 & E3 & E4 & E5).
  unfold qbit_version_gate, qbit_merged_version, QBIT_AUXPOW_CHAIN_ID. cbv zeta.
  rewrite E1, E2, E3, E4, E5. clear E1 E2 E3 E4 E5. unfold in_u32 in Hv. split.
  - intros Hg. apply bind_Ok in Hg as ([] & _ & Hg). res_inv.
    destruct (_ =? 536870912) eqn:Ea; simpl in *; [|done].
    rewrite H2 in H1. simpl in H1. res_inv.
    apply negb_true_iff in H2. Z.to_euclidean_division_equations. lia.
  - intros Hm.
    assert (v / 536870912 = 1) as E1 by (symmetry; apply Z.div_unique with (v - 536870912); lia).
    assert (v / 8192 = 65583) as E5 by (symmetry; apply Z.div_unique with (v - 537255936); lia).
    assert (v / 512 = 1049328) as E3 by (symmetry; apply Z.div_unique with (v - 537255936); lia).
    assert (v / 256 = 2098657) as E4 by (symmetry; apply Z.div_unique with (v - 537256192); lia).
    rewrite E1, E3, E4, E5. replace (_ && (v <? 2147483648)) with true by lia.
    by destruct (0 <? h).
Qed.

(** ** Reading a proof *)

Lemma local_hashes msg n : read_local (read_hashes msg n).
Proof. induction n as [|n IH]; simpl read_hashes; unfold read_array; solve_local. Qed.
#[export] Hint Resolve local_hashes : rlocal.

Section laws.
Context `{BitcoinLibLaws}.

Lemma reads_qbit_tx bs tx :
  deserialize_partial_tx bs = Some (tx, length bs) → bs !! 4%nat ≠ Some x00 →
  is_coinbase tx = true → reads read_qbit_tx bs tx.
Proof.
  intros Htx H4 Hcb pre tail Hl. unfold read_qbit_tx, remaining_slice. simpl.
  rewrite drop_app_length.
  pose proof (deserialize_partial_tx_min _ _ _ Htx) as Hmin.
  rewrite lookup_app_l by lia. rewrite bool_decide_eq_false_2 by done. simpl.
  destruct (deserialize_partial_tx_prefix _ _ _ Htx) as [_ Hp]. specialize (Hp tail).
  rewrite take_ge in Hp by done. rewrite Hp. simpl.
  unfold skip, mbind, readM_bind. rewrite (reads_slice (length bs) bs) by done.
  unfold result_bind. simpl. by rewrite Hcb.
Qed.

Lemma local_qbit_tx : read_local read_qbit_tx.
Proof.
  intros r t r' Hr Hrun. unfold read_qbit_tx in Hrun. res_inv.
  destruct x0 as [tx n]. res_inv. destruct x as [[] r1]. res_inv.
  pose proof (deserialize_partial_tx_min _ _ _ H2) as Hmin.
  destruct (deserialize_partial_tx_prefix _ _ _ H2) as [Hn Ht].
  pose proof Hn as Hn'. unfold remaining_slice in Hn. rewrite length_drop in Hn.
  unfold skip, mbind, readM_bind in H3.
  rewrite read_slice_Ok in H3 by (done || (destruct Hr; lia)).
  simpl in H3. injection H3 as <-. destruct Hr as [Hr Hl]. simpl.
  split_and!; [split; simpl; [lia|done]|done|lia|].
  assert (slice (rd_pos r) (rd_pos r + n) (rd_buf r) = take n (remaining_slice r)) as E.
  { unfold slice, remaining_slice. f_equal. lia. }
  rewrite E. assert (length (take n (remaining_slice r)) = n) as Hlen.
  { rewrite length_take. lia. }
  apply reads_qbit_tx; [|rewrite lookup_take_lt by lia|done].
  - rewrite Hlen. specialize (Ht []). by rewrite app_nil_r in Ht.
  - apply negb_true_iff, bool_decide_eq_false in H1. done.
Qed.
Hint Resolve local_qbit_tx : rlocal.

Lemma local_qbit_auxpow : read_local read_qbit_auxpow.
Proof. unfold read_qbit_auxpow, read_qbit_branch, read_u8, read_i32, read_array, ensureM. solve_local. Qed.


End laws.

(** ** Branch caps *)

Lemma read_hashes_length msg n r hs r' : read_hashes msg n r = Ok (hs, r') → length hs = n.
Proof.
  revert r hs r'. induction n as [|n IH]; intros r hs r' Hr; simpl in Hr.
  - by injection Hr as <- <-.
  - unfold mbind, readM_bind in Hr.
    destruct (contextM _ _ r) as [[h r1]|]; [|done].
    destruct (read_hashes msg n r1) as [[hs' r2]|] eqn:E; [|done].
    injection Hr as <- <-. simpl. f_equal. by eapply IH.
Qed.

Lemma read_qbit_branch_cap cap r hs r' :
  read_qbit_branch cap r = Ok (hs, r') → Z.of_nat (length hs) ≤ cap.
Proof.
  unfold read_qbit_branch, mbind, readM_bind. intros Hr.
  destruct (contextM _ _ r) as [[c r1]|]; [|done].
  unfold ensureM, liftM in Hr. destruct (u8 c <=? cap) eqn:E; [|done]. simpl in Hr.
  apply read_hashes_length in Hr. pose proof (u8_range c). lia.
Qed.

Section spec.
Context `{BitcoinLibLaws}.

Lemma read_qbit_auxpow_caps r a r' :
  read_qbit_auxpow r = Ok (a, r') →
  (length (mb_hashes (qr_coinbase_branch a)) ≤ 31)%nat ∧
  (length (mb_hashes (qr_chain_branch a)) ≤ 30)%nat.
Proof.
  unfold read_qbit_auxpow, mbind, readM_bind, contextM, with_context. intros Hr.
  repeat match type of Hr with
  | match map_err _ ?m with _ => _ end = _ => destruct m as [[? ?]|] eqn:?; simpl in Hr; [|done]
  | match ?m with _ => _ end = _ => destruct m as [[? ?]|] eqn:?; simpl in Hr; [|done]
  end.
  injection Hr as <- <-. simpl.
  repeat match goal with H : read_qbit_branch _ _ = _ |- _ => apply read_qbit_branch_cap in H end.
  unfold QBIT_PARENT_BRANCH_CAP, QBIT_CHAIN_BRANCH_CAP in *. lia.
Qed.

(** What a Qbit proof establishes for a child header hash. *)
Definition qbit_commitment (child : bytes) (a : QbitRawAuxpow) : Prop :=
  let chain := qr_chain_branch a in
  let n := length (mb_hashes chain) in
  mb_index (qr_coinbase_branch a) = 0 ∧
  fold_merkle_branch (qr_coinbase_txid a) (qr_coinbase_branch a) =
    merkle_root (ph_header (qr_parent_header a)) ∧
  ∃ pos, commitment_at (qr_coinbase_script a) (reverse (fold_merkle_branch child chain)) pos ∧
         u32_at (pos + 32) (qr_coinbase_script a) = 2 ^ Z.of_nat n ∧
         mb_index chain = auxpow_expected_index (u32_at (pos + 36) (qr_coinbase_script a)) 47 n.

Lemma pow2_le_u32 (n : nat) : (n ≤ 32)%nat → 2 ^ Z.of_nat n ≤ 4294967296.
Proof. intros. change 4294967296 with (2 ^ 32). apply Z.pow_le_mono_r; lia. Qed.

Lemma verify_qbit_spec h a :
  (length (mb_hashes (qr_chain_branch a)) ≤ 30)%nat →
  verify_qbit_proof h a = Ok () ↔ qbit_commitment (ParsedHeader_hash h) a.
Proof.
  intros Hn. unfold verify_qbit_proof, qbit_commitment, QBIT_AUXPOW_CHAIN_ID. cbv zeta.
  rewrite !Z.shiftl_1_l.
  pose proof (pow2_le_u32 (length (mb_hashes (qr_chain_branch a))) ltac:(lia)) as Hp.
  assert (0 < length (reverse (fold_merkle_branch (ParsedHeader_hash h) (qr_chain_branch a))))%nat
    as Hroot.
  { rewrite length_reverse, fold_merkle_branch_length by apply block_hash_length. lia. }
  split.
  - intros Hv. res_inv. destruct x2 as [ts nonce]. res_inv.
    apply footer_spec in H4 as (pos & Hat & -> & ->); [|done].
    unfold as_u32 in *. rewrite wrap_u32_id in * by (unfold in_u32; lia).
    split_and!; [lia|done|]. exists pos. split_and!; [done|lia|lia].
  - intros (Hi & Hroot' & pos & Hat & Hts & Hidx).
    rewrite Hi. simpl.
    pose proof (expected_index_range (u32_at (pos + 36) (qr_coinbase_script a)) 47
      (length (mb_hashes (qr_chain_branch a)))) as Hr. rewrite <-Hidx in Hr.
    replace (_ && _) with true by lia. simpl.
    rewrite bool_decide_eq_true_2 by done. simpl.
    rewrite (proj2 (footer_spec _ _ (u32_at (pos + 32) (qr_coinbase_script a))
      (u32_at (pos + 36) (qr_coinbase_script a)) Hroot)) by eauto. simpl.
    rewrite Hts, Z.eqb_refl. simpl. unfold as_u32. rewrite wrap_u32_id by (unfold in_u32; lia).
    by rewrite <-Hidx, Z.eqb_refl.
Qed.

(** The record a parsed proof was read from. *)
Definition qbit_record (p : ParsedQbitAuxpow) : QbitRawAuxpow :=
  {| qr_coinbase_txid := q_parent_coinbase_txid p;
     qr_coinbase_script := q_parent_coinbase_script p;
     qr_coinbase_outputs := q_parent_coinbase_outputs p;
     qr_coinbase_branch := q_coinbase_branch p;
     qr_chain_branch := q_chain_branch p;
     qr_parent_header := q_parent_header p |}.

(** A proof authenticated for the exact extended header [raw]. *)
Definition qbit_header_authentic (raw : bytes) (p : ParsedQbitAuxpow) : Prop :=
  ∃ target,
    let child := ph_header (q_child_header p) in
    header_wf child ∧ raw = serialize_header child ++ q_auxpow_bytes p ∧
    reads read_qbit_auxpow (q_auxpow_bytes p) (qbit_record p) ∧
    q_parent_coinbase_output_addresses p = output_addresses (q_parent_coinbase_outputs p) ∧
    qbit_merged_version (as_u32 (hdr_version child)) ∧
    qbit_child_target (hdr_bits child) = Ok target ∧
    qbit_commitment (block_hash child) (qbit_record p) ∧
    from_le_bytes (ParsedHeader_hash (q_parent_header p)) ≤ target.

(** The common start of both header parsers. *)
Lemma qbit_header_start raw h :
  (HEADER_SIZE ≤ length raw)%nat → parse_header (slice 0 HEADER_SIZE raw) = Ok h →
  serialize_header (ph_header h) = take HEADER_SIZE raw ∧ header_wf (ph_header h).
Proof.
  intros Hl Hp. unfold slice in Hp. rewrite Nat.sub_0_r, drop_0 in Hp.
  apply parse_header_Ok in Hp; [done|]. rewrite length_take. lia.
Qed.

Lemma skip_header raw :
  buffer_ok raw → (HEADER_SIZE ≤ length raw)%nat →
  skip HEADER_SIZE (Reader_new raw) = Ok ((), mkReader raw HEADER_SIZE).
Proof.
  intros Hb Hl. unfold skip, mbind, readM_bind.
  rewrite read_slice_Ok; [done|by apply reader_new_inv|]. simpl. lia.
Qed.

Lemma parse_header_ser h tail :
  header_wf h → parse_header (slice 0 HEADER_SIZE (serialize_header h ++ tail)) = Ok (mkParsedHeader h).
Proof.
  intros Hwf. pose proof (serialize_header_length _ Hwf) as Hl.
  unfold slice. rewrite Nat.sub_0_r, drop_0.
  assert (take HEADER_SIZE (serialize_header h ++ tail) = serialize_header h) as ->
    by by apply take_app_length'.
  unfold parse_header. by rewrite serialize_deserialize_header.
Qed.

Lemma reads_run {A} (m : readM A) h enc tail a :
  reads m enc a → header_wf h → buffer_ok (serialize_header h ++ enc ++ tail) →
  m (mkReader (serialize_header h ++ enc ++ tail) HEADER_SIZE) =
  Ok (a, mkReader (serialize_header h ++ enc ++ tail) (HEADER_SIZE + length enc)).
Proof.
  intros Hr Hwf Hb. specialize (Hr (serialize_header h) tail Hb).
  by rewrite (serialize_header_length _ Hwf) in Hr.
Qed.
End spec.

(** ** The parsers *)

#[local] Opaque HEADER_SIZE.

Section parsers.
Context `{BitcoinLibLaws}.

Lemma hdr_version_u32 h : in_u32 (as_u32 (hdr_version h)).
Proof. apply wrap_u32_range. Qed.

Lemma extended_header_sound raw height p :
  buffer_ok raw → parse_qbit_extended_header raw height = Ok (QAuxpow p) →
  qbit_header_authentic raw p.
Proof.
  intros Hb Hp. unfold parse_qbit_extended_header in Hp. res_inv.
  rename x0 into hdr, x1 into merged, x2 into target, H3 into Hgate, H4 into Htarget.
  destruct (qbit_header_start _ _ H1 H2) as [Hser Hwf].
  rewrite skip_header in H5 by done. injection H5 as <-.
  destruct merged; simpl in H6; res_inv. destruct x as [a r]. res_inv.
  rename H3 into Hread, H4 into Heof, H5 into Hver, H6 into Hmet.
  pose proof (read_qbit_auxpow_caps _ _ _ Hread) as [_ Hcap].
  destruct (local_qbit_auxpow (mkReader raw HEADER_SIZE) a r) as ([Hi _] & Hbuf & Hm & Hd);
    [by split|done|]. simpl in *. rewrite Hbuf in Hi.
  unfold is_eof in Heof. rewrite Hbuf in Heof. res_inv.
  assert (rd_pos r = length raw) as Hpos by lia. rewrite Hpos in *.
  apply verify_qbit_spec in Hver; [|done]. rewrite is_met_by_le in Hmet.
  apply qbit_gate_true in Hgate; [|apply hdr_version_u32].
  exists target. simpl. rewrite Hser. split_and!; try done.
  - rewrite (split_raw raw (length raw)) at 1 by done. by rewrite drop_all, app_nil_r.
  - destruct a; done.
  - lia.
Qed.

Lemma extended_header_complete raw height p :
  buffer_ok raw → qbit_header_authentic raw p →
  parse_qbit_extended_header raw height = Ok (QAuxpow p).
Proof.
  intros Hb (target & Hwf & -> & Hreads & Haddr & Hver & Htarget & Hcom & Hmet).
  pose proof (serialize_header_length _ Hwf) as Hl.
  unfold parse_qbit_extended_header. rewrite parse_header_ser by done.
  rewrite bool_decide_eq_true_2 by (rewrite length_app; lia). simpl.
  rewrite (proj2 (qbit_gate_true _ _ (hdr_version_u32 _))) by done. simpl.
  rewrite Htarget. simpl.
  rewrite skip_header by (done || (rewrite length_app; lia)). simpl.
  pose proof (reads_run _ _ _ [] _ Hreads Hwf) as Hrun. rewrite app_nil_r in Hrun.
  rewrite Hrun by done. simpl. unfold is_eof. simpl.
  rewrite bool_decide_eq_true_2 by (rewrite length_app; lia). simpl.
  apply read_qbit_auxpow_caps in Hrun as [_ Hcap]; [|done].
  rewrite (proj2 (verify_qbit_spec _ _ Hcap)) by done. simpl.
  rewrite is_met_by_le. replace (_ <=? _) with true by lia. simpl.
  unfold slice. rewrite drop_app_length' by done.
  rewrite Nat.add_comm, Nat.add_sub, take_ge by done.
  destruct p as [[]]; simpl in *. by rewrite <-Haddr.
Qed.

(** The prefix of a block is its header and proof, and depends on nothing after them. *)
Lemma prefix_sound raw height prefix :
  buffer_ok raw → qbit_extended_header_prefix raw height = Ok prefix →
  ∃ body, raw = prefix ++ body.
Proof.
  intros Hb Hp. unfold qbit_extended_header_prefix in Hp. res_inv.
  destruct x1; simpl in H4; res_inv.
  - rewrite skip_header in H4 by done. injection H4 as <-. res_inv. destruct x as [a r]. res_inv.
    exists (drop (rd_pos r) raw). by rewrite take_drop.
  - exists (drop HEADER_SIZE raw). by rewrite take_drop.
Qed.

Lemma prefix_complete raw height p body :
  buffer_ok (raw ++ body) → qbit_header_authentic raw p →
  qbit_extended_header_prefix (raw ++ body) height = Ok raw.
Proof.
  intros Hb (target & Hwf & -> & Hreads & Haddr & Hver & _).
  pose proof (serialize_header_length _ Hwf) as Hl. rewrite <-app_assoc in Hb |- *.
  unfold qbit_extended_header_prefix. rewrite parse_header_ser by done.
  rewrite bool_decide_eq_true_2 by (rewrite length_app; lia). simpl.
  rewrite (proj2 (qbit_gate_true _ _ (hdr_version_u32 _))) by done. simpl.
  rewrite skip_header by (done || (rewrite length_app; lia)). simpl.
  rewrite (reads_run _ _ _ body _ Hreads Hwf) by done. simpl.
  rewrite app_assoc, take_app_length' by (rewrite length_app; lia). done.
Qed.

(** A whole Qbit block: an authenticated extended header before a block body whose
    coinbase carries the native height. *)
Definition qbit_block_ok (raw : bytes) (height : Z) (b : ParsedQbitAuxpowBlock) : Prop :=
  ∃ prefix body block coinbase input,
    raw = prefix ++ body ∧ qbit_header_authentic prefix (qb_proof b) ∧
    deserialize_block (serialize_header (ph_header (q_child_header (qb_proof b))) ++ body) = Some block ∧
    check_merkle_root block = true ∧
    head (txdata block) = Some coinbase ∧ is_coinbase coinbase = true ∧
    head (tx_input coinbase) = Some input ∧
    parse_child_bip34_height (script_sig input) = Some height ∧ height ≤ i32_MAX ∧
    qb_coinbase b =
      {| pc_header := mkParsedHeader (blk_header block);
         pc_height := Some height;
         pc_coinbase_txid := compute_txid coinbase;
         pc_coinbase_script := script_sig input;
         pc_coinbase_outputs := tx_output coinbase |}.

Lemma authentic_prefix raw p :
  qbit_header_authentic raw p →
  take HEADER_SIZE raw = serialize_header (ph_header (q_child_header p)) ∧
  (HEADER_SIZE ≤ length raw)%nat.
Proof.
  intros (t & Hwf & -> & _). pose proof (serialize_header_length _ Hwf) as Hl.
  split; [by apply take_app_length'|rewrite length_app; lia].
Qed.

Lemma parse_qbit_block_sound raw height b :
  buffer_ok raw → parse_qbit_block raw height = Ok (Some b) → qbit_block_ok raw height b.
Proof.
  intros Hb Hp. unfold parse_qbit_block in Hp. res_inv.
  apply prefix_sound in H1 as [body ->]; [|done].
  assert (buffer_ok x) as Hbx by (unfold buffer_ok in *; rewrite length_app in Hb; lia).
  destruct x0 as [hdr|p]; res_inv. apply extended_header_sound in H2; [|done].
  apply parse_child_Ok in H1 as (block & cb & input & Hblk & Hmr & Hcb & Hic & Hin & ->).
  destruct (authentic_prefix _ _ H2) as [Htake Hlen].
  rewrite take_app_le, Htake, drop_app_length in Hblk by done.
  unfold i32_try_from_u32 in H3. simpl in *. case_match; simplify_eq.
  exists x, body, block, cb, input. simpl. split_and!; try done; [lia|]. congruence.
Qed.

Lemma parse_qbit_block_complete raw height b :
  buffer_ok raw → qbit_block_ok raw height b → parse_qbit_block raw height = Ok (Some b).
Proof.
  intros Hb (prefix & body & block & cb & input & -> & Hauth & Hblk & Hmr & Hcb & Hic & Hin & Hh & Hmax & Hc).
  unfold parse_qbit_block. rewrite (prefix_complete _ _ (qb_proof b)) by done. simpl.
  rewrite (extended_header_complete _ _ (qb_proof b)); [|..|done].
  2: { unfold buffer_ok in *. rewrite length_app in Hb. lia. }
  destruct (authentic_prefix _ _ Hauth) as [Htake Hlen]. simpl.
  rewrite take_app_le, Htake, drop_app_length by done.
  unfold parse_child_block_coinbase_with_height. rewrite Hblk. simpl. rewrite Hmr. simpl.
  rewrite Hcb. simpl. rewrite Hic. simpl. rewrite Hin. simpl.
  unfold i32_try_from_u32. replace (height <=? i32_MAX) with true by lia. simpl.
  rewrite Hh, bool_decide_eq_true_2 by done. simpl. rewrite <-Hc. by destruct b.
Qed.

End parsers.

(** ** Claims *)

Section claims.
Context `{BitcoinLibLaws}.

(** [parse_qbit_block] accepts exactly the authentic Qbit blocks: it returns a
    proof and coinbase if and only if the bytes are a child header with the only
    merged version layout, a native proof record that commits to that header and
    whose parent hash meets the child's own target, and a body with a valid merkle
    root whose coinbase carries the native height. *)
Theorem qbit_block_authentic raw height b :
  buffer_ok raw → parse_qbit_block raw height = Ok (Some b) ↔ qbit_block_ok raw height b.
Proof.
  intros Hb. split; [by apply parse_qbit_block_sound|by apply parse_qbit_block_complete].
Qed.

(** A failed extended header carries [QbitProofError] exactly when the header
    itself is fine (length, merged version, target) and its proof does not decode,
    is followed by other bytes, or does not commit to the header; every other
    failure is an ordinary error. *)
Theorem qbit_proof_error_exact raw height e :
  buffer_ok raw → parse_qbit_extended_header raw height = Err e →
  downcast "QbitProofError" e = true ↔
  ∃ h target, (HEADER_SIZE ≤ length raw)%nat ∧ parse_header (slice 0 HEADER_SIZE raw) = Ok h ∧
    qbit_version_gate (as_u32 (hdr_version (ph_header h))) height = Ok true ∧
    qbit_child_target (hdr_bits (ph_header h)) = Ok target ∧
    match read_qbit_auxpow (mkReader raw HEADER_SIZE) with
    | Err _ => True
    | Ok (a, r) => is_eof r = false ∨ is_ok (verify_qbit_proof h a) = false
    end.
Proof.
  intros Hb. unfold parse_qbit_extended_header.
  case_bool_decide as Hlen; simpl; [|intros [= <-]; split; [done|by intros (? & ? & ? & _)]].
  destruct (parse_header _) as [h|ph] eqn:Hh; simpl.
  2: { intros [= <-]. simpl. unfold parse_header in Hh. destruct (deserialize_header _); simpl in Hh; [done|].
       injection Hh as <-. split; [done|by intros (? & ? & ? & ? & _)]. }
  destruct (qbit_version_gate _ _) as [m|ge] eqn:Hg; simpl.
  2: { intros [= <-]. assert (downcast "QbitProofError" ge = false) as ->.
       { unfold qbit_version_gate in Hg.
         repeat (apply bind_Err in Hg as [Hg|([] & _ & Hg)]); try done;
           repeat case_match; try done; apply ensure_Err in Hg as [_ <-]; done. }
       split; [done|]. intros (? & ? & _ & [= <-] & Hgt & _). congruence. }
  destruct (qbit_child_target _) as [t|te] eqn:Ht; simpl.
  2: { intros [= <-]. pose proof Ht as Ht'. unfold qbit_child_target in Ht. destruct (_ ≫= _); simpl in Ht; [done|].
       injection Ht as <-. split; [done|]. intros (? & ? & _ & [= <-] & _ & Htt & _). congruence. }
  rewrite skip_header by done. simpl. destruct m; simpl.
  - destruct (read_qbit_auxpow _) as [[a r]|re] eqn:Hr; simpl.
    2: { intros [= <-]. simpl. split; [|done]. eauto 10. }
    destruct (is_eof r) eqn:Ho; simpl.
    2: { intros [= <-]. simpl. split; [|done]. eauto 10. }
    destruct (verify_qbit_proof h a) as [u|ve] eqn:Hv; simpl.
    + destruct (is_met_by _ _); simpl; [done|]. intros [= <-]. split; [done|].
      intros (? & ? & _ & [= <-] & _ & _ & [?|Hc]); [done|]. by rewrite Hv in Hc.
    + intros [= <-]. simpl. split; [|done]. intros _. exists h, t. rewrite Hv. auto 10.
  - intros He. assert (downcast "QbitProofError" e = false) as ->.
    { repeat (apply bind_Err in He as [He|([] & _ & He)]); try done;
        apply ensure_Err in He as [_ <-]; done. }
    split; [done|]. intros (? & ? & _ & [= <-] & Hgt & _). congruence.
Qed.

(** The evidence stored for an authenticated Qbit block decodes back to its
    parent hash and its two branches. *)
Theorem qbit_evidence_decodes raw height b :
  buffer_ok raw → parse_qbit_block raw height = Ok (Some b) →
  let p := qb_proof b in
  decode_qbit_auxpow_proof (q_auxpow_bytes p) =
  Some {| qd_slot_index := mb_index (q_chain_branch p);
          qd_parent_header_hash := ParsedHeader_hash (q_parent_header p);
          qd_coinbase_branch := mkBranchDetail 0 (mb_hashes (q_coinbase_branch p));
          qd_blockchain_branch := mkBranchDetail (mb_index (q_chain_branch p))
                                    (mb_hashes (q_chain_branch p)) |}.
Proof.
  intros Hb Hp p. apply parse_qbit_block_sound in Hp as (prefix & body & ? & ? & ? & Hraw & Hauth & _);
    [|done]. fold p in Hauth.
  destruct Hauth as (t & Hwf & -> & Hr & _ & _ & _ & (Hi & _ & pos & _ & _ & Hidx) & _).
  unfold decode_qbit_auxpow_proof, Reader_new. specialize (Hr [] []).
  simpl in Hr. rewrite app_nil_r in Hr. rewrite Hr.
  2: { unfold buffer_ok in Hb. rewrite Hraw, !length_app in Hb. lia. }
  simpl. unfold is_eof. simpl. rewrite bool_decide_eq_true_2 by done. simpl in *.
  assert (0 ≤ mb_index (q_chain_branch p)) as Hnn by (rewrite Hidx; apply expected_index_range).
  rewrite Hi. unfold u32_try_from. by rewrite (Zle_imp_le_bool _ _ Hnn).
Qed.

End claims.

(** The version gate on every 32-bit version: merged exactly for the layouts
    [0x2005e100..0x2005e1ff]; direct exactly for one-byte versions (at least 4 after
    genesis) and for shaped versions whose AuxPoW and reserved bits are clear; every
    other version is refused. *)
Theorem qbit_version_gate_exact v height :
  in_u32 v →
  (qbit_version_gate v height = Ok true ↔ 537256192 ≤ v < 537256448) ∧
  (qbit_version_gate v height = Ok false ↔
   (0 < height → 4 ≤ v) ∧
   (v < 256 ∨ (v / 536870912 = 1 ∧ v / 512 mod 16 = 0 ∧ v / 256 mod 2 = 0))).
Proof.
  intros Hv. split; [by apply qbit_gate_true|].
  destruct (gate_fields v Hv) as (E1 & E2 & E3 & E4 & E5).
  unfold qbit_version_gate, QBIT_AUXPOW_CHAIN_ID. cbv zeta.
  rewrite E1, E2, E3, E4, E5. clear E1 E2 E3 E4 E5. unfold in_u32 in Hv.
  pose proof (Z.mod_pos_bound (v / 512) 16). pose proof (Z.mod_pos_bound (v / 256) 2).
  pose proof (Z.div_mod v 256). pose proof (Z.mod_pos_bound v 256).
  pose proof (Z.div_mod v 536870912). pose proof (Z.mod_pos_bound v 536870912).
  set (a := v / 536870912) in *. set (b := v / 512 mod 16) in *.
  set (c := v / 256 mod 2) in *. set (d := v / 256) in *. split.
  - intros Hg. apply bind_Ok in Hg as ([] & Hh & Hg). res_inv.
    destruct (0 <? height) eqn:E0; res_inv;
    (destruct (536870912 * a =? 536870912) eqn:Ea; simpl in *;
     [destruct (256 * c =? 0) eqn:Ec; simpl in *; [|res_inv; done]|]; split; lia).
  - intros [Hh Hd].
    replace (if 0 <? height then _ else _) with (@Ok error unit ()).
    2: { destruct (0 <? height) eqn:E0; [|done]. unfold ensure. symmetry.
         rewrite (proj2 (andb_true_iff _ _)); [done|]. lia. }
    simpl. destruct Hd as [Hd|(Ha & Hb & Hc)].
    + assert (d = 0) as -> by lia. assert (a = 0) as -> by lia. simpl. done.
    + rewrite Ha, Hb, Hc. simpl. done.
Qed.

(** ** Witnesses *)

Import Toy.

Definition exq_child : Header :=
  {| hdr_version := 537256192; prev_blockhash := replicate 32 x07;
     merkle_root := pad32 [x01; x05]; hdr_time := 1700000000;
     hdr_bits := 503382015; hdr_nonce := 9 |}.
Definition exq_script : bytes :=
  AUXPOW_MAGIC ++ reverse (hash_header exq_child) ++ to_le_bytes 4 1 ++ to_le_bytes 4 77.
Definition exq_parent : Header :=
  {| hdr_version := 536870912; prev_blockhash := replicate 32 x00;
     merkle_root := pad32 exq_script; hdr_time := 1700000001;
     hdr_bits := 1; hdr_nonce := 3 |}.
Definition exq_proof : bytes :=
  tx_bytes exq_script ++ [x00] ++ to_le_bytes 4 0 ++ [x00] ++ to_le_bytes 4 0 ++ ser_header exq_parent.
Definition exq_raw : bytes := ser_header exq_child ++ exq_proof ++ tx_bytes [x01; x05].
Definition exq_block : ParsedQbitAuxpowBlock :=
  {| qb_proof :=
       {| q_child_header := mkParsedHeader exq_child; q_parent_header := mkParsedHeader exq_parent;
          q_parent_coinbase_txid := pad32 exq_script; q_parent_coinbase_script := exq_script;
          q_parent_coinbase_outputs := []; q_parent_coinbase_output_addresses := [];
          q_coinbase_branch := mkMerkleBranch [] 0; q_chain_branch := mkMerkleBranch [] 0;
          q_auxpow_bytes := exq_proof |};
     qb_coinbase :=
       {| pc_header := mkParsedHeader exq_child; pc_height := Some 5;
          pc_coinbase_txid := pad32 [x01; x05]; pc_coinbase_script := [x01; x05];
          pc_coinbase_outputs := [] |} |}.

Lemma exq_raw_ok : buffer_ok exq_raw.
Proof. vm_compute. congruence. Qed.

Lemma exq_parses : parse_qbit_block exq_raw 5 = Ok (Some exq_block).
Proof. vm_compute. reflexivity. Qed.

Lemma qbit_block_authentic_witness : qbit_block_ok exq_raw 5 exq_block.
Proof. apply (qbit_block_authentic exq_raw 5 exq_block exq_raw_ok), exq_parses. Defined.

Lemma qbit_evidence_decodes_witness :
  is_Some (decode_qbit_auxpow_proof (q_auxpow_bytes (qb_proof exq_block))).
Proof.
  rewrite (qbit_evidence_decodes exq_raw 5 exq_block exq_raw_ok exq_parses). eexists; reflexivity.
Defined.

(** Trailing bytes after a proof are a proof error. *)
Lemma qbit_proof_error_exact_witness :
  ∃ e, parse_qbit_extended_header exq_raw 5 = Err e ∧ downcast "QbitProofError" e = true.
Proof.
  exists (Typed "QbitProofError" (Msg "trailing bytes on Qbit AuxPoW header")).
  assert (parse_qbit_extended_header exq_raw 5 =
    Err (Typed "QbitProofError" (Msg "trailing bytes on Qbit AuxPoW header"))) as E
    by (vm_compute; reflexivity).
  split; [exact E|]. apply (qbit_proof_error_exact exq_raw 5 _ exq_raw_ok E).
  exists (mkParsedHeader exq_child). eexists.
  split; [vm_compute; lia|]. split; [vm_compute; reflexivity|].
  split; [vm_compute; reflexivity|]. split; [vm_compute; reflexivity|].
  vm_compute. left. reflexivity.
Defined.

Lemma qbit_version_gate_exact_witness :
  in_u32 537256200 ∧ qbit_version_gate 537256200 7 = Ok true.
Proof.
  split; [unfold in_u32; lia|].
  apply (proj2 (proj1 (qbit_version_gate_exact 537256200 7 ltac:(unfold in_u32; lia)))). lia.
Defined.
