(* ===== verification/Nbits.v ===== *)
(** * Bitcoin's difficulty history

    Models [crates/mmm-capture/src/nbits_table.rs]: the table built from the
    cached Core headers, its height and time lookups and the weak verdict. A plain
    [+] or [-] of the source wraps at 32 bits ([add_i32], [sub_i32]); the theorems
    state the bound under which no lookup wraps. *)

From stdpp Require Import sorting.
From S2P Require Import Prelude.

Definition DAA_EPOCH_INTERVAL : Z := 2016.

Record BitcoinEpochHeader := mkEpochHeader {
  eh_height : Z;
  eh_block_time : Z;
  eh_bits : Z;
}.

Record NbitsTable := mkNbitsTable {
  covered_max_height : Z;
  horizon_height : Z;
  horizon_time : Z;
  by_epoch : gmap Z Z;
  epochs_by_time : list (Z * Z);
}.

Inductive NbitsLookup := Found (bits : Z) | BelowTable | AboveTable.
Inductive WeakVerdict := Match | NonBtcEpochBits | BelowFloor | AboveHorizon.

#[global] Instance NbitsLookup_eq_dec : EqDecision NbitsLookup.
Proof. solve_decision. Defined.

Definition daa_epoch_start (height : Z) : Z :=
  wrap_i32 (height / DAA_EPOCH_INTERVAL * DAA_EPOCH_INTERVAL).

(** [height % DAA_EPOCH_INTERVAL == 0], with Rust's truncating remainder. *)
Definition is_epoch_row (h : BitcoinEpochHeader) : bool :=
  Z.rem (eh_height h) DAA_EPOCH_INTERVAL =? 0.

(** The order of [(i64, i32)] tuples. *)
Definition tuple_le (p q : Z * Z) : Prop := p.1 < q.1 ∨ (p.1 = q.1 ∧ p.2 ≤ q.2).
#[global] Instance tuple_le_dec : RelDecision tuple_le.
Proof. unfold tuple_le. intros p q. apply _. Defined.

(** [l.windows(2).all(..)]. *)
Fixpoint all_pairs {A} (f : A → A → bool) (l : list A) : bool :=
  match l with
  | x :: (y :: _) as t => f x y && all_pairs f t
  | _ => true
  end.

Definition max_time (headers : list BitcoinEpochHeader) : option Z :=
  match eh_block_time <$> headers with
  | [] => None
  | t :: ts => Some (foldl Z.max t ts)
  end.

Definition from_bitcoin_core_headers_with_horizon_time (headers : list BitcoinEpochHeader)
    (cached_horizon_time : Z) : result error NbitsTable :=
  horizon ← ok_or (Msg "Bitcoin Core header cache is empty") (last headers);
  _ ← ensure (all_pairs (λ a b, eh_height a <? eh_height b) headers)
        (Msg "Bitcoin Core header cache is not strictly ordered by height");
  let epoch_rows := filter is_epoch_row headers in
  first ← ok_or (Msg "Bitcoin Core header cache has no epoch boundary") (head epoch_rows);
  _ ← ensure (eh_height first =? 0) (Msg "Bitcoin Core epoch cache is not anchored at genesis");
  _ ← ensure (all_pairs (λ a b, eh_height b =? add_i32 (eh_height a) DAA_EPOCH_INTERVAL) epoch_rows)
        (Msg "Bitcoin Core epoch cache has a gap");
  last_epoch ← ok_or (Msg "expect") (last epoch_rows);
  _ ← ensure (eh_height last_epoch <=? eh_height horizon)
        (Msg "Bitcoin Core horizon precedes its latest cached epoch");
  _ ← ensure (eh_height horizon <? add_i32 (eh_height last_epoch) DAA_EPOCH_INTERVAL)
        (Msg "Bitcoin Core horizon exceeds its latest cached epoch interval");
  let by_epoch := map_collect ((λ h, (eh_height h, eh_bits h)) <$> epoch_rows) in
  let epochs_by_time := merge_sort tuple_le ((λ h, (eh_block_time h, eh_height h)) <$> epoch_rows) in
  observed_horizon_time ← ok_or (Msg "expect") (max_time headers);
  mret {| covered_max_height := eh_height last_epoch;
          horizon_height := eh_height horizon;
          horizon_time := Z.max cached_horizon_time observed_horizon_time;
          by_epoch := by_epoch;
          epochs_by_time := epochs_by_time |}.

Definition from_bitcoin_core_headers (headers : list BitcoinEpochHeader) : result error NbitsTable :=
  from_bitcoin_core_headers_with_horizon_time headers 0.

Definition height_coverage_max (t : NbitsTable) : Z :=
  sub_i32 (add_i32 (covered_max_height t) DAA_EPOCH_INTERVAL) 1.

Definition expected_nbits (t : NbitsTable) (height : Z) : NbitsLookup :=
  if height <? 0 then BelowTable else
  if height_coverage_max t <? height then AboveTable else
  match by_epoch t !! daa_epoch_start height with
  | Some bits => Found bits
  | None => AboveTable
  end.

(** [partition_point] of a partitioned slice: the length of the prefix on which
    the predicate holds. *)
Fixpoint partition_point {A} (p : A → bool) (l : list A) : nat :=
  match l with
  | x :: l => if p x then S (partition_point p l) else 0
  | [] => 0
  end.

Definition epoch_height_for_time (t : NbitsTable) (time : Z) : option Z :=
  if horizon_time t <? time then None else
  match epochs_by_time t with
  | [] => None
  | (floor, _) :: _ =>
      if time <? floor then None else
      let index := partition_point (λ e, e.1 <=? time) (epochs_by_time t) in
      snd <$> epochs_by_time t !! (index - 1)%nat
  end.

Definition classify_nbits_by_time (t : NbitsTable) (header_time actual_bits : Z) : WeakVerdict :=
  if horizon_time t <? header_time then AboveHorizon else
  match epoch_height_for_time t header_time with
  | None => BelowFloor
  | Some epoch =>
      let candidates := omap id [checked_sub_i32 epoch DAA_EPOCH_INTERVAL; Some epoch;
                                 checked_add_i32 epoch DAA_EPOCH_INTERVAL] in
      if existsb (λ expected, actual_bits =? expected) (omap (λ h, by_epoch t !! h) candidates)
      then Match else NonBtcEpochBits
  end.

(** ** What a table is built from *)

Lemma all_pairs_true {A} (f : A → A → bool) l :
  all_pairs f l = true ↔
  ∀ i x y, l !! i = Some x → l !! S i = Some y → f x y = true.
Proof.
  induction l as [|a [|b l] IH].
  - split; [|done]. intros _ i x y Hx. by rewrite lookup_nil in Hx.
  - split; [|done]. intros _ [|i] x y ? Hy; simpl in *; done.
  - change (all_pairs f (a :: b :: l)) with (f a b && all_pairs f (b :: l)).
    rewrite andb_true_iff, IH. split.
    + intros [Hab Hl] [|i] x y Hx Hy; simpl in *; [by simplify_eq|]. by apply (Hl i).
    + intros Hl. split; [by apply (Hl 0%nat)|]. intros i. by apply (Hl (S i)).
Qed.

Lemma partition_point_prefix {A} (p : A → bool) l i x :
  (i < partition_point p l)%nat → l !! i = Some x → p x = true.
Proof.
  revert i. induction l as [|a l IH]; intros i Hi Hx; simpl in *; [lia|].
  destruct (p a) eqn:E; [|lia]. destruct i as [|i]; simplify_eq/=; [done|].
  apply (IH i); [lia|done].
Qed.

Lemma partition_point_stop {A} (p : A → bool) l x :
  l !! partition_point p l = Some x → p x = false.
Proof.
  induction l as [|a l IH]; simpl; [done|]. destruct (p a) eqn:E; simpl; [done|].
  by intros [= <-].
Qed.

Lemma partition_point_le {A} (p : A → bool) l : (partition_point p l ≤ length l)%nat.
Proof. induction l as [|a l IH]; simpl; [done|]. destruct (p a); lia. Qed.

#[global] Instance tuple_le_total : Total tuple_le.
Proof. intros [a b] [c d]. unfold tuple_le. simpl. lia. Qed.
#[global] Instance tuple_le_trans : Transitive tuple_le.
Proof. intros [a b] [c d] [e f]. unfold tuple_le. simpl. lia. Qed.

(** The rows of a table: consecutive epochs from genesis, indexed by height and by
    time, with the horizon in the last one. *)
Record table_rows (t : NbitsTable) (rows : list BitcoinEpochHeader) : Prop := {
  rows_height i r : rows !! i = Some r → eh_height r = 2016 * Z.of_nat i;
  rows_covered : covered_max_height t = 2016 * (Z.of_nat (length rows) - 1);
  rows_nonempty : (0 < length rows)%nat;
  rows_bound : covered_max_height t ≤ i32_MAX - 2016;
  rows_by_epoch h b : by_epoch t !! h = Some b ↔ ∃ r, r ∈ rows ∧ eh_height r = h ∧ eh_bits r = b;
  rows_by_time : epochs_by_time t ≡ₚ (λ h, (eh_block_time h, eh_height h)) <$> rows;
  rows_sorted : StronglySorted tuple_le (epochs_by_time t);
  rows_horizon : covered_max_height t ≤ horizon_height t < covered_max_height t + 2016;
}.

(** Heights that leave room for one more epoch in an [i32]. *)
Definition heights_fit (headers : list BitcoinEpochHeader) : Prop :=
  Forall (λ h, i32_MIN ≤ eh_height h ≤ i32_MAX - 2016) headers.

Lemma epoch_rows_heights rows r0 :
  heights_fit rows → head rows = Some r0 → eh_height r0 = 0 →
  all_pairs (λ a b, eh_height b =? add_i32 (eh_height a) DAA_EPOCH_INTERVAL) rows = true →
  ∀ i r, rows !! i = Some r → eh_height r = 2016 * Z.of_nat i.
Proof.
  intros Hfit Hh H0 Hp i. rewrite all_pairs_true in Hp.
  induction i as [|i IH]; intros r Hr.
  - destruct rows; simplify_eq/=. lia.
  - destruct (lookup_lt_is_Some_2 rows i) as [q Hq].
    { apply lookup_lt_Some in Hr. lia. }
    specialize (Hp i q r Hq Hr). apply Z.eqb_eq in Hp. rewrite Hp.
    pose proof (IH q Hq) as Hqh.
    unfold heights_fit in Hfit. rewrite Forall_lookup in Hfit. specialize (Hfit i q Hq).
    unfold i32_MIN, i32_MAX, DAA_EPOCH_INTERVAL in *.
    rewrite add_i32_id by (unfold in_i32; lia). lia.
Qed.

Lemma epoch_rows_NoDup rows :
  (∀ i r, rows !! i = Some r → eh_height r = 2016 * Z.of_nat i) →
  NoDup ((λ h, (eh_height h, eh_bits h)) <$> rows).*1.
Proof.
  intros Hr. rewrite <-list_fmap_compose. apply NoDup_alt. intros i j x Hi Hj.
  rewrite list_lookup_fmap in Hi, Hj. apply fmap_Some in Hi as (a & Ha & ->), Hj as (b & Hb & Hab).
  apply Hr in Ha, Hb. simpl in *. lia.
Qed.

Lemma table_built headers cached t :
  heights_fit headers →
  from_bitcoin_core_headers_with_horizon_time headers cached = Ok t →
  table_rows t (filter is_epoch_row headers).
Proof.
  intros Hfit Hc. unfold from_bitcoin_core_headers_with_horizon_time in Hc.
  set (rows := filter is_epoch_row headers) in *. res_inv.
  assert (heights_fit rows) as Hfr.
  { unfold heights_fit, rows in *. apply Forall_forall. intros r [_ Hr]%list_elem_of_filter.
    rewrite Forall_forall in Hfit. by apply Hfit. }
  assert (∀ i r, rows !! i = Some r → eh_height r = 2016 * Z.of_nat i) as Hrow.
  { apply (epoch_rows_heights rows x1); [done|done|lia|done]. }
  rewrite last_lookup in *. pose proof (lookup_lt_Some _ _ _ H4) as Hlen.
  pose proof (Hrow _ _ H4) as Hlast.
  unfold heights_fit in Hfr. rewrite Forall_lookup in Hfr. specialize (Hfr _ _ H4).
  unfold DAA_EPOCH_INTERVAL, i32_MAX, i32_MIN in *.
  rewrite add_i32_id in * by (unfold in_i32; lia).
  constructor; simpl; unfold i32_MAX; try done; try lia.
  - intros h b. rewrite map_collect_lookup by by apply epoch_rows_NoDup.
    rewrite list_elem_of_fmap. naive_solver.
  - apply merge_sort_Permutation.
  - apply StronglySorted_merge_sort; apply _.
Qed.

Section table.
Context {t : NbitsTable} {rows : list BitcoinEpochHeader} (Ht : table_rows t rows).

Lemma coverage_max_eq : height_coverage_max t = covered_max_height t + 2015.
Proof.
  pose proof (rows_bound _ _ Ht). pose proof (rows_covered _ _ Ht).
  pose proof (rows_nonempty _ _ Ht).
  unfold height_coverage_max, DAA_EPOCH_INTERVAL, i32_MAX in *.
  rewrite add_i32_id by (unfold in_i32; lia). rewrite sub_i32_id by (unfold in_i32; lia). lia.
Qed.

Lemma epoch_start_eq h : in_i32 h → 0 ≤ h → daa_epoch_start h = 2016 * (h / 2016).
Proof.
  intros Hh H0. unfold daa_epoch_start, DAA_EPOCH_INTERVAL.
  pose proof (Z.mul_div_le h 2016). pose proof (Z.div_pos h 2016).
  unfold in_i32 in *. rewrite wrap_i32_id; unfold in_i32; lia.
Qed.

(** The whole height lookup. *)
Lemma expected_nbits_spec h :
  in_i32 h →
  (h < 0 ∧ expected_nbits t h = BelowTable) ∨
  (covered_max_height t + 2016 ≤ h ∧ expected_nbits t h = AboveTable) ∨
  (0 ≤ h < covered_max_height t + 2016 ∧
   ∃ r, rows !! Z.to_nat (h / 2016) = Some r ∧ expected_nbits t h = Found (eh_bits r)).
Proof.
  intros Hh. unfold expected_nbits. rewrite coverage_max_eq.
  destruct (h <? 0) eqn:E0; [left; split; [lia|done]|].
  destruct (_ <? h) eqn:E1; [right; left; split; [lia|done]|].
  right; right. split; [lia|].
  pose proof (rows_covered _ _ Ht) as Hc.
  assert (0 ≤ h / 2016 < Z.of_nat (length rows)) as Hi.
  { split; [apply Z.div_pos; lia|]. apply Z.div_lt_upper_bound; lia. }
  destruct (lookup_lt_is_Some_2 rows (Z.to_nat (h / 2016))) as [r Hr]; [lia|].
  exists r. split; [done|]. rewrite epoch_start_eq by (done || lia).
  rewrite (proj2 (rows_by_epoch _ _ Ht _ (eh_bits r))); [done|].
  exists r. split; [by eapply list_elem_of_lookup_2|]. split; [|done].
  rewrite (rows_height _ _ Ht _ _ Hr). lia.
Qed.

Lemma by_epoch_row i r : rows !! i = Some r → by_epoch t !! (2016 * Z.of_nat i) = Some (eh_bits r).
Proof.
  intros Hr. apply (rows_by_epoch _ _ Ht). exists r.
  split; [by eapply list_elem_of_lookup_2|]. split; [|done]. by apply (rows_height _ _ Ht).
Qed.

End table.

(** ** Time lookups *)

Lemma sorted_lookup_le (l : list (Z * Z)) i j x y :
  StronglySorted tuple_le l → (i < j)%nat → l !! i = Some x → l !! j = Some y → tuple_le x y.
Proof.
  intros Hs. revert i j. induction Hs as [|a l Hl IH Ha]; intros i j Hij Hi Hj.
  - by rewrite lookup_nil in Hi.
  - destruct j as [|j]; [lia|]. simpl in Hj. destruct i as [|i]; simplify_eq/=.
    + rewrite Forall_forall in Ha. apply Ha. by eapply list_elem_of_lookup_2.
    + apply (IH i j); [lia|done..].
Qed.

(** The epoch a time selects: the latest start at or before it. *)
Definition selects (t : NbitsTable) (time e : Z) : Prop :=
  ∃ start, (start, e) ∈ epochs_by_time t ∧ start ≤ time ∧
    ∀ p, p ∈ epochs_by_time t → p.1 ≤ time → tuple_le p (start, e).

Lemma epoch_height_for_time_spec t time :
  StronglySorted tuple_le (epochs_by_time t) →
  match epoch_height_for_time t time with
  | Some e => time ≤ horizon_time t ∧ selects t time e
  | None => horizon_time t < time ∨ ∀ p, p ∈ epochs_by_time t → time < p.1
  end.
Proof.
  intros Hs. unfold epoch_height_for_time.
  destruct (horizon_time t <? time) eqn:Eh; [left; lia|].
  remember (epochs_by_time t) as l eqn:El. destruct l as [|[floor fh] l'] eqn:El'.
  { right. intros p Hp. by apply not_elem_of_nil in Hp. }
  rewrite <-El' in *. destruct (time <? floor) eqn:Ef.
  { right. intros p Hp. rewrite El' in Hp, Hs. apply elem_of_cons in Hp as [->|Hp]; [simpl; lia|].
    apply StronglySorted_inv in Hs as [_ Ha]. rewrite Forall_forall in Ha.
    specialize (Ha p Hp). unfold tuple_le in Ha. simpl in Ha. lia. }
  set (k := partition_point (λ e, e.1 <=? time) l).
  assert (0 < k)%nat as Hk.
  { unfold k. rewrite El'. simpl. replace (floor <=? time) with true by lia. lia. }
  pose proof (partition_point_le (λ e : Z * Z, e.1 <=? time) l) as Hle. fold k in Hle.
  destruct (lookup_lt_is_Some_2 l (k - 1)) as [[s e] Hse]; [lia|]. rewrite Hse. simpl.
  split; [lia|]. exists s. rewrite <-El. split; [by eapply list_elem_of_lookup_2|].
  assert (s ≤ time) as Hst.
  { pose proof (partition_point_prefix (λ e : Z * Z, e.1 <=? time) l (k - 1) (s, e)) as Hp.
    simpl in Hp. specialize (Hp ltac:(fold k; lia) Hse). lia. }
  split; [done|]. intros p [i Hi]%list_elem_of_lookup Hpt.
  destruct (decide (i < k - 1)%nat) as [Hlt|Hge].
  { by apply (sorted_lookup_le l i (k - 1) p (s, e)). }
  destruct (decide (i = k - 1)%nat) as [->|Hne].
  { rewrite Hse in Hi. injection Hi as <-. unfold tuple_le. simpl. lia. }
  exfalso. destruct (lookup_lt_is_Some_2 l k) as [q Hq].
  { apply lookup_lt_Some in Hi. lia. }
  pose proof (partition_point_stop (λ e : Z * Z, e.1 <=? time) l q Hq) as Hstop. simpl in Hstop.
  destruct (decide (i = k)) as [->|]; [rewrite Hq in Hi; injection Hi as <-; lia|].
  pose proof (sorted_lookup_le l k i q p Hs ltac:(lia) Hq Hi) as Hqp.
  unfold tuple_le in Hqp. lia.
Qed.

(** The weak verdict matches exactly the bits of the selected epoch or of one of
    its neighbours. *)
Lemma classify_Match t rows time bits e :
  table_rows t rows → epoch_height_for_time t time = Some e → in_i32 (e - 2016) →
  in_i32 (e + 2016) → time ≤ horizon_time t →
  classify_nbits_by_time t time bits = Match ↔
  ∃ r, r ∈ rows ∧ eh_bits r = bits ∧ (eh_height r = e - 2016 ∨ eh_height r = e ∨ eh_height r = e + 2016).
Proof.
  intros Ht He Hlo Hhi Htime. unfold classify_nbits_by_time.
  replace (horizon_time t <? time) with false by lia. rewrite He.
  unfold checked_sub_i32, checked_add_i32, DAA_EPOCH_INTERVAL.
  rewrite !checked_i32_in by done.
  set (l := omap id _).
  assert (l = [e - 2016; e; e + 2016]) as -> by reflexivity.
  assert (existsb (λ x, bits =? x) (omap (λ h, by_epoch t !! h) [e - 2016; e; e + 2016]) = true ↔
    ∃ r, r ∈ rows ∧ eh_bits r = bits ∧
      (eh_height r = e - 2016 ∨ eh_height r = e ∨ eh_height r = e + 2016)) as Heq.
  { rewrite existsb_exists. split.
    - intros (b & Hb & ->%Z.eqb_eq). apply list_elem_of_In, list_elem_of_omap in Hb as (h & Hh & Hb).
      apply (rows_by_epoch _ _ Ht) in Hb as (r & Hr & <- & <-). exists r.
      split; [done|]. split; [done|]. set_solver.
    - intros (r & Hr & <- & Hh). exists (eh_bits r). split; [|by apply Z.eqb_eq].
      apply list_elem_of_In, list_elem_of_omap. exists (eh_height r). split; [set_solver|].
      apply (rows_by_epoch _ _ Ht). eauto. }
  destruct (existsb _ _) eqn:E; naive_solver.
Qed.

(** ** Claims *)

(** A table built from cached Core headers answers every height: below zero
    it says so, past its last cached epoch it says so, and every height in between
    gets the bits of the cached header at the start of its own 2016-block epoch,
    with no gap. *)
Theorem nbits_by_height_total headers cached t h :
  heights_fit headers → in_i32 h →
  from_bitcoin_core_headers_with_horizon_time headers cached = Ok t →
  if decide (h < 0) then expected_nbits t h = BelowTable
  else if decide (height_coverage_max t < h) then expected_nbits t h = AboveTable
  else ∃ r, r ∈ headers ∧ eh_height r = 2016 * (h / 2016) ∧ expected_nbits t h = Found (eh_bits r).
Proof.
  intros Hfit Hh Hc. pose proof (table_built _ _ _ Hfit Hc) as Ht.
  pose proof (coverage_max_eq Ht) as Hm.
  destruct (expected_nbits_spec Ht h Hh) as [[? ->]|[[? ->]|(? & r & Hr & ->)]].
  - by rewrite decide_True.
  - pose proof (rows_covered _ _ Ht). pose proof (rows_nonempty _ _ Ht).
    by rewrite decide_False, decide_True by lia.
  - rewrite decide_False, decide_False by lia. exists r.
    pose proof (rows_height _ _ Ht _ _ Hr). split_and!; [|rewrite Z2Nat.id in *; [done|]|done].
    + by apply list_elem_of_lookup_2, list_elem_of_filter in Hr as [_ ?].
    + apply Z.div_pos; lia.
Qed.

(** The epoch a timestamp selects is the cached epoch with the latest start at
    or before it (ties to the higher epoch), also where block times are not
    monotonic; it is absent exactly for times past the horizon or before every
    cached epoch. *)
Theorem epoch_for_time_exact headers cached t time :
  heights_fit headers →
  from_bitcoin_core_headers_with_horizon_time headers cached = Ok t →
  match epoch_height_for_time t time with
  | Some e =>
      time ≤ horizon_time t ∧
      ∃ r, r ∈ headers ∧ eh_height r = e ∧ Z.rem e 2016 = 0 ∧ eh_block_time r ≤ time ∧
        ∀ r', r' ∈ headers → Z.rem (eh_height r') 2016 = 0 → eh_block_time r' ≤ time →
          tuple_le (eh_block_time r', eh_height r') (eh_block_time r, e)
  | None =>
      horizon_time t < time ∨
      ∀ r, r ∈ headers → Z.rem (eh_height r) 2016 = 0 → time < eh_block_time r
  end.
Proof.
  intros Hfit Hc. pose proof (table_built _ _ _ Hfit Hc) as Ht.
  assert (∀ r, r ∈ headers → Z.rem (eh_height r) 2016 = 0 →
    (eh_block_time r, eh_height r) ∈ epochs_by_time t) as Hin.
  { intros r Hr Hrem. rewrite (rows_by_time _ _ Ht). apply list_elem_of_fmap. exists r.
    split; [done|]. apply list_elem_of_filter. split; [|done].
    apply Is_true_true. by apply Z.eqb_eq. }
  pose proof (epoch_height_for_time_spec t time (rows_sorted _ _ Ht)) as Hs.
  destruct (epoch_height_for_time t time) as [e|].
  - destruct Hs as [? (s & Hse & Hst & Hmax)]. split; [done|].
    rewrite (rows_by_time _ _ Ht) in Hse. apply list_elem_of_fmap in Hse as (r & [= -> ->] & Hr).
    apply list_elem_of_filter in Hr as [Hep%Is_true_true%Z.eqb_eq Hr].
    exists r. split_and!; try done. intros r' Hr' Hrem Ht'. by apply Hmax; [apply Hin|].
  - destruct Hs as [|Hs]; [by left|]. right. intros r Hr Hrem.
    by apply (Hs (eh_block_time r, eh_height r)), Hin.
Qed.

(** ** Witnesses *)

(** Two epochs whose times run backwards, and a horizon header. *)
Definition ex_headers : list BitcoinEpochHeader :=
  [mkEpochHeader 0 1000 486604799; mkEpochHeader 2016 900 453062093; mkEpochHeader 2020 1200 453062093].
Definition ex_table : NbitsTable :=
  {| covered_max_height := 2016; horizon_height := 2020; horizon_time := 1200;
     by_epoch := list_to_map [(2016, 453062093); (0, 486604799)];
     epochs_by_time := [(900, 2016); (1000, 0)] |}.

Lemma ex_table_built : from_bitcoin_core_headers_with_horizon_time ex_headers 0 = Ok ex_table.
Proof. vm_compute. reflexivity. Qed.

Lemma ex_headers_fit : heights_fit ex_headers.
Proof. repeat constructor; vm_compute; congruence. Qed.

Lemma nbits_by_height_total_witness :
  ∃ r, r ∈ ex_headers ∧ eh_height r = 2016 * (3000 / 2016) ∧
       expected_nbits ex_table 3000 = Found (eh_bits r).
Proof.
  exact (nbits_by_height_total ex_headers 0 ex_table 3000 ex_headers_fit
    ltac:(unfold in_i32; lia) ex_table_built).
Defined.

Lemma epoch_for_time_exact_witness :
  epoch_height_for_time ex_table 950 = Some 2016 ∧
  ∃ r, r ∈ ex_headers ∧ eh_height r = 2016 ∧ eh_block_time r ≤ 950.
Proof.
  split; [vm_compute; reflexivity|].
  destruct (epoch_for_time_exact ex_headers 0 ex_table 950 ex_headers_fit ex_table_built)
    as (_ & r & Hr & He & _ & Ht & _).
  exists r. split; [exact Hr|]. split; [exact He|exact Ht].
Defined.
