(* ===== verification/Lineage.v ===== *)
(** * Does a parent header belong to Bitcoin?

    Models [crates/mmm-capture/src/lineage.rs] and [btc_orphan.rs]: the lineage
    rule over the difficulty history, the strict coinbase height taken from stored
    evidence, and the orphan verdict. *)

From S2P Require Import Prelude BitcoinLib Reader Auxpow Nbits.

Definition FUTURE_HEIGHT_TOLERANCE : Z := 144.
Definition RETARGET_PENDING_WINDOW : Z := 6.

Record ParentLineageInput := mkLineageInput {
  li_bits : Z;
  li_time : Z;
  meets_own_target : bool;
  prev_height : option Z;
  strict_height : option Z;
}.

Inductive LineageEvidence := PlacedPrev | StrictHeight | EpochTime | CurrentEpoch.

Inductive Lineage :=
| Bitcoin (e : LineageEvidence)
| NotBitcoin (reason : string)
| Pending (reason : string).

Definition is_exact (e : LineageEvidence) : bool :=
  match e with PlacedPrev | StrictHeight => true | _ => false end.

Definition previous_epoch_bits (t : NbitsTable) (height : Z) : option Z :=
  match expected_nbits t (sub_i32 (daa_epoch_start height) 1) with
  | Found bits => Some bits
  | BelowTable | AboveTable => None
  end.

Definition above_horizon_lineage (bits : Z) (is_share : bool) (t : NbitsTable) : Lineage :=
  let horizon := horizon_height t in
  let latest := expected_nbits t horizon in
  if bool_decide (latest = Found bits)
     || (is_share && bool_decide (previous_epoch_bits t horizon = Some bits))
  then Bitcoin CurrentEpoch else
  let next_retarget := add_i32 (daa_epoch_start horizon) DAA_EPOCH_INTERVAL in
  if sub_i32 next_retarget horizon <=? RETARGET_PENDING_WINDOW
  then Pending "next_epoch_not_cached"
  else NotBitcoin "non_btc_current_epoch_bits".

(** The branch of [bitcoin_lineage] for a known prev. *)
Definition placed_prev_lineage (bits : Z) (is_share : bool) (t : NbitsTable) (prev : Z) : Lineage :=
  if is_share then Bitcoin PlacedPrev else
  match expected_nbits t (add_i32 prev 1) with
  | Found expected =>
      if expected =? bits then Bitcoin PlacedPrev else NotBitcoin "placed_prev_nbits_mismatch"
  | AboveTable => Pending "next_epoch_not_cached"
  | BelowTable => NotBitcoin "prev_below_table"
  end.

(** The branch for a coinbase height; [None] falls through to the time rule. *)
Definition strict_height_lineage (input : ParentLineageInput) (is_share : bool)
    (t : NbitsTable) (height : Z) : option Lineage :=
  let above_horizon := horizon_time t <? li_time input in
  let consistent := above_horizon ||
    match epoch_height_for_time t (li_time input) with
    | Some epoch => (epoch <=? height) && (height <? add_i32 epoch DAA_EPOCH_INTERVAL)
    | None => false
    end in
  if consistent then
    match expected_nbits t height with
    | Found expected =>
        Some (if (expected =? li_bits input)
                 || (is_share && bool_decide (previous_epoch_bits t height = Some (li_bits input)))
              then Bitcoin StrictHeight
              else NotBitcoin "strict_height_nbits_mismatch")
    | AboveTable =>
        Some (if add_i32 (horizon_height t) FUTURE_HEIGHT_TOLERANCE <? height
              then NotBitcoin "strict_height_far_future"
              else Pending "next_epoch_not_cached")
    | BelowTable => None
    end
  else None.

(** The final match of [bitcoin_lineage]. *)
Definition time_lineage (input : ParentLineageInput) (is_share : bool) (t : NbitsTable) : Lineage :=
  match classify_nbits_by_time t (li_time input) (li_bits input) with
  | Match => Bitcoin EpochTime
  | NonBtcEpochBits => NotBitcoin "non_btc_epoch_bits"
  | BelowFloor => NotBitcoin "time_below_table"
  | AboveHorizon => above_horizon_lineage (li_bits input) is_share t
  end.

Definition bitcoin_lineage (input : ParentLineageInput) (t : NbitsTable) : Lineage :=
  let is_share := negb (meets_own_target input) in
  match prev_height input with
  | Some prev => placed_prev_lineage (li_bits input) is_share t prev
  | None =>
      match strict_height input ≫= strict_height_lineage input is_share t with
      | Some verdict => verdict
      | None => time_lineage input is_share t
      end
  end.

(** ** [btc_orphan.rs] *)

Definition BIP34_HEIGHT : Z := 227931.

Definition STRICT_BIP34_CHAINS : list string :=
  ["argentum"; "bitcoin-vault"; "bitmark"; "coiledcoin"; "crown"; "devcoin"; "doichain";
   "elastos"; "emercoin"; "fractal"; "geistgeld"; "groupcoin"; "hathor"; "huntercoin";
   "i0coin"; "ixcoin"; "myriadcoin"; "namecoin"; "qbit"; "syscoin"; "terracoin"; "unobtanium"].

Definition is_strict_bip34_chain (chain : string) : bool :=
  bool_decide (chain ∈ STRICT_BIP34_CHAINS).

Definition strict_bip34_height_from_evidence `{BitcoinLib} (chain : string) (script : bytes)
    (tx_bytes : option bytes) : option Z :=
  if negb (is_strict_bip34_chain chain) then None else
  _ ← (if bool_decide (chain = "hathor"%string) then
         raw ← tx_bytes;
         tx ← deserialize_tx raw;
         if negb (is_coinbase tx)
            || negb (bool_decide (script_sig <$> tx_input tx !! 0%nat = Some script))
         then None else Some ()
       else Some ());
  opt_filter (λ height, BIP34_HEIGHT <=? height) (parse_bip34_height script).

Inductive BtcOrphanVerdict := VStrict | VWeak | VExcluded | VPending.

Definition as_db_str (v : BtcOrphanVerdict) : option string :=
  match v with
  | VStrict => Some "strict_btc_orphan"%string
  | VWeak => Some "weak_btc_orphan"%string
  | VExcluded => Some "excluded"%string
  | VPending => None
  end.

Definition classify_btc_orphan_with (t : NbitsTable) (header_time header_bits : Z)
    (strict : option Z) : BtcOrphanVerdict * string :=
  let input := {| li_bits := header_bits; li_time := header_time; meets_own_target := true;
                  prev_height := None;
                  strict_height := opt_filter (λ height, BIP34_HEIGHT <=? height) strict |} in
  match bitcoin_lineage input t with
  | Bitcoin StrictHeight | Bitcoin PlacedPrev => (VStrict, "strict_height_nbits_match"%string)
  | Bitcoin EpochTime => (VWeak, "timestamp_epoch_nbits_match"%string)
  | Bitcoin CurrentEpoch => (VPending, "above_nbits_time_horizon"%string)
  | NotBitcoin reason => (VExcluded, reason)
  | Pending reason => (VPending, reason)
  end.

(** ** Lemmas *)

(** The cached bits of the epoch that contains a height. *)
Definition epoch_bits (rows : list BitcoinEpochHeader) (h b : Z) : Prop :=
  0 ≤ h ∧ ∃ r, rows !! Z.to_nat (h / 2016) = Some r ∧ eh_bits r = b.

(** A height and a time that may belong together: the time is past the cache, or
    selects the epoch of the height. *)
Definition height_fits_time (t : NbitsTable) (time h : Z) : Prop :=
  horizon_time t < time ∨
  ∃ e, epoch_height_for_time t time = Some e ∧ e ≤ h < e + 2016.

Section lineage.
Context {t : NbitsTable} {rows : list BitcoinEpochHeader} (Ht : table_rows t rows).

Lemma expected_Found h b :
  in_i32 h → expected_nbits t h = Found b ↔ h < covered_max_height t + 2016 ∧ epoch_bits rows h b.
Proof.
  intros Hh. unfold epoch_bits.
  destruct (expected_nbits_spec Ht h Hh) as [[? ->]|[[? ->]|(? & r & Hr & ->)]].
  - split; [done|]. lia.
  - split; [done|]. lia.
  - rewrite Hr. split; [intros [= <-]; split_and!; [lia|lia|eauto]|].
    intros (_ & _ & r' & [= <-] & <-). done.
Qed.

Lemma expected_Above h :
  in_i32 h → expected_nbits t h = AboveTable ↔ covered_max_height t + 2016 ≤ h.
Proof.
  intros Hh. pose proof (rows_covered _ _ Ht). pose proof (rows_nonempty _ _ Ht).
  destruct (expected_nbits_spec Ht h Hh) as [[? ->]|[[? ->]|(? & r & Hr & ->)]];
    (split; [done || lia|]; intros; try done; lia).
Qed.

Lemma epoch_time_range time e :
  epoch_height_for_time t time = Some e → 0 ≤ e ≤ covered_max_height t.
Proof.
  intros He. pose proof (epoch_height_for_time_spec t time (rows_sorted _ _ Ht)) as Hs.
  rewrite He in Hs. destruct Hs as [_ (s & Hse & _)].
  rewrite (rows_by_time _ _ Ht) in Hse.
  apply list_elem_of_fmap in Hse as (r & [= -> ->] & [i Hi]%list_elem_of_lookup).
  rewrite (rows_height _ _ Ht _ _ Hi), (rows_covered _ _ Ht).
  apply lookup_lt_Some in Hi. lia.
Qed.

Lemma strict_consistent time h :
  (horizon_time t <? time) ||
  match epoch_height_for_time t time with
  | Some epoch => (epoch <=? h) && (h <? add_i32 epoch DAA_EPOCH_INTERVAL)
  | None => false
  end = true ↔ height_fits_time t time h.
Proof.
  unfold height_fits_time. rewrite orb_true_iff.
  destruct (epoch_height_for_time t time) as [e|] eqn:He.
  - pose proof (epoch_time_range _ _ He). pose proof (rows_bound _ _ Ht).
    unfold DAA_EPOCH_INTERVAL, i32_MAX in *. rewrite add_i32_id by (unfold in_i32; lia).
    rewrite andb_true_iff. split; [intros [?|[? ?]]; [left; lia|right]|].
    + exists e. split; [done|lia].
    + intros [?|(e' & [= <-] & ?)]; [left; lia|right; lia].
  - naive_solver lia.
Qed.

Lemma horizon_facts :
  in_i32 (horizon_height t) ∧ 0 ≤ horizon_height t ∧
  daa_epoch_start (horizon_height t) = covered_max_height t ∧
  horizon_height t / 2016 = Z.of_nat (length rows) - 1.
Proof.
  pose proof (rows_horizon _ _ Ht). pose proof (rows_covered _ _ Ht) as Hc.
  pose proof (rows_nonempty _ _ Ht). pose proof (rows_bound _ _ Ht). unfold i32_MAX in *.
  assert (horizon_height t / 2016 = Z.of_nat (length rows) - 1) as Hd.
  { symmetry. apply Z.div_unique with (horizon_height t - covered_max_height t); lia. }
  split_and!; [unfold in_i32; lia|lia| |done].
  rewrite epoch_start_eq by (unfold in_i32; lia). lia.
Qed.

(** The time rule past the horizon, for a block. *)
Lemma above_horizon_block bits :
  match above_horizon_lineage bits false t with
  | Bitcoin e => e = CurrentEpoch ∧ epoch_bits rows (horizon_height t) bits
  | Pending r => r = "next_epoch_not_cached"%string ∧ ¬ epoch_bits rows (horizon_height t) bits ∧
                 covered_max_height t + 2016 - horizon_height t ≤ 6
  | NotBitcoin r => r = "non_btc_current_epoch_bits"%string ∧ ¬ epoch_bits rows (horizon_height t) bits ∧
                    6 < covered_max_height t + 2016 - horizon_height t
  end.
Proof.
  destruct horizon_facts as (Hi & H0 & Hs & _). pose proof (rows_horizon _ _ Ht).
  unfold above_horizon_lineage. rewrite orb_false_r, Hs.
  pose proof (rows_bound _ _ Ht). unfold RETARGET_PENDING_WINDOW, DAA_EPOCH_INTERVAL, i32_MAX in *.
  pose proof (rows_covered _ _ Ht). pose proof (rows_nonempty _ _ Ht).
  rewrite add_i32_id by (unfold in_i32; lia). rewrite sub_i32_id by (unfold in_i32; lia).
  case_bool_decide as Hl.
  - apply expected_Found in Hl as [_ Hl]; [done|done].
  - assert (¬ epoch_bits rows (horizon_height t) bits) as Hb.
    { intros Hb. apply Hl, expected_Found; [done|]. split; [lia|done]. }
    destruct (_ <=? 6) eqn:E; (split; [done|]; split; [done|lia]).
Qed.

Lemma expected_Below h : in_i32 h → expected_nbits t h = BelowTable → h < 0.
Proof. intros Hh E. destruct (expected_nbits_spec Ht h Hh) as [[? _]|[[_ E']|(_ & r & _ & E')]]; [done|congruence..]. Qed.

End lineage.

(** The header has the bits of the epoch its time selects, or of a neighbour. *)
Definition time_epoch_bits (t : NbitsTable) (rows : list BitcoinEpochHeader) (time bits : Z) : Prop :=
  ∃ e r, selects t time e ∧ r ∈ rows ∧ eh_bits r = bits ∧
         (eh_height r = e - 2016 ∨ eh_height r = e ∨ eh_height r = e + 2016).

(** Neither a placed prev nor a coinbase height decides: the time rule does. *)
Definition by_time (t : NbitsTable) (input : ParentLineageInput) : Prop :=
  prev_height input = None ∧ ∀ h, strict_height input = Some h → height_fits_time t (li_time input) h → h < 0.

(** Why the header of a block is not Bitcoin's. *)
Definition rejected (t : NbitsTable) (rows : list BitcoinEpochHeader) (input : ParentLineageInput) (reason : string) : Prop :=
  (∃ p, prev_height input = Some p ∧ p + 1 < covered_max_height t + 2016 ∧ ¬ epoch_bits rows (p + 1) (li_bits input) ∧
     reason = if p + 1 <? 0 then "prev_below_table"%string else "placed_prev_nbits_mismatch"%string) ∨
  (prev_height input = None ∧ ∃ h, strict_height input = Some h ∧ height_fits_time t (li_time input) h ∧
     (0 ≤ h < covered_max_height t + 2016 ∧ ¬ epoch_bits rows h (li_bits input) ∧ reason = "strict_height_nbits_mismatch"%string ∨
      covered_max_height t + 2016 ≤ h ∧ add_i32 (horizon_height t) 144 < h ∧ reason = "strict_height_far_future"%string)) ∨
  (by_time t input ∧
     (li_time input ≤ horizon_time t ∧ (∀ s, s ∈ epochs_by_time t → li_time input < s.1) ∧ reason = "time_below_table"%string ∨
      li_time input ≤ horizon_time t ∧ (∃ e, selects t (li_time input) e) ∧
        ¬ time_epoch_bits t rows (li_time input) (li_bits input) ∧ reason = "non_btc_epoch_bits"%string ∨
      horizon_time t < li_time input ∧ ¬ epoch_bits rows (horizon_height t) (li_bits input) ∧
        6 < covered_max_height t + 2016 - horizon_height t ∧ reason = "non_btc_current_epoch_bits"%string)).

(** What each verdict on a block means: which cached bits it matched, which epoch it waits
    for, or which rule it broke. *)
Definition lineage_meaning (t : NbitsTable) (rows : list BitcoinEpochHeader)
    (input : ParentLineageInput) (v : Lineage) : Prop :=
  match v with
  | Bitcoin PlacedPrev =>
      ∃ p, prev_height input = Some p ∧ epoch_bits rows (p + 1) (li_bits input)
  | Bitcoin StrictHeight =>
      prev_height input = None ∧
      ∃ h, strict_height input = Some h ∧ height_fits_time t (li_time input) h ∧
           epoch_bits rows h (li_bits input)
  | Bitcoin EpochTime =>
      by_time t input ∧ li_time input ≤ horizon_time t ∧ time_epoch_bits t rows (li_time input) (li_bits input)
  | Bitcoin CurrentEpoch =>
      by_time t input ∧ horizon_time t < li_time input ∧
      epoch_bits rows (horizon_height t) (li_bits input)
  | Pending reason =>
      reason = "next_epoch_not_cached"%string ∧
      ((∃ p, prev_height input = Some p ∧ covered_max_height t + 2016 ≤ p + 1) ∨
       (prev_height input = None ∧ ∃ h, strict_height input = Some h ∧ height_fits_time t (li_time input) h ∧
             covered_max_height t + 2016 ≤ h ≤ horizon_height t + 144) ∨
       (by_time t input ∧ horizon_time t < li_time input ∧ ¬ epoch_bits rows (horizon_height t) (li_bits input) ∧
             covered_max_height t + 2016 - horizon_height t ≤ 6))
  | NotBitcoin reason => rejected t rows input reason
  end.

Section verdicts.
Context {t : NbitsTable} {rows : list BitcoinEpochHeader} (Ht : table_rows t rows).
Context (input : ParentLineageInput).

Lemma epoch_bits_covered h b : epoch_bits rows h b → h < covered_max_height t + 2016.
Proof.
  intros (Hh & r & Hr & _). apply lookup_lt_Some in Hr. rewrite (rows_covered _ _ Ht).
  assert (h / 2016 < Z.of_nat (length rows)) as Hd.
  { pose proof (Z.div_pos h 2016). lia. }
  pose proof (Z.div_mod h 2016). pose proof (Z.mod_pos_bound h 2016). lia.
Qed.

Lemma found_other h b : in_i32 h → expected_nbits t h = Found b → b ≠ li_bits input → ¬ epoch_bits rows h (li_bits input).
Proof.
  intros Hi E Hne Hb'. apply (expected_Found Ht) in E as [_ (_ & r & Hr & <-)]; [|done].
  destruct Hb' as (_ & r' & Hr' & Hb'). simplify_eq.
Qed.

Lemma placed_prev_meaning p :
  prev_height input = Some p → in_i32 (p + 1) →
  lineage_meaning t rows input (placed_prev_lineage (li_bits input) false t p).
Proof.
  intros Hp Hi. unfold placed_prev_lineage. rewrite add_i32_id by done.
  destruct (expected_nbits t (p + 1)) as [b| |] eqn:E.
  - pose proof E as [Hc Hb]%(expected_Found Ht); [|done].
    destruct (b =? li_bits input) eqn:Eb; simpl.
    + exists p. split; [done|]. apply Z.eqb_eq in Eb. by subst b.
    + left. exists p. split_and!; [done|done|eapply found_other; [done|exact E|lia]|].
      destruct Hb as [Hb _]. by replace (p + 1 <? 0) with false by lia.
  - apply (expected_Below Ht) in E; [|done]. left. exists p. split_and!; [done| |by intros [? _]; lia|].
    + pose proof (rows_covered _ _ Ht). pose proof (rows_nonempty _ _ Ht). lia.
    + by replace (p + 1 <? 0) with true by lia.
  - apply (expected_Above Ht) in E; [|done]. simpl. split; [done|]. left. eauto.
Qed.

Lemma strict_meaning h v :
  prev_height input = None → strict_height input = Some h → in_i32 h →
  strict_height_lineage input false t h = Some v → lineage_meaning t rows input v.
Proof.
  intros Hp Hsh Hi. unfold strict_height_lineage. cbv zeta.
  destruct (_ || _) eqn:Hc; [|done]. apply (strict_consistent Ht) in Hc.
  destruct (expected_nbits t h) as [b| |] eqn:E; [| done |]; intros [= <-].
  - pose proof E as [Hcv Hb]%(expected_Found Ht); [|done].
    rewrite orb_false_r. destruct (b =? li_bits input) eqn:Eb; simpl.
    + split; [done|]. exists h. apply Z.eqb_eq in Eb. subst b. done.
    + right; left. split; [done|]. exists h. split_and!; [done|done|]. left.
      split; [destruct Hb; lia|]. split; [eapply found_other; [done|exact E|lia]|done].
  - apply (expected_Above Ht) in E; [|done]. destruct (horizon_facts Ht) as (? & ? & _).
    pose proof (rows_horizon _ _ Ht). pose proof (rows_bound _ _ Ht).
    unfold FUTURE_HEIGHT_TOLERANCE, i32_MAX in *.
    destruct (_ <? h) eqn:Ef; simpl.
    + right; left. split; [done|]. exists h. split_and!; [done|done|]. right. split_and!; [done|lia|done].
    + split; [done|]. right; left. split; [done|]. exists h. split_and!; [done|done|done|].
      destruct (decide (in_i32 (horizon_height t + 144))) as [Hin|Hout].
      * rewrite add_i32_id in Ef by done. lia.
      * unfold in_i32 in *. lia.
Qed.

(** A coinbase height that fits its time and is not in the table is negative. *)
Lemma time_rule_applies :
  prev_height input = None →
  (∀ h, strict_height input = Some h → in_i32 h ∧ strict_height_lineage input false t h = None) → by_time t input.
Proof.
  intros Hp Hs. split; [done|]. intros h [Hi Hn]%Hs Hc%(strict_consistent Ht).
  unfold strict_height_lineage in Hn. cbv zeta in Hn. rewrite Hc in Hn.
  destruct (expected_nbits t h) eqn:E; [done| |done]. by apply (expected_Below Ht).
Qed.

Lemma selects_unique time e e' : selects t time e → selects t time e' → e = e'.
Proof.
  intros (s & Hin & Hle & Hmax) (s' & Hin' & Hle' & Hmax').
  specialize (Hmax _ Hin' Hle'). specialize (Hmax' _ Hin Hle). unfold tuple_le in *. simpl in *. lia.
Qed.

Lemma time_meaning : by_time t input → lineage_meaning t rows input (time_lineage input false t).
Proof.
  intros Hby. unfold time_lineage.
  destruct (decide (horizon_time t < li_time input)) as [Hab|Hbe].
  { unfold classify_nbits_by_time. replace (_ <? _) with true by lia.
    pose proof (above_horizon_block Ht (li_bits input)) as Ha.
    destruct (above_horizon_lineage _ _ _) as [e|r|r]; simpl.
    - destruct Ha as [-> Ha]. simpl. done.
    - destruct Ha as (-> & Hb & H6). right; right. split; [done|]. right; right. done.
    - destruct Ha as (-> & Hb & H6). split; [done|]. right; right. done. }
  pose proof (epoch_height_for_time_spec t (li_time input) (rows_sorted _ _ Ht)) as Hsel.
  destruct (epoch_height_for_time t (li_time input)) as [e|] eqn:He.
  2: { unfold classify_nbits_by_time. rewrite He. replace (_ <? _) with false by lia. simpl.
       destruct Hsel as [Hsel|Hsel]; [lia|]. right; right. split; [done|]. left. split_and!; [lia|done|done]. }
  destruct Hsel as [Hhz Hsel].
  pose proof (epoch_time_range Ht _ _ He). pose proof (rows_bound _ _ Ht). unfold i32_MAX in *.
  pose proof (classify_Match t rows _ (li_bits input) e Ht He
      ltac:(unfold in_i32; lia) ltac:(unfold in_i32; lia) ltac:(lia)) as Hm.
  unfold classify_nbits_by_time in *. replace (_ <? _) with false in * by lia. rewrite He in *. cbv zeta in *.
  destruct (existsb _ _); simpl.
  - destruct (proj1 Hm eq_refl) as (r & Hr & Hb & Hh). split_and!; [done|done|]. exists e, r. done.
  - right; right. split; [done|]. right; left. split_and!; [done|by exists e| |done].
    intros (e' & r & Hse & Hr). rewrite (selects_unique _ _ _ Hse Hsel) in Hr.
    discriminate (proj2 Hm (ex_intro _ r Hr)).
Qed.

End verdicts.

Lemma lineage_meaning_holds t rows input :
  table_rows t rows → meets_own_target input = true →
  (∀ p, prev_height input = Some p → in_i32 (p + 1)) →
  (∀ h, strict_height input = Some h → in_i32 h) →
  lineage_meaning t rows input (bitcoin_lineage input t).
Proof.
  intros Ht Hm Hp Hs. unfold bitcoin_lineage. rewrite Hm. cbv zeta. simpl.
  destruct (prev_height input) as [p|] eqn:Ep; [by apply placed_prev_meaning; auto|].
  destruct (strict_height input) as [h|] eqn:Es; simpl.
  - destruct (strict_height_lineage input false t h) as [v|] eqn:Ev.
    + by eapply strict_meaning; eauto.
    + apply (time_meaning Ht), (time_rule_applies Ht); [done|]. intros h' Hh'. rewrite Es in Hh'. injection Hh' as <-. auto.
  - apply (time_meaning Ht), (time_rule_applies Ht); [done|]. intros h' Hh'. congruence.
Qed.

(** ** Claims *)

(** C40. The lineage verdict on a block header, against a table built from Core
    headers, is exact. The prev decides when it is placed, else a coinbase height that fits
    the time, else the time. A header is accepted only with the cached bits of the epoch
    that rule puts it in (by time, of that epoch or a neighbour); it is left pending only
    while it waits for the epoch after the last cached one; and it is rejected only because
    its bits are not those, its coinbase height is past the tolerance, or its prev or time
    is below the table, with the reason of that rule. *)
Theorem lineage_verdict_meaning headers cached t input :
  heights_fit headers → from_bitcoin_core_headers_with_horizon_time headers cached = Ok t →
  meets_own_target input = true →
  (∀ p, prev_height input = Some p → in_i32 (p + 1)) →
  (∀ h, strict_height input = Some h → in_i32 h) →
  lineage_meaning t (filter is_epoch_row headers) input (bitcoin_lineage input t).
Proof. intros Hf Hc. apply lineage_meaning_holds. by eapply table_built. Qed.

(** A share (a header that misses its own target) on a known Bitcoin prev is
    always Bitcoin, whatever its bits; a block on the same prev, inside the table,
    is Bitcoin exactly when it carries the cached bits of the epoch of its height. *)
Theorem placed_prev_rule headers cached t bits time strict p :
  heights_fit headers → from_bitcoin_core_headers_with_horizon_time headers cached = Ok t →
  0 ≤ p + 1 ≤ height_coverage_max t →
  let verdict meets := bitcoin_lineage (mkLineageInput bits time meets (Some p) strict) t in
  verdict false = Bitcoin PlacedPrev ∧
  (verdict true = Bitcoin PlacedPrev ↔ epoch_bits (filter is_epoch_row headers) (p + 1) bits) ∧
  (verdict true ≠ Bitcoin PlacedPrev ↔ verdict true = NotBitcoin "placed_prev_nbits_mismatch").
Proof.
  intros Hf Hc Hp verdict. pose proof (table_built _ _ _ Hf Hc) as Ht.
  rewrite (coverage_max_eq Ht) in Hp. pose proof (rows_bound _ _ Ht). unfold i32_MAX in *.
  assert (in_i32 (p + 1)) as Hi by (unfold in_i32; lia).
  split; [done|]. unfold verdict, bitcoin_lineage. simpl. unfold placed_prev_lineage.
  rewrite add_i32_id by done.
  destruct (expected_nbits_spec Ht (p + 1) Hi) as [[? ?]|[[? ?]|(? & r & Hr & ->)]]; [lia..|].
  destruct (eh_bits r =? bits) eqn:Eb.
  - split; [|done]. split; [|done]. intros _. split; [lia|]. exists r. split; [done|lia].
  - split; [|done]. split; [done|]. intros (_ & r' & Hr' & Hb). simplify_eq. lia.
Qed.

(** The orphan verdict for a header Core does not have: strict exactly when a
    coinbase height past BIP34 activation fits the header's time and the header has
    that epoch's cached bits; weak only with the bits of the time's epoch or a
    neighbour; excluded never with a fitting strict height of matching bits. *)
Theorem orphan_verdict_exact headers cached t time bits strict :
  heights_fit headers → from_bitcoin_core_headers_with_horizon_time headers cached = Ok t →
  (∀ h, strict = Some h → in_i32 h) →
  let rows := filter is_epoch_row headers in
  let fits h := strict = Some h ∧ 227931 ≤ h ∧ height_fits_time t time h ∧ epoch_bits rows h bits in
  match (classify_btc_orphan_with t time bits strict).1 with
  | VStrict => ∃ h, fits h
  | VWeak =>
      (¬ ∃ h, fits h) ∧ time ≤ horizon_time t ∧
      ∃ e r, selects t time e ∧ r ∈ rows ∧ eh_bits r = bits ∧
             (eh_height r = e - 2016 ∨ eh_height r = e ∨ eh_height r = e + 2016)
  | VExcluded => ¬ ∃ h, fits h
  | VPending => (¬ ∃ h, fits h) ∧
      (horizon_time t < time ∨ ∃ h, strict = Some h ∧ covered_max_height t + 2016 ≤ h)
  end.
Proof.
  intros Hf Hc Hs rows fits. pose proof (table_built _ _ _ Hf Hc) as Ht. fold rows in Ht.
  unfold classify_btc_orphan_with. set (input := mkLineageInput _ _ _ _ _).
  assert (∀ h, strict_height input = Some h ↔ strict = Some h ∧ 227931 ≤ h) as Hsh.
  { intros h. unfold input. simpl. rewrite opt_filter_Some, Z.leb_le. done. }
  assert (lineage_meaning t rows input (bitcoin_lineage input t)) as Hm.
  { apply lineage_meaning_holds; [done|done|done|]. intros h [? _]%Hsh. auto. }
  assert ((∃ h, fits h) → bitcoin_lineage input t = Bitcoin StrictHeight) as Hfit.
  { intros (h & Hh & Hge & Hft & Hb). unfold bitcoin_lineage.
    rewrite (proj2 (Hsh h)) by done. simpl. unfold strict_height_lineage. cbv zeta. simpl.
    rewrite (proj2 (strict_consistent Ht time h)) by done.
    rewrite (proj2 (expected_Found Ht h bits (Hs h Hh))).
    - by rewrite Z.eqb_refl.
    - split; [|done]. by eapply epoch_bits_covered. }
  destruct (bitcoin_lineage input t) as [[| | |]|r|r] eqn:El; simpl in *.
  - destruct Hm as (p & Hp & _). done.
  - destruct Hm as (_ & h & [? ?]%Hsh & ? & ?). exists h. done.
  - destruct Hm as (_ & ? & ?). split; [by intros ?%Hfit|]. done.
  - destruct Hm as (_ & ? & _). split; [by intros ?%Hfit|]. by left.
  - by intros ?%Hfit.
  - split; [by intros ?%Hfit|]. destruct Hm as (_ & [(p & Hp & _)|[(_ & h & [? ?]%Hsh & _ & ?)|(_ & ? & _)]]).
    + done.
    + right. exists h. split; [done|lia].
    + by left.
Qed.

(** Hathor's coinbase height is only taken from a complete parent transaction:
    a height is returned exactly when the stored bytes decode to a coinbase
    transaction whose first input carries the stored script, and the script pushes a
    height past BIP34 activation. *)
Theorem hathor_height_bound_to_transaction `{BitcoinLib} script tx_bytes h :
  strict_bip34_height_from_evidence "hathor" script tx_bytes = Some h ↔
  ∃ raw tx input, tx_bytes = Some raw ∧ deserialize_tx raw = Some tx ∧ is_coinbase tx = true ∧
    tx_input tx !! 0%nat = Some input ∧ script_sig input = script ∧
    parse_bip34_height script = Some h ∧ 227931 ≤ h.
Proof.
  unfold strict_bip34_height_from_evidence.
  replace (is_strict_bip34_chain "hathor") with true by reflexivity. simpl negb. cbv iota.
  rewrite bool_decide_eq_true_2 by done. unfold BIP34_HEIGHT. split.
  - intros ([] & Htx & [Hh Hge]%opt_filter_Some)%bind_Some.
    apply bind_Some in Htx as (raw & -> & Htx).
    apply bind_Some in Htx as (tx & Htx & Hc).
    destruct (is_coinbase tx) eqn:Ec; [|done]. simpl in Hc. case_bool_decide as Hi; [|done].
    apply fmap_Some in Hi as (input & Hi & ->). exists raw, tx, input.
    do 6 (split; [done|]). lia.
  - intros (raw & tx & input & -> & Htx & Hc & Hi & <- & Hh & Hge).
    apply bind_Some. exists (). simpl. rewrite Htx. simpl. rewrite Hc, Hi. simpl.
    rewrite bool_decide_eq_true_2 by done. split; [done|].
    apply opt_filter_Some. split; [done|lia].
Qed.

(** ** Witnesses *)

Lemma lineage_verdict_meaning_witness :
  ∃ p, Some 2500 = Some p ∧ epoch_bits (filter is_epoch_row ex_headers) (p + 1) 453062093.
Proof.
  exact (lineage_verdict_meaning ex_headers 0 ex_table
    (mkLineageInput 453062093 1100 true (Some 2500) None) ex_headers_fit ex_table_built eq_refl
    ltac:(intros p [= <-]; unfold in_i32; lia) ltac:(intros h; discriminate)).
Defined.

Lemma placed_prev_rule_witness :
  bitcoin_lineage (mkLineageInput 1 1100 true (Some 2500) None) ex_table ≠ Bitcoin PlacedPrev.
Proof.
  apply (proj2 (proj2 (placed_prev_rule ex_headers 0 ex_table 1 1100 None 2500 ex_headers_fit
    ex_table_built ltac:(vm_compute; split; discriminate)))). reflexivity.
Defined.

Lemma orphan_verdict_exact_witness :
  classify_btc_orphan_with ex_table 1100 453062093 None = (VWeak, "timestamp_epoch_nbits_match"%string)
  ∧ 1100 ≤ horizon_time ex_table.
Proof.
  split; [vm_compute; reflexivity|].
  exact (proj1 (proj2 (orphan_verdict_exact ex_headers 0 ex_table 1100 453062093 None
    ex_headers_fit ex_table_built ltac:(intros h; discriminate)))).
Defined.
