(* ===== verification/Classifier.v ===== *)
(** * Classifying a Bitcoin parent header against Core

    Models [crates/mmm-bitcoin-core/src/parent_classifier/{mod,core}.rs] with the
    error kinds of [bitcoin_rpc.rs] and [availability.rs]: the header source
    behind a class, the verdict constructors, the canonical / stale / inferred
    stale / invalid / unknown decision, the median-time-past window and the
    readiness checks. Bitcoin Core and the clock are the abstract world. *)

From stdpp Require Import sorting.
From S2P Require Import Prelude BitcoinLib Effects Errors.

(** ** Error classes *)

Definition core_rpc_error_code (e : anyhow) : option Z := fst <$> core_rpc_error e.

(** [str::contains]. *)
Fixpoint str_contains (s needle : string) : bool :=
  String.prefix needle s ||
  match s with
  | EmptyString => false
  | String _ s => str_contains s needle
  end.

Definition is_not_found (e : anyhow) : bool := bool_decide (core_rpc_error_code e = Some (-5)).
Definition is_block_height_out_of_range (e : anyhow) : bool :=
  bool_decide (core_rpc_error_code e = Some (-8)).
Definition is_block_body_pruned (e : anyhow) : bool :=
  match core_rpc_error e with
  | Some (code, message) => (code =? -1) && str_contains message "pruned data"
  | None => false
  end.
Definition is_retryable_capture_error (e : anyhow) : bool :=
  negb (is_block_body_pruned e) &&
  match core_rpc_error_code e with
  | Some code => (code =? -1) || (code =? -8)
  | None => false
  end.

(** ** Data *)

Definition MTP_WINDOW : nat := 11.
Definition MAX_TIP_AGE_SECS : Z := 86400.
Definition TIME_BELOW_MTP : string := "time_below_mtp".

Inductive HeightSource := HsBitcoinCore | HsPrevCanonical | HsPrevStale | HsInvalidBlockCatalog.
Inductive BlockKind := BkCanonical | BkStale | BkInvalidBlock | BkUnknown.
Inductive ParentKind := PkCanonical | PkStale | PkInvalidBlock | PkNear | PkUnknown.

#[global] Instance HeightSource_eq_dec : EqDecision HeightSource.
Proof. solve_decision. Defined.
#[global] Instance BlockKind_eq_dec : EqDecision BlockKind.
Proof. solve_decision. Defined.
#[global] Instance ParentKind_eq_dec : EqDecision ParentKind.
Proof. solve_decision. Defined.

Definition HeightSource_as_db_str (s : HeightSource) : string :=
  match s with
  | HsBitcoinCore => "bitcoin-core"
  | HsPrevCanonical => "prev-canonical"
  | HsPrevStale => "prev-stale"
  | HsInvalidBlockCatalog => "invalid-block-catalog"
  end.

Definition HeightSource_from_db_str (v : string) : result anyhow HeightSource :=
  if bool_decide (v = "bitcoin-core"%string) then Ok HsBitcoinCore else
  if bool_decide (v = "prev-canonical"%string) then Ok HsPrevCanonical else
  if bool_decide (v = "prev-stale"%string) then Ok HsPrevStale else
  if bool_decide (v = "invalid-block-catalog"%string) then Ok HsInvalidBlockCatalog else
  Err (Other "unknown btc_height_source").

Definition BlockKind_as_db_str (k : BlockKind) : string :=
  match k with
  | BkCanonical => "canonical"
  | BkStale => "stale"
  | BkInvalidBlock => "invalid_block"
  | BkUnknown => "unknown"
  end.

Definition BlockKind_from_db_str (v : string) : result anyhow BlockKind :=
  if bool_decide (v = "canonical"%string) then Ok BkCanonical else
  if bool_decide (v = "stale"%string) then Ok BkStale else
  if bool_decide (v = "invalid_block"%string) then Ok BkInvalidBlock else
  if bool_decide (v = "unknown"%string) then Ok BkUnknown else
  Err (Other "unknown block.kind").

Record BitcoinCoreHeaderStatus := mkHeaderStatus { confirmations : Z; hs_height : Z }.

Record BitcoinCoreChainStatus := mkChainStatus {
  cs_is_mainnet : bool;
  cs_blocks : Z;
  cs_headers : Z;
  cs_initial_block_download : bool;
  cs_median_time : Z;
}.

Definition is_synced_tip (s : BitcoinCoreChainStatus) : bool :=
  negb (cs_initial_block_download s) && (cs_blocks s =? cs_headers s).

Record BitcoinCoreBlockCoinbase := mkBlockCoinbase {
  bc_txid : bytes;
  bc_script : bytes;
  bc_outputs : bytes;
}.

Record SyncedTip := mkSyncedTip { st_is_mainnet : bool; st_height : Z; st_fresh : bool }.

Record CoreHeader := mkCoreHeader {
  ch_height : Z;
  ch_hash : bytes;
  ch_nbits : Z;
  ch_header_time : Z;
}.

Record KnownBlockContext := mkKnownBlock {
  kb_kind : BlockKind;
  kb_btc_height : option Z;
  kb_btc_height_source : option HeightSource;
  kb_canonical_competitor_hash : option bytes;
  kb_core_attested : bool;
}.

Record ParentPreflight := mkPreflight { known_prev : option KnownBlockContext }.

Record ClassifiedHeader := mkClassifiedHeader {
  cl_hash : bytes;
  cl_prev_hash : bytes;
  cl_header : Header;
  cl_height : Z;
  cl_coinbase : option BitcoinCoreBlockCoinbase;
  coinbase_unavailable : bool;
}.

Record ParentClassification := mkParentClassification {
  kind : ParentKind;
  pc_btc_height : option Z;
  height_source : option HeightSource;
  prev_hash : bytes;
  canonical_predecessor_header : option ClassifiedHeader;
  canonical_competitor_header : option ClassifiedHeader;
  canonical_competitor_hash : option bytes;
  coinbase : option BitcoinCoreBlockCoinbase;
  difficulty_epoch_ok : option bool;
  rejection_reason : option string;
  live_observed : bool;
  core_attested : bool;
  core_absence_attested : bool;
  incomplete : bool;
}.

Record ClassificationProof := mkClassificationProof {
  cp_parent_kind : option ParentKind;
  cp_parent_height : option Z;
  cp_difficulty_epoch_ok : option bool;
  cp_provisional : bool;
}.

(** ** Verdicts *)

Definition unknown (header : Header) : ParentClassification :=
  {| kind := PkUnknown; pc_btc_height := None; height_source := None;
     prev_hash := prev_blockhash header;
     canonical_predecessor_header := None; canonical_competitor_header := None;
     canonical_competitor_hash := None; coinbase := None; difficulty_epoch_ok := None;
     rejection_reason := None; live_observed := false; core_attested := false;
     core_absence_attested := false; incomplete := false |}.

(** [Self { incomplete, ..v }]. *)
Definition set_incomplete (b : bool) (v : ParentClassification) : ParentClassification :=
  {| kind := kind v; pc_btc_height := pc_btc_height v; height_source := height_source v;
     prev_hash := prev_hash v;
     canonical_predecessor_header := canonical_predecessor_header v;
     canonical_competitor_header := canonical_competitor_header v;
     canonical_competitor_hash := canonical_competitor_hash v; coinbase := coinbase v;
     difficulty_epoch_ok := difficulty_epoch_ok v; rejection_reason := rejection_reason v;
     live_observed := live_observed v; core_attested := core_attested v;
     core_absence_attested := core_absence_attested v; incomplete := b |}.

Definition incomplete_unknown (header : Header) : ParentClassification :=
  set_incomplete true (unknown header).

Definition core_absence_unknown (header : Header) : ParentClassification :=
  {| kind := PkUnknown; pc_btc_height := None; height_source := None;
     prev_hash := prev_blockhash header;
     canonical_predecessor_header := None; canonical_competitor_header := None;
     canonical_competitor_hash := None; coinbase := None; difficulty_epoch_ok := None;
     rejection_reason := None; live_observed := false; core_attested := false;
     core_absence_attested := true; incomplete := false |}.

Definition invalid_block (header : Header) (height : Z) (hs : HeightSource)
    (epoch_ok : option bool) (reason : string) : ParentClassification :=
  {| kind := PkInvalidBlock; pc_btc_height := Some height; height_source := Some hs;
     prev_hash := prev_blockhash header;
     canonical_predecessor_header := None; canonical_competitor_header := None;
     canonical_competitor_hash := None; coinbase := None; difficulty_epoch_ok := epoch_ok;
     rejection_reason := Some reason; live_observed := false; core_attested := false;
     core_absence_attested := false; incomplete := false |}.

Definition to_proof (v : ParentClassification) : ClassificationProof :=
  {| cp_parent_kind := Some (kind v);
     cp_parent_height := pc_btc_height v;
     cp_difficulty_epoch_ok := difficulty_epoch_ok v;
     cp_provisional := incomplete v || core_absence_attested v |}.

Definition bits_match_expected (header : Header) (expected : Z) : bool :=
  hdr_bits header =? expected.

Definition classify_core_canonical_header (header : Header) (height : Z)
    (cb : option BitcoinCoreBlockCoinbase) : ParentClassification :=
  {| kind := PkCanonical; pc_btc_height := Some height; height_source := Some HsBitcoinCore;
     prev_hash := prev_blockhash header;
     canonical_predecessor_header := None; canonical_competitor_header := None;
     canonical_competitor_hash := None; coinbase := cb; difficulty_epoch_ok := Some true;
     rejection_reason := None; live_observed := true; core_attested := true;
     core_absence_attested := false; incomplete := false |}.

(** [None] where the source has [unreachable!]. *)
Definition inferred_height_source (prev_kind : BlockKind) : option HeightSource :=
  match prev_kind with
  | BkCanonical => Some HsPrevCanonical
  | BkStale => Some HsPrevStale
  | BkInvalidBlock | BkUnknown => None
  end.

Definition classify_inferred_stale_with_competitor (header : Header) (height : Z)
    (predecessor : option ClassifiedHeader) (prev_kind : BlockKind)
    (competitor : option ClassifiedHeader) : ParentClassification :=
  match competitor with
  | None => unknown header
  | Some competitor =>
      if negb (bits_match_expected header (hdr_bits (cl_header competitor))) then unknown header else
      {| kind := PkStale; pc_btc_height := Some height;
         height_source := inferred_height_source prev_kind;
         prev_hash := prev_blockhash header;
         canonical_predecessor_header := predecessor;
         canonical_competitor_header := Some competitor;
         canonical_competitor_hash := Some (cl_hash competitor);
         coinbase := None; difficulty_epoch_ok := Some true; rejection_reason := None;
         live_observed := false; core_attested := false; core_absence_attested := false;
         incomplete := coinbase_unavailable competitor ||
                       match predecessor with
                       | Some p => coinbase_unavailable p | None => false end |}
  end.

Definition core_height_to_i32 (height : Z) : option Z := checked_i32 height.

Definition tip_is_fresh (median_time now_secs : Z) : bool :=
  saturating_sub_i64 now_secs median_time <=? MAX_TIP_AGE_SECS.

Inductive CoinbaseFetch :=
| CfFound (c : BitcoinCoreBlockCoinbase) | CfMissing | CfUnavailable.
Inductive MtpCheck := MtpPasses (b : bool) | MtpAncestorMissing | MtpUnavailable.
Inductive Competitor := CoFound (h : ClassifiedHeader) | CoAbsent | CoUnavailable.

Definition coinbase_fetch (r : result anyhow BitcoinCoreBlockCoinbase) : CoinbaseFetch :=
  match r with
  | Ok c => CfFound c
  | Err e => if is_not_found e || is_block_body_pruned e then CfMissing else CfUnavailable
  end.

Definition live_coinbase_fetch (r : result anyhow BitcoinCoreBlockCoinbase) (live : bool)
    : result anyhow CoinbaseFetch :=
  match r with
  | Err e =>
      if live && negb (is_not_found e) && negb (is_block_body_pruned e) then Err e
      else Ok (coinbase_fetch r)
  | Ok _ => Ok (coinbase_fetch r)
  end.

(** The [(Option<_>, bool)] both callers build from a fetched coinbase. *)
Definition coinbase_pair (f : CoinbaseFetch) : option BitcoinCoreBlockCoinbase * bool :=
  match f with
  | CfFound c => (Some c, false)
  | CfMissing => (None, false)
  | CfUnavailable => (None, true)
  end.

Section with_lib.
Context `{BitcoinLib}.

Definition classify_core_stale_header (header : Header) (height : Z)
    (competitor : option ClassifiedHeader) (cb : option BitcoinCoreBlockCoinbase)
    : ParentClassification :=
  match competitor with
  | None => unknown header
  | Some competitor =>
      if bool_decide (cl_hash competitor = block_hash header) then unknown header else
      {| kind := PkStale; pc_btc_height := Some height; height_source := Some HsBitcoinCore;
         prev_hash := prev_blockhash header;
         canonical_predecessor_header := None;
         canonical_competitor_header := Some competitor;
         canonical_competitor_hash := Some (cl_hash competitor);
         coinbase := cb; difficulty_epoch_ok := Some true; rejection_reason := None;
         live_observed := true; core_attested := true; core_absence_attested := false;
         incomplete := coinbase_unavailable competitor |}
  end.

End with_lib.

(** ** The header source *)

(** The trait [CoreHeaderSource]. *)
Class CoreHeaderSource (W : Type) := {
  get_chain_status : stM W anyhow BitcoinCoreChainStatus;
  get_block_hash : Z → stM W anyhow bytes;
  get_header : bytes → Z → stM W anyhow ClassifiedHeader;
  get_block_header : bytes → stM W anyhow Header;
  get_header_verbose : bytes → stM W anyhow BitcoinCoreHeaderStatus;
  get_block_coinbase : bytes → stM W anyhow BitcoinCoreBlockCoinbase;
}.

(** [BitcoinCoreRpcClient]: the JSON-RPC calls and the live policy flag. *)
Class CoreRpcClient (W : Type) := {
  client_is_live : bool;
  client_get_chain_status : stM W anyhow BitcoinCoreChainStatus;
  client_get_block_hash : Z → stM W anyhow bytes;
  client_get_block_header : bytes → stM W anyhow Header;
  client_get_block_header_verbose : bytes → stM W anyhow BitcoinCoreHeaderStatus;
  client_get_block_coinbase : bytes → stM W anyhow BitcoinCoreBlockCoinbase;
}.

(** [now_unix_secs], the system clock. *)
Class Clock (W : Type) := now_unix_secs : stM W anyhow Z.

Definition get_header_impl `{CoreRpcClient W} (hash : bytes) (height : Z)
    : stM W anyhow ClassifiedHeader :=
  header ← client_get_block_header hash;
  cb ← attempt (client_get_block_coinbase hash);
  f ← lift (live_coinbase_fetch cb client_is_live);
  let '(coinbase, unavailable) := coinbase_pair f in
  mret {| cl_hash := hash;
          cl_prev_hash := prev_blockhash header;
          cl_header := header;
          cl_height := height;
          cl_coinbase := coinbase;
          coinbase_unavailable := unavailable |}.

(** [impl CoreHeaderSource for CoreRpcHeaderSource]. *)
Definition CoreRpcHeaderSource `{CoreRpcClient W} : CoreHeaderSource W := {|
  get_chain_status := client_get_chain_status;
  get_block_hash := client_get_block_hash;
  get_header := get_header_impl;
  get_block_header := client_get_block_header;
  get_header_verbose := client_get_block_header_verbose;
  get_block_coinbase := client_get_block_coinbase;
|}.

(** ** The classifier *)

Section classifier.
Context `{BitcoinLib} {W : Type} `{CoreHeaderSource W} `{Clock W}.
(** The field [live] of [BitcoinCoreParentClassifier]. *)
Context (live : bool).

Definition coreM : Type → Type := stM W anyhow.

Definition ready_tip : coreM SyncedTip :=
  status ← get_chain_status;
  _ ← guardM (cs_is_mainnet status) (Fault WrongNetwork);
  _ ← guardM (negb (cs_initial_block_download status)) (Unavailable UInitialBlockDownload);
  _ ← guardM (cs_blocks status =? cs_headers status) (Unavailable UHeaderLag);
  now ← now_unix_secs;
  _ ← guardM (tip_is_fresh (cs_median_time status) now) (Unavailable UStaleTip);
  mret {| st_is_mainnet := true; st_height := cs_blocks status; st_fresh := true |}.

Definition synced_tip : coreM (option SyncedTip) :=
  status ← get_chain_status;
  if negb (is_synced_tip status) then mret None else
  now ← now_unix_secs;
  mret (Some {| st_is_mainnet := cs_is_mainnet status;
                st_height := cs_blocks status;
                st_fresh := tip_is_fresh (cs_median_time status) now |}).

Definition canonical_header (height : Z) : coreM CoreHeader :=
  _ ← guardM (0 <=? height) (Other "Bitcoin Core header height is negative");
  hash ← get_block_hash height;
  header ← get_block_header hash;
  mret {| ch_height := height; ch_hash := hash;
          ch_nbits := hdr_bits header; ch_header_time := hdr_time header |}.

Definition fetch_coinbase (hash : bytes) : coreM CoinbaseFetch :=
  r ← attempt (get_block_coinbase hash);
  lift (live_coinbase_fetch r live).

Definition fetch_competitor (height : Z) (fail_on_rpc_error : bool) : coreM Competitor :=
  if height <? 0 then mret CoAbsent else
  r ← attempt (get_block_hash height);
  match r with
  | Err e =>
      if is_block_height_out_of_range e || is_not_found e then mret CoAbsent
      else if fail_on_rpc_error then throw (Context "Bitcoin Core competitor hash fetch failed" e)
      else mret CoUnavailable
  | Ok hash =>
      r ← attempt (get_header hash height);
      match r with
      | Ok h => mret (CoFound h)
      | Err e =>
          if is_not_found e then mret CoAbsent
          else if fail_on_rpc_error then
            throw (Context "Bitcoin Core competitor header fetch failed" e)
          else mret CoUnavailable
      end
  end.

(** The loop of [median_time_past_passes]: [n] more ancestors from [expected_hash].
    [inl] is an early return, [inr] the times in fetch order. *)
Fixpoint mtp_loop (n : nat) (expected_hash : bytes) (fail_on_rpc_error : bool)
    : coreM (MtpCheck + list Z) :=
  match n with
  | O => mret (inr [])
  | S n =>
      r ← attempt (get_block_header expected_hash);
      match r with
      | Ok header =>
          if bool_decide (block_hash header = expected_hash) then
            rest ← mtp_loop n (prev_blockhash header) fail_on_rpc_error;
            match rest with
            | inl check => mret (inl check)
            | inr times => mret (inr (hdr_time header :: times))
            end
          else throw (Other "Bitcoin Core returned another MTP ancestor than requested")
      | Err e =>
          if is_not_found e then mret (inl MtpAncestorMissing)
          else if fail_on_rpc_error then throw (Context "Bitcoin Core MTP ancestor fetch failed" e)
          else mret (inl MtpUnavailable)
      end
  end.

Definition median_time_past_passes (candidate : Header) (fail_on_rpc_error : bool)
    : coreM MtpCheck :=
  r ← mtp_loop MTP_WINDOW (prev_blockhash candidate) fail_on_rpc_error;
  match r with
  | inl check => mret check
  | inr times =>
      let times := merge_sort Z.le times in
      mret (MtpPasses (default 0 (times !! (MTP_WINDOW / 2)%nat) <? hdr_time candidate))
  end.

Definition classify_inferred_stale (header : Header) (prev_height : Z)
    (predecessor : option ClassifiedHeader) (prev_kind : BlockKind) (fail_on_rpc_error : bool)
    : coreM ParentClassification :=
  match checked_add_i32 prev_height 1 with
  | None => mret (core_absence_unknown header)
  | Some height =>
      c ← fetch_competitor height fail_on_rpc_error;
      match c with
      | CoAbsent => mret (core_absence_unknown header)
      | CoUnavailable => mret (incomplete_unknown header)
      | CoFound competitor =>
          if negb (bits_match_expected header (hdr_bits (cl_header competitor)))
          then mret (unknown header)
          else
          check ← median_time_past_passes header fail_on_rpc_error;
          match check with
          | MtpPasses true =>
              mret (classify_inferred_stale_with_competitor header height predecessor prev_kind
                      (Some competitor))
          | MtpPasses false =>
              match inferred_height_source prev_kind with
              | Some hs => mret (invalid_block header height hs (Some true) TIME_BELOW_MTP)
              | None => throw (Other "unreachable")
              end
          | MtpAncestorMissing => mret (unknown header)
          | MtpUnavailable => mret (incomplete_unknown header)
          end
      end
  end.

Definition classify_invalid_block_child (header : Header) (prev_height : Z)
    (fail_on_rpc_error : bool) : coreM ParentClassification :=
  match checked_add_i32 prev_height 1 with
  | None => mret (core_absence_unknown header)
  | Some height =>
      c ← fetch_competitor height fail_on_rpc_error;
      mret match c with
           | CoFound competitor =>
               if negb (bits_match_expected header (hdr_bits (cl_header competitor)))
               then unknown header else core_absence_unknown header
           | CoAbsent => core_absence_unknown header
           | CoUnavailable => incomplete_unknown header
           end
  end.

(** The part of [classify_core_unknown] after the read model did not know the prev. *)
Definition classify_by_core_prev (header : Header) (fail_on_rpc_error : bool)
    : coreM ParentClassification :=
  r ← attempt (get_header_verbose (prev_blockhash header));
  match r with
  | Ok v =>
      if negb (0 <=? confirmations v) then mret (core_absence_unknown header) else
      match core_height_to_i32 (hs_height v) with
      | None =>
          if live then throw (FaultContext InvalidResponse (Other "TryFromIntError"))
          else mret (core_absence_unknown header)
      | Some prev_height =>
          r ← attempt (get_header (prev_blockhash header) prev_height);
          match r with
          | Ok p =>
              classify_inferred_stale header prev_height (Some p) BkCanonical fail_on_rpc_error
          | Err e =>
              if fail_on_rpc_error then
                throw (Context "Bitcoin Core predecessor header fetch failed" e)
              else mret (incomplete_unknown header)
          end
      end
  | Err e =>
      if is_not_found e then mret (core_absence_unknown header)
      else if fail_on_rpc_error then throw (Context "Bitcoin Core predecessor lookup failed" e)
      else mret (incomplete_unknown header)
  end.

Definition classify_core_unknown (header : Header) (preflight : ParentPreflight)
    (fail_on_rpc_error : bool) : coreM ParentClassification :=
  match known_prev preflight with
  | Some kp =>
      match kb_btc_height kp, kb_kind kp with
      | Some prev_height, BkCanonical | Some prev_height, BkStale =>
          classify_inferred_stale header prev_height None (kb_kind kp) fail_on_rpc_error
      | Some prev_height, BkInvalidBlock =>
          classify_invalid_block_child header prev_height fail_on_rpc_error
      | Some _, BkUnknown | None, _ => classify_by_core_prev header fail_on_rpc_error
      end
  | None => classify_by_core_prev header fail_on_rpc_error
  end.

(** The branch of a header Core has not got. *)
Definition classify_absent (header : Header) (preflight : coreM ParentPreflight)
    (fail_on_rpc_error : bool) : coreM ParentClassification :=
  _ ← (if live then (_ ← ready_tip; mret ()) else mret ());
  preflight ← preflight;
  verdict ← classify_core_unknown header preflight fail_on_rpc_error;
  _ ← (if live && core_absence_attested verdict then (_ ← ready_tip; mret ()) else mret ());
  mret verdict.

(** The branch of a header Core has indexed. *)
Definition classify_indexed (header : Header) (verbose : BitcoinCoreHeaderStatus)
    (fail_on_rpc_error : bool) : coreM ParentClassification :=
  match core_height_to_i32 (hs_height verbose) with
  | None =>
      if live then throw (FaultContext InvalidResponse (Other "TryFromIntError"))
      else mret (unknown header)
  | Some height =>
      f ← fetch_coinbase (block_hash header);
      let '(cb, unavailable) := coinbase_pair f in
      if 0 <=? confirmations verbose then
        mret (set_incomplete unavailable (classify_core_canonical_header header height cb))
      else
      c ← fetch_competitor height fail_on_rpc_error;
      match c with
      | CoUnavailable => mret (incomplete_unknown header)
      | CoFound competitor =>
          let verdict := classify_core_stale_header header height (Some competitor) cb in
          mret (set_incomplete (incomplete verdict || unavailable) verdict)
      | CoAbsent =>
          let verdict := classify_core_stale_header header height None cb in
          mret (set_incomplete (incomplete verdict || unavailable) verdict)
      end
  end.

Definition classify_parent_deferred_with_policy (header : Header)
    (preflight : coreM ParentPreflight) (fail_on_rpc_error : bool) : coreM ParentClassification :=
  let fail_on_rpc_error := fail_on_rpc_error || live in
  r ← attempt (get_header_verbose (block_hash header));
  match r with
  | Ok verbose => classify_indexed header verbose fail_on_rpc_error
  | Err e =>
      if is_not_found e then classify_absent header preflight fail_on_rpc_error
      else if fail_on_rpc_error then
        throw (Context "Bitcoin Core parent-header lookup failed" e)
      else mret (incomplete_unknown header)
  end.

Definition classify_parent_deferred (header : Header) (preflight : coreM ParentPreflight) :=
  classify_parent_deferred_with_policy header preflight false.
Definition classify_parent_deferred_strict (header : Header) (preflight : coreM ParentPreflight) :=
  classify_parent_deferred_with_policy header preflight true.
Definition classify_parent (header : Header) (preflight : ParentPreflight) :=
  classify_parent_deferred_with_policy header (mret preflight) false.
Definition classify_parent_strict (header : Header) (preflight : ParentPreflight) :=
  classify_parent_deferred_with_policy header (mret preflight) true.

End classifier.

(** ** The median-time-past window *)

Lemma sorted_count_lt (s : list Z) i m x :
  StronglySorted Z.le s → s !! i = Some m →
  m < x ↔ (S i ≤ length (filter (λ t, (t < x)%Z) s))%nat.
Proof.
  intros Hs. revert i. induction Hs as [|a s Hs IH Ha]; intros i Hi; [by rewrite lookup_nil in Hi|].
  rewrite Forall_forall in Ha. rewrite filter_cons.
  assert (a ≤ m) as Ham.
  { destruct i as [|i]; simplify_eq/=; [done|]. apply Ha. by eapply list_elem_of_lookup_2. }
  case_decide as Hax.
  - destruct i as [|i]; simplify_eq/=; [lia|]. rewrite (IH i Hi). lia.
  - assert (filter (λ t, t < x) s = []) as ->.
    { destruct (filter (λ t, t < x) s) as [|b l] eqn:E; [done|].
      assert (b ∈ filter (λ t, t < x) s) as Hb by (rewrite E; left).
      apply list_elem_of_filter in Hb as [Hbx Hb]. specialize (Ha b Hb). lia. }
    simpl. lia.
Qed.

Section mtp.
Context `{BitcoinLib} {W : Type} `{CoreHeaderSource W}.

(** Core returned [h] for [hash] at some point of the run. *)
Definition core_header (hash : bytes) (h : Header) : Prop :=
  ∃ w w', get_block_header hash w = (Ok h, w').

(** [anc] is a chain of ancestors Core returned, each one hash-linked, from [hash]. *)
Fixpoint linked (hash : bytes) (anc : list Header) : Prop :=
  match anc with
  | [] => True
  | a :: anc => core_header hash a ∧ block_hash a = hash ∧ linked (prev_blockhash a) anc
  end.

(** The median-time-past rule over the eleven linked ancestors of a header: at
    least six of them are older. *)
Definition above_mtp (candidate : Header) (anc : list Header) : Prop :=
  (6 ≤ length (filter (λ a, (hdr_time a < hdr_time candidate)%Z) anc))%nat.

Lemma mtp_loop_spec n hash strict w r w' :
  mtp_loop n hash strict w = (Ok r, w') →
  match r with
  | inr times => ∃ anc, length anc = n ∧ linked hash anc ∧ times = hdr_time <$> anc
  | inl check => (∀ b, check ≠ MtpPasses b) ∧ (strict = true → check = MtpAncestorMissing)
  end.
Proof.
  revert hash w r w'. induction n as [|n IH]; intros hash w r w' Hr; simpl in Hr.
  - st_inv. by exists [].
  - st_inv. destruct x as [h|e].
    + case_bool_decide as Hh; st_inv. apply IH in H2. destruct x; st_inv; [done|].
      destruct H2 as (anc & Hl & Hlink & ->). exists (h :: anc). simpl. split; [lia|].
      split; [|done]. split; [eexists _, _; eassumption|]. by split.
    + destruct (is_not_found e); st_inv; [done|]. destruct strict; by st_inv.
Qed.

Lemma filter_fmap_length {A B} (f : A → B) (P : B → Prop) `{!∀ x, Decision (P x)} l :
  length (filter P (f <$> l)) = length (filter (λ a, P (f a)) l).
Proof.
  induction l as [|a l IH]; [done|]. rewrite fmap_cons, !filter_cons. case_decide; simpl; auto.
Qed.

Lemma mtp_passes_spec candidate strict w r w' :
  median_time_past_passes candidate strict w = (Ok r, w') →
  match r with
  | MtpPasses b => ∃ anc, length anc = 11%nat ∧ linked (prev_blockhash candidate) anc ∧
                     (b = true ↔ above_mtp candidate anc)
  | MtpAncestorMissing => True
  | MtpUnavailable => strict = false
  end.
Proof.
  unfold median_time_past_passes. intros Hr. st_inv. apply mtp_loop_spec in H1. destruct x as [check|times]; st_inv.
  - destruct H1 as [Hp Hs]. destruct check; [by edestruct Hp|done|]. destruct strict; [|done].
    by specialize (Hs eq_refl).
  - destruct H1 as (anc & Hl & Hlink & ->). exists anc. split; [done|]. split; [done|].
    set (times := hdr_time <$> anc).
    destruct (lookup_lt_is_Some_2 (merge_sort Z.le times) 5) as [m Hm].
    { rewrite merge_sort_Permutation. unfold times. rewrite length_fmap, Hl. unfold MTP_WINDOW. lia. }
    change (MTP_WINDOW / 2)%nat with 5%nat. rewrite Hm. simpl. rewrite Z.ltb_lt.
    rewrite (sorted_count_lt (merge_sort Z.le times) 5 m (hdr_time candidate)); [|..|done].
    2: { apply StronglySorted_merge_sort; apply _. }
    unfold above_mtp. rewrite (merge_sort_Permutation Z.le times). unfold times.
    by rewrite filter_fmap_length.
Qed.

End mtp.

(** ** What each verdict rests on *)

Section meaning.
Context `{BitcoinLib} {W : Type} `{CoreHeaderSource W} `{Clock W}.

(** Core answered [r] when asked for the header of [hash]. *)
Definition core_status (hash : bytes) (r : result anyhow BitcoinCoreHeaderStatus) : Prop :=
  ∃ w w', get_header_verbose hash w = (r, w').

(** Core's block at [height], with its header. *)
Definition core_competitor (height : Z) (c : ClassifiedHeader) : Prop :=
  0 ≤ height ∧ ∃ hash w1 w2 w3 w4, get_block_hash height w1 = (Ok hash, w2) ∧
    get_header hash height w3 = (Ok c, w4).

(** The evidence for a sibling of Core's block at [height]: that block, its bits, and
    the eleven linked ancestors of the header. *)
Definition sibling_evidence (header : Header) (height : Z) (c : ClassifiedHeader)
    (anc : list Header) : Prop :=
  core_competitor height c ∧ hdr_bits header = hdr_bits (cl_header c) ∧
  length anc = 11%nat ∧ linked (prev_blockhash header) anc.

(** A verdict on a header Core has not got. *)
Definition absent_meaning (header : Header) (v : ParentClassification) : Prop :=
  core_attested v = false ∧ prev_hash v = prev_blockhash header ∧
  match kind v with
  | PkStale =>
      core_absence_attested v = false ∧
      ∃ height c anc, pc_btc_height v = Some height ∧ canonical_competitor_header v = Some c ∧
        canonical_competitor_hash v = Some (cl_hash c) ∧
        sibling_evidence header height c anc ∧ above_mtp header anc
  | PkInvalidBlock =>
      core_absence_attested v = false ∧ rejection_reason v = Some TIME_BELOW_MTP ∧
      ∃ height c anc, pc_btc_height v = Some height ∧
        sibling_evidence header height c anc ∧ ¬ above_mtp header anc
  | PkUnknown => pc_btc_height v = None ∧ (core_absence_attested v = true → incomplete v = false)
  | PkCanonical | PkNear => False
  end.

Definition indexed_meaning (header : Header) (st : BitcoinCoreHeaderStatus)
    (v : ParentClassification) : Prop :=
  core_absence_attested v = false ∧ prev_hash v = prev_blockhash header ∧
  match kind v with
  | PkCanonical => core_attested v = true ∧ 0 ≤ confirmations st ∧
      pc_btc_height v = Some (hs_height st) ∧ in_i32 (hs_height st)
  | PkStale => core_attested v = true ∧ confirmations st < 0 ∧
      pc_btc_height v = Some (hs_height st) ∧
      ∃ c, canonical_competitor_header v = Some c ∧ canonical_competitor_hash v = Some (cl_hash c) ∧
           core_competitor (hs_height st) c ∧ cl_hash c ≠ block_hash header
  | PkUnknown => core_attested v = false ∧ pc_btc_height v = None
  | PkInvalidBlock | PkNear => False
  end.

Lemma fetch_competitor_spec height strict w c w' :
  fetch_competitor height strict w = (Ok c, w') →
  match c with
  | CoFound h => core_competitor height h
  | CoAbsent => True
  | CoUnavailable => strict = false
  end.
Proof.
  unfold fetch_competitor. intros Hr. destruct (height <? 0) eqn:E; st_inv; [done|].
  destruct x as [hash|e]; st_inv.
  - destruct x as [h|e]; st_inv.
    + split; [lia|]. eexists hash, _, _, _, _. eauto.
    + destruct (is_not_found e); st_inv; [done|]. destruct strict; by st_inv.
  - destruct (_ || _); st_inv; [done|]. destruct strict; by st_inv.
Qed.

Lemma inferred_spec header ph pred pk strict w v w' :
  (pk = BkCanonical ∨ pk = BkStale) →
  classify_inferred_stale header ph pred pk strict w = (Ok v, w') → absent_meaning header v.
Proof.
  intros Hpk. unfold classify_inferred_stale.
  destruct (checked_add_i32 ph 1) as [height|]; intros Hr; st_inv; [|done].
  match goal with M : fetch_competitor _ _ _ = _ |- _ => apply fetch_competitor_spec in M as Hcomp end.
  destruct x as [c| |]; st_inv; [|done|done].
  destruct (bits_match_expected header (hdr_bits (cl_header c))) eqn:Eb; simpl in *; st_inv; [|done].
  pose proof Eb as Eb'. unfold bits_match_expected in Eb'. apply Z.eqb_eq in Eb'.
  match goal with M : median_time_past_passes _ _ _ = _ |- _ => apply mtp_passes_spec in M as Hm end.
  destruct x as [b| |]; st_inv; [|done|done]. destruct Hm as (anc & Hl & Hlink & Hb). destruct b; st_inv.
  - unfold classify_inferred_stale_with_competitor. rewrite Eb. simpl.
    split; [done|]. split; [done|]. split; [done|]. exists height, c, anc. simpl. split_and!; try done.
    by apply Hb.
  - destruct Hpk as [-> | ->]; simpl in *; st_inv;
    (split; [done|]; split; [done|]; simpl; split; [done|]; split; [done|];
     exists height, c, anc; split_and!; try done; intros Ha; by apply Hb in Ha).
Qed.

Lemma invalid_child_spec header ph strict w v w' :
  classify_invalid_block_child header ph strict w = (Ok v, w') → absent_meaning header v.
Proof.
  unfold classify_invalid_block_child.
  destruct (checked_add_i32 ph 1) as [height|]; intros Hr; st_inv; [|done].
  destruct x as [c| |]; try done. by destruct (negb _).
Qed.

Lemma by_core_prev_spec live header strict w v w' :
  classify_by_core_prev live header strict w = (Ok v, w') → absent_meaning header v.
Proof.
  unfold classify_by_core_prev. intros Hr. st_inv. destruct x as [st|e].
  - destruct (0 <=? confirmations st) eqn:E; simpl in *; st_inv; [|done].
    destruct (core_height_to_i32 (hs_height st)) as [ph|]; [st_inv|destruct live; by st_inv].
    destruct x as [p|e]; [eapply inferred_spec; [|eassumption]; by left|]. destruct strict; by st_inv.
  - destruct (is_not_found e); st_inv; [done|]. destruct strict; by st_inv.
Qed.

Lemma core_unknown_spec live header pre strict w v w' :
  classify_core_unknown live header pre strict w = (Ok v, w') → absent_meaning header v.
Proof.
  unfold classify_core_unknown.
  destruct (known_prev pre) as [kp|]; [|by apply by_core_prev_spec].
  destruct (kb_btc_height kp) as [ph|]; [|by apply by_core_prev_spec].
  destruct (kb_kind kp); eauto using inferred_spec, invalid_child_spec, by_core_prev_spec.
Qed.

Lemma indexed_spec live header st strict w v w' :
  classify_indexed live header st strict w = (Ok v, w') → indexed_meaning header st v.
Proof.
  unfold classify_indexed, core_height_to_i32. intros Hr.
  destruct (checked_i32 (hs_height st)) as [height|] eqn:E.
  2: { destruct live; st_inv. done. }
  apply checked_i32_Some in E as [-> Hi]. st_inv.
  destruct (coinbase_pair x) as [cb un]. destruct (0 <=? confirmations st) eqn:Ec; st_inv.
  { split; [done|]. split; [done|]. simpl. split_and!; try done; lia. }
  match goal with M : fetch_competitor _ _ _ = (Ok ?y, _) |- _ =>
    apply fetch_competitor_spec in M as Hcomp; destruct y as [c| |] end; st_inv; try done.
  unfold classify_core_stale_header. case_bool_decide as Hh; [done|].
  split; [done|]. split; [done|]. simpl. split_and!; try done; [lia|]. exists c. done.
Qed.

End meaning.

(** ** Completeness of strict verdicts *)

Section complete.
Context `{BitcoinLib} {W : Type} `{CoreHeaderSource W} `{Clock W}.

(** Every header the source returns comes with its coinbase settled. *)
Definition source_settles : Prop :=
  ∀ hash height w c w', get_header hash height w = (Ok c, w') → coinbase_unavailable c = false.

(** Under the strict policy only a stale verdict may be provisional, and only
    because of a coinbase the source could not settle. *)
Definition stale_coinbase_only (v : ParentClassification) : Prop :=
  incomplete v = true → kind v = PkStale ∧ ¬ source_settles.

Lemma inferred_complete header ph pred pk w v w' :
  (∀ p, pred = Some p → source_settles → coinbase_unavailable p = false) →
  classify_inferred_stale header ph pred pk true w = (Ok v, w') → stale_coinbase_only v.
Proof.
  intros Hpred. unfold classify_inferred_stale.
  destruct (checked_add_i32 ph 1) as [height|]; intros Hr; st_inv; [|done].
  match goal with M : fetch_competitor _ _ _ = (Ok ?y, _) |- _ =>
    apply fetch_competitor_spec in M as Hcomp; destruct y as [c| |] end; st_inv; try done.
  destruct (negb _) eqn:Eb; st_inv; [done|].
  match goal with M : median_time_past_passes _ _ _ = (Ok ?y, _) |- _ =>
    apply mtp_passes_spec in M as Hm; destruct y as [[]| |] end; st_inv; try done.
  - unfold classify_inferred_stale_with_competitor. rewrite Eb. intros Hi. simpl in *.
    split; [done|]. intros Hs. destruct Hcomp as (_ & ? & ? & ? & ? & ? & _ & Hg).
    apply Hs in Hg. rewrite Hg in Hi. simpl in Hi. destruct pred as [p|]; [|done].
    by rewrite (Hpred p) in Hi.
  - destruct (inferred_height_source pk); st_inv. done.
Qed.

Lemma by_core_prev_complete live header w v w' :
  classify_by_core_prev live header true w = (Ok v, w') → stale_coinbase_only v.
Proof.
  unfold classify_by_core_prev. intros Hr. st_inv. destruct x as [st|e].
  - destruct (negb _); st_inv; [done|].
    destruct (core_height_to_i32 (hs_height st)) as [ph|]; [st_inv|destruct live; by st_inv].
    destruct x as [p|e]; st_inv. eapply inferred_complete; [|eassumption].
    intros p' [= <-] Hs. by eapply Hs.
  - destruct (is_not_found e); by st_inv.
Qed.

Lemma core_unknown_complete live header pre w v w' :
  classify_core_unknown live header pre true w = (Ok v, w') → stale_coinbase_only v.
Proof.
  assert (∀ ph v w', classify_invalid_block_child header ph true w = (Ok v, w') →
    stale_coinbase_only v) as Hinv.
  { intros ph v0 w0. unfold classify_invalid_block_child.
    destruct (checked_add_i32 ph 1) as [height|]; intros Hr; st_inv; [|done].
    match goal with M : fetch_competitor _ _ _ = (Ok ?y, _) |- _ =>
      apply fetch_competitor_spec in M as Hcomp; destruct y as [c| |] end; st_inv; try done.
    by destruct (negb _). }
  unfold classify_core_unknown.
  destruct (known_prev pre) as [kp|]; [|by apply by_core_prev_complete].
  destruct (kb_btc_height kp) as [ph|]; [|by apply by_core_prev_complete].
  destruct (kb_kind kp); eauto using by_core_prev_complete; by apply inferred_complete.
Qed.

Lemma live_coinbase_settled r f :
  live_coinbase_fetch r true = Ok f → (coinbase_pair f).2 = false.
Proof.
  destruct r as [c|e]; simpl; [by intros [= <-]|].
  destruct (is_not_found e) eqn:E1, (is_block_body_pruned e) eqn:E2; simpl; intros; simplify_eq;
    rewrite ?E1, ?E2; done.
Qed.

Lemma indexed_complete header st w v w' :
  source_settles → classify_indexed true header st true w = (Ok v, w') → incomplete v = false.
Proof.
  intros Hs. unfold classify_indexed, fetch_coinbase. intros Hr.
  destruct (core_height_to_i32 (hs_height st)) as [height|]; [|by st_inv]. st_inv.
  match goal with M : live_coinbase_fetch _ _ = _ |- _ => apply live_coinbase_settled in M as Hcb end.
  destruct (coinbase_pair x) as [cb un] eqn:Ep. simpl in Hcb. subst un.
  destruct (0 <=? confirmations st); st_inv; [done|].
  match goal with M : fetch_competitor _ _ _ = (Ok ?y, _) |- _ =>
    apply fetch_competitor_spec in M as Hcomp; destruct y as [c| |] end; st_inv; try done.
  unfold classify_core_stale_header. case_bool_decide; [done|]. simpl. rewrite orb_false_r.
  destruct Hcomp as (_ & ? & ? & ? & ? & ? & _ & Hg). by eapply Hs.
Qed.
End complete.

(** ** The configured classifier *)

Inductive ConfiguredParentClassifier := Disabled | BitcoinCore (live : bool).

Definition Configured_is_live (c : ConfiguredParentClassifier) : bool :=
  match c with BitcoinCore live => live | Disabled => false end.
Definition is_enabled (c : ConfiguredParentClassifier) : bool :=
  match c with Disabled => false | _ => true end.

Section configured.
Context `{BitcoinLib} {W : Type} `{CoreHeaderSource W} `{Clock W}.

Definition Configured_synced_tip (c : ConfiguredParentClassifier)
    : stM W anyhow (option SyncedTip) :=
  match c with Disabled => mret None | BitcoinCore _ => synced_tip end.

Definition Configured_ready_tip (c : ConfiguredParentClassifier) : stM W anyhow SyncedTip :=
  match c with
  | BitcoinCore _ => ready_tip
  | Disabled =>
      tip ← Configured_synced_tip c;
      tip ← lift (ok_or (Unavailable UInitialBlockDownload) tip);
      _ ← guardM (st_is_mainnet tip) (Fault WrongNetwork);
      _ ← guardM (st_fresh tip) (Unavailable UStaleTip);
      mret tip
  end.

Definition Configured_classify_parent_deferred (c : ConfiguredParentClassifier) (header : Header)
    (preflight : stM W anyhow ParentPreflight) : stM W anyhow ParentClassification :=
  match c with
  | Disabled => mret (unknown header)
  | BitcoinCore live => classify_parent_deferred live header preflight
  end.
Definition Configured_classify_parent_deferred_strict (c : ConfiguredParentClassifier)
    (header : Header) (preflight : stM W anyhow ParentPreflight)
    : stM W anyhow ParentClassification :=
  match c with
  | Disabled => mret (unknown header)
  | BitcoinCore live => classify_parent_deferred_strict live header preflight
  end.
Definition Configured_classify_parent (c : ConfiguredParentClassifier) (header : Header)
    (preflight : ParentPreflight) : stM W anyhow ParentClassification :=
  Configured_classify_parent_deferred c header (mret preflight).
Definition Configured_classify_parent_strict (c : ConfiguredParentClassifier) (header : Header)
    (preflight : ParentPreflight) : stM W anyhow ParentClassification :=
  match c with
  | Disabled => mret (unknown header)
  | BitcoinCore live => classify_parent_strict live header preflight
  end.
Definition Configured_canonical_header (c : ConfiguredParentClassifier) (height : Z)
    : stM W anyhow CoreHeader :=
  match c with
  | Disabled => throw (Other "Bitcoin Core classifier disabled; cannot resolve canonical header")
  | BitcoinCore _ => canonical_header height
  end.

End configured.

(** ** Claims *)

Section claims.
Context `{BitcoinLib} {W : Type} `{CoreHeaderSource W} `{Clock W}.


(** C13. An attested absence is an observed one: the verdict says the header is absent
    from Core only if Core reported it not found, never after a tolerated failure, as
    an unknown and provisional verdict; and live classifiers attest it only between
    two successful readiness checks of a synced, fresh mainnet tip. *)
Theorem absence_attested_sound live header preflight strict w v w' :
  classify_parent_deferred_with_policy live header preflight strict w = (Ok v, w') →
  core_absence_attested v = true →
  kind v = PkUnknown ∧ incomplete v = false ∧ cp_provisional (to_proof v) = true ∧
  ∃ e w1, get_header_verbose (block_hash header) w = (Err e, w1) ∧ is_not_found e = true ∧
    (live = true → (∃ tip w2, ready_tip w1 = (Ok tip, w2)) ∧
                   (∃ tip w3, ready_tip w3 = (Ok tip, w'))).
Proof.
  unfold classify_parent_deferred_with_policy, classify_absent. intros Hr Ha. st_inv.
  destruct x as [st|e].
  { match goal with M : classify_indexed _ _ _ _ _ = _ |- _ => apply indexed_spec in M as [Hf _] end.
    congruence. }
  destruct (is_not_found e) eqn:En; st_inv.
  2: { destruct (strict || live); by st_inv. }
  match goal with M : classify_core_unknown _ _ _ _ _ = _ |- _ =>
    apply core_unknown_spec in M as (_ & _ & Hk) end.
  match type of Ha with core_absence_attested ?y = _ => rename y into u end.
  assert (kind u = PkUnknown ∧ incomplete u = false) as [Hkind Hinc].
  { destruct (kind u); try done; destruct Hk as [? Hk]; try congruence. auto. }
  split_and!; [done|done|unfold to_proof; simpl; by rewrite Ha, orb_true_r|].
  exists e, x0. split; [done|]. split; [done|]. intros ->. rewrite Ha in *. simpl in *. st_inv.
  split; eauto.
Qed.

(** The read-model lookup is only consumed once Core has reported the header not
    found: on any other answer the verdict does not depend on it. *)
Theorem preflight_deferred live header pre1 pre2 strict w :
  (∀ e, (get_header_verbose (block_hash header) w).1 = Err e → is_not_found e = false) →
  classify_parent_deferred_with_policy live header pre1 strict w =
  classify_parent_deferred_with_policy live header pre2 strict w.
Proof.
  intros Hne. unfold classify_parent_deferred_with_policy, mbind, stM_bind, attempt.
  destruct (get_header_verbose (block_hash header) w) as [[st|e] w1]; [done|].
  by rewrite (Hne e eq_refl).
Qed.

(** A live readiness check succeeds only on a synced, fresh mainnet tip, and each
    failure names its category: wrong network, initial download, header lag or a tip
    whose median time is more than a day old. *)
Theorem ready_tip_exact status now w w1 w2 :
  get_chain_status w = (Ok status, w1) → now_unix_secs w1 = (Ok now, w2) →
  in_i64 now → in_i64 (cs_median_time status) → in_i64 (now - cs_median_time status) →
  (ready_tip w).1 =
    if negb (cs_is_mainnet status) then Err (Fault WrongNetwork)
    else if cs_initial_block_download status then Err (Unavailable UInitialBlockDownload)
    else if negb (cs_blocks status =? cs_headers status) then Err (Unavailable UHeaderLag)
    else if now - cs_median_time status <=? 86400
         then Ok {| st_is_mainnet := true; st_height := cs_blocks status; st_fresh := true |}
         else Err (Unavailable UStaleTip).
Proof.
  intros Hst Hnow Hi1 Hi2 Hi3. unfold ready_tip, mbind, stM_bind. rewrite Hst.
  destruct (cs_is_mainnet status); [|done]. simpl.
  destruct (cs_initial_block_download status); [done|]. simpl.
  destruct (cs_blocks status =? cs_headers status); [|done]. simpl. rewrite Hnow.
  unfold tip_is_fresh, saturating_sub_i64, clamp, MAX_TIP_AGE_SECS, in_i64, i64_MIN, i64_MAX in *.
  rewrite Z.min_r, Z.max_r by lia. unfold guardM, lift. by destruct (_ <=? 86400).
Qed.

End claims.

(** In live mode over the RPC source no verdict is provisional for missing data:
    every tolerated failure of finite mode is an error instead, so a live verdict is
    provisional only as an attested absence. *)
Theorem live_verdict_complete `{BitcoinLib} {W : Type} `{CoreRpcClient W} `{Clock W}
    header preflight strict w v w' :
  client_is_live = true →
  classify_parent_deferred_with_policy (H := _) (H0 := CoreRpcHeaderSource) true header preflight strict w
    = (Ok v, w') →
  incomplete v = false ∧ cp_provisional (to_proof v) = core_absence_attested v.
Proof.
  intros Hlive Hr.
  assert (@source_settles W CoreRpcHeaderSource) as Hs.
  { intros hash height w0 c w1 Hg. unfold get_header, CoreRpcHeaderSource, get_header_impl in Hg. st_inv.
    rewrite Hlive in *.
    match goal with M : live_coinbase_fetch _ _ = _ |- _ => apply live_coinbase_settled in M as Hcb end.
    destruct (coinbase_pair _) as [cb un]. st_inv. done. }
  assert (incomplete v = false) as Hi; [|by unfold to_proof; simpl; rewrite Hi].
  unfold classify_parent_deferred_with_policy, classify_absent in Hr. rewrite orb_true_r in Hr. st_inv.
  destruct x as [st|e]; [by eapply indexed_complete|].
  destruct (is_not_found e); st_inv.
  match goal with M : classify_core_unknown _ _ _ _ _ = _ |- _ => apply core_unknown_complete in M as Hc end.
  apply not_true_iff_false. intros Ht. by destruct (Hc Ht).
Qed.

(** The stored spellings of block kinds and height sources are unambiguous:
    parsing is the inverse of printing, in both directions. *)
Theorem stored_kinds_roundtrip :
  (∀ k s, BlockKind_from_db_str s = Ok k ↔ s = BlockKind_as_db_str k) ∧
  (∀ h s, HeightSource_from_db_str s = Ok h ↔ s = HeightSource_as_db_str h).
Proof.
  split; intros k s; unfold BlockKind_from_db_str, HeightSource_from_db_str;
    (split; [intros Hk; repeat case_bool_decide; by simplify_eq|intros ->; by destruct k]).
Qed.

(** ** Witnesses *)

Module Sample.
Import Toy.

(** A Core whose every header links to itself: hash [n] is 32 bytes [n]. *)
Definition hdr (bits time : Z) : Header :=
  {| hdr_version := 117901063; prev_blockhash := replicate 32 x07;
     merkle_root := replicate 32 x00; hdr_time := time; hdr_bits := bits; hdr_nonce := 0 |}.
Definition absent : Header :=
  {| hdr_version := 1; prev_blockhash := replicate 32 x07;
     merkle_root := replicate 32 x00; hdr_time := 2000; hdr_bits := 9; hdr_nonce := 0 |}.

#[export] Instance client : CoreRpcClient unit := {
  client_is_live := true;
  client_get_chain_status := mret (mkChainStatus true 100 100 false 1000);
  client_get_block_hash := λ _, mret (replicate 32 x05);
  client_get_block_header := λ h, mret (hdr 9 1000);
  client_get_block_header_verbose := λ h,
    if bool_decide (h = replicate 32 x07) then mret (mkHeaderStatus 5 90)
    else throw (RpcError (-5) "Block not found");
  client_get_block_coinbase := λ h, mret (mkBlockCoinbase [] [] []);
}.
#[export] Instance source : CoreHeaderSource unit := CoreRpcHeaderSource.
#[export] Instance clock : Clock unit := mret 1500.

Definition no_preflight : stM unit anyhow ParentPreflight := mret (mkPreflight None).

Definition stale_verdict : ParentClassification :=
  default (unknown absent) (result_ok (classify_parent_deferred_with_policy true absent no_preflight true tt).1).

Lemma runs : classify_parent_deferred_with_policy true absent no_preflight true tt = (Ok stale_verdict, tt).
Proof. vm_compute. reflexivity. Qed.

(** The same Core, without a block at any height. *)
Definition empty_chain : CoreHeaderSource unit := {|
  get_chain_status := client_get_chain_status;
  get_block_hash := λ _, throw (RpcError (-8) "Block height out of range");
  get_header := get_header_impl;
  get_block_header := client_get_block_header;
  get_header_verbose := client_get_block_header_verbose;
  get_block_coinbase := client_get_block_coinbase;
|}.

Lemma runs_absent :
  classify_parent_deferred_with_policy (H0 := empty_chain) true absent no_preflight true tt =
  (Ok (core_absence_unknown absent), tt).
Proof. vm_compute. reflexivity. Qed.
End Sample.
Import Toy Sample.


Lemma absence_attested_sound_witness :
  kind (core_absence_unknown Sample.absent) = PkUnknown ∧
  ∃ tip w3, @ready_tip unit Sample.empty_chain Sample.clock w3 = (Ok tip, tt).
Proof.
  destruct (absence_attested_sound (H0 := Sample.empty_chain) true Sample.absent Sample.no_preflight true tt
    (core_absence_unknown Sample.absent) tt Sample.runs_absent eq_refl) as (Hk & _ & _ & e & w1 & _ & _ & Hl).
  split; [exact Hk|]. exact (proj2 (Hl eq_refl)).
Defined.

(** A Core that has the header on its chain. *)
Lemma preflight_deferred_witness :
  classify_parent_deferred_with_policy (W := unit) (H0 := Sample.source) false (Sample.hdr 9 1) (mret (mkPreflight None)) false tt =
  classify_parent_deferred_with_policy (W := unit) (H0 := Sample.source) false (Sample.hdr 9 1) (throw (Other "read model down")) false tt.
Proof.
  apply (preflight_deferred (W := unit) (H0 := Sample.source) false (Sample.hdr 9 1) (mret (mkPreflight None))
    (throw (Other "read model down")) false tt).
  intros e. vm_compute. discriminate.
Defined.

Lemma ready_tip_exact_witness :
  (ready_tip tt).1 = Ok {| st_is_mainnet := true; st_height := 100; st_fresh := true |}.
Proof.
  exact (ready_tip_exact (W := unit) (mkChainStatus true 100 100 false 1000) 1500 tt tt tt eq_refl eq_refl
    ltac:(vm_compute; split; discriminate) ltac:(vm_compute; split; discriminate)
    ltac:(vm_compute; split; discriminate)).
Defined.

Lemma live_verdict_complete_witness : incomplete Sample.stale_verdict = false.
Proof.
  exact (proj1 (live_verdict_complete Sample.absent Sample.no_preflight true tt Sample.stale_verdict tt
    eq_refl Sample.runs)).
Defined.
