(* ===== verification/LiveLoop.v ===== *)
(** * Supervision of a live producer

    Models [crates/mmm-producers/src/live_loop.rs]: the cycle states, the retry
    policy with its backoff, which errors recover and which must propagate, one
    iteration of [run_ticks], the readiness loop of [prepare], and the final
    status. Publishing a status and sleeping do not change the producer, so an
    iteration is described by the transition it publishes and the delay it asks
    for. *)

From S2P Require Import Prelude BitcoinLib Effects Errors Classifier.

Record TickOutcome := mkTickOutcome {
  progressed : bool;
  idle_at_target : bool;
  completed : bool;
}.

Inductive CycleState :=
| Healthy
| CyclePending (reason : string)
| CycleWaiting (u : CoreUnavailable).

Record RuntimeTransition := mkTransition {
  tr_phase : string;
  tr_state : string;
  tr_dependency : option string;
  tr_reason_code : option string;
  tr_failures : Z;
  tr_next_retry_at : option Z;
}.

(** Durations in milliseconds. *)
Record WaitDecision := mkWaitDecision { delay : Z; transition : RuntimeTransition }.

Record RetryPolicy := mkRetryPolicy { failures : Z }.
Definition RetryPolicy_default : RetryPolicy := mkRetryPolicy 0.

Definition u64_MAX : Z := 18446744073709551615.

(** [decide]: [rand] is the hash the random state gives the failure count, [now_ms]
    the wall clock in milliseconds since the epoch. *)
Definition decide_retry (p : RetryPolicy) (state : CycleState) (phase : string)
    (normal rand now_ms : Z) : RetryPolicy * WaitDecision :=
  let '(failures, state_name, dependency, reason, delay) :=
    match state with
    | Healthy => (0, "healthy"%string, None, None, normal)
    | CyclePending reason => (failures p, "recovering"%string, None, Some reason, normal)
    | CycleWaiting reason =>
        let failures := saturating_add_i64 (failures p) 1 in
        let ceiling_ms := Z.min (Z.shiftl 5000 (Z.min (failures - 1) 6)) 300000 in
        let half := ceiling_ms / 2 in
        let jitter := rand mod (half + 1) in
        (failures, "waiting"%string, Some "bitcoin-core"%string, Some (CoreUnavailable_code reason),
         half + jitter)
    end in
  (mkRetryPolicy failures,
   {| delay := delay;
      transition :=
        {| tr_phase := phase; tr_state := state_name; tr_dependency := dependency;
           tr_reason_code := reason; tr_failures := failures;
           tr_next_retry_at :=
             if bool_decide (state_name = "healthy"%string) then None
             else Some ((now_ms + delay) / 1000) |} |}).

Definition recovery_state (e : anyhow) : option CycleState :=
  match downcast_unavailable e with
  | Some u => Some (CycleWaiting u)
  | None => CyclePending <$> downcast_local_recovery e
  end.

Definition must_propagate (e : anyhow) : bool :=
  match recovery_state e with Some _ => true | None => false end
  || match downcast_fault e with Some _ => true | None => false end
  || is_bitcoin_core_header_cache_integrity_error e.

(** What an iteration of a supervision loop does: it waits with a state, or returns. *)
Inductive iteration :=
| Wait (state : CycleState) (phase : string) (normal : Z)
| Return (r : result anyhow unit).

(** The body of [run_ticks] after a tick, for a producer with its normal interval and
    its [wait_after_tick]. *)
Definition run_ticks_step (normal_interval : Z)
    (wait_after_tick : result anyhow TickOutcome → result anyhow Z)
    (tick_result : result anyhow TickOutcome) : iteration :=
  match tick_result with
  | Err e =>
      match recovery_state e with
      | Some state => Wait state "running" normal_interval
      | None =>
          match wait_after_tick (Err e) with
          | Ok delay => Wait (CyclePending "capture_pending") "running" delay
          | Err e => Return (Err e)
          end
      end
  | Ok outcome =>
      let state :=
        if negb (completed outcome) then CyclePending "capture_pending"
        else if progressed outcome || idle_at_target outcome then Healthy
        else CyclePending "producer_no_progress" in
      match wait_after_tick (Ok outcome) with
      | Ok delay => Wait state "running" delay
      | Err e => Return (Err e)
      end
  end.

(** [run_ticks] with a bound on its iterations: what it returned ([None] when it is
    still running), the retry policy and the world of the producer. [entropy n] is the
    random hash and the clock of the iteration with [n] left. *)
Section run_ticks.
Context {W : Type} (normal_interval : Z) (tick : stM W anyhow TickOutcome)
  (wait_after_tick : result anyhow TickOutcome → result anyhow Z) (entropy : nat → Z * Z).

Fixpoint run_ticks (n : nat) (p : RetryPolicy) (w : W)
    : option (result anyhow unit) * RetryPolicy * W :=
  match n with
  | O => (None, p, w)
  | S n =>
      let '(tick_result, w) := tick w in
      match run_ticks_step normal_interval wait_after_tick tick_result with
      | Wait state phase normal =>
          let '(rand, now) := entropy n in
          run_ticks n (decide_retry p state phase normal rand now).1 w
      | Return r => (Some r, p, w)
      end
  end.
End run_ticks.

(** The body of [prepare] after a refresh of the header cache. *)
Definition prepare_step {A} (interval : Z) (refresh : result anyhow A) : iteration * bool :=
  match refresh with
  | Ok _ => (Wait (CyclePending "startup_pending") "startup" 0, true)
  | Err e =>
      match recovery_state e with
      | Some state => (Wait state "startup" interval, false)
      | None =>
          if negb (must_propagate e) && is_retryable_capture_error e
          then (Wait (CyclePending "capture_pending") "startup" interval, false)
          else (Return (Err e), true)
      end
  end.

(** [finish]: the transition published on every exit. *)
Definition finish (p : RetryPolicy) (error : option anyhow) : RuntimeTransition :=
  {| tr_phase := "stopped";
     tr_state := match error with Some _ => "failed" | None => "stopped" end;
     tr_dependency := None;
     tr_reason_code :=
       (λ e, match downcast_fault e with
             | Some f => CoreFault_code f | None => "producer_failed"%string end) <$> error;
     tr_failures := failures p;
     tr_next_retry_at := None |}.

(** The policy after the published states of several cycles. *)
Definition run_policy (p : RetryPolicy) (states : list CycleState) : RetryPolicy :=
  foldl (λ p s, (decide_retry p s "running" 0 0 0).1) p states.

Definition is_waiting (s : CycleState) : bool :=
  match s with CycleWaiting _ => true | _ => false end.

(** ** Lemmas *)

Lemma decide_failures p s phase normal rand now :
  failures (decide_retry p s phase normal rand now).1 =
  match s with
  | Healthy => 0
  | CyclePending _ => failures p
  | CycleWaiting _ => saturating_add_i64 (failures p) 1
  end.
Proof. by destruct s. Qed.

(** The ceiling of the backoff after [n] consecutive failures, in milliseconds. *)
Definition backoff_ceiling (n : Z) : Z := Z.min (5000 * 2 ^ Z.min (n - 1) 6) 300000.

Lemma failures_range p s phase normal rand now :
  0 ≤ failures p ≤ i64_MAX →
  0 ≤ failures (decide_retry p s phase normal rand now).1 ≤ i64_MAX.
Proof.
  intros Hp. rewrite decide_failures. destruct s; [|done|].
  - unfold i64_MAX. lia.
  - unfold saturating_add_i64, clamp, i64_MIN, i64_MAX in *. lia.
Qed.

(** An invariant of the tick is one of the loop, and the loop returns only what an
    iteration returned. *)
Lemma run_ticks_inv {W} (R : W → W → Prop) `{!PreOrder R} (Q : result anyhow unit → Prop)
    normal tick wait entropy n p w out p' w' :
  steps R tick → (∀ t r, run_ticks_step normal wait t = Return r → Q r) →
  0 ≤ failures p ≤ i64_MAX →
  run_ticks normal tick wait entropy n p w = (out, p', w') →
  R w w' ∧ 0 ≤ failures p' ≤ i64_MAX ∧ (∀ r, out = Some r → Q r).
Proof.
  intros Ht HQ. revert p w. induction n as [|n IH]; intros p w Hp Hr; simpl in Hr.
  - by simplify_eq.
  - specialize (Ht w). destruct (tick w) as [t w1]. simpl in Ht.
    destruct (run_ticks_step normal wait t) as [state phase d|r] eqn:E.
    + destruct (entropy n) as [rand now].
      apply IH in Hr as (HR & ? & ?); [|by apply failures_range]. split_and!; try done || lia. by etrans.
    + simplify_eq. split_and!; try done || lia. intros ? [= <-]. by eapply HQ.
Qed.

Lemma recovery_excludes_backbone e s :
  recovery_state e = Some s → is_backbone_integrity_error e = false.
Proof.
  unfold recovery_state, downcast_unavailable, downcast_local_recovery,
    is_backbone_integrity_error, downcast_backbone. by destruct (root e).
Qed.

(** ** Claims *)

(** The wait after a Core outage: the failure count grows by one per outage
    (saturating), is reset only by a healthy cycle and kept by every other one; the
    delay lies between half and all of a ceiling that doubles from five seconds and
    stops at five minutes, whatever the random jitter, and no intermediate shift
    overflows 64 bits. *)
Theorem retry_backoff_bounds p u phase normal rand now :
  0 ≤ failures p ≤ i64_MAX →
  let n := failures (decide_retry p (CycleWaiting u) phase normal rand now).1 in
  let d := delay (decide_retry p (CycleWaiting u) phase normal rand now).2 in
  n = Z.min (failures p + 1) i64_MAX ∧
  backoff_ceiling n / 2 ≤ d ≤ backoff_ceiling n ∧ 2500 ≤ d ≤ 300000 ∧
  0 ≤ Z.shiftl 5000 (Z.min (n - 1) 6) ≤ u64_MAX.
Proof.
  intros Hp n d.
  assert (n = Z.min (failures p + 1) i64_MAX) as Hn.
  { unfold n. rewrite decide_failures. unfold saturating_add_i64, clamp, i64_MIN, i64_MAX in *. lia. }
  assert (1 ≤ n) as Hn1 by (unfold i64_MAX in *; lia).
  assert (Z.shiftl 5000 (Z.min (n - 1) 6) = 5000 * 2 ^ Z.min (n - 1) 6) as Hsh.
  { rewrite Z.shiftl_mul_pow2 by lia. done. }
  assert (1 ≤ 2 ^ Z.min (n - 1) 6 ≤ 64) as Hpow.
  { split; [apply (Z.pow_le_mono_r 2 0); lia|]. change 64 with (2 ^ 6). apply Z.pow_le_mono_r; lia. }
  assert (d = backoff_ceiling n / 2 + rand mod (backoff_ceiling n / 2 + 1)) as Hd.
  { unfold d, n, backoff_ceiling. simpl. rewrite Z.shiftl_mul_pow2; [done|].
    unfold saturating_add_i64, clamp, i64_MIN, i64_MAX in *. lia. }
  assert (5000 ≤ backoff_ceiling n ≤ 300000) as Hc by (unfold backoff_ceiling; lia).
  pose proof (Z.mul_div_le (backoff_ceiling n) 2).
  pose proof (Z.mul_succ_div_gt (backoff_ceiling n) 2).
  pose proof (Z.mod_pos_bound rand (backoff_ceiling n / 2 + 1)).
  unfold u64_MAX. split; [done|]. split; [lia|]. split; lia.
Qed.

(** The failure count a status reports is the number of outages since the last
    healthy cycle: after any sequence of cycles it equals the number of waiting
    states that follow the last healthy one (below saturation). *)
Theorem failures_count_since_healthy pre post :
  Forall (λ s, s ≠ Healthy) post → Z.of_nat (length post) < i64_MAX →
  failures (run_policy RetryPolicy_default (pre ++ Healthy :: post)) =
  Z.of_nat (length (filter is_waiting post)).
Proof.
  intros Hpost Hlen. unfold run_policy. rewrite foldl_app. simpl.
  set (p := mkRetryPolicy 0).
  assert (∀ n l, Forall (λ s, s ≠ Healthy) l → 0 ≤ n → n + Z.of_nat (length l) < i64_MAX →
    failures (foldl (λ p s, (decide_retry p s "running" 0 0 0).1) (mkRetryPolicy n) l) =
    n + Z.of_nat (length (filter is_waiting l))) as Hg.
  { intros n l Hl. revert n. induction Hl as [|s l Hs _ IH]; intros n Hn Hb; simpl; [lia|].
    simpl in Hb. destruct s as [|r|u]; [done| |].
    - rewrite filter_cons_False by auto. cbn. rewrite IH by lia. done.
    - rewrite filter_cons_True by done. simpl.
      unfold saturating_add_i64, clamp, i64_MIN, i64_MAX in *.
      rewrite Z.min_r, Z.max_r by lia. rewrite IH by lia. lia. }
  unfold p. rewrite Hg by (done || lia). lia.
Qed.

(** ** Witnesses *)

Lemma retry_backoff_bounds_witness :
  2500 ≤ delay (decide_retry (mkRetryPolicy 11) (CycleWaiting UWarmup) "running" 0 98765 0).2 ≤ 300000.
Proof.
  exact (proj1 (proj2 (proj2 (retry_backoff_bounds (mkRetryPolicy 11) UWarmup "running" 0 98765 0
    ltac:(vm_compute; split; discriminate))))).
Defined.

Lemma failures_count_since_healthy_witness :
  failures (run_policy RetryPolicy_default
    ([CycleWaiting UTimeout] ++ Healthy :: [CycleWaiting UWarmup; CyclePending "x"; CycleWaiting UWarmup])) = 2.
Proof.
  apply (failures_count_since_healthy [CycleWaiting UTimeout]
    [CycleWaiting UWarmup; CyclePending "x"; CycleWaiting UWarmup]).
  - repeat constructor; discriminate.
  - reflexivity.
Defined.
