(* ===== verification/Poller.v ===== *)
(** * The chain poller

    Models [crates/mmm-producers/src/poller/mod.rs] and the cursor table of
    [crates/mmm-store/src/poll_cursor.rs]. The chain (daemon, capture and pending
    work) is a class over an abstract environment; the table of cursors and the
    in-memory cursor are concrete, and every database call may fail. *)

From stdpp Require Import list_numbers.
From Stdlib Require Import Ascii.
From S2P Require Import Prelude BitcoinLib Effects Errors Classifier LiveLoop.

Inductive HeightProgress := Advance | Hold.
Inductive TickHeight := Rescan | New.

Record PollerConfig := mkPollerConfig {
  start_height_override : option Z;
  poll_interval : Z;
  batch_size : Z;
  reorg_depth : Z;
}.

Record PollerDefaults := mkPollerDefaults {
  d_poll_interval_seconds : Z;
  d_batch_size : Z;
  d_reorg_depth : Z;
}.

Record TickSummary := mkTickSummary {
  ts_tip : option Z;
  ts_processed : Z;
  ts_rescanned : Z;
  ts_new : Z;
  ts_held : bool;
}.
Definition TickSummary_default : TickSummary := mkTickSummary None 0 0 0 false.

Record TickProgress := mkTickProgress { tp_processed : Z; tp_held : bool }.
Definition TickProgress_default : TickProgress := mkTickProgress 0 false.

Record TickWindow := mkTickWindow { rescan_start : Z; tw_end : Z }.

(** ** Configuration *)

(** [str::parse] of an integer type with range [lo..hi]: an optional sign (a minus
    only for signed types) and at least one decimal digit. *)
Definition digit (c : ascii) : option Z :=
  let n := Z.of_N (N_of_ascii c) in
  if (48 <=? n) && (n <=? 57) then Some (n - 48) else None.

Fixpoint parse_digits (s : string) (acc : Z) : option Z :=
  match s with
  | EmptyString => Some acc
  | String c s => d ← digit c; parse_digits s (acc * 10 + d)
  end.

Definition parse_nonempty (s : string) : option Z :=
  match s with EmptyString => None | _ => parse_digits s 0 end.

Definition parse_int (lo hi : Z) (s : string) : option Z :=
  v ← match s with
      | String "+" s => parse_nonempty s
      | String "-" s => if lo <? 0 then Z.opp <$> parse_nonempty s else None
      | s => parse_nonempty s
      end;
  if (lo <=? v) && (v <=? hi) then Some v else None.

Section config.
Context (lookup : string → option string).

Definition parse_lookup_or (lo hi : Z) (key : string) (default_ : Z) : result anyhow Z :=
  match lookup key with
  | Some value => ok_or (Context "has invalid value" (Other "ParseIntError")) (parse_int lo hi value)
  | None => Ok default_
  end.

Definition parse_lookup_opt (key : string) : result anyhow (option Z) :=
  match lookup key with
  | Some value =>
      v ← ok_or (Context "has invalid value" (Other "ParseIntError")) (parse_int i32_MIN i32_MAX value);
      mret (Some v)
  | None => Ok None
  end.

Definition from_lookup (prefix : string) (defaults : PollerDefaults) : result anyhow PollerConfig :=
  start ← parse_lookup_opt (prefix +:+ "_START_HEIGHT");
  interval ← parse_lookup_or 0 u64_MAX (prefix +:+ "_POLL_INTERVAL_SECONDS")
               (d_poll_interval_seconds defaults);
  batch ← parse_lookup_or i32_MIN i32_MAX (prefix +:+ "_BATCH_SIZE") (d_batch_size defaults);
  depth ← parse_lookup_or i32_MIN i32_MAX (prefix +:+ "_REORG_DEPTH") (d_reorg_depth defaults);
  _ ← match start with
      | Some s => ensure (0 <=? s) (Other "START_HEIGHT must be non-negative")
      | None => Ok ()
      end;
  _ ← ensure (0 <? interval) (Other "POLL_INTERVAL_SECONDS must be positive");
  _ ← ensure (0 <? batch) (Other "BATCH_SIZE must be positive");
  _ ← ensure (0 <=? depth) (Other "REORG_DEPTH must be non-negative");
  mret {| start_height_override := start; poll_interval := interval;
          batch_size := batch; reorg_depth := depth |}.
End config.

(** ** Windows *)

Definition effective_start (start : option Z) (activation_floor : Z) : Z :=
  Z.max (default activation_floor start) activation_floor.

Definition effective_seed_cursor (seeded eff_start : Z) : Z := Z.max seeded (sub_i32 eff_start 1).

Definition rescan_floor (cursor reorg_depth : Z) : Z :=
  saturating_sub_i32 (saturating_add_i32 cursor 1) reorg_depth.

Definition compute_tick_window (eff_start cursor tip reorg_depth batch_size : Z)
    : option TickWindow :=
  let start := Z.max eff_start (rescan_floor cursor reorg_depth) in
  let end_ := Z.min tip (saturating_add_i32 cursor batch_size) in
  if end_ <? start then None else Some (mkTickWindow start end_).

(** [a..=b]. *)
Definition range_inclusive (a b : Z) : list Z := seqZ a (b - a + 1).

(** ** The tick policy *)

Section policy.
Context {W : Type}.
Context (process : Z → TickHeight → stM W anyhow HeightProgress).

(** The replay loop: best effort, stopped only by an error that must propagate. *)
Fixpoint rescan_loop (hs : list Z) (progress : TickProgress) (w : W)
    : result anyhow unit * TickProgress * W :=
  match hs with
  | [] => (Ok (), progress, w)
  | h :: hs =>
      match process h Rescan w with
      | (Ok Hold, w) => rescan_loop hs (mkTickProgress (tp_processed progress + 1) true) w
      | (Ok Advance, w) =>
          rescan_loop hs (mkTickProgress (tp_processed progress + 1) (tp_held progress)) w
      | (Err e, w) =>
          if must_propagate e then (Err e, progress, w)
          else rescan_loop hs (mkTickProgress (tp_processed progress) true) w
      end
  end.

(** The loop over new heights: the cursor follows, [Hold] stops, an error returns. *)
Fixpoint new_loop (hs : list Z) (cursor : Z) (progress : TickProgress) (w : W)
    : result anyhow unit * Z * TickProgress * W :=
  match hs with
  | [] => (Ok (), cursor, progress, w)
  | h :: hs =>
      match process h New w with
      | (Ok Advance, w) =>
          new_loop hs (Z.max cursor h) (mkTickProgress (tp_processed progress + 1) (tp_held progress)) w
      | (Ok Hold, w) => (Ok (), cursor, mkTickProgress (tp_processed progress) true, w)
      | (Err e, w) => (Err e, cursor, progress, w)
      end
  end.

Definition run_tick_policy_counting (cursor : Z) (progress : TickProgress) (window : TickWindow) (w : W)
    : result anyhow unit * Z * TickProgress * W :=
  let replay_end := Z.min cursor (tw_end window) in
  match rescan_loop (range_inclusive (rescan_start window) replay_end) progress w with
  | (Err e, progress, w) => (Err e, cursor, progress, w)
  | (Ok (), progress, w) =>
      if cursor <? tw_end window then
        new_loop (range_inclusive (add_i32 cursor 1) (tw_end window)) cursor progress w
      else (Ok (), cursor, progress, w)
  end.
End policy.

(** ** The chain and its environment *)

(** The trait [ChainPoller], and the database and runtime calls of the poller that
    touch neither the cursor table nor the in-memory cursor. [db] is the outcome of
    a statement: the database may fail at any call. *)
Class ChainPoller (W : Type) := {
  activation_floor : Z;
  source_id : Z;
  chain_tip : stM W anyhow Z;
  process_height : Z → stM W anyhow HeightProgress;
  rescan_height : Z → stM W anyhow HeightProgress;
  refresh_core_cache : stM W anyhow unit;
  drain_pending : stM W anyhow unit;
  sleep_secs : Z → W → W;
  prune_child_chain_heads_below : Z → stM W anyhow unit;
  run_reconcile_read_model : stM W anyhow Z;
  warn_if_empty_known_stale_membership : stM W anyhow unit;
  db : stM W anyhow unit;
}.

Record PollCursorRow := mkPollCursorRow { cursor_height : Z; target_height : option Z }.

(** The environment, the rows of [poll_cursor] and the field [cursor] of [Poller]. *)
Record PollerWorld (W : Type) := mkPollerWorld {
  env : W;
  poll_cursors : gmap Z PollCursorRow;
  cursor : Z;
}.
Arguments mkPollerWorld {W}.
Arguments env {W}.
Arguments poll_cursors {W}.
Arguments cursor {W}.

Section poller.
Context {W : Type} `{ChainPoller W}.

#[local] Abbreviation pollM := (stM (PollerWorld W) anyhow).

(** Run an effect of the chain. *)
Definition on_env {A} (m : stM W anyhow A) : pollM A := λ w,
  let '(r, e) := m (env w) in (r, mkPollerWorld e (poll_cursors w) (cursor w)).

Definition load_poll_cursor : pollM (option Z) :=
  _ ← on_err (Context "load poll cursor") (on_env db);
  gets (λ w, cursor_height <$> poll_cursors w !! source_id).

(** The upsert: [GREATEST] of the cursors, [COALESCE] of the targets. The column
    [updated_at], a timestamp nothing here reads, is left out. *)
Definition upsert_row (old : option PollCursorRow) (c : Z) (target : option Z) : PollCursorRow :=
  match old with
  | None => mkPollCursorRow c target
  | Some row =>
      mkPollCursorRow (Z.max (cursor_height row) c)
        (match target with Some t => Some t | None => target_height row end)
  end.

Definition upsert_poll_cursor_with_target (c : Z) (target : option Z) : pollM unit :=
  _ ← on_err (Context "upsert poll cursor") (on_env db);
  modify (λ w, mkPollerWorld (env w)
    (<[source_id := upsert_row (poll_cursors w !! source_id) c target]> (poll_cursors w)) (cursor w)).

Definition get_cursor : pollM Z := gets cursor.
Definition set_cursor (c : Z) : pollM unit :=
  modify (λ w, mkPollerWorld (env w) (poll_cursors w) c).

Definition run_startup_repair : pollM unit :=
  r ← attempt (on_env run_reconcile_read_model);
  match r with
  | Ok _ => mret ()
  | Err e => if is_reconcile_budget_exhausted e then mret ()
             else throw (Context "repair read model before seeding poll cursor" e)
  end.

(** A failure that is logged and dropped. *)
Definition best_effort (m : pollM unit) : pollM unit := _ ← attempt m; mret ().

(** [fetch_tip_with_retry]: attempts [attempt..=5]. *)
Fixpoint fetch_tip_loop (remaining : nat) (attempt_no : Z) : pollM Z :=
  match remaining with
  | O => throw (Other "loop runs at least once")
  | S remaining =>
      r ← attempt (on_env chain_tip);
      match r with
      | Ok tip => mret tip
      | Err e =>
          match remaining with
          | O => throw (Context "chain tip unavailable after 5 attempts" e)
          | S _ =>
              _ ← on_env (λ w, (Ok (), sleep_secs attempt_no w));
              fetch_tip_loop remaining (attempt_no + 1)
          end
      end
  end.
Definition fetch_tip_with_retry : pollM Z := fetch_tip_loop 5 1.

Definition drain_pending_before_capture : pollM unit :=
  r ← attempt (on_env drain_pending);
  match r with
  | Ok _ => mret ()
  | Err e => if must_propagate e then throw e else throw (LocalRecoveryPending "capture_pending")
  end.

Definition persist_poll_cursor_target_best_effort (tip : Z) : pollM unit :=
  c ← get_cursor;
  best_effort (upsert_poll_cursor_with_target c (Some tip)).

Definition fetch_tip_and_persist_target : pollM Z :=
  tip ← on_err (Context "get tip") fetch_tip_with_retry;
  _ ← persist_poll_cursor_target_best_effort tip;
  mret tip.

Definition persist_progress_if_advanced (new_cursor tip : Z) : pollM unit :=
  c ← get_cursor;
  if new_cursor <=? c then mret () else
  _ ← set_cursor new_cursor;
  best_effort (upsert_poll_cursor_with_target new_cursor (Some tip)).

Section with_config.
Context (config : PollerConfig).

Definition prune_chain_heads_best_effort : pollM unit :=
  c ← get_cursor;
  let rescan_floor := rescan_floor c (reorg_depth config) in
  let floor := match start_height_override config with
               | Some start => Z.min rescan_floor start
               | None => rescan_floor
               end in
  best_effort (on_env (prune_child_chain_heads_below floor)).

Definition tick_window (c tip : Z) : option TickWindow :=
  compute_tick_window (effective_start (start_height_override config) activation_floor)
    c tip (reorg_depth config) (batch_size config).

Definition process_for_tick (h : Z) (k : TickHeight) : stM W anyhow HeightProgress :=
  match k with Rescan => rescan_height h | New => process_height h end.

(** [usize::try_from(new).unwrap_or(0)] and [usize::saturating_sub]. *)
Definition run_window_and_persist_progress (window : TickWindow) (tip : Z) : pollM TickSummary :=
  old_cursor ← get_cursor;
  '(r, new_cursor, progress) ← state_run (λ w,
     let '(r, c, p, e) :=
       run_tick_policy_counting process_for_tick old_cursor TickProgress_default window (env w) in
     ((r, c, p), mkPollerWorld e (poll_cursors w) (cursor w)));
  _ ← persist_progress_if_advanced new_cursor tip;
  let new := sub_i32 new_cursor old_cursor in
  _ ← lift r;
  mret {| ts_tip := Some tip;
          ts_processed := tp_processed progress;
          ts_rescanned := Z.max 0 (tp_processed progress - Z.max 0 new);
          ts_new := new;
          ts_held := tp_held progress |}.

Definition poll_tick : pollM TickSummary :=
  _ ← on_env refresh_core_cache;
  _ ← drain_pending_before_capture;
  tip ← fetch_tip_and_persist_target;
  c ← get_cursor;
  r ← attempt match tick_window c tip with
              | Some window => run_window_and_persist_progress window tip
              | None => mret (mkTickSummary (Some tip) 0 0 0 false)
              end;
  _ ← prune_chain_heads_best_effort;
  lift r.

(** [Poller::new]: repair, then the seed cursor by precedence. *)
Definition poller_new : pollM unit :=
  _ ← run_startup_repair;
  _ ← on_env warn_if_empty_known_stale_membership;
  let eff := effective_start (start_height_override config) activation_floor in
  '(c, persist_seed, seed_target) ←
    match start_height_override config with
    | Some start =>
        row ← on_err (Context "load poll cursor") load_poll_cursor;
        mret (effective_seed_cursor (sub_i32 start 1) eff,
              match row with Some _ => false | None => true end, None)
    | None =>
        row ← on_err (Context "load poll cursor") load_poll_cursor;
        match row with
        | Some persisted => mret (effective_seed_cursor persisted eff, false, None)
        | None =>
            tip ← fetch_tip_with_retry;
            mret (effective_seed_cursor (sub_i32 tip (reorg_depth config)) eff, true, Some tip)
        end
    end;
  _ ← (if (persist_seed : bool) then
         on_err (Context "persist seed cursor") (upsert_poll_cursor_with_target c seed_target)
       else mret ());
  set_cursor c.

(** [LiveProducer for Poller]. *)
Definition tick : pollM TickOutcome :=
  summary ← poll_tick;
  if ts_held summary then throw (LocalRecoveryPending "capture_pending") else
  c ← get_cursor;
  mret {| progressed := 0 <? ts_processed summary;
          idle_at_target := bool_decide (ts_tip summary = Some c);
          completed := true |}.

Definition wait_after_tick (r : result anyhow TickOutcome) : result anyhow Z :=
  match r with
  | Err e => if must_propagate e || is_backbone_integrity_error e then Err e
             else Ok (poll_interval config)
  | Ok _ => Ok (poll_interval config)
  end.

End with_config.
End poller.

(** ** Configuration and windows *)

Lemma from_lookup_valid lookup prefix defaults config :
  from_lookup lookup prefix defaults = Ok config →
  0 < batch_size config ∧ 0 ≤ reorg_depth config ∧ 0 < poll_interval config ∧
  (∀ s, start_height_override config = Some s → 0 ≤ s).
Proof.
  unfold from_lookup. intros Hc. apply bind_Ok in Hc as (start & _ & Hc).
  apply bind_Ok in Hc as (interval & _ & Hc). apply bind_Ok in Hc as (batch & _ & Hc).
  apply bind_Ok in Hc as (depth & _ & Hc). apply bind_Ok in Hc as ([] & Hs & Hc). res_inv. simpl.
  split_and!; try lia. intros s ->. res_inv. lia.
Qed.

Lemma elem_range a b h : h ∈ range_inclusive a b ↔ a ≤ h ≤ b.
Proof. unfold range_inclusive. rewrite elem_of_seqZ. lia. Qed.

(** Enough room above the cursor for the window arithmetic. *)
Definition cursor_fits (c : Z) (config : PollerConfig) : Prop :=
  -1 ≤ c ∧ c + 1 ≤ i32_MAX ∧ c + batch_size config ≤ i32_MAX ∧
  i32_MIN ≤ c + 1 - reorg_depth config.

Lemma rescan_floor_eq c depth :
  -1 ≤ c → c + 1 ≤ i32_MAX → 0 ≤ depth → i32_MIN ≤ c + 1 - depth →
  rescan_floor c depth = c + 1 - depth.
Proof.
  intros. unfold rescan_floor, saturating_sub_i32, saturating_add_i32, clamp, i32_MAX, i32_MIN in *. lia.
Qed.

Lemma tick_window_cases eff c tip depth batch :
  -1 ≤ c → c + 1 ≤ i32_MAX → c + batch ≤ i32_MAX → i32_MIN ≤ c + 1 - depth → 0 ≤ depth → 0 < batch →
  compute_tick_window eff c tip depth batch =
    let start := Z.max eff (c + 1 - depth) in
    let end_ := Z.min tip (c + batch) in
    if end_ <? start then None else Some (mkTickWindow start end_).
Proof.
  intros. unfold compute_tick_window. rewrite rescan_floor_eq by done.
  replace (saturating_add_i32 c batch) with (c + batch); [done|].
  unfold saturating_add_i32, clamp, i32_MIN, i32_MAX in *. lia.
Qed.

(** ** The tick policy *)

Section policy_lemmas.
Context {W : Type} (process : Z → TickHeight → stM W anyhow HeightProgress).

(** New heights processed one after the other, each one with [Advance]. *)
Inductive advanced : Z → W → Z → W → Prop :=
| advanced_refl c w : advanced c w c w
| advanced_step c w w1 c' w2 :
    process (c + 1) New w = (Ok Advance, w1) → advanced (c + 1) w1 c' w2 → advanced c w c' w2.

Lemma advanced_le c w c' w' : advanced c w c' w' → c ≤ c'.
Proof. induction 1; lia. Qed.

(** How the loop over new heights ends: at the end of its range, at a height that is
    held, or at the first error. *)
Definition new_outcome (r : result anyhow unit) (c' end_ : Z) (p' : TickProgress) (w2 w' : W) : Prop :=
  (r = Ok () ∧ c' = end_ ∧ w' = w2) ∨
  (r = Ok () ∧ c' < end_ ∧ tp_held p' = true ∧ process (c' + 1) New w2 = (Ok Hold, w')) ∨
  (∃ e, r = Err e ∧ c' < end_ ∧ process (c' + 1) New w2 = (Err e, w')).

Lemma new_loop_spec n c p w r c' p' w' :
  new_loop process (seqZ (c + 1) (Z.of_nat n)) c p w = (r, c', p', w') →
  ∃ w2, advanced c w c' w2 ∧ c' ≤ c + Z.of_nat n ∧ new_outcome r c' (c + Z.of_nat n) p' w2 w'.
Proof.
  revert c p w. induction n as [|n IH]; intros c p w Hr.
  - simpl in Hr. simplify_eq. exists w'. split; [constructor|]. split; [lia|]. left. split_and!; try done; lia.
  - rewrite seqZ_cons in Hr by lia. cbn [new_loop] in Hr.
    replace (Z.of_nat (S n)) with (Z.succ (Z.of_nat n)) in * by lia. rewrite Z.pred_succ in Hr.
    destruct (process (c + 1) New w) as [[[|]|e] w1] eqn:Hp.
    + rewrite Z.max_r in Hr by lia. apply (IH (c + 1)) in Hr as (w2 & Ha & Hle & Ho).
      exists w2. split; [by econstructor|]. split; [lia|].
      by replace (c + Z.succ (Z.of_nat n)) with (c + 1 + Z.of_nat n) by lia.
    + simplify_eq. exists w. split; [constructor|]. split; [lia|]. right; left. simpl. split_and!; try done; lia.
    + simplify_eq. exists w. split; [constructor|]. split; [lia|]. right; right. exists e. split_and!; try done; lia.
Qed.

Lemma rescan_loop_Err hs p w e p' w' :
  rescan_loop process hs p w = (Err e, p', w') → must_propagate e = true.
Proof.
  revert p w. induction hs as [|h hs IH]; intros p w Hr; simpl in Hr; [done|].
  destruct (process h Rescan w) as [[[|]|e0] w1]; [by eapply IH..|].
  destruct (must_propagate e0) eqn:E; [by simplify_eq|by eapply IH].
Qed.

Lemma policy_spec c p window w r c' p' w' :
  in_i32 (c + 1) →
  run_tick_policy_counting process c p window w = (r, c', p', w') →
  (c' = c ∧ ∃ e, r = Err e ∧ must_propagate e = true) ∨
  ∃ w1 w2, advanced c w1 c' w2 ∧ c' ≤ Z.max c (tw_end window) ∧
           new_outcome r c' (Z.max c (tw_end window)) p' w2 w'.
Proof.
  intros Hi. unfold run_tick_policy_counting.
  destruct (rescan_loop _ _ p w) as [[[[]|e] p1] w1] eqn:Hre.
  2: { intros Hr. simplify_eq. left. split_and!; try done. exists e. split; [done|]. by eapply rescan_loop_Err. }
  destruct (c <? tw_end window) eqn:Hlt; intros Hr; right.
  - unfold range_inclusive in Hr. rewrite add_i32_id in Hr by done.
    replace (tw_end window - (c + 1) + 1) with (Z.of_nat (Z.to_nat (tw_end window - c))) in Hr by lia.
    apply new_loop_spec in Hr as (w2 & Ha & Hle & Ho). exists w1, w2.
    replace (Z.max c (tw_end window)) with (c + Z.of_nat (Z.to_nat (tw_end window - c))) by lia. done.
  - simplify_eq. exists w', w'. split; [constructor|]. split; [lia|]. left. split_and!; try done; lia.
Qed.
End policy_lemmas.

(** ** The cursor table *)

Section table.
Context {W : Type} `{ChainPoller W}.

(** Progress of the in-memory cursor and of the table: nothing goes back, other
    sources are untouched, and the stored cursor never runs ahead of what it was or
    of the cursor in memory. *)
Definition cursor_step (w w' : PollerWorld W) : Prop :=
  cursor w ≤ cursor w' ∧
  (∀ k, k ≠ source_id → poll_cursors w' !! k = poll_cursors w !! k) ∧
  match poll_cursors w !! source_id, poll_cursors w' !! source_id with
  | Some a, Some b => cursor_height a ≤ cursor_height b ≤ Z.max (cursor_height a) (cursor w')
  | None, Some b => cursor_height b ≤ cursor w'
  | None, None => True
  | Some _, None => False
  end.

#[global] Instance cursor_step_preorder : PreOrder cursor_step.
Proof.
  split.
  - intros w. split_and!; [done|done|]. destruct (_ !! source_id); [lia|done].
  - intros w1 w2 w3 (Hc1 & Ho1 & Hr1) (Hc2 & Ho2 & Hr2). split_and!; [lia| |].
    + intros k Hk. rewrite Ho2, Ho1 by done. done.
    + destruct (poll_cursors w1 !! source_id), (poll_cursors w2 !! source_id),
        (poll_cursors w3 !! source_id); try done; lia.
Qed.

Lemma cursor_step_env (w w' : PollerWorld W) :
  cursor w' = cursor w → poll_cursors w' = poll_cursors w → cursor_step w w'.
Proof.
  intros Hc Ht. split_and!; [lia|intros; by rewrite Ht|].
  rewrite Ht. destruct (poll_cursors w !! source_id); [lia|done].
Qed.

Lemma on_env_step {A} (m : stM W anyhow A) : steps cursor_step (on_env m).
Proof. intros w. unfold on_env. destruct (m (env w)) as [r e]. by apply cursor_step_env. Qed.
Hint Resolve on_env_step : steps.

(** An upsert of a height the poller has reached. *)
Lemma upsert_step c target w :
  c ≤ cursor w → cursor_step w (upsert_poll_cursor_with_target c target w).2.
Proof.
  intros Hc. unfold upsert_poll_cursor_with_target, mbind, stM_bind, on_err.
  pose proof (on_env_step db w) as Hs. destruct (on_env db w) as [[u|e] w1] eqn:E; [|done].
  simpl in *. etrans; [exact Hs|].
  assert (c ≤ cursor w1) as Hc1 by (destruct Hs; lia).
  split_and!; simpl; [done|intros k Hk; by rewrite lookup_insert_ne by done|].
  rewrite lookup_insert_eq. destruct (poll_cursors w1 !! source_id); simpl; lia.
Qed.

Lemma best_effort_step m : steps cursor_step m → steps cursor_step (best_effort m).
Proof. intros Hm. unfold best_effort. solve_steps. Qed.

Lemma fetch_tip_step n k : steps cursor_step (fetch_tip_loop n k).
Proof. revert k. induction n as [|n IH]; intros k; simpl; solve_steps. Qed.

Lemma persist_target_step tip : steps cursor_step (persist_poll_cursor_target_best_effort tip).
Proof.
  intros w. unfold persist_poll_cursor_target_best_effort, get_cursor, best_effort, attempt, gets, mbind, stM_bind.
  pose proof (upsert_step (cursor w) (Some tip) w) as Hs.
  destruct (upsert_poll_cursor_with_target _ _ w) as [r w1]. by apply Hs.
Qed.

Lemma persist_progress_step new tip : steps cursor_step (persist_progress_if_advanced new tip).
Proof.
  intros w. unfold persist_progress_if_advanced, get_cursor, set_cursor, best_effort, attempt, gets, modify, mbind, stM_bind.
  destruct (new <=? cursor w) eqn:E; [simpl; reflexivity|].
  set (w1 := mkPollerWorld (env w) (poll_cursors w) new).
  pose proof (upsert_step new (Some tip) w1) as Hs.
  destruct (upsert_poll_cursor_with_target _ _ w1) as [r w2]. simpl in *.
  etrans; [|apply Hs; simpl; lia].
  split_and!; simpl; [lia|done|]. destruct (poll_cursors w !! source_id); [lia|done].
Qed.

Hint Resolve persist_target_step persist_progress_step best_effort_step fetch_tip_step : steps.

Lemma state_run_step {A} (f : PollerWorld W → A * PollerWorld W) :
  (∀ w, cursor_step w (f w).2) → steps cursor_step (state_run f : stM _ anyhow A).
Proof. intros Hf w. unfold state_run. specialize (Hf w). by destruct (f w). Qed.

Lemma run_window_step window tip :
  steps cursor_step (run_window_and_persist_progress window tip).
Proof.
  unfold run_window_and_persist_progress, get_cursor. solve_steps.
  apply state_run_step. intros w. destruct (run_tick_policy_counting _ _ _ _ _) as [[[r c] p] e].
    by apply cursor_step_env.
Qed.

Lemma drain_step : steps cursor_step drain_pending_before_capture.
Proof. unfold drain_pending_before_capture. solve_steps. Qed.

Hint Resolve run_window_step drain_step : steps.

Lemma poll_tick_step config : steps cursor_step (poll_tick config).
Proof.
  unfold poll_tick, fetch_tip_and_persist_target, fetch_tip_with_retry, get_cursor,
    prune_chain_heads_best_effort, get_cursor.
  solve_steps.
Qed.

Hint Resolve poll_tick_step : steps.

Lemma tick_step config : steps cursor_step (tick config).
Proof.
  unfold tick, get_cursor. solve_steps.
Qed.

End table.

(** ** One tick *)

Section tick_lemmas.
Context {W : Type} `{ChainPoller W}.

Definition same_cursor (w w' : PollerWorld W) : Prop := cursor w' = cursor w.
#[global] Instance same_cursor_preorder : PreOrder same_cursor.
Proof. split; [done|]. unfold same_cursor. intros w1 w2 w3. congruence. Qed.

Lemma on_env_same {A} (m : stM W anyhow A) : steps same_cursor (on_env m).
Proof. intros w. unfold on_env. by destruct (m (env w)). Qed.
Hint Resolve on_env_same : steps.
Lemma modify_same (f : PollerWorld W → PollerWorld W) :
  (∀ w, cursor (f w) = cursor w) → steps same_cursor (modify f : stM _ anyhow unit).
Proof. intros Hf w. apply Hf. Qed.
Lemma upsert_same c target : steps same_cursor (upsert_poll_cursor_with_target c target).
Proof. unfold upsert_poll_cursor_with_target. solve_steps. by apply modify_same. Qed.
Hint Resolve upsert_same : steps.
Lemma best_effort_same m : steps same_cursor m → steps same_cursor (best_effort m).
Proof. intros Hm. unfold best_effort. solve_steps. Qed.
Hint Resolve best_effort_same : steps.
Lemma fetch_tip_same n k : steps same_cursor (fetch_tip_loop n k).
Proof. revert k. induction n as [|n IH]; intros k; simpl; solve_steps. Qed.
Hint Resolve fetch_tip_same : steps.
Lemma persist_target_same tip : steps same_cursor (persist_poll_cursor_target_best_effort tip).
Proof. unfold persist_poll_cursor_target_best_effort, get_cursor. solve_steps. Qed.
Hint Resolve persist_target_same : steps.
Lemma fetch_and_persist_same : steps same_cursor fetch_tip_and_persist_target.
Proof. unfold fetch_tip_and_persist_target, fetch_tip_with_retry. solve_steps. Qed.
Lemma drain_same : steps same_cursor drain_pending_before_capture.
Proof. unfold drain_pending_before_capture. solve_steps. Qed.
Lemma prune_same config : steps same_cursor (prune_chain_heads_best_effort config).
Proof. unfold prune_chain_heads_best_effort, get_cursor. solve_steps. Qed.

(** A step that keeps the cursor, then the rest. *)
Lemma bind_same {A B} (m : stM (PollerWorld W) anyhow A) (f : A → stM (PollerWorld W) anyhow B) w
    (P : PollerWorld W → Prop) :
  steps same_cursor m →
  (∀ w', cursor w' = cursor w → P w') → (∀ a w', cursor w' = cursor w → P (f a w').2) →
  P ((m ≫= f) w).2.
Proof.
  intros Hm HP Hf. unfold mbind, stM_bind. specialize (Hm w). unfold same_cursor in Hm.
  destruct (m w) as [[a|e] w1]; simpl in *; auto.
Qed.

Lemma persist_progress_cursor new tip w :
  cursor (persist_progress_if_advanced new tip w).2 = Z.max new (cursor w).
Proof.
  unfold persist_progress_if_advanced, get_cursor, set_cursor, gets, modify, mbind, stM_bind.
  destruct (new <=? cursor w) eqn:E; simpl; [lia|].
  rewrite (best_effort_same _ (upsert_same _ _)). simpl. lia.
Qed.

Lemma run_window_cursor window tip w :
  cursor (run_window_and_persist_progress window tip w).2 =
  let '(_, c, _, _) := run_tick_policy_counting process_for_tick (cursor w) TickProgress_default
                         window (env w) in Z.max c (cursor w).
Proof.
  unfold run_window_and_persist_progress, get_cursor, gets, state_run.
  cbn [mbind stM_bind]. unfold mbind, stM_bind.
  destruct (run_tick_policy_counting _ _ _ _ _) as [[[r c] p] e].
  set (w1 := mkPollerWorld e (poll_cursors w) (cursor w)).
  pose proof (persist_progress_cursor c tip w1) as Hc.
  destruct (persist_progress_if_advanced c tip w1) as [[u|err] w2]; [|done].
  destruct r; done.
Qed.

(** The heights a tick moves the cursor over were processed one after the other. *)
Definition reached (w w' : PollerWorld W) : Prop :=
  ∃ e1 e2, advanced process_for_tick (cursor w) e1 (cursor w') e2.

Lemma poll_tick_reached config w :
  in_i32 (cursor w + 1) → reached w (poll_tick config w).2.
Proof.
  intros Hi. unfold reached, poll_tick.
  assert (∀ w' : PollerWorld W, cursor w' = cursor w →
    ∃ e1 e2, advanced process_for_tick (cursor w) e1 (cursor w') e2) as Hstay.
  { intros w' ->. exists (env w), (env w). constructor. }
  apply bind_same; [apply on_env_same|done|]. intros _ w1 Hw1.
  apply bind_same; [apply drain_same|rewrite Hw1; auto|]. intros _ w2 Hw2.
  apply bind_same; [apply fetch_and_persist_same|intros w'; rewrite Hw2, Hw1; auto|]. intros tip w3 Hw3.
  apply bind_same; [apply steps_gets; apply _|intros w'; rewrite Hw3, Hw2, Hw1; auto|]. intros c w4 Hw4.
  assert (cursor w4 = cursor w) as Hc4 by congruence. clear Hw1 Hw2 Hw3 Hw4 w1 w2 w3.
  set (m := match tick_window config c tip with
            | Some window => run_window_and_persist_progress window tip
            | None => mret (mkTickSummary (Some tip) 0 0 0 false) end).
  assert (∃ e1 e2, advanced process_for_tick (cursor w) e1 (cursor (m w4).2) e2) as Hadv.
  { unfold m. destruct (tick_window config c tip) as [window|]; [|by apply Hstay].
    rewrite run_window_cursor, Hc4.
    destruct (run_tick_policy_counting _ _ _ _ _) as [[[r c'] p] e] eqn:Hr.
    apply policy_spec in Hr as [[-> _]|(e1 & e2 & Ha & _)]; [| |done].
    - rewrite Z.max_id. exists e, e. constructor.
    - exists e1, e2. pose proof (advanced_le _ _ _ _ _ Ha). by rewrite Z.max_l by lia. }
  rewrite st_attempt_bind.
  apply bind_same; [apply prune_same|intros w' ->; exact Hadv|].
  intros _ w' Hw'. simpl. rewrite Hw'. exact Hadv.
Qed.
End tick_lemmas.

(** ** Ticks of a healthy chain *)

Section healthy.
Context {W : Type} `{ChainPoller W}.

(** The daemon answers with the same tip, the dependencies are ready and every height
    is captured. Database statements may still fail. *)
Record healthy (tip : Z) : Prop := {
  healthy_refresh e : ∃ e', refresh_core_cache e = (Ok (), e');
  healthy_drain e : ∃ e', drain_pending e = (Ok (), e');
  healthy_tip e : ∃ e', chain_tip e = (Ok tip, e');
  healthy_process h e : ∃ e', process_height h e = (Ok Advance, e');
  healthy_rescan h e : ∃ p e', rescan_height h e = (Ok p, e');
}.

Context (tip : Z) (Hh : healthy tip).

Lemma healthy_rescan_loop hs p e : ∃ p' e', rescan_loop process_for_tick hs p e = (Ok (), p', e').
Proof.
  revert p e. induction hs as [|h hs IH]; intros p e; simpl; [eauto|].
  destruct (healthy_rescan _ Hh h e) as ([|] & e' & ->); apply IH.
Qed.

Lemma healthy_new_loop n c p e :
  ∃ p' e', new_loop process_for_tick (seqZ (c + 1) (Z.of_nat n)) c p e = (Ok (), c + Z.of_nat n, p', e').
Proof.
  revert c p e. induction n as [|n IH]; intros c p e; [simpl; rewrite Z.add_0_r; eauto|].
  rewrite seqZ_cons by lia. cbn [new_loop]. unfold process_for_tick at 1.
  destruct (healthy_process _ Hh (c + 1) e) as (e' & ->). rewrite Z.max_r by lia.
  replace (Z.pred (Z.of_nat (S n))) with (Z.of_nat n) by lia.
  change (Z.succ (c + 1)) with (c + 1 + 1).
  destruct (IH (c + 1) (mkTickProgress (tp_processed p + 1) (tp_held p)) e') as (p1 & e1 & ->).
  exists p1, e1. by replace (c + 1 + Z.of_nat n) with (c + Z.of_nat (S n)) by lia.
Qed.

Lemma healthy_policy c p window e :
  in_i32 (c + 1) →
  ∃ p' e', run_tick_policy_counting process_for_tick c p window e =
           (Ok (), Z.max c (tw_end window), p', e').
Proof.
  intros Hi. unfold run_tick_policy_counting.
  destruct (healthy_rescan_loop (range_inclusive (rescan_start window) (Z.min c (tw_end window))) p e)
    as (p1 & e1 & ->).
  destruct (c <? tw_end window) eqn:E.
  - unfold range_inclusive. rewrite add_i32_id by done.
    replace (tw_end window - (c + 1) + 1) with (Z.of_nat (Z.to_nat (tw_end window - c))) by lia.
    destruct (healthy_new_loop (Z.to_nat (tw_end window - c)) c p1 e1) as (p2 & e2 & ->).
    exists p2, e2. by replace (c + Z.of_nat _) with (Z.max c (tw_end window)) by lia.
  - exists p1, e1. by replace (Z.max c (tw_end window)) with c by lia.
Qed.

Lemma healthy_bind {A B} (m : stM W anyhow A) a (f : A → stM (PollerWorld W) anyhow B) w :
  (∀ e, ∃ e', m e = (Ok a, e')) →
  ∃ w', (on_env m ≫= f) w = f a w' ∧ cursor w' = cursor w.
Proof.
  intros Hm. unfold on_env, mbind, stM_bind. destruct (Hm (env w)) as (e' & ->). eauto.
Qed.

Lemma healthy_drain_bind {B} (f : unit → stM (PollerWorld W) anyhow B) w :
  ∃ w', (drain_pending_before_capture ≫= f) w = f () w' ∧ cursor w' = cursor w.
Proof.
  unfold drain_pending_before_capture, on_env, attempt, mbind, stM_bind.
  destruct (healthy_drain _ Hh (env w)) as (e' & ->). simpl. eauto.
Qed.

Lemma healthy_fetch {B} (f : Z → stM (PollerWorld W) anyhow B) w :
  ∃ w', (fetch_tip_and_persist_target ≫= f) w = f tip w' ∧ cursor w' = cursor w.
Proof.
  assert (fetch_tip_with_retry w = (Ok tip, mkPollerWorld (chain_tip (env w)).2 (poll_cursors w) (cursor w))) as Ht.
  { unfold fetch_tip_with_retry. cbn [fetch_tip_loop]. unfold on_env, attempt, mbind at 1, stM_bind at 1.
    destruct (healthy_tip _ Hh (env w)) as (e' & ->). done. }
  unfold fetch_tip_and_persist_target, on_err, mbind, stM_bind. rewrite Ht. simpl.
  set (w1 := mkPollerWorld _ _ _).
  pose proof (persist_target_same tip w1) as Hs. unfold same_cursor in Hs.
  assert ((persist_poll_cursor_target_best_effort tip w1).1 = Ok ()) as Hok.
  { unfold persist_poll_cursor_target_best_effort, best_effort, get_cursor, gets, attempt, mbind, stM_bind.
    by destruct (upsert_poll_cursor_with_target _ _ _). }
  destruct (persist_poll_cursor_target_best_effort tip w1) as [r w2]. simpl in *. subst r. simpl. eauto.
Qed.

Lemma healthy_poll_tick config w :
  in_i32 (cursor w + 1) →
  cursor (poll_tick config w).2 =
  match tick_window config (cursor w) tip with
  | Some window => Z.max (cursor w) (tw_end window)
  | None => cursor w
  end.
Proof.
  intros Hi. unfold poll_tick.
  match goal with |- context [(on_env refresh_core_cache ≫= ?f) w] =>
    destruct (healthy_bind refresh_core_cache () f w (healthy_refresh _ Hh)) as (w1 & -> & Hw1) end.
  match goal with |- context [(drain_pending_before_capture ≫= ?f) ?w0] =>
    destruct (healthy_drain_bind f w0) as (w2 & -> & Hw2) end.
  match goal with |- context [(fetch_tip_and_persist_target ≫= ?f) ?w0] =>
    destruct (healthy_fetch f w0) as (w3 & -> & Hw3) end.
  unfold get_cursor at 1. unfold mbind at 1, stM_bind at 1. unfold gets at 1.
  rewrite st_attempt_bind.
  assert (cursor w3 = cursor w) as Hc by congruence. rewrite Hc.
  match goal with |- cursor ((?q ≫= _) ?w5).2 = _ =>
    apply (bind_same q _ w5 (λ w', cursor w' = _)) end; [apply prune_same|..].
  - intros w' ->. destruct (tick_window config (cursor w) tip) as [window|]; [|done].
    rewrite run_window_cursor, Hc.
    destruct (healthy_policy (cursor w) TickProgress_default window (env w3) Hi) as (p & e & ->). lia.
  - intros _ w' Hw'. simpl. rewrite Hw'.
    destruct (tick_window config (cursor w) tip) as [window|]; [|done].
    rewrite run_window_cursor, Hc.
    destruct (healthy_policy (cursor w) TickProgress_default window (env w3) Hi) as (p & e & ->). lia.
Qed.

(** [n] ticks. *)
Fixpoint ticks (config : PollerConfig) (n : nat) (w : PollerWorld W) : PollerWorld W :=
  match n with
  | O => w
  | S n => ticks config n (poll_tick config w).2
  end.

Lemma healthy_one_tick config w :
  0 < batch_size config → 0 ≤ reorg_depth config ≤ i32_MAX →
  effective_start (start_height_override config) activation_floor - 1 ≤ cursor w →
  -1 ≤ cursor w → Z.max tip (cursor w) + batch_size config ≤ i32_MAX →
  cursor (poll_tick config w).2 = Z.max (cursor w) (Z.min tip (cursor w + batch_size config)).
Proof.
  intros Hb Hd He Hc Hmax. unfold i32_MAX in *.
  rewrite healthy_poll_tick by (unfold in_i32; lia). unfold tick_window.
  rewrite tick_window_cases by (unfold i32_MAX, i32_MIN; lia). cbv zeta.
  destruct (_ <? _) eqn:E; simpl; lia.
Qed.

Lemma healthy_ticks config n w :
  0 < batch_size config → 0 ≤ reorg_depth config ≤ i32_MAX →
  effective_start (start_height_override config) activation_floor - 1 ≤ cursor w →
  -1 ≤ cursor w → Z.max tip (cursor w) + batch_size config ≤ i32_MAX →
  cursor (ticks config n w) = Z.max (cursor w) (Z.min tip (cursor w + Z.of_nat n * batch_size config)).
Proof.
  intros Hb Hd. revert w. induction n as [|n IH]; intros w He Hc Hmax; simpl ticks; [lia|].
  pose proof (healthy_one_tick config w Hb Hd He Hc Hmax) as Ht. rewrite IH; rewrite Ht; nia.
Qed.
End healthy.

(** ** Start-up *)

Section seed.
Context {W : Type} `{ChainPoller W}.

Definition same_table (w w' : PollerWorld W) : Prop := poll_cursors w' = poll_cursors w.
#[global] Instance same_table_preorder : PreOrder same_table.
Proof. split; [done|]. unfold same_table. intros w1 w2 w3. congruence. Qed.

Lemma steps_run {A} R (m : stM (PollerWorld W) anyhow A) w r w' : steps R m → m w = (r, w') → R w w'.
Proof. intros Hs Hm. specialize (Hs w). by rewrite Hm in Hs. Qed.

Lemma on_env_table {A} (m : stM W anyhow A) : steps same_table (on_env m).
Proof. intros w. unfold on_env. by destruct (m (env w)). Qed.
Hint Resolve on_env_table : steps.
Lemma fetch_tip_table n k : steps same_table (fetch_tip_loop n k).
Proof. revert k. induction n as [|n IH]; intros k; simpl; solve_steps. Qed.
Lemma repair_table : steps same_table run_startup_repair.
Proof. unfold run_startup_repair. solve_steps. Qed.

Lemma load_cursor_spec w c w' :
  load_poll_cursor w = (Ok c, w') →
  c = cursor_height <$> poll_cursors w !! source_id ∧ poll_cursors w' = poll_cursors w.
Proof.
  unfold load_poll_cursor. intros Hl. st_inv.
  match goal with M : on_env db _ = _ |- _ => apply (steps_run _ _ _ _ _ (on_env_table _)) in M as Ht end.
  unfold same_table in Ht. by rewrite Ht.
Qed.

Lemma upsert_spec c target w u w' :
  upsert_poll_cursor_with_target c target w = (Ok u, w') →
  poll_cursors w' = <[source_id := upsert_row (poll_cursors w !! source_id) c target]> (poll_cursors w) ∧
  cursor w' = cursor w.
Proof.
  unfold upsert_poll_cursor_with_target. intros Hl. st_inv.
  match goal with M : on_env db _ = _ |- _ =>
    apply (steps_run _ _ _ _ _ (on_env_table _)) in M as Ht;
    apply (steps_run _ _ _ _ _ (on_env_same _)) in M as Hc end.
  unfold same_table, same_cursor in *. simpl. by rewrite Ht.
Qed.
End seed.

(** ** The supervised poller *)

(** Errors no retry can cure. *)
Definition fatal (e : anyhow) : Prop :=
  recovery_state e = None ∧
  (is_Some (downcast_fault e) ∨ is_bitcoin_core_header_cache_integrity_error e = true ∨
   is_backbone_integrity_error e = true).

Lemma poller_step_returns config t r :
  run_ticks_step (poll_interval config) (wait_after_tick config) t = Return r →
  ∃ e, r = Err e ∧ t = Err e ∧ fatal e.
Proof.
  unfold run_ticks_step, wait_after_tick. destruct t as [o|e]; [done|].
  destruct (recovery_state e) as [s|] eqn:Er; [done|].
  destruct (must_propagate e || is_backbone_integrity_error e) eqn:Em; [|done].
  intros [= <-]. exists e. split_and!; [done..|]. split; [done|].
  unfold must_propagate in Em. rewrite Er in Em. simpl in Em.
  destruct (downcast_fault e) as [f|]; [eauto|]. simpl in Em. apply orb_true_iff in Em as [?|?]; auto.
Qed.

(** ** Claims *)

(** C22. One tick moves the cursor over new heights without a gap: from the cursor, each
    next height was processed in order and advanced, up to the end of the window, a
    held height, or the first error, which is returned; a replayed height never moves
    it, and stops the tick only with an error that must propagate. *)
Theorem tick_policy_gap_free {W} (process : Z → TickHeight → stM W anyhow HeightProgress)
    c p window w r c' p' w' :
  in_i32 (c + 1) →
  run_tick_policy_counting process c p window w = (r, c', p', w') →
  (c' = c ∧ ∃ e, r = Err e ∧ must_propagate e = true) ∨
  ∃ w1 w2, advanced process c w1 c' w2 ∧ c' ≤ Z.max c (tw_end window) ∧
           new_outcome process r c' (Z.max c (tw_end window)) p' w2 w'.
Proof. apply policy_spec. Qed.

(** C4. Whatever fails in a tick (Core, the daemon, the capture, the database), the
    cursor in memory and the stored one only move forward, the stored one never past
    the cursor in memory or its old value, other sources' rows are untouched, and every
    height the cursor passed was processed and advanced in order. *)
Theorem poll_tick_invariant `{ChainPoller W} config w r w' :
  in_i32 (cursor w + 1) → poll_tick config w = (r, w') → cursor_step w w' ∧ reached w w'.
Proof.
  intros Hi Ht. pose proof (poll_tick_step config w) as Hs.
  pose proof (poll_tick_reached config w Hi) as Hr. rewrite Ht in Hs, Hr. done.
Qed.

(** C19. Catching up: on a healthy chain with a fixed tip, [n] ticks take the cursor to
    the tip or [n] batches ahead, so it reaches the tip after enough ticks, even if every
    write of the cursor table fails. *)
Theorem poller_reaches_tip `{ChainPoller W} config tip n w :
  healthy tip → 0 < batch_size config → 0 ≤ reorg_depth config ≤ i32_MAX →
  effective_start (start_height_override config) activation_floor - 1 ≤ cursor w →
  -1 ≤ cursor w ≤ tip → tip + batch_size config ≤ i32_MAX →
  cursor (ticks config n w) = Z.min tip (cursor w + Z.of_nat n * batch_size config) ∧
  (tip - cursor w ≤ Z.of_nat n → cursor (ticks config n w) = tip).
Proof.
  intros Hh Hb Hd He Hc Hm. rewrite (healthy_ticks tip Hh config n w) by (done || lia).
  split; [lia|]. intros Hn. nia.
Qed.

(** The window of a tick, in 32-bit arithmetic: it starts no lower than the effective
    start and exactly [reorg_depth] heights behind the next new one otherwise, ends at the
    tip or one batch ahead, never skips the next new height, and is empty exactly when
    nothing is in reach. *)
Theorem tick_window_bounds eff c tip depth batch :
  -1 ≤ c → c + batch ≤ i32_MAX → i32_MIN ≤ c + 1 - depth → 0 ≤ depth → 0 < batch → eff ≤ c + 1 →
  match compute_tick_window eff c tip depth batch with
  | Some win =>
      eff ≤ rescan_start win ≤ c + 1 ∧ rescan_start win ≤ tw_end win ≤ tip ∧
      tw_end win ≤ c + batch ∧ c + 1 - depth ≤ rescan_start win ∧
      (tw_end win = tip ∨ tw_end win = c + batch)
  | None => tip < Z.max eff (c + 1 - depth)
  end.
Proof.
  intros Hc Hb Hd Hd0 Hb0 He.
  rewrite tick_window_cases by (unfold i32_MAX, i32_MIN in *; lia). cbv zeta.
  destruct (_ <? _) eqn:E; simpl; lia.
Qed.

(** Start-up: the poller starts at the explicit start, else at the stored cursor, else
    behind the tip by the rescan depth, never below the activation floor; and afterwards
    the table has a row for the source, so a restart resumes. *)
Theorem poller_seed `{ChainPoller W} config w w' :
  poller_new config w = (Ok (), w') →
  let eff := effective_start (start_height_override config) activation_floor in
  is_Some (poll_cursors w' !! source_id) ∧ sub_i32 eff 1 ≤ cursor w' ∧
  match start_height_override config, poll_cursors w !! source_id with
  | Some s, _ => cursor w' = Z.max (sub_i32 s 1) (sub_i32 eff 1)
  | None, Some row => cursor w' = Z.max (cursor_height row) (sub_i32 eff 1)
  | None, None => ∃ tip,
      cursor w' = Z.max (sub_i32 tip (reorg_depth config)) (sub_i32 eff 1) ∧
      poll_cursors w' !! source_id = Some (mkPollCursorRow (cursor w') (Some tip))
  end.
Proof.
  intros Hn eff. unfold poller_new in Hn. fold eff in Hn. st_inv.
  apply (steps_run _ _ _ _ _ repair_table) in H0. apply (steps_run _ _ _ _ _ (on_env_table _)) in H1.
  unfold same_table in *.
  match goal with x : (_ * _ * _)%type |- _ => destruct x as [[c persist] target] end. st_inv.
  unfold set_cursor in *. st_inv. simpl.
  destruct (start_height_override config) as [s|] eqn:Es; st_inv;
    match goal with M : load_poll_cursor _ = _ |- _ => apply load_cursor_spec in M as [-> Ht] end;
    rewrite H1, H0 in *; unfold effective_seed_cursor in *;
    destruct (poll_cursors w !! source_id) as [row|] eqn:Er; simpl in *; st_inv.
  - split_and!; [rewrite Ht, Er; eauto|lia|done].
  - apply upsert_spec in H3 as (-> & _). rewrite lookup_insert_eq. split_and!; [eauto|lia|done].
  - split_and!; [rewrite Ht, Er; eauto|lia|done].
  - apply (steps_run _ _ _ _ _ (fetch_tip_table _ _)) in H2. unfold same_table in H2.
    apply upsert_spec in H3 as (-> & _). rewrite lookup_insert_eq, H2, Ht, Er.
    split_and!; [eauto|lia|]. eexists. split; done.
Qed.

(** The supervised poller: however long it runs and whatever its dependencies answer,
    it keeps the invariant of the cursors and a failure count in range, and it stops only
    with a fatal error, a Core fault or a broken header cache or backbone; an outage or a
    failed capture never stops it. *)
Theorem poller_supervised `{ChainPoller W} config entropy n w out p' w' :
  run_ticks (poll_interval config) (tick config) (wait_after_tick config) entropy n
    RetryPolicy_default w = (out, p', w') →
  cursor_step w w' ∧ 0 ≤ failures p' ≤ i64_MAX ∧ (∀ r, out = Some r → ∃ e, r = Err e ∧ fatal e).
Proof.
  intros Hr. eapply (run_ticks_inv cursor_step (λ r, ∃ e, r = Err e ∧ fatal e)) in Hr;
    [exact Hr|apply tick_step| |vm_compute; split; discriminate].
  intros t r (e & -> & _ & Hf)%poller_step_returns. eauto.
Qed.

(** ** Witnesses *)

Module PollerSample.
(** A chain with tip 10 that captures every height; the environment counts calls. *)
#[local] Instance chain : ChainPoller nat := {
  activation_floor := 3;
  source_id := 7;
  chain_tip := λ n, (Ok 10, S n);
  process_height h := λ n, (Ok Advance, S n);
  rescan_height h := λ n, (Ok Advance, S n);
  refresh_core_cache := λ n, (Ok (), n);
  drain_pending := λ n, (Ok (), n);
  sleep_secs _ n := n;
  prune_child_chain_heads_below _ := λ n, (Ok (), n);
  run_reconcile_read_model := λ n, (Ok 0, n);
  warn_if_empty_known_stale_membership := λ n, (Ok (), n);
  db := λ n, if Nat.even n then (Ok (), n) else (Err (Other "connection closed"), n);
}.
Definition config : PollerConfig := mkPollerConfig None 60 2 4.
Definition start : PollerWorld nat := mkPollerWorld 0%nat {[ 7 := mkPollCursorRow 4 None; 9 := mkPollCursorRow 1 None ]} 4.

(** Height 8 is not ready. *)
Definition held (h : Z) (_ : TickHeight) : stM nat anyhow HeightProgress := λ n,
  (Ok (if h =? 8 then Hold else Advance), S n).

Lemma chain_healthy : healthy 10.
Proof. split; eauto. Qed.

Lemma tick_policy_gap_free_witness :
  run_tick_policy_counting held 5 TickProgress_default (mkTickWindow 3 10) 0%nat =
    (Ok (), 7, mkTickProgress 5 true, 6%nat) ∧
  ((7 = 5 ∧ ∃ e, Ok () = Err e ∧ must_propagate e = true) ∨
   ∃ w1 w2, advanced held 5 w1 7 w2 ∧ 7 ≤ Z.max 5 10 ∧
            new_outcome held (Ok ()) 7 (Z.max 5 10) (mkTickProgress 5 true) w2 6%nat).
Proof.
  split; [reflexivity|].
  apply (tick_policy_gap_free held 5 TickProgress_default (mkTickWindow 3 10) 0%nat); [|reflexivity].
  vm_compute; split; discriminate.
Defined.

Lemma poll_tick_invariant_witness :
  cursor_step start (poll_tick config start).2 ∧ cursor (poll_tick config start).2 = 6.
Proof.
  split; [|reflexivity].
  apply (poll_tick_invariant config start (poll_tick config start).1); [|reflexivity].
  vm_compute; split; discriminate.
Defined.

Lemma poller_reaches_tip_witness : cursor (ticks config 6 start) = 10.
Proof.
  apply (poller_reaches_tip config 10 6 start chain_healthy);
    first [split|idtac]; vm_compute; try discriminate; reflexivity.
Defined.

Lemma tick_window_bounds_witness :
  compute_tick_window 3 4 10 4 2 = Some (mkTickWindow 3 6) ∧ 3 ≤ 3 ≤ 5.
Proof.
  split; [reflexivity|].
  apply (tick_window_bounds 3 4 10 4 2); vm_compute; first [discriminate | reflexivity].
Defined.

Lemma poller_seed_witness :
  cursor (poller_new config (mkPollerWorld 0%nat {[ 7 := mkPollCursorRow 9 None ]} 0)).2 = 9.
Proof.
  set (w := mkPollerWorld 0%nat {[ 7 := mkPollCursorRow 9 None ]} 0).
  exact (proj2 (proj2 (poller_seed config w (poller_new config w).2 eq_refl))).
Defined.

Definition five : option (result anyhow unit) * RetryPolicy * PollerWorld nat :=
  run_ticks (poll_interval config) (tick config) (wait_after_tick config) (λ _, (0, 0)) 5
    RetryPolicy_default start.

Lemma poller_supervised_witness : five.1.1 = None ∧ cursor five.2 = 10 ∧ cursor_step start five.2.
Proof.
  split; [vm_compute; reflexivity|]. split; [vm_compute; reflexivity|].
  refine (proj1 (poller_supervised config (λ _, (0, 0)) 5 start five.1.1 five.1.2 five.2 _)).
  fold five. destruct five as [[? ?] ?]. reflexivity.
Defined.
End PollerSample.
