(* ===== verification/Blocks.v ===== *)
(** * The block table

    Models the writes of the table [block]: the row written by the reconciler
    ([BlockInput] of [crates/mmm-read-model/src/lib.rs]), the two upserts of
    [crates/mmm-read-model/src/writers.rs] with the [WHERE] clauses that skip
    idle updates, the coinbase bookkeeping of [mutation/mod.rs], the demotion and
    rebinding of [mutation/core_suffix.rs], and the [CHECK] constraints of the
    schema, which make a statement fail. Creation and update times are left out.
    The pool a coinbase resolves to is a parameter. *)

From S2P Require Import Prelude BitcoinLib Effects Errors Classifier.

Inductive CoreCoinbaseStatus := NotAttempted | Complete | Failed.
#[global] Instance CoreCoinbaseStatus_eq_dec : EqDecision CoreCoinbaseStatus.
Proof. solve_decision. Defined.

Definition CoreCoinbaseStatus_as_db_str (s : CoreCoinbaseStatus) : string :=
  match s with
  | NotAttempted => "not_attempted"
  | Complete => "complete"
  | Failed => "failed"
  end.

Record CoreCoinbaseColumns := mkCoinbaseColumns {
  cc_txid : option bytes;
  cc_script : option bytes;
  cc_outputs : option bytes;
  cc_status : CoreCoinbaseStatus;
}.
Definition CoreCoinbaseColumns_default : CoreCoinbaseColumns :=
  mkCoinbaseColumns None None None NotAttempted.

Definition coinbase_columns (coinbase : option BitcoinCoreBlockCoinbase) : CoreCoinbaseColumns :=
  match coinbase with
  | Some c => mkCoinbaseColumns (Some (bc_txid c)) (Some (bc_script c)) (Some (bc_outputs c)) Complete
  | None => CoreCoinbaseColumns_default
  end.

(** A row of the table, and the values of an upsert. *)
Record BlockInput := mkBlockInput {
  b_hash : bytes;
  b_prev_hash : bytes;
  b_height : option Z;
  b_height_source : option HeightSource;
  b_kind : BlockKind;
  b_header_bytes : bytes;
  b_header_time : Z;
  b_bitcoin_miner_pool_id : option Z;
  b_coinbase_txid : option bytes;
  b_coinbase_script : option bytes;
  b_coinbase_outputs : option bytes;
  b_coinbase_status : CoreCoinbaseStatus;
  b_invalid_block_reason : option string;
  b_canonical_competitor_hash : option bytes;
  b_total_attestations : Z;
  b_distinct_sources : Z;
  b_auxpow_chain_count : Z;
  b_live_observed : bool;
  b_core_attested : bool;
  b_pow_validated : bool;
  b_difficulty_epoch_ok : option bool;
  b_first_attested_at : option Z;
  b_last_attested_at : option Z;
  b_btc_orphan_class : option string;
}.
#[global] Instance BlockInput_eq_dec : EqDecision BlockInput.
Proof. solve_decision. Defined.

Inductive BlockWriteMode := EventRollup | SynthesizedCore.

(** ** The schema *)

(** [chk_block_kind_height], [chk_block_invalid_block_reason],
    [chk_block_orphan_class_unknown_only], [chk_block_competitor_not_self] and
    [chk_block_btc_coinbase_complete_has_script]. *)
Definition chk_block_kind_height (r : BlockInput) : bool :=
  match b_kind r with
  | BkCanonical =>
      bool_decide (is_Some (b_height r)) && bool_decide (b_height_source r = Some HsBitcoinCore)
      && bool_decide (b_canonical_competitor_hash r = None)
  | BkStale =>
      bool_decide (is_Some (b_height r))
      && bool_decide (b_height_source r ∈ [Some HsBitcoinCore; Some HsPrevCanonical; Some HsPrevStale])
      && bool_decide (is_Some (b_canonical_competitor_hash r))
  | BkInvalidBlock =>
      bool_decide (is_Some (b_height r))
      && bool_decide (b_height_source r ∈ [Some HsInvalidBlockCatalog; Some HsPrevCanonical; Some HsPrevStale])
      && bool_decide (b_canonical_competitor_hash r = None)
  | BkUnknown =>
      bool_decide (b_height r = None) && bool_decide (b_height_source r = None)
      && bool_decide (b_canonical_competitor_hash r = None)
  end.

Definition chk_block (r : BlockInput) : bool :=
  chk_block_kind_height r
  && eqb (bool_decide (b_kind r = BkInvalidBlock)) (is_some (b_invalid_block_reason r))
  && (negb (is_some (b_btc_orphan_class r)) || bool_decide (b_kind r = BkUnknown))
  && negb (bool_decide (b_canonical_competitor_hash r = Some (b_hash r)))
  && (negb (bool_decide (b_coinbase_status r = Complete)) || is_some (b_coinbase_script r)).

(** Tables by primary key. *)
#[global] Instance byte_eq_dec : EqDecision byte := Strings.Byte.byte_eq_dec.
#[global, program] Instance byte_countable : Countable byte :=
  inj_countable Strings.Byte.to_N Strings.Byte.of_N Strings.Byte.of_to_N.

Abbreviation block_table := (gmap bytes BlockInput).

(** Every row is stored under its hash and satisfies the checks. *)
Definition table_ok (t : block_table) : Prop :=
  ∀ h r, t !! h = Some r → b_hash r = h ∧ chk_block r = true.

(** ** The upserts *)

(** [COALESCE]. *)
Definition coalesce {A} (a b : option A) : option A := match a with Some _ => a | None => b end.

(** [COINBASE_MERGE_SET]: the status. *)
Definition coinbase_status_merge (old new : CoreCoinbaseStatus) : CoreCoinbaseStatus :=
  if bool_decide (new = Complete) then Complete
  else if bool_decide (new = Failed) && negb (bool_decide (old = Complete)) then Failed
  else old.

(** [COINBASE_MERGE_WHERE]. *)
Definition coinbase_differs (old new : BlockInput) : bool :=
  negb (bool_decide (b_coinbase_txid old = coalesce (b_coinbase_txid new) (b_coinbase_txid old)))
  || negb (bool_decide (b_coinbase_script old = coalesce (b_coinbase_script new) (b_coinbase_script old)))
  || negb (bool_decide (b_coinbase_outputs old = coalesce (b_coinbase_outputs new) (b_coinbase_outputs old)))
  || negb (bool_decide (b_coinbase_status old =
                        coinbase_status_merge (b_coinbase_status old) (b_coinbase_status new))).

(** [SYNTHESIZED_BITCOIN_MINER_POOL_MERGE]. *)
Definition synthesized_pool_merge (old new : BlockInput) : option Z :=
  if is_some (b_coinbase_script new) && is_some (b_bitcoin_miner_pool_id new)
  then b_bitcoin_miner_pool_id new else b_bitcoin_miner_pool_id old.

(** [EVENT_ROLLUP_UPSERT_SQL]: the [SET] and [WHERE] of the conflict clause. *)
Definition event_rollup_set (old new : BlockInput) : BlockInput :=
  {| b_hash := b_hash old;
     b_prev_hash := b_prev_hash new;
     b_height := b_height new;
     b_height_source := b_height_source new;
     b_kind := b_kind new;
     b_header_bytes := b_header_bytes new;
     b_header_time := b_header_time new;
     b_bitcoin_miner_pool_id := b_bitcoin_miner_pool_id new;
     b_coinbase_txid := coalesce (b_coinbase_txid new) (b_coinbase_txid old);
     b_coinbase_script := coalesce (b_coinbase_script new) (b_coinbase_script old);
     b_coinbase_outputs := coalesce (b_coinbase_outputs new) (b_coinbase_outputs old);
     b_coinbase_status := coinbase_status_merge (b_coinbase_status old) (b_coinbase_status new);
     b_invalid_block_reason := b_invalid_block_reason new;
     b_canonical_competitor_hash := b_canonical_competitor_hash new;
     b_total_attestations := b_total_attestations new;
     b_distinct_sources := b_distinct_sources new;
     b_auxpow_chain_count := b_auxpow_chain_count new;
     b_live_observed := b_live_observed new;
     b_core_attested := b_core_attested new;
     b_pow_validated := b_pow_validated new;
     b_difficulty_epoch_ok := b_difficulty_epoch_ok new;
     b_first_attested_at := b_first_attested_at new;
     b_last_attested_at := b_last_attested_at new;
     b_btc_orphan_class := b_btc_orphan_class new |}.

(** [IS DISTINCT FROM]. *)
Definition distinct_from {A} `{EqDecision A} (x y : A) : bool := negb (bool_decide (x = y)).

Definition event_rollup_where (old new : BlockInput) : bool :=
  distinct_from (b_prev_hash old) (b_prev_hash new)
  || distinct_from (b_height old) (b_height new)
  || distinct_from (b_height_source old) (b_height_source new)
  || distinct_from (b_kind old) (b_kind new)
  || distinct_from (b_header_bytes old) (b_header_bytes new)
  || distinct_from (b_header_time old) (b_header_time new)
  || distinct_from (b_bitcoin_miner_pool_id old) (b_bitcoin_miner_pool_id new)
  || coinbase_differs old new
  || distinct_from (b_canonical_competitor_hash old) (b_canonical_competitor_hash new)
  || distinct_from (b_total_attestations old) (b_total_attestations new)
  || distinct_from (b_distinct_sources old) (b_distinct_sources new)
  || distinct_from (b_auxpow_chain_count old) (b_auxpow_chain_count new)
  || distinct_from (b_live_observed old) (b_live_observed new)
  || distinct_from (b_core_attested old) (b_core_attested new)
  || distinct_from (b_pow_validated old) (b_pow_validated new)
  || distinct_from (b_difficulty_epoch_ok old) (b_difficulty_epoch_ok new)
  || distinct_from (b_first_attested_at old) (b_first_attested_at new)
  || distinct_from (b_last_attested_at old) (b_last_attested_at new)
  || distinct_from (b_invalid_block_reason old) (b_invalid_block_reason new)
  || distinct_from (b_btc_orphan_class old) (b_btc_orphan_class new).

(** [SYNTHESIZED_CORE_UPSERT_SQL]: a Core-attested canonical row promotes any other. *)
Definition promotes (old new : BlockInput) : bool :=
  b_core_attested new && bool_decide (b_kind new = BkCanonical)
  && negb (bool_decide (b_kind old = BkCanonical)).

Definition synthesized_set (old new : BlockInput) : BlockInput :=
  let p := promotes old new in
  let attested := b_live_observed old || b_core_attested old || b_live_observed new || b_core_attested new in
  {| b_hash := b_hash old;
     b_prev_hash := b_prev_hash new;
     b_height := if p then b_height new else coalesce (b_height old) (b_height new);
     b_height_source := if p then b_height_source new
                        else coalesce (b_height_source old) (b_height_source new);
     b_kind := if p then b_kind new
               else if bool_decide (b_kind old = BkUnknown) then b_kind new else b_kind old;
     b_header_bytes := b_header_bytes new;
     b_header_time := b_header_time new;
     b_bitcoin_miner_pool_id := synthesized_pool_merge old new;
     b_coinbase_txid := coalesce (b_coinbase_txid new) (b_coinbase_txid old);
     b_coinbase_script := coalesce (b_coinbase_script new) (b_coinbase_script old);
     b_coinbase_outputs := coalesce (b_coinbase_outputs new) (b_coinbase_outputs old);
     b_coinbase_status := coinbase_status_merge (b_coinbase_status old) (b_coinbase_status new);
     b_invalid_block_reason := coalesce (b_invalid_block_reason old) (b_invalid_block_reason new);
     b_canonical_competitor_hash := if p then None else b_canonical_competitor_hash old;
     b_total_attestations := b_total_attestations old;
     b_distinct_sources := Z.max (b_distinct_sources old) (b_distinct_sources new);
     b_auxpow_chain_count := b_auxpow_chain_count old;
     b_live_observed := attested;
     b_core_attested := attested;
     b_pow_validated := b_pow_validated old || b_pow_validated new;
     b_difficulty_epoch_ok := coalesce (b_difficulty_epoch_ok old) (b_difficulty_epoch_ok new);
     b_first_attested_at := b_first_attested_at old;
     b_last_attested_at := b_last_attested_at old;
     b_btc_orphan_class := None |}.

Definition synthesized_where (old new : BlockInput) : bool :=
  distinct_from (b_prev_hash old) (b_prev_hash new)
  || distinct_from (b_height old) (coalesce (b_height old) (b_height new))
  || promotes old new
  || distinct_from (b_bitcoin_miner_pool_id old) (synthesized_pool_merge old new)
  || coinbase_differs old new
  || bool_decide (b_kind old = BkUnknown)
  || distinct_from (b_live_observed old) (b_core_attested old)
  || negb (b_live_observed old)
  || negb (b_core_attested old)
  || negb (b_pow_validated old)
  || negb (is_some (b_difficulty_epoch_ok old)).

Definition ensure_live_core_lockstep (b : BlockInput) : result anyhow unit :=
  ensure (eqb (b_live_observed b) (b_core_attested b)) (Other "live/core flag drift").

(** The values of an insert: [SynthesizedCore] leaves [btc_orphan_class] null. *)
Definition insert_values (b : BlockInput) (mode : BlockWriteMode) : BlockInput :=
  match mode with
  | EventRollup => b
  | SynthesizedCore =>
      {| b_hash := b_hash b; b_prev_hash := b_prev_hash b; b_height := b_height b;
         b_height_source := b_height_source b; b_kind := b_kind b;
         b_header_bytes := b_header_bytes b; b_header_time := b_header_time b;
         b_bitcoin_miner_pool_id := b_bitcoin_miner_pool_id b;
         b_coinbase_txid := b_coinbase_txid b; b_coinbase_script := b_coinbase_script b;
         b_coinbase_outputs := b_coinbase_outputs b; b_coinbase_status := b_coinbase_status b;
         b_invalid_block_reason := b_invalid_block_reason b;
         b_canonical_competitor_hash := b_canonical_competitor_hash b;
         b_total_attestations := b_total_attestations b; b_distinct_sources := b_distinct_sources b;
         b_auxpow_chain_count := b_auxpow_chain_count b; b_live_observed := b_live_observed b;
         b_core_attested := b_core_attested b; b_pow_validated := b_pow_validated b;
         b_difficulty_epoch_ok := b_difficulty_epoch_ok b;
         b_first_attested_at := b_first_attested_at b; b_last_attested_at := b_last_attested_at b;
         b_btc_orphan_class := None |}
  end.

Definition conflict_set (mode : BlockWriteMode) : BlockInput → BlockInput → BlockInput :=
  match mode with EventRollup => event_rollup_set | SynthesizedCore => synthesized_set end.
Definition conflict_where (mode : BlockWriteMode) : BlockInput → BlockInput → bool :=
  match mode with EventRollup => event_rollup_where | SynthesizedCore => synthesized_where end.

(** A row is stored only if it passes the checks and its competitor exists. *)
Definition store_row (t : block_table) (r : BlockInput) : result anyhow block_table :=
  _ ← ensure (chk_block r) (Other "check constraint of block");
  _ ← ensure match b_canonical_competitor_hash r with
             | Some c => is_some (t !! c) | None => true end
        (Other "foreign key of canonical_competitor_hash");
  mret (<[b_hash r := r]> t).

Definition upsert_block_row (t : block_table) (b : BlockInput) (mode : BlockWriteMode)
    : result anyhow block_table :=
  _ ← ensure_live_core_lockstep b;
  match t !! b_hash b with
  | None => store_row t (insert_values b mode)
  | Some old => if conflict_where mode old b then store_row t (conflict_set mode old b) else Ok t
  end.

Section synthesized.
Context `{BitcoinLib} (resolve_core_coinbase_pool_id : option BitcoinCoreBlockCoinbase → option Z).

Definition synthesized_block (h : ClassifiedHeader) : BlockInput :=
  let coinbase := coinbase_columns (cl_coinbase h) in
  {| b_hash := cl_hash h;
     b_prev_hash := cl_prev_hash h;
     b_height := Some (cl_height h);
     b_height_source := Some HsBitcoinCore;
     b_kind := BkCanonical;
     b_header_bytes := serialize_header (cl_header h);
     b_header_time := hdr_time (cl_header h);
     b_bitcoin_miner_pool_id := resolve_core_coinbase_pool_id (cl_coinbase h);
     b_coinbase_txid := cc_txid coinbase;
     b_coinbase_script := cc_script coinbase;
     b_coinbase_outputs := cc_outputs coinbase;
     b_coinbase_status := cc_status coinbase;
     b_invalid_block_reason := None;
     b_canonical_competitor_hash := None;
     b_total_attestations := 0;
     b_distinct_sources := 1;
     b_auxpow_chain_count := 0;
     b_live_observed := true;
     b_core_attested := true;
     b_pow_validated := true;
     b_difficulty_epoch_ok := Some true;
     b_first_attested_at := None;
     b_last_attested_at := None;
     b_btc_orphan_class := None |}.

Definition upsert_synthesized_canonical (t : block_table) (h : ClassifiedHeader)
    : result anyhow block_table :=
  upsert_block_row t (synthesized_block h) SynthesizedCore.

Definition upsert_core_canonical_header_with_coinbase (t : block_table) (header : Header)
    (height : Z) (coinbase : option BitcoinCoreBlockCoinbase) : result anyhow block_table :=
  upsert_synthesized_canonical t
    {| cl_hash := block_hash header; cl_prev_hash := prev_blockhash header; cl_header := header;
       cl_height := height; cl_coinbase := coinbase; coinbase_unavailable := false |}.
End synthesized.

(** ** Other writes *)

Definition set_coinbase_status (r : BlockInput) (s : CoreCoinbaseStatus) : BlockInput :=
  {| b_hash := b_hash r; b_prev_hash := b_prev_hash r; b_height := b_height r;
     b_height_source := b_height_source r; b_kind := b_kind r;
     b_header_bytes := b_header_bytes r; b_header_time := b_header_time r;
     b_bitcoin_miner_pool_id := b_bitcoin_miner_pool_id r;
     b_coinbase_txid := b_coinbase_txid r; b_coinbase_script := b_coinbase_script r;
     b_coinbase_outputs := b_coinbase_outputs r; b_coinbase_status := s;
     b_invalid_block_reason := b_invalid_block_reason r;
     b_canonical_competitor_hash := b_canonical_competitor_hash r;
     b_total_attestations := b_total_attestations r; b_distinct_sources := b_distinct_sources r;
     b_auxpow_chain_count := b_auxpow_chain_count r; b_live_observed := b_live_observed r;
     b_core_attested := b_core_attested r; b_pow_validated := b_pow_validated r;
     b_difficulty_epoch_ok := b_difficulty_epoch_ok r;
     b_first_attested_at := b_first_attested_at r; b_last_attested_at := b_last_attested_at r;
     b_btc_orphan_class := b_btc_orphan_class r |}.

(** [record_coinbase_failure]: by height and hash, never over a complete coinbase. *)
Definition record_coinbase_failure (t : block_table) (height : Z) (hash : bytes)
    : result anyhow block_table :=
  match t !! hash with
  | Some r =>
      if bool_decide (b_height r = Some height) && negb (bool_decide (b_coinbase_status r = Complete))
      then store_row t (set_coinbase_status r Failed) else Ok t
  | None => Ok t
  end.

(** [demote_displaced_parent] of a block no event anchors: the [UPDATE]. *)
Definition demoted (r : BlockInput) (height : Z) (competitor : bytes) : BlockInput :=
  {| b_hash := b_hash r; b_prev_hash := b_prev_hash r; b_height := Some height;
     b_height_source := Some HsBitcoinCore; b_kind := BkStale;
     b_header_bytes := b_header_bytes r; b_header_time := b_header_time r;
     b_bitcoin_miner_pool_id := b_bitcoin_miner_pool_id r;
     b_coinbase_txid := b_coinbase_txid r; b_coinbase_script := b_coinbase_script r;
     b_coinbase_outputs := b_coinbase_outputs r; b_coinbase_status := b_coinbase_status r;
     b_invalid_block_reason := None;
     b_canonical_competitor_hash := Some competitor;
     b_total_attestations := b_total_attestations r; b_distinct_sources := b_distinct_sources r;
     b_auxpow_chain_count := b_auxpow_chain_count r; b_live_observed := true;
     b_core_attested := true; b_pow_validated := true;
     b_difficulty_epoch_ok := Some true;
     b_first_attested_at := b_first_attested_at r; b_last_attested_at := b_last_attested_at r;
     b_btc_orphan_class := None |}.

Definition demote_unanchored (t : block_table) (hash : bytes) (height : Z) (competitor : bytes)
    : result anyhow block_table :=
  match t !! hash with
  | Some r => store_row t (demoted r height competitor)
  | None => Ok t
  end.

(** [rebind_stale_competitors]: the stale rows of a height that name a displaced block. *)
Definition set_competitor (r : BlockInput) (c : bytes) : BlockInput :=
  {| b_hash := b_hash r; b_prev_hash := b_prev_hash r; b_height := b_height r;
     b_height_source := b_height_source r; b_kind := b_kind r;
     b_header_bytes := b_header_bytes r; b_header_time := b_header_time r;
     b_bitcoin_miner_pool_id := b_bitcoin_miner_pool_id r;
     b_coinbase_txid := b_coinbase_txid r; b_coinbase_script := b_coinbase_script r;
     b_coinbase_outputs := b_coinbase_outputs r; b_coinbase_status := b_coinbase_status r;
     b_invalid_block_reason := b_invalid_block_reason r;
     b_canonical_competitor_hash := Some c;
     b_total_attestations := b_total_attestations r; b_distinct_sources := b_distinct_sources r;
     b_auxpow_chain_count := b_auxpow_chain_count r; b_live_observed := b_live_observed r;
     b_core_attested := b_core_attested r; b_pow_validated := b_pow_validated r;
     b_difficulty_epoch_ok := b_difficulty_epoch_ok r;
     b_first_attested_at := b_first_attested_at r; b_last_attested_at := b_last_attested_at r;
     b_btc_orphan_class := b_btc_orphan_class r |}.

Definition rebinds (height : Z) (displaced : bytes) (r : BlockInput) : bool :=
  bool_decide (b_kind r = BkStale) && bool_decide (b_height r = Some height)
  && bool_decide (b_canonical_competitor_hash r = Some displaced).

Definition rebind_stale_competitors (t : block_table) (height : Z) (displaced replacement : bytes)
    : result anyhow block_table :=
  let t' := (λ r, if rebinds height displaced r then set_competitor r replacement else r) <$> t in
  _ ← ensure (bool_decide (map_Forall (λ _ r, chk_block r = true) t')) (Other "check constraint of block");
  _ ← ensure (bool_decide (map_Forall (λ _ r, rebinds height displaced r = false) t)
              || is_some (t !! replacement))
        (Other "foreign key of canonical_competitor_hash");
  mret t'.

(** ** Lemmas *)

Lemma distinct_false {A} `{EqDecision A} (x y : A) : distinct_from x y = false ↔ x = y.
Proof. unfold distinct_from. rewrite negb_false_iff, bool_decide_eq_true. done. Qed.

Lemma store_row_Ok t r t' :
  store_row t r = Ok t' ↔
  chk_block r = true ∧ (∀ c, b_canonical_competitor_hash r = Some c → is_Some (t !! c)) ∧
  t' = <[b_hash r := r]> t.
Proof.
  unfold store_row. rewrite bind_Ok. setoid_rewrite ensure_Ok. setoid_rewrite bind_Ok.
  setoid_rewrite ensure_Ok. split.
  - intros ([] & Hc & [] & Hf & [= <-]). split_and!; [done| |done]. intros c Hcc. rewrite Hcc in Hf.
    by apply is_some_true.
  - intros (Hc & Hf & ->). exists (). split; [done|]. exists (). split; [|done].
    destruct (b_canonical_competitor_hash r) as [c|]; [|done]. apply is_some_true. auto.
Qed.

Lemma table_ok_insert t r : table_ok t → chk_block r = true → table_ok (<[b_hash r := r]> t).
Proof.
  intros Ht Hr h r' Hl. apply lookup_insert_Some in Hl as [[<- <-]|[_ Hl]]; [done|by apply Ht].
Qed.

Lemma store_row_ok t r t' : table_ok t → store_row t r = Ok t' → table_ok t'.
Proof. intros Ht (Hc & _ & ->)%store_row_Ok. by apply table_ok_insert. Qed.

Ltac destruct_chk H :=
  unfold chk_block, chk_block_kind_height in H; rewrite !andb_true_iff in H;
  destruct H as ((((? & ?) & ?) & ?) & ?).

(** The conflict clause of the rollup skips exactly the updates that change nothing. *)
Lemma event_rollup_where_false old new :
  event_rollup_where old new = false ↔ event_rollup_set old new = old.
Proof.
  unfold event_rollup_where, coinbase_differs, event_rollup_set.
  rewrite !orb_false_iff, !negb_false_iff, !bool_decide_eq_true, !distinct_false.
  destruct old, new; simpl. split.
  - intros. destruct_and!. subst. by f_equal.
  - intros [=]. by split_and!.
Qed.

Lemma synthesized_where_false old new :
  chk_block old = true → b_core_attested new = true → b_kind new = BkCanonical →
  b_header_bytes new = b_header_bytes old → b_header_time new = b_header_time old →
  b_distinct_sources new ≤ b_distinct_sources old → b_invalid_block_reason new = None →
  synthesized_where old new = false → synthesized_set old new = old ∧ b_kind old = BkCanonical.
Proof.
  intros Hchk Hca Hk Hb Ht Hd Hi. unfold synthesized_where, promotes, coinbase_differs, synthesized_set.
  unfold promotes. rewrite Hca, Hk. simpl.
  rewrite !orb_false_iff, !negb_false_iff, !bool_decide_eq_true, !distinct_false.
  rewrite bool_decide_eq_false. intros. destruct_and!. destruct_chk Hchk.
  destruct old as [? ? ? ? k]. simpl in *. subst k. simpl in *.
  repeat match goal with H : _ && _ = true |- _ => apply andb_true_iff in H as [? ?] end.
  repeat match goal with H : bool_decide _ = true |- _ => apply bool_decide_eq_true in H end.
  split; [|done]. rewrite Hb, Ht. subst.
  repeat match goal with H : is_some ?o = true |- _ => apply is_some_true in H as [? ->] end.
  f_equal; try done || (symmetry; assumption) || lia.
  - rewrite Hi. by destruct b_invalid_block_reason0.
  - by destruct b_btc_orphan_class0.
Qed.

(** ** Core writes of a canonical row *)

Section core_write.
Context `{BitcoinLib} (resolve : option BitcoinCoreBlockCoinbase → option Z).

Lemma synthesized_block_chk h : chk_block (synthesized_block resolve h) = true.
Proof. unfold chk_block, synthesized_block. destruct (cl_coinbase h); done. Qed.

Lemma status_merge_complete old new :
  coinbase_status_merge old new = Complete ↔ old = Complete ∨ new = Complete.
Proof. destruct old, new; vm_compute; naive_solver. Qed.

Lemma coalesce_Some {A} (a b : option A) : is_Some (coalesce a b) ↔ is_Some a ∨ is_Some b.
Proof. destruct a, b; simpl; split; try (by eauto); intros [[]|[]]; eauto. Qed.

(** A promoted or refreshed row passes the checks unless it was an invalid block. *)
Lemma synthesized_set_chk old h :
  chk_block old = true → b_kind old ≠ BkInvalidBlock →
  chk_block (synthesized_set old (synthesized_block resolve h)) = true ∧
  b_kind (synthesized_set old (synthesized_block resolve h)) = BkCanonical.
Proof.
  intros Hchk Hk. destruct_chk Hchk.
  unfold synthesized_set, promotes, synthesized_block, chk_block, chk_block_kind_height.
  destruct old as [hash prev height hs k ? ? ? ? script ? status reason comp]. simpl in *.
  assert (reason = None) as -> by (destruct k, reason; done).
  assert (match k with BkCanonical => is_Some height ∧ hs = Some HsBitcoinCore ∧ comp = None | _ => True end) as Hcan.
  { destruct k; try done. rewrite !andb_true_iff, !bool_decide_eq_true in *. naive_solver. }
  destruct k; try done; simpl in *.
  1: destruct Hcan as ([? ->] & -> & ->).
  all: destruct (cl_coinbase h), script, status; done.
Qed.
End core_write.

(** ** Sequences of writes *)

(** One committed write of the table. *)
Inductive block_write (t : block_table) : block_table → Prop :=
| write_upsert b mode t' : upsert_block_row t b mode = Ok t' → block_write t t'
| write_failure height hash t' : record_coinbase_failure t height hash = Ok t' → block_write t t'
| write_demote hash height competitor t' :
    demote_unanchored t hash height competitor = Ok t' → block_write t t'
| write_rebind height displaced replacement t' :
    rebind_stale_competitors t height displaced replacement = Ok t' → block_write t t'.

(** Coinbase evidence is kept, and a complete coinbase stays complete. *)
Definition evidence_kept (r r' : BlockInput) : Prop :=
  (b_coinbase_status r = Complete → b_coinbase_status r' = Complete) ∧
  (is_Some (b_coinbase_txid r) → is_Some (b_coinbase_txid r')) ∧
  (is_Some (b_coinbase_script r) → is_Some (b_coinbase_script r')) ∧
  (is_Some (b_coinbase_outputs r) → is_Some (b_coinbase_outputs r')).

#[global] Instance evidence_kept_preorder : PreOrder evidence_kept.
Proof. split; [done|]. unfold evidence_kept. intros r1 r2 r3. naive_solver. Qed.

Definition rows_kept (t t' : block_table) : Prop :=
  ∀ h r, t !! h = Some r → ∃ r', t' !! h = Some r' ∧ evidence_kept r r'.

#[global] Instance rows_kept_preorder : PreOrder rows_kept.
Proof.
  split; [by intros t h r Hr; exists r|].
  intros t1 t2 t3 H1 H2 h r (r1 & Hr1 & He1)%H1. apply H2 in Hr1 as (r2 & Hr2 & He2).
  exists r2. split; [done|by etrans].
Qed.

Lemma store_row_kept t r0 r t' :
  t !! b_hash r = Some r0 → evidence_kept r0 r → store_row t r = Ok t' → rows_kept t t'.
Proof.
  intros H0 He (_ & _ & ->)%store_row_Ok h r1 Hr1.
  destruct (decide (h = b_hash r)) as [->|Hne].
  - exists r. rewrite lookup_insert_eq. split; [done|]. by replace r1 with r0 by congruence.
  - exists r1. by rewrite lookup_insert_ne by done.
Qed.

Lemma store_row_fresh_kept t r t' : t !! b_hash r = None → store_row t r = Ok t' → rows_kept t t'.
Proof.
  intros H0 (_ & _ & ->)%store_row_Ok h r1 Hr1. exists r1.
  rewrite lookup_insert_ne by congruence. done.
Qed.

Lemma coinbase_set_kept mode old new : evidence_kept old (conflict_set mode old new).
Proof.
  unfold evidence_kept. destruct mode; simpl; rewrite status_merge_complete, !coalesce_Some; auto.
Qed.

Lemma upsert_kept t b mode t' : table_ok t → upsert_block_row t b mode = Ok t' → rows_kept t t'.
Proof.
  intros Ht Hu. unfold upsert_block_row in Hu. apply bind_Ok in Hu as ([] & _ & Hu).
  destruct (t !! b_hash b) as [old|] eqn:Ho.
  - destruct (conflict_where mode old b); [|by simplify_eq].
    destruct (Ht _ _ Ho) as [Hh _].
    eapply (store_row_kept _ old); [|apply (coinbase_set_kept mode)|exact Hu].
    by destruct mode; simpl; rewrite Hh.
  - eapply store_row_fresh_kept; [|exact Hu]. by destruct mode.
Qed.

Lemma rebind_spec t height displaced replacement t' :
  rebind_stale_competitors t height displaced replacement = Ok t' →
  map_Forall (λ _ r, chk_block r = true) t' ∧
  t' = (λ r, if rebinds height displaced r then set_competitor r replacement else r) <$> t.
Proof.
  unfold rebind_stale_competitors. intros Hr. apply bind_Ok in Hr as ([] & Hc & Hr).
  apply bind_Ok in Hr as ([] & _ & [= <-]). apply ensure_Ok, bool_decide_eq_true in Hc. done.
Qed.

Lemma block_write_step t t' : table_ok t → block_write t t' → table_ok t' ∧ rows_kept t t'.
Proof.
  intros Ht [b mode t1 Hu|height hash t1 Hu|hash height c t1 Hu|height d rep t1 Hu].
  - split; [|by eapply upsert_kept]. unfold upsert_block_row in Hu.
    apply bind_Ok in Hu as ([] & _ & Hu).
    destruct (t !! b_hash b); [|by eapply store_row_ok]. destruct (conflict_where _ _ _); [|by simplify_eq].
    by eapply store_row_ok.
  - unfold record_coinbase_failure in Hu. destruct (t !! hash) as [r|] eqn:Hr; [|by simplify_eq].
    destruct (bool_decide _ && _) eqn:E; [|by simplify_eq]. split; [by eapply store_row_ok|].
    destruct (Ht _ _ Hr) as [Hh _]. eapply (store_row_kept _ r (set_coinbase_status r Failed)); [by simpl; rewrite Hh| |exact Hu].
    apply andb_true_iff in E as [_ E%negb_true_iff%bool_decide_eq_false]. split_and!; simpl; done.
  - unfold demote_unanchored in Hu. destruct (t !! hash) as [r|] eqn:Hr; [|by simplify_eq].
    split; [by eapply store_row_ok|]. destruct (Ht _ _ Hr) as [Hh _].
    eapply (store_row_kept _ r (demoted r height c)); [by simpl; rewrite Hh| |exact Hu]. done.
  - apply rebind_spec in Hu as [Hc ->]. split.
    + intros h r Hl. split; [|by eapply Hc]. apply lookup_fmap_Some in Hl as (r0 & <- & Hl).
      destruct (Ht _ _ Hl) as [Hh _]. by destruct (rebinds _ _ _).
    + intros h r Hl. exists (if rebinds height d r then set_competitor r rep else r).
      rewrite lookup_fmap, Hl. split; [done|]. by destruct (rebinds _ _ _).
Qed.

Section core_upsert.
Context `{BitcoinLib} (resolve : option BitcoinCoreBlockCoinbase → option Z).

Lemma synthesized_set_invalid old h :
  chk_block old = true → b_kind old = BkInvalidBlock →
  chk_block (synthesized_set old (synthesized_block resolve h)) = false.
Proof.
  intros Hchk Hk. destruct_chk Hchk. destruct old as [? ? ? ? k ? ? ? ? ? ? ? reason]. simpl in *. subst k.
  destruct reason; [|done]. unfold chk_block, synthesized_set, promotes. simpl.
  unfold chk_block_kind_height. simpl. by rewrite ?andb_false_r.
Qed.

(** What the write promises of the stored row. *)
Definition core_row (old : option BlockInput) (h : ClassifiedHeader) (r : BlockInput) : Prop :=
  b_kind r = BkCanonical ∧ b_prev_hash r = cl_prev_hash h ∧
  b_live_observed r = true ∧ b_core_attested r = true ∧ b_btc_orphan_class r = None ∧
  b_height r = match old with
               | Some old => if bool_decide (b_kind old = BkCanonical)
                             then b_height old else Some (cl_height h)
               | None => Some (cl_height h) end ∧
  (∀ c, cl_coinbase h = Some c →
     b_coinbase_status r = Complete ∧ b_coinbase_script r = Some (bc_script c)).

Lemma synthesized_set_row old h :
  chk_block old = true → b_kind old ≠ BkInvalidBlock →
  core_row (Some old) h (synthesized_set old (synthesized_block resolve h)).
Proof.
  intros Hchk Hk. destruct (synthesized_set_chk resolve old h Hchk Hk) as [_ Hkind].
  unfold core_row. rewrite Hkind. destruct_chk Hchk. unfold synthesized_set, promotes. simpl.
  rewrite !orb_true_r. split_and!; try done.
  - destruct (bool_decide_reflect (b_kind old = BkCanonical)) as [Hc|Hc]; simpl; [|done].
    rewrite Hc in *. apply andb_true_iff in H0 as [[[? ->]%bool_decide_eq_true _]%andb_true_iff _]. done.
  - intros c ->. simpl. by rewrite status_merge_complete; auto.
Qed.

Lemma synthesized_skip_row old h :
  chk_block old = true → synthesized_where old (synthesized_block resolve h) = false →
  core_row (Some old) h old.
Proof.
  intros Hchk. unfold synthesized_where, promotes, coinbase_differs. simpl.
  rewrite !orb_false_iff, !negb_false_iff, !bool_decide_eq_true, !distinct_false. intros. destruct_and!.
  destruct_chk Hchk. unfold core_row.
  repeat match goal with E : b_kind old = _ |- _ => rewrite E in * end. rewrite bool_decide_true by done.
  split_and!; try done.
  - by destruct (b_btc_orphan_class old).
  - intros c Hc. rewrite Hc in *. simpl in *. split; [|done].
    match goal with E : b_coinbase_status old = coinbase_status_merge _ _ |- _ => rewrite E end.
    apply status_merge_complete. auto.
Qed.

Lemma store_block_row t b r :
  table_ok t → b_hash r = b → chk_block r = true →
  (∀ c, b_canonical_competitor_hash r = Some c → is_Some (t !! c)) →
  store_row t r = Ok (<[b := r]> t) ∧ table_ok (<[b := r]> t).
Proof.
  intros Ht <- Hchk Hf. split; [by apply store_row_Ok|by apply table_ok_insert].
Qed.

Lemma synthesized_upsert_spec t h :
  table_ok t →
  match upsert_synthesized_canonical resolve t h with
  | Ok t' => table_ok t' ∧ (∀ k, k ≠ cl_hash h → t' !! k = t !! k) ∧
             ∃ r, t' !! cl_hash h = Some r ∧ core_row (t !! cl_hash h) h r
  | Err _ => ∃ old, t !! cl_hash h = Some old ∧ b_kind old = BkInvalidBlock
  end.
Proof.
  intros Ht. unfold upsert_synthesized_canonical, upsert_block_row.
  replace (ensure_live_core_lockstep (synthesized_block resolve h)) with (Ok () : result anyhow unit) by done.
  cbn [mbind result_bind]. change (b_hash (synthesized_block resolve h)) with (cl_hash h).
  assert (∀ r, b_hash r = cl_hash h → chk_block r = true → b_canonical_competitor_hash r = None →
    core_row (t !! cl_hash h) h r →
    match store_row t r with
    | Ok t' => table_ok t' ∧ (∀ k, k ≠ cl_hash h → t' !! k = t !! k) ∧
               ∃ r, t' !! cl_hash h = Some r ∧ core_row (t !! cl_hash h) h r
    | Err _ => ∃ old, t !! cl_hash h = Some old ∧ b_kind old = BkInvalidBlock
    end) as Hstore.
  { intros r Hh Hc Hn Hr. destruct (store_block_row t (cl_hash h) r Ht Hh Hc) as [-> Hok].
    { intros c Hcc. congruence. }
    split; [done|]. split; [intros k Hk; by rewrite lookup_insert_ne|].
    exists r. by rewrite lookup_insert_eq. }
  destruct (t !! cl_hash h) as [old|] eqn:Ho.
  - destruct (Ht _ _ Ho) as [Hh Hchk].
    destruct (decide (b_kind old = BkInvalidBlock)) as [Hi|Hi].
    { simpl. replace (synthesized_where old (synthesized_block resolve h)) with true.
      2: { unfold synthesized_where, promotes. rewrite Hi. simpl. by rewrite !orb_true_r. }
      unfold store_row. rewrite (synthesized_set_invalid _ _ Hchk Hi). simpl. eauto. }
    simpl. destruct (synthesized_where _ _) eqn:Hw.
    + destruct (synthesized_set_chk resolve old h Hchk Hi) as [Hc Hk].
      apply Hstore; [done|done| |by apply synthesized_set_row].
      apply andb_true_iff in Hc as [[[[Hc _]%andb_true_iff _]%andb_true_iff _]%andb_true_iff _].
      unfold chk_block_kind_height in Hc. rewrite Hk in Hc.
      by apply andb_true_iff in Hc as [_ Hc%bool_decide_eq_true].
    + split; [done|]. split; [done|]. exists old. split; [done|by apply synthesized_skip_row].
  - simpl. apply Hstore; [done|apply (synthesized_block_chk resolve h)|done|].
    unfold core_row. simpl. split_and!; try done. by intros c ->.
Qed.
End core_upsert.

(** ** Claims *)

(** A Core-attested canonical write: it fails only on a row already stored as an
    invalid block, whose reason the schema would contradict; otherwise the block is
    stored canonical, linked, attested, with the height Core gave unless it was canonical
    already, with the coinbase when one was fetched, and no other row changes. *)
Theorem core_canonical_upsert `{BitcoinLib} resolve t header height coinbase :
  table_ok t →
  let h := mkClassifiedHeader (block_hash header) (prev_blockhash header) header height coinbase false in
  match upsert_core_canonical_header_with_coinbase resolve t header height coinbase with
  | Ok t' => table_ok t' ∧ (∀ k, k ≠ block_hash header → t' !! k = t !! k) ∧
             ∃ r, t' !! block_hash header = Some r ∧ core_row (t !! block_hash header) h r
  | Err _ => ∃ old, t !! block_hash header = Some old ∧ b_kind old = BkInvalidBlock
  end.
Proof. intros Ht h. apply (synthesized_upsert_spec resolve t h Ht). Qed.

(** The [WHERE] clauses of the upserts skip only idle updates: for the event rollup
    exactly those, and for a Core write, on a stored row of the same header, none that
    would have changed a column. *)
Theorem upsert_skips_only_idle `{BitcoinLib} resolve old new h :
  (event_rollup_where old new = false ↔ event_rollup_set old new = old) ∧
  (chk_block old = true → b_header_bytes old = serialize_header (cl_header h) →
   b_header_time old = hdr_time (cl_header h) → 1 ≤ b_distinct_sources old →
   synthesized_where old (synthesized_block resolve h) = false →
   synthesized_set old (synthesized_block resolve h) = old).
Proof.
  split; [apply event_rollup_where_false|]. intros Hc Hb Ht Hd Hw.
  by apply (synthesized_where_false old (synthesized_block resolve h)).
Qed.

(** No sequence of committed writes breaks a constraint of the table, removes a row
    or loses coinbase evidence: what was complete stays complete. *)
Theorem block_writes_keep_evidence t t' :
  table_ok t → rtc block_write t t' → table_ok t' ∧ rows_kept t t'.
Proof.
  intros Ht Hs. induction Hs as [t|t1 t2 t3 Hw _ IH]; [done|].
  destruct (block_write_step _ _ Ht Hw) as [Ht2 Hk]. destruct (IH Ht2) as [Ht3 Hk3].
  split; [done|by etrans].
Qed.

(** ** Witnesses *)

Module BlocksSample.
Import Toy.

Definition header : Header := Sample.hdr 9 1000.
Definition coinbase : BitcoinCoreBlockCoinbase := mkBlockCoinbase [x01] [x02] [x03].
Definition no_pool (_ : option BitcoinCoreBlockCoinbase) : option Z := None.
Definition classified : ClassifiedHeader :=
  mkClassifiedHeader (block_hash header) (prev_blockhash header) header 7 (Some coinbase) false.
Definition stored : BlockInput := synthesized_block no_pool classified.
Definition table : block_table := {[ block_hash header := stored ]}.

Lemma table_wf : table_ok table.
Proof. intros h r Hl. unfold table in Hl. apply lookup_singleton_Some in Hl as [<- <-]. split; reflexivity. Qed.

Lemma core_canonical_upsert_witness :
  ∃ t' r, upsert_core_canonical_header_with_coinbase no_pool ∅ header 7 (Some coinbase) = Ok t' ∧
          t' !! block_hash header = Some r ∧ core_row None classified r.
Proof.
  assert (table_ok ∅) as He by (intros h r Hl; discriminate (eq_trans (eq_sym (lookup_empty h)) Hl)).
  pose proof (core_canonical_upsert no_pool ∅ header 7 (Some coinbase) He) as Hw.
  assert (is_ok (upsert_core_canonical_header_with_coinbase no_pool ∅ header 7 (Some coinbase)) = true)
    as Hok by (vm_compute; reflexivity).
  destruct (upsert_core_canonical_header_with_coinbase no_pool ∅ header 7 (Some coinbase)) as [t'|e].
  - destruct Hw as (_ & _ & r & Hr). exists t', r. split; [reflexivity|exact Hr].
  - discriminate Hok.
Defined.

Lemma upsert_skips_only_idle_witness :
  synthesized_where stored stored = false ∧ synthesized_set stored stored = stored.
Proof.
  split; [vm_compute; reflexivity|].
  apply (proj2 (upsert_skips_only_idle no_pool stored stored classified));
    vm_compute; first [reflexivity | discriminate].
Defined.

Definition later : block_table :=
  default ∅ (result_ok (upsert_block_row table (set_coinbase_status stored Failed) EventRollup)).

Lemma later_write : block_write table later.
Proof.
  apply (write_upsert _ (set_coinbase_status stored Failed) EventRollup). unfold later.
  assert (is_ok (upsert_block_row table (set_coinbase_status stored Failed) EventRollup) = true)
    as Hok by (vm_compute; reflexivity).
  destruct (upsert_block_row _ _ _); [reflexivity|discriminate Hok].
Qed.

Lemma block_writes_keep_evidence_witness : table_ok later ∧ rows_kept table later.
Proof.
  apply (block_writes_keep_evidence table later table_wf).
  eapply rtc_l; [exact later_write|apply rtc_refl].
Defined.
End BlocksSample.
