(* ===== verification/SyncState.v ===== *)
(** * The sync-state row of the Bitcoin backbone

    Models the row of [bitcoin_core_sync_state] and every statement that updates it:
    [bitcoin_core_backbone/sync_state.rs] (targets, cursor, progress, errors), the
    retry status of [live.rs], and [mutation/core_suffix_status.rs] of
    [mmm-read-model], which suspends a producer error while a suffix replacement is
    being reconciled and restores it afterwards. An operation is a function of the
    row and of whether the reconcile queue is empty; times are left out. *)

From S2P Require Import Prelude BitcoinLib Effects Errors.

(** ** JSON *)

(** [serde_json::Value]; an object is an ordered list of fields with distinct keys. *)
Inductive Value :=
| Null
| Bool (b : bool)
| Number (n : Z)
| Str (s : string)
| Object (fields : list (string * Value)).

Definition as_str (v : Value) : option string := match v with Str s => Some s | _ => None end.
Definition as_i64 (v : Value) : option Z :=
  match v with Number n => if (i64_MIN <=? n) && (n <=? i64_MAX) then Some n else None | _ => None end.
Definition as_object (v : Value) : option (list (string * Value)) :=
  match v with Object fs => Some fs | _ => None end.

Fixpoint assoc (k : string) (fs : list (string * Value)) : option Value :=
  match fs with
  | [] => None
  | (k', v) :: fs => if bool_decide (k = k') then Some v else assoc k fs
  end.
(** [Value::get] with a key. *)
Definition value_get (v : Value) (k : string) : option Value := fs ← as_object v; assoc k fs.

(** [json!] of optional values. *)
Definition json_opt {A} (f : A → Value) (o : option A) : Value := from_option f Null o.

(** ** The row *)

Record SyncStateRow := mkSyncStateRow {
  target_tip_height : option Z;
  target_tip_hash : option bytes;
  contiguous_complete_height : Z;
  last_scanned_height : option Z;
  last_attempted_height : option Z;
  last_error_code : option string;
  last_error_height : option Z;
  last_error : option string;
  last_error_details : Value;
}.

(** The defaults of an inserted row. *)
Definition SyncStateRow_default : SyncStateRow :=
  mkSyncStateRow None None (-1) None None None None None (Object []).

(** [SyncState], the producer's copy of the row. *)
Record SyncState := mkSyncState {
  ss_target_tip_height : option Z;
  ss_target_tip_hash : option bytes;
  ss_contiguous_complete_height : Z;
  ss_last_error_code : option string;
  ss_last_error_height : option Z;
  preserve_error : bool;
}.

Definition RETRYABLE_REPAIR_ERROR_CODE : string := "near_tip_reorg_repair_retry".
Definition TARGET_TIP_CHANGED_ERROR_CODE : string := "target_tip_changed".
Definition REORG_REPAIR_ERROR_CODE : string := "near_tip_reorg_repair_failed".
Definition LIVE_WINDOW_INVARIANT_ERROR_CODE : string := "live_window_invariant_failed".
Definition REPAIR_OWNED_ERROR_CODES : list string :=
  [RETRYABLE_REPAIR_ERROR_CODE; TARGET_TIP_CHANGED_ERROR_CODE; REORG_REPAIR_ERROR_CODE;
   LIVE_WINDOW_INVARIANT_ERROR_CODE].
Definition RECONCILE_PENDING : string := "backbone_reorg_reconcile_pending".
Definition BACKBONE_LINK_MISMATCH : string := "backbone_link_mismatch".
Definition SUSPENDED_ERROR_KEY : string := "suspended_error".
Definition SUFFIX_RESOLVED_STRUCTURAL_ERRORS : list string :=
  ["backbone_height_conflict"; BACKBONE_LINK_MISMATCH]%string.

(** Updates of groups of columns. *)
Definition set_error (s : SyncStateRow) (code : option string) (height : option Z)
    (message : option string) (details : Value) : SyncStateRow :=
  mkSyncStateRow (target_tip_height s) (target_tip_hash s) (contiguous_complete_height s)
    (last_scanned_height s) (last_attempted_height s) code height message details.
Definition clear_error (s : SyncStateRow) : SyncStateRow := set_error s None None None (Object []).
Definition set_scanned (s : SyncStateRow) (h : Z) : SyncStateRow :=
  mkSyncStateRow (target_tip_height s) (target_tip_hash s) (contiguous_complete_height s)
    (Some h) (Some h) (last_error_code s) (last_error_height s) (last_error s) (last_error_details s).
Definition set_target (s : SyncStateRow) (height : Z) (hash : bytes) : SyncStateRow :=
  mkSyncStateRow (Some height) (Some hash) (contiguous_complete_height s)
    (last_scanned_height s) (last_attempted_height s)
    (last_error_code s) (last_error_height s) (last_error s) (last_error_details s).
Definition set_cch (s : SyncStateRow) (h : Z) : SyncStateRow :=
  mkSyncStateRow (target_tip_height s) (target_tip_hash s) h
    (last_scanned_height s) (last_attempted_height s)
    (last_error_code s) (last_error_height s) (last_error s) (last_error_details s).

(** [code = ANY(codes)] with SQL's null. *)
Definition code_in (code : option string) (codes : list string) : bool :=
  match code with Some c => bool_decide (c ∈ codes) | None => false end.

(** ** Statements of [sync_state.rs] and [live.rs] *)

(** [update_sync_error]: the statement and its ownership predicates. *)
Definition update_sync_error (s : SyncStateRow) (height : Z) (code message : string)
    (details : Value) : SyncStateRow :=
  if negb (bool_decide (last_error_code s = Some RECONCILE_PENDING))
     && (negb (bool_decide (code ∈ REPAIR_OWNED_ERROR_CODES))
         || bool_decide (last_error_code s = None)
         || code_in (last_error_code s) REPAIR_OWNED_ERROR_CODES)
  then set_scanned (set_error s (Some code) (Some height) (Some message) details) height
  else s.

(** [update_sync_progress]. *)
Definition update_sync_progress (s : SyncStateRow) (queue_empty : bool) (height : Z)
    (state : SyncState) : SyncStateRow :=
  let clear := negb (preserve_error state)
               && (bool_decide (last_error_height s = None) || bool_decide (last_error_height s = Some height))
               && queue_empty in
  let s' := set_scanned (set_cch s (Z.max (contiguous_complete_height s)
                                          (ss_contiguous_complete_height state))) height in
  if clear then clear_error s' else s'.

(** The [UPDATE] of [verify_or_set_target_tip]. *)
Definition store_target_tip (s : SyncStateRow) (height : Z) (hash : bytes) : SyncStateRow :=
  set_target s height hash.

(** The [UPDATE] of [accept_live_repaired_target]. *)
Definition store_live_repaired_target (s : SyncStateRow) (height : Z) (hash : bytes) : SyncStateRow :=
  let s' := set_target s height hash in
  if code_in (last_error_code s) REPAIR_OWNED_ERROR_CODES then clear_error s' else s'.

(** The [UPDATE] of [advance_contiguous_complete_prefix]. *)
Definition store_prefix (s : SyncStateRow) (h : Z) : SyncStateRow :=
  set_cch s (Z.max (contiguous_complete_height s) h).

(** The [UPDATE] of [clear_resolved_backbone_link_error]. *)
Definition clear_link_error (s : SyncStateRow) (queue_empty : bool) (error_height : Z) : SyncStateRow :=
  if bool_decide (last_error_code s = Some BACKBONE_LINK_MISMATCH)
     && bool_decide (last_error_height s = Some error_height) && queue_empty
  then clear_error s else s.

(** [try_record_retryable_repair_message]. *)
Definition record_retryable_repair_message (s : SyncStateRow) (queue_empty : bool)
    (target : option (Z * bytes)) (message : string) (details : Value) : SyncStateRow :=
  let may_record := queue_empty &&
    (bool_decide (last_error_code s = None)
     || code_in (last_error_code s) [RETRYABLE_REPAIR_ERROR_CODE; TARGET_TIP_CHANGED_ERROR_CODE]) in
  if negb may_record then s else
  let height := match target with
                | Some (h, _) => h
                | None => default (contiguous_complete_height s) (target_tip_height s)
                end in
  update_sync_error s height RETRYABLE_REPAIR_ERROR_CODE message details.

(** ** Statements of [core_suffix_status.rs] *)

Record ReplacementPending := mkReplacementPending {
  rp_contiguous_complete_height : Z;
  rp_common_ancestor_height : Z;
  rp_first_height : Z;
  rp_target_tip_height : Z;
  rp_target_tip_hash : bytes;
  rp_sync_target_tip_height : Z;
  rp_sync_target_tip_hash : bytes;
  rp_displaced_blocks : Z;
  rp_queued_hashes : Z;
}.

Record SuspendedSyncError := mkSuspended {
  su_code : string;
  su_height : option Z;
  su_message : option string;
  su_details : Value;
}.

Definition is_resolved_by (e : SuspendedSyncError) (pending : ReplacementPending) : bool :=
  bool_decide (su_code e ∈ SUFFIX_RESOLVED_STRUCTURAL_ERRORS)
  && match su_height e with
     | Some h => (rp_first_height pending <=? h) && (h <=? rp_target_tip_height pending)
     | None => false
     end.

Definition suspended_to_json (e : SuspendedSyncError) : Value :=
  Object [("code", Str (su_code e)); ("height", json_opt Number (su_height e));
          ("message", json_opt Str (su_message e)); ("details", su_details e)]%string.

Definition suspended_from_json (value : option Value) : result anyhow (option SuspendedSyncError) :=
  match value with
  | None => Ok None
  | Some value =>
      object ← ok_or (Other "suspended sync error must be a JSON object") (as_object value);
      code ← ok_or (Other "suspended sync error is missing its code")
               (v ← assoc "code" object; as_str v);
      height ← match assoc "height" object with
               | None | Some Null => Ok None
               | Some v =>
                   n ← ok_or (Other "suspended sync error height must be an integer") (as_i64 v);
                   h ← ok_or (Context "suspended sync error height overflows i32" (Other "TryFromIntError"))
                         (checked_i32 n);
                   mret (Some h)
               end;
      message ← match assoc "message" object with
                | None | Some Null => Ok None
                | Some v =>
                    s ← ok_or (Other "suspended sync error message must be a string") (as_str v);
                    mret (Some s)
                end;
      let details := default (Object []) (assoc "details" object) in
      mret (Some (mkSuspended code height message details))
  end.

Definition load_suspended_sync_error (s : SyncStateRow) : result anyhow (option SuspendedSyncError) :=
  if bool_decide (last_error_code s = Some RECONCILE_PENDING)
  then suspended_from_json (value_get (last_error_details s) SUSPENDED_ERROR_KEY)
  else Ok ((λ code, mkSuspended code (last_error_height s) (last_error s) (last_error_details s))
             <$> last_error_code s).

(** [hex] is the display of a block hash. *)
Definition pending_details (hex : bytes → string) (pending : ReplacementPending)
    (suspended : option SuspendedSyncError) : Value :=
  Object ([("common_ancestor_height", Number (rp_common_ancestor_height pending));
           ("replacement_start_height", Number (rp_first_height pending));
           ("replacement_target_height", Number (rp_target_tip_height pending));
           ("replacement_target_hash", Str (hex (rp_target_tip_hash pending)));
           ("displaced_blocks", Number (rp_displaced_blocks pending));
           ("queued_hashes", Number (rp_queued_hashes pending))]%string ++
          match suspended with
          | Some e => [(SUSPENDED_ERROR_KEY, suspended_to_json e)]
          | None => []
          end).

Definition mark_replacement_pending (hex : bytes → string) (s : SyncStateRow)
    (pending : ReplacementPending) : result anyhow SyncStateRow :=
  suspended ← load_suspended_sync_error s;
  let suspended := opt_filter (λ e, negb (is_resolved_by e pending)) suspended in
  mret {| target_tip_height := Some (rp_sync_target_tip_height pending);
          target_tip_hash := Some (rp_sync_target_tip_hash pending);
          contiguous_complete_height := rp_contiguous_complete_height pending;
          last_scanned_height := Some (rp_sync_target_tip_height pending);
          last_attempted_height := Some (rp_sync_target_tip_height pending);
          last_error_code := Some RECONCILE_PENDING;
          last_error_height := Some (rp_first_height pending);
          last_error := Some "Bitcoin Core canonical suffix replaced; dependent reconciliation pending"%string;
          last_error_details := pending_details hex pending suspended |}.

(** [clear_pending_error_in_transaction]. *)
Definition clear_pending_error (s : SyncStateRow) (queue_empty : bool) : result anyhow SyncStateRow :=
  if negb queue_empty then Ok s else
  if negb (bool_decide (last_error_code s = Some RECONCILE_PENDING)) then Ok s else
  suspended ← suspended_from_json (value_get (last_error_details s) SUSPENDED_ERROR_KEY);
  mret match suspended with
       | Some e => set_error s (Some (su_code e)) (su_height e) (su_message e) (su_details e)
       | None => clear_error s
       end.

(** ** Lemmas *)

(** The visible error of a row. *)
Definition error_of (s : SyncStateRow) : option SuspendedSyncError :=
  (λ code, mkSuspended code (last_error_height s) (last_error s) (last_error_details s))
    <$> last_error_code s.

Definition suspended_wf (e : SuspendedSyncError) : Prop := ∀ h, su_height e = Some h → in_i32 h.

Lemma suspended_roundtrip e :
  suspended_wf e → suspended_from_json (Some (suspended_to_json e)) = Ok (Some e).
Proof.
  intros Hw. unfold suspended_from_json, suspended_to_json. simpl. destruct e as [code h m d]. simpl.
  replace (match json_opt Number h with Null => _ | _ => _ end) with (Ok h : result anyhow (option Z)).
  2: { destruct h as [h|]; [|done]. simpl. specialize (Hw h eq_refl).
       replace ((i64_MIN <=? h) && (h <=? i64_MAX)) with true; [by simpl; rewrite checked_i32_in|].
       unfold i64_MIN, i64_MAX, in_i32 in *. lia. }
  simpl. by destruct m.
Qed.

(** The row is pending with a suspended error. *)
Definition pending_with (s : SyncStateRow) (o : option SuspendedSyncError) : Prop :=
  last_error_code s = Some RECONCILE_PENDING ∧
  value_get (last_error_details s) SUSPENDED_ERROR_KEY = suspended_to_json <$> o ∧
  ∀ e, o = Some e → suspended_wf e.

Definition unresolved (ps : list ReplacementPending) (o : option SuspendedSyncError) :=
  opt_filter (λ e, forallb (λ p, negb (is_resolved_by e p)) ps) o.

Section pending.
Context (hex : bytes → string).

Lemma mark_pending s o p :
  load_suspended_sync_error s = Ok o → (∀ e, o = Some e → suspended_wf e) →
  ∃ s', mark_replacement_pending hex s p = Ok s' ∧ pending_with s' (unresolved [p] o).
Proof.
  intros Hl Hw. unfold mark_replacement_pending. rewrite Hl. simpl. eexists. split; [done|].
  assert (opt_filter (λ e, negb (is_resolved_by e p)) o = unresolved [p] o) as ->.
  { destruct o; simpl; [|done]. by rewrite andb_true_r. }
  split_and!; [done| |].
  - unfold value_get, pending_details. simpl. by destruct (unresolved [p] o).
  - intros e (He & _)%opt_filter_Some. auto.
Qed.

Lemma load_pending s o : pending_with s o → load_suspended_sync_error s = Ok o.
Proof.
  intros (Hc & Hd & Hw). unfold load_suspended_sync_error. rewrite bool_decide_true, Hd by done.
  destruct o as [e|]; [|done]. simpl. apply suspended_roundtrip. auto.
Qed.

(** Several suffix replacements, before the queue is drained. *)
Definition mark_all (s : SyncStateRow) (ps : list ReplacementPending) : result anyhow SyncStateRow :=
  foldl (λ r p, s ← r; mark_replacement_pending hex s p) (Ok s) ps.

Lemma unresolved_cons p ps o : unresolved ps (unresolved [p] o) = unresolved (p :: ps) o.
Proof.
  destruct o as [e|]; [|done]. unfold unresolved. simpl. rewrite andb_true_r.
  by destruct (negb (is_resolved_by e p)).
Qed.

Lemma mark_all_pending ps s o :
  pending_with s o → ∃ s', mark_all s ps = Ok s' ∧ pending_with s' (unresolved ps o).
Proof.
  revert s o. induction ps as [|p ps IH]; intros s o Hp.
  - exists s. split; [done|]. replace (unresolved [] o) with o; [done|]. by destruct o.
  - destruct (mark_pending s o p (load_pending _ _ Hp)) as (s1 & Hm & Hp1); [apply Hp|].
    destruct (IH _ _ Hp1) as (s2 & Hm2 & Hp2). exists s2. unfold mark_all in *. simpl. rewrite Hm.
    by rewrite <-unresolved_cons.
Qed.

Lemma clear_pending s o :
  pending_with s o →
  clear_pending_error s false = Ok s ∧
  ∃ s', clear_pending_error s true = Ok s' ∧ error_of s' = o.
Proof.
  intros (Hc & Hd & Hw). unfold clear_pending_error. simpl. rewrite bool_decide_true, Hd by done.
  split; [done|]. destruct o as [e|].
  - change (suspended_to_json <$> Some e) with (Some (suspended_to_json e)).
    rewrite suspended_roundtrip by auto. eexists. split; [done|]. by destruct e.
  - eexists. split; done.
Qed.
End pending.

(** ** Steps of the row *)

(** Every update of the row, with the queue empty or not. *)
Inductive status_step (hex : bytes → string) (queue_empty : bool) (s : SyncStateRow) : SyncStateRow → Prop :=
| step_error height code message details :
    code ≠ RECONCILE_PENDING →
    status_step hex queue_empty s (update_sync_error s height code message details)
| step_progress height state :
    status_step hex queue_empty s (update_sync_progress s queue_empty height state)
| step_target height hash : status_step hex queue_empty s (store_target_tip s height hash)
| step_accept height hash : status_step hex queue_empty s (store_live_repaired_target s height hash)
| step_prefix h : status_step hex queue_empty s (store_prefix s h)
| step_link height : status_step hex queue_empty s (clear_link_error s queue_empty height)
| step_retry target message details :
    status_step hex queue_empty s (record_retryable_repair_message s queue_empty target message details)
| step_mark p s' : mark_replacement_pending hex s p = Ok s' → status_step hex queue_empty s s'
| step_clear s' : clear_pending_error s queue_empty = Ok s' → status_step hex queue_empty s s'.

Lemma mark_code hex s p s' :
  mark_replacement_pending hex s p = Ok s' → last_error_code s' = Some RECONCILE_PENDING.
Proof. unfold mark_replacement_pending. intros Hm. res_inv. done. Qed.

Lemma step_keeps_pending hex s s' :
  status_step hex false s s' → last_error_code s = Some RECONCILE_PENDING →
  last_error_code s' = Some RECONCILE_PENDING.
Proof.
  intros [] Hc; try done.
  - unfold update_sync_error. by rewrite Hc.
  - unfold update_sync_progress. by rewrite andb_false_r.
  - unfold store_live_repaired_target. by rewrite Hc.
  - unfold clear_link_error. by rewrite Hc.
  - by eapply mark_code.
  - unfold clear_pending_error in *. simpl in *. by simplify_eq.
Qed.

(** ** Claims *)

(** A suspended error survives: however many suffix replacements are committed before
    the queue drains, the status stays pending while work remains, and once the queue is
    empty the error shown before them returns unchanged, unless one of the replacements
    resolved it, in which case no error is left. *)
Theorem suspended_error_restored hex s p ps :
  last_error_code s ≠ Some RECONCILE_PENDING → (∀ h, last_error_height s = Some h → in_i32 h) →
  ∃ s1 s2, mark_all hex s (p :: ps) = Ok s1 ∧ last_error_code s1 = Some RECONCILE_PENDING ∧
           clear_pending_error s1 false = Ok s1 ∧ clear_pending_error s1 true = Ok s2 ∧
           error_of s2 = unresolved (p :: ps) (error_of s).
Proof.
  intros Hc Hh.
  assert (load_suspended_sync_error s = Ok (error_of s)) as Hl.
  { unfold load_suspended_sync_error. by rewrite bool_decide_false. }
  destruct (mark_pending hex s (error_of s) p Hl) as (s0 & Hm & Hp).
  { intros e. unfold error_of. destruct (last_error_code s); [|done]. intros [= <-]. done. }
  destruct (mark_all_pending hex ps _ _ Hp) as (s1 & Hm1 & Hp1).
  destruct (clear_pending _ _ Hp1) as (Hf & s2 & Ht & He).
  exists s1, s2. rewrite unresolved_cons in He. split_and!; try done; [|apply Hp1].
  unfold mark_all in *. simpl. by rewrite Hm.
Qed.

(** While the reconcile queue holds work, the pending status of a suffix replacement
    is never overwritten or cleared, whatever sequence of updates other parts of the
    producer make to the row. *)
Theorem pending_status_owned hex s s' :
  last_error_code s = Some RECONCILE_PENDING → rtc (status_step hex false) s s' →
  last_error_code s' = Some RECONCILE_PENDING.
Proof. intros Hc Hs. induction Hs; [done|]. eauto using step_keeps_pending. Qed.

(** ** Witnesses *)

Module SyncStateSample.
Definition hex (_ : bytes) : string := "00".
Definition failed : SyncStateRow :=
  mkSyncStateRow None None 4 None None (Some "coinbase_fetch_failed"%string) (Some 5) None (Object []).
Definition pending : ReplacementPending := mkReplacementPending 4 2 3 6 [] 6 [] 1 2.

Lemma suspended_error_restored_witness :
  ∃ s1 s2, mark_all hex failed [pending; pending] = Ok s1 ∧ clear_pending_error s1 true = Ok s2 ∧
           last_error_code s2 = Some "coinbase_fetch_failed"%string.
Proof.
  destruct (suspended_error_restored hex failed pending [pending]) as (s1 & s2 & H1 & _ & _ & H2 & He).
  - vm_compute. discriminate.
  - intros h [= <-]. vm_compute. split; discriminate.
  - exists s1, s2. split; [exact H1|]. split; [exact H2|].
    unfold error_of at 1 in He. destruct (last_error_code s2); vm_compute in He; [|discriminate He].
    injection He as -> _ _ _. reflexivity.
Defined.

Definition pending_row : SyncStateRow :=
  default failed (result_ok (mark_replacement_pending hex failed pending)).

Lemma pending_status_owned_witness :
  last_error_code (update_sync_error pending_row 9 "coinbase_fetch_failed" "" Null)
  = Some RECONCILE_PENDING.
Proof.
  apply (pending_status_owned hex pending_row); [reflexivity|].
  eapply rtc_l; [|apply rtc_refl]. apply step_error. vm_compute. discriminate.
Defined.
End SyncStateSample.
