(* ===== verification/CoreQueue.v ===== *)
(** * The durable reconcile queue

    Models the queue of [crates/mmm-read-model/src/mutation/core_suffix.rs]
    ([bitcoin_core_reconcile_queue] of one source): enqueueing primaries and
    expansions, the settlement of a primary inside its reconcile transaction
    ([DurableCascade] of [reconcile.rs]), the expansion of a parent to its
    dependents, and the drain loop in both modes, with the sync status that
    follows the queue. The reconcile of one parent and the dependents the tables
    hold are the environment; a transaction that fails leaves the queue alone. *)

From S2P Require Import Prelude BitcoinLib Effects Errors Blocks SyncState.

Record QueueRow := mkQueueRow {
  primary_pending : bool;
  expand_unchanged : bool;
  generation : Z;
  enqueued_at : Z;
}.

Abbreviation queue := (gmap bytes QueueRow).

(** ** Statements *)

Definition enqueue_one (now : Z) (expand : bool) (q : queue) (h : bytes) : queue :=
  <[h := match q !! h with
         | None => mkQueueRow true expand 1 now
         | Some r => mkQueueRow true (expand_unchanged r || expand || negb (primary_pending r))
                       (generation r + 1) (enqueued_at r)
         end]> q.

(** An [ON CONFLICT DO UPDATE] that would touch a row twice fails. *)
Definition enqueue_core_reconcile_hashes (now : Z) (q : queue) (hashes : list bytes) (expand : bool)
    : result anyhow queue :=
  _ ← ensure (bool_decide (NoDup hashes)) (Other "cannot affect row a second time");
  mret (foldl (enqueue_one now expand) q hashes).

Definition enqueue_core_reconcile_primaries (now : Z) (q : queue) (hashes : list bytes)
    : result anyhow queue := enqueue_core_reconcile_hashes now q hashes false.

Definition enqueue_expansion_one (now : Z) (q : queue) (h : bytes) : queue :=
  <[h := match q !! h with
         | None => mkQueueRow false false 1 now
         | Some r => mkQueueRow (primary_pending r) true (generation r + 1) (enqueued_at r)
         end]> q.

Definition enqueue_core_reconcile_expansions (now : Z) (q : queue) (hashes : list bytes)
    : result anyhow queue :=
  _ ← ensure (bool_decide (NoDup hashes)) (Other "cannot affect row a second time");
  mret (foldl (enqueue_expansion_one now) q hashes).

Definition settle_core_reconcile_primary (q : queue) (hash : bytes) (gen : Z) (changed : bool) : queue :=
  match q !! hash with
  | Some r =>
      if primary_pending r && (generation r =? gen) then
        if negb changed && negb (expand_unchanged r) then delete hash q
        else <[hash := mkQueueRow false (expand_unchanged r) (generation r + 1) (enqueued_at r)]> q
      else q
  | None => q
  end.

(** [DurableCascade::settle]. *)
Definition durable_settle (now : Z) (q : queue) (primary : bytes) (gen : Z) (changed_hashes : list bytes)
    : result anyhow queue :=
  let changed := bool_decide (primary ∈ changed_hashes) in
  let siblings := filter (λ h, h ≠ primary) changed_hashes in
  q ← match siblings with
      | [] => Ok q
      | _ => enqueue_core_reconcile_expansions now q siblings
      end;
  mret (settle_core_reconcile_primary q primary gen changed).

Record CoreReconcileWork := mkWork {
  work_hash : bytes;
  work_primary_pending : bool;
  work_generation : Z;
}.

(** The order of the index: oldest first, then by hash. *)
Fixpoint bytes_leb (a b : bytes) : bool :=
  match a, b with
  | [], _ => true
  | _ :: _, [] => false
  | x :: a, y :: b => (u8 x <? u8 y) || ((u8 x =? u8 y) && bytes_leb a b)
  end.

Definition sooner (a b : bytes * QueueRow) : bool :=
  (enqueued_at a.2 <? enqueued_at b.2)
  || ((enqueued_at a.2 =? enqueued_at b.2) && bytes_leb a.1 b.1).

Definition oldest (rows : list (bytes * QueueRow)) : option (bytes * QueueRow) :=
  foldr (λ a best, match best with
                   | None => Some a
                   | Some b => if sooner a b then Some a else Some b
                   end) None rows.

Definition load_next_core_reconcile_work (q : queue) : option CoreReconcileWork :=
  (λ kr, mkWork kr.1 (primary_pending kr.2) (generation kr.2)) <$> oldest (map_to_list q).

(** The statements of [expand_core_reconcile_work] on the queue; [None] when the work was
    superseded, and nothing is written. *)
Definition expand_queue (now : Z) (q : queue) (work : CoreReconcileWork) (edges : list bytes)
    : result anyhow (option queue) :=
  match q !! work_hash work with
  | None => Ok None
  | Some r =>
      if primary_pending r || negb (generation r =? work_generation work) then Ok None else
      let dependents := filter (λ h, h ≠ work_hash work) (remove_dups edges) in
      q ← match dependents with
          | [] => Ok q
          | _ => enqueue_core_reconcile_hashes now q dependents false
          end;
      mret (Some match q !! work_hash work with
                 | Some r => if negb (primary_pending r) && (generation r =? work_generation work)
                             then delete (work_hash work) q else q
                 | None => q
                 end)
  end.

(** ** The drain *)

(** The reconcile of one parent, with the hashes it changed; the dependents the tables
    name for a hash; the clock; the outcome of a statement. *)
Class ReconcileEnv (W : Type) := {
  reconcile_block : bytes → stM W anyhow (list bytes);
  dependent_edges : W → bytes → list bytes;
  now_secs : W → Z;
  statement : stM W anyhow unit;
}.

Record QueueWorld (W : Type) := mkQueueWorld {
  q_env : W;
  q_rows : queue;
  q_sync : option SyncStateRow;
}.
Arguments mkQueueWorld {W}.
Arguments q_env {W}.
Arguments q_rows {W}.
Arguments q_sync {W}.

Definition queue_empty (q : queue) : bool := bool_decide (q = ∅).

Section drain.
Context {W : Type} `{ReconcileEnv W}.

#[local] Abbreviation qM := (stM (QueueWorld W) anyhow).

Definition on_qenv {A} (m : stM W anyhow A) : qM A := λ w,
  let '(r, e) := m (q_env w) in (r, mkQueueWorld e (q_rows w) (q_sync w)).

(** A transaction: its writes are kept only if it commits. *)
Definition transaction {A} (m : qM A) : qM A := λ w,
  match m w with
  | (Ok a, w') =>
      match on_qenv statement w' with
      | (Ok _, w'') => (Ok a, w'')
      | (Err e, w'') => (Err e, mkQueueWorld (q_env w'') (q_rows w) (q_sync w))
      end
  | (Err e, w') => (Err e, mkQueueWorld (q_env w') (q_rows w) (q_sync w))
  end.

Definition put_queue (q : queue) : qM unit := modify (λ w, mkQueueWorld (q_env w) q (q_sync w)).
Definition put_sync (s : option SyncStateRow) : qM unit :=
  modify (λ w, mkQueueWorld (q_env w) (q_rows w) s).

(** [reconcile_one_block_strict] with its durable cascade. *)
Definition reconcile_one_block_strict (hash : bytes) (gen : Z) : qM unit :=
  transaction (
    changed ← on_qenv (reconcile_block hash);
    _ ← on_qenv statement;
    now ← gets (λ w, now_secs (q_env w));
    q ← gets q_rows;
    q ← lift (durable_settle now q hash gen changed);
    put_queue q).

Definition clear_pending_error_in_transaction : qM unit :=
  _ ← on_qenv statement;
  q ← gets q_rows;
  s ← gets q_sync;
  match s with
  | Some row => row ← lift (clear_pending_error row (queue_empty q)); put_sync (Some row)
  | None => mret ()
  end.

Definition clear_pending_error_if_queue_empty : qM unit :=
  transaction clear_pending_error_in_transaction.

Definition expand_core_reconcile_work (work : CoreReconcileWork) : qM unit :=
  transaction (
    _ ← on_qenv statement;
    now ← gets (λ w, now_secs (q_env w));
    edges ← gets (λ w, dependent_edges (q_env w) (work_hash work));
    q ← gets q_rows;
    r ← lift (expand_queue now q work edges);
    match r with
    | None => mret ()
    | Some q => _ ← put_queue q; clear_pending_error_in_transaction
    end).

(** The loop, with fuel; [None] means the fuel ran out. [batch] is the mode without a
    progress reporter, which also counts expansions against the budget. *)
Fixpoint drain_loop (fuel : nat) (batch : bool) (max_primaries parents items : Z) : qM (option bool) :=
  match fuel with
  | O => mret None
  | S fuel =>
      _ ← on_err (Context "load Bitcoin Core suffix reconcile work") (on_qenv statement);
      q ← gets q_rows;
      match load_next_core_reconcile_work q with
      | None => _ ← clear_pending_error_if_queue_empty; mret (Some true)
      | Some work =>
          if batch && (max_primaries <=? items) then mret (Some false) else
          if work_primary_pending work then
            if max_primaries <=? parents then mret (Some false) else
            _ ← on_err (Context "reconcile durable Bitcoin Core dependent")
                  (reconcile_one_block_strict (work_hash work) (work_generation work));
            drain_loop fuel batch max_primaries (parents + 1) (items + 1)
          else
            _ ← expand_core_reconcile_work work;
            drain_loop fuel batch max_primaries parents (items + 1)
      end
  end.

Definition drain_core_reconcile_queue_up_to (fuel : nat) (max_primaries : Z) (batch : bool)
    : qM (option bool) := drain_loop fuel batch max_primaries 0 0.

Definition CORE_RECOVERY_BATCH : Z := 25.

(** [drain_core_reconcile_queue_with_budget]. *)
Definition drain_core_reconcile_queue_with_budget (fuel : nat) (cascade_budget : Z) : qM (option unit) :=
  r ← drain_core_reconcile_queue_up_to fuel cascade_budget false;
  match r with
  | None => mret None
  | Some true => mret (Some ())
  | Some false => throw (Other "ReconcileCascadeBudgetExhausted")
  end.

(** [drain_core_queue] of the epoch cache: a live call drains one batch. *)
Definition drain_core_queue (fuel : nat) (live : bool) (budget : Z) : qM (option unit) :=
  if live then
    r ← drain_core_reconcile_queue_up_to fuel CORE_RECOVERY_BATCH true;
    match r with
    | None => mret None
    | Some true => mret (Some ())
    | Some false => throw (LocalRecoveryPending "core_reconciliation_pending")
    end
  else drain_core_reconcile_queue_with_budget fuel budget.
End drain.

(** ** Rows and generations *)

Lemma oldest_elem rows kr : oldest rows = Some kr → kr ∈ rows.
Proof.
  induction rows as [|a rows IH] in kr |- *; simpl; [done|]. destruct (oldest rows) as [b|].
  - destruct (sooner a b); intros [= <-]; [left|right; auto].
  - intros [= <-]. left.
Qed.

Lemma oldest_None rows : oldest rows = None → rows = [].
Proof.
  destruct rows as [|a rows]; simpl; [done|]. destruct (oldest rows); [by destruct (sooner _ _)|done].
Qed.

Lemma load_next_Some q work :
  load_next_core_reconcile_work q = Some work →
  ∃ r, q !! work_hash work = Some r ∧ primary_pending r = work_primary_pending work ∧
       generation r = work_generation work.
Proof.
  unfold load_next_core_reconcile_work. intros Hl. apply fmap_Some in Hl as ([h r] & Ho%oldest_elem & ->).
  apply elem_of_map_to_list in Ho. exists r. done.
Qed.

Lemma load_next_None q : load_next_core_reconcile_work q = None → q = ∅.
Proof.
  unfold load_next_core_reconcile_work. intros Hl%fmap_None%oldest_None.
  by apply map_to_list_empty_iff.
Qed.

Section fold.
Context (f : queue → bytes → queue).
Context (f_other : ∀ q h k, k ≠ h → f q h !! k = q !! k).

Lemma foldl_other hs q k : k ∉ hs → foldl f q hs !! k = q !! k.
Proof.
  revert q. induction hs as [|h hs IH]; intros q Hk; simpl; [done|].
  apply not_elem_of_cons in Hk as [Hk Hks]. by rewrite IH, f_other.
Qed.

Lemma foldl_elem hs q k : NoDup hs → k ∈ hs → ∃ q0, q0 !! k = q !! k ∧ foldl f q hs !! k = f q0 k !! k.
Proof.
  intros Hn. revert q. induction Hn as [|h hs Hh _ IH]; intros q Hk; [by apply elem_of_nil in Hk|].
  simpl. destruct (decide (k = h)) as [->|Hne].
  - exists q. split; [done|]. by rewrite foldl_other.
  - apply elem_of_cons in Hk as [?|Hk]; [done|]. destruct (IH (f q h) Hk) as (q0 & Hq0 & ->).
    exists q0. by rewrite Hq0, f_other.
Qed.
End fold.

Lemma enqueue_one_other now e q h k : k ≠ h → enqueue_one now e q h !! k = q !! k.
Proof. intros. unfold enqueue_one. by rewrite lookup_insert_ne. Qed.
Lemma expansion_one_other now q h k : k ≠ h → enqueue_expansion_one now q h !! k = q !! k.
Proof. intros. unfold enqueue_expansion_one. by rewrite lookup_insert_ne. Qed.

(** A row that stays is untouched or has a later generation. *)
Definition newer (r r' : QueueRow) : Prop := r' = r ∨ generation r < generation r'.
#[global] Instance newer_preorder : PreOrder newer.
Proof. split; [by left|]. intros r1 r2 r3 [->|] [->|]; [by left|by right|by right|right; lia]. Qed.

Lemma enqueue_rows now q hs e q' :
  enqueue_core_reconcile_hashes now q hs e = Ok q' →
  (∀ k, k ∉ hs → q' !! k = q !! k) ∧
  (∀ k, k ∈ hs → ∃ r', q' !! k = Some r' ∧ primary_pending r' = true ∧
     ∀ r, q !! k = Some r → generation r < generation r').
Proof.
  unfold enqueue_core_reconcile_hashes. intros Hq. res_inv. split.
  - intros k. apply foldl_other, enqueue_one_other.
  - intros k Hk. destruct (foldl_elem _ (enqueue_one_other now e) hs q k) as (q0 & Hq0 & ->); [done..|].
    unfold enqueue_one. rewrite lookup_insert_eq, Hq0. destruct (q !! k) as [r0|]; eexists; split; try done; split; try done.
    intros r [= <-]. simpl. lia.
Qed.

Lemma expansion_rows now q hs q' :
  enqueue_core_reconcile_expansions now q hs = Ok q' →
  ∀ k, q' !! k = q !! k ∨ ∃ r', q' !! k = Some r' ∧ ∀ r, q !! k = Some r → generation r < generation r'.
Proof.
  unfold enqueue_core_reconcile_expansions. intros Hq k. res_inv.
  destruct (decide (k ∈ hs)) as [Hk|Hk]; [right|left; by apply foldl_other; [apply expansion_one_other|]].
  destruct (foldl_elem _ (expansion_one_other now) hs q k) as (q0 & Hq0 & ->); [done..|].
  unfold enqueue_expansion_one. rewrite lookup_insert_eq, Hq0.
  destruct (q !! k) as [r0|]; eexists; split; try done. intros r [= <-]. simpl. lia.
Qed.

Lemma settle_rows q h g c k r r' :
  q !! k = Some r → settle_core_reconcile_primary q h g c !! k = Some r' → newer r r'.
Proof.
  unfold settle_core_reconcile_primary. intros Hr Hr'.
  destruct (q !! h) as [r0|] eqn:H0; [|left; congruence].
  destruct (primary_pending r0 && _); [|left; congruence].
  destruct (negb c && _).
  - apply lookup_delete_Some in Hr' as [_ Hr']. left; congruence.
  - apply lookup_insert_Some in Hr' as [[<- <-]|[_ Hr']]; [|left; congruence].
    replace r with r0 by congruence. right. simpl. lia.
Qed.

Lemma expand_inv now q work edges q' :
  expand_queue now q work edges = Ok (Some q') →
  let deps := filter (λ h, h ≠ work_hash work) (remove_dups edges) in
  ∃ r, q !! work_hash work = Some r ∧ primary_pending r = false ∧ generation r = work_generation work ∧
       ∃ q1, enqueue_core_reconcile_hashes now q deps false = Ok q1 ∧ q' = delete (work_hash work) q1.
Proof.
  intros He deps. unfold expand_queue in He. destruct (q !! work_hash work) as [r|] eqn:Hr; [|done].
  destruct (primary_pending r) eqn:Hp; [done|]. simpl in He.
  destruct (generation r =? work_generation work) eqn:Hg; [|done]. simpl in He.
  exists r. split_and!; [done|done|lia|]. fold deps in He.
  assert (enqueue_core_reconcile_hashes now q deps false =
    match deps with [] => Ok q | _ => enqueue_core_reconcile_hashes now q deps false end) as He2.
  { by destruct deps. }
  rewrite <-He2 in He. apply bind_Ok in He as (q1 & Hq1 & [= <-]). exists q1. split; [done|].
  destruct (enqueue_rows _ _ _ _ _ Hq1) as [Ho _]. rewrite Ho, Hr; [by rewrite Hp, Hg|].
  unfold deps. rewrite list_elem_of_filter. tauto.
Qed.

(** One committed change of the queue. *)
Inductive queue_op (q : queue) : queue → Prop :=
| op_enqueue now hs e q' : enqueue_core_reconcile_hashes now q hs e = Ok q' → queue_op q q'
| op_expansions now hs q' : enqueue_core_reconcile_expansions now q hs = Ok q' → queue_op q q'
| op_settle h g c : queue_op q (settle_core_reconcile_primary q h g c)
| op_expand now work edges q' : expand_queue now q work edges = Ok (Some q') → queue_op q q'.

Lemma queue_op_newer q q' k r r' :
  queue_op q q' → q !! k = Some r → q' !! k = Some r' → newer r r'.
Proof.
  assert (∀ now hs e q1 r1, enqueue_core_reconcile_hashes now q hs e = Ok q1 →
    q !! k = Some r → q1 !! k = Some r1 → newer r r1) as Henq.
  { intros now hs e q1 r1 [Ho Hi]%enqueue_rows Hr Hr1. destruct (decide (k ∈ hs)) as [Hk|Hk].
    - destruct (Hi k Hk) as (r2 & Hr2 & _ & Hg). right. replace r1 with r2 by congruence. auto.
    - left. rewrite Ho in Hr1 by done. congruence. }
  intros [now hs e q1 Hq|now hs q1 Hq|h g c|now work edges q1 Hq] Hr Hr'.
  - eauto.
  - destruct (expansion_rows _ _ _ _ Hq k) as [He|(r2 & Hr2 & Hg)]; [left; congruence|].
    right. replace r' with r2 by congruence. auto.
  - by eapply settle_rows.
  - apply expand_inv in Hq as (r0 & _ & _ & _ & q2 & Hq2 & ->).
    apply lookup_delete_Some in Hr' as [_ Hr']. eauto.
Qed.

(** Changes during which the row of [h] is never removed. *)
Definition op_keeping (h : bytes) (q q' : queue) : Prop := queue_op q q' ∧ is_Some (q' !! h).

Lemma ops_newer h q q' r :
  rtc (op_keeping h) q q' → q !! h = Some r → ∃ r', q' !! h = Some r' ∧ newer r r'.
Proof.
  intros Hs. revert r. induction Hs as [q|q1 q2 q3 [Hop [r2 Hr2]] _ IH]; intros r Hr; [by exists r|].
  destruct (IH _ Hr2) as (r3 & Hr3 & Hn). exists r3. split; [done|].
  etrans; [by eapply queue_op_newer|done].
Qed.

(** ** Termination *)

(** Rows that only wait for expansion. *)
Definition expansions (q : queue) : nat := size (filter (λ kr, primary_pending kr.2 = false) q).

Lemma expansions_primary q h r : primary_pending r = true → (expansions (<[h := r]> q) ≤ expansions q)%nat.
Proof.
  intros Hp. unfold expansions. apply map_subseteq_size.
  rewrite map_filter_insert_False by (simpl; congruence). apply map_filter_subseteq_mono, delete_subseteq.
Qed.

Lemma expansions_enqueue now q hs e q' :
  enqueue_core_reconcile_hashes now q hs e = Ok q' → (expansions q' ≤ expansions q)%nat.
Proof.
  unfold enqueue_core_reconcile_hashes. intros Hq. res_inv. clear H.
  revert q. induction hs as [|h hs IH]; intros q; simpl; [done|].
  etrans; [apply IH|]. unfold enqueue_one. apply expansions_primary. by destruct (q !! h).
Qed.

Lemma expansions_delete q h r :
  q !! h = Some r → primary_pending r = false → (expansions (delete h q) < expansions q)%nat.
Proof.
  intros Hr Hp. unfold expansions. rewrite map_filter_delete.
  rewrite map_size_delete_Some by (exists r; by apply map_lookup_filter_Some).
  assert (size (filter (λ kr : bytes * QueueRow, primary_pending kr.2 = false) q) ≠ 0%nat); [|lia].
  rewrite map_size_non_empty_iff. intros He.
  assert (filter (λ kr : bytes * QueueRow, primary_pending kr.2 = false) q !! h = Some r) as Hl
    by (by apply map_lookup_filter_Some). by rewrite He in Hl.
Qed.

Lemma expand_decreases now q work edges q' :
  expand_queue now q work edges = Ok (Some q') → (expansions q' < expansions q)%nat.
Proof.
  intros (r & Hr & Hp & Hg & q1 & Hq1 & ->)%expand_inv.
  pose proof (expansions_enqueue _ _ _ _ _ Hq1). destruct (enqueue_rows _ _ _ _ _ Hq1) as [Ho _].
  assert (q1 !! work_hash work = Some r) as Hr1.
  { rewrite Ho; [done|]. rewrite list_elem_of_filter. tauto. }
  pose proof (expansions_delete _ _ _ Hr1 Hp). lia.
Qed.

Section drain_lemmas.
Context {W : Type} `{ReconcileEnv W}.

Lemma transaction_Ok {A} (m : stM (QueueWorld W) anyhow A) w a w' :
  transaction m w = (Ok a, w') →
  ∃ w1, m w = (Ok a, w1) ∧ q_rows w' = q_rows w1 ∧ q_sync w' = q_sync w1.
Proof.
  unfold transaction, on_qenv. destruct (m w) as [[a0|e] w1]; [|done].
  destruct (statement (q_env w1)) as [[[]|e] e1]; [|done]. intros [= -> <-]. by exists w1.
Qed.

Lemma on_qenv_keeps {A} (m : stM W anyhow A) w r w' :
  on_qenv m w = (r, w') → q_rows w' = q_rows w ∧ q_sync w' = q_sync w.
Proof. unfold on_qenv. destruct (m (q_env w)). by intros [= <- <-]. Qed.

Lemma clear_pending_keeps w w' :
  clear_pending_error_in_transaction w = (Ok (), w') →
  q_rows w' = q_rows w ∧
  match q_sync w with
  | Some row => ∃ row', clear_pending_error row (queue_empty (q_rows w)) = Ok row' ∧ q_sync w' = Some row'
  | None => q_sync w' = None
  end.
Proof.
  unfold clear_pending_error_in_transaction. intros Hr. st_inv.
  match goal with M : on_qenv _ _ = _ |- _ => apply on_qenv_keeps in M as [Hq Hs] end.
  rewrite Hs, Hq in *. destruct (q_sync w) as [row|]; st_inv; [|by rewrite Hs].
  unfold put_sync in *. st_inv. simpl. eauto.
Qed.

(** An expansion of work that was just loaded removes it. *)
Lemma expand_work_decreases work r w w' :
  q_rows w !! work_hash work = Some r → primary_pending r = false → generation r = work_generation work →
  expand_core_reconcile_work work w = (Ok (), w') → (expansions (q_rows w') < expansions (q_rows w))%nat.
Proof.
  intros Hr Hp Hg Hx. unfold expand_core_reconcile_work in Hx.
  apply transaction_Ok in Hx as (w1 & Hx & -> & _). st_inv.
  match goal with M : on_qenv _ w = _ |- _ => apply on_qenv_keeps in M as [Hq _] end. rewrite Hq in *.
  match goal with M : expand_queue _ _ _ _ = Ok ?o |- _ => destruct o as [q'|]; rename M into Hex end.
  - unfold put_queue in *. st_inv.
    match goal with M : clear_pending_error_in_transaction _ = _ |- _ => apply clear_pending_keeps in M as [-> _] end.
    by apply expand_decreases in Hex.
  - exfalso. unfold expand_queue in Hex. rewrite Hr, Hp, Hg, Z.eqb_refl in Hex. simpl in Hex. by res_inv.
Qed.

(** Batch mode stops after [max] items. *)
Lemma drain_batch_fuel fuel max parents items w :
  max - items < Z.of_nat fuel → 0 < Z.of_nat fuel → (drain_loop fuel true max parents items w).1 ≠ Ok None.
Proof.
  revert parents items w. induction fuel as [|fuel IH]; intros parents items w Hf H0 Hn; [lia|].
  cbn [drain_loop] in Hn.
  match type of Hn with (?m w).1 = _ => destruct (m w) as [o w'] eqn:Hr end. simpl in Hn. subst o. st_inv.
  destruct (load_next_core_reconcile_work _) as [work|]; [|by st_inv]. simpl in *.
  destruct (max <=? items) eqn:Em; [by st_inv|].
  assert (0 < Z.of_nat fuel) by lia.
  destruct (work_primary_pending work).
  - destruct (max <=? parents); st_inv. eapply (IH (parents + 1) (items + 1)); [lia|lia|].
    match goal with M : drain_loop _ _ _ _ _ _ = _ |- _ => by rewrite M end.
  - st_inv. eapply (IH parents (items + 1)); [lia|lia|].
    match goal with M : drain_loop _ _ _ _ _ _ = _ |- _ => by rewrite M end.
Qed.

(** Budget mode: primaries are bounded, and between two of them each expansion removes
    a row that waits for one. *)
Lemma drain_budget_fuel k n max parents items w :
  max - parents ≤ Z.of_nat k → (expansions (q_rows w) < n)%nat →
  ∃ N, ∀ fuel, (N ≤ fuel)%nat → (drain_loop fuel false max parents items w).1 ≠ Ok None.
Proof.
  revert n parents items w. induction k as [k IHk] using lt_wf_ind.
  induction n as [n IHn] using lt_wf_ind. intros parents items w Hk Hn.
  destruct (on_err (Context "load Bitcoin Core suffix reconcile work") (on_qenv statement) w) as [[[]|e] w1] eqn:Hst.
  2: { exists 1%nat. intros [|fuel] Hf; [lia|]. cbn [drain_loop]. unfold mbind, stM_bind. by rewrite Hst. }
  assert (q_rows w1 = q_rows w) as Hq1.
  { unfold on_err in Hst. destruct (on_qenv statement w) eqn:E. apply on_qenv_keeps in E as [E _]. by simplify_eq. }
  assert (∀ fuel, drain_loop (S fuel) false max parents items w =
    match load_next_core_reconcile_work (q_rows w) with
    | None => (_ ← clear_pending_error_if_queue_empty; mret (Some true)) w1
    | Some work =>
        if work_primary_pending work then
          if max <=? parents then (Ok (Some false), w1) else
          (_ ← on_err (Context "reconcile durable Bitcoin Core dependent")
                (reconcile_one_block_strict (work_hash work) (work_generation work));
           drain_loop fuel false max (parents + 1) (items + 1)) w1
        else (_ ← expand_core_reconcile_work work;
              drain_loop fuel false max parents (items + 1)) w1
    end) as Hunf.
  { intros fuel. cbn [drain_loop]. unfold mbind at 1, stM_bind at 1. rewrite Hst.
    unfold mbind at 1, stM_bind at 1, gets at 1. rewrite Hq1.
    destruct (load_next_core_reconcile_work _) as [work|]; [|done].
    destruct (work_primary_pending work); [|done]. by destruct (max <=? parents). }
  destruct (load_next_core_reconcile_work (q_rows w)) as [work|] eqn:Hl.
  2: { exists 1%nat. intros [|fuel] Hf; [lia|]. rewrite Hunf. unfold mbind, stM_bind.
       by destruct (clear_pending_error_if_queue_empty w1) as [[[]|] ?]. }
  destruct (work_primary_pending work) eqn:Hp.
  - destruct (max <=? parents) eqn:Em; [by exists 1%nat; intros [|fuel] Hf; [lia|]; rewrite Hunf|].
    destruct (on_err (Context "reconcile durable Bitcoin Core dependent")
                (reconcile_one_block_strict (work_hash work) (work_generation work)) w1) as [[[]|e] w2] eqn:Hr.
    + destruct (IHk (Nat.pred k) ltac:(lia) (S (expansions (q_rows w2))) (parents + 1) (items + 1) w2) as (N & HN); [lia|lia|].
      exists (S N). intros [|fuel] Hf; [lia|]. rewrite Hunf. unfold mbind, stM_bind. rewrite Hr. apply HN. lia.
    + exists 1%nat. intros [|fuel] Hf; [lia|]. rewrite Hunf. unfold mbind, stM_bind. by rewrite Hr.
  - destruct (expand_core_reconcile_work work w1) as [[[]|e] w2] eqn:Hr.
    + apply load_next_Some in Hl as (r & Hlk & Hpr & Hg). rewrite Hp in Hpr.
      pose proof (expand_work_decreases work r w1 w2) as Hd. rewrite Hq1 in Hd.
      specialize (Hd Hlk Hpr Hg Hr).
      destruct (IHn (expansions (q_rows w)) Hn parents (items + 1) w2 Hk Hd) as (N & HN).
      exists (S N). intros [|fuel] Hf; [lia|]. rewrite Hunf. unfold mbind, stM_bind. rewrite Hr. apply HN. lia.
    + exists 1%nat. intros [|fuel] Hf; [lia|]. rewrite Hunf. unfold mbind, stM_bind. by rewrite Hr.
Qed.

(** A drain that reports completion left an empty queue, and restored the status. *)
Lemma drain_true fuel batch max parents items w w' :
  drain_loop fuel batch max parents items w = (Ok (Some true), w') →
  q_rows w' = ∅ ∧ ∀ s, q_sync w' = Some s → ∃ s0, clear_pending_error s0 true = Ok s.
Proof.
  revert parents items w. induction fuel as [|fuel IH]; intros parents items w Hr; cbn [drain_loop] in Hr; st_inv.
  match goal with M : on_qenv _ w = _ |- _ => apply on_qenv_keeps in M as [Hq _] end.
  destruct (load_next_core_reconcile_work _) as [work|] eqn:Hl.
  - destruct (batch && _); [by st_inv|]. destruct (work_primary_pending work); st_inv; [|eauto].
    destruct (max <=? parents); st_inv. eauto.
  - apply load_next_None in Hl. st_inv.
    match goal with M : clear_pending_error_if_queue_empty _ = _ |- _ =>
      apply transaction_Ok in M as (w2 & Hc & Hq2 & Hs2) end.
    apply clear_pending_keeps in Hc as [Hq3 Hs3]. rewrite Hq2, Hq3. split; [done|].
    rewrite Hs2. intros s Hs.
    match type of Hs3 with match ?o with _ => _ end => destruct o as [row|] end; [|congruence].
    destruct Hs3 as (row' & Hc & Hrow'). unfold queue_empty in Hc. rewrite Hl, bool_decide_true in Hc by done.
    exists row. congruence.
Qed.
End drain_lemmas.

(** ** Claims *)

(** The drain always ends: a live batch within one iteration more than its budget, and
    the full drain after finitely many, whatever the reconciles change, because primaries
    count against the budget and an expansion only turns rows into primaries. *)
Theorem drain_terminates `{ReconcileEnv W} max w :
  (∀ fuel, Z.max 0 max < Z.of_nat fuel → (drain_core_reconcile_queue_up_to fuel max true w).1 ≠ Ok None) ∧
  (∃ n, ∀ fuel, (n ≤ fuel)%nat → (drain_core_reconcile_queue_up_to fuel max false w).1 ≠ Ok None).
Proof.
  split; [intros fuel Hf; apply drain_batch_fuel; lia|].
  apply (drain_budget_fuel (Z.to_nat max) (S (expansions (q_rows w)))); lia.
Qed.

(** A drain that reports completion left no queued work behind and gave back the
    status the pending replacement had suspended. *)
Theorem drain_completes `{ReconcileEnv W} fuel max batch w w' :
  drain_core_reconcile_queue_up_to fuel max batch w = (Ok (Some true), w') →
  q_rows w' = ∅ ∧ ∀ s, q_sync w' = Some s → ∃ s0, clear_pending_error s0 true = Ok s.
Proof. apply drain_true. Qed.

(** Work queued again is not lost: a worker that loaded a row, and meanwhile the hash
    was queued again, neither removes nor completes the newer work, by settling a primary
    or by finishing an expansion, whatever other workers do while the row stays queued. *)
Theorem requeued_work_survives h r q q1 now hs e q2 q3 changed now' edges primary :
  q !! h = Some r → rtc (op_keeping h) q q1 →
  h ∈ hs → enqueue_core_reconcile_hashes now q1 hs e = Ok q2 →
  rtc (op_keeping h) q2 q3 →
  settle_core_reconcile_primary q3 h (generation r) changed = q3 ∧
  expand_queue now' q3 (mkWork h primary (generation r)) edges = Ok None ∧
  is_Some (q3 !! h).
Proof.
  intros Hr H1 Hin He H2. destruct (ops_newer _ _ _ _ H1 Hr) as (r1 & Hr1 & Hn1).
  destruct (proj2 (enqueue_rows _ _ _ _ _ He) h Hin) as (r2 & Hr2 & _ & Hg2). specialize (Hg2 _ Hr1).
  destruct (ops_newer _ _ _ _ H2 Hr2) as (r3 & Hr3 & Hn3).
  assert (generation r < generation r3) as Hg by (destruct Hn1 as [->|], Hn3 as [->|]; lia).
  assert ((generation r3 =? generation r) = false) as Hne by lia.
  unfold settle_core_reconcile_primary, expand_queue. simpl. rewrite Hr3, Hne, andb_false_r, orb_true_r. eauto.
Qed.

(** ** Witnesses *)

Module CoreQueueSample.
Definition a : bytes := [x01].
Definition b : bytes := [x02].
#[local] Instance env : ReconcileEnv unit := {
  reconcile_block h := mret (if bool_decide (h = a) then [h] else []);
  dependent_edges _ h := if bool_decide (h = a) then [b; a] else [];
  now_secs _ := 10;
  statement := mret ();
}.
Definition seeds : queue := {[ a := mkQueueRow true true 1 5 ]}.
Definition start : QueueWorld unit := mkQueueWorld () seeds None.

Lemma drain_completes_witness :
  (drain_core_reconcile_queue_up_to 9 10 false start).1 = Ok (Some true) ∧
  q_rows (drain_core_reconcile_queue_up_to 9 10 false start).2 = ∅.
Proof.
  split; [vm_compute; reflexivity|].
  apply (drain_completes 9 10 false start). vm_compute. reflexivity.
Defined.

Lemma requeued_work_survives_witness :
  is_Some (enqueue_one 11 false seeds a !! a) ∧
  settle_core_reconcile_primary (enqueue_one 11 false seeds a) a 1 false = enqueue_one 11 false seeds a.
Proof.
  destruct (requeued_work_survives a (mkQueueRow true true 1 5) seeds seeds 11 [a] false
    (enqueue_one 11 false seeds a) (enqueue_one 11 false seeds a) false 12 [] true) as (Hs & _ & Hi);
    [vm_compute; reflexivity|apply rtc_refl|left|vm_compute; reflexivity|apply rtc_refl|].
  split; [exact Hi|exact Hs].
Defined.
End CoreQueueSample.
