(* ===== verification/Backbone.v ===== *)
(** * The Bitcoin backbone

    Models [crates/mmm-producers/src/bitcoin_core_backbone]: the integrity guards
    ([integrity.rs]), the cursor, target and progress of [sync_state.rs], the
    ordinary sync of [mod.rs] with its revalidation under the exclusive barrier,
    and the live window of [live_window.rs]. The world holds Bitcoin Core (whose
    answers may change between calls), the block table, the sync-state row and
    the reconcile queue; every database statement may fail and a transaction that
    fails is rolled back. Messages and JSON details are abbreviated. The cascade
    to dependents after a commit, which re-derives the rows of events, belongs to
    the environment. *)

From stdpp Require Import list_numbers sorting.
From S2P Require Import Prelude BitcoinLib Effects Errors Classifier LiveLoop Poller Blocks SyncState CoreQueue.

Record BitcoinCoreBackboneTip := mkTip { tip_height : Z; tip_hash : bytes }.
#[global] Instance Tip_eq_dec : EqDecision BitcoinCoreBackboneTip.
Proof. solve_decision. Defined.

(** The trait [BitcoinCoreBackboneSource], the outcome of a database statement, the pool
    resolver, and the cascade. *)
Class BitcoinCoreBackboneSource (W : Type) := {
  bb_tip : stM W anyhow BitcoinCoreBackboneTip;
  bb_block_hash : Z → stM W anyhow bytes;
  bb_block_header : bytes → stM W anyhow Header;
  bb_block_coinbase : bytes → stM W anyhow BitcoinCoreBlockCoinbase;
  bb_statement : stM W anyhow unit;
  bb_resolve_pool : option BitcoinCoreBlockCoinbase → option Z;
  bb_has_missing_dependents : bytes → stM W anyhow bool;
  bb_cascade : bytes → stM W anyhow unit;
}.

Record BackboneWorld (W : Type) := mkBackboneWorld {
  bb_env : W;
  bb_blocks : block_table;
  bb_sync : option SyncStateRow;
  bb_queue : queue;
}.
Arguments mkBackboneWorld {W}.
Arguments bb_env {W}.
Arguments bb_blocks {W}.
Arguments bb_sync {W}.
Arguments bb_queue {W}.

Record BitcoinCoreSyncConfig := mkSyncConfig {
  from_height : option Z;
  to_height : option Z;
  limit : Z;
  pin_tip : bool;
  missing_only : bool;
}.

Record BitcoinCoreSyncStats := mkStats {
  attempted : Z;
  st_completed : Z;
  skipped_complete : Z;
  coinbase_failed : Z;
}.
Definition Stats_default : BitcoinCoreSyncStats := mkStats 0 0 0 0.

Inductive HeightSyncOutcome := Completed | SkippedComplete | CoinbaseFailed.

(** ** Queries *)

(** [ORDER BY btc_header_hash]. *)
Definition hash_le (a b : BlockInput) : Prop := bytes_leb (b_hash a) (b_hash b) = true.
#[global] Instance hash_le_dec a b : Decision (hash_le a b).
Proof. unfold hash_le. apply _. Defined.

Definition canonical_at (h : Z) (r : BlockInput) : Prop :=
  b_kind r = BkCanonical ∧ b_height r = Some h.
#[global] Instance canonical_at_dec h r : Decision (canonical_at h r).
Proof. unfold canonical_at. apply _. Defined.

Definition canonical_rows_at (t : block_table) (h : Z) : list BlockInput :=
  merge_sort hash_le (filter (canonical_at h) (map_to_list t).*2).

(** Rows between two heights, [ORDER BY btc_height, btc_header_hash]. *)
Definition canonical_rows_between (t : block_table) (from to : Z) : list BlockInput :=
  range_inclusive from to ≫= canonical_rows_at t.

Definition is_complete (r : BlockInput) : bool := bool_decide (b_coinbase_status r = Complete).

Section backbone.
Context `{BitcoinLib} {W : Type} `{BitcoinCoreBackboneSource W}.

#[local] Abbreviation bM := (stM (BackboneWorld W) anyhow).

Definition on_bb {A} (m : stM W anyhow A) : bM A := λ w,
  let '(r, e) := m (bb_env w) in (r, mkBackboneWorld e (bb_blocks w) (bb_sync w) (bb_queue w)).

(** [run_exclusive_core_canonical_view_transaction]. *)
Definition bb_transaction {A} (m : bM A) : bM A := λ w,
  match m w with
  | (Ok a, w') =>
      match on_bb bb_statement w' with
      | (Ok _, w'') => (Ok a, w'')
      | (Err e, w'') => (Err e, mkBackboneWorld (bb_env w'') (bb_blocks w) (bb_sync w) (bb_queue w))
      end
  | (Err e, w') => (Err e, mkBackboneWorld (bb_env w') (bb_blocks w) (bb_sync w) (bb_queue w))
  end.

Definition put_blocks (t : block_table) : bM unit :=
  modify (λ w, mkBackboneWorld (bb_env w) t (bb_sync w) (bb_queue w)).
(** An [UPDATE] of the sync-state row, which may not exist. *)
Definition update_sync (f : SyncStateRow → SyncStateRow) : bM unit :=
  _ ← on_bb bb_statement;
  modify (λ w, mkBackboneWorld (bb_env w) (bb_blocks w) (f <$> bb_sync w) (bb_queue w)).
Definition no_queued_work : bM bool := gets (λ w, queue_empty (bb_queue w)).

(** ** [sync_state.rs] *)

Definition record_sync_error (height : Z) (code message : string) : bM unit :=
  on_err (Context "record Bitcoin Core sync error")
    (update_sync (λ s, update_sync_error s height code message Null)).

Definition load_canonical_rows_at_height (h : Z) : bM (list BlockInput) :=
  _ ← on_err (Context "load canonical rows at height") (on_bb bb_statement);
  gets (λ w, canonical_rows_at (bb_blocks w) h).

Definition guard_no_pending_core_reconcile : bM unit :=
  _ ← on_err (Context "check pending Bitcoin Core reconcile work") (on_bb bb_statement);
  e ← no_queued_work;
  guardM e (Other "Bitcoin Core reconcile queue is pending; defer ordinary sync").

Definition row_state (s : SyncStateRow) : SyncState :=
  mkSyncState (target_tip_height s) (target_tip_hash s) (contiguous_complete_height s)
    (last_error_code s) (last_error_height s) false.

Definition load_or_init_sync_state : bM SyncState :=
  _ ← on_err (Context "load Bitcoin Core sync state") (on_bb bb_statement);
  s ← gets bb_sync;
  match s with
  | Some s => mret (row_state s)
  | None =>
      _ ← modify (λ w, mkBackboneWorld (bb_env w) (bb_blocks w) (Some SyncStateRow_default) (bb_queue w));
      mret (row_state SyncStateRow_default)
  end.

(** [failure.persist] of [integrity.rs], then the error. *)
Definition fail_stop {A} (k : BackboneIntegrityError) (code : string) (height : Z) : bM A :=
  _ ← record_sync_error height code "";
  throw (into_error k code height).

(** What a caller does with an error of a transaction that was rolled back. *)
Definition persist_failure {A} (m : bM A) : bM A :=
  r ← attempt m;
  match r with
  | Ok a => mret a
  | Err e =>
      match downcast_integrity_failure e with
      | Some (code, height) => _ ← record_sync_error height code ""; throw e
      | None => throw e
      end
  end.

Definition verify_or_set_target_tip (state : SyncState) (tip : BitcoinCoreBackboneTip) : bM SyncState :=
  if bool_decide (ss_target_tip_height state = Some (tip_height tip))
     && match ss_target_tip_hash state with
        | Some existing => negb (bool_decide (existing = tip_hash tip))
        | None => false
        end
  then fail_stop TargetTipChanged TARGET_TIP_CHANGED_ERROR_CODE (tip_height tip)
  else
    _ ← on_err (Context "store Bitcoin Core sync target tip")
          (update_sync (λ s, store_target_tip s (tip_height tip) (tip_hash tip)));
    mret (mkSyncState (Some (tip_height tip)) (Some (tip_hash tip)) (ss_contiguous_complete_height state)
            (ss_last_error_code state) (ss_last_error_height state) (preserve_error state)).

(** ** [integrity.rs] *)

Definition guard_same_height_conflicts (height : Z) (core_hash : bytes) (rows : list BlockInput) : bM unit :=
  if bool_decide (1 < length rows)%nat || existsb (λ r, negb (bool_decide (b_hash r = core_hash))) rows
  then fail_stop HeightConflict "backbone_height_conflict" height
  else mret ().

Definition guard_header_link (height : Z) (prev_hash : bytes) (default_contiguous_pass : bool) : bM unit :=
  if height =? 0 then mret () else
  prev_rows ← load_canonical_rows_at_height (sub_i32 height 1);
  match prev_rows with
  | [] => if default_contiguous_pass then fail_stop LinkMismatch "backbone_link_mismatch" height else mret ()
  | prev_row :: _ =>
      if bool_decide (1 < length prev_rows)%nat || negb (bool_decide (b_hash prev_row = prev_hash))
      then fail_stop LinkMismatch "backbone_link_mismatch" height
      else mret ()
  end.

Definition guard_existing_link (height : Z) (row : BlockInput) (default_contiguous_pass : bool) : bM unit :=
  guard_header_link height (b_prev_hash row) default_contiguous_pass.

(** ** The contiguous prefix *)

(** The loop of [advance_contiguous_complete_prefix]; [None] when the fuel runs out. *)
Fixpoint prefix_loop (fuel : nat) (new_height : Z) (anchor_hash : option bytes) : bM (option Z) :=
  match fuel with
  | O => mret None
  | S fuel =>
      match checked_add_i32 new_height 1 with
      | None => mret (Some new_height)
      | Some next_height =>
          rows ← load_canonical_rows_at_height next_height;
          match rows with
          | [row] =>
              if negb (is_complete row) then mret (Some new_height)
              else if negb (next_height =? 0) && negb (bool_decide (anchor_hash = Some (b_prev_hash row)))
              then mret (Some new_height)
              else prefix_loop fuel next_height (Some (b_hash row))
          | _ => mret (Some new_height)
          end
      end
  end.

(** Above the highest stored height there is nothing to load. *)
Definition max_height (t : block_table) : Z :=
  foldr Z.max (-1) (omap b_height (map_to_list t).*2).
Definition prefix_fuel (t : block_table) (h : Z) : nat := S (S (Z.to_nat (max_height t - h))).

Definition set_ss_cch (state : SyncState) (h : Z) : SyncState :=
  mkSyncState (ss_target_tip_height state) (ss_target_tip_hash state) h
    (ss_last_error_code state) (ss_last_error_height state) (preserve_error state).

Definition advance_contiguous_complete_prefix (state : SyncState) : bM SyncState :=
  let cch := ss_contiguous_complete_height state in
  anchor ← (if 0 <=? cch then
              rows ← load_canonical_rows_at_height cch;
              mret match rows with
                   | [row] => if is_complete row then Some (Some (b_hash row)) else None
                   | _ => None
                   end
            else mret (Some None));
  match anchor with
  | None => mret state
  | Some anchor_hash =>
      fuel ← gets (λ w, prefix_fuel (bb_blocks w) cch);
      r ← prefix_loop fuel cch anchor_hash;
      match r with
      | None => throw (Other "out of fuel")
      | Some new_height =>
          if cch <? new_height then
            _ ← on_err (Context "advance Bitcoin Core contiguous sync cursor")
                  (update_sync (λ s, store_prefix s new_height));
            mret (set_ss_cch state new_height)
          else mret state
      end
  end.

Definition clear_resolved_backbone_link_error (state : SyncState) : bM unit :=
  if negb (bool_decide (ss_last_error_code state = Some BACKBONE_LINK_MISMATCH)) then mret () else
  match ss_last_error_height state with
  | None => mret ()
  | Some error_height =>
      if ss_contiguous_complete_height state <? error_height then mret () else
      core_hash ← on_err (Context "revalidate resolved Core link error") (on_bb (bb_block_hash error_height));
      rows ← load_canonical_rows_at_height error_height;
      match rows with
      | [row] =>
          if negb (is_complete row) || negb (bool_decide (b_hash row = core_hash)) then mret () else
          _ ← guard_existing_link error_height row true;
          e ← no_queued_work;
          update_sync (λ s, clear_link_error s e error_height)
      | _ => mret ()
      end
  end.

Definition sync_progress (height : Z) (state : SyncState) : bM unit :=
  e ← no_queued_work;
  on_err (Context "update Bitcoin Core sync progress")
    (update_sync (λ s, update_sync_progress s e height state)).

(** ** Ordinary sync *)

Definition prepare_sync_batch (pin_target : bool) : bM (SyncState * BitcoinCoreBackboneTip) :=
  persist_failure (bb_transaction (
    _ ← guard_no_pending_core_reconcile;
    state ← load_or_init_sync_state;
    tip ← on_err (Context "fetch Bitcoin Core tip") (on_bb bb_tip);
    state ← (if pin_target then verify_or_set_target_tip state tip else mret state);
    state ← advance_contiguous_complete_prefix state;
    _ ← clear_resolved_backbone_link_error state;
    mret (state, tip))).

(** [try_skip_complete]. *)
Definition try_skip_complete (height : Z) (expected_hash : bytes) (default_contiguous_pass : bool)
    (state : SyncState) : bM (option bytes * SyncState) :=
  persist_failure (bb_transaction (
    _ ← guard_no_pending_core_reconcile;
    current_hash ← on_err (Context "revalidate skipped Bitcoin Core hash") (on_bb (bb_block_hash height));
    if negb (bool_decide (current_hash = expected_hash))
    then throw (into_error HeightConflict "backbone_height_conflict" height) else
    rows ← load_canonical_rows_at_height height;
    _ ← guard_same_height_conflicts height expected_hash rows;
    match rows with
    | [row] =>
        if negb (bool_decide (b_hash row = expected_hash)) || negb (is_complete row)
        then mret (None, state) else
        _ ← guard_existing_link height row default_contiguous_pass;
        state ← advance_contiguous_complete_prefix state;
        _ ← sync_progress height state;
        mret (Some (b_hash row), state)
    | _ => mret (None, state)
    end)).

(** [CoreHeightObservation::validate]. *)
Definition validate_observation (height : Z) (hash : bytes) (header : Header)
    (default_contiguous_pass : bool) : bM unit :=
  _ ← guard_no_pending_core_reconcile;
  current ← on_err (Context "revalidate Bitcoin Core hash") (on_bb (bb_block_hash height));
  if negb (bool_decide (current = hash))
  then throw (into_error HeightConflict "backbone_height_conflict" height) else
  rows ← load_canonical_rows_at_height height;
  _ ← guard_same_height_conflicts height hash rows;
  guard_header_link height (prev_blockhash header) default_contiguous_pass.

(** [write_observed_core_canonical] around [write_core_canonical_validated]. *)
Definition write_observed_core_canonical {A} (height : Z) (hash : bytes) (header : Header)
    (default_contiguous_pass : bool) (coinbase : option BitcoinCoreBlockCoinbase)
    (in_txn_extra : bM A) : bM A :=
  persist_failure (bb_transaction (
    _ ← validate_observation height hash header default_contiguous_pass;
    _ ← on_bb bb_statement;
    t ← gets bb_blocks;
    t ← lift (upsert_core_canonical_header_with_coinbase bb_resolve_pool t header height coinbase);
    _ ← put_blocks t;
    in_txn_extra)).

Definition record_coinbase_failure_row (height : Z) (hash : bytes) : bM unit :=
  _ ← on_err (Context "record Bitcoin Core coinbase failure") (on_bb bb_statement);
  t ← gets bb_blocks;
  t ← lift (record_coinbase_failure t height hash);
  put_blocks t.

Definition set_preserve_error (state : SyncState) : SyncState :=
  mkSyncState (ss_target_tip_height state) (ss_target_tip_hash state)
    (ss_contiguous_complete_height state) (ss_last_error_code state) (ss_last_error_height state) true.

(** The part of [sync_one_height] that fetches and writes. *)
Definition fetch_and_write (height : Z) (core_hash : bytes) (default_contiguous_pass : bool)
    (state : SyncState) : bM (HeightSyncOutcome * SyncState) :=
  header ← on_err (Context "fetch Bitcoin Core header") (on_bb (bb_block_header core_hash));
  _ ← guard_header_link height (prev_blockhash header) default_contiguous_pass;
  c ← attempt (on_bb (bb_block_coinbase core_hash));
  match c with
  | Err e =>
      if must_propagate e then throw e else
      _ ← write_observed_core_canonical height core_hash header default_contiguous_pass None
            (_ ← record_coinbase_failure_row height core_hash;
             record_sync_error height "coinbase_fetch_failed" "");
      _ ← on_bb (bb_cascade (block_hash header));
      mret (CoinbaseFailed, set_preserve_error state)
  | Ok coinbase =>
      state ← write_observed_core_canonical height core_hash header default_contiguous_pass (Some coinbase)
                (state ← advance_contiguous_complete_prefix state;
                 _ ← sync_progress height state;
                 mret state);
      _ ← on_bb (bb_cascade (block_hash header));
      mret (Completed, state)
  end.

Definition sync_one_height (height : Z) (missing : bool) (default_contiguous_pass : bool)
    (state : SyncState) : bM (HeightSyncOutcome * SyncState) :=
  core_hash ← on_err (Context "fetch Bitcoin Core hash at height") (on_bb (bb_block_hash height));
  rows ← load_canonical_rows_at_height height;
  _ ← guard_same_height_conflicts height core_hash rows;
  skip ← (if missing && match rows with
                        | row :: _ => bool_decide (b_hash row = core_hash) && is_complete row
                        | [] => false
                        end
          then try_skip_complete height core_hash default_contiguous_pass state
          else mret (None, state));
  match skip with
  | (Some skipped_hash, state) =>
      stale ← on_bb (bb_has_missing_dependents skipped_hash);
      _ ← (if (stale : bool) then on_bb (bb_cascade skipped_hash) else mret ());
      mret (SkippedComplete, state)
  | (None, state) => fetch_and_write height core_hash default_contiguous_pass state
  end.

Definition count_outcome (stats : BitcoinCoreSyncStats) (o : HeightSyncOutcome) : BitcoinCoreSyncStats :=
  match o with
  | Completed => mkStats (attempted stats + 1) (st_completed stats + 1) (skipped_complete stats) (coinbase_failed stats)
  | SkippedComplete => mkStats (attempted stats + 1) (st_completed stats) (skipped_complete stats + 1) (coinbase_failed stats)
  | CoinbaseFailed => mkStats (attempted stats + 1) (st_completed stats) (skipped_complete stats) (coinbase_failed stats + 1)
  end.

Fixpoint sync_heights (hs : list Z) (missing default_contiguous_pass : bool) (state : SyncState)
    (stats : BitcoinCoreSyncStats) : bM BitcoinCoreSyncStats :=
  match hs with
  | [] => mret stats
  | h :: hs =>
      '(o, state) ← sync_one_height h missing default_contiguous_pass state;
      sync_heights hs missing default_contiguous_pass state (count_outcome stats o)
  end.

(** [run_sync_bitcoin_core], without the delay between heights. *)
Definition run_sync_bitcoin_core (config : BitcoinCoreSyncConfig) : bM BitcoinCoreSyncStats :=
  _ ← on_err (Context "seed pool snapshot") (on_bb bb_statement);
  '(state, tip) ← prepare_sync_batch (pin_tip config);
  match to_height config with
  | Some to =>
      if tip_height tip <? to then
        _ ← record_sync_error to "to_height_above_tip" "";
        throw (Other "--to-height exceeds Bitcoin Core tip")
      else mret ()
  | None => mret ()
  end;;
  let from := default (Z.max (add_i32 (ss_contiguous_complete_height state) 1) 0) (from_height config) in
  let limit_end := Z.min (from + limit config - 1) i32_MAX in
  let to := match to_height config with
            | Some to => to
            | None => Z.min (tip_height tip) limit_end
            end in
  if to <? from then mret Stats_default else
  sync_heights (range_inclusive from to) (missing_only config)
    (match from_height config with None => true | Some _ => false end) state Stats_default.
End backbone.

(** ** Rows of a height *)

Lemma elem_of_rows t h r :
  r ∈ canonical_rows_at t h ↔ canonical_at h r ∧ ∃ k, t !! k = Some r.
Proof.
  unfold canonical_rows_at. rewrite merge_sort_Permutation, list_elem_of_filter, list_elem_of_fmap.
  split; intros [Hc Hr]; (split; [done|]).
  - destruct Hr as ([k r'] & -> & Hk%elem_of_map_to_list). eauto.
  - destruct Hr as [k Hk]. exists (k, r). split; [done|]. by apply elem_of_map_to_list.
Qed.

(** The rows stored under other keys. *)
Definition other_rows (t : block_table) (k : bytes) (h : Z) : list BlockInput :=
  filter (canonical_at h) (map_to_list (delete k t)).*2.

Lemma rows_insert t k r h :
  canonical_rows_at (<[k := r]> t) h ≡ₚ filter (canonical_at h) [r] ++ other_rows t k h.
Proof.
  unfold canonical_rows_at, other_rows. rewrite merge_sort_Permutation.
  rewrite <-insert_delete_eq, map_to_list_insert by apply lookup_delete_eq.
  rewrite fmap_cons. by rewrite filter_cons; destruct (decide _); rewrite filter_cons; [rewrite decide_True by done|rewrite decide_False by done].
Qed.

Lemma rows_lookup t k r h :
  t !! k = Some r → canonical_rows_at t h ≡ₚ filter (canonical_at h) [r] ++ other_rows t k h.
Proof. intros Hk. rewrite <-(insert_id t k r) at 1 by done. apply rows_insert. Qed.

Lemma rows_lookup_None t k h : t !! k = None → canonical_rows_at t h ≡ₚ other_rows t k h.
Proof.
  intros Hk. unfold canonical_rows_at, other_rows. rewrite merge_sort_Permutation.
  by rewrite delete_id.
Qed.

Lemma rows_singleton t h r : canonical_rows_at t h ≡ₚ [r] → canonical_rows_at t h = [r].
Proof. apply Permutation_singleton_r. Qed.

(** ** The contiguous prefix *)

(** One complete canonical row at a height, linked to the one below. *)
Definition height_ok (t : block_table) (k : Z) : Prop :=
  ∃ row, canonical_rows_at t k = [row] ∧ is_complete row = true ∧
         (k ≠ 0 → ∃ prev, canonical_rows_at t (k - 1) = [prev] ∧ b_prev_hash row = b_hash prev).

(** Every height up to [h] is complete and linked. *)
Definition prefix_ok (t : block_table) (h : Z) : Prop :=
  -1 ≤ h ≤ i32_MAX ∧ ∀ k, 0 ≤ k ≤ h → height_ok t k.

Lemma prefix_ok_seed t : prefix_ok t (-1).
Proof. split; [unfold i32_MAX; lia|]. intros k Hk. lia. Qed.

Lemma prefix_ok_max t a b : prefix_ok t a → prefix_ok t b → prefix_ok t (Z.max a b).
Proof. intros Ha Hb. by destruct (Z.max_spec a b) as [[_ ->]|[_ ->]]. Qed.

Lemma prefix_ok_step t h :
  prefix_ok t h → h + 1 ≤ i32_MAX → height_ok t (h + 1) → prefix_ok t (h + 1).
Proof.
  intros [Hh Hp] Hi Ho. split; [lia|]. intros k Hk. destruct (decide (k = h + 1)) as [->|]; [done|]. apply Hp. lia.
Qed.

Lemma rows_below_max t h r : r ∈ canonical_rows_at t h → h ≤ max_height t.
Proof.
  intros ([_ Hh] & k & Hk)%elem_of_rows. unfold max_height.
  assert (h ∈ omap b_height (map_to_list t).*2) as Hin.
  { apply list_elem_of_omap. exists r. split; [|done]. apply list_elem_of_fmap. exists (k, r).
    split; [done|]. by apply elem_of_map_to_list. }
  clear -Hin. induction Hin as [h l|h h' l _ IH]; simpl; lia.
Qed.

(** ** The invariant, and triples *)

(** The predecessor a block hash commits to. *)
Class PrevOf := prev_of : bytes → bytes.

Section invariant.
Context `{BitcoinLib} `{PrevOf} {W : Type} `{BitcoinCoreBackboneSource W}.

#[local] Abbreviation bM := (stM (BackboneWorld W) anyhow).

(** Every row carries the predecessor its hash commits to. *)
Definition rows_linked (t : block_table) : Prop :=
  ∀ k r, t !! k = Some r → b_prev_hash r = prev_of (b_hash r).

Definition backbone_ok (w : BackboneWorld W) : Prop :=
  table_ok (bb_blocks w) ∧ rows_linked (bb_blocks w) ∧
  ∀ s, bb_sync w = Some s → prefix_ok (bb_blocks w) (contiguous_complete_height s).

(** The invariant, with a cursor the producer holds in memory. *)
Definition state_ok (state : SyncState) (w : BackboneWorld W) : Prop :=
  backbone_ok w ∧ prefix_ok (bb_blocks w) (ss_contiguous_complete_height state).

Definition db (w : BackboneWorld W) := (bb_blocks w, bb_sync w, bb_queue w).
Definition stable (P : BackboneWorld W → Prop) : Prop := ∀ w w', db w = db w' → P w → P w'.

Lemma backbone_ok_stable : stable backbone_ok.
Proof. intros [e b s q] [e' b' s' q']. unfold db. simpl. by intros [= <- <- <-]. Qed.
Lemma state_ok_stable state : stable (state_ok state).
Proof. intros [e b s q] [e' b' s' q']. unfold db. simpl. by intros [= <- <- <-]. Qed.

(** [m] takes [P] to [Q], and keeps the invariant when it fails. *)
Definition triple {A} (P : BackboneWorld W → Prop) (m : bM A) (Q : A → BackboneWorld W → Prop) : Prop :=
  ∀ w, P w → match m w with (Ok a, w') => Q a w' | (Err _, w') => backbone_ok w' end.

Lemma triple_ret {A} P (a : A) : triple P (mret a) (λ b w, b = a ∧ P w).
Proof. by intros w HP. Qed.

Lemma triple_bind {A B} P (m : bM A) Q (f : A → bM B) R :
  triple P m Q → (∀ a, triple (Q a) (f a) R) → triple P (m ≫= f) R.
Proof.
  intros Hm Hf w HP. unfold mbind, stM_bind. specialize (Hm w HP). destruct (m w) as [[a|e] w1]; [|done].
  by apply Hf.
Qed.

Lemma triple_conseq {A} (P P' : BackboneWorld W → Prop) (m : bM A) (Q Q' : A → BackboneWorld W → Prop) :
  triple P m Q → (∀ w, P' w → P w) → (∀ a w, Q a w → Q' a w) → triple P' m Q'.
Proof. intros Hm HP HQ w Hw. specialize (Hm w (HP w Hw)). destruct (m w) as [[a|e] w1]; auto. Qed.

Section stable_rules.
Context (P : BackboneWorld W → Prop) (HP : stable P) (Hok : ∀ w, P w → backbone_ok w).

Lemma triple_on_bb {A} (m : stM W anyhow A) : triple P (on_bb m) (λ _, P).
Proof.
  intros w Hw. unfold on_bb. destruct (m (bb_env w)) as [[a|e] env]; [by eapply (HP w)|].
  by eapply (backbone_ok_stable w); [|apply Hok, Hw].
Qed.

Lemma triple_on_err {A} f (m : bM A) Q : triple P m Q → triple P (on_err f m) Q.
Proof. intros Hm w Hw. specialize (Hm w Hw). unfold on_err. by destruct (m w) as [[a|e] w1]. Qed.

Lemma triple_attempt_bb {A} (m : stM W anyhow A) : triple P (attempt (on_bb m)) (λ _, P).
Proof.
  intros w Hw. unfold attempt, on_bb. destruct (m (bb_env w)) as [[a|e] env]; by eapply (HP w).
Qed.

Lemma triple_throw {A} e : triple P (throw e : bM A) (λ _, P).
Proof. intros w Hw. by apply Hok. Qed.

Lemma triple_lift {A} (r : result anyhow A) : triple P (lift r : bM A) (λ a w, r = Ok a ∧ P w).
Proof. intros w Hw. destruct r; simpl; auto. Qed.

Lemma triple_gets {A} (f : BackboneWorld W → A) : triple P (gets f : bM A) (λ a w, a = f w ∧ P w).
Proof. by intros w Hw. Qed.

Lemma triple_guard c e : triple P (guardM c e : bM unit) (λ _, P).
Proof. intros w Hw. unfold guardM. destruct c; simpl; auto. Qed.

Lemma triple_transaction {A} (m : bM A) Q :
  (∀ a, stable (Q a)) → triple P m Q → triple P (bb_transaction m) Q.
Proof.
  intros HQ Hm w Hw. specialize (Hm w Hw). unfold bb_transaction.
  assert (∀ env, backbone_ok (mkBackboneWorld env (bb_blocks w) (bb_sync w) (bb_queue w))) as Hroll.
  { intros env. by eapply (backbone_ok_stable w); [|apply Hok, Hw]. }
  destruct (m w) as [[a|e] w1]; [|apply Hroll].
  unfold on_bb. destruct (bb_statement (bb_env w1)) as [[u|e] env]; [|apply Hroll]. by eapply (HQ a w1).
Qed.

(** An update of the sync row that keeps its cursor on the prefix. *)
Lemma triple_update_sync f :
  (∀ w s, P w → bb_sync w = Some s →
     P (mkBackboneWorld (bb_env w) (bb_blocks w) (Some (f s)) (bb_queue w))) →
  triple P (update_sync f) (λ _, P).
Proof.
  intros Hf. apply (triple_bind _ _ (λ _, P)); [apply triple_on_bb|]. intros _ w Hw. simpl.
  destruct (bb_sync w) as [s|] eqn:Hs; simpl; [by eapply Hf|]. eapply (HP w); [|exact Hw]. unfold db. by rewrite Hs.
Qed.
End stable_rules.

(** Updates of the row that keep its cursor keep both invariants. *)
Lemma sync_keeps f state :
  (∀ s, contiguous_complete_height (f s) = contiguous_complete_height s) →
  triple (state_ok state) (update_sync f) (λ _, state_ok state) ∧
  triple backbone_ok (update_sync f) (λ _, backbone_ok).
Proof.
  intros Hf. split; apply triple_update_sync; auto using state_ok_stable, backbone_ok_stable.
  - by intros w [].
  - intros w s [[Ht [Hl Hp]] Hc] Hs. split; [|done]. split; [done|]. split; [done|].
    intros s' [= <-]. simpl. rewrite Hf. auto.
  - intros w s [Ht [Hl Hp]] Hs. split; [done|]. split; [done|]. intros s' [= <-]. simpl. rewrite Hf. auto.
Qed.
End invariant.

(** ** Advancing the prefix *)

Section prefix.
Context `{BitcoinLib} {W : Type} `{BitcoinCoreBackboneSource W}.

(** The hash the next height must link to. *)
Definition anchored (t : block_table) (h : Z) (anchor : option bytes) : Prop :=
  0 ≤ h → ∃ row, canonical_rows_at t h = [row] ∧ anchor = Some (b_hash row).

Lemma on_bb_db {A} (m : stM W anyhow A) w r w' : on_bb m w = (r, w') → db w' = db w.
Proof. unfold on_bb. destruct (m (bb_env w)). by intros [= <- <-]. Qed.

Lemma db_eq (w w' : BackboneWorld W) :
  db w' = db w → bb_blocks w' = bb_blocks w ∧ bb_sync w' = bb_sync w ∧ bb_queue w' = bb_queue w.
Proof. unfold db. by intros [= -> -> ->]. Qed.

Lemma load_rows_Ok h w rows w' :
  load_canonical_rows_at_height h w = (Ok rows, w') →
  db w' = db w ∧ rows = canonical_rows_at (bb_blocks w) h.
Proof.
  unfold load_canonical_rows_at_height. intros Hr. st_inv.
  match goal with M : on_bb _ _ = _ |- _ => apply on_bb_db in M as Hd end.
  split; [done|]. by apply db_eq in Hd as [-> _].
Qed.

Lemma prefix_loop_spec fuel h anchor w n w' :
  prefix_ok (bb_blocks w) h → anchored (bb_blocks w) h anchor →
  prefix_loop fuel h anchor w = (Ok (Some n), w') →
  db w' = db w ∧ h ≤ n ≤ i32_MAX ∧ prefix_ok (bb_blocks w) n ∧ (n = i32_MAX ∨ ¬ height_ok (bb_blocks w) (n + 1)).
Proof.
  revert h anchor w. induction fuel as [|fuel IH]; intros h anchor w Hp Ha Hr; cbn [prefix_loop] in Hr; [st_inv|].
  pose proof (proj2 (proj1 Hp)) as Hi.
  destruct (checked_add_i32 h 1) as [next|] eqn:Hn.
  2: { st_inv. split_and!; try done || lia. left. unfold checked_add_i32 in Hn.
       destruct (decide (h + 1 ≤ i32_MAX)) as [Hle|]; [|lia].
       rewrite checked_i32_in in Hn; [done|]. unfold in_i32, i32_MAX in *. destruct Hp. lia. }
  apply checked_i32_Some in Hn as [-> Hin]. st_inv.
  match goal with M : load_canonical_rows_at_height _ _ = _ |- _ => apply load_rows_Ok in M as [Hd ->] end.
  pose proof (db_eq _ _ Hd) as (Hb & _ & _).
  assert (∀ n0 w0, n0 = h → w0 = x0 → ¬ height_ok (bb_blocks w) (h + 1) →
    db w0 = db w ∧ h ≤ n0 ≤ i32_MAX ∧ prefix_ok (bb_blocks w) n0 ∧
    (n0 = i32_MAX ∨ ¬ height_ok (bb_blocks w) (n0 + 1))) as Hstop.
  { intros n0 w0 -> -> Hno. split_and!; try done || lia. by right. }
  destruct (canonical_rows_at (bb_blocks w) (h + 1)) as [|row [|row' rows]] eqn:Hrows; st_inv;
    [apply Hstop; try done; intros (? & ? & _); congruence| |apply Hstop; try done; intros (? & ? & _); congruence].
  destruct (is_complete row) eqn:Hcomp; simpl in *; st_inv.
  2: { apply Hstop; try done. intros (? & ? & ? & _). congruence. }
  destruct (negb (h + 1 =? 0) && negb (bool_decide (anchor = Some (b_prev_hash row)))) eqn:Hlink; st_inv.
  - apply Hstop; try done. intros (row2 & Hr2 & _ & Hpl). assert (row2 = row) as -> by congruence.
    apply andb_true_iff in Hlink as [Hz Hne%negb_true_iff%bool_decide_eq_false].
    destruct Hpl as (prev & Hprev & Heq); [lia|]. replace (h + 1 - 1) with h in Hprev by lia.
    destruct Ha as (row3 & Hr3 & ->); [destruct Hp; lia|]. apply Hne. congruence.
  - assert (height_ok (bb_blocks w) (h + 1)) as Hok.
    { exists row. split_and!; [done|done|]. intros Hnz. replace (h + 1 - 1) with h by lia.
      apply andb_false_iff in Hlink as [Hz|Hl%negb_false_iff%bool_decide_eq_true]; [lia|].
      destruct Ha as (row3 & Hr3 & ->); [destruct Hp; lia|]. exists row3. split; [done|]. congruence. }
    rewrite <-Hb in *. rewrite <-Hd.
    match goal with M : prefix_loop _ _ _ _ = _ |- _ => apply IH in M as (Hd2 & Hle & Hp2 & Hm) end; [| |intros _; eauto].
    + split_and!; try done || lia.
    + apply prefix_ok_step; [done| |done]. unfold in_i32, i32_MAX in *. lia.
Qed.

Lemma prefix_loop_fuel fuel h anchor w :
  0 < Z.of_nat fuel → max_height (bb_blocks w) - h < Z.of_nat fuel →
  (prefix_loop fuel h anchor w).1 ≠ Ok None.
Proof.
  revert h anchor w. induction fuel as [|fuel IH]; intros h anchor w Hz Hf Hn; [lia|].
  match type of Hn with (?m w).1 = _ => destruct (m w) as [o w'] eqn:Hr end. simpl in Hn. subst o.
  cbn [prefix_loop] in Hr. destruct (checked_add_i32 h 1) as [next|] eqn:Hc; [|st_inv].
  apply checked_i32_Some in Hc as [-> _]. st_inv.
  match goal with M : load_canonical_rows_at_height _ _ = _ |- _ => apply load_rows_Ok in M as [Hd ->] end.
  apply db_eq in Hd as (Hb & _ & _).
  destruct (canonical_rows_at (bb_blocks w) (h + 1)) as [|row [|row' rows]] eqn:Hrows; st_inv.
  assert (h + 1 ≤ max_height (bb_blocks w)) by (apply (rows_below_max _ _ row); rewrite Hrows; left).
  destruct (negb (is_complete row)); [st_inv|]. destruct (_ && _); [st_inv|].
  apply (IH (h + 1) (Some (b_hash row)) x0); [lia|rewrite Hb; lia|].
  match goal with M : prefix_loop _ _ _ _ = _ |- _ => by rewrite M end.
Qed.

(** What advancing does to the cursor held in memory and to the row. *)
Lemma advance_spec state w state' w' :
  prefix_ok (bb_blocks w) (ss_contiguous_complete_height state) →
  advance_contiguous_complete_prefix state w = (Ok state', w') →
  let n := ss_contiguous_complete_height state' in
  bb_blocks w' = bb_blocks w ∧ bb_queue w' = bb_queue w ∧
  (bb_sync w' = bb_sync w ∨ bb_sync w' = (λ s, store_prefix s n) <$> bb_sync w) ∧
  ss_contiguous_complete_height state ≤ n ≤ i32_MAX ∧ prefix_ok (bb_blocks w) n ∧
  (n = i32_MAX ∨ ¬ height_ok (bb_blocks w) (n + 1)).
Proof.
  intros Hp Hr n. unfold n. clear n. unfold advance_contiguous_complete_prefix in Hr.
  set (cch := ss_contiguous_complete_height state) in *.
  apply st_bind_Ok in Hr as (anchor & w1 & Ha & Hr).
  assert (db w1 = db w ∧ ∃ a, anchor = Some a ∧ anchored (bb_blocks w) cch a) as (Hd & a & -> & Hanch).
  { destruct (0 <=? cch) eqn:Hz; st_inv.
    - match goal with M : load_canonical_rows_at_height _ _ = _ |- _ => apply load_rows_Ok in M as [Hd ->] end.
      split; [done|]. destruct Hp as [_ Hp]. destruct (Hp cch ltac:(lia)) as (row & Hrow & Hc & _).
      rewrite Hrow, Hc. eexists. split; [done|]. intros _. eauto.
    - split; [done|]. eexists. split; [done|]. intros ?. lia. }
  destruct (db_eq _ _ Hd) as (Hb & Hs & Hq). st_inv. rewrite <-Hb in Hp, Hanch.
  match goal with M : prefix_loop _ _ _ _ = (Ok ?o, _) |- _ => destruct o as [n|]; rename M into Hl; [|by st_inv] end.
  apply prefix_loop_spec in Hl as (Hd2 & Hle & Hpn & Hmax); [|done..].
  destruct (db_eq _ _ Hd2) as (Hb2 & Hs2 & Hq2). rewrite Hb in *.
  destruct (cch <? n) eqn:Hlt; st_inv.
  - unfold update_sync in *. st_inv.
    match goal with M : on_bb _ _ = _ |- _ => apply on_bb_db in M as Hd3 end.
    destruct (db_eq _ _ Hd3) as (Hb3 & Hs3 & Hq3). simpl. rewrite Hb3, Hs3, Hq3, Hb2, Hs2, Hq2, Hs, Hq.
    split_and!; try done || lia. by right.
  - rewrite Hb2, Hs2, Hq2, Hs, Hq. fold cch. assert (n = cch) as -> by lia. split_and!; try done || lia. by left.
Qed.

End prefix.

(** ** Writes that keep the prefix *)

Section writes.
Context `{BitcoinLib}.

(** A write under one key that keeps what the prefix rests on keeps the prefix. *)
Lemma prefix_ok_insert t k r h :
  (∀ m, 0 ≤ m ≤ h → canonical_at m r → ∃ old, t !! k = Some old ∧ canonical_at m old) →
  (∀ m old, 0 ≤ m ≤ h → t !! k = Some old → canonical_at m old →
     canonical_at m r ∧ b_hash r = b_hash old ∧ b_prev_hash r = b_prev_hash old ∧
     (is_complete old = true → is_complete r = true)) →
  prefix_ok t h → prefix_ok (<[k := r]> t) h.
Proof.
  intros Hnew Hold [Hh Hp]. split; [done|].
  (* each height keeps its row, up to the hash, the link and completeness *)
  assert (∀ m row, 0 ≤ m ≤ h → canonical_rows_at t m = [row] →
    ∃ row', canonical_rows_at (<[k := r]> t) m = [row'] ∧ b_hash row' = b_hash row ∧
            b_prev_hash row' = b_prev_hash row ∧ (is_complete row = true → is_complete row' = true)) as Hkeep.
  { intros m row Hm Hrow. destruct (decide (canonical_at m r)) as [Hc|Hc].
    - destruct (Hnew m Hm Hc) as (old & Hk & Hco). destruct (Hold m old Hm Hk Hco) as (_ & Hh1 & Hp1 & Hc1).
      pose proof (rows_lookup t k old m Hk) as Hs. rewrite Hrow, filter_cons_True in Hs by done.
      apply symmetry, Permutation_singleton_r in Hs. simpl in Hs. injection Hs as Heq Hrest.
      exists r. subst row. split_and!; try done. apply rows_singleton. rewrite rows_insert, filter_cons_True by done.
      simpl. by rewrite Hrest.
    - exists row. split_and!; try done. apply rows_singleton. rewrite rows_insert, filter_cons_False, filter_nil by done. simpl.
      destruct (t !! k) as [old|] eqn:Hk.
      + rewrite <-Hrow, (rows_lookup t k old m Hk). rewrite filter_cons_False, filter_nil; [done|].
        intros Hco. destruct (Hold m old Hm eq_refl Hco) as [? _]. done.
      + by rewrite <-Hrow, (rows_lookup_None t k m Hk). }
  intros m Hm. destruct (Hp m Hm) as (row & Hrow & Hcomp & Hlink).
  destruct (Hkeep m row Hm Hrow) as (row' & Hrow' & Hh' & Hp' & Hc').
  exists row'. split_and!; [done|auto|]. intros Hnz. destruct (Hlink Hnz) as (prev & Hprev & Heq).
  destruct (Hkeep (m - 1) prev ltac:(lia) Hprev) as (prev' & Hprev' & Hph & _).
  exists prev'. split; [done|]. congruence.
Qed.

Context (resolve : option BitcoinCoreBlockCoinbase → option Z).
Context `{PrevOf}.

Lemma map_insert_others (t t' : block_table) k r :
  t' !! k = Some r → (∀ k', k' ≠ k → t' !! k' = t !! k') → t' = <[k := r]> t.
Proof.
  intros Hk Ho. apply map_eq. intros i. destruct (decide (i = k)) as [->|Hne].
  - by rewrite lookup_insert_eq.
  - by rewrite lookup_insert_ne, Ho by done.
Qed.

Lemma core_write_keeps t header height coinbase t' c :
  table_ok t → rows_linked t → prefix_ok t c → prev_blockhash header = prev_of (block_hash header) →
  (∀ r, r ∈ canonical_rows_at t height → b_hash r = block_hash header) →
  upsert_core_canonical_header_with_coinbase resolve t header height coinbase = Ok t' →
  table_ok t' ∧ rows_linked t' ∧ prefix_ok t' c.
Proof.
  intros Ht Hl Hp Hpo Hg Hu.
  pose proof (synthesized_upsert_spec resolve t
    (mkClassifiedHeader (block_hash header) (prev_blockhash header) header height coinbase false) Ht) as Hs.
  unfold upsert_core_canonical_header_with_coinbase in Hu. rewrite Hu in Hs. simpl in Hs.
  destruct Hs as (Ht' & Ho & r & Hr & Hcr). destruct (Ht' _ _ Hr) as [Hhash _].
  pose proof (map_insert_others t t' _ r Hr Ho) as ->.
  assert (rows_kept t (<[block_hash header := r]> t)) as Hkept.
  { eapply upsert_kept; [exact Ht|exact Hu]. }
  destruct Hcr as (Hk & Hprev & _ & _ & _ & Hheight & _). simpl in *.
  split; [done|]. split.
  { intros k r0 Hk0. apply lookup_insert_Some in Hk0 as [[<- <-]|[_ Hk0]]; [|by eapply Hl].
    congruence. }
  apply prefix_ok_insert; [| |done].
  - intros m Hm [_ Hmr]. destruct (t !! block_hash header) as [old|] eqn:Hold.
    + destruct (bool_decide_reflect (b_kind old = BkCanonical)) as [Hc|Hc].
      * exists old. split; [done|]. split; [done|congruence].
      * exfalso. assert (m = height) as -> by congruence. destruct Hp as [_ Hp].
        destruct (Hp height Hm) as (row & Hrow & _).
        assert (row ∈ canonical_rows_at t height) as Hin by (rewrite Hrow; left).
        pose proof (Hg _ Hin) as Hrh. apply elem_of_rows in Hin as ([Hkr _] & k & Hkk).
        destruct (Ht _ _ Hkk) as [Hhk _]. assert (row = old) as -> by congruence. done.
    + exfalso. assert (m = height) as -> by congruence. destruct Hp as [_ Hp].
      destruct (Hp height Hm) as (row & Hrow & _).
      assert (row ∈ canonical_rows_at t height) as Hin by (rewrite Hrow; left).
      pose proof (Hg _ Hin) as Hrh. apply elem_of_rows in Hin as (_ & k & Hkk).
      destruct (Ht _ _ Hkk) as [Hhk _]. congruence.
  - intros m old Hm Hold [Hko Hmo]. rewrite Hold, bool_decide_true in Hheight by done.
    destruct (Ht _ _ Hold) as [Hho _]. split_and!; [split; [done|congruence]|congruence| |].
    + rewrite Hprev, (Hl _ _ Hold). congruence.
    + destruct (Hkept _ _ Hold) as (r2 & Hr2 & He & _). rewrite Hr in Hr2. injection Hr2 as <-.
      unfold is_complete. rewrite !bool_decide_eq_true. done.
Qed.

Lemma failure_write_keeps t height hash t' c :
  table_ok t → rows_linked t → prefix_ok t c → record_coinbase_failure t height hash = Ok t' →
  table_ok t' ∧ rows_linked t' ∧ prefix_ok t' c.
Proof.
  intros Ht Hl Hp Hw. pose proof (block_write_step _ _ Ht (write_failure _ _ _ _ Hw)) as [Ht' _].
  unfold record_coinbase_failure in Hw. destruct (t !! hash) as [r|] eqn:Hr; [|by simplify_eq].
  destruct (bool_decide _ && _) eqn:E; [|by simplify_eq].
  apply andb_true_iff in E as [_ E%negb_true_iff%bool_decide_eq_false].
  apply store_row_Ok in Hw as (_ & _ & ->). destruct (Ht _ _ Hr) as [Hh _]. simpl in *. subst hash.
  split; [done|]. split.
  { intros k r0 Hk0. apply lookup_insert_Some in Hk0 as [[<- <-]|[_ Hk0]]; [|by eapply Hl].
    by apply (Hl _ _ Hr). }
  apply prefix_ok_insert; [| |done].
  - intros m Hm Hc. exists r. done.
  - intros m old Hm Hold Hc. assert (old = r) as -> by congruence. split_and!; try done.
    unfold is_complete. rewrite bool_decide_eq_true. done.
Qed.
End writes.

(** ** Ordinary sync keeps the invariant *)

Lemma update_sync_error_cch s height code m d :
  contiguous_complete_height (update_sync_error s height code m d) = contiguous_complete_height s.
Proof. unfold update_sync_error. by destruct (_ && _). Qed.

Section sync_invariant.
Context `{BitcoinLib} {W : Type} `{BitcoinCoreBackboneSource W}.
Context `{PrevOf}.
(** Core answers a header request with the header of that hash. *)
Context (header_matches : ∀ h e header e', bb_block_header h e = (Ok header, e') →
  block_hash header = h ∧ prev_blockhash header = prev_of h).

#[local] Abbreviation bM := (stM (BackboneWorld W) anyhow).

Lemma triple_seq {A B} P (m : bM A) R (f : A → bM B) Q :
  triple P m (λ _, R) → (∀ a, triple R (f a) Q) → triple P (m ≫= f) Q.
Proof. intros Hm Hf. by eapply triple_bind. Qed.

Section rules.
Context (P : BackboneWorld W → Prop) (HP : stable P) (Hok : ∀ w, P w → backbone_ok w).
(** [P] also survives an update of the row that keeps the cursor. *)
Context (HPs : ∀ w s s', P w → bb_sync w = Some s →
  contiguous_complete_height s' = contiguous_complete_height s →
  P (mkBackboneWorld (bb_env w) (bb_blocks w) (Some s') (bb_queue w))).

Lemma triple_load h :
  triple P (load_canonical_rows_at_height h) (λ rows w, rows = canonical_rows_at (bb_blocks w) h ∧ P w).
Proof.
  eapply triple_seq; [by apply triple_on_err, triple_on_bb|]. intros _. apply triple_gets.
Qed.

Lemma triple_record height code m : triple P (record_sync_error height code m) (λ _, P).
Proof.
  apply triple_on_err, triple_update_sync; [done|done|]. intros w s Hw Hs. eapply HPs; [done|done|].
  apply update_sync_error_cch.
Qed.

Lemma triple_fail_stop {A} k code height Q : triple P (fail_stop k code height : bM A) Q.
Proof.
  eapply triple_seq; [apply triple_record|]. intros _ w Hw. simpl. auto.
Qed.

Lemma triple_no_pending : triple P guard_no_pending_core_reconcile (λ _, P).
Proof.
  eapply triple_seq; [by apply triple_on_err, triple_on_bb|]. intros _.
  eapply triple_bind; [apply triple_gets|]. intros e w [_ Hw]. by apply triple_guard.
Qed.

Lemma triple_same_height height hash rows :
  triple P (guard_same_height_conflicts height hash rows)
    (λ _ w, (∀ r, r ∈ rows → b_hash r = hash) ∧ P w).
Proof.
  unfold guard_same_height_conflicts. destruct (_ || _) eqn:E; [apply triple_fail_stop|].
  intros w Hw. split; [|done]. intros r Hr. apply orb_false_iff in E as [_ E].
  destruct (decide (b_hash r = hash)) as [|Hne]; [done|].
  assert (existsb (λ r, negb (bool_decide (b_hash r = hash))) rows = true) as Ht; [|congruence].
  apply existsb_exists. exists r. split; [by apply list_elem_of_In|]. by rewrite bool_decide_false.
Qed.

Lemma triple_header_link height prev pass : triple P (guard_header_link height prev pass) (λ _, P).
Proof.
  unfold guard_header_link. destruct (height =? 0); [by intros w Hw|].
  eapply triple_bind; [apply triple_load|]. intros rows.
  eapply triple_conseq; [|intros w [_ Hw]; exact Hw|intros a w Hw; exact Hw].
  destruct rows as [|row rows]; [destruct pass; [apply triple_fail_stop|by intros w Hw]|].
  destruct (_ || _); [apply triple_fail_stop|by intros w Hw].
Qed.

Lemma triple_persist {A} (m : bM A) Q : triple P m Q → triple P (persist_failure m) Q.
Proof.
  intros Hm w Hw. specialize (Hm w Hw). unfold persist_failure. rewrite st_attempt_bind.
  destruct (m w) as [[a|e] w1]; simpl; [done|].
  destruct (downcast_integrity_failure e) as [[code height]|]; [|done].
  assert (triple backbone_ok (record_sync_error height code "" ≫= λ _, throw e : bM A) (λ _ _, False)) as Ht.
  { eapply triple_seq.
    - apply triple_on_err. apply (proj2 (sync_keeps _ (row_state SyncStateRow_default)
        (λ s, update_sync_error_cch s height code _ _))).
    - intros _ w2 Hw2. exact Hw2. }
  specialize (Ht w1 Hm).
  match goal with |- match ?x with _ => _ end => change (match x with (Ok _, _) => False | (Err _, w') => backbone_ok w' end) in Ht;
    by destruct x as [[?|?] ?] end.
Qed.
End rules.

Lemma state_ok_sync state (w : BackboneWorld W) s s' :
  state_ok state w → bb_sync w = Some s → contiguous_complete_height s' = contiguous_complete_height s →
  state_ok state (mkBackboneWorld (bb_env w) (bb_blocks w) (Some s') (bb_queue w)).
Proof.
  intros [[Ht [Hl Hp]] Hc] Hs He. split; [|done]. split; [done|]. split; [done|].
  intros s0 [= <-]. simpl. rewrite He. auto.
Qed.
Lemma backbone_ok_sync (w : BackboneWorld W) s s' :
  backbone_ok w → bb_sync w = Some s → contiguous_complete_height s' = contiguous_complete_height s →
  backbone_ok (mkBackboneWorld (bb_env w) (bb_blocks w) (Some s') (bb_queue w)).
Proof.
  intros [Ht [Hl Hp]] Hs He. split; [done|]. split; [done|]. intros s0 [= <-]. simpl. rewrite He. auto.
Qed.
Lemma state_ok_backbone state (w : BackboneWorld W) : state_ok state w → backbone_ok w.
Proof. by intros []. Qed.

Hint Resolve state_ok_stable backbone_ok_stable state_ok_sync backbone_ok_sync state_ok_backbone : core.

Lemma triple_progress state height :
  triple (state_ok state) (sync_progress height state) (λ _, state_ok state).
Proof.
  eapply triple_bind; [apply triple_gets|]. intros e.
  eapply triple_conseq; [|intros w [_ Hw]; exact Hw|intros a w Hw; exact Hw].
  apply triple_on_err, triple_update_sync; [auto|eauto|].
  intros w s [[Ht [Hl Hp]] Hc] Hs. split; [|done]. split; [done|]. split; [done|].
  intros s0 [= <-]. simpl.
  replace (contiguous_complete_height (update_sync_progress s e height state)) with
    (Z.max (contiguous_complete_height s) (ss_contiguous_complete_height state)).
  - apply prefix_ok_max; auto.
  - unfold update_sync_progress. by destruct (_ && _).
Qed.
End sync_invariant.

Section sync_runs.
Context `{BitcoinLib} {W : Type} `{BitcoinCoreBackboneSource W}.
Context `{PrevOf}.
Context (header_matches : ∀ h e header e', bb_block_header h e = (Ok header, e') →
  block_hash header = h ∧ prev_blockhash header = prev_of h).

#[local] Abbreviation bM := (stM (BackboneWorld W) anyhow).

Hint Resolve state_ok_stable backbone_ok_stable state_ok_sync backbone_ok_sync state_ok_backbone : core.

(** Effects that leave the tables alone. *)
Definition same_db (w w' : BackboneWorld W) : Prop := db w' = db w.
#[local] Instance same_db_preorder : PreOrder same_db.
Proof. split; [done|]. unfold same_db. intros w1 w2 w3. congruence. Qed.

Lemma on_bb_same {A} (m : stM W anyhow A) : steps same_db (on_bb m).
Proof. intros w. unfold on_bb. by destruct (m (bb_env w)). Qed.
Hint Resolve on_bb_same : steps.
Lemma load_same h : steps same_db (load_canonical_rows_at_height h).
Proof. unfold load_canonical_rows_at_height. solve_steps. Qed.
Hint Resolve load_same : steps.
Lemma prefix_loop_same fuel h a : steps same_db (prefix_loop fuel h a).
Proof. revert h a. induction fuel as [|fuel IH]; intros h a; simpl; solve_steps. Qed.
Hint Resolve prefix_loop_same : steps.

(** A failure leaves the tables alone. *)
Definition fails_clean {A} (m : bM A) : Prop := ∀ w e w', m w = (Err e, w') → db w' = db w.

Lemma fails_clean_same {A} (m : bM A) : steps same_db m → fails_clean m.
Proof. intros Hm w e w' Hr. specialize (Hm w). by rewrite Hr in Hm. Qed.

Lemma fails_clean_bind {A B} (m : bM A) (f : A → bM B) :
  steps same_db m → (∀ a, fails_clean (f a)) → fails_clean (m ≫= f).
Proof.
  intros Hm Hf w e w' Hr. unfold mbind, stM_bind in Hr. specialize (Hm w). unfold same_db in Hm.
  destruct (m w) as [[a|e1] w1]; simpl in *; [apply Hf in Hr; congruence|]. injection Hr as _ <-. done.
Qed.

Lemma update_sync_clean f : fails_clean (update_sync f).
Proof. unfold update_sync. apply fails_clean_bind; [apply on_bb_same|]. intros a w e w' Hm. discriminate Hm. Qed.

Lemma advance_clean state : fails_clean (advance_contiguous_complete_prefix state).
Proof.
  unfold advance_contiguous_complete_prefix. apply fails_clean_bind; [solve_steps|]. intros [a|]; [|intros w e w' Hm; discriminate Hm].
  apply fails_clean_bind; [solve_steps|]. intros fuel. apply fails_clean_bind; [apply prefix_loop_same|].
  intros [n|]; [|by apply fails_clean_same; solve_steps].
  destruct (_ <? _); [|intros w e w' Hm; discriminate Hm].
  intros w e w' Hr. unfold mbind, stM_bind in Hr.
  destruct (on_err _ (update_sync _) w) as [[u|e1] w1] eqn:Hu; [done|]. simplify_eq.
  unfold on_err in Hu. destruct (update_sync _ w) as [[?|?] w2] eqn:Hu2; simpl in Hu; simplify_eq.
  by eapply update_sync_clean.
Qed.

Lemma triple_run {A} P (m : bM A) Q :
  (∀ w, P w → backbone_ok w) → fails_clean m →
  (∀ w a w', P w → m w = (Ok a, w') → Q a w') → triple P m Q.
Proof.
  intros Hok Hc HQ w Hw. destruct (m w) as [[a|e] w1] eqn:Hr; [by eapply HQ|].
  apply Hc in Hr. by eapply (backbone_ok_stable w); [|apply Hok].
Qed.

Lemma triple_advance state :
  triple (state_ok state) (advance_contiguous_complete_prefix state) (λ state', state_ok state').
Proof.
  apply triple_run; [eauto|apply advance_clean|]. intros w state' w' [[Ht [Hl Hp]] Hc] Hr.
  apply advance_spec in Hr as (Hb & Hq & Hs & Hle & Hn & _); [|done].
  split; [|by rewrite Hb]. unfold backbone_ok. rewrite Hb. split; [done|]. split; [done|].
  intros s Hs'. destruct Hs as [Hs|Hs]; rewrite Hs in Hs'; [by apply Hp|].
  apply fmap_Some in Hs' as (s0 & Hs0 & ->). simpl. apply prefix_ok_max; auto.
Qed.

Lemma triple_try_skip height hash pass state :
  triple (state_ok state) (try_skip_complete height hash pass state) (λ p, state_ok p.2).
Proof.
  apply triple_persist. apply triple_transaction; [eauto|intros a; auto|].
  eapply triple_seq; [apply triple_no_pending; eauto|]. intros _.
  eapply triple_seq; [apply triple_on_err, triple_on_bb; eauto|]. intros current.
  destruct (negb _); [intros w Hw; simpl; eauto|].
  eapply triple_bind; [apply triple_load; eauto|]. intros rows.
  eapply triple_conseq; [|intros w [_ Hw]; exact Hw|intros ? ? Hw; exact Hw].
  eapply triple_bind; [apply triple_same_height; eauto|]. intros ?.
  eapply triple_conseq; [|intros w [_ Hw]; exact Hw|intros ? ? Hw; exact Hw].
  destruct rows as [|row [|row' rows]]; [by intros w Hw| |by intros w Hw].
  destruct (_ || _); [by intros w Hw|].
  eapply triple_seq; [apply triple_header_link; eauto|]. intros _.
  eapply triple_bind; [apply triple_advance|]. intros state'. simpl.
  eapply triple_seq; [apply triple_progress|]. intros _ w Hw. exact Hw.
Qed.

Lemma triple_validate height hash header pass state :
  triple (state_ok state) (validate_observation height hash header pass)
    (λ _ w, state_ok state w ∧ ∀ r, r ∈ canonical_rows_at (bb_blocks w) height → b_hash r = hash).
Proof.
  eapply triple_seq; [apply triple_no_pending; eauto|]. intros _.
  eapply triple_seq; [apply triple_on_err, triple_on_bb; eauto|]. intros current.
  destruct (negb _); [intros w Hw; simpl; eauto|].
  eapply triple_bind; [apply triple_load; eauto|]. intros rows.
  set (P := λ w : BackboneWorld W, rows = canonical_rows_at (bb_blocks w) height ∧ state_ok state w).
  assert (stable P) as HP.
  { intros [] []. unfold P, db. simpl. by intros [= <- <- <-]. }
  assert (∀ w, P w → backbone_ok w) as HPok by (intros w [_ Hw]; eauto).
  assert (∀ w s s', P w → bb_sync w = Some s → contiguous_complete_height s' = contiguous_complete_height s →
    P (mkBackboneWorld (bb_env w) (bb_blocks w) (Some s') (bb_queue w))) as HPs.
  { intros w s s' [Hr Hw] Hs He. split; [done|]. eauto. }
  eapply triple_bind; [by apply (triple_same_height P)|]. intros ?.
  set (Q := λ w : BackboneWorld W, (∀ r, r ∈ rows → b_hash r = hash) ∧ P w).
  eapply triple_conseq; [apply (triple_header_link Q)| |].
  - intros w w' Hd [Hr Hw]. split; [done|]. by eapply (HP w).
  - intros w [_ Hw]. auto.
  - intros w s s' [Hr Hw] Hs He. split; [done|]. eauto.
  - intros w Hw. exact Hw.
  - intros _ w [Hr [-> Hw]]. done.
Qed.

(** The write of one canonical row, after its validation. *)
Lemma triple_put height hash header coinbase state :
  block_hash header = hash ∧ prev_blockhash header = prev_of hash →
  triple (λ w, state_ok state w ∧ ∀ r, r ∈ canonical_rows_at (bb_blocks w) height → b_hash r = hash)
    (_ ← on_bb bb_statement;
     t ← gets bb_blocks;
     t ← lift (upsert_core_canonical_header_with_coinbase bb_resolve_pool t header height coinbase);
     put_blocks t) (λ _, state_ok state).
Proof.
  intros [Hh Hpo]. set (P := λ w : BackboneWorld W, state_ok state w ∧ ∀ r, r ∈ canonical_rows_at (bb_blocks w) height → b_hash r = hash).
  assert (stable P) as HP.
  { intros [] []. unfold P, db. simpl. by intros [= <- <- <-]. }
  eapply triple_seq; [apply (triple_on_bb P); [done|by intros w [Hw _]; eauto]|]. intros _.
  intros w [[[Ht [Hl Hp]] Hc] Hr]. unfold mbind, stM_bind, gets, lift, put_blocks, modify.
  destruct (upsert_core_canonical_header_with_coinbase _ _ _ _ _) as [t'|e] eqn:Hu; [|done].
  subst hash.
  assert (∀ c, prefix_ok (bb_blocks w) c → table_ok t' ∧ rows_linked t' ∧ prefix_ok t' c) as Hk.
  { intros c Hcc. by eapply core_write_keeps. }
  destruct (Hk _ Hc) as (Ht' & Hl' & Hc'). split; [|done]. split; [done|]. split; [done|].
  intros s Hs. by apply Hk, Hp.
Qed.

Lemma triple_write_observed {A} height hash header pass coinbase state (extra : bM A) Q :
  block_hash header = hash ∧ prev_blockhash header = prev_of hash → (∀ a, stable (Q a)) → triple (state_ok state) extra Q →
  triple (state_ok state) (write_observed_core_canonical height hash header pass coinbase extra) Q.
Proof.
  intros Hh HQ Hex. apply triple_persist. apply triple_transaction; [eauto|done|].
  eapply triple_bind; [apply triple_validate|]. intros ?.
  pose proof (triple_put height hash header coinbase state Hh) as Hput.
  intros w Hw. specialize (Hput w Hw). unfold mbind, stM_bind, gets, lift, put_blocks, modify in *.
  destruct (on_bb bb_statement w) as [[u|e] w1]; [|done].
  destruct (upsert_core_canonical_header_with_coinbase _ _ _ _ _) as [t'|e]; [|done]. by apply Hex.
Qed.

Lemma triple_record_failure height hash state :
  triple (state_ok state)
    (_ ← record_coinbase_failure_row height hash;
     record_sync_error height "coinbase_fetch_failed" "") (λ _, state_ok state).
Proof.
  eapply (triple_seq _ _ (state_ok state)); [|intros _; apply triple_record; eauto].
  eapply triple_seq; [apply triple_on_err, triple_on_bb; eauto|]. intros _.
  intros w [[Ht [Hl Hp]] Hc]. unfold mbind, stM_bind, gets, lift, put_blocks, modify.
  destruct (record_coinbase_failure _ _ _) as [t'|e] eqn:Hu; [|done].
  assert (∀ c, prefix_ok (bb_blocks w) c → table_ok t' ∧ rows_linked t' ∧ prefix_ok t' c) as Hk.
  { intros c Hcc. by eapply failure_write_keeps. }
  destruct (Hk _ Hc) as (Ht' & Hl' & Hc'). split; [|done]. split; [done|]. split; [done|].
  intros s Hs. by apply Hk, Hp.
Qed.

Lemma triple_header h state :
  triple (state_ok state) (on_bb (bb_block_header h)) (λ header w, (block_hash header = h ∧ prev_blockhash header = prev_of h) ∧ state_ok state w).
Proof.
  intros w Hw. unfold on_bb. destruct (bb_block_header h (bb_env w)) as [[hd|e] env] eqn:E.
  - split; [by eapply header_matches|]. by eapply (state_ok_stable state w).
  - eapply (backbone_ok_stable w); [done|eauto].
Qed.

Lemma triple_fetch_and_write height hash pass state :
  triple (state_ok state) (fetch_and_write height hash pass state) (λ p, state_ok p.2).
Proof.
  eapply triple_bind; [apply triple_on_err, triple_header|]. intros header w [Hh Hw]. revert w Hw.
  change (triple (state_ok state) (_ ← guard_header_link height (prev_blockhash header) pass;
    c ← attempt (on_bb (bb_block_coinbase hash));
    match c with
    | Err e =>
        if must_propagate e then throw e else
        _ ← write_observed_core_canonical height hash header pass None
              (_ ← record_coinbase_failure_row height hash;
               record_sync_error height "coinbase_fetch_failed" "");
        _ ← on_bb (bb_cascade (block_hash header));
        mret (CoinbaseFailed, set_preserve_error state)
    | Ok coinbase =>
        state ← write_observed_core_canonical height hash header pass (Some coinbase)
                  (state ← advance_contiguous_complete_prefix state;
                   _ ← sync_progress height state;
                   mret state);
        _ ← on_bb (bb_cascade (block_hash header));
        mret (Completed, state)
    end) (λ p, state_ok p.2)).
  eapply triple_seq; [apply triple_header_link; eauto|]. intros _.
  eapply triple_seq; [apply triple_attempt_bb; eauto|]. intros [coinbase|e].
  - eapply (triple_bind _ _ (λ st, state_ok st)).
    + apply triple_write_observed; [done|intros a; auto|].
      eapply triple_bind; [apply triple_advance|]. intros st.
      eapply triple_seq; [apply triple_progress|]. intros _ w Hw. exact Hw.
    + intros st. eapply triple_seq; [apply triple_on_bb; eauto|]. intros _ w Hw. exact Hw.
  - destruct (must_propagate e); [intros w Hw; simpl; eauto|].
    eapply (triple_seq _ _ (state_ok state)).
    + apply (triple_write_observed _ _ _ _ _ _ _ (λ _, state_ok state)); [done|intros a; auto|apply triple_record_failure].
    + intros _. eapply triple_seq; [apply triple_on_bb; eauto|]. intros _ w Hw. exact Hw.
Qed.

Lemma triple_sync_one height missing pass state :
  triple (state_ok state) (sync_one_height height missing pass state) (λ p, state_ok p.2).
Proof.
  eapply triple_seq; [apply triple_on_err, triple_on_bb; eauto|]. intros hash.
  eapply triple_bind; [apply triple_load; eauto|]. intros rows.
  eapply triple_conseq; [|intros w [_ Hw]; exact Hw|intros ? ? Hw; exact Hw].
  eapply triple_bind; [apply triple_same_height; eauto|]. intros ?.
  eapply triple_conseq; [|intros w [_ Hw]; exact Hw|intros ? ? Hw; exact Hw].
  eapply (triple_bind _ _ (λ p, state_ok p.2)).
  { destruct (_ && _); [apply triple_try_skip|by intros w Hw]. }
  intros [[skipped|] st]; simpl; [|apply triple_fetch_and_write].
  eapply triple_seq; [apply triple_on_bb; eauto|]. intros stale.
  eapply (triple_seq _ _ (state_ok st)); [|by intros _ w Hw].
  destruct stale; [apply triple_on_bb; eauto|by intros w Hw].
Qed.

Lemma triple_sync_heights hs missing pass state stats :
  triple (state_ok state) (sync_heights hs missing pass state stats) (λ _, backbone_ok).
Proof.
  revert state stats. induction hs as [|h hs IH]; intros state stats; [intros w Hw; simpl; eauto|].
  simpl. eapply triple_bind; [apply triple_sync_one|]. intros [o st]. apply IH.
Qed.

Lemma triple_load_state :
  triple backbone_ok load_or_init_sync_state (λ st, state_ok st).
Proof.
  eapply triple_seq; [apply triple_on_err, triple_on_bb; eauto|]. intros _.
  intros w [Ht [Hl Hp]]. unfold mbind, stM_bind, gets, modify. destruct (bb_sync w) as [s|] eqn:Hs; simpl.
  - split; [|by apply Hp]. split; [done|]. split; [done|]. intros s0 Hs0. apply Hp. congruence.
  - split; [|apply prefix_ok_seed]. split; [done|]. split; [done|]. intros s0 [= <-]. apply prefix_ok_seed.
Qed.

Lemma triple_clear_link state :
  triple (state_ok state) (clear_resolved_backbone_link_error state) (λ _, state_ok state).
Proof.
  unfold clear_resolved_backbone_link_error.
  destruct (negb _); [by intros w Hw|]. destruct (ss_last_error_height state) as [h|]; [|by intros w Hw].
  destruct (_ <? _); [by intros w Hw|].
  eapply triple_seq; [apply triple_on_err, triple_on_bb; eauto|]. intros hash.
  eapply triple_bind; [apply triple_load; eauto|]. intros rows.
  eapply triple_conseq; [|intros w [_ Hw]; exact Hw|intros ? ? Hw; exact Hw].
  destruct rows as [|row [|row' rows]]; [by intros w Hw| |by intros w Hw].
  destruct (_ || _); [by intros w Hw|].
  eapply triple_seq; [apply triple_header_link; eauto|]. intros _.
  eapply triple_bind; [apply triple_gets|]. intros e.
  eapply triple_conseq; [|intros w [_ Hw]; exact Hw|intros ? ? Hw; exact Hw].
  apply triple_update_sync; [auto|eauto|]. intros w s Hw Hs. eapply state_ok_sync; [done|done|].
  unfold clear_link_error. by destruct (_ && _).
Qed.

Lemma triple_set_target state tip :
  triple (state_ok state) (verify_or_set_target_tip state tip) (λ st, state_ok st).
Proof.
  unfold verify_or_set_target_tip. destruct (_ && _); [apply triple_fail_stop; eauto|].
  eapply (triple_seq _ _ (state_ok state)); [|by intros _ w Hw].
  apply triple_on_err, triple_update_sync; [auto|eauto|]. intros w s Hw Hs. by eapply state_ok_sync.
Qed.

Lemma triple_prepare pin :
  triple backbone_ok (prepare_sync_batch pin) (λ p, state_ok p.1).
Proof.
  apply triple_persist. apply triple_transaction; [done|intros a; auto|].
  eapply triple_seq; [apply triple_no_pending; eauto|]. intros _.
  eapply triple_bind; [apply triple_load_state|]. intros st.
  eapply triple_seq; [apply triple_on_err, triple_on_bb; eauto|]. intros tip.
  eapply (triple_bind _ _ (λ st, state_ok st)); [destruct pin; [apply triple_set_target|by intros w Hw]|]. intros st2.
  eapply triple_bind; [apply triple_advance|]. intros st3.
  eapply triple_seq; [apply triple_clear_link|]. intros _ w Hw. exact Hw.
Qed.

Lemma triple_run_sync config : triple backbone_ok (run_sync_bitcoin_core config) (λ _, backbone_ok).
Proof.
  unfold run_sync_bitcoin_core.
  eapply triple_seq; [apply triple_on_err, triple_on_bb; eauto|]. intros _.
  eapply triple_bind; [apply triple_prepare|]. intros [state tip]. simpl.
  eapply (triple_seq _ _ (state_ok state)).
  - destruct (to_height config) as [to|]; [|by intros w Hw]. destruct (_ <? _); [|by intros w Hw].
    eapply triple_seq; [apply triple_record; eauto|]. intros _ w Hw. simpl. eauto.
  - intros _. cbv zeta. destruct (_ <? _); [intros w Hw; simpl; eauto|]. apply triple_sync_heights.
Qed.
End sync_runs.

(** ** Claims *)

(** C6. Ordinary sync keeps the backbone invariant, whichever call or statement fails, whatever
    heights, hashes and coinbases Core reports, and at whatever height a run stops: the table
    keeps its constraints and links, and the stored cursor always ends a prefix from genesis
    with exactly one canonical row per height, each complete and linked to the one below. One
    thing is required of Core, which the sync does not check: a header it returns for a hash
    has that hash, and so the one predecessor the hash commits to. *)
Theorem sync_keeps_backbone `{BitcoinLib} `{PrevOf} `{BitcoinCoreBackboneSource W} config
    (w : BackboneWorld W) :
  (∀ h e header e', bb_block_header h e = (Ok header, e') →
     block_hash header = h ∧ prev_blockhash header = prev_of h) →
  backbone_ok w → backbone_ok (run_sync_bitcoin_core config w).2.
Proof.
  intros Hm Hok. pose proof (triple_run_sync Hm config w Hok) as Ht.
  by destruct (run_sync_bitcoin_core config w) as [[?|?] ?].
Qed.

(** Advancing the cursor: the loop ends within its bound, a success leaves the block
    table alone, and the cursor then ends the longest prefix: the next height has no
    single complete linked row (or is beyond 32 bits). *)
Theorem prefix_advance_maximal `{BitcoinLib} `{BitcoinCoreBackboneSource W} state (w : BackboneWorld W) :
  prefix_ok (bb_blocks w) (ss_contiguous_complete_height state) →
  (∀ a, (prefix_loop (prefix_fuel (bb_blocks w) (ss_contiguous_complete_height state))
           (ss_contiguous_complete_height state) a w).1 ≠ Ok None) ∧
  ∀ state' w', advance_contiguous_complete_prefix state w = (Ok state', w') →
    let n := ss_contiguous_complete_height state' in
    bb_blocks w' = bb_blocks w ∧ ss_contiguous_complete_height state ≤ n ∧ prefix_ok (bb_blocks w') n ∧
    (n = i32_MAX ∨ ¬ prefix_ok (bb_blocks w') (n + 1)).
Proof.
  intros Hp. split.
  { intros a. apply prefix_loop_fuel; unfold prefix_fuel; lia. }
  intros state' w' Hr n. apply advance_spec in Hr as (Hb & _ & _ & Hle & Hn & Hm); [|done].
  rewrite Hb. split_and!; [done|unfold n; lia|done|]. destruct Hm as [Hm|Hm]; [by left|right].
  intros [Hr Hall]. apply Hm, Hall. destruct Hn. lia.
Qed.

(** ** Witnesses *)

Module BackboneSample.
(** Hashes that spell out the chain: a block's hash extends that of its predecessor. *)
Definition chain_lib : BitcoinLib :=
  let toy := Toy.toy in
  {| sha256d := @sha256d toy; block_hash h := x00 :: prev_blockhash h;
     compute_txid := @compute_txid toy; is_coinbase := @is_coinbase toy;
     deserialize_header := @deserialize_header toy; serialize_header := @serialize_header toy;
     deserialize_partial_tx := @deserialize_partial_tx toy; deserialize_tx := @deserialize_tx toy;
     deserialize_txouts := @deserialize_txouts toy; deserialize_block := @deserialize_block toy;
     check_merkle_root := @check_merkle_root toy; target_from_compact := @target_from_compact toy;
     is_met_by := @is_met_by toy; is_op_return := @is_op_return toy;
     address_from_script := @address_from_script toy |}.
#[local] Existing Instance chain_lib.

Definition hash_at (h : Z) : bytes := replicate (S (Z.to_nat h)) x00.
Definition header_of (prev : bytes) : Header :=
  {| hdr_version := 1; prev_blockhash := prev; merkle_root := []; hdr_time := 0; hdr_bits := 0; hdr_nonce := 0 |}.

(** A Core at height 5; its third coinbase request fails. *)
#[local] Instance core : BitcoinCoreBackboneSource nat := {
  bb_tip := λ n, (Ok (mkTip 5 (hash_at 5)), n);
  bb_block_hash h := λ n, (Ok (hash_at h), n);
  bb_block_header h := λ n,
    match h with x00 :: p => (Ok (header_of p), n) | _ => (Err (RpcError (-5) "Block not found"), n) end;
  bb_block_coinbase h := λ n,
    if Nat.eqb n 2 then (Err (Other "connection reset"), S n)
    else (Ok (mkBlockCoinbase [x01] [x02] [x03]), S n);
  bb_statement := λ n, (Ok (), n);
  bb_resolve_pool _ := None;
  bb_has_missing_dependents _ := λ n, (Ok false, n);
  bb_cascade _ := λ n, (Ok (), n);
}.

Definition start : BackboneWorld nat := mkBackboneWorld 0%nat ∅ None ∅.
Definition config : BitcoinCoreSyncConfig := mkSyncConfig None None 4 true true.

#[local] Instance chain_prev : PrevOf := tail.

Lemma start_ok : backbone_ok start.
Proof.
  assert (∀ h r, (∅ : block_table) !! h = Some r → False) as He by (intros h r; by rewrite lookup_empty).
  split; [|split]; simpl.
  - intros h r []%He.
  - intros h r []%He.
  - done.
Qed.

Lemma sync_keeps_backbone_witness :
  backbone_ok (run_sync_bitcoin_core config start).2 ∧
  contiguous_complete_height <$> bb_sync (run_sync_bitcoin_core config start).2 = Some 1.
Proof.
  split; [|vm_compute; reflexivity]. apply (sync_keeps_backbone config start).
  - intros h e header e' Hh. destruct h as [|[] p]; try discriminate Hh. injection Hh as <- _. split; reflexivity.
  - exact start_ok.
Defined.

Definition advanced_state : SyncState := mkSyncState None None (-1) None None false.
Definition after : BackboneWorld nat := (run_sync_bitcoin_core config start).2.

Lemma prefix_advance_maximal_witness :
  ∃ state' w', advance_contiguous_complete_prefix advanced_state after = (Ok state', w') ∧
    ss_contiguous_complete_height state' = 1 ∧ prefix_ok (bb_blocks w') 1.
Proof.
  destruct (prefix_advance_maximal advanced_state after (prefix_ok_seed _)) as [_ Hadv].
  assert (ss_contiguous_complete_height <$> result_ok (advance_contiguous_complete_prefix advanced_state after).1
    = Some 1) as Hn by (vm_compute; reflexivity).
  destruct (advance_contiguous_complete_prefix advanced_state after) as [[state'|e] w'] eqn:E; [|discriminate Hn].
  injection Hn as Hn. exists state', w'. split; [reflexivity|]. split; [exact Hn|].
  destruct (Hadv state' w' eq_refl) as (_ & _ & Hp & _). rewrite Hn in Hp. exact Hp.
Defined.
End BackboneSample.
