(* ===== verification/LiveWindow.v ===== *)
(** * The live window of the backbone

    Models [bitcoin_core_backbone/live_window.rs]: the window near the tip, the
    verification that it is one complete linked canonical chain ending on the
    captured tip, and the repair of its gaps; with the target checks of
    [reorg.rs] ([target_stability_failure]) and of [sync_state.rs]
    ([accept_live_repaired_target]). *)

From stdpp Require Import list_numbers.
From S2P Require Import Prelude BitcoinLib Effects Errors Classifier LiveLoop Poller Blocks SyncState CoreQueue Backbone.

Definition live_backbone_window_start_height (tip_height window_heights : Z) : Z :=
  Z.max (saturating_sub_i32 tip_height (saturating_sub_i32 window_heights 1)) 0.

Record LiveWindowContext := mkWindowContext { start_height : Z; window_target : BitcoinCoreBackboneTip }.

Section live_window.
Context `{BitcoinLib} {W : Type} `{BitcoinCoreBackboneSource W}.

#[local] Abbreviation bM := (stM (BackboneWorld W) anyhow).

Definition live_window_invariant_failure {A} (height : Z) (message : string) : bM A :=
  _ ← record_sync_error height LIVE_WINDOW_INVARIANT_ERROR_CODE message;
  throw (integrity_error LiveWindowInvariant message).

Definition verify_live_backbone_target_hash (target : BitcoinCoreBackboneTip) : bM unit :=
  current ← on_err (Context "confirm Bitcoin Core live backbone target hash")
              (on_bb (bb_block_hash (tip_height target)));
  if bool_decide (current = tip_hash target) then mret ()
  else live_window_invariant_failure (tip_height target) "target hash changed".

(** The rows of the window grouped by height: an entry keeps the order of its rows. *)
Definition rows_of_height (rows : list BlockInput) (h : Z) : list BlockInput :=
  filter (λ r, b_height r = Some h) rows.

Definition take_single_live_window_row (rows : list BlockInput) (height : Z) : bM BlockInput :=
  match rows_of_height rows height with
  | [] => live_window_invariant_failure height "missing canonical height"
  | [row] => mret row
  | _ => live_window_invariant_failure height "several canonical rows"
  end.

Definition verify_live_window_coinbase (row : BlockInput) : bM unit :=
  if is_complete row then mret ()
  else live_window_invariant_failure (default 0 (b_height row)) "incomplete coinbase".

Definition verify_live_window_prev_link (row : BlockInput) (previous_hash : option bytes) : bM unit :=
  match previous_hash with
  | None => mret ()
  | Some previous =>
      if bool_decide (b_prev_hash row = previous) then mret ()
      else live_window_invariant_failure (default 0 (b_height row)) "prev-link mismatch"
  end.

Definition verify_live_window_tip_hash (target : BitcoinCoreBackboneTip) (local : option bytes) : bM unit :=
  if bool_decide (local = Some (tip_hash target)) then mret ()
  else live_window_invariant_failure (tip_height target) "tip hash mismatch".

Fixpoint verify_window_loop (target : BitcoinCoreBackboneTip) (rows : list BlockInput) (hs : list Z)
    (previous_hash local_tip : option bytes) : bM (option bytes) :=
  match hs with
  | [] => mret local_tip
  | height :: hs =>
      row ← take_single_live_window_row rows height;
      _ ← verify_live_window_coinbase row;
      _ ← verify_live_window_prev_link row previous_hash;
      verify_window_loop target rows hs (Some (b_hash row))
        (if height =? tip_height target then Some (b_hash row) else local_tip)
  end.

Definition verify_live_backbone_window_rows (ctx : LiveWindowContext) (rows : list BlockInput) : bM unit :=
  let target := window_target ctx in
  local ← verify_window_loop target rows (range_inclusive (start_height ctx) (tip_height target)) None None;
  verify_live_window_tip_hash target local.

Definition load_canonical_window_rows (from to : Z) : bM (list BlockInput) :=
  _ ← on_err (Context "load canonical live backbone window") (on_bb bb_statement);
  gets (λ w, canonical_rows_between (bb_blocks w) from to).

Definition verify_live_backbone_window (target : BitcoinCoreBackboneTip) (window_heights : Z) : bM unit :=
  _ ← load_or_init_sync_state;
  _ ← verify_live_backbone_target_hash target;
  let start := live_backbone_window_start_height (tip_height target) window_heights in
  rows ← load_canonical_window_rows start (tip_height target);
  verify_live_backbone_window_rows (mkWindowContext start target) rows.

Definition repair_near_tip_gaps_to_target (target : BitcoinCoreBackboneTip) (window_heights : Z)
    : bM BitcoinCoreSyncStats :=
  _ ← load_or_init_sync_state;
  _ ← verify_live_backbone_target_hash target;
  stats ← run_sync_bitcoin_core
            {| from_height := Some (live_backbone_window_start_height (tip_height target) window_heights);
               to_height := Some (tip_height target); limit := 100; pin_tip := false; missing_only := true |};
  _ ← verify_live_backbone_target_hash target;
  mret stats.

(** [target_stability_failure]: the failure to raise, if any. *)
Definition target_stability_failure (target : BitcoinCoreBackboneTip) : bM (option anyhow) :=
  current ← on_err (Context "recheck Bitcoin Core tip during near-tip reorg repair") (on_bb bb_tip);
  let failure := into_error LiveWindowInvariant REORG_REPAIR_ERROR_CODE (tip_height target) in
  if tip_height current <? tip_height target then mret (Some failure) else
  hash ← (if tip_height current =? tip_height target then mret (tip_hash current)
          else on_err (Context "recheck Bitcoin Core active hash") (on_bb (bb_block_hash (tip_height target))));
  mret (if bool_decide (hash = tip_hash target) then None else Some failure).

Definition verify_target_stable (target : BitcoinCoreBackboneTip) : bM unit :=
  f ← target_stability_failure target;
  match f with
  | None => mret ()
  | Some e => _ ← record_sync_error (tip_height target) REORG_REPAIR_ERROR_CODE ""; throw e
  end.

Definition accept_live_repaired_target (target : BitcoinCoreBackboneTip) : bM unit :=
  persist_failure (bb_transaction (
    _ ← guard_no_pending_core_reconcile;
    _ ← on_err (Context "lock Bitcoin Core sync state") (on_bb bb_statement);
    s ← gets bb_sync;
    _ ← guardM (is_some s) (Other "Bitcoin Core sync state is missing while accepting live target");
    f ← target_stability_failure target;
    match f with
    | Some e => throw e
    | None =>
        on_err (Context "store verified Bitcoin Core live repair target")
          (update_sync (λ s, store_live_repaired_target s (tip_height target) (tip_hash target)))
    end)).

End live_window.

(** ** What a window promises *)

(** One complete canonical row per height, linked, ending on the tip. *)
Definition live_window (t : block_table) (start : Z) (tip : BitcoinCoreBackboneTip) : Prop :=
  (∀ h, start ≤ h ≤ tip_height tip →
     ∃ row, canonical_rows_at t h = [row] ∧ is_complete row = true ∧
       (start < h → ∃ prev, canonical_rows_at t (h - 1) = [prev] ∧ b_prev_hash row = b_hash prev)) ∧
  ∃ row, canonical_rows_at t (tip_height tip) = [row] ∧ b_hash row = tip_hash tip.

Lemma rows_of_window t from to h :
  from ≤ h ≤ to → rows_of_height (canonical_rows_between t from to) h = canonical_rows_at t h.
Proof.
  intros Hh. unfold canonical_rows_between, rows_of_height, range_inclusive.
  assert (∀ k, (k = h → filter (λ r, b_height r = Some h) (canonical_rows_at t k) = canonical_rows_at t h) ∧
               (k ≠ h → filter (λ r, b_height r = Some h) (canonical_rows_at t k) = [])) as Hk.
  { intros k. split.
    - intros ->. apply list_filter_id. intros r. rewrite elem_of_rows. by intros [[_ ?] _].
    - intros Hne. apply list_filter_none. intros r. rewrite elem_of_rows. intros [[_ Hr] _]. congruence. }
  replace (seqZ from (to - from + 1)) with
    (seqZ from (h - from) ++ [h] ++ seqZ (h + 1) (to - h)).
  2: { replace (to - from + 1) with ((h - from) + (1 + (to - h))) by lia.
       rewrite (seqZ_app from (h - from)) by lia. f_equal.
       replace (from + (h - from)) with h by lia. rewrite (seqZ_cons h) by lia. simpl.
       repeat f_equal; lia. }
  assert (∀ l, h ∉ l → filter (λ r, b_height r = Some h) (l ≫= canonical_rows_at t) = []) as Hl.
  { induction l as [|k l IH]; intros Hn; [done|]. apply not_elem_of_cons in Hn as [Hn1 Hn2].
    rewrite bind_cons, filter_app, (proj2 (Hk k)), IH by done. done. }
  rewrite !bind_app, bind_singleton, !filter_app.
  rewrite (Hl (seqZ from _)), (Hl (seqZ (h + 1) _)) by (rewrite elem_of_seqZ; lia).
  rewrite (proj1 (Hk h)) by done. by rewrite app_nil_r.
Qed.

Section exact.
Context `{BitcoinLib} {W : Type} `{BitcoinCoreBackboneSource W}.

Lemma invariant_failure_not_Ok {A} h m (w : BackboneWorld W) (a : A) w' :
  live_window_invariant_failure h m w ≠ (Ok a, w').
Proof. intros Hw. unfold live_window_invariant_failure in Hw. by st_inv. Qed.

(** One height: a single complete row, linked to the previous hash if there is one. *)
Definition height_verified (rows : list BlockInput) (prev : option bytes) (row : BlockInput) : Prop :=
  rows = [row] ∧ is_complete row = true ∧ (prev = None ∨ prev = Some (b_prev_hash row)).

Lemma window_loop_cons target rows h hs prev local (w : BackboneWorld W) o w' :
  verify_window_loop target rows (h :: hs) prev local w = (Ok o, w') ↔
  ∃ row, height_verified (rows_of_height rows h) prev row ∧
    verify_window_loop target rows hs (Some (b_hash row))
      (if h =? tip_height target then Some (b_hash row) else local) w = (Ok o, w').
Proof.
  unfold height_verified. simpl. split.
  - intros Hw. st_inv. unfold take_single_live_window_row in *.
    destruct (rows_of_height rows h) as [|row [|]]; [by edestruct @invariant_failure_not_Ok| |by edestruct @invariant_failure_not_Ok].
    st_inv. unfold verify_live_window_coinbase, verify_live_window_prev_link in *.
    destruct (is_complete row) eqn:?; [|by edestruct @invariant_failure_not_Ok]. st_inv.
    exists row. destruct prev as [p|].
    + case_bool_decide; [|by edestruct @invariant_failure_not_Ok]. st_inv. naive_solver.
    + st_inv. naive_solver.
  - intros (row & (Hrows & Hc & Hp) & Hw).
    unfold take_single_live_window_row, verify_live_window_coinbase, verify_live_window_prev_link.
    apply st_bind_Ok. exists row, w. rewrite Hrows. split; [done|].
    apply st_bind_Ok. exists (), w. rewrite Hc. split; [done|].
    apply st_bind_Ok. exists (), w. split; [|done].
    destruct Hp as [->| ->]; [done|]. by rewrite bool_decide_eq_true_2.
Qed.

(** What the loop establishes on the rows [f h] of its heights. *)
Definition window_linked (f : Z → list BlockInput) (a n : Z) (prev : option bytes) : Prop :=
  ∀ h, a ≤ h < a + n → ∃ row, f h = [row] ∧ is_complete row = true ∧
    (h = a → prev = None ∨ prev = Some (b_prev_hash row)) ∧
    (a < h → ∃ p, f (h - 1) = [p] ∧ b_prev_hash row = b_hash p).

Lemma window_linked_cons f a n prev :
  0 ≤ n →
  window_linked f a (n + 1) prev ↔
  ∃ row, height_verified (f a) prev row ∧ window_linked f (a + 1) n (Some (b_hash row)).
Proof.
  intros Hn. unfold height_verified. split.
  - intros Hl. destruct (Hl a) as (row & Hf & Hc & Hp & _); [lia|].
    exists row. split; [by auto|]. intros h Hh.
    destruct (Hl h) as (r & Hr & Hrc & _ & Hlk); [lia|]. exists r. split_and!; [done|done| |].
    + intros ->. right. destruct Hlk as (p & Hp' & ->); [lia|].
      replace (a + 1 - 1) with a in Hp' by lia. congruence.
    + intros Hlt. apply Hlk. lia.
  - intros (row & (Hf & Hc & Hp) & Hl) h Hh.
    destruct (decide (h = a)) as [->|Hne]; [exists row; split_and!; [done|done|done|intros; lia]|].
    destruct (Hl h) as (r & Hr & Hrc & H1 & H2); [lia|]. exists r. split_and!; [done|done|intros; lia|].
    intros _. destruct (decide (h = a + 1)) as [->|].
    + exists row. replace (a + 1 - 1) with a by lia. split; [done|].
      destruct H1 as [|[= ?]]; congruence.
    + apply H2. lia.
Qed.

Lemma window_loop_Ok target rows f (n : nat) : ∀ a prev local (w : BackboneWorld W) o w',
  tip_height target = a + Z.of_nat n - 1 →
  (∀ h, a ≤ h ≤ tip_height target → rows_of_height rows h = f h) →
  verify_window_loop target rows (seqZ a (Z.of_nat n)) prev local w = (Ok o, w') ↔
  w' = w ∧ window_linked f a (Z.of_nat n) prev ∧
  o = if (n =? 0)%nat then local else
      match f (tip_height target) with [row] => Some (b_hash row) | _ => None end.
Proof.
  induction n as [|n IH]; intros a prev local w o w' Ht Hf.
  - replace (seqZ a (Z.of_nat 0)) with (@nil Z) by done. simpl. rewrite st_ret_Ok.
    split; [intros [-> ->]; split_and!; [done|intros h Hh; lia|done]|naive_solver].
  - rewrite seqZ_cons by lia. replace (Z.pred (Z.of_nat (S n))) with (Z.of_nat n) by lia.
    replace (Z.of_nat (S n)) with (Z.of_nat n + 1) in * by lia.
    rewrite window_loop_cons, window_linked_cons by lia. rewrite Hf by lia.
    setoid_rewrite IH; [|lia|intros; apply Hf; lia].
    replace (Z.succ a) with (a + 1) by lia. simpl. split.
    + intros (row & Hv & -> & Hl & ->). split_and!; [done|by eauto|].
      destruct n as [|n]; [|done]. simpl. replace (tip_height target) with a by lia.
      destruct Hv as [-> _]. by rewrite Z.eqb_refl.
    + intros (-> & (row & Hv & Hl) & ->). exists row. split_and!; [done..|].
      destruct n as [|n]; [|done]. simpl. replace (tip_height target) with a by lia.
      destruct Hv as [-> _]. by rewrite Z.eqb_refl.
Qed.

Lemma live_window_linked t start target :
  start ≤ tip_height target →
  live_window t start target ↔
  window_linked (canonical_rows_at t) start (tip_height target - start + 1) None ∧
  match canonical_rows_at t (tip_height target) with [row] => Some (b_hash row) | _ => None end
    = Some (tip_hash target).
Proof.
  intros Hle. unfold live_window, window_linked. split.
  - intros [Hh (row & -> & ->)]. split; [|done]. intros h Hr.
    destruct (Hh h) as (r & ? & ? & Hl); [lia|]. exists r. split_and!; [done|done|by left|done].
  - intros [Hh Ht]. split.
    + intros h Hr. destruct (Hh h) as (r & ? & ? & _ & Hl); [lia|]. by exists r.
    + destruct (canonical_rows_at t (tip_height target)) as [|row [|]]; simplify_eq. by exists row.
Qed.

Lemma verify_rows_Ok (w w' : BackboneWorld W) start target :
  start ≤ tip_height target →
  verify_live_backbone_window_rows (mkWindowContext start target)
    (canonical_rows_between (bb_blocks w) start (tip_height target)) w = (Ok (), w') ↔
  (window_linked (canonical_rows_at (bb_blocks w)) start (tip_height target - start + 1) None ∧
   match canonical_rows_at (bb_blocks w) (tip_height target) with [row] => Some (b_hash row) | _ => None end
     = Some (tip_hash target)) ∧ w' = w.
Proof.
  intros Hle. unfold verify_live_backbone_window_rows.
  cbv zeta. simpl start_height. simpl window_target. rewrite st_bind_Ok.
  set (n := Z.to_nat (tip_height target - start + 1)).
  replace (range_inclusive start (tip_height target)) with (seqZ start (Z.of_nat n))
    by (unfold range_inclusive, n; f_equal; lia).
  setoid_rewrite (window_loop_Ok _ _ (canonical_rows_at (bb_blocks w)));
    [|lia|intros; apply rows_of_window; lia].
  replace (n =? 0)%nat with false by (symmetry; apply Nat.eqb_neq; lia).
  replace (Z.of_nat n) with (tip_height target - start + 1) by lia.
  unfold verify_live_window_tip_hash. split.
  - intros (o & w1 & (-> & Hl & ->) & Hv). case_bool_decide; [|by edestruct @invariant_failure_not_Ok].
    by st_inv.
  - intros [[Hl Ho] ->]. eexists _, w. split; [done|]. by rewrite bool_decide_eq_true_2.
Qed.

(** C23. The verification of the rows near the tip succeeds exactly when the stored chain has one
    complete canonical row per height of the window, each linked to the one below, and ends on
    the captured tip of Core; it then changes nothing. *)
Theorem live_window_exact (w w' : BackboneWorld W) start target :
  start ≤ tip_height target →
  verify_live_backbone_window_rows (mkWindowContext start target)
    (canonical_rows_between (bb_blocks w) start (tip_height target)) w = (Ok (), w') ↔
  live_window (bb_blocks w) start target ∧ w' = w.
Proof. intros Hle. rewrite live_window_linked by done. by apply verify_rows_Ok. Qed.
End exact.

Module LiveWindowSample.
Import BackboneSample.
#[local] Existing Instance chain_lib.
#[local] Existing Instance core.

(** The two heights stored by the sample sync, and a tip that moved. *)
Lemma live_window_exact_witness :
  live_window (bb_blocks after) 0 (mkTip 1 (hash_at 1)) ∧
  ¬ live_window (bb_blocks after) 0 (mkTip 1 (hash_at 2)).
Proof.
  split.
  - destruct (live_window_exact after after 0 (mkTip 1 (hash_at 1))) as [Hw _]; [simpl; lia|].
    apply Hw. vm_compute. reflexivity.
  - intros Hl. destruct (live_window_exact after after 0 (mkTip 1 (hash_at 2))) as [_ Hw]; [simpl; lia|].
    specialize (Hw (conj Hl eq_refl)). vm_compute in Hw. discriminate Hw.
Defined.
End LiveWindowSample.
