(* ===== verification/Events.v ===== *)
(** * Merge-mining events and their proofs

    The table [merge_mining_event] as the read model sees it
    ([crates/mmm-read-model/src/queries.rs] and [writers.rs]): the rollup of the
    active events of a parent header, the representative and the anchor event, the
    revocation of an event ([mutation/mod.rs]) and the rebuild of the
    [attestation_proof] rows of a parent. The join with [historical_event_provenance]
    is a column of the row. Columns of the child block are left out. *)

From stdpp Require Import sorting.
From S2P Require Import Prelude BitcoinLib Effects Errors Nbits Lineage Classifier Blocks.

(** ** Rows *)

Record EventRow := mkEvent {
  e_id : Z;
  e_source_id : Z;
  e_child_height : option Z;
  e_hash : bytes;
  e_prev_hash : bytes;
  e_header_bytes : bytes;
  e_header_time : Z;
  e_height : option Z;
  e_kind : ParentKind;
  e_pow : bool;
  e_difficulty_ok : option bool;
  e_script : option bytes;
  e_outputs : option bytes;
  e_tx_bytes : option bytes;
  e_discovered_at : Z;
  e_confirmed_at : Z;
  e_revoked_at : option Z;
  e_revocation_reason : option string;
  e_relevance_reason : option string;
}.

Record SourceRow := mkSource { s_chain : string; s_kind : string }.

(** A row of [attestation_proof], by parent hash and source. *)
Record ProofRow := mkProof {
  p_event_ids : list Z;
  p_pow_validated : bool;
  p_discovered_at : Z;
  p_confirmed_at : Z;
  p_revoked_at : option Z;
  p_revocation_reason : option string;
}.

Abbreviation event_table := (gmap Z EventRow).
Abbreviation proof_table := (gmap (bytes * Z) ProofRow).

(** The projection the reconciler loads. *)
Record MergeMiningEvent := mkMergeMiningEvent {
  m_id : Z;
  m_hash : bytes;
  m_prev_hash : bytes;
  m_header_bytes : bytes;
  m_header_time : Z;
  m_height : option Z;
  m_kind : ParentKind;
  m_pow : bool;
  m_difficulty_ok : option bool;
  m_script : option bytes;
  m_outputs : option bytes;
}.
#[global] Instance MergeMiningEvent_eq_dec : EqDecision MergeMiningEvent.
Proof. solve_decision. Defined.

Definition skips_parent_read_model (e : MergeMiningEvent) : bool := negb (m_pow e).

Definition ParentKind_as_db_str (k : ParentKind) : string :=
  match k with
  | PkCanonical => "canonical"
  | PkStale => "stale"
  | PkInvalidBlock => "invalid_block"
  | PkNear => "near"
  | PkUnknown => "unknown"
  end.

Definition parent_kind_from_db (v : string) : result anyhow ParentKind :=
  if bool_decide (v = "canonical")%string then Ok PkCanonical
  else if bool_decide (v = "stale")%string then Ok PkStale
  else if bool_decide (v = "invalid_block")%string then Ok PkInvalidBlock
  else if bool_decide (v = "unknown")%string then Ok PkUnknown
  else Err (Other "unknown merge_mining_event.btc_parent_kind").

Definition event_from_row (r : EventRow) : result anyhow MergeMiningEvent :=
  k ← parent_kind_from_db (ParentKind_as_db_str (e_kind r));
  mret (mkMergeMiningEvent (e_id r) (e_hash r) (e_prev_hash r) (e_header_bytes r) (e_header_time r)
          (e_height r) k (e_pow r) (e_difficulty_ok r) (e_script r) (e_outputs r)).

(** [merge_mining_event_btc_parent_kind_check] and [chk_mme_parent_kind_consistency]. *)
Definition chk_event (e : EventRow) : bool :=
  bool_decide (e_kind e ∈ [PkCanonical; PkStale; PkInvalidBlock; PkUnknown])
  && (bool_decide (e_kind e = PkUnknown) || is_some (e_height e) && e_pow e).

(** Every row is stored under its id and satisfies the checks. *)
Definition events_ok (t : event_table) : Prop :=
  ∀ i e, t !! i = Some e → e_id e = i ∧ chk_event e = true.

(** ** Queries *)

Definition is_active (e : EventRow) : bool := negb (is_some (e_revoked_at e)).

Definition events_of (t : event_table) (hash : bytes) : list EventRow :=
  filter (λ e, e_hash e = hash) (map_to_list t).*2.
Definition active_events (t : event_table) (hash : bytes) : list EventRow :=
  filter (λ e, is_active e = true) (events_of t hash).

(** SQL aggregates: over no value they are null. *)
Definition sql_min (l : list Z) : option Z :=
  match l with [] => None | x :: l => Some (foldr Z.min x l) end.
Definition sql_max (l : list Z) : option Z :=
  match l with [] => None | x :: l => Some (foldr Z.max x l) end.
Definition bool_or (l : list (option bool)) : option bool :=
  match omap id l with [] => None | bs => Some (existsb id bs) end.
Definition count_distinct {A} `{EqDecision A} (l : list A) : Z := Z.of_nat (length (remove_dups l)).

Record ParentRollup := mkRollup {
  total_attestations : Z;
  distinct_sources : Z;
  auxpow_chain_count : Z;
  pow_validated : bool;
  roll_difficulty_epoch_ok : option bool;
  first_attested_at : option Z;
  last_attested_at : option Z;
}.

Definition load_parent_rollup (t : event_table) (sources : gmap Z SourceRow) (hash : bytes)
    : option ParentRollup :=
  let active := filter (λ e, is_Some (sources !! e_source_id e)) (active_events t hash) in
  let total := Z.of_nat (length active) in
  if total =? 0 then None else
  Some {| total_attestations := total;
          distinct_sources := count_distinct (e_source_id <$> active);
          auxpow_chain_count :=
            count_distinct (omap (λ e, s ← sources !! e_source_id e;
                                       if bool_decide (s_kind s = "auxpow"%string) then Some (s_chain s) else None)
                              active);
          pow_validated := default false (bool_or (Some ∘ e_pow <$> active));
          roll_difficulty_epoch_ok := bool_or (e_difficulty_ok <$> active);
          first_attested_at := sql_min (e_discovered_at <$> active);
          last_attested_at := sql_max (e_confirmed_at <$> active) |}.

(** [ORDER BY]: a first key, then [child_height NULLS LAST], then [id]. *)
Definition nulls_last_lt (a b : option Z) : bool :=
  match a, b with
  | Some a, Some b => a <? b
  | Some _, None => true
  | None, _ => false
  end.
Definition event_before (first : EventRow → bool) (a b : EventRow) : bool :=
  (negb (first a) && first b)
  || eqb (first a) (first b)
     && (nulls_last_lt (e_child_height a) (e_child_height b)
         || bool_decide (e_child_height a = e_child_height b) && (e_id a <=? e_id b)).

(** [LIMIT 1] of such an order: the first element, kept while none is before it. *)
Definition first_event (first : EventRow → bool) (l : list EventRow) : option EventRow :=
  match l with
  | [] => None
  | e :: l => Some (foldr (λ x best, if event_before first x best then x else best) e l)
  end.

Definition ensure_active_parent_headers_match (t : event_table) (hash header_bytes : bytes)
    : result anyhow unit :=
  ensure (forallb (λ e, bool_decide (e_header_bytes e = header_bytes)) (active_events t hash))
    (Other "active merge_mining_event disagrees on parent header bytes").

Definition load_representative_active_event (t : event_table) (hash : bytes)
    : result anyhow MergeMiningEvent :=
  row ← ok_or (Context "load representative active event" (Other "no row"))
          (first_event (λ e, negb (is_some (e_script e))) (active_events t hash));
  event ← event_from_row row;
  _ ← ensure_active_parent_headers_match t hash (m_header_bytes event);
  mret event.

Definition load_event (t : event_table) (event_id : Z) : result anyhow MergeMiningEvent :=
  row ← ok_or (Context "load merge_mining_event" (Other "no row")) (t !! event_id);
  event_from_row row.

Definition find_anchor_event_for_block (t : event_table) (hash : bytes) : option Z :=
  e_id <$> first_event (λ _, false) (active_events t hash).

Definition event_revoked_state (t : event_table) (event_id : Z) : option bool :=
  (λ e, is_some (e_revoked_at e)) <$> t !! event_id.

(** ** Revocation *)

Inductive RevocationChange := Revoke (reason : string) | Restore.

Definition desired_revoked (c : RevocationChange) : bool :=
  match c with Revoke _ => true | Restore => false end.

Definition set_revocation (e : EventRow) (at_ : option Z) (reason : option string) : EventRow :=
  {| e_id := e_id e; e_source_id := e_source_id e; e_child_height := e_child_height e;
     e_hash := e_hash e; e_prev_hash := e_prev_hash e; e_header_bytes := e_header_bytes e;
     e_header_time := e_header_time e; e_height := e_height e; e_kind := e_kind e; e_pow := e_pow e;
     e_difficulty_ok := e_difficulty_ok e; e_script := e_script e; e_outputs := e_outputs e;
     e_tx_bytes := e_tx_bytes e; e_discovered_at := e_discovered_at e;
     e_confirmed_at := e_confirmed_at e; e_revoked_at := at_; e_revocation_reason := reason;
     e_relevance_reason := e_relevance_reason e |}.

(** The number of rows updated, and the table. *)
Definition apply_revocation_change (t : event_table) (event_id : Z) (change : RevocationChange)
    (now : Z) : Z * event_table :=
  match t !! event_id, change with
  | Some e, Revoke reason =>
      if is_active e then (1, <[event_id := set_revocation e (Some now) (Some reason)]> t) else (0, t)
  | Some e, Restore =>
      if is_active e then (0, t) else (1, <[event_id := set_revocation e None None]> t)
  | None, _ => (0, t)
  end.

(** ** Proofs *)

(** The aggregate row of one source of a parent, and what is stored of it. *)
Definition sorted_ids (l : list EventRow) : list Z := merge_sort Z.le (e_id <$> l).

(** [(array_agg(revocation_reason ORDER BY revoked_at DESC NULLS LAST, id ASC))[1]]. *)
Definition revoked_before (a b : EventRow) : bool :=
  match e_revoked_at a, e_revoked_at b with
  | Some x, Some y => (y <? x) || (x =? y) && (e_id a <=? e_id b)
  | Some _, None => true
  | None, Some _ => false
  | None, None => e_id a <=? e_id b
  end.
Definition last_revocation_reason (l : list EventRow) : option string :=
  match l with
  | [] => None
  | e :: l => e_revocation_reason (foldr (λ x best, if revoked_before x best then x else best) e l)
  end.

Definition source_events (t : event_table) (hash : bytes) (source_id : Z) : list EventRow :=
  filter (λ e, e_source_id e = source_id) (events_of t hash).

Definition proof_of (evs : list EventRow) : option ProofRow :=
  let active := filter (λ e, is_active e = true) evs in
  match active with
  | _ :: _ =>
      d ← sql_min (e_discovered_at <$> evs);
      c ← sql_min (e_confirmed_at <$> active);
      Some (mkProof (sorted_ids active) (default false (bool_or (Some ∘ e_pow <$> active))) d c None None)
  | [] =>
      revoked ← sql_max (omap e_revoked_at evs);
      d ← sql_min (e_discovered_at <$> evs);
      c ← sql_min (e_confirmed_at <$> evs);
      Some (mkProof (sorted_ids evs) (default false (bool_or (Some ∘ e_pow <$> evs))) d c
              (Some revoked) (last_revocation_reason evs))
  end.

(** The upserts, which need the block row, then [delete_proofs_without_evidence]. *)
Definition upsert_proofs (t : event_table) (hash : bytes) (proofs : proof_table) (sources : list Z)
    : proof_table :=
  foldr (λ s acc, match proof_of (source_events t hash s) with
                  | Some p => <[(hash, s) := p]> acc
                  | None => acc
                  end) proofs sources.

Definition delete_proofs_without_evidence (t : event_table) (hash : bytes) (proofs : proof_table)
    : proof_table :=
  filter (λ '((h, s), _), h ≠ hash ∨ source_events t hash s ≠ []) proofs.

Definition rebuild_auxpow_proofs (t : event_table) (blocks : block_table) (hash : bytes)
    (proofs : proof_table) : result anyhow proof_table :=
  let sources := remove_dups (e_source_id <$> events_of t hash) in
  _ ← ensure (bool_decide (sources = []) || is_some (blocks !! hash)) (Other "foreign key of attestation_proof");
  mret (delete_proofs_without_evidence t hash (upsert_proofs t hash proofs sources)).

(** ** Aggregates *)

Lemma sql_min_Some l : l ≠ [] → is_Some (sql_min l).
Proof. destruct l; [done|]. by eexists. Qed.
Lemma sql_max_Some l : l ≠ [] → is_Some (sql_max l).
Proof. destruct l; [done|]. by eexists. Qed.

Lemma bool_or_pow l : default false (bool_or (Some ∘ e_pow <$> l)) = existsb e_pow l.
Proof.
  unfold bool_or. replace (omap id (Some ∘ e_pow <$> l)) with (e_pow <$> l)
    by (induction l; csimpl; congruence).
  destruct l as [|e l]; [done|]. csimpl. f_equal. by induction l; csimpl; f_equal.
Qed.

(** The events a proof stands on: the active ones while there are any. *)
Definition contributing (evs : list EventRow) : list EventRow :=
  match filter (λ e, is_active e = true) evs with [] => evs | active => active end.

Lemma proof_of_spec evs :
  match proof_of evs with
  | Some p => evs ≠ [] ∧ p_event_ids p = sorted_ids (contributing evs) ∧
              p_pow_validated p = existsb e_pow (contributing evs) ∧
              (p_revoked_at p = None ↔ ∃ e, e ∈ evs ∧ is_active e = true)
  | None => evs = []
  end.
Proof.
  unfold proof_of, contributing.
  assert (∀ e, e ∈ filter (λ e, is_active e = true) evs ↔ e ∈ evs ∧ is_active e = true) as Hf
    by (intros e; rewrite list_elem_of_filter; tauto).
  destruct (filter (λ e, is_active e = true) evs) as [|a act] eqn:E; rewrite bool_or_pow.
  - destruct evs as [|e evs]; [done|].
    assert (omap e_revoked_at (e :: evs) ≠ []) as Hr.
    { destruct (e_revoked_at e) eqn:Er; csimpl; rewrite Er; [done|]. exfalso.
      apply (not_elem_of_nil e), Hf. split; [left|]. unfold is_active. by rewrite Er. }
    destruct (sql_max_Some _ Hr) as [m ->]. csimpl. split_and!; [done..|].
    split; [done|]. intros (x & Hx). by apply Hf, not_elem_of_nil in Hx.
  - assert (a ∈ evs ∧ is_active a = true) as [Ha Hact] by (apply Hf; left).
    destruct evs as [|e evs]; [by apply not_elem_of_nil in Ha|]. csimpl.
    split_and!; [done..|]. split; [|done]. intros _. by exists a.
Qed.

Lemma upsert_proofs_lookup t hash proofs sources h s :
  upsert_proofs t hash proofs sources !! (h, s) =
  if bool_decide (h = hash ∧ s ∈ sources ∧ is_Some (proof_of (source_events t hash s)))
  then proof_of (source_events t hash s) else proofs !! (h, s).
Proof.
  induction sources as [|x sources IH]; simpl.
  - rewrite bool_decide_eq_false_2; [done|set_solver].
  - destruct (proof_of (source_events t hash x)) as [p|] eqn:Ep.
    + destruct (decide ((hash, x) = (h, s))) as [[= -> ->]|Hne].
      * rewrite lookup_insert_eq, bool_decide_eq_true_2; [by rewrite Ep|].
        split_and!; [done|left|by rewrite Ep].
      * rewrite lookup_insert_ne, IH by done. do 2 case_bool_decide; set_solver.
    + rewrite IH. erewrite bool_decide_ext; [reflexivity|]. rewrite elem_of_cons. split; [naive_solver|].
      intros (-> & [->|Hs] & Hp); [by rewrite Ep in Hp; destruct Hp|done].
Qed.

Lemma source_events_nil t hash s :
  source_events t hash s ≠ [] → s ∈ remove_dups (e_source_id <$> events_of t hash).
Proof.
  intros Hn. destruct (source_events t hash s) as [|e l] eqn:E; [done|].
  assert (e ∈ source_events t hash s) as He by (rewrite E; left).
  unfold source_events in He. apply list_elem_of_filter in He as [<- He].
  apply elem_of_remove_dups, list_elem_of_fmap. eauto.
Qed.

(** The proofs after a rebuild, row by row. *)
Lemma rebuilt_proofs_lookup t hash proofs h s :
  delete_proofs_without_evidence t hash
    (upsert_proofs t hash proofs (remove_dups (e_source_id <$> events_of t hash))) !! (h, s) =
  if bool_decide (h = hash) then proof_of (source_events t hash s) else proofs !! (h, s).
Proof.
  unfold delete_proofs_without_evidence. rewrite map_lookup_filter, upsert_proofs_lookup.
  pose proof (proof_of_spec (source_events t hash s)) as Hp.
  case_bool_decide as E1; case_bool_decide as E2.
  - destruct (proof_of _) as [p|] eqn:Ep; [|by destruct E1 as (_ & _ & [??])]. csimpl.
    by rewrite option_guard_True by (right; apply Hp).
  - naive_solver.
  - subst. destruct (proof_of _) as [p|] eqn:Ep.
    + exfalso. apply E1. split_and!; [done|by apply source_events_nil, Hp|done].
    + destruct (proofs !! (hash, s)); [|done]. csimpl. rewrite option_guard_False; [done|]. naive_solver.
  - destruct (proofs !! (h, s)); [|done]. csimpl. by rewrite option_guard_True by (by left).
Qed.

(** After a rebuild, the proof stored for a parent and a source is the one its events derive,
    and there is one exactly for the sources with events; it lists the active events, or all of
    them once all are revoked, is revoked only in that case, and proves work when one of them
    does. The proofs of other parents are untouched. *)
Theorem proofs_rebuilt t blocks hash proofs proofs' :
  rebuild_auxpow_proofs t blocks hash proofs = Ok proofs' →
  (∀ h s, h ≠ hash → proofs' !! (h, s) = proofs !! (h, s)) ∧
  ∀ s, let evs := source_events t hash s in
    match proofs' !! (hash, s) with
    | Some p => evs ≠ [] ∧ proof_of evs = Some p ∧ p_event_ids p = sorted_ids (contributing evs) ∧
                p_pow_validated p = existsb e_pow (contributing evs) ∧
                (p_revoked_at p = None ↔ ∃ e, e ∈ evs ∧ is_active e = true)
    | None => evs = []
    end.
Proof.
  unfold rebuild_auxpow_proofs. intros Hr. apply bind_Ok in Hr as ([] & _ & [= <-]).
  split.
  - intros h s Hne. by rewrite rebuilt_proofs_lookup, bool_decide_eq_false_2.
  - intros s. cbv zeta. rewrite rebuilt_proofs_lookup, bool_decide_eq_true_2 by done.
    pose proof (proof_of_spec (source_events t hash s)) as Hp.
    destruct (proof_of _) as [p|]; [|done]. naive_solver.
Qed.

Module EventsSample.
Import Toy BlocksSample.

Definition event (i : Z) (revoked : option Z) : EventRow :=
  {| e_id := i; e_source_id := 1; e_child_height := Some i; e_hash := block_hash header;
     e_prev_hash := prev_blockhash header; e_header_bytes := serialize_header header;
     e_header_time := 1000; e_height := None; e_kind := PkUnknown; e_pow := true;
     e_difficulty_ok := None; e_script := None; e_outputs := None; e_tx_bytes := None;
     e_discovered_at := 10; e_confirmed_at := 20 + i; e_revoked_at := revoked;
     e_revocation_reason := None; e_relevance_reason := None |}.
Definition events : event_table := {[ 1 := event 1 (Some 99); 2 := event 2 None ]}.

Lemma proofs_rebuilt_witness :
  ∃ proofs', rebuild_auxpow_proofs events table (block_hash header) ∅ = Ok proofs' ∧
    p_event_ids <$> proofs' !! (block_hash header, 1) = Some [2].
Proof.
  destruct (rebuild_auxpow_proofs events table (block_hash header) ∅) as [proofs'|] eqn:E; [|discriminate E].
  exists proofs'. split; [reflexivity|].
  destruct (proofs_rebuilt _ _ _ _ _ E) as [_ Hp]. specialize (Hp 1). cbv zeta in Hp.
  destruct (proofs' !! (block_hash header, 1)) as [p|].
  - destruct Hp as (_ & _ & Hids & _). simpl. rewrite Hids. vm_compute. reflexivity.
  - vm_compute in Hp. discriminate Hp.
Defined.
End EventsSample.
