(* ===== verification/Reconcile.v ===== *)
(** * The reconciler

    Models how the read model derives the row of a parent block from its events
    ([crates/mmm-read-model/src/classify.rs], [competition.rs], [reconcile.rs]): the
    classification that takes effect, the update of the events, the rebuild of the
    block row and its proofs, and the reconcile transaction of one event or block.

    A transaction that fails changes nothing, so each step maps the tables to the
    tables or an error. The reconcile transaction reads an event, takes advisory
    locks, and reads it again; another transaction may commit while it waits, so it
    is given the tables before and after it holds its locks. Source health, protocol
    commitments and relationship summaries live in other tables and are left out.
    The pool of a coinbase and the catalogue of invalid blocks are parameters. *)

From stdpp Require Import sorting.
From S2P Require Import Prelude BitcoinLib Effects Errors Nbits Lineage Classifier LiveLoop Poller Blocks SyncState CoreQueue Events.

Record ReadModel := mkReadModel {
  rm_events : event_table;
  rm_blocks : block_table;
  rm_proofs : proof_table;
  rm_sources : gmap Z SourceRow;
  rm_known_stale : gset bytes;
  rm_nbits : result anyhow NbitsTable;
}.

Definition with_blocks (db : ReadModel) (t : block_table) : ReadModel :=
  mkReadModel (rm_events db) t (rm_proofs db) (rm_sources db) (rm_known_stale db) (rm_nbits db).
Definition with_events (db : ReadModel) (t : event_table) : ReadModel :=
  mkReadModel t (rm_blocks db) (rm_proofs db) (rm_sources db) (rm_known_stale db) (rm_nbits db).
Definition with_proofs (db : ReadModel) (t : proof_table) : ReadModel :=
  mkReadModel (rm_events db) (rm_blocks db) t (rm_sources db) (rm_known_stale db) (rm_nbits db).

Record InvalidBlock := mkInvalidBlock { ib_height : Z; ib_rejection_reason : string }.

(** ** Block state *)

Record BlockCascadeState := mkCascadeState {
  c_kind : BlockKind;
  c_height : option Z;
  c_height_source : option HeightSource;
  c_invalid_block_reason : option string;
  c_canonical_competitor_hash : option bytes;
  c_core_attested : bool;
  c_difficulty_epoch_ok : option bool;
  c_coinbase_script : option bytes;
}.
#[global] Instance BlockCascadeState_eq_dec : EqDecision BlockCascadeState.
Proof. solve_decision. Defined.

Definition cascade_state (r : BlockInput) : BlockCascadeState :=
  {| c_kind := b_kind r; c_height := b_height r; c_height_source := b_height_source r;
     c_invalid_block_reason := b_invalid_block_reason r;
     c_canonical_competitor_hash := b_canonical_competitor_hash r;
     c_core_attested := b_core_attested r; c_difficulty_epoch_ok := b_difficulty_epoch_ok r;
     c_coinbase_script := b_coinbase_script r |}.

Definition load_block_cascade_state (t : block_table) (hash : bytes) : option BlockCascadeState :=
  cascade_state <$> t !! hash.

Definition load_parent_preflight (t : block_table) (prev : bytes) : ParentPreflight :=
  mkPreflight ((λ r, mkKnownBlock (b_kind r) (b_height r) (b_height_source r)
                       (b_canonical_competitor_hash r) (b_core_attested r)) <$> t !! prev).

(** ** Classification *)

Section classification.
Context `{BitcoinLib} (invalid_blocks_lookup : bytes → option InvalidBlock).

Definition resolve_parent_classification (header : Header) (live : option ParentClassification)
    : result anyhow ParentClassification :=
  match invalid_blocks_lookup (block_hash header) with
  | None => Ok (default (unknown header) live)
  | Some catalogue =>
      let catalogued := invalid_block header (ib_height catalogue) HsInvalidBlockCatalog None
                          (ib_rejection_reason catalogue) in
      match live with
      | None => Ok catalogued
      | Some live =>
          if bool_decide (kind live = PkInvalidBlock) then
            if bool_decide (pc_btc_height live = Some (ib_height catalogue))
               && bool_decide (rejection_reason live = Some (ib_rejection_reason catalogue))
            then Ok live
            else Err (Other "live invalid-block verdict disagrees with pinned catalogue")
          else if bool_decide (ib_rejection_reason catalogue = TIME_BELOW_MTP)
                  && bool_decide (kind live ∈ [PkCanonical; PkStale])
          then Err (Other "live Core verdict contradicts its pinned MTP invalid-block entry")
          else Ok catalogued
      end
  end.

Definition persisted_kind (k : BlockKind) : option ParentKind :=
  match k with
  | BkCanonical => Some PkCanonical
  | BkStale => Some PkStale
  | BkInvalidBlock => Some PkInvalidBlock
  | BkUnknown => None
  end.

Definition persisted_classification_from_hash (t : block_table) (parent_hash : bytes) (header : Header)
    : option ParentClassification :=
  persisted ← load_block_cascade_state t parent_hash;
  k ← persisted_kind (c_kind persisted);
  if bool_decide (c_kind persisted = BkInvalidBlock)
     && bool_decide (c_height_source persisted = Some HsInvalidBlockCatalog)
     && negb (is_some (invalid_blocks_lookup parent_hash))
  then None else
  competitor ← match k with
               | PkStale =>
                   competitor_hash ← c_canonical_competitor_hash persisted;
                   competitor ← load_block_cascade_state t competitor_hash;
                   if bool_decide (c_kind competitor = BkCanonical) then Some (Some competitor_hash) else None
               | _ => Some None
               end;
  Some {| kind := k; pc_btc_height := c_height persisted; height_source := c_height_source persisted;
          prev_hash := prev_blockhash header;
          canonical_predecessor_header := None; canonical_competitor_header := None;
          canonical_competitor_hash := competitor; coinbase := None;
          difficulty_epoch_ok := c_difficulty_epoch_ok persisted;
          rejection_reason := c_invalid_block_reason persisted;
          live_observed := c_core_attested persisted; core_attested := c_core_attested persisted;
          core_absence_attested := false; incomplete := false |}.

Definition persisted_classification_from_block (t : block_table) (event : MergeMiningEvent)
    (header : Header) : option ParentClassification :=
  persisted_classification_from_hash t (m_hash event) header.

Definition load_proven_parent_classification (t : block_table) (header : Header)
    : option ParentClassification :=
  opt_filter (λ c, bool_decide (kind c = PkStale) || bool_decide (kind c = PkCanonical) && core_attested c)
    (persisted_classification_from_hash t (block_hash header) header).

Definition classification_from_event (event : MergeMiningEvent) (header : Header)
    : option ParentClassification :=
  if negb (bool_decide (m_kind event = PkCanonical)) then None else
  Some {| kind := m_kind event; pc_btc_height := m_height event;
          height_source := (λ _, HsBitcoinCore) <$> m_height event;
          prev_hash := prev_blockhash header;
          canonical_predecessor_header := None; canonical_competitor_header := None;
          canonical_competitor_hash := None; coinbase := None;
          difficulty_epoch_ok := m_difficulty_ok event; rejection_reason := None;
          live_observed := false; core_attested := false; core_absence_attested := false;
          incomplete := false |}.

Definition set_difficulty (v : ParentClassification) (d : option bool) : ParentClassification :=
  {| kind := kind v; pc_btc_height := pc_btc_height v; height_source := height_source v;
     prev_hash := prev_hash v;
     canonical_predecessor_header := canonical_predecessor_header v;
     canonical_competitor_header := canonical_competitor_header v;
     canonical_competitor_hash := canonical_competitor_hash v; coinbase := coinbase v;
     difficulty_epoch_ok := d; rejection_reason := rejection_reason v;
     live_observed := live_observed v; core_attested := core_attested v;
     core_absence_attested := core_absence_attested v; incomplete := incomplete v |}.

Definition effective_classification (t : block_table) (event : MergeMiningEvent) (header : Header)
    (c : ParentClassification) : ParentClassification :=
  if bool_decide (kind c = PkUnknown) then
    match persisted_classification_from_block t event header with
    | Some c => c
    | None =>
        match classification_from_event event header with
        | Some c => c
        | None =>
            if bool_decide (m_kind event = PkStale)
            then set_difficulty (unknown header) (difficulty_epoch_ok c)
            else c
        end
    end
  else c.
End classification.

Definition merge_difficulty (rollup_difficulty : option bool) (c : ParentClassification) : option bool :=
  coalesce (difficulty_epoch_ok c) rollup_difficulty.

(** ** Updating the events *)

Definition set_classification (e : EventRow) (k : ParentKind) (height : option Z) (d : option bool) : EventRow :=
  {| e_id := e_id e; e_source_id := e_source_id e; e_child_height := e_child_height e;
     e_hash := e_hash e; e_prev_hash := e_prev_hash e; e_header_bytes := e_header_bytes e;
     e_header_time := e_header_time e; e_height := height; e_kind := k; e_pow := e_pow e;
     e_difficulty_ok := d; e_script := e_script e; e_outputs := e_outputs e;
     e_tx_bytes := e_tx_bytes e; e_discovered_at := e_discovered_at e;
     e_confirmed_at := e_confirmed_at e; e_revoked_at := e_revoked_at e;
     e_revocation_reason := e_revocation_reason e; e_relevance_reason := e_relevance_reason e |}.

Definition classification_updates (hash : bytes) (k : ParentKind) (e : EventRow) : bool :=
  bool_decide (e_hash e = hash) && is_active e
  && (negb (bool_decide (k = PkUnknown)) || bool_decide (e_kind e ∈ [PkUnknown; PkInvalidBlock])).

Definition proven_kind (k : ParentKind) : bool :=
  match k with PkCanonical | PkStale | PkInvalidBlock => true | PkNear | PkUnknown => false end.

Definition apply_event_classification (t : event_table) (event : MergeMiningEvent)
    (c : ParentClassification) : result anyhow event_table :=
  let height := if proven_kind (kind c) then pc_btc_height c else None in
  _ ← ensure (negb (proven_kind (kind c)) || is_some height)
        (Other "canonical/stale/invalid-block classification has no height");
  let t' := (λ e, if classification_updates (m_hash event) (kind c) e
                  then set_classification e (kind c) height
                         (coalesce (difficulty_epoch_ok c) (e_difficulty_ok e))
                  else e) <$> t in
  _ ← ensure (bool_decide (map_Forall (λ _ e, chk_event e = true) t'))
        (Other "check constraint of merge_mining_event");
  mret t'.

(** ** Blocks without active events *)

Section rebuild.
Context `{BitcoinLib} (invalid_blocks_lookup : bytes → option InvalidBlock).
Context (resolve_pool : bytes → option bytes → option Z).

Definition resolve_bitcoin_miner_pool_id_from_coinbase (script outputs : option bytes) : option Z :=
  s ← script; resolve_pool s outputs.

Definition resolve_core_coinbase_pool_id (c : option BitcoinCoreBlockCoinbase) : option Z :=
  resolve_bitcoin_miner_pool_id_from_coinbase (bc_script <$> c) (bc_outputs <$> c).

Definition resolve_persisted_core_coinbase_bitcoin_miner_pool_id (t : block_table) (hash : bytes)
    : option Z :=
  r ← t !! hash;
  s ← b_coinbase_script r;
  resolve_bitcoin_miner_pool_id_from_coinbase (Some s) (b_coinbase_outputs r).

Definition zero_active (r : BlockInput) (core_pool_id : option Z) : BlockInput :=
  let core := b_core_attested r in
  {| b_hash := b_hash r; b_prev_hash := b_prev_hash r;
     b_height := if core then b_height r else None;
     b_height_source := if core then b_height_source r else None;
     b_kind := if core then b_kind r else BkUnknown;
     b_header_bytes := b_header_bytes r; b_header_time := b_header_time r;
     b_bitcoin_miner_pool_id := if core then core_pool_id else None;
     b_coinbase_txid := b_coinbase_txid r; b_coinbase_script := b_coinbase_script r;
     b_coinbase_outputs := b_coinbase_outputs r; b_coinbase_status := b_coinbase_status r;
     b_invalid_block_reason := if core then b_invalid_block_reason r else None;
     b_canonical_competitor_hash := if core then b_canonical_competitor_hash r else None;
     b_total_attestations := 0; b_distinct_sources := if core then 1 else 0;
     b_auxpow_chain_count := 0;
     b_live_observed := b_live_observed r; b_core_attested := core; b_pow_validated := core;
     b_difficulty_epoch_ok := if core then b_difficulty_epoch_ok r else None;
     b_first_attested_at := None; b_last_attested_at := None; b_btc_orphan_class := None |}.

Definition demote_zero_active_block (t : block_table) (hash : bytes) : result anyhow block_table :=
  match t !! hash with
  | Some r => store_row t (zero_active r (resolve_persisted_core_coinbase_bitcoin_miner_pool_id t hash))
  | None => Ok t
  end.

(** Another row names this one as its competitor. *)
Definition referenced (t : block_table) (hash : bytes) : bool :=
  existsb (λ r, bool_decide (b_canonical_competitor_hash r = Some hash)) (map_to_list t).*2.

Definition retire_zero_active_block (db : ReadModel) (hash : bytes) : result anyhow ReadModel :=
  let t := rm_blocks db in
  let kept := match t !! hash with
              | Some r => b_core_attested r || referenced t hash
              | None => false
              end in
  if kept then
    t ← demote_zero_active_block t hash;
    p ← rebuild_auxpow_proofs (rm_events db) t hash (rm_proofs db);
    mret (with_proofs (with_blocks db t) p)
  else
    mret (with_proofs (with_blocks db (delete hash t)) (filter (λ '((h, _), _), h ≠ hash) (rm_proofs db))).

(** ** Orphan class *)

Definition has_published_stale_branch_attestation (t : event_table) (hash : bytes) : bool :=
  existsb (λ e, bool_decide (e_relevance_reason e ∈ [Some "valid_direct_stale"; Some "valid_stale_descendant"]%string))
    (active_events t hash).

Definition load_persisted_orphan_class (t : block_table) (hash : bytes) : option string :=
  r ← t !! hash; b_btc_orphan_class r.

(** The first strict height, in the order of the event ids. *)
Fixpoint first_strict_height (sources : gmap Z SourceRow) (l : list EventRow) : option Z :=
  match l with
  | [] => None
  | e :: l =>
      match (s ← sources !! e_source_id e;
             script ← e_script e;
             strict_bip34_height_from_evidence (s_chain s) script (e_tx_bytes e)) with
      | Some h => Some h
      | None => first_strict_height sources l
      end
  end.

Definition event_id_le (a b : EventRow) : Prop := e_id a ≤ e_id b.
#[global] Instance event_id_le_dec a b : Decision (event_id_le a b).
Proof. unfold event_id_le. apply _. Defined.

Definition load_strict_bip34_height (db : ReadModel) (hash : bytes) : option Z :=
  first_strict_height (rm_sources db) (merge_sort event_id_le (active_events (rm_events db) hash)).

Definition compute_block_orphan_class (db : ReadModel) (hash : bytes) (k : BlockKind)
    (c : ParentClassification) (header : Header) (nbits_table : option NbitsTable)
    : result anyhow (option string) :=
  if negb (bool_decide (k = BkUnknown)) then Ok None
  else if has_published_stale_branch_attestation (rm_events db) hash then Ok (as_db_str VExcluded)
  else if negb (core_absence_attested c) then Ok (load_persisted_orphan_class (rm_blocks db) hash)
  else if bool_decide (hash ∈ rm_known_stale db) then Ok (as_db_str VExcluded)
  else
    let strict := load_strict_bip34_height db hash in
    table ← match nbits_table with Some t => Ok t | None => rm_nbits db end;
    mret (as_db_str (classify_btc_orphan_with table (hdr_time header) (hdr_bits header) strict).1).

(** ** Rebuilding the row of a parent *)

Definition resolve_effective_bitcoin_miner_pool_id (t : block_table) (hash : bytes) (k : BlockKind)
    (c : ParentClassification) (event : MergeMiningEvent) : option Z :=
  let from_core := if core_attested c && bool_decide (kind c ∈ [PkCanonical; PkStale])
                   then resolve_core_coinbase_pool_id (coinbase c) else None in
  let persisted := if bool_decide (k = BkCanonical) || bool_decide (k = BkStale) && core_attested c
                   then resolve_persisted_core_coinbase_bitcoin_miner_pool_id t hash else None in
  coalesce from_core
    (coalesce persisted (resolve_bitcoin_miner_pool_id_from_coinbase (m_script event) (m_outputs event))).

(** Kind, height, height source, competitor and reason of the row. *)
Definition block_placement (c : ParentClassification)
    : result anyhow (BlockKind * option Z * option HeightSource * option bytes * option string) :=
  match kind c with
  | PkCanonical => Ok (BkCanonical, pc_btc_height c, coalesce (height_source c) (Some HsBitcoinCore), None, None)
  | PkStale => Ok (BkStale, pc_btc_height c, height_source c, canonical_competitor_hash c, None)
  | PkInvalidBlock =>
      if is_some (pc_btc_height c) && is_some (height_source c) && is_some (rejection_reason c)
      then Ok (BkInvalidBlock, pc_btc_height c, height_source c, None, rejection_reason c)
      else Err (Other "invalid-block classification is missing height, source, or rejection reason")
  | PkUnknown | PkNear => Ok (BkUnknown, None, None, None, None)
  end.

Definition rebuilt_block (hash : bytes) (event : MergeMiningEvent) (rollup : ParentRollup)
    (c : ParentClassification)
    (placement : BlockKind * option Z * option HeightSource * option bytes * option string)
    (pool : option Z) (orphan_class : option string) : BlockInput :=
  let '(k, height, source, competitor, reason) := placement in
  let cb := coinbase_columns (coinbase c) in
  {| b_hash := hash; b_prev_hash := m_prev_hash event; b_height := height; b_height_source := source;
     b_kind := k; b_header_bytes := m_header_bytes event; b_header_time := m_header_time event;
     b_bitcoin_miner_pool_id := pool;
     b_coinbase_txid := cc_txid cb; b_coinbase_script := cc_script cb;
     b_coinbase_outputs := cc_outputs cb; b_coinbase_status := cc_status cb;
     b_invalid_block_reason := reason; b_canonical_competitor_hash := competitor;
     b_total_attestations := total_attestations rollup;
     b_distinct_sources := distinct_sources rollup + (if core_attested c then 1 else 0);
     b_auxpow_chain_count := auxpow_chain_count rollup;
     b_live_observed := live_observed c; b_core_attested := core_attested c;
     b_pow_validated := pow_validated rollup || core_attested c;
     b_difficulty_epoch_ok := merge_difficulty (roll_difficulty_epoch_ok rollup) c;
     b_first_attested_at := first_attested_at rollup; b_last_attested_at := last_attested_at rollup;
     b_btc_orphan_class := orphan_class |}.

Definition rebuild_parent_read_model (db : ReadModel) (hash : bytes)
    (c : option ParentClassification) (nbits_table : option NbitsTable) : result anyhow ReadModel :=
  match load_parent_rollup (rm_events db) (rm_sources db) hash with
  | None => retire_zero_active_block db hash
  | Some rollup =>
      event ← load_representative_active_event (rm_events db) hash;
      header ← ok_or (Context "deserialize representative parent header" (Other "decode"))
                 (deserialize_header (m_header_bytes event));
      let t := rm_blocks db in
      let c := match c with
               | Some c => effective_classification invalid_blocks_lookup t event header c
               | None => default (unknown header)
                           (persisted_classification_from_block invalid_blocks_lookup t event header)
               end in
      placement ← block_placement c;
      let k := placement.1.1.1.1 in
      orphan_class ← compute_block_orphan_class db hash k c header nbits_table;
      let pool := resolve_effective_bitcoin_miner_pool_id t hash k c event in
      t ← upsert_block_row t (rebuilt_block hash event rollup c placement pool orphan_class) EventRollup;
      p ← rebuild_auxpow_proofs (rm_events db) t hash (rm_proofs db);
      mret (with_proofs (with_blocks db t) p)
  end.
End rebuild.

(** ** The reconcile transaction *)

Record PreclassifiedParent := mkPreclassified {
  expected_parent_hash : option bytes;
  pp_classification : ParentClassification;
  strict_core_errors : bool;
}.
Definition trusted (c : ParentClassification) : PreclassifiedParent := mkPreclassified None c false.
Definition for_event (event : MergeMiningEvent) (c : ParentClassification) (strict : bool)
    : PreclassifiedParent := mkPreclassified (Some (m_hash event)) c strict.

(** [sort] and [dedup] of hashes. *)
Definition bytes_le (a b : bytes) : Prop := bytes_leb a b = true.
#[global] Instance bytes_le_dec a b : Decision (bytes_le a b).
Proof. unfold bytes_le. apply _. Defined.
Definition sort_dedup (l : list bytes) : list bytes := merge_sort bytes_le (remove_dups l).

Definition push_classification_lock_hashes (hashes : list bytes) (c : ParentClassification) : list bytes :=
  hashes ++ option_list (canonical_competitor_hash c)
         ++ option_list (cl_hash <$> canonical_competitor_header c)
         ++ option_list (cl_hash <$> canonical_predecessor_header c).

Definition classification_lock_hashes (event : MergeMiningEvent) (c : ParentClassification) : list bytes :=
  sort_dedup (push_classification_lock_hashes [m_hash event; m_prev_hash event] c).

Definition lock_hashes_cover (locked required : list bytes) : bool :=
  forallb (λ h, bool_decide (h ∈ locked)) required.

Section reconcile.
Context `{BitcoinLib} {W : Type} `{CoreHeaderSource W} `{Clock W}.
Context (invalid_blocks_lookup : bytes → option InvalidBlock).
Context (resolve_pool : bytes → option bytes → option Z).

#[local] Abbreviation rM := (stM W anyhow).

Definition classify_event_parent_with_policy (db : ReadModel) (event : MergeMiningEvent)
    (classifier : ConfiguredParentClassifier) (preclassified : option PreclassifiedParent)
    (strict : bool) : rM (Header * ParentClassification) :=
  header ← lift (ok_or (Context "deserialize parent header" (Other "decode"))
                   (deserialize_header (m_header_bytes event)));
  live ← match preclassified with
         | Some p => mret (Some (pp_classification p))
         | None =>
             if is_enabled classifier then
               let preflight := load_parent_preflight (rm_blocks db) (m_prev_hash event) in
               c ← (if strict then Configured_classify_parent_strict classifier header preflight
                    else Configured_classify_parent classifier header preflight);
               mret (Some c)
             else mret None
         end;
  c ← lift (resolve_parent_classification invalid_blocks_lookup header live);
  mret (header, c).

Definition classify_event_parent (db : ReadModel) (event : MergeMiningEvent)
    (classifier : ConfiguredParentClassifier) (preclassified : option PreclassifiedParent)
    : rM (Header * ParentClassification) :=
  classify_event_parent_with_policy db event classifier preclassified false.

Definition preclassify_event_parent_with_policy (db : ReadModel) (event_id : Z)
    (classifier : ConfiguredParentClassifier) (strict : bool) : rM (option PreclassifiedParent) :=
  event ← lift (load_event (rm_events db) event_id);
  if skips_parent_read_model event then mret None
  else if negb (is_some (invalid_blocks_lookup (m_hash event))) && negb (is_enabled classifier)
  then mret None
  else
    '(_, c) ← classify_event_parent_with_policy db event classifier None strict;
    mret (Some (for_event event c strict)).

(** The event again, once its locks are held. *)
Definition load_locked_reconcile_event (db : ReadModel) (event_id : Z)
    (classifier : ConfiguredParentClassifier) (initial_event : MergeMiningEvent)
    (initial_header : Header) (initial : ParentClassification)
    (preclassified : option PreclassifiedParent)
    : rM (option (MergeMiningEvent * Header * ParentClassification)) :=
  event ← lift (load_event (rm_events db) event_id);
  if skips_parent_read_model event then mret None
  else if bool_decide (event = initial_event) then mret (Some (event, initial_header, initial))
  else if is_some preclassified then throw (ReconcileLockSetChanged (m_id event))
  else
    '(header, c) ← classify_event_parent db event classifier None;
    mret (Some (event, header, c)).

Definition upsert_synthesized_sibling (t : block_table) (sibling : ClassifiedHeader)
    : result anyhow (option bytes * block_table) :=
  let before := load_block_cascade_state t (cl_hash sibling) in
  t ← upsert_synthesized_canonical (resolve_core_coinbase_pool_id resolve_pool) t sibling;
  let after := load_block_cascade_state t (cl_hash sibling) in
  mret (if bool_decide (before = after) then None else Some (cl_hash sibling), t).

Fixpoint upsert_siblings (t : block_table) (siblings : list ClassifiedHeader)
    : result anyhow (list bytes * block_table) :=
  match siblings with
  | [] => mret ([], t)
  | s :: siblings =>
      '(changed, t) ← upsert_synthesized_sibling t s;
      '(rest, t) ← upsert_siblings t siblings;
      mret (option_list changed ++ rest, t)
  end.

(** What the transaction writes once its locks are held and cover the verdict. *)
Definition reconcile_locked (db : ReadModel) (event : MergeMiningEvent) (c : ParentClassification)
    (nbits_table : option NbitsTable) : result anyhow (list bytes * ReadModel) :=
  let before := load_block_cascade_state (rm_blocks db) (m_hash event) in
  events ← apply_event_classification (rm_events db) event c;
  let db := with_events db events in
  '(changed, t) ← upsert_siblings (rm_blocks db)
                    (option_list (canonical_predecessor_header c) ++ option_list (canonical_competitor_header c));
  db ← rebuild_parent_read_model invalid_blocks_lookup resolve_pool (with_blocks db t) (m_hash event)
         (Some c) nbits_table;
  let after := load_block_cascade_state (rm_blocks db) (m_hash event) in
  mret (sort_dedup (changed ++ (if bool_decide (before = after) then [] else [m_hash event])), db).

(** [wrapper] is the parent of the source-health bracket of the caller, if there is one. *)
Definition reconcile_one_event_in_txn (before after : ReadModel) (event_id : Z)
    (classifier : ConfiguredParentClassifier) (preclassified : option PreclassifiedParent)
    (wrapper : option bytes) (nbits_table : option NbitsTable) : rM (list bytes * ReadModel) :=
  initial_event ← lift (load_event (rm_events before) event_id);
  if skips_parent_read_model initial_event then mret ([], after) else
  _ ← guardM (match expected_parent_hash <$> preclassified with
              | Some (Some hash) => bool_decide (hash = m_hash initial_event)
              | _ => true
              end) (ReconcileLockSetChanged event_id);
  _ ← guardM (match wrapper with
              | Some hash => bool_decide (hash = m_hash initial_event)
              | None => true
              end) (ReconcileLockSetChanged event_id);
  '(initial_header, initial) ← classify_event_parent before initial_event classifier preclassified;
  let locked := classification_lock_hashes initial_event
                  (effective_classification invalid_blocks_lookup (rm_blocks before) initial_event
                     initial_header initial) in
  reloaded ← load_locked_reconcile_event after event_id classifier initial_event initial_header initial
               preclassified;
  match reloaded with
  | None => mret ([], after)
  | Some (event, header, c) =>
      let c := effective_classification invalid_blocks_lookup (rm_blocks after) event header c in
      _ ← guardM (lock_hashes_cover locked (classification_lock_hashes event c))
            (ReconcileLockSetChanged (m_id event));
      lift (reconcile_locked after event c nbits_table)
  end.
End reconcile.

(** ** Frames and invariants *)

(** Every competitor a row names is stored. *)
Definition refs_ok (t : block_table) : Prop :=
  ∀ h r c, t !! h = Some r → b_canonical_competitor_hash r = Some c → is_Some (t !! c).

Definition blocks_ok (t : block_table) : Prop := table_ok t ∧ refs_ok t.

(** [t'] differs from [t] at most at the hashes [hs]. *)
Definition only_at (hs : list bytes) (t t' : block_table) : Prop := ∀ h, h ∉ hs → t' !! h = t !! h.

Lemma only_at_refl hs t : only_at hs t t.
Proof. by intros h. Qed.

Lemma only_at_trans hs hs' t t' t'' :
  only_at hs t t' → only_at hs' t' t'' → only_at (hs ++ hs') t t''.
Proof. intros Hx1 Hx2 h Hh. apply not_elem_of_app in Hh as [??]. by rewrite Hx2, Hx1. Qed.

Lemma only_at_sub hs hs' t t' : hs ⊆ hs' → only_at hs t t' → only_at hs' t t'.
Proof. intros Hs Ho h Hh. apply Ho. set_solver. Qed.

Lemma store_row_blocks t r t' :
  blocks_ok t → store_row t r = Ok t' →
  blocks_ok t' ∧ only_at [b_hash r] t t' ∧ t' !! b_hash r = Some r.
Proof.
  intros [Ht Hr] (Hc & Hf & ->)%store_row_Ok. split_and!.
  - split; [by apply table_ok_insert|]. intros h r' c Hl Hcc.
    assert (is_Some (t !! c)) as [rc Hrc].
    { apply lookup_insert_Some in Hl as [[_ <-]|[_ Hl]]; [by apply Hf|by eapply Hr]. }
    rewrite lookup_insert. destruct (decide _); eauto.
  - intros h Hh. apply not_elem_of_cons in Hh as [Hh _]. by rewrite lookup_insert_ne.
  - by rewrite lookup_insert_eq.
Qed.

Definition merged_row (mode : BlockWriteMode) (old : option BlockInput) (b : BlockInput) : BlockInput :=
  match old with None => insert_values b mode | Some old => conflict_set mode old b end.

Lemma upsert_blocks t b mode t' :
  blocks_ok t → upsert_block_row t b mode = Ok t' →
  blocks_ok t' ∧ only_at [b_hash b] t t' ∧
  (mode = EventRollup → t' !! b_hash b = Some (merged_row EventRollup (t !! b_hash b) b)).
Proof.
  intros Hb Hu. unfold upsert_block_row in Hu. apply bind_Ok in Hu as ([] & _ & Hu).
  destruct (t !! b_hash b) as [old|] eqn:Ho.
  - destruct (proj1 Hb _ _ Ho) as [Hh _].
    destruct (conflict_where mode old b) eqn:Hw.
    + apply store_row_blocks in Hu as (Hx1 & Hx2 & Hx3); [|done].
      assert (b_hash (conflict_set mode old b) = b_hash b) as He by (by destruct mode).
      rewrite He in Hx2, Hx3. split_and!; [done..|]. by intros ->.
    + simplify_eq. split_and!; [done|apply only_at_refl|]. intros ->. simpl in *.
      by rewrite (proj1 (event_rollup_where_false old b)).
  - apply store_row_blocks in Hu as (Hx1 & Hx2 & Hx3); [|done].
    assert (b_hash (insert_values b mode) = b_hash b) as He by (by destruct mode).
    rewrite He in Hx2, Hx3. split_and!; [done..|]. by intros ->.
Qed.

Definition siblings_of (c : ParentClassification) : list ClassifiedHeader :=
  option_list (canonical_predecessor_header c) ++ option_list (canonical_competitor_header c).

Lemma elem_of_sort_dedup l h : h ∈ sort_dedup l ↔ h ∈ l.
Proof. unfold sort_dedup. by rewrite merge_sort_Permutation, elem_of_remove_dups. Qed.

Lemma elem_of_lock_hashes event c h :
  h ∈ classification_lock_hashes event c ↔
  h = m_hash event ∨ h = m_prev_hash event ∨ canonical_competitor_hash c = Some h ∨
  h ∈ cl_hash <$> siblings_of c.
Proof.
  unfold classification_lock_hashes, push_classification_lock_hashes, siblings_of.
  rewrite elem_of_sort_dedup, !fmap_app, !elem_of_app.
  assert (∀ (A : Type) (o : option A) x, x ∈ option_list o ↔ o = Some x) as Ho
    by (intros A [y|] x; simpl; split; intros Hx; set_solver).
  rewrite !fmap_option_list, !Ho. set_solver.
Qed.

(** The update of the events keeps their checks and their identity. *)
Lemma apply_event_spec t event c t' :
  apply_event_classification t event c = Ok t' →
  (∀ i e', t' !! i = Some e' → chk_event e' = true) ∧
  ∀ i, t' !! i = (λ e, if classification_updates (m_hash event) (kind c) e
                       then set_classification e (kind c) (if proven_kind (kind c) then pc_btc_height c else None)
                              (coalesce (difficulty_epoch_ok c) (e_difficulty_ok e))
                       else e) <$> t !! i.
Proof.
  unfold apply_event_classification. intros Ha. apply bind_Ok in Ha as ([] & _ & Ha).
  apply bind_Ok in Ha as ([] & Hc & [= <-]). apply ensure_Ok, bool_decide_eq_true in Hc.
  split; [exact Hc|]. intros i. by rewrite lookup_fmap.
Qed.

Lemma apply_event_ok t event c t' :
  events_ok t → apply_event_classification t event c = Ok t' → events_ok t'.
Proof.
  intros Ht (Hc & Hl)%apply_event_spec i e' He'. split; [|by eapply Hc].
  rewrite Hl in He'. apply fmap_Some in He' as (e & He & ->). destruct (Ht _ _ He) as [<- _].
  by destruct (classification_updates _ _ _).
Qed.

(** The tables a rebuild leaves alone. *)
Definition same_evidence (db db' : ReadModel) : Prop :=
  rm_events db' = rm_events db ∧ rm_sources db' = rm_sources db ∧
  rm_known_stale db' = rm_known_stale db ∧ rm_nbits db' = rm_nbits db.

Lemma referenced_false t hash :
  referenced t hash = false → ∀ h r, t !! h = Some r → b_canonical_competitor_hash r ≠ Some hash.
Proof.
  unfold referenced. intros He h r Hl Hc.
  rewrite <-not_true_iff_false, existsb_exists in He. apply He. exists r. split; [|by apply bool_decide_eq_true].
  apply list_elem_of_In, list_elem_of_fmap. exists (h, r). split; [done|]. by apply elem_of_map_to_list.
Qed.

Section writes.
Context `{BitcoinLib} (resolve_pool : bytes → option bytes → option Z).

Lemma retire_blocks db hash db' :
  blocks_ok (rm_blocks db) → retire_zero_active_block resolve_pool db hash = Ok db' →
  blocks_ok (rm_blocks db') ∧ only_at [hash] (rm_blocks db) (rm_blocks db') ∧ same_evidence db db'.
Proof.
  intros Hb. unfold retire_zero_active_block.
  destruct (rm_blocks db !! hash) as [r|] eqn:Hr.
  - destruct (proj1 Hb _ _ Hr) as [Hh _]. destruct (b_core_attested r || referenced _ hash) eqn:Hk.
    + intros Hd. apply bind_Ok in Hd as (t & Ht & Hd). apply bind_Ok in Hd as (p & _ & [= <-]).
      unfold demote_zero_active_block in Ht. rewrite Hr in Ht.
      apply store_row_blocks in Ht as (Hx1 & Hx2 & _); [|done]. simpl in *. rewrite Hh in Hx2. done.
    + intros [= <-]. simpl. apply orb_false_iff in Hk as [_ Hk]. split_and!; [|by intros h Hn; apply lookup_delete_ne; set_solver|done].
      destruct Hb as [Ht Hrf]. split.
      * intros h r' Hl. apply lookup_delete_Some in Hl as [_ Hl]. by apply Ht.
      * intros h r' c Hl Hc. apply lookup_delete_Some in Hl as [_ Hl].
        rewrite lookup_delete_ne; [by eapply Hrf|]. intros ->. by eapply referenced_false in Hk.
  - intros [= <-]. simpl. rewrite delete_id by done. split_and!; [done|apply only_at_refl|done].
Qed.

Lemma upsert_siblings_spec t siblings changed t' :
  blocks_ok t → upsert_siblings resolve_pool t siblings = Ok (changed, t') →
  blocks_ok t' ∧ only_at (cl_hash <$> siblings) t t' ∧ changed ⊆ cl_hash <$> siblings ∧
  ∀ h, load_block_cascade_state t h ≠ load_block_cascade_state t' h → h ∈ changed.
Proof.
  revert t changed t'. induction siblings as [|s siblings IH]; intros t changed t' Hb; simpl.
  - intros [= <- <-]. split_and!; [done|apply only_at_refl|done|done].
  - intros Hs. apply bind_Ok in Hs as ([c t1] & Hs1 & Hs). apply bind_Ok in Hs as ([rest t2] & Hs2 & [= <- <-]).
    unfold upsert_synthesized_sibling in Hs1. apply bind_Ok in Hs1 as (t1' & Hu & [= <- ->]).
    apply upsert_blocks in Hu as (Hb1 & Ho1 & _); [|done]. change (b_hash _) with (cl_hash s) in Ho1.
    apply IH in Hs2 as (Hb2 & Ho2 & Hc2 & Hd2); [|done]. split_and!; [done| | |].
    + apply (only_at_trans [cl_hash s]) with t1; done.
    + case_bool_decide; set_solver.
    + intros h Hh. destruct (decide (load_block_cascade_state t1 h = load_block_cascade_state t2 h)) as [E|E].
      * destruct (decide (h = cl_hash s)) as [->|Hne].
        { rewrite bool_decide_eq_false_2 by congruence. set_solver. }
        exfalso. apply Hh. rewrite <-E. unfold load_block_cascade_state. rewrite Ho1; [done|set_solver].
      * apply elem_of_app. right. by apply Hd2.
Qed.

End writes.

Section facts.
Context `{BitcoinLib} {W : Type} `{CoreHeaderSource W} `{Clock W}.
Context (invalid_blocks_lookup : bytes → option InvalidBlock).
Context (resolve_pool : bytes → option bytes → option Z).

#[local] Abbreviation rebuild := (rebuild_parent_read_model invalid_blocks_lookup resolve_pool).

(** The verdict a rebuild applies to the representative event. *)
Definition applied_classification (db : ReadModel) (event : MergeMiningEvent) (header : Header)
    (c : option ParentClassification) : ParentClassification :=
  match c with
  | Some c => effective_classification invalid_blocks_lookup (rm_blocks db) event header c
  | None => default (unknown header)
              (persisted_classification_from_block invalid_blocks_lookup (rm_blocks db) event header)
  end.

Lemma rebuild_spec db hash c nt db' :
  blocks_ok (rm_blocks db) → rebuild db hash c nt = Ok db' →
  blocks_ok (rm_blocks db') ∧ only_at [hash] (rm_blocks db) (rm_blocks db') ∧ same_evidence db db' ∧
  ∀ rollup, load_parent_rollup (rm_events db) (rm_sources db) hash = Some rollup →
    ∃ event header placement orphan_class,
      load_representative_active_event (rm_events db) hash = Ok event ∧
      deserialize_header (m_header_bytes event) = Some header ∧
      let c' := applied_classification db event header c in
      block_placement c' = Ok placement ∧
      compute_block_orphan_class db hash placement.1.1.1.1 c' header nt = Ok orphan_class ∧
      let pool := resolve_effective_bitcoin_miner_pool_id resolve_pool (rm_blocks db) hash
                    placement.1.1.1.1 c' event in
      rm_blocks db' !! hash = Some (merged_row EventRollup (rm_blocks db !! hash)
                                      (rebuilt_block hash event rollup c' placement pool orphan_class)) ∧
      rebuild_auxpow_proofs (rm_events db) (rm_blocks db') hash (rm_proofs db) = Ok (rm_proofs db').
Proof.
  intros Hb. unfold rebuild_parent_read_model.
  destruct (load_parent_rollup _ _ hash) as [rollup|] eqn:Hroll.
  - intros Hr. apply bind_Ok in Hr as (event & He & Hr). apply bind_Ok in Hr as (header & Hh & Hr).
    apply ok_or_Ok in Hh. cbv zeta in Hr. apply bind_Ok in Hr as (placement & Hp & Hr).
    apply bind_Ok in Hr as (orphan & Ho & Hr). apply bind_Ok in Hr as (t & Hu & Hr).
    apply bind_Ok in Hr as (p & Hpr & [= <-]).
    assert (∀ a b d e f g i, b_hash (rebuilt_block a b d e f g i) = a) as Ehash by (by intros ???? [[[[??]?]?]?]).
    apply upsert_blocks in Hu as (Hx1 & Hx2 & Hx3); [|done]. rewrite Ehash in Hx2, Hx3. specialize (Hx3 eq_refl).
    split_and!; [done..|]. intros ? [= <-]. exists event, header, placement, orphan. by split_and!.
  - intros Hr. apply retire_blocks in Hr as (Hx1 & Hx2 & Hx3); [|done]. split_and!; [done..|]. by intros ?.
Qed.

Lemma reconcile_locked_spec db event c nt changed db' :
  blocks_ok (rm_blocks db) →
  reconcile_locked invalid_blocks_lookup resolve_pool db event c nt = Ok (changed, db') →
  let touched := m_hash event :: (cl_hash <$> siblings_of c) in
  blocks_ok (rm_blocks db') ∧ (events_ok (rm_events db) → events_ok (rm_events db')) ∧
  only_at touched (rm_blocks db) (rm_blocks db') ∧ changed ⊆ touched ∧
  ∀ h, load_block_cascade_state (rm_blocks db) h ≠ load_block_cascade_state (rm_blocks db') h →
       h ∈ changed.
Proof.
  intros Hb Hr. unfold reconcile_locked in Hr. apply bind_Ok in Hr as (events & Ha & Hr).
  cbv zeta in Hr. apply bind_Ok in Hr as ([ch t] & Hs & Hr). apply bind_Ok in Hr as (db1 & Hrb & [= <- <-]).
  apply upsert_siblings_spec in Hs as (Hb1 & Ho1 & Hc1 & Hd1); [|done]. fold (siblings_of c) in *.
  apply rebuild_spec in Hrb as (Hb2 & Ho2 & (Hev & _) & _); [|done]. simpl in *.
  split_and!; [done| | | |].
  - rewrite Hev. intros He. by eapply apply_event_ok.
  - apply (only_at_sub ((cl_hash <$> siblings_of c) ++ [m_hash event])); [set_solver|].
    by eapply only_at_trans.
  - intros h. rewrite elem_of_sort_dedup. case_bool_decide; set_solver.
  - intros h Hh. rewrite elem_of_sort_dedup.
    destruct (decide (h = m_hash event)) as [->|Hne].
    + rewrite bool_decide_eq_false_2 by done. set_solver.
    + apply elem_of_app. left. apply Hd1. intros E. apply Hh. rewrite E.
      unfold load_block_cascade_state. rewrite Ho2; [done|set_solver].
Qed.
End facts.

(** ** The transaction *)

Lemma lock_hashes_cover_true locked required : lock_hashes_cover locked required = true → required ⊆ locked.
Proof.
  unfold lock_hashes_cover. rewrite forallb_forall. intros Hc h Hh.
  specialize (Hc h). rewrite bool_decide_eq_true, <-list_elem_of_In in Hc. by apply Hc.
Qed.

(** An active event, with its source and the proof of work of its parent. *)
Definition attesting (db : ReadModel) (event_id : Z) (e : EventRow) : Prop :=
  rm_events db !! event_id = Some e ∧ is_active e = true ∧ is_Some (rm_sources db !! e_source_id e) ∧
  e_pow e = true.

Lemma load_event_Ok t i ev : load_event t i = Ok ev → ∃ e, t !! i = Some e ∧
  m_hash ev = e_hash e ∧ m_prev_hash ev = e_prev_hash e ∧ m_header_bytes ev = e_header_bytes e ∧
  m_pow ev = e_pow e.
Proof.
  unfold load_event. intros Hl. apply bind_Ok in Hl as (e & He & Hl). apply ok_or_Ok in He.
  unfold event_from_row in Hl. apply bind_Ok in Hl as (k & _ & [= <-]). exists e. by split_and!.
Qed.

Lemma elem_of_active t hash e :
  e ∈ active_events t hash ↔ e_hash e = hash ∧ is_active e = true ∧ ∃ i, t !! i = Some e.
Proof.
  unfold active_events, events_of. rewrite !list_elem_of_filter, list_elem_of_fmap. split.
  - intros (Ha & Hh & [i e'] & -> & Hi%elem_of_map_to_list). eauto.
  - intros (Hh & Ha & i & Hi). split_and!; [done..|]. exists (i, e). split; [done|].
    by apply elem_of_map_to_list.
Qed.

Lemma rollup_Some db hash i e :
  attesting db i e → e_hash e = hash →
  ∃ r, load_parent_rollup (rm_events db) (rm_sources db) hash = Some r.
Proof.
  intros (Hi & Ha & Hs & _) Hh. unfold load_parent_rollup.
  destruct (Z.eqb_spec (Z.of_nat (length (filter (λ e, is_Some (rm_sources db !! e_source_id e))
    (active_events (rm_events db) hash)))) 0) as [E|]; [exfalso|by eauto].
  assert (e ∈ filter (λ e, is_Some (rm_sources db !! e_source_id e)) (active_events (rm_events db) hash)) as Hin.
  { apply list_elem_of_filter. split; [done|]. apply elem_of_active. split_and!; eauto. }
  destruct (filter _ _); [by apply not_elem_of_nil in Hin|simpl in E; lia].
Qed.
Lemma first_event_in first l e : first_event first l = Some e → e ∈ l.
Proof.
  destruct l as [|x l]; [done|]. intros [= <-]. simpl.
  induction l as [|y l IH]; simpl; [set_solver|]. destruct (event_before _ _ _); set_solver.
Qed.

(** The representative event of a parent that has an attesting event. *)
Lemma representative_spec t hash ev :
  load_representative_active_event t hash = Ok ev →
  ∃ i e, t !! i = Some e ∧ e_hash e = hash ∧ m_hash ev = hash ∧ m_prev_hash ev = e_prev_hash e ∧
    m_header_bytes ev = e_header_bytes e ∧
    ∀ e', e' ∈ active_events t hash → e_header_bytes e' = m_header_bytes ev.
Proof.
  unfold load_representative_active_event. intros Hl. apply bind_Ok in Hl as (row & Hrow & Hl).
  apply ok_or_Ok, first_event_in, elem_of_active in Hrow as (Hh & Ha & i & Hi).
  apply bind_Ok in Hl as (ev' & Hev & Hl). apply bind_Ok in Hl as ([] & Hm & [= ->]).
  unfold event_from_row in Hev. apply bind_Ok in Hev as (k & _ & [= <-]). exists i, row. simpl in *.
  split_and!; [done..|]. intros e' He'. apply ensure_Ok in Hm. rewrite forallb_forall in Hm.
  specialize (Hm e'). rewrite bool_decide_eq_true, <-list_elem_of_In in Hm. by apply Hm.
Qed.

Lemma attesting_apply db i e event c t' :
  attesting db i e → apply_event_classification (rm_events db) event c = Ok t' →
  ∃ e', attesting (with_events db t') i e' ∧ e_hash e' = e_hash e ∧ e_header_bytes e' = e_header_bytes e.
Proof.
  intros (Hi & Ha & Hs & Hp) (_ & Hl)%apply_event_spec. eexists. unfold attesting. simpl.
  rewrite Hl, Hi. simpl. split_and!; [done|..]; by destruct (classification_updates _ _ _).
Qed.

(** What the row of a parent says of its verdict and of its events. *)
Definition row_of (db : ReadModel) (c : ParentClassification) (r : BlockInput) : Prop :=
  block_placement c = Ok (b_kind r, b_height r, b_height_source r, b_canonical_competitor_hash r,
                          b_invalid_block_reason r) ∧
  b_core_attested r = core_attested c ∧
  (∀ rollup, load_parent_rollup (rm_events db) (rm_sources db) (b_hash r) = Some rollup →
     b_total_attestations r = total_attestations rollup ∧
     b_distinct_sources r = distinct_sources rollup + (if core_attested c then 1 else 0) ∧
     b_auxpow_chain_count r = auxpow_chain_count rollup ∧
     b_first_attested_at r = first_attested_at rollup ∧ b_last_attested_at r = last_attested_at rollup).

Lemma row_of_rebuilt db c old hash rep rollup placement pool orphan :
  block_placement c = Ok placement →
  load_parent_rollup (rm_events db) (rm_sources db) hash = Some rollup →
  (∀ o, old = Some o → b_hash o = hash) →
  row_of db c (merged_row EventRollup old (rebuilt_block hash rep rollup c placement pool orphan)).
Proof.
  intros Hp Hr Ho. destruct placement as [[[[k h] src] comp] reason].
  assert (b_hash (merged_row EventRollup old
            (rebuilt_block hash rep rollup c (k, h, src, comp, reason) pool orphan)) = hash) as Hh.
  { destruct old as [o|]; [|done]. exact (Ho o eq_refl). }
  unfold row_of. rewrite Hh, Hr. by destruct old; simpl; (split_and!; [done|done|]); intros ? [= <-].
Qed.

Lemma merged_prev_hash old hash rep rollup c placement pool orphan :
  b_prev_hash (merged_row EventRollup old (rebuilt_block hash rep rollup c placement pool orphan))
  = m_prev_hash rep.
Proof. destruct placement as [[[[k h] src] comp] reason]. by destruct old. Qed.

Section claims.
Context `{BitcoinLib} {W : Type} `{CoreHeaderSource W} `{Clock W}.
Context (invalid_blocks_lookup : bytes → option InvalidBlock).
Context (resolve_pool : bytes → option bytes → option Z).

#[local] Abbreviation reconcile := (reconcile_one_event_in_txn invalid_blocks_lookup resolve_pool).
#[local] Abbreviation effective := (effective_classification invalid_blocks_lookup).

(** A successful transaction wrote nothing, or wrote what its locks cover. *)
Lemma reconcile_inv before after event_id classifier pre wrapper nt w changed db' w' :
  reconcile before after event_id classifier pre wrapper nt w = (Ok (changed, db'), w') →
  (changed = [] ∧ db' = after ∧
     ((∃ e, load_event (rm_events before) event_id = Ok e ∧ m_pow e = false) ∨
      ∃ e, load_event (rm_events after) event_id = Ok e ∧ m_pow e = false)) ∨
  ∃ initial_event initial_header initial w1 event header c,
    load_event (rm_events before) event_id = Ok initial_event ∧
    classify_event_parent invalid_blocks_lookup before initial_event classifier pre w
      = (Ok (initial_header, initial), w1) ∧
    load_event (rm_events after) event_id = Ok event ∧ m_pow event = true ∧
    ((event = initial_event ∧ header = initial_header ∧ c = initial) ∨ pre = None) ∧
    let locked := classification_lock_hashes initial_event
                    (effective (rm_blocks before) initial_event initial_header initial) in
    let c := effective (rm_blocks after) event header c in
    classification_lock_hashes event c ⊆ locked ∧
    reconcile_locked invalid_blocks_lookup resolve_pool after event c nt = Ok (changed, db').
Proof.
  unfold reconcile_one_event_in_txn. intros Hr. st_inv.
  destruct (skips_parent_read_model _) eqn:Hskip; st_inv.
  { left. split_and!; [done..|]. left. eexists. split; [done|]. by apply negb_true_iff in Hskip. }
  match goal with H : (let '(_, _) := ?p in _) _ = _ |- _ => destruct p as [ih ic] end.
  st_inv. match goal with H : load_locked_reconcile_event _ _ _ _ _ _ _ _ _ = _ |- _ => rename H into Hl end.
  unfold load_locked_reconcile_event in Hl. st_inv.
  match goal with H : (if skips_parent_read_model ?e then _ else _) _ = _ |- _ => rename H into Hl, e into ev end.
  destruct (skips_parent_read_model ev) eqn:Hs2; st_inv.
  { left. split_and!; [done..|]. right. exists ev. split; [done|]. by apply negb_true_iff in Hs2. }
  right. case_bool_decide; st_inv.
  - match goal with H : lock_hashes_cover _ _ = true |- _ => rename H into Hc end.
    do 7 eexists. split_and!; [done|done|done|by apply negb_false_iff in Hs2|by left| |done].
    by apply lock_hashes_cover_true.
  - destruct pre; simpl in Hl; st_inv.
    match goal with H : (let '(_, _) := ?p in _) _ = _ |- _ => destruct p as [h2 c2] end. st_inv.
    match goal with H : lock_hashes_cover _ _ = true |- _ => rename H into Hc end.
    do 7 eexists. split_and!; [done|done|done|by apply negb_false_iff in Hs2|by right| |done].
    by apply lock_hashes_cover_true.
Qed.

(** C15. The reconcile transaction of an event keeps the constraints of the tables; it writes only
    block rows whose hash is in the lock set it took before reading again, although another
    transaction may have changed the event or the blocks while it waited; and every block whose
    cascade-relevant state changed is reported, so that its dependents are reconciled. *)
Theorem reconcile_locks_and_reports before after event_id classifier pre wrapper nt w changed db' w' :
  blocks_ok (rm_blocks after) → events_ok (rm_events after) →
  reconcile before after event_id classifier pre wrapper nt w = (Ok (changed, db'), w') →
  blocks_ok (rm_blocks db') ∧ events_ok (rm_events db') ∧
  (∀ h, load_block_cascade_state (rm_blocks after) h ≠ load_block_cascade_state (rm_blocks db') h →
        h ∈ changed) ∧
  (db' = after ∨
   ∃ event header c w1,
     load_event (rm_events before) event_id = Ok event ∧
     classify_event_parent invalid_blocks_lookup before event classifier pre w = (Ok (header, c), w1) ∧
     let locked := classification_lock_hashes event (effective (rm_blocks before) event header c) in
     only_at locked (rm_blocks after) (rm_blocks db') ∧ changed ⊆ locked).
Proof.
  intros Hb He Hr.
  apply reconcile_inv in Hr as [(-> & -> & _)|(ie & ih & ic & w1 & ev & h & c & H1' & H2' & _ & _ & _ & Hcov & Hl)].
  { split_and!; [done|done|done|by left]. }
  apply reconcile_locked_spec in Hl as (Hb' & He' & Ho & Hc & Hd); [|done].
  split_and!; [done|by apply He'|done|]. right. exists ie, ih, ic, w1.
  assert (m_hash ev :: (cl_hash <$> siblings_of (effective (rm_blocks after) ev h c)) ⊆
          classification_lock_hashes ie (effective (rm_blocks before) ie ih ic)) as Hsub.
  { etrans; [|exact Hcov]. intros x Hx. apply elem_of_lock_hashes. set_solver. }
  split; [done|]. split; [done|]. cbv zeta. split; [by eapply only_at_sub|set_solver].
Qed.

(** ** What becomes of a row *)

(** A decoded header agrees with the columns derived from it. *)
Definition headers_ok (t : event_table) : Prop :=
  ∀ i e hd, t !! i = Some e → deserialize_header (e_header_bytes e) = Some hd →
    block_hash hd = e_hash e ∧ prev_blockhash hd = e_prev_hash e.


Lemma headers_ok_apply t event c t' :
  headers_ok t → apply_event_classification t event c = Ok t' → headers_ok t'.
Proof.
  intros Ht (_ & Hl)%apply_event_spec i e' hd Hi Hd. rewrite Hl in Hi.
  apply fmap_Some in Hi as (e & Hi & ->). specialize (Ht i e hd Hi).
  by destruct (classification_updates _ _ _); apply Ht.
Qed.

Lemma effective_proven t event header c :
  kind c ≠ PkUnknown → effective t event header c = c.
Proof. intros Hk. unfold effective_classification. by rewrite bool_decide_eq_false_2. Qed.

Lemma reconcile_locked_row db event c nt changed db' i e hd :
  blocks_ok (rm_blocks db) → headers_ok (rm_events db) →
  attesting db i e → e_hash e = m_hash event → deserialize_header (e_header_bytes e) = Some hd →
  kind c ≠ PkUnknown →
  reconcile_locked invalid_blocks_lookup resolve_pool db event c nt = Ok (changed, db') →
  ∃ r, rm_blocks db' !! m_hash event = Some r ∧ row_of db' c r ∧ b_prev_hash r = prev_blockhash hd ∧
    ∃ t, only_at (cl_hash <$> siblings_of c) (rm_blocks db) t ∧
    (b_coinbase_status r = Complete ↔
       is_Some (coinbase c) ∨ ∃ old, t !! m_hash event = Some old ∧ b_coinbase_status old = Complete).
Proof.
  intros Hb Hho Hat Heh Hdec Hk Hr. unfold reconcile_locked in Hr. apply bind_Ok in Hr as (events & Ha & Hr).
  cbv zeta in Hr. apply bind_Ok in Hr as ([ch t] & Hs & Hr). apply bind_Ok in Hr as (db1 & Hrb & [= <- <-]).
  apply upsert_siblings_spec in Hs as (Hb1 & Ho1 & _ & _); [|done]. fold (siblings_of c) in *. simpl in Ho1.
  destruct (attesting_apply _ _ _ _ _ _ Hat Ha) as (e' & Hat' & Heh' & Hbytes).
  destruct (rollup_Some (with_blocks (with_events db events) t) (m_hash event) i e') as [rollup Hroll]; [done|congruence|].
  apply rebuild_spec in Hrb as (Hb2 & Ho2 & (Hev & Hsrc & _) & Hrow); [|done].
  destruct (Hrow rollup Hroll) as (rep & header & placement & orphan & Hrep & Hhd & Hpl & _ & Hl & _).
  simpl in Hpl, Hl. rewrite effective_proven in Hpl, Hl by done. clear Hrow.
  destruct placement as [[[[k h] src] comp] reason].
  eexists. split; [exact Hl|]. split_and!.
  - apply row_of_rebuilt; [done|by rewrite Hev, Hsrc|]. intros o Ho. by destruct (proj1 Hb1 _ _ Ho).
  - apply representative_spec in Hrep as (j & er & Hj & Hjh & _ & Hprev & Hby & Hall).
    assert (header = hd) as ->.
    { assert (e_header_bytes e' = m_header_bytes rep) as E.
      { apply Hall, elem_of_active. destruct Hat' as (? & ? & _). split_and!; [congruence|done|by eexists]. }
      rewrite Hbytes in E. rewrite <-E in Hhd. congruence. }
    rewrite merged_prev_hash.
    rewrite Hprev. symmetry. apply (headers_ok_apply _ _ _ _ Hho Ha j er hd Hj). congruence.
  - exists t. split; [done|]. destruct (t !! m_hash event) as [old|]; simpl.
    + rewrite status_merge_complete. destruct (coinbase c); simpl; naive_solver.
    + destruct (coinbase c); simpl; naive_solver.
Qed.

Lemma classify_trusted db ev classifier c w header c' w1 :
  classify_event_parent invalid_blocks_lookup db ev classifier (Some (trusted c)) w
    = (Ok (header, c'), w1) →
  invalid_blocks_lookup (block_hash header) = None →
  deserialize_header (m_header_bytes ev) = Some header ∧ c' = c ∧ w1 = w.
Proof.
  unfold classify_event_parent, classify_event_parent_with_policy. intros Hc Hi. st_inv.
  match goal with H : ok_or _ _ = _ |- _ => apply ok_or_Ok in H end.
  unfold resolve_parent_classification in *. rewrite Hi in *. by simplify_eq/=.
Qed.

(** A transaction with a trusted verdict, on an event that did not change while it waited. *)
Lemma reconcile_trusted before after event_id classifier c wrapper nt w changed db' w' e :
  headers_ok (rm_events after) → attesting before event_id e → attesting after event_id e →
  invalid_blocks_lookup (e_hash e) = None →
  reconcile before after event_id classifier (Some (trusted c)) wrapper nt w = (Ok (changed, db'), w') →
  ∃ event header, m_hash event = e_hash e ∧ load_event (rm_events after) event_id = Ok event ∧
    deserialize_header (e_header_bytes e) = Some header ∧ prev_blockhash header = e_prev_hash e ∧
    reconcile_locked invalid_blocks_lookup resolve_pool after event
      (effective (rm_blocks after) event header c) nt = Ok (changed, db').
Proof.
  intros Hho (Hb & _ & _ & Hpb) (Ha & _ & _ & Hpa) Hi Hr.
  apply reconcile_inv in Hr as [(_ & _ & [(ev & Hl & Hp)|(ev & Hl & Hp)])|
    (ie & ih & ic & w1 & ev & h & c' & Hlb & Hcl & Hla & _ & Hsame & _ & Hrl)].
  1-2: apply load_event_Ok in Hl as (e' & He' & _ & _ & _ & Hp'); congruence.
  destruct Hsame as [(-> & -> & ->)|[=]].
  apply load_event_Ok in Hla as Hle. destruct Hle as (e' & He' & Hh & Hpv & Hby & _).
  assert (e' = e) as -> by congruence.
  assert (deserialize_header (m_header_bytes ie) = Some ih) as Hd.
  { unfold classify_event_parent, classify_event_parent_with_policy in Hcl. st_inv.
    match goal with H : ok_or _ _ = _ |- _ => by apply ok_or_Ok in H end. }
  rewrite Hby in Hd. destruct (Hho _ _ _ Ha Hd) as [Hbh Hprev].
  apply classify_trusted in Hcl as (_ & -> & _); [|congruence].
  exists ie, ih. by split_and!.
Qed.

(** C11. Reconciling an attesting event with a proven verdict stores that verdict: the row of the
    parent has its kind, height and competitor, its counts are the aggregates of the active
    events, it links to the predecessor of the header, and every active event of the parent
    carries the verdict. *)
Theorem proven_verdict_stored before after event_id classifier c wrapper nt w changed db' w' e :
  blocks_ok (rm_blocks after) → headers_ok (rm_events after) →
  attesting before event_id e → attesting after event_id e →
  invalid_blocks_lookup (e_hash e) = None → proven_kind (kind c) = true →
  reconcile before after event_id classifier (Some (trusted c)) wrapper nt w = (Ok (changed, db'), w') →
  (∃ r, rm_blocks db' !! e_hash e = Some r ∧ row_of db' c r ∧ b_prev_hash r = e_prev_hash e ∧
        (is_Some (coinbase c) → b_coinbase_status r = Complete)) ∧
  ∀ i e', rm_events db' !! i = Some e' → e_hash e' = e_hash e → is_active e' = true →
    e_kind e' = kind c ∧ e_height e' = pc_btc_height c.
Proof.
  intros Hbk Hho Hab Haa Hi Hk Hr.
  apply (reconcile_trusted _ _ _ _ _ _ _ _ _ _ _ e) in Hr as (ev & hd & Hh & _ & Hd & Hprev & Hr); [|done..].
  assert (kind c ≠ PkUnknown) as Hu by (by destruct (kind c)). rewrite effective_proven in Hr by done. split.
  - destruct (reconcile_locked_row _ _ _ _ _ _ _ _ _ Hbk Hho Haa (eq_sym Hh) Hd Hu Hr)
      as (r & Hl & Hrow & Hp & t & _ & Hcb). rewrite <-Hh.
    exists r. split_and!; [done|done|congruence|]. intros Hc. apply Hcb. by left.
  - intros i e' Hl He Ha. unfold reconcile_locked in Hr. apply bind_Ok in Hr as (events & Hap & Hr).
    cbv zeta in Hr. apply bind_Ok in Hr as ([ch t] & Hs & Hr). apply bind_Ok in Hr as (db1 & Hrb & [= _ <-]).
    apply upsert_siblings_spec in Hs as (Hb1 & _); [|done].
    apply rebuild_spec in Hrb as (_ & _ & (Hev & _) & _); [|done]. rewrite Hev in Hl. simpl in Hl.
    apply apply_event_spec in Hap as [_ Hap]. rewrite Hap in Hl. apply fmap_Some in Hl as (e0 & _ & ->).
    unfold classification_updates in *. rewrite (bool_decide_eq_false_2 (kind c = PkUnknown)) in * by done.
    simpl in *. rewrite andb_true_r in *.
    destruct (bool_decide (e_hash e0 = m_hash ev)) eqn:E1; simpl in *.
    + destruct (is_active e0) eqn:E2; simpl in *; [|congruence]. by rewrite Hk.
    + apply bool_decide_eq_false in E1. congruence.
Qed.

(** A row whose verdict may be kept. *)
Definition proven_row (t : block_table) (r : BlockInput) : Prop :=
  b_kind r = BkCanonical ∨
  b_kind r = BkStale ∧ ∃ comp rc, b_canonical_competitor_hash r = Some comp ∧ t !! comp = Some rc ∧
                                  b_kind rc = BkCanonical.

Lemma persisted_proven t ev hd r :
  blocks_ok t → t !! m_hash ev = Some r → proven_row t r →
  ∃ c, persisted_classification_from_block invalid_blocks_lookup t ev hd = Some c ∧
    kind c ≠ PkUnknown ∧ core_attested c = b_core_attested r ∧
    block_placement c = Ok (b_kind r, b_height r, b_height_source r, b_canonical_competitor_hash r,
                            b_invalid_block_reason r).
Proof.
  intros [Ht _] Hr Hp. destruct (Ht _ _ Hr) as [_ Hchk]. destruct_chk Hchk.
  unfold persisted_classification_from_block, persisted_classification_from_hash, load_block_cascade_state.
  rewrite Hr. simpl. destruct Hp as [Hk|(Hk & comp & rc & Hc & Hrc & Hck)]; rewrite Hk in *; simpl in *.
  - eexists. split; [done|]. unfold block_placement. simpl. split_and!; [done|done|].
    repeat match goal with H : _ && _ = true |- _ => apply andb_true_iff in H as [? ?] end.
    repeat match goal with H : bool_decide _ = true |- _ => apply bool_decide_eq_true in H end.
    destruct (b_invalid_block_reason r); [done|]. by repeat match goal with H : _ = _ |- _ => rewrite H end.
  - rewrite Hc. simpl. rewrite Hrc. simpl. rewrite bool_decide_eq_true_2 by done. simpl.
    eexists. split; [done|]. unfold block_placement. simpl. split_and!; [done|done|].
    by destruct (b_invalid_block_reason r).
Qed.

(** C14. An unknown verdict never demotes: reconciling an attesting event of a parent stored as
    canonical, or as stale with a canonical competitor, keeps its kind, height, height source,
    competitor and attestation by Core. *)
Theorem unknown_never_demotes before after event_id classifier c wrapper nt w changed db' w' e r :
  blocks_ok (rm_blocks after) → headers_ok (rm_events after) →
  attesting before event_id e → attesting after event_id e →
  invalid_blocks_lookup (e_hash e) = None → kind c = PkUnknown →
  rm_blocks after !! e_hash e = Some r → proven_row (rm_blocks after) r →
  reconcile before after event_id classifier (Some (trusted c)) wrapper nt w = (Ok (changed, db'), w') →
  ∃ r', rm_blocks db' !! e_hash e = Some r' ∧ b_kind r' = b_kind r ∧ b_height r' = b_height r ∧
    b_height_source r' = b_height_source r ∧
    b_canonical_competitor_hash r' = b_canonical_competitor_hash r ∧
    b_core_attested r' = b_core_attested r.
Proof.
  intros Hbk Hho Hab Haa Hi Hk Hrow Hpr Hr.
  apply (reconcile_trusted _ _ _ _ _ _ _ _ _ _ _ e) in Hr as (ev & hd & Hh & _ & Hd & _ & Hr); [|done..].
  rewrite <-Hh in Hrow. destruct (persisted_proven _ _ hd _ Hbk Hrow Hpr) as (c' & Hpc & Hu & Hca & Hpl).
  unfold effective_classification in Hr. rewrite bool_decide_eq_true_2, Hpc in Hr by done.
  destruct (reconcile_locked_row _ _ _ _ _ _ _ _ _ Hbk Hho Haa (eq_sym Hh) Hd Hu Hr)
    as (r' & Hl & (Hpl' & Hca' & _) & _). rewrite <-Hh.
  exists r'. rewrite Hpl in Hpl'. injection Hpl' as E1 E2 E3 E4 E5. split_and!; congruence.
Qed.
End claims.

Module ReconcileSample.
Import Toy Sample BlocksSample.

Definition ev : EventRow :=
  {| e_id := 1; e_source_id := 1; e_child_height := Some 3; e_hash := block_hash header;
     e_prev_hash := prev_blockhash header; e_header_bytes := serialize_header header;
     e_header_time := 1000; e_height := None; e_kind := PkUnknown; e_pow := true;
     e_difficulty_ok := None; e_script := None; e_outputs := None; e_tx_bytes := None;
     e_discovered_at := 10; e_confirmed_at := 20; e_revoked_at := None;
     e_revocation_reason := None; e_relevance_reason := None |}.

Definition db (t : block_table) : ReadModel :=
  mkReadModel {[ 1 := ev ]} t ∅ {[ 1 := mkSource "namecoin" "auxpow" ]} ∅ (Err (Other "empty")).

Definition verdict : ParentClassification :=
  {| kind := PkCanonical; pc_btc_height := Some 7; height_source := Some HsBitcoinCore;
     prev_hash := prev_blockhash header; canonical_predecessor_header := None;
     canonical_competitor_header := None; canonical_competitor_hash := None;
     Classifier.coinbase := Some coinbase; difficulty_epoch_ok := Some true; rejection_reason := None;
     live_observed := true; core_attested := true; core_absence_attested := false;
     incomplete := false |}.

Definition run (t : block_table) (c : ParentClassification) :=
  reconcile_one_event_in_txn (λ _, None) (λ _ _, None) (db t) (db t) 1 Disabled (Some (trusted c)) None None tt.

Lemma run_Ok t c : is_ok (run t c).1 = true → ∃ changed db', run t c = (Ok (changed, db'), tt).
Proof. destruct (run t c) as [[[ch d]|e] []]; [by eexists _, _|done]. Qed.

Lemma empty_ok : blocks_ok ∅.
Proof. split; [intros h r Hl|intros h r c Hl]; by rewrite lookup_empty in Hl. Qed.
Lemma table_blocks_ok : blocks_ok table.
Proof.
  split; [exact table_wf|]. intros h r c Hl Hc. unfold table in Hl.
  apply lookup_singleton_Some in Hl as [_ <-]. discriminate Hc.
Qed.
Lemma events_wf : events_ok {[ 1 := ev ]}.
Proof. intros i e Hl. apply lookup_singleton_Some in Hl as [<- <-]. split; reflexivity. Qed.
Lemma headers_wf : headers_ok {[ 1 := ev ]}.
Proof.
  intros i e hd Hl Hd. apply lookup_singleton_Some in Hl as [<- <-].
  assert (deserialize_header (serialize_header header) = Some header) as E by (vm_compute; reflexivity).
  change (deserialize_header (serialize_header header) = Some hd) in Hd. rewrite E in Hd.
  injection Hd as <-. split; reflexivity.
Qed.
Lemma attests t : attesting (db t) 1 ev.
Proof. split_and!; [reflexivity|reflexivity|by eexists|reflexivity]. Qed.

Lemma reconcile_locks_and_reports_witness :
  ∃ changed db', run ∅ verdict = (Ok (changed, db'), tt) ∧ block_hash header ∈ changed ∧
    blocks_ok (rm_blocks db').
Proof.
  destruct (run_Ok ∅ verdict) as (changed & db' & Hr); [vm_compute; reflexivity|].
  destruct (reconcile_locks_and_reports (λ _, None) (λ _ _, None) (db ∅) (db ∅) 1 Disabled (Some (trusted verdict)) None
    None tt changed db' tt empty_ok events_wf Hr) as (Hb & _ & Hc & _).
  exists changed, db'. split; [exact Hr|]. split; [|exact Hb]. apply Hc.
  assert ((load_block_cascade_state (rm_blocks (db ∅)) (block_hash header) = None) ∧
          is_some (d ← result_ok (run ∅ verdict).1; load_block_cascade_state (rm_blocks d.2) (block_hash header)) = true)
    as [E1 E2] by (vm_compute; split; reflexivity).
  rewrite Hr in E2. rewrite E1. intros E.
  change (is_some (load_block_cascade_state (rm_blocks db') (block_hash header)) = true) in E2.
  rewrite <-E in E2. discriminate E2.
Defined.

Lemma proven_verdict_stored_witness :
  ∃ changed db' r, run ∅ verdict = (Ok (changed, db'), tt) ∧
    rm_blocks db' !! block_hash header = Some r ∧ row_of db' verdict r ∧ b_coinbase_status r = Complete.
Proof.
  destruct (run_Ok ∅ verdict) as (changed & db' & Hr); [vm_compute; reflexivity|].
  destruct (proven_verdict_stored (λ _, None) (λ _ _, None) (db ∅) (db ∅) 1 Disabled verdict None
    None tt changed db' tt ev empty_ok headers_wf (attests ∅) (attests ∅)
    eq_refl eq_refl Hr) as [(r & Hl & Hrow & _ & Hc) _].
  exists changed, db', r. split_and!; [exact Hr|exact Hl|exact Hrow|]. apply Hc. by eexists.
Defined.

Lemma unknown_never_demotes_witness :
  ∃ changed db' r', run table (unknown header) = (Ok (changed, db'), tt) ∧
    rm_blocks db' !! block_hash header = Some r' ∧ b_kind r' = BkCanonical ∧ b_height r' = Some 7.
Proof.
  destruct (run_Ok table (unknown header)) as (changed & db' & Hr); [vm_compute; reflexivity|].
  destruct (unknown_never_demotes (λ _, None) (λ _ _, None) (db table) (db table) 1 Disabled (unknown header) None
    None tt changed db' tt ev stored table_blocks_ok headers_wf
    (attests table) (attests table) eq_refl eq_refl) as (r' & Hl & Hk & Hh & _); [| |exact Hr|].
  - vm_compute. reflexivity.
  - left. reflexivity.
  - exists changed, db', r'. split_and!; [exact Hr|exact Hl|exact Hk|exact Hh].
Defined.
End ReconcileSample.
