(* ===== verification/CoreSuffix.v ===== *)
(** * Replacing a canonical suffix

    Models [crates/mmm-read-model/src/mutation/core_suffix.rs]: the atomic
    replacement of the canonical rows above a common ancestor by a fetched chain.
    The displaced rows become stale (through the reconciler when an event anchors
    them), the seeds of the cascade are queued, and the cursor and the pending status
    are stored, all in one transaction under the exclusive barrier. *)

From stdpp Require Import sorting.
From S2P Require Import Prelude BitcoinLib Effects Errors Nbits Lineage Classifier LiveLoop Poller Blocks SyncState CoreQueue Backbone Events Reconcile.

Record CoreCanonicalReplacement := mkReplacement {
  cr_height : Z;
  cr_header : Header;
  cr_coinbase : BitcoinCoreBlockCoinbase;
}.

Record ExpectedCoreCanonicalRow := mkExpected {
  ex_height : Z;
  ex_hash : bytes;
  ex_prev_hash : bytes;
}.
#[global] Instance Expected_eq_dec : EqDecision ExpectedCoreCanonicalRow.
Proof. solve_decision. Defined.

Record CoreSuffixReplacementSummary := mkSummary {
  sm_common_ancestor_height : Z;
  sm_replaced_from_height : Z;
  sm_replaced_through_height : Z;
  sm_displaced_blocks : Z;
  sm_queued_hashes : Z;
}.

Record CoreSuffixReplacementInput := mkSuffixInput {
  in_expected_local : list ExpectedCoreCanonicalRow;
  in_replacements : list CoreCanonicalReplacement;
  in_pending_sync_target : option (Z * bytes);
}.

(** A locked row is the stored row; [LockedCanonicalRow::expected] and [coinbase]. *)
Definition locked_expected (r : BlockInput) : ExpectedCoreCanonicalRow :=
  mkExpected (default 0 (b_height r)) (b_hash r) (b_prev_hash r).
Definition locked_coinbase (r : BlockInput) : option BitcoinCoreBlockCoinbase :=
  txid ← b_coinbase_txid r;
  script ← b_coinbase_script r;
  outputs ← b_coinbase_outputs r;
  Some (mkBlockCoinbase txid script outputs).

Record SuffixMutationPlan := mkPlan {
  replacement_hashes : gmap Z bytes;
  displaced : list BlockInput;
  affected_hashes : list bytes;
}.

(** The tables one transaction of the replacement writes. *)
Record SuffixDb := mkSuffixDb {
  sx_model : ReadModel;
  sx_sync : option SyncStateRow;
  sx_queue : queue;
}.

(** ** Validation *)

Section validation.
Context `{BitcoinLib}.

(** [replacements.windows(2)]. *)
Fixpoint linked_pairs (rs : list CoreCanonicalReplacement) : result anyhow unit :=
  match rs with
  | a :: ((b :: _) as rest) =>
      _ ← ensure (cr_height b =? cr_height a + 1) (Other "replacement suffix is not height-contiguous");
      _ ← ensure (bool_decide (prev_blockhash (cr_header b) = block_hash (cr_header a)))
            (Other "replacement suffix header link mismatch");
      linked_pairs rest
  | _ => Ok ()
  end.

Definition validate_replacement (common_ancestor_height : Z)
    (expected_local : list ExpectedCoreCanonicalRow) (replacements : list CoreCanonicalReplacement)
    : result anyhow unit :=
  match replacements with
  | [] => Err (Other "Bitcoin Core canonical suffix replacement must not be empty")
  | first :: _ =>
      expected_first ← ok_or (Other "Bitcoin Core suffix common ancestor height overflow")
                         (checked_add_i32 common_ancestor_height 1);
      _ ← ensure (cr_height first =? expected_first) (Other "replacement suffix starts at the wrong height");
      _ ← linked_pairs replacements;
      match filter (λ row, ex_height row = common_ancestor_height) expected_local with
      | [ancestor] =>
          _ ← ensure (bool_decide (ex_hash ancestor = prev_blockhash (cr_header first)))
                (Other "replacement suffix does not link to the expected local common ancestor");
          ensure (forallb (λ row, (length (ex_hash row) =? 32)%nat && (length (ex_prev_hash row) =? 32)%nat)
                    expected_local)
            (Other "expected local canonical hashes must be 32 bytes")
      | _ => Err (Other "expected local view must contain exactly one common-ancestor row")
      end
  end.

(** [sort_by] of (height, hash). *)
Definition expected_le (a b : ExpectedCoreCanonicalRow) : Prop :=
  ex_height a < ex_height b ∨ ex_height a = ex_height b ∧ bytes_le (ex_hash a) (ex_hash b).
#[global] Instance expected_le_dec a b : Decision (expected_le a b).
Proof. unfold expected_le. apply _. Defined.

Definition normalized_expected_suffix (expected : list ExpectedCoreCanonicalRow) (from through : Z)
    : list ExpectedCoreCanonicalRow :=
  merge_sort expected_le (filter (λ row, from ≤ ex_height row ≤ through) expected).

Definition verify_expected_rows (current : list BlockInput) (expected : list ExpectedCoreCanonicalRow)
    : result anyhow unit :=
  ensure (bool_decide (locked_expected <$> current = expected))
    (Other "local canonical suffix changed while Bitcoin Core replacement was being fetched").

Definition plan_suffix_mutation (current : list BlockInput) (replacements : list CoreCanonicalReplacement)
    : SuffixMutationPlan :=
  let hashes := map_collect ((λ r, (cr_height r, block_hash (cr_header r))) <$> replacements) in
  let first_height := default 0 (cr_height <$> head replacements) in
  let gone := filter (λ r, first_height ≤ default 0 (b_height r) ∧
                           hashes !! default 0 (b_height r) ≠ Some (b_hash r)) current in
  {| replacement_hashes := hashes; displaced := gone;
     affected_hashes := sort_dedup ((map_to_list hashes).*2 ++ (b_hash <$> gone)) |}.

Definition lock_and_verify_sync_state (s : option SyncStateRow) (expected_cch : Z) : result anyhow Z :=
  row ← ok_or (Other "Bitcoin Core contiguous sync state is missing") s;
  _ ← ensure (contiguous_complete_height row =? expected_cch)
        (Other "Bitcoin Core sync cursor changed while planning suffix replacement");
  mret (contiguous_complete_height row).
End validation.

(** ** The mutation *)

Section mutation.
Context `{BitcoinLib} {W : Type} `{CoreHeaderSource W} `{Clock W}.
Context (invalid_blocks_lookup : bytes → option InvalidBlock).
Context (resolve_pool : bytes → option bytes → option Z).

#[local] Abbreviation rM := (stM W anyhow).

(** [reconcile_one_event_in_txn] inside the replacement: its tables do not move. *)
Definition reconcile_within (db : ReadModel) (event_id : Z) (c : ParentClassification) : rM ReadModel :=
  '(_, db) ← reconcile_one_event_in_txn invalid_blocks_lookup resolve_pool db db event_id Disabled
               (Some (trusted c)) None None;
  mret db.

Definition displaced_verdict (old : BlockInput) (competitor : bytes) : ParentClassification :=
  {| kind := PkStale; pc_btc_height := Some (default 0 (b_height old)); height_source := Some HsBitcoinCore;
     prev_hash := b_prev_hash old; canonical_predecessor_header := None;
     canonical_competitor_header := None; canonical_competitor_hash := Some competitor;
     coinbase := locked_coinbase old; difficulty_epoch_ok := Some true; rejection_reason := None;
     live_observed := true; core_attested := true; core_absence_attested := false;
     incomplete := false |}.

Definition demote_displaced_parent (db : ReadModel) (old : BlockInput) (competitor : bytes) : rM ReadModel :=
  match find_anchor_event_for_block (rm_events db) (b_hash old) with
  | Some event_id => reconcile_within db event_id (displaced_verdict old competitor)
  | None =>
      t ← lift (demote_unanchored (rm_blocks db) (b_hash old) (default 0 (b_height old)) competitor);
      mret (with_blocks db t)
  end.

Definition replacement_verdict (r : CoreCanonicalReplacement) : ParentClassification :=
  {| kind := PkCanonical; pc_btc_height := Some (cr_height r); height_source := Some HsBitcoinCore;
     prev_hash := prev_blockhash (cr_header r); canonical_predecessor_header := None;
     canonical_competitor_header := None; canonical_competitor_hash := None;
     coinbase := Some (cr_coinbase r); difficulty_epoch_ok := Some true; rejection_reason := None;
     live_observed := true; core_attested := true; core_absence_attested := false;
     incomplete := false |}.

Definition reconcile_replacement_parent (db : ReadModel) (r : CoreCanonicalReplacement) : rM ReadModel :=
  match find_anchor_event_for_block (rm_events db) (block_hash (cr_header r)) with
  | None => mret db
  | Some event_id => reconcile_within db event_id (replacement_verdict r)
  end.

Definition upsert_replacement (db : ReadModel) (r : CoreCanonicalReplacement) : rM ReadModel :=
  t ← lift (upsert_core_canonical_header_with_coinbase (resolve_core_coinbase_pool_id resolve_pool)
              (rm_blocks db) (cr_header r) (cr_height r) (Some (cr_coinbase r)));
  mret (with_blocks db t).

Definition demote_and_rebind (plan : SuffixMutationPlan) (db : ReadModel) (old : BlockInput) : rM ReadModel :=
  competitor ← lift (ok_or (Other "replacement competitor missing for displaced canonical block")
                       (replacement_hashes plan !! default 0 (b_height old)));
  db ← demote_displaced_parent db old competitor;
  t ← lift (rebind_stale_competitors (rm_blocks db) (default 0 (b_height old)) (b_hash old) competitor);
  mret (with_blocks db t).

(** The three loops, one after the other. *)
Fixpoint for_each {A} (f : ReadModel → A → rM ReadModel) (l : list A) (db : ReadModel) : rM ReadModel :=
  match l with
  | [] => mret db
  | x :: l => db ← f db x; for_each f l db
  end.

Definition apply_suffix_mutation (replacements : list CoreCanonicalReplacement)
    (plan : SuffixMutationPlan) (db : ReadModel) : rM ReadModel :=
  db ← for_each upsert_replacement replacements db;
  db ← for_each (demote_and_rebind plan) (displaced plan) db;
  for_each reconcile_replacement_parent replacements db.

(** [now] stamps the queued rows. A failure at any point leaves [db] as it was. *)
Definition replace_core_canonical_suffix_validated (hex : bytes → string) (now : Z) (db : SuffixDb)
    (expected_contiguous_complete_height common_ancestor_height : Z) (input : CoreSuffixReplacementInput)
    (validate_before validate_after : rM unit) : rM (CoreSuffixReplacementSummary * SuffixDb) :=
  let replacements := in_replacements input in
  _ ← lift (validate_replacement common_ancestor_height (in_expected_local input) replacements);
  match head replacements, last replacements with
  | Some first, Some target =>
      let target_tip_height := cr_height target in
      let target_tip_hash := block_hash (cr_header target) in
      let '(sync_height, sync_hash) :=
        default (target_tip_height, target_tip_hash) (in_pending_sync_target input) in
      _ ← guardM (negb ((sync_height <? target_tip_height)
                        || (sync_height =? target_tip_height) && negb (bool_decide (sync_hash = target_tip_hash))))
            (Other "Bitcoin Core pending sync target does not cover replacement target");
      let expected_suffix := normalized_expected_suffix (in_expected_local input)
                               common_ancestor_height target_tip_height in
      _ ← validate_before;
      cch ← lift (lock_and_verify_sync_state (sx_sync db) expected_contiguous_complete_height);
      let current := canonical_rows_between (rm_blocks (sx_model db)) common_ancestor_height target_tip_height in
      _ ← lift (verify_expected_rows current expected_suffix);
      let plan := plan_suffix_mutation current replacements in
      model ← apply_suffix_mutation replacements plan (sx_model db);
      q ← lift (enqueue_core_reconcile_hashes now (sx_queue db) (affected_hashes plan) true);
      let next_cch := if common_ancestor_height <=? cch then target_tip_height else cch in
      let pending := {| rp_contiguous_complete_height := next_cch;
                        rp_common_ancestor_height := common_ancestor_height;
                        rp_first_height := cr_height first;
                        rp_target_tip_height := target_tip_height;
                        rp_target_tip_hash := target_tip_hash;
                        rp_sync_target_tip_height := sync_height;
                        rp_sync_target_tip_hash := sync_hash;
                        rp_displaced_blocks := Z.of_nat (length (displaced plan));
                        rp_queued_hashes := Z.of_nat (length (affected_hashes plan)) |} in
      row ← lift (ok_or (Other "Bitcoin Core contiguous sync state is missing") (sx_sync db));
      row ← lift (mark_replacement_pending hex row pending);
      _ ← validate_after;
      mret ({| sm_common_ancestor_height := common_ancestor_height;
               sm_replaced_from_height := cr_height first;
               sm_replaced_through_height := target_tip_height;
               sm_displaced_blocks := Z.of_nat (length (displaced plan));
               sm_queued_hashes := Z.of_nat (length (affected_hashes plan)) |},
            mkSuffixDb model (Some row) q)
  | _, _ => throw (Other "Bitcoin Core canonical suffix replacement must not be empty")
  end.
End mutation.

(** ** Reconciling inside the replacement *)

(** What a reconcile keeps of an event. *)
Definition event_core (e : EventRow) :=
  (e_id e, e_source_id e, e_child_height e, e_hash e, e_prev_hash e, e_header_bytes e, e_pow e, e_revoked_at e).
Definition same_core (t t' : event_table) : Prop := ∀ i, event_core <$> t' !! i = event_core <$> t !! i.

#[global] Instance same_core_preorder : PreOrder same_core.
Proof. split; [by intros t i|]. intros t1 t2 t3 Ht1 Ht2 i. by rewrite Ht2. Qed.

Lemma same_core_lookup t t' i e' :
  same_core t t' → t' !! i = Some e' → ∃ e, t !! i = Some e ∧ event_core e = event_core e'.
Proof.
  intros Hs Hi. specialize (Hs i). rewrite Hi in Hs. symmetry in Hs.
  apply fmap_Some in Hs as (e & He & Heq). eauto.
Qed.

(** The evidence a replacement relies on: ids, sources and headers of events agree, and the
    events of a block in [canon] carry its proof of work. *)
Record evidence_ok `{BitcoinLib} (prev_of : bytes → bytes) (canon : bytes → Prop) (db : ReadModel) : Prop := mkEvidence {
  ev_events : events_ok (rm_events db);
  ev_headers : headers_ok (rm_events db);
  ev_prev : ∀ i e, rm_events db !! i = Some e → e_prev_hash e = prev_of (e_hash e);
  ev_sources : ∀ i e, rm_events db !! i = Some e → is_Some (rm_sources db !! e_source_id e);
  ev_pow : ∀ i e, rm_events db !! i = Some e → is_active e = true → canon (e_hash e) → e_pow e = true;
}.

Lemma evidence_same `{BitcoinLib} prev_of canon db db' :
  evidence_ok prev_of canon db → events_ok (rm_events db') → same_core (rm_events db) (rm_events db') →
  rm_sources db' = rm_sources db → evidence_ok prev_of canon db'.
Proof.
  intros [He Hh Hpv Hs Hp] He' Hc Hsrc. split; [done|..].
  - intros i e' hd Hi Hd. destruct (same_core_lookup _ _ _ _ Hc Hi) as (e & Hie & [=]).
    replace (e_hash e') with (e_hash e) by done. replace (e_prev_hash e') with (e_prev_hash e) by done.
    apply (Hh i e hd Hie). congruence.
  - intros i e' Hi. destruct (same_core_lookup _ _ _ _ Hc Hi) as (e & Hie & [=]). specialize (Hpv _ _ Hie). congruence.
  - intros i e' Hi. destruct (same_core_lookup _ _ _ _ Hc Hi) as (e & Hie & [=]).
    rewrite Hsrc. replace (e_source_id e') with (e_source_id e) by done. by eapply Hs.
  - intros i e' Hi Ha Hcan. destruct (same_core_lookup _ _ _ _ Hc Hi) as (e & Hie & [=]).
    replace (e_pow e') with (e_pow e) by done. apply (Hp i e Hie).
    + unfold is_active in *. congruence.
    + congruence.
Qed.

Lemma apply_event_core t event c t' : apply_event_classification t event c = Ok t' → same_core t t'.
Proof.
  intros (_ & Hl)%apply_event_spec i. rewrite Hl. destruct (t !! i) as [e|]; [|done]. simpl.
  by destruct (classification_updates _ _ _).
Qed.

Definition rebound (h : Z) (gone c : bytes) (r : BlockInput) : BlockInput :=
  if rebinds h gone r then set_competitor r c else r.

Lemma rebind_blocks t h gone c t' :
  blocks_ok t → rebind_stale_competitors t h gone c = Ok t' →
  blocks_ok t' ∧ ∀ k, t' !! k = rebound h gone c <$> t !! k.
Proof.
  intros [Ht Hr] Hb. pose proof Hb as (Hchk & Heq)%rebind_spec. split; [|intros k; by rewrite Heq, lookup_fmap].
  unfold rebind_stale_competitors in Hb. apply bind_Ok in Hb as ([] & _ & Hb).
  apply bind_Ok in Hb as ([] & Hf & _). apply ensure_Ok, orb_true_iff in Hf.
  split.
  - intros k r Hl. split; [|by eapply Hchk]. rewrite Heq, lookup_fmap in Hl.
    apply fmap_Some in Hl as (r0 & Hl & ->). destruct (Ht _ _ Hl) as [<- _]. by destruct (rebinds _ _ _).
  - intros k r comp Hl Hc. rewrite Heq, lookup_fmap in Hl. apply fmap_Some in Hl as (r0 & Hl & ->).
    rewrite Heq, lookup_fmap, fmap_is_Some. destruct (rebinds h gone r0) eqn:Er.
    + simpl in Hc. simplify_eq. destruct Hf as [Hf|Hf]; [|by apply is_some_true].
      apply bool_decide_eq_true in Hf. specialize (Hf _ _ Hl). simpl in Hf. congruence.
    + by eapply Hr.
Qed.

(** A row through the rebinds of a list of displaced rows. *)
Definition rebound_for (plan : SuffixMutationPlan) (r old : BlockInput) : BlockInput :=
  match b_height old ≫= λ h, (h,.) <$> replacement_hashes plan !! h with
  | Some (h, c) => rebound h (b_hash old) c r
  | None => r
  end.

Lemma rebound_for_at plan r old h c : b_height old = Some h → replacement_hashes plan !! h = Some c →
  rebound_for plan r old = rebound h (b_hash old) c r.
Proof. intros Hh Hc. unfold rebound_for. rewrite Hh. simpl. by rewrite Hc. Qed.

Lemma rebound_for_none plan ds r :
  (∀ old h, old ∈ ds → b_height old = Some h → rebinds h (b_hash old) r = false) → foldl (rebound_for plan) r ds = r.
Proof.
  induction ds as [|old ds IH]; intros Hr; [done|]. simpl.
  assert (rebound_for plan r old = r) as ->; [|apply IH; intros o h Ho; apply Hr; by right].
  unfold rebound_for. destruct (b_height old) as [h|] eqn:Hh; [simpl|done].
  destruct (replacement_hashes plan !! h) as [c|]; [simpl|done]. unfold rebound.
  by rewrite (Hr old h (list_elem_of_here _ _) Hh).
Qed.

Lemma rebinds_true h gone r : rebinds h gone r = true ↔
  b_kind r = BkStale ∧ b_height r = Some h ∧ b_canonical_competitor_hash r = Some gone.
Proof. unfold rebinds. rewrite !andb_true_iff, !bool_decide_eq_true. tauto. Qed.

Lemma rebound_for_one plan ds r old h c :
  (∀ h c, replacement_hashes plan !! h = Some c → c ∉ b_hash <$> ds) →
  old ∈ ds → b_height old = Some h → replacement_hashes plan !! h = Some c → rebinds h (b_hash old) r = true →
  foldl (rebound_for plan) r ds = set_competitor r c.
Proof.
  intros Hpl Hold Hh Hc Hr. induction ds as [|o ds IH]; [set_solver|]. simpl.
  destruct (from_option (λ h', rebinds h' (b_hash o) r) false (b_height o)) eqn:Ho.
  - destruct (b_height o) as [h'|] eqn:Hh'; [|done]. simpl in Ho. rename Ho into Hr'. apply rebinds_true in Hr as (_ & Hrh & Hrc). pose proof Hr' as (_ & Hrh' & Hrc')%rebinds_true.
    assert (h' = h) as -> by congruence. rewrite (rebound_for_at _ _ _ h c) by done. unfold rebound. rewrite Hr'.
    apply rebound_for_none. intros o' h' Ho' _. apply not_true_iff_false. intros (_ & _ & [= ->])%rebinds_true.
    apply (Hpl _ _ Hc). csimpl. right. by apply list_elem_of_fmap_2.
  - assert (rebound_for plan r o = r) as ->.
    { apply (rebound_for_none plan [o]). intros o' h' ->%list_elem_of_singleton Ho'. by rewrite Ho' in Ho. }
    apply IH; [set_solver|]. apply elem_of_cons in Hold as [->|Hold]; [|done]. rewrite Hh in Ho. simpl in Ho. congruence.
Qed.

Lemma rebound_for_kind plan ds r : b_kind (foldl (rebound_for plan) r ds) = b_kind r.
Proof.
  revert r. induction ds as [|o ds IH]; intros r; [done|]. simpl. rewrite IH. unfold rebound_for.
  destruct (_ ≫= _) as [[h c]|]; [|done]. unfold rebound. by destruct (rebinds _ _ _).
Qed.

Lemma rebound_for_canonical plan ds r : b_kind r = BkCanonical → foldl (rebound_for plan) r ds = r.
Proof.
  intros Hk. apply rebound_for_none. intros o h _ _. apply not_true_iff_false. intros (Hs & _)%rebinds_true. congruence.
Qed.

Section within.
Context `{BitcoinLib} {W : Type} `{CoreHeaderSource W} `{Clock W}.
Context (invalid_blocks_lookup : bytes → option InvalidBlock).
Context (resolve_pool : bytes → option bytes → option Z).
(** The height and the predecessor a block hash commits to. *)
Context (height_of : bytes → Z) (prev_of : bytes → bytes).

Lemma reconcile_locked_tables db event c nt changed db' :
  blocks_ok (rm_blocks db) →
  reconcile_locked invalid_blocks_lookup resolve_pool db event c nt = Ok (changed, db') →
  same_core (rm_events db) (rm_events db') ∧ rm_sources db' = rm_sources db.
Proof.
  intros Hb Hr. unfold reconcile_locked in Hr. apply bind_Ok in Hr as (events & Ha & Hr).
  cbv zeta in Hr. apply bind_Ok in Hr as ([ch t] & Hs & Hr). apply bind_Ok in Hr as (db1 & Hrb & [= _ <-]).
  apply upsert_siblings_spec in Hs as (Hb1 & _); [|done].
  apply rebuild_spec in Hrb as (_ & _ & (Hev & Hsrc & _) & _); [|done].
  rewrite Hev, Hsrc. split; [by eapply apply_event_core|done].
Qed.

Lemma reconcile_within_spec canon db event_id c w db' w' e :
  blocks_ok (rm_blocks db) → evidence_ok prev_of canon db →
  rm_events db !! event_id = Some e → is_active e = true →
  invalid_blocks_lookup (e_hash e) = None → proven_kind (kind c) = true → siblings_of c = [] →
  reconcile_within invalid_blocks_lookup resolve_pool db event_id c w = (Ok db', w') →
  blocks_ok (rm_blocks db') ∧ evidence_ok prev_of canon db' ∧
  only_at [e_hash e] (rm_blocks db) (rm_blocks db') ∧
  (e_pow e = false → db' = db) ∧
  (e_pow e = true → ∃ r, rm_blocks db' !! e_hash e = Some r ∧ row_of db' c r ∧
     b_prev_hash r = prev_of (e_hash e) ∧
     (is_Some (coinbase c) → b_coinbase_status r = Complete)).
Proof.
  intros Hb Hev Hi Ha Hlk Hk Hsib Hr. unfold reconcile_within in Hr. st_inv.
  match goal with H : (let '(_, _) := ?p in _) _ = _ |- _ => destruct p as [changed d] end. st_inv.
  match goal with H : reconcile_one_event_in_txn _ _ _ _ _ _ _ _ _ _ = _ |- _ => rename H into Hr end.
  destruct (e_pow e) eqn:Hpow.
  - assert (attesting db event_id e) as Hat by (split_and!; [done|done|by eapply ev_sources|done]).
    destruct (reconcile_trusted _ _ _ _ _ _ _ _ _ _ _ _ _ _ (ev_headers _ _ _ Hev) Hat Hat Hlk Hr)
      as (ev & hd & Hh & _ & Hd & Hprev & Hl).
    assert (kind c ≠ PkUnknown) as Hu by (by destruct (kind c)). rewrite effective_proven in Hl by done.
    destruct (reconcile_locked_row _ _ _ _ _ _ _ _ _ _ _ Hb (ev_headers _ _ _ Hev) Hat (eq_sym Hh) Hd Hu Hl)
      as (r & Hrl & Hrow & Hp & t & _ & Hcb).
    destruct (reconcile_locked_tables _ _ _ _ _ _ Hb Hl) as [Hcore Hsrc].
    destruct (reconcile_locked_spec _ _ _ _ _ _ _ _ Hb Hl) as (Hb' & He' & Ho & _ & _).
    rewrite Hsib in Ho. simpl in Ho. rewrite Hh in Ho, Hrl.
    split_and!; [done|eapply evidence_same; [done|apply He', Hev|done|done]|done|done|].
    intros _. exists r. split_and!; [done|done| |intros Hc; apply Hcb; by left].
    rewrite Hp, Hprev. by apply (ev_prev _ _ _ Hev event_id).
  - apply reconcile_inv in Hr as [(_ & -> & _)|(ie & ih & ic & w1 & ev & h & c' & _ & _ & Hla & Hpw & _)].
    + split_and!; [done|done|apply only_at_refl|done|done].
    + apply load_event_Ok in Hla as (e' & He' & _ & _ & _ & Hp'). congruence.
Qed.

Lemma find_anchor_Some t hash i :
  events_ok t → find_anchor_event_for_block t hash = Some i →
  ∃ e, t !! i = Some e ∧ is_active e = true ∧ e_hash e = hash.
Proof.
  intros Ht Hf. unfold find_anchor_event_for_block in Hf. apply fmap_Some in Hf as (e & Hf & ->).
  apply first_event_in, elem_of_active in Hf as (Hh & Ha & i & Hi). destruct (Ht _ _ Hi) as [<- _]. eauto.
Qed.

(** ** The three loops *)

Definition rep_hash (rep : CoreCanonicalReplacement) : bytes := block_hash (cr_header rep).
Definition rep_true (rep : CoreCanonicalReplacement) : Prop :=
  cr_height rep = height_of (rep_hash rep) ∧ prev_blockhash (cr_header rep) = prev_of (rep_hash rep).

(** A stored canonical row has the height its hash commits to. *)
Definition heights_true (t : block_table) : Prop :=
  ∀ k r, t !! k = Some r → b_kind r = BkCanonical → b_height r = Some (height_of k).

Definition is_replacement (t : block_table) (rep : CoreCanonicalReplacement) : Prop :=
  ∃ r, t !! rep_hash rep = Some r ∧ b_kind r = BkCanonical ∧ b_height r = Some (cr_height rep) ∧
       is_complete r = true ∧ b_prev_hash r = prev_blockhash (cr_header rep).

Lemma is_replacement_same t rep rep' :
  rep_true rep → rep_true rep' → rep_hash rep = rep_hash rep' → is_replacement t rep → is_replacement t rep'.
Proof.
  intros Ht Ht' Hh (r & Hr & Hk & Hht & Hc & Hp). exists r. unfold rep_true in *.
  destruct Ht, Ht'.
  split_and!; congruence.
Qed.

Lemma is_replacement_frame t t' hs rep :
  only_at hs t t' → rep_hash rep ∉ hs → is_replacement t rep → is_replacement t' rep.
Proof. intros Ho Hn (r & Hr & Hrest). exists r. by rewrite Ho. Qed.

Lemma upsert_replacement_spec db rep (w : W) db' w' :
  blocks_ok (rm_blocks db) → heights_true (rm_blocks db) → rep_true rep →
  upsert_replacement resolve_pool db rep w = (Ok db', w') →
  ∃ t, db' = with_blocks db t ∧ blocks_ok t ∧ heights_true t ∧ is_replacement t rep ∧
       only_at [rep_hash rep] (rm_blocks db) t.
Proof.
  intros Hb Hht Hrt Hu. unfold upsert_replacement in Hu. st_inv. rename x into t.
  match goal with H : upsert_core_canonical_header_with_coinbase _ _ _ _ _ = _ |- _ => rename H into Hu end.
  exists t. split; [done|].
  destruct (upsert_blocks _ _ _ _ Hb Hu) as (Hb' & Ho & _).
  pose proof (synthesized_upsert_spec (resolve_core_coinbase_pool_id resolve_pool) (rm_blocks db)
    (mkClassifiedHeader (block_hash (cr_header rep)) (prev_blockhash (cr_header rep)) (cr_header rep)
       (cr_height rep) (Some (cr_coinbase rep)) false) (proj1 Hb)) as Hs.
  unfold upsert_core_canonical_header_with_coinbase in Hu. rewrite Hu in Hs.
  destruct Hs as (_ & _ & r & Hr & Hk & Hp & _ & _ & _ & Hh & Hc). simpl in *.
  assert (b_height r = Some (cr_height rep)) as Hh'.
  { rewrite Hh. destruct (rm_blocks db !! _) as [old|] eqn:Ho'; [|done].
    case_bool_decide; [|done]. rewrite (Hht _ _ Ho') by done. by rewrite (proj1 Hrt). }
  split_and!; [done| | |done].
  - intros k r' Hr' Hk'. destruct (decide (k = rep_hash rep)) as [->|Hne].
    + unfold rep_hash in Hr'. rewrite Hr in Hr'. simplify_eq. by rewrite Hh', (proj1 Hrt).
    + rewrite Ho in Hr'; [by apply Hht|]. set_solver.
  - exists r. split_and!; try done. unfold is_complete. apply bool_decide_eq_true_2.
    by destruct (Hc (cr_coinbase rep)).
Qed.

Lemma upserts_spec rs db (w : W) db' w' :
  blocks_ok (rm_blocks db) → heights_true (rm_blocks db) → Forall rep_true rs →
  for_each (upsert_replacement resolve_pool) rs db w = (Ok db', w') →
  ∃ t, db' = with_blocks db t ∧ blocks_ok t ∧ heights_true t ∧ Forall (is_replacement t) rs ∧
       only_at (rep_hash <$> rs) (rm_blocks db) t.
Proof.
  revert db w. induction rs as [|rep rs IH]; intros db w Hb Hht Hrt; simpl.
  - intros Hf. st_inv. exists (rm_blocks db). by destruct db.
  - intros Hf. apply Forall_cons in Hrt as [Hr1 Hr2]. st_inv.
    match goal with H : upsert_replacement _ _ _ _ = _ |- _ =>
      apply upsert_replacement_spec in H as (t1 & -> & Hb1 & Hh1 & Hi1 & Ho1); [|done..] end.
    match goal with H : for_each _ _ _ _ = _ |- _ =>
      apply IH in H as (t & -> & Hb2 & Hh2 & Hi2 & Ho2); [|done..] end.
    exists t. split_and!; [done|done|done| |].
    + constructor; [|done]. destruct (decide (rep_hash rep ∈ rep_hash <$> rs)) as [Hin|Hout].
      * apply list_elem_of_fmap in Hin as (rep' & Heq & Hin). rewrite Forall_forall in Hr2, Hi2.
        apply (is_replacement_same _ rep'); [by apply Hr2|done|done|by apply Hi2].
      * by eapply is_replacement_frame.
    + apply (only_at_trans [rep_hash rep] (rep_hash <$> rs) _ t1); done.
Qed.

(** A displaced row, once it is demoted in favour of [c]. *)
Definition is_demoted (t : block_table) (old : BlockInput) (h : Z) (c : bytes) : Prop :=
  ∃ r, t !! b_hash old = Some r ∧ b_kind r = BkStale ∧ b_height r = Some h ∧
       b_canonical_competitor_hash r = Some c.

Lemma demote_spec canon db old (w : W) db' w' h c :
  blocks_ok (rm_blocks db) → evidence_ok prev_of canon db → canon (b_hash old) →
  invalid_blocks_lookup (b_hash old) = None → b_height old = Some h → is_Some (rm_blocks db !! b_hash old) →
  demote_displaced_parent invalid_blocks_lookup resolve_pool db old c w = (Ok db', w') →
  blocks_ok (rm_blocks db') ∧ evidence_ok prev_of canon db' ∧ only_at [b_hash old] (rm_blocks db) (rm_blocks db') ∧
  is_demoted (rm_blocks db') old h c.
Proof.
  intros Hb Hev Hcan Hlk Hh [r0 Hr0] Hd. unfold demote_displaced_parent in Hd. rewrite Hh in Hd.
  destruct (find_anchor_event_for_block _ _) as [i|] eqn:Hf.
  - apply find_anchor_Some in Hf as (e & Hi & Ha & He); [|apply Hev].
    apply (reconcile_within_spec canon _ _ _ _ _ _ e) in Hd as (Hb' & Hev' & Ho & _ & Hrow); [|try done; congruence..].
    rewrite He in *. destruct Hrow as (r & Hr & (Hpl & _) & _).
    { apply (ev_pow _ _ _ Hev i e Hi Ha). by rewrite He. }
    unfold block_placement, displaced_verdict in Hpl. simpl in Hpl. rewrite Hh in Hpl. simpl in Hpl.
    injection Hpl as E1 E2 E3 E4 E5.
    split_and!; [done..|]. exists r. by split_and!.
  - st_inv. rename x into t.
    match goal with H : demote_unanchored _ _ _ _ = _ |- _ => rename H into Hd end.
    unfold demote_unanchored in Hd. rewrite Hr0 in Hd. apply store_row_blocks in Hd as (Hb' & Ho & Hl); [|done].
    destruct (proj1 Hb _ _ Hr0) as [Hhash _]. simpl in *. rewrite Hhash in *.
    split_and!; [done| |done|by eexists; split_and!].
    eapply evidence_same; [done|apply Hev|done|done].
Qed.

Lemma demote_and_rebind_spec canon plan db old (w : W) db' w' h c :
  blocks_ok (rm_blocks db) → evidence_ok prev_of canon db → canon (b_hash old) →
  invalid_blocks_lookup (b_hash old) = None → b_height old = Some h → is_Some (rm_blocks db !! b_hash old) →
  replacement_hashes plan !! h = Some c → c ≠ b_hash old →
  demote_and_rebind invalid_blocks_lookup resolve_pool plan db old w = (Ok db', w') →
  blocks_ok (rm_blocks db') ∧ evidence_ok prev_of canon db' ∧ is_demoted (rm_blocks db') old h c ∧
  ∀ k, k ≠ b_hash old → rm_blocks db' !! k = rebound h (b_hash old) c <$> rm_blocks db !! k.
Proof.
  intros Hb Hev Hcan Hlk Hh Hst Hc Hne Hd. unfold demote_and_rebind in Hd. st_inv. rename x into c'.
  match goal with H : ok_or _ _ = _ |- _ => apply ok_or_Ok in H; rewrite Hh in H; simpl in H end.
  assert (c' = c) as -> by congruence. rename x1 into db1, x3 into t.
  match goal with H : demote_displaced_parent _ _ _ _ _ _ = _ |- _ =>
    apply (demote_spec canon _ _ _ _ _ h) in H as (Hb1 & Hev1 & Ho1 & (r & Hr & Hk & Hrh & Hrc)); [|done..] end.
  match goal with H : rebind_stale_competitors _ _ _ _ = _ |- _ =>
    rewrite Hh in H; apply rebind_blocks in H as (Hb2 & Hl); [|done] end.
  split_and!; [done| | |].
  - eapply evidence_same; [exact Hev1|apply Hev1|done|done].
  - exists r. simpl. rewrite Hl, Hr. simpl. unfold rebound, rebinds. rewrite Hrc.
    rewrite (bool_decide_eq_false_2 (Some c = Some (b_hash old))) by congruence.
    rewrite andb_false_r. done.
  - intros k Hkne. simpl. rewrite Hl, Ho1; [done|]. set_solver.
Qed.

(** What the demotion of a list of rows needs of each. *)
Definition demotable (canon : bytes → Prop) (t0 : block_table) (plan : SuffixMutationPlan) (old : BlockInput) : Prop :=
  t0 !! b_hash old = Some old ∧ canon (b_hash old) ∧ invalid_blocks_lookup (b_hash old) = None ∧
  ∃ h c, b_height old = Some h ∧ replacement_hashes plan !! h = Some c.

Lemma demotes_spec canon t0 plan ds db (w : W) db' w' :
  blocks_ok (rm_blocks db) → evidence_ok prev_of canon db → Forall (demotable canon t0 plan) ds →
  (∀ old, old ∈ ds → is_Some (rm_blocks db !! b_hash old)) →
  (∀ h c, replacement_hashes plan !! h = Some c → c ∉ b_hash <$> ds) →
  for_each (demote_and_rebind invalid_blocks_lookup resolve_pool plan) ds db w = (Ok db', w') →
  blocks_ok (rm_blocks db') ∧ evidence_ok prev_of canon db' ∧
  (∀ old h c, old ∈ ds → b_height old = Some h → replacement_hashes plan !! h = Some c →
     is_demoted (rm_blocks db') old h c) ∧
  ∀ k, k ∉ b_hash <$> ds → rm_blocks db' !! k = (λ r, foldl (rebound_for plan) r ds) <$> rm_blocks db !! k.
Proof.
  revert db w. induction ds as [|old ds IH]; intros db w Hb Hev Hds Hst Hpl Hf; simpl in Hf.
  { st_inv. split_and!; [done|done|set_solver|]. intros k _. simpl. by rewrite option_fmap_id. }
  apply Forall_cons in Hds as [(Hold & Hcan & Hlk & h & c & Hh & Hc) Hds]. st_inv. rename x into db1.
  assert (c ∉ b_hash <$> old :: ds) as Hcn by eauto.
  match goal with H : demote_and_rebind _ _ _ _ _ _ = _ |- _ =>
    apply (demote_and_rebind_spec canon _ _ _ _ _ _ h c) in H as (Hb1 & Hev1 & Hdm & Hfr);
      [|try done..]; [|by apply Hst; left|set_solver] end.
  match goal with H : for_each _ _ _ _ = _ |- _ =>
    apply IH in H as (Hb2 & Hev2 & Hd2 & Hk2); [|done|done|done| |set_solver] end.
  2:{ intros old' Hin. destruct (decide (b_hash old' = b_hash old)) as [E|E].
      - rewrite E. destruct Hdm as (r & -> & _). by eexists.
      - rewrite Hfr, fmap_is_Some by done. apply Hst. by right. }
  split_and!; [done|done| |].
  - intros old' h' c' Hin Hh' Hc'. apply elem_of_cons in Hin as [->|Hin]; [|by apply Hd2].
    assert (h' = h) as -> by congruence. assert (c' = c) as -> by congruence.
    destruct (decide (b_hash old ∈ b_hash <$> ds)) as [Hin|Hout].
    + apply list_elem_of_fmap in Hin as (old2 & Heq & Hin).
      assert (old2 = old) as ->; [|by apply Hd2].
      rewrite Forall_forall in Hds. destruct (Hds _ Hin) as (Ho2 & _). congruence.
    + destruct Hdm as (r & Hr & Hrk & Hrh & Hrc). exists r. split_and!; [|done..].
      rewrite Hk2, Hr by done. simpl. f_equal. apply rebound_for_none. intros o ho Ho _. apply not_true_iff_false.
      intros (_ & _ & Ho')%rebinds_true. apply Hcn. csimpl. right. apply list_elem_of_fmap. exists o. split; [congruence|done].
  - intros k Hk. csimpl in Hk. apply not_elem_of_cons in Hk as [Hk1 Hk'].
    rewrite Hk2, Hfr by done. destruct (rm_blocks db !! k); [|done]. simpl. by rewrite (rebound_for_at _ _ _ h c).
Qed.

Lemma reconcile_replacement_spec canon db rep (w : W) db' w' :
  blocks_ok (rm_blocks db) → evidence_ok prev_of canon db → invalid_blocks_lookup (rep_hash rep) = None →
  rep_true rep → is_replacement (rm_blocks db) rep →
  reconcile_replacement_parent invalid_blocks_lookup resolve_pool db rep w = (Ok db', w') →
  blocks_ok (rm_blocks db') ∧ evidence_ok prev_of canon db' ∧ only_at [rep_hash rep] (rm_blocks db) (rm_blocks db') ∧
  is_replacement (rm_blocks db') rep.
Proof.
  intros Hb Hev Hlk Hrt Hrep Hr. unfold reconcile_replacement_parent in Hr. fold (rep_hash rep) in Hr.
  destruct (find_anchor_event_for_block _ _) as [i|] eqn:Hf.
  - apply find_anchor_Some in Hf as (e & Hi & Ha & He); [|apply Hev].
    apply (reconcile_within_spec canon _ _ _ _ _ _ e) in Hr as (Hb' & Hev' & Ho & Hskip & Hrow);
      [|try done; congruence..].
    rewrite He in *. split_and!; [done..|]. destruct (e_pow e); [|by rewrite Hskip].
    destruct Hrow as (r & Hr & (Hpl & _) & Hhp & Hc); [done|].
    unfold block_placement, replacement_verdict in Hpl. simpl in Hpl. injection Hpl as E1 E2 E3 E4 E5.
    exists r. split_and!; [done|done|done| |].
    + unfold is_complete. apply bool_decide_eq_true_2, Hc. by eexists.
    + rewrite Hhp. symmetry. apply Hrt.
  - st_inv. split_and!; [done|done|apply only_at_refl|done].
Qed.

Lemma reconciles_spec canon all rs db (w : W) db' w' :
  blocks_ok (rm_blocks db) → evidence_ok prev_of canon db → Forall rep_true all → rs ⊆ all →
  (∀ rep, rep ∈ all → invalid_blocks_lookup (rep_hash rep) = None ∧ is_replacement (rm_blocks db) rep) →
  for_each (reconcile_replacement_parent invalid_blocks_lookup resolve_pool) rs db w = (Ok db', w') →
  blocks_ok (rm_blocks db') ∧ evidence_ok prev_of canon db' ∧ Forall (is_replacement (rm_blocks db')) all ∧
  only_at (rep_hash <$> rs) (rm_blocks db) (rm_blocks db').
Proof.
  intros Hb Hev Hrt. revert db w Hb Hev. induction rs as [|rep rs IH]; intros db w Hb Hev Hsub Hall Hf; simpl in Hf.
  { st_inv. split_and!; [done|done|apply Forall_forall; naive_solver|apply only_at_refl]. }
  st_inv. rename x into db1. destruct (Hall rep) as [Hlk Hrep]; [set_solver|].
  match goal with H : reconcile_replacement_parent _ _ _ _ _ = _ |- _ =>
    apply (reconcile_replacement_spec canon) in H as (Hb1 & Hev1 & Ho1 & Hr1);
      [|done|done|done|rewrite Forall_forall in Hrt; apply Hrt; set_solver|done] end.
  match goal with H : for_each _ _ _ _ = _ |- _ =>
    apply IH in H as (Hb2 & Hev2 & Hr2 & Ho2); [|done|done|set_solver|] end.
  - split_and!; [done..|]. exact (only_at_trans [rep_hash rep] (rep_hash <$> rs) _ _ _ Ho1 Ho2).
  - intros rep' Hin. destruct (Hall _ Hin) as [Hlk' Hrep']. split; [done|].
    destruct (decide (rep_hash rep' = rep_hash rep)) as [E|E].
    + rewrite Forall_forall in Hrt. apply (is_replacement_same _ rep); [apply Hrt; set_solver|by apply Hrt|done|done].
    + eapply is_replacement_frame; [done|set_solver|done].
Qed.
End within.

(** ** Rows of a height *)

Lemma rows_nodup t h : table_ok t → NoDup (canonical_rows_at t h).
Proof.
  intros Ht. unfold canonical_rows_at. rewrite merge_sort_Permutation. apply NoDup_filter.
  apply (NoDup_fmap_1 b_hash). replace (b_hash <$> (map_to_list t).*2) with ((map_to_list t).*1).
  { apply NoDup_fst_map_to_list. }
  rewrite <-list_fmap_compose. apply list_fmap_ext. intros i [k r] Hi. simpl.
  apply list_elem_of_lookup_2, elem_of_map_to_list in Hi. by destruct (Ht _ _ Hi).
Qed.

Lemma rows_single t h r :
  table_ok t → (∀ r', r' ∈ canonical_rows_at t h ↔ r' = r) → canonical_rows_at t h = [r].
Proof.
  intros Ht Hin. pose proof (rows_nodup t h Ht) as Hn.
  destruct (canonical_rows_at t h) as [|a [|b l]].
  - exfalso. by apply (not_elem_of_nil r), Hin.
  - f_equal. apply Hin. left.
  - assert (a = r) as -> by (apply Hin; left). assert (b = r) as -> by (apply Hin; right; left).
    apply NoDup_cons in Hn as [Hn _]. exfalso. apply Hn. left.
Qed.

Lemma elem_of_rows_between t from to r :
  r ∈ canonical_rows_between t from to ↔ ∃ h, from ≤ h ≤ to ∧ r ∈ canonical_rows_at t h.
Proof.
  unfold canonical_rows_between. rewrite list_elem_of_bind. unfold range_inclusive.
  setoid_rewrite elem_of_seqZ. split; intros (h & H1 & H2); exists h; split; done || lia.
Qed.

(** ** The replacements *)

Section chain.
Context `{BitcoinLib}.

Lemma linked_pairs_spec rs i a b :
  linked_pairs rs = Ok () → rs !! i = Some a → rs !! S i = Some b →
  cr_height b = cr_height a + 1 ∧ prev_blockhash (cr_header b) = block_hash (cr_header a).
Proof.
  revert i. induction rs as [|x rs IH]; intros i Hl Ha Hb; [done|].
  destruct rs as [|y rs]; [by destruct i|]. simpl in Hl.
  apply bind_Ok in Hl as ([] & Hh & Hl). apply bind_Ok in Hl as ([] & Hp & Hl).
  apply ensure_Ok in Hh, Hp. destruct i as [|i]; simplify_eq/=.
  - split; [lia|by apply bool_decide_eq_true in Hp].
  - by apply (IH i).
Qed.

Lemma linked_heights rs first i a :
  linked_pairs rs = Ok () → rs !! 0%nat = Some first → rs !! i = Some a →
  cr_height a = cr_height first + Z.of_nat i.
Proof.
  intros Hl Hf. revert a. induction i as [|i IH]; intros a Ha; [simplify_eq; lia|].
  destruct (rs !! i) as [b|] eqn:Hb.
  - destruct (linked_pairs_spec _ _ _ _ Hl Hb Ha) as [-> _]. rewrite (IH b) by done. lia.
  - apply lookup_ge_None in Hb. apply lookup_lt_Some in Ha. lia.
Qed.

Lemma validate_spec ca expected rs :
  validate_replacement ca expected rs = Ok () →
  ∃ first anc, rs !! 0%nat = Some first ∧ cr_height first = ca + 1 ∧ linked_pairs rs = Ok () ∧
    filter (λ row, ex_height row = ca) expected = [anc] ∧ ex_hash anc = prev_blockhash (cr_header first).
Proof.
  unfold validate_replacement. destruct rs as [|first rs]; [done|]. intros Hv.
  apply bind_Ok in Hv as (ef & Hef & Hv). apply ok_or_Ok in Hef. apply bind_Ok in Hv as ([] & Hh & Hv).
  apply ensure_Ok in Hh. apply bind_Ok in Hv as ([] & Hl & Hv).
  destruct (filter _ expected) as [|anc [|]] eqn:Hf; [done| |done].
  apply bind_Ok in Hv as ([] & Hp & _). apply ensure_Ok, bool_decide_eq_true in Hp.
  exists first, anc. split_and!; [done| |done|done|done].
  unfold checked_add_i32, checked_i32 in Hef. destruct (_ && _); simplify_eq. lia.
Qed.

Lemma heights_nodup rs : linked_pairs rs = Ok () → NoDup (cr_height <$> rs).
Proof.
  intros Hl. destruct rs as [|first rs]; [constructor|]. apply NoDup_alt. intros i j h Hi Hj.
  rewrite list_lookup_fmap in Hi, Hj. apply fmap_Some in Hi as (a & Ha & ->). apply fmap_Some in Hj as (b & Hb & Heq).
  rewrite (linked_heights _ first _ _ Hl eq_refl Ha), (linked_heights _ first _ _ Hl eq_refl Hb) in Heq. lia.
Qed.

Lemma plan_hashes_lookup current rs h c :
  linked_pairs rs = Ok () →
  replacement_hashes (plan_suffix_mutation current rs) !! h = Some c ↔
  ∃ rep, rep ∈ rs ∧ cr_height rep = h ∧ rep_hash rep = c.
Proof.
  intros Hl. simpl. rewrite map_collect_lookup.
  - rewrite list_elem_of_fmap. split.
    + intros (rep & [= -> ->] & Hin). by exists rep.
    + intros (rep & Hin & <- & <-). by exists rep.
  - rewrite <-list_fmap_compose. by apply heights_nodup.
Qed.

(** Every height from the first to the last has its replacement. *)
Lemma replacement_at rs first target h :
  linked_pairs rs = Ok () → rs !! 0%nat = Some first → last rs = Some target →
  cr_height first ≤ h ≤ cr_height target ↔ ∃ rep, rep ∈ rs ∧ cr_height rep = h.
Proof.
  intros Hl Hf Ht. rewrite last_lookup in Ht.
  assert (0 < length rs)%nat by (apply lookup_lt_Some in Hf; lia).
  assert (cr_height target = cr_height first + Z.of_nat (pred (length rs))) as Htt by (by eapply linked_heights).
  split.
  - intros Hh. destruct (lookup_lt_is_Some_2 rs (Z.to_nat (h - cr_height first))) as [rep Hr]; [lia|].
    exists rep. split; [by eapply list_elem_of_lookup_2|]. rewrite (linked_heights _ _ _ _ Hl Hf Hr). lia.
  - intros (rep & Hin & <-). apply list_elem_of_lookup_1 in Hin as [i Hi].
    rewrite (linked_heights _ _ _ _ Hl Hf Hi). apply lookup_lt_Some in Hi. lia.
Qed.

(** The common ancestor is the one canonical row of its height. *)
Lemma ancestor_row t ca through expected anc :
  table_ok t → ca ≤ through →
  verify_expected_rows (canonical_rows_between t ca through) (normalized_expected_suffix expected ca through) = Ok () →
  filter (λ row, ex_height row = ca) expected = [anc] →
  ∃ a, canonical_rows_at t ca = [a] ∧ b_hash a = ex_hash anc.
Proof.
  intros Ht Hle Hv Hanc. apply ensure_Ok, bool_decide_eq_true in Hv.
  assert (∀ x, x ∈ locked_expected <$> canonical_rows_between t ca through ↔
               ca ≤ ex_height x ≤ through ∧ x ∈ expected) as Hin.
  { intros x. rewrite Hv. unfold normalized_expected_suffix.
    by rewrite merge_sort_Permutation, list_elem_of_filter. }
  assert (∀ x, x ∈ expected ∧ ex_height x = ca ↔ x = anc) as Hone.
  { intros x. rewrite <-(list_elem_of_singleton x anc), <-Hanc, list_elem_of_filter. tauto. }
  assert (∀ r, r ∈ canonical_rows_at t ca ↔ r ∈ canonical_rows_between t ca through ∧ ex_height (locked_expected r) = ca) as Hrow.
  { intros r. rewrite elem_of_rows_between. split.
    - intros Hr. split; [exists ca; split; [lia|done]|]. apply elem_of_rows in Hr as [[_ Hh] _].
      unfold locked_expected. by rewrite Hh.
    - intros [(h & _ & Hr) Hh]. pose proof Hr as [[_ Hr'] _]%elem_of_rows. unfold locked_expected in Hh.
      rewrite Hr' in Hh. by simplify_eq/=. }
  destruct (proj2 (Hone anc) eq_refl) as [Hae Hah].
  assert (anc ∈ locked_expected <$> canonical_rows_between t ca through) as (a & Ha & Hain)%list_elem_of_fmap
    by (apply Hin; split; [lia|done]).
  exists a. split; [|by rewrite Ha]. apply rows_single; [done|]. intros r. rewrite Hrow. split.
  - intros [Hr Hh]. assert (locked_expected r = anc) as Heq.
    { apply Hone. split; [|done]. apply Hin, list_elem_of_fmap. eauto. }
    apply elem_of_rows_between in Hr as (h1 & _ & [_ [k1 Hk1]]%elem_of_rows).
    apply elem_of_rows_between in Hain as (h2 & _ & [_ [k2 Hk2]]%elem_of_rows).
    destruct (Ht _ _ Hk1) as [<- _], (Ht _ _ Hk2) as [<- _].
    assert (b_hash r = b_hash a) as E by (rewrite Ha in Heq; by injection Heq). congruence.
  - intros ->. split; [done|]. by rewrite <-Ha.
Qed.
End chain.

(** ** The replacement *)

Section replacement.
Context `{BitcoinLib} {W : Type} `{CoreHeaderSource W} `{Clock W}.
Context (invalid_blocks_lookup : bytes → option InvalidBlock).
Context (resolve_pool : bytes → option bytes → option Z).
Context (height_of : bytes → Z) (prev_of : bytes → bytes).

Definition canonical_in (t : block_table) (k : bytes) : Prop :=
  ∃ r, t !! k = Some r ∧ b_kind r = BkCanonical.

(** A block the replacement displaces. *)
Definition displaces (t : block_table) (rs : list CoreCanonicalReplacement) (k : bytes) : Prop :=
  ∃ rep old, rep ∈ rs ∧ old ∈ canonical_rows_at t (cr_height rep) ∧ b_hash old ≠ rep_hash rep ∧ k = b_hash old.

(** A stale row at the height of [rep] whose competitor is displaced there. *)
Definition loses_competitor (t : block_table) (rep : CoreCanonicalReplacement) (r : BlockInput) : Prop :=
  b_kind r = BkStale ∧ b_height r = Some (cr_height rep) ∧
  ∃ old, old ∈ canonical_rows_at t (cr_height rep) ∧ b_hash old ≠ rep_hash rep ∧
         b_canonical_competitor_hash r = Some (b_hash old).

(** Every row that is neither a replacement nor displaced: it names the new competitor when it
    lost its own, and is kept otherwise. *)
Definition other_rows (t t' : block_table) (rs : list CoreCanonicalReplacement) : Prop :=
  ∀ k, k ∉ rep_hash <$> rs → ¬ displaces t rs k →
    (∀ r rep, t !! k = Some r → rep ∈ rs → loses_competitor t rep r → t' !! k = Some (set_competitor r (rep_hash rep))) ∧
    ((∀ r rep, t !! k = Some r → rep ∈ rs → ¬ loses_competitor t rep r) → t' !! k = t !! k).

(** The rows of the heights from [first] to the target, and of the other heights. *)
Definition suffix_rows (t t' : block_table) (rs : list CoreCanonicalReplacement) : Prop :=
  (∀ rep, rep ∈ rs → ∃ row, canonical_rows_at t' (cr_height rep) = [row] ∧ b_hash row = rep_hash rep ∧
     is_complete row = true ∧ b_prev_hash row = prev_blockhash (cr_header rep)) ∧
  (∀ h r, h ∉ cr_height <$> rs → r ∈ canonical_rows_at t' h ↔ r ∈ canonical_rows_at t h) ∧
  (∀ rep old, rep ∈ rs → old ∈ canonical_rows_at t (cr_height rep) → b_hash old ≠ rep_hash rep →
     is_demoted t' old (cr_height rep) (rep_hash rep)) ∧
  other_rows t t' rs.

Lemma displaced_spec t ca target rs first old :
  table_ok t → linked_pairs rs = Ok () → rs !! 0%nat = Some first → last rs = Some target →
  cr_height first = ca + 1 →
  let plan := plan_suffix_mutation (canonical_rows_between t ca (cr_height target)) rs in
  old ∈ displaced plan ↔ ∃ rep, rep ∈ rs ∧ old ∈ canonical_rows_at t (cr_height rep) ∧ b_hash old ≠ rep_hash rep.
Proof.
  intros Ht Hl Hf Hlast Hca. cbv zeta. simpl. rewrite list_elem_of_filter, elem_of_rows_between.
  assert (default 0 (cr_height <$> head rs) = ca + 1) as Hhd by (destruct rs; simplify_eq/=; done).
  rewrite Hhd. split.
  - intros [[Hge Hne] (h & Hh & Hr)]. pose proof Hr as [[_ Hbh] _]%elem_of_rows. rewrite Hbh in Hge, Hne. simpl in *.
    destruct (proj1 (replacement_at rs first target h Hl Hf Hlast)) as (rep & Hin & <-); [lia|].
    exists rep. split_and!; [done|done|]. intros Heq. apply Hne. rewrite Heq.
    by apply (proj2 (plan_hashes_lookup [] rs (cr_height rep) (rep_hash rep) Hl)); exists rep.
  - intros (rep & Hin & Hr & Hne). pose proof Hr as [[_ Hbh] _]%elem_of_rows. rewrite Hbh. simpl.
    assert (cr_height first ≤ cr_height rep ≤ cr_height target) as Hrange
      by (apply (replacement_at rs first target _ Hl Hf Hlast); by exists rep).
    split; [|exists (cr_height rep); split; [lia|done]]. split; [lia|]. intros Hm.
    apply (plan_hashes_lookup [] rs _ _ Hl) in Hm as (rep' & Hin' & Hh & Hhash). apply Hne. rewrite <-Hhash.
    f_equal. apply list_elem_of_lookup_1 in Hin as [i Hi], Hin' as [j Hj].
    rewrite (linked_heights _ _ _ _ Hl Hf Hi), (linked_heights _ _ _ _ Hl Hf Hj) in Hh.
    assert (i = j) as -> by lia. congruence.
Qed.

(** The inputs of a mutation that passed its checks. *)
Record mutation_input (db : ReadModel) (rs : list CoreCanonicalReplacement) (ca : Z)
    (first target : CoreCanonicalReplacement) : Prop := mkMutationInput {
  mi_blocks : blocks_ok (rm_blocks db);
  mi_heights : heights_true height_of (rm_blocks db);
  mi_true : Forall (rep_true height_of prev_of) rs;
  mi_evidence : evidence_ok prev_of (canonical_in (rm_blocks db)) db;
  mi_catalogue : ∀ k, canonical_in (rm_blocks db) k ∨ k ∈ rep_hash <$> rs → invalid_blocks_lookup k = None;
  mi_linked : linked_pairs rs = Ok ();
  mi_first : rs !! 0%nat = Some first;
  mi_last : last rs = Some target;
  mi_ancestor : cr_height first = ca + 1;
}.

Section mutation_rows.
Context (db : ReadModel) (rs : list CoreCanonicalReplacement) (ca : Z).
Context (first target : CoreCanonicalReplacement) (Hin : mutation_input db rs ca first target).

#[local] Abbreviation t := (rm_blocks db).
#[local] Abbreviation plan := (plan_suffix_mutation (canonical_rows_between t ca (cr_height target)) rs).

Lemma rep_height_inj rep rep' : rep ∈ rs → rep' ∈ rs → cr_height rep = cr_height rep' → rep = rep'.
Proof.
  intros [i Hi]%list_elem_of_lookup_1 [j Hj]%list_elem_of_lookup_1 Heq. destruct Hin.
  rewrite (linked_heights _ _ _ _ mi_linked0 mi_first0 Hi), (linked_heights _ _ _ _ mi_linked0 mi_first0 Hj) in Heq.
  assert (i = j) as -> by lia. congruence.
Qed.

Lemma elem_of_displaced old :
  old ∈ displaced plan ↔ ∃ rep, rep ∈ rs ∧ old ∈ canonical_rows_at t (cr_height rep) ∧ b_hash old ≠ rep_hash rep.
Proof. destruct Hin. by apply displaced_spec with (first := first); [apply mi_blocks0|..]. Qed.

Lemma rows_stored h r : r ∈ canonical_rows_at t h → t !! b_hash r = Some r ∧ b_kind r = BkCanonical ∧ b_height r = Some h.
Proof.
  intros [[Hk Hh] [k Hl]]%elem_of_rows. destruct (proj1 (mi_blocks _ _ _ _ _ Hin) _ _ Hl) as [-> _]. done.
Qed.

(** A stored row that is canonical at the height of a replacement has its hash, or none of theirs. *)
Lemma stored_hash r h rep : r ∈ canonical_rows_at t h → rep ∈ rs → b_hash r = rep_hash rep → h = cr_height rep.
Proof.
  intros (Hl & Hk & Hh)%rows_stored Hrep Heq. destruct Hin. rewrite Forall_forall in mi_true0.
  rewrite (proj1 (mi_true0 _ Hrep)), <-Heq. specialize (mi_heights0 _ _ Hl Hk). congruence.
Qed.

Lemma displaced_not_rep old : old ∈ displaced plan → b_hash old ∉ rep_hash <$> rs.
Proof.
  intros (rep & Hrep & Hr & Hne)%elem_of_displaced (rep' & Heq & Hrep')%list_elem_of_fmap.
  pose proof (stored_hash _ _ _ Hr Hrep' Heq) as Hh.
  by rewrite (rep_height_inj _ _ Hrep Hrep' Hh) in Hne.
Qed.

Lemma displaced_demotable : Forall (demotable invalid_blocks_lookup (canonical_in t) t plan) (displaced plan).
Proof.
  apply Forall_forall. intros old Hold. pose proof Hold as (rep & Hrep & Hr & _)%elem_of_displaced.
  apply rows_stored in Hr as (Hl & Hk & Hh). assert (canonical_in t (b_hash old)) as Hc by (by eexists).
  split_and!; [done|done|by apply (mi_catalogue _ _ _ _ _ Hin); left|].
  exists (cr_height rep), (rep_hash rep). split; [done|]. apply plan_hashes_lookup; [apply Hin|by exists rep].
Qed.

(** What the three loops leave. *)
Record mutated (t' : block_table) : Prop := mkMutated {
  mu_blocks : blocks_ok t';
  mu_reps : ∀ rep, rep ∈ rs → is_replacement t' rep;
  mu_demoted : ∀ old rep, old ∈ displaced plan → rep ∈ rs → b_height old = Some (cr_height rep) →
    is_demoted t' old (cr_height rep) (rep_hash rep);
  mu_other : ∀ k r, b_kind r = BkCanonical → k ∉ rep_hash <$> rs →
    t' !! k = Some r ↔ (k ∈ b_hash <$> displaced plan → False) ∧ t !! k = Some r;
  mu_frame : ∀ k, k ∉ rep_hash <$> rs → k ∉ b_hash <$> displaced plan →
    t' !! k = (λ r, foldl (rebound_for plan) r (displaced plan)) <$> t !! k;
}.

Lemma plan_rep rep : rep ∈ rs → replacement_hashes plan !! cr_height rep = Some (rep_hash rep).
Proof. intros Hrep. apply plan_hashes_lookup; [apply Hin|by exists rep]. Qed.

Lemma rep_not_displaced rep : rep ∈ rs → rep_hash rep ∉ b_hash <$> displaced plan.
Proof.
  intros Hrep (old & Heq & Hold)%list_elem_of_fmap. apply displaced_not_rep in Hold. apply Hold.
  rewrite <-Heq. by apply list_elem_of_fmap_2.
Qed.

Lemma mutation_mutated (w : W) db' w' :
  apply_suffix_mutation invalid_blocks_lookup resolve_pool rs plan db w = (Ok db', w') →
  mutated (rm_blocks db').
Proof.
  unfold apply_suffix_mutation. intros Hm. st_inv. rename x into db1, x1 into db2.
  match goal with H : for_each (upsert_replacement _) _ _ _ = _ |- _ =>
    apply (upserts_spec invalid_blocks_lookup _ height_of prev_of) in H
      as (t1 & -> & Hb1 & _ & Hr1 & Ho1); [|apply Hin..] end.
  match goal with H : for_each (demote_and_rebind _ _ _) _ _ _ = _ |- _ =>
    apply (demotes_spec _ _ height_of prev_of (canonical_in t) t) in H as (Hb2 & Hev2 & Hd2 & Hk2); [|done|..] end.
  2: { eapply evidence_same; [apply Hin|apply (mi_evidence _ _ _ _ _ Hin)|done|done]. }
  2: apply displaced_demotable.
  2: { intros old Hold. change (is_Some (t1 !! b_hash old)). rewrite Ho1 by (by apply displaced_not_rep).
       apply elem_of_displaced in Hold as (rep & _ & Hr & _). apply rows_stored in Hr as (-> & _). by eexists. }
  2: { intros h c Hhc. apply plan_hashes_lookup in Hhc as (rep & Hrep & _ & <-); [|apply Hin].
       by apply rep_not_displaced. }
  change (rm_blocks (with_blocks db t1)) with t1 in *. rewrite Forall_forall in Hr1.
  match goal with H : for_each (reconcile_replacement_parent _ _) _ _ _ = _ |- _ =>
    apply (reconciles_spec _ _ height_of prev_of (canonical_in t) rs) in H as (Hb3 & _ & Hr3 & Ho3);
      [|done|done|apply Hin|done|] end.
  2: { intros rep Hrep. split; [apply (mi_catalogue _ _ _ _ _ Hin); right; by apply list_elem_of_fmap_2|].
       destruct (Hr1 _ Hrep) as (r & Hl & Hrk & Hrest). exists r. split; [|done].
       rewrite Hk2 by (by apply rep_not_displaced). simpl. rewrite Hl. simpl. by rewrite rebound_for_canonical. }
  rewrite Forall_forall in Hr3. split; [done|done| | |].
  - intros old rep Hold Hrep Hh. destruct (Hd2 old (cr_height rep) (rep_hash rep)) as (r & Hr & Hrest);
      [done|done|by apply plan_rep|]. exists r. rewrite Ho3; [done|by apply displaced_not_rep].
  - intros k r Hk Hn. rewrite Ho3 by done. split.
    + intros Hl. assert (k ∉ b_hash <$> displaced plan) as Hnd.
      { intros (old & -> & Hold)%list_elem_of_fmap. pose proof Hold as (rep & Hrep & Hr & _)%elem_of_displaced.
        apply rows_stored in Hr as (_ & _ & Hh).
        destruct (Hd2 old (cr_height rep) (rep_hash rep)) as (r' & Hr' & Hk' & _);
          [done|done|by apply plan_rep|congruence]. }
      split; [done|]. rewrite Hk2 in Hl by done. simpl in Hl. rewrite Ho1 in Hl by done.
      apply fmap_Some in Hl as (r0 & Hl & ->). rewrite rebound_for_kind in Hk. by rewrite rebound_for_canonical.
    + intros [Hnd Hl]. rewrite Hk2 by done. simpl. rewrite Ho1, Hl by done. simpl. by rewrite rebound_for_canonical.
  - intros k Hn Hnd. rewrite Ho3, Hk2 by done. simpl. by rewrite Ho1.
Qed.

Lemma mutated_other t' : mutated t' → other_rows t t' rs.
Proof.
  intros Hm k Hk Hnd. assert (k ∉ b_hash <$> displaced plan) as Hnd'.
  { intros (old & -> & (rep & ? & ? & ?)%elem_of_displaced)%list_elem_of_fmap. apply Hnd. exists rep, old. by split_and!. }
  rewrite (mu_frame _ Hm) by done. split.
  - intros r rep Hr Hrep (Hs & Hh & old & Hold & Hne & Hc). rewrite Hr. simpl. f_equal.
    apply (rebound_for_one _ _ _ old (cr_height rep)); [|apply elem_of_displaced; eauto| |by apply plan_rep|].
    + intros h c Hhc. apply plan_hashes_lookup in Hhc as (rep' & Hrep' & _ & <-); [|apply Hin]. by apply rep_not_displaced.
    + by apply rows_stored in Hold as (_ & _ & ?).
    + by apply rebinds_true.
  - intros Hno. destruct (t !! k) as [r|]; [|done]. simpl. f_equal. apply rebound_for_none.
    intros old h Hold Hh. apply not_true_iff_false. intros (Hs & Hrh & Hc)%rebinds_true.
    apply elem_of_displaced in Hold as (rep & Hrep & Hr & Hne). apply (Hno r rep); [done|done|].
    pose proof Hr as (_ & _ & Hho)%rows_stored. split; [done|]. split; [congruence|]. eauto.
Qed.

Lemma mutated_rep_row t' rep :
  mutated t' → rep ∈ rs →
  ∃ row, canonical_rows_at t' (cr_height rep) = [row] ∧ b_hash row = rep_hash rep ∧
    is_complete row = true ∧ b_prev_hash row = prev_blockhash (cr_header rep).
Proof.
  intros Hm Hrep. destruct (mu_reps _ Hm _ Hrep) as (r & Hl & Hk & Hh & Hc & Hp).
  destruct (proj1 (mu_blocks _ Hm) _ _ Hl) as [Hhash _].
  exists r. split_and!; [|done..]. apply rows_single; [apply Hm|]. intros r'. rewrite elem_of_rows. split.
  - intros [[Hk' Hh'] [k' Hl']]. destruct (proj1 (mu_blocks _ Hm) _ _ Hl') as [Hhash' _].
    destruct (decide (k' ∈ rep_hash <$> rs)) as [(rep' & -> & Hrep')%list_elem_of_fmap|Hn].
    + destruct (mu_reps _ Hm _ Hrep') as (r2 & Hl2 & _ & Hh2 & _). assert (r2 = r') as -> by congruence.
      assert (cr_height rep = cr_height rep') as He by congruence.
      rewrite (rep_height_inj _ _ Hrep Hrep' He) in Hl. congruence.
    + destruct (proj1 (mu_other _ Hm _ _ Hk' Hn) Hl') as [Hnd Ht]. exfalso. apply Hnd. rewrite <-Hhash'.
      apply list_elem_of_fmap_2, elem_of_displaced. exists rep. split_and!; [done|apply elem_of_rows; split; [split; congruence|by eexists]|].
      intros Heq. apply Hn. rewrite <-Hhash', Heq. by apply list_elem_of_fmap_2.
  - intros ->. split; [done|by eexists].
Qed.

Lemma mutated_other_rows t' h r :
  mutated t' → h ∉ cr_height <$> rs → r ∈ canonical_rows_at t' h ↔ r ∈ canonical_rows_at t h.
Proof.
  intros Hm Hnh. rewrite !elem_of_rows. split; intros [[Hk Hh] [k Hl]]; (split; [done|]); exists k.
  - apply (mu_other _ Hm) in Hl as [_ ?]; [done..|].
    intros (rep & -> & Hrep)%list_elem_of_fmap. destruct (mu_reps _ Hm _ Hrep) as (r2 & Hl2 & _ & Hh2 & _).
    apply Hnh. apply list_elem_of_fmap. exists rep. split; [congruence|done].
  - assert (r ∈ canonical_rows_at t h) as Hr by (apply elem_of_rows; split; [done|by eexists]).
    destruct (proj1 (mi_blocks _ _ _ _ _ Hin) _ _ Hl) as [Hhash _]. apply (mu_other _ Hm); [done| |split; [|done]].
    + intros (rep & -> & Hrep)%list_elem_of_fmap. apply Hnh.
      rewrite (stored_hash _ _ _ Hr Hrep Hhash). by apply list_elem_of_fmap_2.
    + intros (old & Heq & Hold)%list_elem_of_fmap. apply elem_of_displaced in Hold as (rep & Hrep & Ho & _).
      apply rows_stored in Ho as (Hlo & _ & Hho). apply Hnh.
      assert (old = r) as -> by congruence. apply list_elem_of_fmap. exists rep. split; [congruence|done].
Qed.

Lemma elem_of_affected k : k ∈ affected_hashes plan ↔ k ∈ rep_hash <$> rs ∨ displaces t rs k.
Proof.
  simpl. rewrite elem_of_sort_dedup, elem_of_app. f_equiv.
  - rewrite !list_elem_of_fmap. split.
    + intros ([h c] & -> & Hm%elem_of_map_to_list). apply (plan_hashes_lookup [] rs) in Hm as (rep & Hrep & _ & Hc); [|apply Hin].
      simpl. eauto.
    + intros (rep & -> & Hrep). exists (cr_height rep, rep_hash rep). split; [done|].
      apply elem_of_map_to_list. apply (plan_hashes_lookup [] rs); [apply Hin|by exists rep].
  - rewrite list_elem_of_fmap. split.
    + intros (old & -> & (rep & ? & ? & ?)%elem_of_displaced). exists rep, old. by split_and!.
    + intros (rep & old & ? & ? & ? & ->). exists old. split; [done|]. apply elem_of_displaced. eauto.
Qed.

Lemma mutation_rows (w : W) db' w' :
  apply_suffix_mutation invalid_blocks_lookup resolve_pool rs plan db w = (Ok db', w') →
  blocks_ok (rm_blocks db') ∧ suffix_rows t (rm_blocks db') rs.
Proof.
  intros Hm%mutation_mutated. split; [apply Hm|]. split_and!.
  - intros rep Hrep. by apply mutated_rep_row.
  - intros h r Hn. by apply mutated_other_rows.
  - intros rep old Hrep Hold Hne. apply (mu_demoted _ Hm); [apply elem_of_displaced; eauto|done|].
    by apply rows_stored in Hold as (_ & _ & ?).
  - by apply mutated_other.
Qed.
End mutation_rows.

Lemma enqueue_fold now hs q k :
  (k ∈ hs ∨ ∃ r, q !! k = Some r ∧ primary_pending r = true ∧ expand_unchanged r = true) →
  ∃ r, foldl (enqueue_one now true) q hs !! k = Some r ∧ primary_pending r = true ∧ expand_unchanged r = true.
Proof.
  revert q. induction hs as [|h hs IH]; intros q Hk; simpl; [naive_solver set_solver|].
  apply IH. destruct (decide (k = h)) as [->|Hne].
  - right. unfold enqueue_one. rewrite lookup_insert_eq. eexists. split; [done|].
    destruct (q !! h); simpl; [by rewrite orb_true_r|done].
  - destruct Hk as [Hk|Hk]; [left; set_solver|right]. unfold enqueue_one. by rewrite lookup_insert_ne.
Qed.

Lemma enqueue_fold_other now hs q k : k ∉ hs → foldl (enqueue_one now true) q hs !! k = q !! k.
Proof.
  revert q. induction hs as [|h hs IH]; intros q Hk; [done|]. apply not_elem_of_cons in Hk as [Hne Hk]. simpl.
  rewrite IH by done. unfold enqueue_one. by rewrite lookup_insert_ne.
Qed.

(** A height of the prefix that a replacement leaves alone. *)
Lemma height_ok_keep t t' k :
  table_ok t' → (∀ h, h = k ∨ h = k - 1 → 0 ≤ h → ∀ r, r ∈ canonical_rows_at t' h ↔ r ∈ canonical_rows_at t h) →
  0 ≤ k → height_ok t k → height_ok t' k.
Proof.
  intros Ht' Heq Hk (row & Hr & Hc & Hp).
  assert (∀ h r, h = k ∨ h = k - 1 → 0 ≤ h → canonical_rows_at t h = [r] → canonical_rows_at t' h = [r]) as Hone.
  { intros h r Hh Hh0 Hrow. apply rows_single; [done|]. intros r'. rewrite Heq, Hrow by done.
    by rewrite list_elem_of_singleton. }
  exists row. split_and!; [by apply Hone; [left|..]|done|]. intros Hk0.
  destruct (Hp Hk0) as (prev & Hpr & Hl). exists prev. split; [|done]. apply Hone; [by right|lia|done].
Qed.

Lemma prefix_replaced t t' rs ca first target cch :
  table_ok t' → suffix_rows t t' rs → linked_pairs rs = Ok () → rs !! 0%nat = Some first →
  last rs = Some target → cr_height first = ca + 1 → 0 ≤ ca → in_i32 (cr_height target) →
  (∃ a, canonical_rows_at t ca = [a] ∧ b_hash a = prev_blockhash (cr_header first)) →
  prefix_ok t cch → prefix_ok t' (if ca <=? cch then cr_height target else cch).
Proof.
  intros Ht' (Hrep & Hother & _) Hl Hf Hlast Hca H0ca Hi (a & Ha & Hah) [Hb Hpre].
  pose proof (λ h, replacement_at rs first target h Hl Hf Hlast) as Hat.
  assert (∀ h r, h ≤ ca ∨ cr_height target < h → r ∈ canonical_rows_at t' h ↔ r ∈ canonical_rows_at t h) as Hout.
  { intros h r Hh. apply Hother. intros (rep & -> & Hin)%list_elem_of_fmap.
    assert (cr_height first ≤ cr_height rep ≤ cr_height target) by (apply Hat; by exists rep). lia. }
  assert (cr_height first ≤ cr_height target) as Hft.
  { apply (Hat (cr_height first)). exists first. split; [by eapply list_elem_of_lookup_2|done]. }
  assert (∀ k, 0 ≤ k ≤ ca → k ≤ cch → height_ok t' k) as Hlow.
  { intros k Hk Hkc. apply (height_ok_keep t); [done|intros h Hh Hh0 r; apply Hout; lia|lia|apply Hpre; lia]. }
  destruct (Z.leb_spec ca cch) as [Hle|Hlt]; (split; [unfold in_i32, i32_MAX in *; lia|]); intros k Hk.
  - destruct (decide (k ≤ ca)) as [Hkc|Hkc]; [apply Hlow; lia|].
    destruct (proj1 (Hat k)) as (rep & Hin & <-); [lia|].
    destruct (Hrep _ Hin) as (row & Hrow & Hh & Hc & Hp). exists row. split_and!; [done|done|]. intros _.
    destruct (decide (cr_height rep = ca + 1)) as [E|E].
    + exists a. replace (cr_height rep - 1) with ca by lia. split.
      * apply rows_single; [done|]. intros r. rewrite Hout, Ha by lia. by rewrite list_elem_of_singleton.
      * rewrite Hp, Hah. apply list_elem_of_lookup_1 in Hin as [i Hin]. pose proof (linked_heights _ _ _ _ Hl Hf Hin).
        assert (i = 0%nat) as -> by lia. congruence.
    + destruct (proj1 (Hat (cr_height rep - 1))) as (rep' & Hin' & Hh'); [lia|].
      destruct (Hrep _ Hin') as (row' & Hrow' & Hhash' & _). exists row'. rewrite <-Hh'. split; [done|].
      rewrite Hp, Hhash'. apply list_elem_of_lookup_1 in Hin as [i Hin], Hin' as [j Hin'].
      pose proof (linked_heights _ _ _ _ Hl Hf Hin). pose proof (linked_heights _ _ _ _ Hl Hf Hin').
      assert (i = S j) as -> by lia. by apply (linked_pairs_spec rs j).
  - apply (height_ok_keep t); [done|intros h Hh Hh0 r; apply Hout; lia|lia|apply Hpre; lia].
Qed.

#[local] Abbreviation replace := (replace_core_canonical_suffix_validated invalid_blocks_lookup resolve_pool).

(** The checks a successful replacement passed, and what it stored. *)
Record replaced (db : SuffixDb) (expected_cch ca : Z) (input : CoreSuffixReplacementInput)
    (now : Z) (db' : SuffixDb) : Prop := mkReplaced {
  rp_checks : ∃ first target s row,
    validate_replacement ca (in_expected_local input) (in_replacements input) = Ok () ∧
    in_replacements input !! 0%nat = Some first ∧ last (in_replacements input) = Some target ∧
    sx_sync db = Some s ∧ contiguous_complete_height s = expected_cch ∧
    let current := canonical_rows_between (rm_blocks (sx_model db)) ca (cr_height target) in
    let plan := plan_suffix_mutation current (in_replacements input) in
    verify_expected_rows current (normalized_expected_suffix (in_expected_local input) ca (cr_height target)) = Ok () ∧
    (∃ w w' : W, apply_suffix_mutation invalid_blocks_lookup resolve_pool (in_replacements input) plan
                   (sx_model db) w = (Ok (sx_model db'), w')) ∧
    enqueue_core_reconcile_hashes now (sx_queue db) (affected_hashes plan) true = Ok (sx_queue db') ∧
    sx_sync db' = Some row ∧ last_error_code row = Some RECONCILE_PENDING ∧
    contiguous_complete_height row = if ca <=? expected_cch then cr_height target else expected_cch;
}.

Lemma replace_inv hex now db expected_cch ca input before after w summary db' w' :
  replace hex now db expected_cch ca input before after w = (Ok (summary, db'), w') →
  replaced db expected_cch ca input now db'.
Proof.
  unfold replace_core_canonical_suffix_validated. intros Hr. st_inv.
  destruct (head (in_replacements input)) as [first|] eqn:Hhd; [|done].
  destruct (last (in_replacements input)) as [target|] eqn:Hlast; [|done].
  destruct (default _ (in_pending_sync_target input)) as [sh shash]. st_inv.
  match goal with H : lock_and_verify_sync_state _ _ = _ |- _ => rename H into Hlk end.
  unfold lock_and_verify_sync_state in Hlk. apply bind_Ok in Hlk as (s & Hs & Hlk).
  apply ok_or_Ok in Hs. apply bind_Ok in Hlk as ([] & Hc & [= <-]). apply ensure_Ok in Hc.
  match goal with H : mark_replacement_pending _ _ _ = _ |- _ => rename H into Hmk end.
  match goal with H : ok_or _ _ = _ |- _ => apply ok_or_Ok in H; rename H into Hs' end.
  assert (contiguous_complete_height s = expected_cch) as Hcch by lia. rewrite Hcch in *.
  unfold mark_replacement_pending in Hmk. apply bind_Ok in Hmk as (su & _ & [= <-]).
  split. exists first, target, s. eexists. split_and!; [eassumption| |done|exact Hs|done|].
  { destruct (in_replacements input); [done|]. exact Hhd. }
  cbv zeta. split_and!; [eassumption|eauto|eassumption|done|done|done].
Qed.

(** C1. Replacing a canonical suffix by the chain of Core, when it commits: the height of each
    replacement has exactly one canonical row, which is complete, has its hash and its link;
    every other row that was canonical there is stale and names the replacement as competitor. Of
    all other rows of the block table, a stale one at such a height that named a displaced block
    as its competitor names the replacement instead, and every other one is unchanged. The stored
    cursor still ends a complete linked prefix (now up to the target when the ancestor was inside
    it). The replacements and the displaced blocks, and they alone, are queued, as primaries
    whose dependents are expanded; the rows of other blocks in the queue are as they were. *)
Theorem suffix_replaced hex now db expected_cch ca input before after w summary db' w' :
  let t := rm_blocks (sx_model db) in
  let t' := rm_blocks (sx_model db') in
  let rs := in_replacements input in
  blocks_ok t → heights_true height_of t → evidence_ok prev_of (canonical_in t) (sx_model db) →
  Forall (λ rep, rep_true height_of prev_of rep ∧ in_i32 (cr_height rep)) rs →
  (∀ k, canonical_in t k ∨ k ∈ rep_hash <$> rs → invalid_blocks_lookup k = None) →
  0 ≤ ca → (∀ s, sx_sync db = Some s → prefix_ok t (contiguous_complete_height s)) →
  replace hex now db expected_cch ca input before after w = (Ok (summary, db'), w') →
  blocks_ok t' ∧ suffix_rows t t' rs ∧
  (∃ s, sx_sync db' = Some s ∧ prefix_ok t' (contiguous_complete_height s)) ∧
  (∀ k, k ∈ rep_hash <$> rs ∨
        (∃ rep old, rep ∈ rs ∧ old ∈ canonical_rows_at t (cr_height rep) ∧ k = b_hash old) →
     ∃ q, sx_queue db' !! k = Some q ∧ primary_pending q = true ∧ expand_unchanged q = true) ∧
  ∀ k, k ∉ rep_hash <$> rs → ¬ displaces t rs k → sx_queue db' !! k = sx_queue db !! k.
Proof.
  intros t t' rs Hb Hht Hev Hrt Hcat Hca0 Hpre Hr. apply replace_inv in Hr as [Hr].
  destruct Hr as (first & target & s & row & Hval & Hf & Hlast & Hs & Hcch & Hver & (w1 & w2 & Hm) & Hq & Hrow & _ & Hnext).
  fold rs in Hval, Hf, Hlast, Hm, Hq.
  destruct (validate_spec _ _ _ Hval) as (f' & anc & Hf' & Hca & Hl & Hanc & Hah). simplify_eq.
  assert (Forall (rep_true height_of prev_of) rs) as Hrt1 by (eapply Forall_impl; [exact Hrt|naive_solver]).
  assert (mutation_input (sx_model db) rs ca first target) as Hin by (by split).
  destruct (mutation_rows _ _ _ _ _ Hin _ _ _ Hm) as [Hb' Hrows].
  assert (cr_height first ≤ cr_height target) as Hft.
  { apply (replacement_at rs first target _ Hl Hf Hlast). exists first. split; [by eapply list_elem_of_lookup_2|done]. }
  assert (∀ k, k ∈ affected_hashes (plan_suffix_mutation (canonical_rows_between t ca (cr_height target)) rs) ↔
    k ∈ rep_hash <$> rs ∨ displaces t rs k) as Haff by (intros k; by apply (elem_of_affected _ _ _ _ _ Hin)).
  unfold enqueue_core_reconcile_hashes in Hq. apply bind_Ok in Hq as ([] & _ & [= <-]).
  split_and!; [done|done| | |].
  - exists row. split; [done|]. rewrite Hnext. eapply prefix_replaced; [apply Hb'|done..| | |by eapply Hpre].
    + rewrite last_lookup in Hlast. apply list_elem_of_lookup_2 in Hlast. rewrite Forall_forall in Hrt. by apply Hrt.
    + destruct (ancestor_row t ca (cr_height target) (in_expected_local input) anc (proj1 Hb)) as (a & Ha & Haa); [lia|done|done|].
      exists a. split; [done|congruence].
  - intros k Hk. apply enqueue_fold. left. apply Haff.
    destruct (decide (k ∈ rep_hash <$> rs)) as [Hrep|Hn]; [by left|right].
    destruct Hk as [Hk|(rep & old & Hrep & Hold & ->)]; [done|]. exists rep, old. split_and!; [done|done| |done].
    intros Heq. apply Hn. rewrite Heq. by apply list_elem_of_fmap_2.
  - intros k Hk Hnd. apply enqueue_fold_other. intros Hq. apply Haff in Hq. tauto.
Qed.
End replacement.

Module CoreSuffixSample.
Import Toy Sample.

(** Two blocks stored at heights 0 and 1, and a chain of Core that replaces the second. *)
Definition hd (v : Z) (prev : bytes) : Header :=
  {| hdr_version := v; prev_blockhash := prev; merkle_root := replicate 32 x00; hdr_time := 9; hdr_bits := 9;
     hdr_nonce := 0 |}.
Definition h0 : Header := hd 1 (replicate 32 x00).
Definition old1 : Header := hd 2 (block_hash h0).
Definition new1 : Header := hd 3 (block_hash h0).
Definition new2 : Header := hd 4 (block_hash new1).
Definition cb : BitcoinCoreBlockCoinbase := mkBlockCoinbase [x01] [x02] [x03].

Definition heights (k : bytes) : Z :=
  if bool_decide (k = block_hash h0) then 0 else if bool_decide (k = block_hash new2) then 2 else 1.
Definition prevs (k : bytes) : bytes :=
  if bool_decide (k = block_hash h0) then replicate 32 x00
  else if bool_decide (k = block_hash new2) then block_hash new1 else block_hash h0.

Definition row (h : Header) (height : Z) : BlockInput :=
  synthesized_block (λ _, None) (mkClassifiedHeader (block_hash h) (prev_blockhash h) h height (Some cb) false).
Definition t0 : block_table := {[ block_hash h0 := row h0 0; block_hash old1 := row old1 1 ]}.

(** An event attests the block that is displaced. *)
Definition ev : EventRow :=
  {| e_id := 1; e_source_id := 1; e_child_height := Some 3; e_hash := block_hash old1;
     e_prev_hash := prev_blockhash old1; e_header_bytes := serialize_header old1;
     e_header_time := 9; e_height := Some 1; e_kind := PkCanonical; e_pow := true;
     e_difficulty_ok := None; e_script := None; e_outputs := None; e_tx_bytes := None;
     e_discovered_at := 10; e_confirmed_at := 20; e_revoked_at := None;
     e_revocation_reason := None; e_relevance_reason := None |}.
Definition model : ReadModel :=
  mkReadModel {[ 1 := ev ]} t0 ∅ {[ 1 := mkSource "namecoin" "auxpow" ]} ∅ (Err (Other "empty")).
Definition sync : SyncStateRow := store_prefix SyncStateRow_default 1.
Definition db : SuffixDb := mkSuffixDb model (Some sync) ∅.

Definition input : CoreSuffixReplacementInput :=
  {| in_expected_local := locked_expected <$> [row h0 0; row old1 1];
     in_replacements := [mkReplacement 1 new1 cb; mkReplacement 2 new2 cb];
     in_pending_sync_target := None |}.

Definition run := replace_core_canonical_suffix_validated (λ _, None) (λ _ _, None) (λ _, EmptyString) 5 db 1 0 input
  (mret ()) (mret ()) tt.

Lemma t0_rows k r : t0 !! k = Some r →
  (k = block_hash h0 ∧ r = row h0 0) ∨ (k = block_hash old1 ∧ r = row old1 1).
Proof.
  unfold t0. intros Hl. apply lookup_insert_Some in Hl as [[<- <-]|[_ Hl]]; [by left|].
  apply lookup_singleton_Some in Hl as [<- <-]. by right.
Qed.

Lemma t0_ok : blocks_ok t0.
Proof.
  split.
  - intros k r [[-> ->]|[-> ->]]%t0_rows; split; vm_compute; reflexivity.
  - intros k r c [[_ ->]|[_ ->]]%t0_rows; discriminate.
Qed.

Lemma t0_heights : heights_true heights t0.
Proof. intros k r [[-> ->]|[-> ->]]%t0_rows _; vm_compute; reflexivity. Qed.

Lemma the_event i e : rm_events model !! i = Some e → i = 1 ∧ e = ev.
Proof. simpl. intros Hl. apply lookup_singleton_Some in Hl as [<- <-]. done. Qed.

Lemma evidence : evidence_ok prevs (canonical_in t0) model.
Proof.
  split.
  - intros i e [-> ->]%the_event. split; reflexivity.
  - intros i e h [-> ->]%the_event Hd.
    assert (deserialize_header (serialize_header old1) = Some old1) as E by (vm_compute; reflexivity).
    change (deserialize_header (serialize_header old1) = Some h) in Hd. rewrite E in Hd.
    injection Hd as <-. split; reflexivity.
  - intros i e [-> ->]%the_event. vm_compute. reflexivity.
  - intros i e [-> ->]%the_event. by eexists.
  - intros i e [-> ->]%the_event _ _. reflexivity.
Qed.

Lemma t0_prefix s : sx_sync db = Some s → prefix_ok t0 (contiguous_complete_height s).
Proof.
  intros [= <-]. split; [vm_compute; split; discriminate|]. intros k Hk. simpl in Hk.
  assert (k = 0 ∨ k = 1) as [-> | ->] by lia.
  - exists (row h0 0). split; [vm_compute; reflexivity|]. split; [vm_compute; reflexivity|]. done.
  - exists (row old1 1). split; [vm_compute; reflexivity|]. split; [vm_compute; reflexivity|].
    intros _. exists (row h0 0). split; vm_compute; reflexivity.
Qed.

Lemma suffix_replaced_witness :
  ∃ summary db', run = (Ok (summary, db'), tt) ∧ suffix_rows t0 (rm_blocks (sx_model db')) (in_replacements input) ∧
    ∃ s, sx_sync db' = Some s ∧ prefix_ok (rm_blocks (sx_model db')) (contiguous_complete_height s).
Proof.
  assert (is_ok run.1 = true) as Hok by (vm_compute; reflexivity).
  destruct run as [[[summary db']|e] []] eqn:Hr; [|discriminate Hok].
  exists summary, db'. split; [reflexivity|].
  destruct (suffix_replaced (λ _, None) (λ _ _, None) heights prevs (λ _, EmptyString) 5 db 1 0 input
    (mret ()) (mret ()) tt summary db' tt t0_ok t0_heights evidence) as (_ & Hrows & Hp & _).
  - repeat constructor; vm_compute; first [reflexivity | discriminate].
  - intros. reflexivity.
  - lia.
  - exact t0_prefix.
  - exact Hr.
  - exact (conj Hrows Hp).
Defined.
End CoreSuffixSample.
