(* ===== verification/Reorg.v ===== *)
(** * Near-tip reorganisations

    Models [bitcoin_core_backbone/reorg.rs]: the capture of a view of Core's chain by
    following the links down from a pinned tip, the plan that finds the nearest usable
    common ancestor, the fetch of the replacements, the repair of a stale cursor below
    the view, and the repair loop. The suffix itself is replaced by [CoreSuffix]; the
    queue is drained by [CoreQueue]; gaps are filled by [LiveWindow]. *)

From stdpp Require Import list_numbers sorting.
From S2P Require Import Prelude BitcoinLib Effects Errors Nbits Lineage Classifier LiveLoop Poller Blocks SyncState CoreQueue Backbone LiveWindow Events Reconcile CoreSuffix.

Record CoreViewRow := mkViewRow { cv_height : Z; cv_hash : bytes; cv_header : Header }.

Inductive RepairPlan := NoHashConflict | ReplaceFrom (first_replacement_index : nat).

Inductive RepairPlanError :=
| NoMatchingAnchor (first_divergence_height first_conflict_height view_start view_end : Z).

Inductive CursorRepairOutcome := NotNeeded | Replan | Replaced (stats : BitcoinCoreSyncStats).

Definition core_view_start_height (tip window_heights : Z) : Z :=
  Z.max (saturating_sub_i32 (live_backbone_window_start_height tip window_heights) 1) 0.

(** ** The plan *)

(** The local rows of a height, in order. *)
Definition conflicts (local_rows : list BlockInput) (core : CoreViewRow) : bool :=
  existsb (λ row, negb (bool_decide (b_hash row = cv_hash core))) (rows_of_height local_rows (cv_height core)).

(** A unique, complete row that matches Core. *)
Definition usable_anchor (local_rows : list BlockInput) (core : CoreViewRow) : bool :=
  match rows_of_height local_rows (cv_height core) with
  | [row] => bool_decide (b_hash row = cv_hash core) && is_complete row
  | _ => false
  end.

(** [(0..n).rev().find(p)]: the greatest index below [n] whose element passes. *)
Fixpoint rfind {A} (p : A → bool) (l : list A) (n : nat) : option nat :=
  match n with
  | O => None
  | S n => match l !! n with
           | Some x => if p x then Some n else rfind p l n
           | None => rfind p l n
           end
  end.

Definition plan_repair (core_view : list CoreViewRow) (local_rows : list BlockInput)
    : result RepairPlanError RepairPlan :=
  match position (conflicts local_rows) core_view with
  | None => Ok NoHashConflict
  | Some first_conflict_index =>
      match rfind (usable_anchor local_rows) core_view first_conflict_index with
      | Some matching_anchor_index => Ok (ReplaceFrom (matching_anchor_index + 1))
      | None =>
          let height i := default 0 (cv_height <$> core_view !! i) in
          let first_divergence :=
            default (height 0%nat)
              (cv_height <$> head (filter (λ core, usable_anchor local_rows core = false)
                                     (take (first_conflict_index + 1) core_view))) in
          Err (NoMatchingAnchor first_divergence (height first_conflict_index) (height 0%nat)
                 (default 0 (cv_height <$> last core_view)))
      end
  end.

Definition expected_local_rows (rows : list BlockInput) : list ExpectedCoreCanonicalRow :=
  locked_expected <$> rows.

Definition add_stats (a b : BitcoinCoreSyncStats) : BitcoinCoreSyncStats :=
  mkStats (attempted a + attempted b) (st_completed a + st_completed b)
    (skipped_complete a + skipped_complete b) (coinbase_failed a + coinbase_failed b).

Definition is_height_conflict {A} (r : result anyhow A) : bool :=
  match r with
  | Ok _ => false
  | Err e => match downcast_backbone e with Some HeightConflict => true | _ => false end
  end.

(** ** Reading Core *)

Section capture.
Context `{BitcoinLib} {W : Type} `{BitcoinCoreBackboneSource W}.

#[local] Abbreviation wM := (stM W anyhow).

(** [for height in (view_start..=target.height).rev()], on [n] heights down from [height];
    the rows come out in descending order. *)
Fixpoint capture_down (n : nat) (height : Z) (requested_hash : bytes) (stop : CoreViewRow → bool)
    : wM (list CoreViewRow) :=
  match n with
  | O => mret []
  | S n =>
      header ← on_err (Context "fetch Bitcoin Core active-chain header") (bb_block_header requested_hash);
      _ ← guardM (bool_decide (block_hash header = requested_hash))
            (Other "Bitcoin Core returned another header while capturing requested hash");
      let row := mkViewRow height (block_hash header) header in
      if stop row then mret [row] else
      rest ← capture_down n (height - 1) (prev_blockhash header) stop;
      mret (row :: rest)
  end.

Definition capture_core_view_until (target : BitcoinCoreBackboneTip) (view_start : Z)
    (stop : CoreViewRow → bool) : wM (list CoreViewRow) :=
  descending ← capture_down (Z.to_nat (tip_height target - view_start + 1)) (tip_height target)
                 (tip_hash target) stop;
  mret (reverse descending).

Definition capture_core_view (target : BitcoinCoreBackboneTip) (window_heights : Z) : wM (list CoreViewRow) :=
  capture_core_view_until target (core_view_start_height (tip_height target) window_heights) (λ _, false).

Definition capture_cursor_recovery_view (target : BitcoinCoreBackboneTip) (view_start : Z)
    (local_rows : list BlockInput) : wM (list CoreViewRow) :=
  capture_core_view_until target view_start (usable_anchor local_rows).

Fixpoint fetch_replacements (view : list CoreViewRow) : wM (list CoreCanonicalReplacement) :=
  match view with
  | [] => mret []
  | row :: view =>
      coinbase ← on_err (Context "fetch Bitcoin Core replacement coinbase")
                   (bb_block_coinbase (block_hash (cv_header row)));
      rest ← fetch_replacements view;
      mret (mkReplacement (cv_height row) (cv_header row) coinbase :: rest)
  end.
End capture.

(** ** The repair *)

Record RepairWorld (W : Type) := mkRepairWorld {
  rw_env : W;
  rw_model : ReadModel;
  rw_sync : option SyncStateRow;
  rw_queue : queue;
}.
Arguments mkRepairWorld {W}.
Arguments rw_env {W}.
Arguments rw_model {W}.
Arguments rw_sync {W}.
Arguments rw_queue {W}.

(** The queue is drained against the environment and the read model. *)
Section repair.
Context `{BitcoinLib} {W : Type} `{BitcoinCoreBackboneSource W} `{CoreHeaderSource W} `{Clock W}.
Context `{ReconcileEnv (W * ReadModel)}.
Context (invalid_blocks_lookup : bytes → option InvalidBlock).
Context (resolve_pool : bytes → option bytes → option Z) (hex : bytes → string) (now : Z).
(** The fuel of the drain, and the budget of a cascade. *)
Context (drain_fuel : queue → nat) (cascade_budget : Z).

#[local] Abbreviation pM := (stM (RepairWorld W) anyhow).

(** Run code of the backbone, of Core, and of the queue. *)
Definition on_backbone {A} (m : stM (BackboneWorld W) anyhow A) : pM A := λ w,
  let '(r, b) := m (mkBackboneWorld (rw_env w) (rm_blocks (rw_model w)) (rw_sync w) (rw_queue w)) in
  (r, mkRepairWorld (bb_env b) (with_blocks (rw_model w) (bb_blocks b)) (bb_sync b) (bb_queue b)).
Definition on_core {A} (m : stM W anyhow A) : pM A := λ w,
  let '(r, e) := m (rw_env w) in (r, mkRepairWorld e (rw_model w) (rw_sync w) (rw_queue w)).
Definition on_queue {A} (m : stM (QueueWorld (W * ReadModel)) anyhow A) : pM A := λ w,
  let '(r, q) := m (mkQueueWorld (rw_env w, rw_model w) (rw_queue w) (rw_sync w)) in
  (r, mkRepairWorld (q_env q).1 (q_env q).2 (q_sync q) (q_rows q)).

Definition reorg_integrity_failure {A} (height : Z) (message : string) : pM A :=
  _ ← on_backbone (record_sync_error height REORG_REPAIR_ERROR_CODE message);
  throw (integrity_error LiveWindowInvariant message).

Definition validate_target_bounds (target : BitcoinCoreBackboneTip) (cch : Z)
    (persisted_target_height : option Z) : pM unit :=
  if tip_height target <? cch
  then reorg_integrity_failure (tip_height target) "tip is below the proven contiguous cursor"
  else if match persisted_target_height with Some previous => tip_height target <? previous | None => false end
  then reorg_integrity_failure (tip_height target) "tip regressed below the persisted target"
  else mret ().

Definition load_local_canonical_rows (from to : Z) : pM (list BlockInput) :=
  _ ← on_err (Context "load local canonical rows for Core view") (on_core bb_statement);
  gets (λ w, canonical_rows_between (rm_blocks (rw_model w)) from to).

Definition cursor_recovery_target_before_view (cch view_start : Z) : pM (option BitcoinCoreBackboneTip) :=
  if (cch <? 0) || (view_start <=? cch) then mret None else
  rows ← load_local_canonical_rows cch cch;
  _ ← match rows with
      | [] => reorg_integrity_failure cch "contiguous cursor has no canonical row"
      | _ => mret ()
      end;
  _ ← (if existsb is_complete rows then mret ()
       else reorg_integrity_failure cch "contiguous cursor has no coinbase-complete canonical row");
  active_hash ← on_err (Context "fetch Bitcoin Core active hash at out-of-window contiguous cursor")
                  (on_core (bb_block_hash cch));
  mret match rows with
       | [row] => if bool_decide (b_hash row = active_hash) then None else Some (mkTip cch active_hash)
       | _ => Some (mkTip cch active_hash)
       end.

Definition record_plan_error {A} (e : RepairPlanError) : pM A :=
  let '(NoMatchingAnchor _ first_conflict_height _ _) := e in
  reorg_integrity_failure first_conflict_height "divergence has no complete matching anchor in bounded view".

(** [target_stability_failure] as the validators of the replacement run it. *)
Definition validate_targets (target replacement_target : BitcoinCoreBackboneTip) : stM W anyhow unit := λ e,
  let fail m := match m with None => mret () | Some err => throw err end in
  let run t := λ e, let '(r, b) := target_stability_failure t (mkBackboneWorld e ∅ None ∅) in (r, bb_env b) in
  (f ← run target;
   _ ← fail f;
   if bool_decide (replacement_target = target) then mret () else
   f ← run replacement_target;
   fail f) e.

(** The transaction of the replacement: committed only when it succeeds. *)
Definition replace_suffix (cch ca : Z) (input : CoreSuffixReplacementInput)
    (validate : stM W anyhow unit) : pM CoreSuffixReplacementSummary := λ w,
  match replace_core_canonical_suffix_validated invalid_blocks_lookup resolve_pool hex now
          (mkSuffixDb (rw_model w) (rw_sync w) (rw_queue w)) cch ca input validate validate (rw_env w) with
  | (Ok (summary, db), e) =>
      match bb_statement e with
      | (Ok _, e) => (Ok summary, mkRepairWorld e (sx_model db) (sx_sync db) (sx_queue db))
      | (Err err, e) => (Err err, mkRepairWorld e (rw_model w) (rw_sync w) (rw_queue w))
      end
  | (Err err, e) => (Err err, mkRepairWorld e (rw_model w) (rw_sync w) (rw_queue w))
  end.

Definition persist_repair_failure {A} (m : pM A) : pM A :=
  r ← attempt m;
  match r with
  | Ok a => mret a
  | Err e =>
      _ ← match downcast_integrity_failure e with
          | Some (code, height) => on_backbone (record_sync_error height code "")
          | None => mret ()
          end;
      throw (Context "atomically replace Bitcoin Core canonical near-tip suffix" e)
  end.

Definition drain_after_replacement (classifier : ConfiguredParentClassifier) : pM unit :=
  q ← gets rw_queue;
  r ← on_err (Context "reconcile dependents after Bitcoin Core canonical suffix replacement")
        (on_queue (drain_core_queue (drain_fuel q) (Configured_is_live classifier) cascade_budget));
  match r with Some _ => mret () | None => throw (Other "out of fuel") end.

Definition replace_planned_suffix (classifier : ConfiguredParentClassifier) (target : BitcoinCoreBackboneTip)
    (expected_cch : Z) (core_view : list CoreViewRow) (local_rows : list BlockInput)
    (first_replacement_index : nat) : pM BitcoinCoreSyncStats :=
  match core_view !! pred first_replacement_index, last core_view with
  | Some anchor, Some replacement =>
      let replacement_target := mkTip (cv_height replacement) (block_hash (cv_header replacement)) in
      replacements ← on_core (fetch_replacements (drop first_replacement_index core_view));
      _ ← on_backbone (verify_target_stable target);
      _ ← on_backbone (verify_target_stable replacement_target);
      _ ← persist_repair_failure
            (replace_suffix expected_cch (cv_height anchor)
               {| in_expected_local := expected_local_rows local_rows;
                  in_replacements := replacements;
                  in_pending_sync_target := Some (tip_height target, tip_hash target) |}
               (validate_targets target replacement_target));
      _ ← drain_after_replacement classifier;
      let n := Z.of_nat (length replacements) in
      mret (mkStats n n 0 0)
  | _, _ => throw (Other "index out of bounds")
  end.

Definition repair_cursor_before_view (classifier : ConfiguredParentClassifier)
    (target : BitcoinCoreBackboneTip) (window_heights cch view_start : Z) : pM CursorRepairOutcome :=
  cursor ← cursor_recovery_target_before_view cch view_start;
  match cursor with
  | None => mret NotNeeded
  | Some cursor_target =>
      let start := core_view_start_height (tip_height cursor_target) window_heights in
      local_rows ← load_local_canonical_rows start (tip_height cursor_target);
      cursor_view ← on_core (capture_cursor_recovery_view cursor_target start local_rows);
      _ ← on_backbone (verify_target_stable target);
      _ ← on_backbone (verify_target_stable cursor_target);
      match plan_repair cursor_view local_rows with
      | Err e => record_plan_error e
      | Ok NoHashConflict => mret Replan
      | Ok (ReplaceFrom i) =>
          stats ← replace_planned_suffix classifier target cch cursor_view local_rows i;
          mret (Replaced stats)
      end
  end.

(** One pass of the loop: another pass, with its flags and statistics, or the result. *)
Inductive repair_pass :=
| Again (may_replan_after_gap_conflict may_replan_after_cursor_race : bool) (stats : BitcoinCoreSyncStats)
| Finished (stats : BitcoinCoreSyncStats).

Definition repair_once (classifier : ConfiguredParentClassifier) (target : BitcoinCoreBackboneTip)
    (window_heights : Z) (gap_ok race_ok : bool) (accumulated : BitcoinCoreSyncStats) : pM repair_pass :=
  state ← on_backbone load_or_init_sync_state;
  let cch := ss_contiguous_complete_height state in
  _ ← validate_target_bounds target cch (ss_target_tip_height state);
  let view_start := core_view_start_height (tip_height target) window_heights in
  outcome ← repair_cursor_before_view classifier target window_heights cch view_start;
  match outcome with
  | Replan =>
      if race_ok then mret (Again gap_ok false accumulated)
      else throw (Other "Bitcoin Core cursor recovery view changed repeatedly while planning")
  | Replaced stats =>
      if Configured_is_live classifier then throw (LocalRecoveryPending "core_cursor_recovery_pending")
      else mret (Again gap_ok race_ok (add_stats accumulated stats))
  | NotNeeded =>
      core_view ← on_core (capture_core_view target window_heights);
      _ ← on_backbone (verify_target_stable target);
      local_rows ← load_local_canonical_rows view_start (tip_height target);
      match plan_repair core_view local_rows with
      | Err e => record_plan_error e
      | Ok NoHashConflict =>
          r ← attempt (on_backbone (repair_near_tip_gaps_to_target target window_heights));
          if gap_ok && is_height_conflict r then mret (Again false race_ok accumulated) else
          stats ← lift r;
          mret (Finished (add_stats accumulated stats))
      | Ok (ReplaceFrom i) =>
          replacement_stats ← replace_planned_suffix classifier target cch core_view local_rows i;
          gap_stats ← on_err (Context "fill gaps outside the replaced Bitcoin Core suffix")
                        (on_backbone (repair_near_tip_gaps_to_target target window_heights));
          mret (Finished (add_stats accumulated (add_stats replacement_stats gap_stats)))
      end
  end.

(** The loop; [None] when the fuel runs out. *)
Fixpoint repair_loop (fuel : nat) (classifier : ConfiguredParentClassifier) (target : BitcoinCoreBackboneTip)
    (window_heights : Z) (gap_ok race_ok : bool) (accumulated : BitcoinCoreSyncStats)
    : pM (option BitcoinCoreSyncStats) :=
  match fuel with
  | O => mret None
  | S fuel =>
      p ← repair_once classifier target window_heights gap_ok race_ok accumulated;
      match p with
      | Finished stats => mret (Some stats)
      | Again gap_ok race_ok stats =>
          repair_loop fuel classifier target window_heights gap_ok race_ok stats
      end
  end.

Definition repair_near_tip_backbone_to_target (fuel : nat) (classifier : ConfiguredParentClassifier)
    (target : BitcoinCoreBackboneTip) (window_heights : Z) : pM (option BitcoinCoreSyncStats) :=
  repair_loop fuel classifier target window_heights true true Stats_default.
End repair.

(** ** The plan *)

Lemma rfind_Some {A} (p : A → bool) l n i :
  rfind p l n = Some i ↔
  (i < n)%nat ∧ (∃ x, l !! i = Some x ∧ p x = true) ∧
  ∀ j y, (i < j < n)%nat → l !! j = Some y → p y = false.
Proof.
  revert i. induction n as [|n IH]; intros i; simpl.
  - split; [done|]. intros [Hi _]. lia.
  - destruct (l !! n) as [x|] eqn:Hx; [destruct (p x) eqn:Hp|].
    + split.
      * intros [= <-]. split_and!; [lia|by eauto|intros; lia].
      * intros (Hi & _ & Hlast). destruct (decide (i = n)) as [->|]; [done|].
        rewrite (Hlast n x) in Hp; [done|lia|done].
    + rewrite IH. split.
      * intros (Hi & Hex & Hlast). split_and!; [lia|done|]. intros j y Hj Hy.
        destruct (decide (j = n)) as [->|]; [congruence|]. apply (Hlast j); [lia|done].
      * intros (Hi & Hex & Hlast). destruct (decide (i = n)) as [->|]; [destruct Hex as (?&?&?); congruence|].
        split_and!; [lia|done|]. intros j y Hj. apply Hlast. lia.
    + rewrite IH. split.
      * intros (Hi & Hex & Hlast). split_and!; [lia|done|]. intros j y Hj Hy.
        destruct (decide (j = n)) as [->|]; [congruence|]. apply (Hlast j); [lia|done].
      * intros (Hi & Hex & Hlast). destruct (decide (i = n)) as [->|]; [destruct Hex as (?&?&?); congruence|].
        split_and!; [lia|done|]. intros j y Hj. apply Hlast. lia.
Qed.

Lemma rfind_None {A} (p : A → bool) l n :
  rfind p l n = None → ∀ j y, (j < n)%nat → l !! j = Some y → p y = false.
Proof.
  induction n as [|n IH]; simpl; intros Hf j y Hj Hy; [lia|].
  destruct (decide (j = n)) as [->|Hne].
  - rewrite Hy in Hf. by destruct (p y).
  - apply (IH) with (j := j); [|lia|done]. destruct (l !! n) as [x|]; [|done]. by destruct (p x).
Qed.

(** A local row contradicts Core at a height of the view. *)
Definition conflicting (local_rows : list BlockInput) (core : CoreViewRow) : Prop :=
  ∃ row, row ∈ local_rows ∧ b_height row = Some (cv_height core) ∧ b_hash row ≠ cv_hash core.

Definition anchors (local_rows : list BlockInput) (core : CoreViewRow) : Prop :=
  ∃ row, rows_of_height local_rows (cv_height core) = [row] ∧ b_hash row = cv_hash core ∧ is_complete row = true.

Lemma conflicts_true rows core : conflicts rows core = true ↔ conflicting rows core.
Proof.
  unfold conflicts, conflicting, rows_of_height. rewrite existsb_exists.
  setoid_rewrite negb_true_iff. setoid_rewrite bool_decide_eq_false. setoid_rewrite <-list_elem_of_In.
  setoid_rewrite list_elem_of_filter. naive_solver.
Qed.

Lemma usable_anchor_true rows core : usable_anchor rows core = true ↔ anchors rows core.
Proof.
  unfold usable_anchor, anchors. destruct (rows_of_height rows (cv_height core)) as [|row [|]].
  - split; [done|]. intros (? & ? & _). done.
  - rewrite andb_true_iff, bool_decide_eq_true. naive_solver.
  - split; [done|]. intros (? & ? & _). done.
Qed.

(** The branch that replaces. *)
Lemma plan_replace_from core_view local_rows i :
  plan_repair core_view local_rows = Ok (ReplaceFrom i) →
  ∃ a c anchor core, i = S a ∧ (a < c)%nat ∧ core_view !! a = Some anchor ∧ core_view !! c = Some core ∧
    anchors local_rows anchor ∧ conflicting local_rows core ∧
    (∀ j r, (j < c)%nat → core_view !! j = Some r → ¬ conflicting local_rows r) ∧
    ∀ j r, (a < j < c)%nat → core_view !! j = Some r → ¬ anchors local_rows r.
Proof.
  unfold plan_repair. destruct (position (conflicts local_rows) core_view) as [c|] eqn:Hc; [|done].
  apply position_Some in Hc as [(core & Hcore & Hconf) Hfirst].
  destruct (rfind (usable_anchor local_rows) core_view c) as [a|] eqn:Ha; [|done]. intros [= <-].
  apply rfind_Some in Ha as (Hlt & (anchor & Hanchor & Hu) & Hlast).
  exists a, c, anchor, core. rewrite <-usable_anchor_true, <-conflicts_true. split_and!; [lia|done..| |].
  - intros j r Hj Hr. rewrite <-conflicts_true, (Hfirst j r Hj Hr). done.
  - intros j r Hj Hr. rewrite <-usable_anchor_true, (Hlast j r Hj Hr). done.
Qed.

(** C32. The repair plan: there is nothing to replace exactly when no local row of the view
    contradicts Core; otherwise the replacement starts right after the nearest height below the
    first contradiction where the one local row is complete and matches Core, and the plan fails
    only when the view has no such height. *)
Theorem plan_repair_exact core_view local_rows :
  match plan_repair core_view local_rows with
  | Ok NoHashConflict => ∀ core, core ∈ core_view → ¬ conflicting local_rows core
  | Ok (ReplaceFrom i) =>
      ∃ a c anchor core, i = S a ∧ (a < c)%nat ∧ core_view !! a = Some anchor ∧ core_view !! c = Some core ∧
        anchors local_rows anchor ∧ conflicting local_rows core ∧
        (∀ j r, (j < c)%nat → core_view !! j = Some r → ¬ conflicting local_rows r) ∧
        ∀ j r, (a < j < c)%nat → core_view !! j = Some r → ¬ anchors local_rows r
  | Err (NoMatchingAnchor _ conflict_height _ _) =>
      ∃ c core, core_view !! c = Some core ∧ cv_height core = conflict_height ∧
        conflicting local_rows core ∧
        ∀ j r, (j < c)%nat → core_view !! j = Some r → ¬ conflicting local_rows r ∧ ¬ anchors local_rows r
  end.
Proof.
  destruct (plan_repair core_view local_rows) as [[|i]|[fd ch vs ve]] eqn:Hp.
  - unfold plan_repair in Hp. destruct (position _ _) as [c|] eqn:Hc; [by destruct (rfind _ _ _)|].
    intros core Hin. rewrite <-conflicts_true. pose proof (proj1 (position_None _ _) Hc core Hin). congruence.
  - by apply plan_replace_from.
  - unfold plan_repair in Hp. destruct (position _ _) as [c|] eqn:Hc; [|done].
    destruct (rfind _ _ _) as [a|] eqn:Ha; [done|]. apply position_Some in Hc as [(core & Hcore & Hconf) Hfirst].
    injection Hp as _ Hch _ _. rewrite Hcore in Hch. exists c, core. rewrite <-conflicts_true. split_and!; [done..|].
    intros j r Hj Hr. rewrite <-conflicts_true, <-usable_anchor_true.
    rewrite (Hfirst j r Hj Hr), (rfind_None _ _ _ Ha j r Hj Hr). done.
Qed.

(** ** The captured view *)

Section captured.
Context `{BitcoinLib} {W : Type} `{BitcoinCoreBackboneSource W}.

(** Rows down from a height: each is the header of its hash, and links to the next. *)
Record linked_down (height : Z) (hash : bytes) (rows : list CoreViewRow) : Prop := {
  ld_head : ∀ r, rows !! 0%nat = Some r → cv_hash r = hash;
  ld_row : ∀ i r, rows !! i = Some r → cv_height r = height - Z.of_nat i ∧ cv_hash r = block_hash (cv_header r);
  ld_link : ∀ i a b, rows !! i = Some a → rows !! S i = Some b → prev_blockhash (cv_header a) = cv_hash b;
}.

Lemma capture_down_spec n height hash stop e rows e' :
  capture_down n height hash stop e = (Ok rows, e') →
  linked_down height hash rows ∧ (length rows ≤ n)%nat ∧ ((0 < n)%nat → rows ≠ []).
Proof.
  revert height hash e rows. induction n as [|n IH]; intros height hash e rows Hc; simpl in Hc.
  - st_inv. split_and!; [split; intros *; done|done|lia].
  - st_inv. match goal with Hb : bool_decide _ = true |- _ => apply bool_decide_eq_true in Hb as Hh end.
    destruct (stop _) eqn:Hstop; st_inv.
    + split_and!; [|simpl; lia|done]. split.
      * intros r [= <-]. done.
      * intros [|i] r Hr; [|done]. simplify_eq/=. split; [lia|done].
      * intros [|i] a b _ Hb; done.
    + match goal with Hd : capture_down _ _ _ _ _ = _ |- _ => apply IH in Hd as ([Hhd Hrow Hlink] & Hlen & _) end.
      split_and!; [|simpl; lia|done]. split.
      * intros r [= <-]. done.
      * intros [|i] r Hr; simplify_eq/=; [split; [lia|done]|]. destruct (Hrow i r Hr). split; [lia|done].
      * intros [|i] a b Ha Hb; simplify_eq/=; [symmetry; by apply Hhd|by eapply Hlink].
Qed.

(** The rows of a view in ascending order, ending on the target. *)
Record view_ok (view_start : Z) (target : BitcoinCoreBackboneTip) (view : list CoreViewRow) : Prop := {
  vw_height : ∀ i r, view !! i = Some r →
    cv_height r = tip_height target - Z.of_nat (length view - 1 - i) ∧ view_start ≤ cv_height r ∧
    cv_hash r = block_hash (cv_header r);
  vw_link : ∀ i a b, view !! i = Some a → view !! S i = Some b →
    prev_blockhash (cv_header b) = block_hash (cv_header a);
  vw_last : ∀ r, last view = Some r → cv_height r = tip_height target ∧ block_hash (cv_header r) = tip_hash target;
}.

Lemma capture_view_ok target view_start stop e view e' :
  view_start ≤ tip_height target →
  capture_core_view_until target view_start stop e = (Ok view, e') → view_ok view_start target view.
Proof.
  intros Hle Hc. unfold capture_core_view_until in Hc. st_inv.
  match goal with Hd : capture_down _ _ _ _ _ = (Ok ?l, _) |- _ =>
    apply capture_down_spec in Hd as ([Hhd Hrow Hlink] & Hlen & _); rename l into rows end.
  assert (∀ i r, reverse rows !! i = Some r →
    (i < length rows)%nat ∧ rows !! (length rows - S i)%nat = Some r) as Hrev.
  { intros i r Hr. assert (i < length rows)%nat by (apply lookup_lt_Some in Hr; by rewrite length_reverse in Hr).
    split; [done|]. by rewrite reverse_lookup in Hr. }
  split.
  - intros i r [Hi Hr]%Hrev. destruct (Hrow _ _ Hr) as [-> ?]. rewrite length_reverse.
    split_and!; [f_equal; lia| |done]. lia.
  - intros i a b [Hi Ha]%Hrev [Hsi Hb]%Hrev. destruct (Hrow _ _ Ha) as [_ <-]. eapply Hlink; [exact Hb|].
    rewrite <-Ha. f_equal. lia.
  - intros r. rewrite last_reverse. destruct rows as [|x rows]; [done|]. intros [= <-].
    destruct (Hrow 0%nat x eq_refl) as [Hx Hx']. rewrite <-Hx', Hx. split; [lia|by apply Hhd].
Qed.

Lemma fetch_replacements_spec view e reps e' :
  fetch_replacements view e = (Ok reps, e') →
  length reps = length view ∧
  ∀ i rep, reps !! i = Some rep → ∃ r, view !! i = Some r ∧ cr_height rep = cv_height r ∧ cr_header rep = cv_header r.
Proof.
  revert e reps. induction view as [|r view IH]; intros e reps Hf; simpl in Hf; st_inv; [done|].
  match goal with Hd : fetch_replacements _ _ = _ |- _ => apply IH in Hd as [Hlen Hrows] end.
  split; [simpl; lia|]. intros [|i] rep Hrep; simplify_eq/=; [by eexists|by apply Hrows].
Qed.

Lemma linked_pairs_intro rs :
  (∀ i a b, rs !! i = Some a → rs !! S i = Some b →
     cr_height b = cr_height a + 1 ∧ prev_blockhash (cr_header b) = block_hash (cr_header a)) →
  linked_pairs rs = Ok ().
Proof.
  induction rs as [|a [|b rs] IH]; intros Hl; [done..|]. simpl.
  destruct (Hl 0%nat a b eq_refl eq_refl) as [Hh Hp]. rewrite (proj2 (Z.eqb_eq _ _) Hh). simpl.
  rewrite bool_decide_true by done. simpl. apply IH. intros i x y Hx Hy. by apply (Hl (S i)).
Qed.

Lemma expected_of_height rows ca :
  (∀ r, r ∈ rows → is_Some (b_height r)) →
  filter (λ x, ex_height x = ca) (expected_local_rows rows) = locked_expected <$> rows_of_height rows ca.
Proof.
  unfold expected_local_rows, rows_of_height. induction rows as [|r rows IH]; intros Hs; [done|].
  destruct (Hs r) as [h Hh]; [left|]. rewrite fmap_cons, !filter_cons, Hh. unfold locked_expected at 1. simpl.
  rewrite Hh. simpl. rewrite IH by (intros; apply Hs; by right).
  case_decide as Ha; case_decide as Hb; [done|congruence|congruence|done].
Qed.

Lemma validate_intro ca rows first reps :
  in_i32 (ca + 1) → cr_height first = ca + 1 → linked_pairs (first :: reps) = Ok () →
  (∃ row, rows_of_height rows ca = [row] ∧ b_hash row = prev_blockhash (cr_header first)) →
  (∀ r, r ∈ rows → is_Some (b_height r) ∧ length (b_hash r) = 32%nat ∧ length (b_prev_hash r) = 32%nat) →
  validate_replacement ca (expected_local_rows rows) (first :: reps) = Ok ().
Proof.
  intros Hi Hf Hl (row & Hrow & Hhash) Hlen. unfold validate_replacement.
  unfold checked_add_i32. rewrite checked_i32_in by done. cbn [ok_or mbind result_bind].
  rewrite (proj2 (Z.eqb_eq _ _) Hf). cbn [ensure mbind result_bind]. rewrite Hl. cbn [mbind result_bind].
  rewrite expected_of_height, Hrow by (intros r Hr; by apply Hlen). simpl.
  rewrite bool_decide_true by done. simpl. apply ensure_Ok, forallb_forall.
  intros x (r & -> & Hr)%list_elem_of_In%list_elem_of_fmap. destruct (Hlen r Hr) as (_ & H1 & H2). simpl.
  by rewrite H1, H2.
Qed.

(** C20. What the repair hands to the replacement is what the replacement asks for: a view captured
    from Core, planned against the local rows of the same heights and completed with its coinbases,
    passes the validation of the suffix (contiguous, linked, and attached to the one local row of
    the common ancestor) and ends on the pinned target. *)
Theorem planned_suffix_valid t target view_start stop e view e1 i e2 reps e3 :
  let local_rows := canonical_rows_between t view_start (tip_height target) in
  view_start ≤ tip_height target → i32_MIN ≤ view_start → tip_height target ≤ i32_MAX →
  (∀ r, r ∈ local_rows → length (b_hash r) = 32%nat ∧ length (b_prev_hash r) = 32%nat) →
  capture_core_view_until target view_start stop e = (Ok view, e1) →
  plan_repair view local_rows = Ok (ReplaceFrom i) →
  fetch_replacements (drop i view) e2 = (Ok reps, e3) →
  ∃ anchor rep, view !! pred i = Some anchor ∧ is_Some (last view) ∧
    validate_replacement (cv_height anchor) (expected_local_rows local_rows) reps = Ok () ∧
    last reps = Some rep ∧ cr_height rep = tip_height target ∧ block_hash (cr_header rep) = tip_hash target.
Proof.
  intros local_rows Hle Hmin Hmax Hlen Hcap Hplan Hfetch.
  apply capture_view_ok in Hcap as [Hheight Hlink Hlast]; [|done].
  apply plan_replace_from in Hplan as (a & c & anchor & core & -> & Hac & Ha & Hc & (row & Hrow & Hhash & _) & _).
  apply fetch_replacements_spec in Hfetch as [Hn Hreps]. rewrite length_drop in Hn.
  assert (c < length view)%nat as Hcl by (by eapply lookup_lt_Some).
  assert (∀ j rep, reps !! j = Some rep → ∃ r, view !! (S a + j)%nat = Some r ∧
    cr_height rep = cv_height r ∧ cr_header rep = cv_header r) as Hview.
  { intros j rep Hj. destruct (Hreps j rep Hj) as (r & Hr & ?). rewrite lookup_drop in Hr. by eauto. }
  destruct (Hheight a anchor Ha) as (Hah & Has & Hahash).
  destruct (last reps) as [rep|] eqn:Hlr.
  2: { apply last_None in Hlr as ->. simpl in Hn. lia. }
  exists anchor, rep. split_and!; [done|by apply last_is_Some; intros ->|..].
  - destruct reps as [|first reps]; [done|]. destruct (Hview 0%nat first eq_refl) as (r0 & Hr0 & Hh0 & Hd0).
    rewrite Nat.add_0_r in Hr0. pose proof (Hlink a anchor r0 Ha Hr0) as Hl0.
    destruct (Hheight _ _ Hr0) as (Hr0h & _).
    apply validate_intro.
    + unfold in_i32, i32_MIN, i32_MAX in *. lia.
    + lia.
    + apply linked_pairs_intro. intros j x y (rx & Hrx & -> & ->)%Hview (ry & Hry & -> & ->)%Hview.
      rewrite Nat.add_succ_r in Hry. split; [|by eapply Hlink]. destruct (Hheight _ _ Hrx) as [-> _], (Hheight _ _ Hry) as [-> _].
      apply lookup_lt_Some in Hry. lia.
    + exists row. rewrite Hd0, Hl0, <-Hahash. split; [|done].
      by rewrite <-Hrow.
    + intros r Hr. split; [|by apply Hlen]. apply elem_of_rows_between in Hr as (h & _ & [[_ Hh] _]%elem_of_rows).
      by exists h.
  - done.
  - destruct (Hview (pred (length reps)) rep) as (r & Hr & -> & _); [by rewrite <-last_lookup|].
    apply Hlast. rewrite last_lookup. rewrite <-Hr. f_equal. lia.
  - destruct (Hview (pred (length reps)) rep) as (r & Hr & _ & ->); [by rewrite <-last_lookup|].
    apply Hlast. rewrite last_lookup. rewrite <-Hr. f_equal. lia.
Qed.
End captured.

(** ** The loop *)

Section loop.
Context `{BitcoinLib} {W : Type} `{BitcoinCoreBackboneSource W} `{CoreHeaderSource W} `{Clock W}.
Context `{ReconcileEnv (W * ReadModel)}.
Context (invalid_blocks_lookup : bytes → option InvalidBlock).
Context (resolve_pool : bytes → option bytes → option Z) (hex : bytes → string) (now : Z).
Context (drain_fuel : queue → nat) (cascade_budget : Z).

#[local] Abbreviation once :=
  (repair_once invalid_blocks_lookup resolve_pool hex now drain_fuel cascade_budget (BitcoinCore true)).
#[local] Abbreviation loop fuel :=
  (repair_loop invalid_blocks_lookup resolve_pool hex now drain_fuel cascade_budget fuel (BitcoinCore true)).

(** Another pass spends one of the two licences. *)
Lemma again_spends target n gap race acc w g r acc' w' :
  once target n gap race acc w = (Ok (Again g r acc'), w') →
  (gap = true ∧ g = false ∧ r = race) ∨ (race = true ∧ r = false ∧ g = gap).
Proof.
  unfold repair_once. cbv zeta. intros Hp. st_inv.
  match goal with Hm : context [match ?o with NotNeeded => _ | _ => _ end] |- _ => destruct o end.
  - st_inv. destruct (plan_repair _ _) as [[|i]|[]]; [|by st_inv|by unfold record_plan_error, reorg_integrity_failure in *; st_inv].
    st_inv. match goal with Hm : context [gap && ?b] |- _ => destruct (gap && b) eqn:Hb end; st_inv.
    apply andb_true_iff in Hb as [-> _]. by left.
  - destruct race; st_inv. by right.
  - by st_inv.
Qed.

Lemma loop_ends target n gap race acc fuel w :
  (Nat.b2n gap + Nat.b2n race < fuel)%nat →
  (loop fuel target n gap race acc w).1 ≠ Ok None ∧
  ∀ more, loop (fuel + more) target n gap race acc w = loop fuel target n gap race acc w.
Proof.
  revert gap race acc w. induction fuel as [|fuel IH]; intros gap race acc w Hf; [lia|].
  simpl. unfold mbind, stM_bind. destruct (once target n gap race acc w) as [[[g r acc'|stats]|e] w'] eqn:Hp.
  - apply IH. apply again_spends in Hp as [(-> & -> & ->)|(-> & -> & ->)]; simpl in *; lia.
  - done.
  - done.
Qed.

(** In live mode the repair loop returns after at most three passes: a replan after a gap
    conflict and a replan after a cursor race are each granted once, and a replaced cursor suffix
    ends the call, so more passes never change the outcome. *)
Theorem repair_live_terminates target window_heights more w :
  let run fuel := repair_near_tip_backbone_to_target invalid_blocks_lookup resolve_pool hex now
                    drain_fuel cascade_budget fuel (BitcoinCore true) target window_heights w in
  (run 3%nat).1 ≠ Ok None ∧ run (3 + more)%nat = run 3%nat.
Proof. cbv zeta. unfold repair_near_tip_backbone_to_target. edestruct loop_ends as [H1' H2']; [|split; [exact H1'|apply H2']]. simpl. lia. Qed.
End loop.

Module ReorgSample.
Import Toy Sample CoreSuffixSample.

(** A Core whose active chain ends on the replacement of the stored block. *)
#[local] Instance core : BitcoinCoreBackboneSource unit := {
  bb_tip := λ e, (Ok (mkTip 2 (block_hash new2)), e);
  bb_block_hash h := λ e, (Ok (block_hash (if h =? 0 then h0 else if h =? 1 then new1 else new2)), e);
  bb_block_header k := λ e,
    (Ok (if bool_decide (k = block_hash new2) then new2
         else if bool_decide (k = block_hash new1) then new1 else h0), e);
  bb_block_coinbase k := λ e, (Ok cb, e);
  bb_statement := λ e, (Ok (), e);
  bb_resolve_pool _ := None;
  bb_has_missing_dependents _ := λ e, (Ok false, e);
  bb_cascade _ := λ e, (Ok (), e);
}.

Definition target : BitcoinCoreBackboneTip := mkTip 2 (block_hash new2).
Definition view : list CoreViewRow :=
  [mkViewRow 0 (block_hash h0) h0; mkViewRow 1 (block_hash new1) new1; mkViewRow 2 (block_hash new2) new2].
Definition local : list BlockInput := canonical_rows_between t0 0 2.

Lemma planned_suffix_valid_witness :
  plan_repair view local = Ok (ReplaceFrom 1) ∧
  ∃ anchor rep, view !! 0%nat = Some anchor ∧
    validate_replacement (cv_height anchor) (expected_local_rows local)
      [mkReplacement 1 new1 cb; mkReplacement 2 new2 cb] = Ok () ∧
    last [mkReplacement 1 new1 cb; mkReplacement 2 new2 cb] = Some rep ∧ block_hash (cr_header rep) = tip_hash target.
Proof.
  split; [vm_compute; reflexivity|].
  destruct (planned_suffix_valid t0 target 0 (λ _, false) tt view tt 1 tt
    [mkReplacement 1 new1 cb; mkReplacement 2 new2 cb] tt) as (anchor & rep & Ha & _ & Hv & Hl & _ & Hh).
  - simpl. lia.
  - vm_compute. discriminate.
  - vm_compute. discriminate.
  - assert (forallb (λ r, (length (b_hash r) =? 32)%nat && (length (b_prev_hash r) =? 32)%nat) local = true) as Hl
      by (vm_compute; reflexivity).
    intros r Hr%list_elem_of_In. rewrite forallb_forall in Hl. specialize (Hl r Hr).
    apply andb_true_iff in Hl as [Hl1%Nat.eqb_eq Hl2%Nat.eqb_eq]. exact (conj Hl1 Hl2).
  - vm_compute. reflexivity.
  - vm_compute. reflexivity.
  - vm_compute. reflexivity.
  - exists anchor, rep. auto.
Defined.
End ReorgSample.
