(* ===== verification/HeaderCache.v ===== *)
(** * The cache of Core's epoch headers

    Models [mmm-store/src/bitcoin_core_header.rs] and
    [mmm-producers/src/bitcoin_epoch_cache.rs]: the header table and its state row, the
    publication of a new snapshot, the scheduled recheck of unknown parents and its
    generations, the load of the difficulty table, and the refresh that reads a
    snapshot of Core and publishes it. Other sessions may publish between any two
    calls of a refresh; the transaction that publishes is atomic under its lock. *)

From stdpp Require Import list_numbers sorting.
From S2P Require Import Prelude BitcoinLib Effects Errors Nbits Lineage Classifier LiveLoop Poller Blocks SyncState CoreQueue Backbone LiveWindow Events.

(** ** Tables *)

Record BitcoinCoreHeader := mkCacheHeader {
  bh_height : Z;
  bh_block_hash : bytes;
  bh_block_time : Z;
  bh_bits : Z;
}.
#[global] Instance BitcoinCoreHeader_eq_dec : EqDecision BitcoinCoreHeader.
Proof. solve_decision. Defined.

(** A row of [bitcoin_core_header], stored under its height. *)
Record HeaderRow := mkHeaderRow { hr_header : BitcoinCoreHeader; hr_final : bool }.
Abbreviation header_table := (gmap Z HeaderRow).

Record RecheckScope := mkScope { orphans : bool; sources : option (list string) }.

(** The row of [bitcoin_core_header_cache_state]. *)
Record CacheState := mkCacheState {
  cs_horizon_time : Z;
  publication_revision : Z;
  core_cache_generation : Z;
  pending_generation : Z;
  pending_orphans : bool;
  pending_sources : option (list string);
  acknowledged_generation : Z;
  pass_generation : option Z;
  pass_orphans : option bool;
  pass_sources : option (list string);
  cursor_height : option Z;
  cursor_id : option Z;
}.
Definition CacheState_default : CacheState :=
  {| cs_horizon_time := 0; publication_revision := 0; core_cache_generation := 0;
     pending_generation := 0; pending_orphans := false; pending_sources := Some [];
     acknowledged_generation := 0; pass_generation := None; pass_orphans := None;
     pass_sources := None; cursor_height := None; cursor_id := None |}.

Record BitcoinCoreHeaderCacheUpdate := mkCacheUpdate {
  scheduled : bool;
  up_pending_orphans : bool;
  pending : bool;
}.

(** The tables a publication reads and writes. *)
Record CacheDb := mkCacheDb {
  cd_headers : header_table;
  cd_state : option CacheState;
  cd_queued : bool;
}.

(** [bitcoin_core_header_cache_integrity_error] and its [ensure]. *)
Definition cache_integrity_error (m : string) : anyhow := Context m HeaderCacheIntegrity.
Definition ensure_bitcoin_core_header_cache_integrity (c : bool) (m : string) : result anyhow unit :=
  ensure c (cache_integrity_error m).

Definition is_boundary (height : Z) : bool := Z.rem height 2016 =? 0.

(** The constraints of the table: ranges, the unique hash, the single horizon. *)
Definition chk_header (t : header_table) (h : BitcoinCoreHeader) (is_final : bool) : bool :=
  (0 <=? bh_height h) && (length (bh_block_hash h) =? 32)%nat && (0 <=? bh_block_time h)
  && (0 <=? bh_bits h) && (bh_bits h <=? 4294967295) && (negb is_final || is_boundary (bh_height h))
  && bool_decide (map_Forall (λ _ r, bh_block_hash (hr_header r) ≠ bh_block_hash h) t)
  && (is_boundary (bh_height h) || bool_decide (map_Forall (λ k _, is_boundary k = true) t)).

(** ** Scopes *)

Definition everything : RecheckScope := mkScope true None.
Definition pending_rows : RecheckScope := mkScope false None.
Definition nothing : RecheckScope := mkScope false (Some []).

Definition scope_union (a b : RecheckScope) : RecheckScope :=
  mkScope (orphans a || orphans b)
    match sources a, sources b with
    | Some mine, Some theirs => Some (mine ++ filter (λ s, s ∉ mine) theirs)
    | _, _ => None
    end.

Record RecheckPass := mkPass {
  rp_generation : Z;
  rp_scope : RecheckScope;
  rp_cursor : option (Z * Z);
}.
Record ScheduledRecheck := mkScheduled {
  sr_pending_generation : Z;
  sr_pending_scope : RecheckScope;
  sr_acknowledged_generation : Z;
  sr_pass : option RecheckPass;
}.

Definition is_pending (s : ScheduledRecheck) : bool := sr_acknowledged_generation s <? sr_pending_generation s.

Definition load_scheduled_recheck (s : CacheState) : ScheduledRecheck :=
  {| sr_pending_generation := pending_generation s;
     sr_pending_scope := mkScope (pending_orphans s) (pending_sources s);
     sr_acknowledged_generation := acknowledged_generation s;
     sr_pass := generation ← pass_generation s;
                Some (mkPass generation (mkScope (default false (pass_orphans s)) (pass_sources s))
                        (h ← cursor_height s; i ← cursor_id s; Some (h, i))) |}.

Definition set_pending (s : CacheState) (g : Z) (scope : RecheckScope) : CacheState :=
  mkCacheState (cs_horizon_time s) (publication_revision s) (core_cache_generation s) g (orphans scope)
    (sources scope) (acknowledged_generation s) (pass_generation s) (pass_orphans s) (pass_sources s)
    (cursor_height s) (cursor_id s).
Definition set_pass (s : CacheState) (g : option Z) (o : option bool) (src : option (list string))
    (cursor : option (Z * Z)) : CacheState :=
  mkCacheState (cs_horizon_time s) (publication_revision s) (core_cache_generation s) (pending_generation s)
    (pending_orphans s) (pending_sources s) (acknowledged_generation s) g o src (fst <$> cursor) (snd <$> cursor).

Definition bind_recheck_pass (s : CacheState) (scope : RecheckScope) : RecheckPass * CacheState :=
  (mkPass (pending_generation s) scope None,
   set_pending (set_pass s (Some (pending_generation s)) (Some (orphans scope)) (sources scope) None)
     (pending_generation s) nothing).

Definition persist_recheck_cursor (s : CacheState) (generation : Z) (cursor : Z * Z) : result anyhow CacheState :=
  if bool_decide (pass_generation s = Some generation)
  then Ok (set_pass s (pass_generation s) (pass_orphans s) (pass_sources s) (Some cursor))
  else Err (cache_integrity_error "the scheduled recheck pass is no longer bound to its generation").

Definition acknowledge_recheck_pass (s : CacheState) (generation : Z) : result anyhow CacheState :=
  if bool_decide (pass_generation s = Some generation)
  then let s := set_pass s None None None None in
       Ok (mkCacheState (cs_horizon_time s) (publication_revision s) (core_cache_generation s)
             (pending_generation s) (pending_orphans s) (pending_sources s) generation
             (pass_generation s) (pass_orphans s) (pass_sources s) (cursor_height s) (cursor_id s))
  else Err (cache_integrity_error "the scheduled recheck pass is no longer bound to its generation").

(** [array_agg(DISTINCT s)] of the three arrays; its order is not used. *)
Definition schedule_core_recheck (s : CacheState) (scope : RecheckScope) (invalidating : bool) : Z * CacheState :=
  let o := pending_orphans s || orphans scope || (invalidating && default false (pass_orphans s)) in
  let src :=
    match pending_sources s, sources scope with
    | Some p, Some q =>
        if invalidating && is_some (pass_generation s) && negb (is_some (pass_sources s)) then None
        else Some (remove_dups (p ++ q ++ if invalidating then default [] (pass_sources s) else []))
    | _, _ => None
    end in
  let s := set_pending s (pending_generation s + 1) (mkScope o src) in
  (pending_generation s, if invalidating then set_pass s None None None None else s).

(** ** Publication *)

Definition record_bitcoin_core_header_with_finality (t : header_table) (h : BitcoinCoreHeader)
    (is_final : bool) : result anyhow header_table :=
  _ ← ensure_bitcoin_core_header_cache_integrity (length (bh_block_hash h) =? 32)%nat
        "Bitcoin Core header has an invalid hash length";
  _ ← ensure_bitcoin_core_header_cache_integrity (negb is_final || is_boundary (bh_height h))
        "only a Bitcoin difficulty boundary can be final";
  match t !! bh_height h with
  | None =>
      _ ← ensure (chk_header t h is_final) (Other "check constraint of bitcoin_core_header");
      mret (<[bh_height h := mkHeaderRow h is_final]> t)
  | Some existing =>
      _ ← ensure_bitcoin_core_header_cache_integrity
            (bool_decide (hr_header existing = h) && eqb (hr_final existing) is_final)
            "Bitcoin Core header disagrees with the persisted canonical header";
      mret t
  end.

Fixpoint record_headers (t : header_table) (l : list BitcoinCoreHeader) (is_final : bool)
    : result anyhow header_table :=
  match l with
  | [] => mret t
  | h :: l => t ← record_bitcoin_core_header_with_finality t h is_final; record_headers t l is_final
  end.

Definition rows_of (t : header_table) : list HeaderRow := (map_to_list t).*2.
Definition max_final (t : header_table) : option Z :=
  sql_max ((λ r, bh_height (hr_header r)) <$> filter (λ r, hr_final r = true) (rows_of t)).
Definition max_cached (t : header_table) : option Z := sql_max ((λ r, bh_height (hr_header r)) <$> rows_of t).
Definition shallow_rows (t : header_table) : list BitcoinCoreHeader :=
  hr_header <$> filter (λ r, hr_final r = false) (rows_of t).

Definition cache_epoch_coverage_overlaps_prior_horizon (highest_final : option Z)
    (previous_shallow incoming : list BitcoinCoreHeader) (previous_horizon_time : Z) : bool :=
  let previous_epoch_height :=
    sql_max (option_list highest_final ++ filter (λ k, is_boundary k = true) (bh_height <$> previous_shallow)) in
  existsb (λ h, is_boundary (bh_height h)
                && match previous_epoch_height with Some k => k <? bh_height h | None => true end
                && (bh_block_time h <=? previous_horizon_time)) incoming.

Definition shallow_cache_reorged (previous_shallow incoming : list BitcoinCoreHeader) (horizon_height : Z)
    (prior_horizon_reorged : bool) : bool :=
  prior_horizon_reorged
  || existsb (λ previous,
       match List.find (λ h, bh_height h =? bh_height previous) incoming with
       | Some h => negb (bool_decide (h = previous))
       | None => false
       end) previous_shallow
  || match sql_max (bh_height <$> previous_shallow) with Some k => horizon_height <? k | None => false end.

Definition update_bitcoin_core_header_cache_state (previous : CacheState)
    (previous_horizon_height : option Z) (horizon : BitcoinCoreHeader) (current_observed_time : Z)
    (shallow_reorged overlaps : bool) : BitcoinCoreHeaderCacheUpdate * CacheState :=
  let horizon_advanced :=
    match previous_horizon_height with Some k => k <? bh_height horizon | None => true end in
  let cache_was_empty := negb (is_some previous_horizon_height) in
  let horizon_time := if shallow_reorged then current_observed_time
                      else Z.max (cs_horizon_time previous) current_observed_time in
  let invalidating := shallow_reorged || overlaps || cache_was_empty in
  let schedule := invalidating || horizon_advanced || (cs_horizon_time previous <? horizon_time) in
  let verdicts_may_change := shallow_reorged || overlaps in
  let accumulated := mkScope (pending_orphans previous) (pending_sources previous) in
  let pending_scope :=
    if schedule && invalidating then scope_union accumulated everything
    else if schedule then scope_union accumulated pending_rows
    else accumulated in
  let generation := if schedule then pending_generation previous + 1 else pending_generation previous in
  (mkCacheUpdate schedule (orphans pending_scope) (acknowledged_generation previous <? generation),
   {| cs_horizon_time := horizon_time;
      publication_revision := publication_revision previous + 1;
      core_cache_generation := core_cache_generation previous + (if verdicts_may_change then 1 else 0);
      pending_generation := generation;
      pending_orphans := orphans pending_scope;
      pending_sources := sources pending_scope;
      acknowledged_generation := acknowledged_generation previous;
      pass_generation := if invalidating then None else pass_generation previous;
      pass_orphans := if invalidating then None else pass_orphans previous;
      pass_sources := if invalidating then None else pass_sources previous;
      cursor_height := if invalidating then None else cursor_height previous;
      cursor_id := if invalidating then None else cursor_id previous |}).

(** The arguments of a publication. *)
Record Snapshot := mkSnapshot {
  sn_final_epoch_height : Z;
  sn_final_epochs : list BitcoinCoreHeader;
  sn_shallow_epoch : option BitcoinCoreHeader;
  sn_horizon : BitcoinCoreHeader;
  sn_prior_horizon_reorged : bool;
}.

Definition incoming (s : Snapshot) : list BitcoinCoreHeader :=
  sn_final_epochs s ++ option_list (sn_shallow_epoch s) ++ [sn_horizon s].

Definition snapshot_checks (s : Snapshot) : result anyhow unit :=
  _ ← ensure_bitcoin_core_header_cache_integrity
        (forallb (λ h, is_boundary (bh_height h) && (bh_height h <=? sn_final_epoch_height s)) (sn_final_epochs s))
        "final Bitcoin Core headers must be difficulty boundaries at or below the cutoff";
  match sn_shallow_epoch s with
  | Some h => ensure_bitcoin_core_header_cache_integrity
                (is_boundary (bh_height h) && (sn_final_epoch_height s <? bh_height h))
                "shallow Bitcoin Core header must be a boundary above the cutoff"
  | None => Ok ()
  end.

(** The headers after the replacement. *)
Definition replace_headers (t : header_table) (highest_final : option Z) (s : Snapshot)
    : result anyhow header_table :=
  let kept := filter (λ kr, hr_final kr.2 = true) t in
  t ← record_headers kept (sn_final_epochs s) true;
  t ← record_headers t (option_list (sn_shallow_epoch s)) false;
  record_bitcoin_core_header_with_finality t (sn_horizon s)
    ((bh_height (sn_horizon s) =? sn_final_epoch_height s)
     || match highest_final with Some k => bh_height (sn_horizon s) =? k | None => false end).

(** The transaction under its lock: [None] when the queue is not empty or another
    publication came first. *)
Definition publish (db : CacheDb) (s : Snapshot) (expected_revision : Z)
    : result anyhow (option (BitcoinCoreHeaderCacheUpdate * CacheDb)) :=
  let previous := default CacheState_default (cd_state db) in
  if cd_queued db || negb (publication_revision previous =? expected_revision) then Ok None else
  let t := cd_headers db in
  let highest_final := max_final t in
  _ ← ensure_bitcoin_core_header_cache_integrity (sn_final_epoch_height s <=? bh_height (sn_horizon s))
        "Bitcoin Core cache horizon must not precede the final cutoff";
  _ ← ensure_bitcoin_core_header_cache_integrity
        match highest_final with Some k => k <=? bh_height (sn_horizon s) | None => true end
        "Bitcoin Core cache horizon must not precede the highest finalized epoch";
  let previous_shallow := shallow_rows t in
  let overlaps := cache_epoch_coverage_overlaps_prior_horizon highest_final previous_shallow (incoming s)
                    (cs_horizon_time previous) in
  let reorged := shallow_cache_reorged previous_shallow (incoming s) (bh_height (sn_horizon s))
                   (sn_prior_horizon_reorged s) in
  t' ← replace_headers t highest_final s;
  observed ← ok_or (Other "null value") (sql_max ((λ r, bh_block_time (hr_header r)) <$> rows_of t'));
  let '(update, state) := update_bitcoin_core_header_cache_state previous (max_cached t) (sn_horizon s)
                            observed reorged overlaps in
  mret (Some (update, mkCacheDb t' (Some state) (cd_queued db))).

(** [replace_bitcoin_core_header_cache] without its connection. *)
Definition replace_cache (db : CacheDb) (s : Snapshot) (expected_revision : Z)
    : result anyhow (option (BitcoinCoreHeaderCacheUpdate * CacheDb)) :=
  _ ← snapshot_checks s;
  publish db s expected_revision.

(** ** The difficulty table *)

Definition header_le (a b : HeaderRow) : Prop := bh_height (hr_header a) ≤ bh_height (hr_header b).
#[global] Instance header_le_dec : RelDecision header_le.
Proof. unfold header_le. intros a b. apply _. Defined.

Definition to_epoch_header (r : HeaderRow) : BitcoinEpochHeader :=
  mkEpochHeader (bh_height (hr_header r)) (bh_block_time (hr_header r)) (bh_bits (hr_header r)).

(** The join with the state row is empty without one. *)
Definition load_bitcoin_core_nbits_table_if_present (db : CacheDb) : result anyhow (option NbitsTable) :=
  match cd_state db, merge_sort header_le (rows_of (cd_headers db)) with
  | Some s, (_ :: _) as rows =>
      _ ← ensure_bitcoin_core_header_cache_integrity
            (forallb (λ r, (0 <=? bh_bits (hr_header r)) && (bh_bits (hr_header r) <=? 4294967295)) rows)
            "cached Bitcoin Core header bits exceed u32";
      match from_bitcoin_core_headers_with_horizon_time (to_epoch_header <$> rows) (cs_horizon_time s) with
      | Ok t => Ok (Some t)
      | Err _ => Err (cache_integrity_error "invalid cache")
      end
  | _, _ => Ok None
  end.

Definition load_bitcoin_core_nbits_table (db : CacheDb) : result anyhow NbitsTable :=
  t ← load_bitcoin_core_nbits_table_if_present db;
  ok_or (cache_integrity_error "Bitcoin Core header cache is empty") t.

(** ** The refresh *)

Definition CORE_HEADER_REORG_SAFE_DEPTH : Z := 100.
Definition CORE_HEADER_SNAPSHOT_ATTEMPTS : nat := 3.

(** The cache as a session sees it: its tables, which other sessions may change during
    any call, a statement or transaction that may fail, and the drain of the queue. *)
Class HeaderCacheStore (W : Type) := {
  cache_db : W → CacheDb;
  set_cache_db : CacheDb → W → W;
  cache_statement : stM W anyhow unit;
  cache_drain : bool → stM W anyhow unit;
}.
Class HeaderCacheStoreLaws (W : Type) `{HeaderCacheStore W} :=
  cache_db_set db w : cache_db (set_cache_db db w) = db.

(** [(first..=last).step_by(2016)]. *)
Definition epoch_steps (first last : Z) : list Z :=
  (λ i, first + 2016 * i) <$> seqZ 0 ((last - first) / 2016 + 1).

Definition bitcoin_core_header_cache_row (h : CoreHeader) : BitcoinCoreHeader :=
  mkCacheHeader (ch_height h) (ch_hash h) (ch_header_time h) (ch_nbits h).

#[global] Instance CoreHeader_eq_dec : EqDecision CoreHeader.
Proof. solve_decision. Defined.

Definition cache_snapshot_is_current (opening_tip : SyncedTip) (opening_horizon : CoreHeader)
    (closing_tip : SyncedTip) (closing_horizon : CoreHeader) : bool :=
  (st_height opening_tip =? st_height closing_tip) && bool_decide (opening_horizon = closing_horizon).

Section refresh.
Context `{BitcoinLib} {W : Type} `{CoreHeaderSource W} `{Clock W} `{HeaderCacheStore W}.
Context (classifier : ConfiguredParentClassifier).

#[local] Abbreviation cM := (stM W anyhow).

(** A query of the cache. *)
Definition read_cache {A} (f : CacheDb → A) : cM A :=
  _ ← cache_statement;
  gets (λ w, f (cache_db w)).

Definition checked_ready_tip : cM SyncedTip :=
  on_err (λ e, match downcast_fault e with
               | Some WrongNetwork =>
                   Context "Bitcoin Core must be connected to mainnet; refusing monitor work" (HeaderCacheContext e)
               | _ => e
               end)
    (Configured_ready_tip classifier).

Definition load_core_cache_publication_revision : cM Z :=
  s ← read_cache cd_state;
  lift (publication_revision <$> ok_or (Other "query returned an unexpected number of rows") s).

Definition highest_final_bitcoin_core_epoch : cM (option Z) := read_cache (λ db, max_final (cd_headers db)).

Definition cache_horizon (t : header_table) : option BitcoinCoreHeader :=
  last (hr_header <$> merge_sort header_le (rows_of t)).
Definition load_bitcoin_core_header_cache_horizon : cM (option BitcoinCoreHeader) :=
  read_cache (λ db, cache_horizon (cd_headers db)).

Fixpoint fetch_epochs (heights : list Z) : cM (list BitcoinCoreHeader) :=
  match heights with
  | [] => mret []
  | height :: heights =>
      header ← on_err (Context "fetch Bitcoin Core epoch header") (Configured_canonical_header classifier height);
      rest ← fetch_epochs heights;
      mret (bitcoin_core_header_cache_row header :: rest)
  end.
Definition fetch_final_epochs (first last : Z) : cM (list BitcoinCoreHeader) :=
  if last <? first then mret [] else fetch_epochs (epoch_steps first last).

(** The transaction of [replace_bitcoin_core_header_cache]. *)
Definition replace_bitcoin_core_header_cache (s : Snapshot) (expected_revision : Z)
    : cM (option BitcoinCoreHeaderCacheUpdate) :=
  _ ← lift (snapshot_checks s);
  _ ← cache_statement;
  db ← gets cache_db;
  r ← lift (publish db s expected_revision);
  match r with
  | None => mret None
  | Some (update, db) => _ ← modify (set_cache_db db); mret (Some update)
  end.

Definition prior_horizon_reorged_from (prior : option BitcoinCoreHeader) (horizon_height : Z) : cM bool :=
  match opt_filter (λ h, bh_height h <? horizon_height) prior with
  | Some cached =>
      observed ← on_err (Context "verify prior Bitcoin Core header-cache horizon")
                   (Configured_canonical_header classifier (bh_height cached));
      mret (negb (bool_decide (bh_block_hash (bitcoin_core_header_cache_row observed) = bh_block_hash cached)))
  | None => mret false
  end.

Definition fetch_shallow_epoch (current_epoch final_epoch : Z) (highest_final : option Z)
    : cM (option BitcoinCoreHeader) :=
  if (final_epoch <? current_epoch)
     && match highest_final with Some k => k <? current_epoch | None => true end
  then
    header ← on_err (Context "fetch shallow Bitcoin Core epoch header")
               (Configured_canonical_header classifier current_epoch);
    mret (Some (bitcoin_core_header_cache_row header))
  else mret None.

Definition horizon_height_of (tip next_epoch : Z) : Z :=
  if Configured_is_live classifier
  then Z.min tip (add_i32 (add_i32 next_epoch (24 * DAA_EPOCH_INTERVAL)) CORE_HEADER_REORG_SAFE_DEPTH)
  else tip.

Definition next_epoch_of (highest_final : option Z) : Z :=
  match highest_final with Some k => add_i32 k DAA_EPOCH_INTERVAL | None => 0 end.

Definition refresh_bitcoin_core_header_cache_snapshot : cM (option (NbitsTable * BitcoinCoreHeaderCacheUpdate)) :=
  tip ← checked_ready_tip;
  revision ← load_core_cache_publication_revision;
  highest_final ← highest_final_bitcoin_core_epoch;
  let next_epoch := next_epoch_of highest_final in
  let horizon_height := horizon_height_of (st_height tip) next_epoch in
  prior_horizon ← load_bitcoin_core_header_cache_horizon;
  opening_horizon ← on_err (Context "fetch opening Bitcoin Core header-cache horizon")
                      (Configured_canonical_header classifier horizon_height);
  prior_horizon_reorged ← prior_horizon_reorged_from prior_horizon horizon_height;
  let final_epoch := daa_epoch_start (saturating_sub_i32 horizon_height CORE_HEADER_REORG_SAFE_DEPTH) in
  final_epochs ← fetch_final_epochs next_epoch final_epoch;
  let current_epoch := daa_epoch_start horizon_height in
  shallow_epoch ← fetch_shallow_epoch current_epoch final_epoch highest_final;
  closing_tip ← checked_ready_tip;
  closing_horizon ← on_err (Context "recheck Bitcoin Core header-cache horizon")
                      (Configured_canonical_header classifier horizon_height);
  if negb (cache_snapshot_is_current tip opening_horizon closing_tip closing_horizon) then mret None else
  update ← replace_bitcoin_core_header_cache
             (mkSnapshot final_epoch final_epochs shallow_epoch (bitcoin_core_header_cache_row opening_horizon)
                prior_horizon_reorged) revision;
  match update with
  | None => mret None
  | Some update =>
      if horizon_height <? st_height tip then throw (LocalRecoveryPending "core_cache_bootstrap_pending") else
      db ← read_cache id;
      table ← lift (load_bitcoin_core_nbits_table db);
      mret (Some (table, update))
  end.

(** [n] attempts are left; the first attempt does not drain. *)
Fixpoint refresh_attempts (n : nat) (first : bool) : cM NbitsTable :=
  match n with
  | O => throw (LocalRecoveryPending "core_cache_publication_pending")
  | S n =>
      _ ← (if negb first && negb (Configured_is_live classifier)
           then cache_drain (Configured_is_live classifier) else mret ());
      r ← attempt refresh_bitcoin_core_header_cache_snapshot;
      match r with
      | Ok (Some (table, _)) => mret table
      | Ok None => refresh_attempts n false
      | Err e => if bool_decide (pg_code e = Some LOCK_NOT_AVAILABLE) then refresh_attempts n false else throw e
      end
  end.

Definition refresh_bitcoin_core_header_cache : cM NbitsTable :=
  _ ← checked_ready_tip;
  _ ← cache_statement;
  _ ← cache_drain (Configured_is_live classifier);
  refresh_attempts CORE_HEADER_SNAPSHOT_ATTEMPTS true.
End refresh.

(** ** The scheduled recheck *)

(** A parent with or without a verdict, witnessed by a source, is in a scope. *)
Definition covers (sc : RecheckScope) (classified : bool) (source : string) : Prop :=
  (classified = true → orphans sc = true) ∧
  match sources sc with None => True | Some l => source ∈ l end.

(** What the state still owes: the pending scope and the bound pass. *)
Definition owed (s : CacheState) (classified : bool) (source : string) : Prop :=
  covers (sr_pending_scope (load_scheduled_recheck s)) classified source ∨
  ∃ pass, sr_pass (load_scheduled_recheck s) = Some pass ∧ covers (rp_scope pass) classified source.

(** The statements that change the schedule, as their callers run them. *)
Inductive recheck_step (s : CacheState) : CacheState → Prop :=
| step_publish previous_horizon horizon observed reorged overlaps :
    recheck_step s (update_bitcoin_core_header_cache_state s previous_horizon horizon observed reorged overlaps).2
| step_schedule scope invalidating : recheck_step s (schedule_core_recheck s scope invalidating).2
| step_bind :
    is_pending (load_scheduled_recheck s) = true → sr_pass (load_scheduled_recheck s) = None →
    recheck_step s (bind_recheck_pass s (sr_pending_scope (load_scheduled_recheck s))).2
| step_cursor generation cursor s' : persist_recheck_cursor s generation cursor = Ok s' → recheck_step s s'
| step_acknowledge generation s' : acknowledge_recheck_pass s generation = Ok s' → recheck_step s s'.

Record recheck_inv (s : CacheState) : Prop := {
  ri_acknowledged : acknowledged_generation s ≤ pending_generation s;
  ri_pass g : pass_generation s = Some g → acknowledged_generation s < g ≤ pending_generation s;
  ri_shape : pass_generation s = None → pass_orphans s = None ∧ pass_sources s = None;
  ri_idle : default (acknowledged_generation s) (pass_generation s) = pending_generation s →
            pending_orphans s = false ∧ pending_sources s = Some [];
}.

Lemma recheck_inv_default : recheck_inv CacheState_default.
Proof. by split. Qed.

(** Whether a publication schedules a recheck. *)
Ltac destruct_schedule s :=
  match goal with |- context [?a || (cs_horizon_time s <? ?b)] => destruct (a || (cs_horizon_time s <? b)) end;
  simpl.

Lemma recheck_inv_step s s' : recheck_inv s → recheck_step s s' → recheck_inv s'.
Proof.
  intros [Ha Hp Hs Hi] [ph hz obs reorg over|scope inv|Hpend Hnone|g c ? Hc|g ? Hc]; simpl in *.
  - destruct (reorg || over || negb (is_some ph)) eqn:Einv; simpl.
    { split; simpl; [lia|done|done|intros; lia]. }
    destruct_schedule s; split; simpl; try done; try lia.
    + intros g Hg. specialize (Hp g Hg). lia.
    + destruct (pass_generation s) as [g|] eqn:Eg; simpl; [specialize (Hp g eq_refl); lia|lia].
  - destruct inv; split; simpl; try done; try lia.
    + intros g Hg. specialize (Hp g Hg). lia.
    + destruct (pass_generation s) as [g|] eqn:Eg; simpl; [specialize (Hp g eq_refl); lia|lia].
  - unfold is_pending in Hpend. simpl in Hpend. split; simpl; [done| |done|done]. intros g [= <-]. lia.
  - unfold persist_recheck_cursor in Hc. case_bool_decide; simplify_eq. by split.
  - unfold acknowledge_recheck_pass in Hc. case_bool_decide as Hg; simplify_eq. specialize (Hp g Hg).
    rewrite Hg in Hi. split; simpl in *; [lia|done|done|]. intros Heq. by apply Hi.
Qed.

Lemma covers_union_l a b c src : covers a c src → covers (scope_union a b) c src.
Proof.
  intros [Ho Hs]. split; simpl; [intros Hc; by rewrite Ho|].
  destruct (sources a), (sources b); try done. apply elem_of_app. by left.
Qed.

Lemma owed_pending s c src :
  recheck_inv s → owed s c src → is_pending (load_scheduled_recheck s) = true.
Proof.
  intros [Ha Hp Hs Hi] Ho. unfold is_pending. simpl. apply Z.ltb_lt.
  destruct (pass_generation s) as [g|] eqn:Eg; simpl in *; [specialize (Hp g eq_refl); lia|].
  destruct Ho as [[_ Ho]|(pass & Hpass & _)]; simpl in *.
  - destruct (decide (acknowledged_generation s = pending_generation s)) as [E|]; [|lia].
    destruct (Hi E) as [_ Hn]. rewrite Hn in Ho. by apply not_elem_of_nil in Ho.
  - rewrite Eg in Hpass. done.
Qed.

Lemma owed_schedule s scope inv c src :
  recheck_inv s → owed s c src → owed (schedule_core_recheck s scope inv).2 c src.
Proof.
  intros [_ _ Hs _] Ho. destruct inv.
  - left. split; simpl.
    + intros ->. destruct Ho as [[Ho _]|(pass & Hpass & [Ho _])]; simpl in *; [by rewrite Ho|].
      destruct (pass_generation s); simplify_eq/=. rewrite Ho by done. by rewrite orb_true_r.
    + destruct Ho as [[_ Ho]|(pass & Hpass & [_ Ho])]; simpl in *.
      * destruct (pending_sources s), (sources scope); try done. destruct (_ && _); [done|].
        apply elem_of_remove_dups, elem_of_app. by left.
      * destruct (pass_generation s); simplify_eq/=. destruct (pending_sources s), (sources scope); try done.
        destruct (pass_sources s); [|done]. simpl. apply elem_of_remove_dups. rewrite !elem_of_app. by right; right.
  - destruct Ho as [[Ho1 Ho2]|Ho]; [left|by right]. split; simpl in *.
    + intros Hc. by rewrite Ho1.
    + destruct (pending_sources s), (sources scope); try done. apply elem_of_remove_dups, elem_of_app. by left.
Qed.

(** Work owed stays owed until a pass that covers it is acknowledged. *)
Lemma owed_step s s' c src :
  recheck_inv s → recheck_step s s' → owed s c src →
  owed s' c src ∨
  ∃ pass, sr_pass (load_scheduled_recheck s) = Some pass ∧ covers (rp_scope pass) c src ∧
    acknowledge_recheck_pass s (rp_generation pass) = Ok s'.
Proof.
  intros Hinv Hstep Ho.
  destruct Hstep as [ph hz obs reorg over|scope inv|Hpend Hnone|g cur s' Hc|g s' Hc].
  - left. unfold owed, load_scheduled_recheck in *. simpl in *.
    destruct (reorg || over || negb (is_some ph)) eqn:Einv; simpl in *.
    + left. split; simpl; [by rewrite orb_true_r|by destruct (pending_sources s)].
    + destruct Ho as [Ho|Ho]; [|by right]. left. destruct_schedule s; [|done].
      apply (covers_union_l (mkScope (pending_orphans s) (pending_sources s)) pending_rows). exact Ho.
  - left. by apply owed_schedule.
  - left. right. unfold owed in Ho. rewrite Hnone in Ho. destruct Ho as [Ho|(pass & ? & _)]; [|done].
    eexists. split; [reflexivity|]. exact Ho.
  - left. unfold persist_recheck_cursor in Hc. case_bool_decide as Hg; simplify_eq.
    destruct Ho as [Ho|(pass & Hpass & Hcov)]; [by left|right].
    unfold load_scheduled_recheck in *. simpl in *. rewrite Hg in *. simpl in *. simplify_eq. by eexists.
  - pose proof Hc as Hc'. unfold acknowledge_recheck_pass in Hc. case_bool_decide as Hg; simplify_eq.
    destruct Ho as [Ho|(pass & Hpass & Hcov)]; [left; by left|]. right. exists pass. split_and!; [done|done|].
    simpl in Hpass. rewrite Hg in Hpass. simpl in Hpass. simplify_eq/=. exact Hc'.
Qed.

(** C36. Scheduled work is never lost: whatever publications, triggers, binds, page cursors and
    acknowledgements came before, a parent the schedule owes a recheck keeps the job pending,
    and one more step still owes it unless it acknowledges a pass that covered it. *)
Theorem recheck_never_lost s s' classified source :
  rtc recheck_step CacheState_default s → recheck_step s s' → owed s classified source →
  is_pending (load_scheduled_recheck s) = true ∧
  (owed s' classified source ∨
   ∃ pass, sr_pass (load_scheduled_recheck s) = Some pass ∧ covers (rp_scope pass) classified source ∧
     acknowledge_recheck_pass s (rp_generation pass) = Ok s').
Proof.
  intros Hr Hstep Ho.
  assert (recheck_inv s) as Hinv.
  { pose proof recheck_inv_default as Hd. induction Hr; eauto using recheck_inv_step. }
  split; [by eapply owed_pending|by eapply owed_step].
Qed.

(** ** The header table *)

Lemma foldr_max_spec a l :
  foldr Z.max a l ∈ a :: l ∧ ∀ x, x ∈ a :: l → x ≤ foldr Z.max a l.
Proof.
  induction l as [|c l [IH1 IH2]]; simpl.
  { split; [left|]. by intros x ->%list_elem_of_singleton. }
  split.
  - destruct (Z.max_spec c (foldr Z.max a l)) as [[? ->]|[? ->]]; [|right; left].
    apply elem_of_cons in IH1 as [->|]; [left|right; by right].
  - intros x [->|[->|Hx]%elem_of_cons]%elem_of_cons; [|lia|].
    + etrans; [apply IH2; left|lia].
    + etrans; [apply IH2; by right|lia].
Qed.

Lemma sql_max_spec l m : sql_max l = Some m ↔ m ∈ l ∧ ∀ x, x ∈ l → x ≤ m.
Proof.
  destruct l as [|a l]; simpl; [split; [done|by intros [?%not_elem_of_nil _]]|].
  destruct (foldr_max_spec a l) as [H1' H2']. split; [by intros [= <-]|].
  intros [Hm Hmax]. f_equal. apply Z.le_antisymm; [by apply Hmax|by apply H2'].
Qed.

Lemma sql_max_None l : sql_max l = None ↔ l = [].
Proof. by destruct l. Qed.

Lemma elem_of_rows_of (t : header_table) r : r ∈ rows_of t ↔ ∃ k, t !! k = Some r.
Proof.
  unfold rows_of. rewrite list_elem_of_fmap. split.
  - intros ([k r'] & -> & Hin%elem_of_map_to_list). by exists k.
  - intros (k & Hk). exists (k, r). split; [done|]. by apply elem_of_map_to_list.
Qed.

Lemma is_boundary_true k : 0 ≤ k → is_boundary k = true ↔ k = 2016 * (k / 2016).
Proof.
  intros Hk. unfold is_boundary. rewrite Z.eqb_eq, Z.rem_mod_nonneg by lia.
  pose proof (Z.div_mod k 2016). lia.
Qed.

(** Heights leave room in an [i32] for the sums the refresh forms. *)
Definition MAX_HEIGHT : Z := 2147400000.

(** Every epoch up to the highest row is cached, final epochs come first, and the one row
    that is not a boundary is the highest. *)
Record cache_ok (t : header_table) : Prop := {
  ck_row k r : t !! k = Some r →
    bh_height (hr_header r) = k ∧ 0 ≤ k ≤ MAX_HEIGHT ∧ 0 ≤ bh_bits (hr_header r) ≤ 4294967295;
  ck_final k r : t !! k = Some r → hr_final r = true →
    is_boundary k = true ∧
    ∀ j, 0 ≤ j ≤ k → is_boundary j = true → ∃ r', t !! j = Some r' ∧ hr_final r' = true;
  ck_epochs k j : is_Some (t !! k) → 0 ≤ j ≤ k → is_boundary j = true → is_Some (t !! j);
  ck_horizon k j : is_Some (t !! k) → is_boundary k = false → is_Some (t !! j) → j ≤ k;
}.

Lemma cache_ok_empty : cache_ok ∅.
Proof. split; intros *; rewrite ?lookup_empty; try done; by intros []. Qed.

Lemma max_final_Some t k :
  cache_ok t → max_final t = Some k ↔
  (∃ r, t !! k = Some r ∧ hr_final r = true) ∧ ∀ j r, t !! j = Some r → hr_final r = true → j ≤ k.
Proof.
  intros Hok. unfold max_final. rewrite sql_max_spec. setoid_rewrite list_elem_of_fmap.
  setoid_rewrite list_elem_of_filter. setoid_rewrite elem_of_rows_of. split.
  - intros [(r & -> & Hf & j & Hj) Hmax]. destruct (ck_row _ Hok _ _ Hj) as [<- _]. split; [by exists r|].
    intros i r' Hi Hf'. destruct (ck_row _ Hok _ _ Hi) as [<- _]. apply Hmax. eauto.
  - intros [(r & Hr & Hf) Hmax]. destruct (ck_row _ Hok _ _ Hr) as [Hk _]. split; [by eauto 10|].
    intros x (r' & -> & Hf' & j & Hj). destruct (ck_row _ Hok _ _ Hj) as [-> _]. by eapply Hmax.
Qed.

Lemma max_final_None t : max_final t = None ↔ ∀ k r, t !! k = Some r → hr_final r = false.
Proof.
  unfold max_final. rewrite sql_max_None. split.
  - intros Hn k r Hr. destruct (hr_final r) eqn:Hf; [|done]. exfalso.
    apply fmap_nil_inv in Hn. apply (not_elem_of_nil r). rewrite <-Hn. apply list_elem_of_filter.
    split; [done|]. apply elem_of_rows_of. eauto.
  - intros Hn. rewrite list_filter_none; [done|]. intros r (k & Hk)%elem_of_rows_of. rewrite (Hn k r Hk). done.
Qed.

(** A boundary is final exactly up to the highest final one. *)
Lemma final_below t k :
  cache_ok t → is_boundary k = true → 0 ≤ k →
  (∃ r, t !! k = Some r ∧ hr_final r = true) ↔ ∃ m, max_final t = Some m ∧ k ≤ m.
Proof.
  intros Hok Hb Hk. split.
  - intros (r & Hr & Hf). destruct (max_final t) as [m|] eqn:Hm.
    + apply (max_final_Some _ _ Hok) in Hm as [_ Hmax]. eauto.
    + rewrite (proj1 (max_final_None t) Hm k r Hr) in Hf. done.
  - intros (m & Hm & Hle). apply (max_final_Some _ _ Hok) in Hm as [(r & Hr & Hf) _].
    apply (ck_final _ Hok _ _ Hr Hf); [done|done].
Qed.

(** ** Recording headers *)

Definition row_fits (k : Z) (r : HeaderRow) : Prop :=
  bh_height (hr_header r) = k ∧ 0 ≤ k ∧ 0 ≤ bh_bits (hr_header r) ≤ 4294967295.

Lemma record_Ok t h fin t' :
  (∀ k r, t !! k = Some r → row_fits k r) →
  record_bitcoin_core_header_with_finality t h fin = Ok t' →
  t' = <[bh_height h := mkHeaderRow h fin]> t ∧ row_fits (bh_height h) (mkHeaderRow h fin) ∧
  (t !! bh_height h = None ∨ t !! bh_height h = Some (mkHeaderRow h fin)).
Proof.
  intros Hfit Hr. unfold record_bitcoin_core_header_with_finality, ensure_bitcoin_core_header_cache_integrity in Hr.
  res_inv. destruct (t !! bh_height h) as [[h' fin']|] eqn:Hl; res_inv.
  - simpl in *. match goal with Hc : _ && _ = true |- _ => apply andb_true_iff in Hc as [Hh Hf] end.
    apply bool_decide_eq_true in Hh as ->. apply eqb_prop in Hf as ->.
    split; [by rewrite insert_id|]. split; [by apply Hfit|by right].
  - match goal with Hc : chk_header _ _ _ = true |- _ => unfold chk_header in Hc; repeat (apply andb_true_iff in Hc as [Hc ?]) end.
    split; [done|]. split; [|by left]. unfold row_fits. simpl. lia.
Qed.

Lemma record_headers_Ok l fin : ∀ t t',
  (∀ k r, t !! k = Some r → row_fits k r) → record_headers t l fin = Ok t' →
  (∀ k r, t' !! k = Some r → row_fits k r) ∧
  (∀ k r, t' !! k = Some r ↔ t !! k = Some r ∨ ∃ h, h ∈ l ∧ bh_height h = k ∧ r = mkHeaderRow h fin).
Proof.
  induction l as [|h l IH]; intros t t' Hfit Hr; simpl in Hr; res_inv.
  - split; [done|]. intros k r. split; [by left|]. intros [|(h & []%not_elem_of_nil & _)]. done.
  - match goal with Hd : record_bitcoin_core_header_with_finality _ _ _ = _ |- _ =>
      apply record_Ok in Hd as (-> & Hh & Hold); [|done] end.
    match goal with Hd : record_headers _ _ _ = _ |- _ => apply IH in Hd as [Hfit' Hl] end.
    + split; [done|]. intros k r. rewrite Hl. split.
      * intros [[[<- <-]|[_ Ht]]%lookup_insert_Some|(h' & Hin & ?)].
        -- right. exists h. split; [left|done].
        -- by left.
        -- right. exists h'. split; [by right|done].
      * intros [Ht|(h' & [->|Hin]%elem_of_cons & <- & ->)].
        -- left. apply lookup_insert_Some. destruct (decide (bh_height h = k)) as [<-|]; [|by right].
           left. split; [done|]. destruct Hold; congruence.
        -- left. by rewrite lookup_insert_eq.
        -- right. by exists h'.
    + intros k r [[<- <-]|[_ Ht]]%lookup_insert_Some; [done|by apply Hfit].
Qed.

(** ** What a refresh prepares *)

Definition final_epoch_of (horizon : Z) : Z :=
  daa_epoch_start (saturating_sub_i32 horizon CORE_HEADER_REORG_SAFE_DEPTH).

Lemma epoch_of_horizon horizon :
  0 ≤ horizon ≤ MAX_HEIGHT →
  daa_epoch_start horizon = 2016 * (horizon / 2016) ∧
  final_epoch_of horizon = 2016 * ((horizon - 100) / 2016).
Proof.
  unfold MAX_HEIGHT. intros Hh. unfold final_epoch_of, daa_epoch_start, saturating_sub_i32, clamp, CORE_HEADER_REORG_SAFE_DEPTH, DAA_EPOCH_INTERVAL, i32_MIN, i32_MAX.
  pose proof (Z.mul_div_le horizon 2016). pose proof (Z.div_pos horizon 2016).
  assert (-1 ≤ (horizon - 100) / 2016) by (apply Z.div_le_lower_bound; lia).
  pose proof (Z.mul_div_le (horizon - 100) 2016).
  split.
  - rewrite wrap_i32_id; unfold in_i32; lia.
  - replace (Z.max (-2147483648) (Z.min 2147483647 (horizon - 100))) with (horizon - 100) by lia.
    rewrite wrap_i32_id; unfold in_i32; lia.
Qed.

(** The snapshot of a horizon, taken when [hf] was the highest final epoch. *)
Record prepared (hf : option Z) (horizon : Z) (s : Snapshot) : Prop := {
  pr_range : 0 ≤ horizon ≤ MAX_HEIGHT;
  pr_horizon : bh_height (sn_horizon s) = horizon;
  pr_cutoff : sn_final_epoch_height s = final_epoch_of horizon;
  pr_epochs : bh_height <$> sn_final_epochs s =
    if final_epoch_of horizon <? next_epoch_of hf then []
    else epoch_steps (next_epoch_of hf) (final_epoch_of horizon);
  pr_shallow : bh_height <$> sn_shallow_epoch s =
    if (final_epoch_of horizon <? daa_epoch_start horizon)
       && match hf with Some k => k <? daa_epoch_start horizon | None => true end
    then Some (daa_epoch_start horizon) else None;
}.

(** A final epoch and a bound on it. *)
Definition hf_ok (hf : option Z) (horizon : Z) : Prop :=
  match hf with Some k => 0 ≤ k ≤ horizon ∧ is_boundary k = true | None => True end.

Lemma next_epoch_eq hf horizon :
  hf_ok hf horizon → horizon ≤ MAX_HEIGHT →
  next_epoch_of hf = match hf with Some k => k + 2016 | None => 0 end.
Proof.
  unfold MAX_HEIGHT. destruct hf as [k|]; [|done]. intros [Hk _] Hh. simpl. unfold DAA_EPOCH_INTERVAL.
  rewrite add_i32_id; [done|]. unfold in_i32. lia.
Qed.

Lemma elem_of_epoch_steps first last k :
  is_boundary first = true → is_boundary last = true ∨ last < 0 → 0 ≤ first →
  k ∈ epoch_steps first last ↔ is_boundary k = true ∧ first ≤ k ≤ last.
Proof.
  intros Hf Hl Hpos. apply is_boundary_true in Hf; [|done].
  unfold epoch_steps. rewrite list_elem_of_fmap. setoid_rewrite elem_of_seqZ. split.
  - intros (i & -> & Hi).
    assert (first + 2016 * i ≤ last) by (pose proof (Z.mul_div_le (last - first) 2016); lia).
    split; [|lia]. apply is_boundary_true; [lia|].
    rewrite Z.mul_comm, Z.div_add by lia. lia.
  - intros [Hb Hk]. apply is_boundary_true in Hb; [|lia].
    exists (k / 2016 - first / 2016). split; [lia|].
    assert (first / 2016 ≤ k / 2016) by (apply Z.div_le_mono; lia).
    assert (k / 2016 - first / 2016 ≤ (last - first) / 2016) by (apply Z.div_le_lower_bound; lia). lia.
Qed.

Lemma next_epoch_boundary hf horizon :
  hf_ok hf horizon → horizon ≤ MAX_HEIGHT → is_boundary (next_epoch_of hf) = true ∧ 0 ≤ next_epoch_of hf.
Proof.
  intros Hhf Hh. rewrite (next_epoch_eq _ _ Hhf Hh). destruct hf as [m|]; [|done].
  destruct Hhf as [Hm Hb]. apply is_boundary_true in Hb; [|lia]. split; [|lia]. apply is_boundary_true; [lia|].
  replace (m + 2016) with (m + 1 * 2016) by lia. rewrite Z.div_add by lia. lia.
Qed.

Lemma elem_of_final_epochs hf horizon s k :
  hf_ok hf horizon → prepared hf horizon s →
  k ∈ bh_height <$> sn_final_epochs s ↔ is_boundary k = true ∧ next_epoch_of hf ≤ k ≤ final_epoch_of horizon.
Proof.
  intros Hhf [Hr _ _ -> _]. destruct (next_epoch_boundary hf horizon) as [Hnb Hn]; [done|lia|].
  destruct (_ <? _) eqn:E.
  - split; [by intros ?%not_elem_of_nil|]. intros [_ ?]. lia.
  - apply elem_of_epoch_steps; [done| |done].
    destruct (epoch_of_horizon horizon Hr) as [_ Hf]. destruct (decide (final_epoch_of horizon < 0)); [by right|left].
    apply is_boundary_true; [lia|]. rewrite Hf, Z.mul_comm, Z.div_mul by lia. lia.
Qed.

(** The boundaries up to the horizon are the final ones, those that become final, and
    the current one. *)
Lemma boundaries_covered hf horizon s k :
  hf_ok hf horizon → prepared hf horizon s → is_boundary k = true → 0 ≤ k →
  (k ≤ horizon ↔ (∃ m, hf = Some m ∧ k ≤ m) ∨ k ∈ bh_height <$> sn_final_epochs s ∨
                 Some k = bh_height <$> sn_shallow_epoch s).
Proof.
  intros Hhf Hp Hb Hk. rewrite (elem_of_final_epochs hf horizon s k) by done.
  destruct Hp as [Hr _ _ _ ->]. pose proof (next_epoch_eq _ _ Hhf (proj2 Hr)) as Hn.
  destruct (epoch_of_horizon horizon Hr) as [-> ->]. apply is_boundary_true in Hb as Hkb; [|done].
  assert (horizon / 2016 - 1 ≤ (horizon - 100) / 2016 ≤ horizon / 2016) as Hq.
  { split; [|apply Z.div_le_mono; lia]. apply Z.div_le_lower_bound; [lia|]. pose proof (Z.mul_div_le horizon 2016). lia. }
  pose proof (Z.mul_div_le horizon 2016). pose proof (Z.mul_div_le (horizon - 100) 2016).
  pose proof (Z.div_le_mono k horizon 2016). set (q := horizon / 2016) in *. set (p := (horizon - 100) / 2016) in *.
  split.
  - intros Hle. destruct (decide (next_epoch_of hf ≤ k)) as [Hnk|Hnk]; [right|left].
    2: { rewrite Hn in Hnk. destruct hf as [m|]; [|lia]. destruct Hhf as [Hm0 Hmb].
         apply is_boundary_true in Hmb; [|lia]. exists m. split; [done|lia]. }
    destruct (decide (k ≤ 2016 * p)); [left; done|right].
    assert (k = 2016 * q) as -> by lia. replace (2016 * p <? 2016 * q) with true by lia. simpl.
    destruct hf as [m|]; [|done]. replace (m <? 2016 * q) with true by lia. done.
  - intros [(m & -> & Hm)|[Hm|Hm]]; [simpl in Hhf; lia|lia|]. destruct (_ && _); simplify_eq. lia.
Qed.

(** ** The replaced table *)

Definition horizon_final (hf : option Z) (s : Snapshot) : bool :=
  (bh_height (sn_horizon s) =? sn_final_epoch_height s)
  || match hf with Some k => bh_height (sn_horizon s) =? k | None => false end.

(** A row of the table after a publication. *)
Definition replaced_row (t : header_table) (hf : option Z) (s : Snapshot) (k : Z) (r : HeaderRow) : Prop :=
  (t !! k = Some r ∧ hr_final r = true) ∨
  (∃ h, h ∈ sn_final_epochs s ∧ bh_height h = k ∧ r = mkHeaderRow h true) ∨
  (∃ h, sn_shallow_epoch s = Some h ∧ bh_height h = k ∧ r = mkHeaderRow h false) ∨
  (bh_height (sn_horizon s) = k ∧ r = mkHeaderRow (sn_horizon s) (horizon_final hf s)).

Lemma elem_of_option_list' {A} (o : option A) x : x ∈ option_list o ↔ o = Some x.
Proof. destruct o; simpl; [rewrite list_elem_of_singleton; naive_solver|]. split; [by intros ?%not_elem_of_nil|done]. Qed.

Lemma replace_headers_rows t hf s t' :
  cache_ok t → replace_headers t hf s = Ok t' →
  (∀ k r, t' !! k = Some r → row_fits k r) ∧ (∀ k r, t' !! k = Some r ↔ replaced_row t hf s k r).
Proof.
  intros Hok Hr. unfold replace_headers in Hr. cbv zeta in Hr.
  apply bind_Ok in Hr as (t1 & Hr1 & Hr). apply bind_Ok in Hr as (t2 & Hr2 & Hr).
  assert (record_headers t2 [sn_horizon s] (horizon_final hf s) = Ok t') as Hr3.
  { simpl. unfold horizon_final. rewrite Hr. done. }
  apply record_headers_Ok in Hr1 as [Hf1 Hl1].
  2: { intros k r [Hk _]%map_lookup_filter_Some. destruct (ck_row _ Hok _ _ Hk) as (? & ? & ?). split; [done|lia]. }
  apply record_headers_Ok in Hr2 as [Hf2 Hl2]; [|done]. apply record_headers_Ok in Hr3 as [Hf3 Hl3]; [|done].
  split; [done|]. intros k r. rewrite Hl3, Hl2, Hl1, map_lookup_filter_Some. unfold replaced_row. simpl.
  setoid_rewrite elem_of_option_list'. setoid_rewrite list_elem_of_singleton. naive_solver.
Qed.

Lemma replaced_heights t hf s horizon k r :
  cache_ok t → hf = max_final t → hf_ok hf horizon → prepared hf horizon s → replaced_row t hf s k r →
  k ≤ horizon ∧ (is_boundary k = true ∨ k = horizon).
Proof.
  intros Hok Hhf Hhk Hp Hr. assert (bh_height (sn_horizon s) = horizon) as Hz by apply Hp.
  destruct Hr as [[Hk Hf]|[(h & Hin & <- & _)|[(h & Hs & <- & _)|[<- _]]]].
  - destruct (ck_final _ Hok _ _ Hk Hf) as [Hb _]. destruct (ck_row _ Hok _ _ Hk) as (_ & Hk0 & _).
    split; [|by left]. apply (boundaries_covered hf horizon s k); [done..|lia|]. left. subst hf.
    apply (final_below t k Hok Hb); [lia|eauto].
  - apply (list_elem_of_fmap_2 bh_height) in Hin. pose proof Hin as Hin'.
    apply (elem_of_final_epochs hf horizon s) in Hin' as [Hb Hk]; [|done..].
    destruct (next_epoch_boundary hf horizon) as [_ Hn]; [done|apply Hp|].
    split; [|by left]. apply (boundaries_covered hf horizon s); [done..|lia|]. by right; left.
  - pose proof (pr_shallow _ _ _ Hp) as Hsh. rewrite Hs in Hsh. simpl in Hsh. destruct (_ && _); [|done].
    destruct (epoch_of_horizon horizon (pr_range _ _ _ Hp)) as [Hc _]. injection Hsh as Hsh. rewrite Hsh, Hc.
    pose proof (Z.mul_div_le horizon 2016). pose proof (Z.div_pos horizon 2016). pose proof (pr_range _ _ _ Hp).
    split; [lia|left]. apply is_boundary_true; [lia|]. rewrite (Z.mul_comm 2016 (_ / _)), Z.div_mul by lia. lia.
  - split; [lia|by right].
Qed.

Lemma replaced_final t hf s horizon k r :
  cache_ok t → hf = max_final t → hf_ok hf horizon → prepared hf horizon s →
  replaced_row t hf s k r → hr_final r = true →
  is_boundary k = true ∧ ((∃ m, hf = Some m ∧ k ≤ m) ∨ k ∈ bh_height <$> sn_final_epochs s).
Proof.
  intros Hok Hhf Hhk Hp Hr Hf. pose proof (pr_range _ _ _ Hp) as Hrange.
  assert (bh_height (sn_horizon s) = horizon) as Hz by apply Hp.
  destruct Hr as [[Hk _]|[(h & Hin & <- & _)|[(h & _ & _ & ->)|[<- ->]]]]; [| |done|].
  - destruct (ck_final _ Hok _ _ Hk Hf) as [Hb _]. destruct (ck_row _ Hok _ _ Hk) as (_ & Hk0 & _).
    split; [done|left]. subst hf. apply (final_below t k Hok Hb); [lia|eauto].
  - apply (list_elem_of_fmap_2 bh_height) in Hin. split; [|by right].
    by apply (elem_of_final_epochs hf horizon s) in Hin as [Hb _].
  - simpl in Hf. unfold horizon_final in Hf. rewrite Hz, (pr_cutoff _ _ _ Hp) in Hf.
    destruct (epoch_of_horizon horizon Hrange) as [_ Hc]. pose proof (Z.mul_div_le (horizon - 100) 2016).
    destruct hf as [m|]; simpl in *; [|lia]. assert (m = horizon) as <- by lia. rewrite Hz.
    split; [apply Hhk|]. left. exists m. split; [done|lia].
Qed.

Lemma cache_ok_replaced t hf s horizon t' :
  cache_ok t → hf = max_final t → hf_ok hf horizon → prepared hf horizon s →
  replace_headers t hf s = Ok t' → cache_ok t'.
Proof.
  intros Hok Hhf Hhk Hp Hr. apply replace_headers_rows in Hr as [Hfit Hrow]; [|done].
  pose proof (pr_range _ _ _ Hp) as Hrange.
  assert (∀ k, is_Some (t' !! k) → k ≤ horizon ∧ (is_boundary k = true ∨ k = horizon)) as Hle.
  { intros k [r Hk%Hrow]. by eapply replaced_heights. }
  assert (∀ j, is_boundary j = true → 0 ≤ j → (∃ m, hf = Some m ∧ j ≤ m) ∨ j ∈ bh_height <$> sn_final_epochs s →
    ∃ r, t' !! j = Some r ∧ hr_final r = true) as Hfin.
  { intros j Hj Hj0 [Hm|Hm].
    - subst hf. apply (final_below t j Hok Hj Hj0) in Hm as (r & Hr & Hf). exists r. split; [|done].
      apply Hrow. by left.
    - apply list_elem_of_fmap in Hm as (h & -> & Hh). exists (mkHeaderRow h true). split; [|done].
      apply Hrow. right; left. eauto. }
  split.
  - intros k r Hk. destruct (Hfit k r Hk) as (-> & ? & ?). destruct (Hle k) as [? _]; [by eauto|]. lia.
  - intros k r Hk Hf. apply Hrow in Hk. apply (replaced_final t hf s horizon) in Hk as [Hb Hk]; [|done..].
    split; [done|]. intros j Hj Hjb. apply Hfin; [done|lia|]. destruct Hk as [(m & ? & ?)|Hk].
    + left. exists m. split; [done|lia].
    + apply (elem_of_final_epochs hf horizon s) in Hk as [_ Hk]; [|done..].
      assert (j ≤ horizon) as Hjz.
      { destruct (epoch_of_horizon horizon Hrange) as [_ Hc]. pose proof (Z.mul_div_le (horizon - 100) 2016). lia. }
      apply (boundaries_covered hf horizon s) in Hjz as [?|[?|Hs]]; [by left|by right| |done..|lia].
      right. apply (elem_of_final_epochs hf horizon s); [done..|]. split; [done|].
      pose proof (pr_shallow _ _ _ Hp) as Hsh. rewrite <-Hs in Hsh. destruct (_ && _) eqn:E; [|done]. simplify_eq. lia.
  - intros k j Hk Hj Hjb. destruct (Hle k Hk) as [Hkz _].
    assert (j ≤ horizon) as Hjz by lia.
    apply (boundaries_covered hf horizon s) in Hjz as [Hm|[Hm|Hs]]; [| | |done..|lia].
    + destruct (Hfin j) as (r & ? & _); [done|lia|by left|eauto].
    + destruct (Hfin j) as (r & ? & _); [done|lia|by right|eauto].
    + symmetry in Hs. apply fmap_Some in Hs as (h & Hs & ->). exists (mkHeaderRow h false). apply Hrow. right; right; left. eauto.
  - intros k j Hk Hkb Hj. destruct (Hle k Hk) as [_ [?| ->]]; [congruence|]. by apply Hle.
Qed.

(** ** Sessions *)

Definition revision_of (db : CacheDb) : Z := publication_revision (default CacheState_default (cd_state db)).

(** What a session may do to the cache: revisions only grow and name the headers, an
    intact cache stays intact, and final epochs are never changed. *)
Definition evolves (d d' : CacheDb) : Prop :=
  revision_of d ≤ revision_of d' ∧
  (revision_of d = revision_of d' → cd_headers d' = cd_headers d) ∧
  (cache_ok (cd_headers d) →
     cache_ok (cd_headers d') ∧
     ∀ k r, cd_headers d !! k = Some r → hr_final r = true → cd_headers d' !! k = Some r).
#[global] Instance evolves_preorder : PreOrder evolves.
Proof.
  split.
  - intros d. split_and!; [lia|done|]. by intros Hok.
  - intros a b c (Hr1 & Hh1 & Ho1) (Hr2 & Hh2 & Ho2). split_and!; [lia| |].
    + intros Heq. rewrite Hh2 by lia. apply Hh1. lia.
    + intros Ha. destruct (Ho1 Ha) as [Hb Hf1]. destruct (Ho2 Hb) as [Hc Hf2]. eauto 6.
Qed.

Lemma publish_Ok db s rev u db' :
  publish db s rev = Ok (Some (u, db')) →
  revision_of db = rev ∧ sn_final_epoch_height s ≤ bh_height (sn_horizon s) ∧
  (∀ m, max_final (cd_headers db) = Some m → m ≤ bh_height (sn_horizon s)) ∧
  ∃ t' observed, replace_headers (cd_headers db) (max_final (cd_headers db)) s = Ok t' ∧
    sql_max ((λ r, bh_block_time (hr_header r)) <$> rows_of t') = Some observed ∧
    cd_headers db' = t' ∧
    let previous := default CacheState_default (cd_state db) in
    cd_state db' = Some (update_bitcoin_core_header_cache_state previous (max_cached (cd_headers db)) (sn_horizon s)
      observed
      (shallow_cache_reorged (shallow_rows (cd_headers db)) (incoming s) (bh_height (sn_horizon s))
         (sn_prior_horizon_reorged s))
      (cache_epoch_coverage_overlaps_prior_horizon (max_final (cd_headers db)) (shallow_rows (cd_headers db))
         (incoming s) (cs_horizon_time previous))).2.
Proof.
  unfold publish. destruct (_ || _) eqn:E; [done|]. apply orb_false_iff in E as [_ E%negb_false_iff%Z.eqb_eq].
  intros Hp. unfold ensure_bitcoin_core_header_cache_integrity in Hp.
  apply bind_Ok in Hp as ([] & H1'%ensure_Ok & Hp). apply bind_Ok in Hp as ([] & H2'%ensure_Ok & Hp).
  apply bind_Ok in Hp as (t' & Ht & Hp). apply bind_Ok in Hp as (observed & Ho%ok_or_Ok & Hp).
  split; [done|]. split; [lia|]. split.
  - intros m Hm. rewrite Hm in H2'. lia.
  - exists t', observed. split; [done|]. split; [done|].
    destruct (update_bitcoin_core_header_cache_state _ _ _ _ _ _) as [u' st'] eqn:Eu. injection Hp as <- <-. done.
Qed.

Lemma max_final_ok t s horizon :
  cache_ok t → prepared (max_final t) horizon s →
  (∀ m, max_final t = Some m → m ≤ bh_height (sn_horizon s)) → hf_ok (max_final t) horizon.
Proof.
  intros Hok Hprep Hhf. destruct (max_final t) as [m|] eqn:Hm; [|done]. simpl.
  specialize (Hhf m eq_refl). rewrite (pr_horizon _ _ _ Hprep) in Hhf.
  apply (max_final_Some _ _ Hok) in Hm as [(r & Hr' & Hf) _]. destruct (ck_row _ Hok _ _ Hr') as (_ & ? & _).
  destruct (ck_final _ Hok _ _ Hr' Hf). split; [lia|done].
Qed.

Lemma publish_evolves db s rev horizon u db' :
  (cache_ok (cd_headers db) → prepared (max_final (cd_headers db)) horizon s) →
  publish db s rev = Ok (Some (u, db')) → evolves db db'.
Proof.
  intros Hprep Hp. apply publish_Ok in Hp as (Hrev & Hcut & Hhf & t' & observed & Ht & _ & Hh & Hs).
  assert (revision_of db' = revision_of db + 1) as Hr by (unfold revision_of; by rewrite Hs).
  split; [lia|]. split; [lia|]. intros Hok. specialize (Hprep Hok). rewrite Hh.
  pose proof (max_final_ok _ _ _ Hok Hprep Hhf) as Hhk.
  split; [by eapply cache_ok_replaced|]. intros k r Hk Hf.
  apply replace_headers_rows in Ht as [_ Hrow]; [|done]. apply Hrow. by left.
Qed.

Section sessions.
Context `{BitcoinLib} {W : Type} `{CoreHeaderSource W} `{Clock W} `{HeaderCacheStoreLaws W}.

Definition cache_moves (w w' : W) : Prop := evolves (cache_db w) (cache_db w').
#[local] Instance cache_moves_preorder : PreOrder cache_moves.
Proof. split; [intros w; unfold cache_moves; reflexivity|]. intros a b c. unfold cache_moves. by etrans. Qed.

(** The other sessions keep to the same rule during every call, and Core reports
    heights with room below the end of the [i32] range. *)
Record cache_rely : Prop := {
  rely_status : steps cache_moves (get_chain_status : stM W anyhow _);
  rely_hash h : steps cache_moves (get_block_hash h : stM W anyhow _);
  rely_header k : steps cache_moves (get_block_header k : stM W anyhow _);
  rely_now : steps cache_moves (now_unix_secs : stM W anyhow _);
  rely_statement : steps cache_moves (cache_statement : stM W anyhow _);
  rely_drain live : steps cache_moves (cache_drain live : stM W anyhow _);
  rely_heights w status : (get_chain_status w).1 = Ok status → 0 ≤ cs_blocks status ≤ MAX_HEIGHT;
}.
Context (Hrely : cache_rely) (classifier : ConfiguredParentClassifier).

#[local] Hint Resolve rely_status rely_hash rely_header rely_now rely_statement rely_drain : steps.
#[local] Hint Resolve Hrely : steps.

Lemma ready_moves : steps cache_moves (checked_ready_tip classifier : stM W anyhow _).
Proof. unfold checked_ready_tip, Configured_ready_tip, Configured_synced_tip, ready_tip, guardM. solve_steps. Qed.
Lemma canonical_moves h : steps cache_moves (Configured_canonical_header classifier h : stM W anyhow _).
Proof. unfold Configured_canonical_header, canonical_header, guardM. solve_steps. Qed.
#[local] Hint Resolve ready_moves canonical_moves : steps.

Lemma fetch_moves l : steps cache_moves (fetch_epochs classifier l : stM W anyhow _).
Proof. induction l; simpl; solve_steps. Qed.
#[local] Hint Resolve fetch_moves : steps.
Lemma final_epochs_moves a b : steps cache_moves (fetch_final_epochs classifier a b : stM W anyhow _).
Proof. unfold fetch_final_epochs. solve_steps. Qed.
Lemma shallow_moves a b o : steps cache_moves (fetch_shallow_epoch classifier a b o : stM W anyhow _).
Proof. unfold fetch_shallow_epoch. solve_steps. Qed.
Lemma prior_moves o h : steps cache_moves (prior_horizon_reorged_from classifier o h : stM W anyhow _).
Proof. unfold prior_horizon_reorged_from. solve_steps. Qed.
Lemma read_moves {A} (f : CacheDb → A) : steps cache_moves (read_cache f : stM W anyhow _).
Proof. unfold read_cache. solve_steps. Qed.
#[local] Hint Resolve final_epochs_moves shallow_moves prior_moves read_moves : steps.

(** ** The values of a snapshot *)

Lemma ready_height w tip w' :
  checked_ready_tip classifier w = (Ok tip, w') → 0 ≤ st_height tip ≤ MAX_HEIGHT.
Proof.
  unfold checked_ready_tip, Configured_ready_tip, Configured_synced_tip, ready_tip. intros Hr.
  destruct classifier; st_inv. simpl.
  match goal with Hs : get_chain_status _ = _ |- _ => eapply (rely_heights Hrely); by rewrite Hs end.
Qed.

Lemma canonical_height h w hd w' :
  Configured_canonical_header classifier h w = (Ok hd, w') → ch_height hd = h.
Proof. unfold Configured_canonical_header, canonical_header. intros Hr. by destruct classifier; st_inv. Qed.

Lemma fetch_heights l w hs w' : fetch_epochs classifier l w = (Ok hs, w') → bh_height <$> hs = l.
Proof.
  revert w hs. induction l as [|h l IH]; intros w hs Hf; simpl in Hf; st_inv; [done|].
  match goal with Hc : Configured_canonical_header _ _ _ = _ |- _ => apply canonical_height in Hc as Hh end.
  match goal with Hc : fetch_epochs _ _ _ = _ |- _ => apply IH in Hc as Hl end.
  csimpl. by rewrite Hh, Hl.
Qed.

Lemma final_epochs_heights a b w hs w' :
  fetch_final_epochs classifier a b w = (Ok hs, w') →
  bh_height <$> hs = if b <? a then [] else epoch_steps a b.
Proof. unfold fetch_final_epochs. destruct (b <? a); intros Hf; [by st_inv|by eapply fetch_heights]. Qed.

Lemma shallow_height current final hf w o w' :
  fetch_shallow_epoch classifier current final hf w = (Ok o, w') →
  bh_height <$> o = if (final <? current) && match hf with Some k => k <? current | None => true end
                    then Some current else None.
Proof.
  unfold fetch_shallow_epoch. destruct (_ && _); intros Hf; st_inv; [|done]. simpl. f_equal.
  by eapply canonical_height.
Qed.

(** What is known of the cache since the revision and the highest final epoch were read. *)
Definition pinned (revision : Z) (hf : option Z) (w : W) : Prop :=
  revision ≤ revision_of (cache_db w) ∧
  (revision_of (cache_db w) = revision → max_final (cd_headers (cache_db w)) = hf).

Lemma pinned_stable revision hf w w' : pinned revision hf w → cache_moves w w' → pinned revision hf w'.
Proof.
  intros [Hle Hhf] (Hr & Hh & _). split; [lia|]. intros Heq. rewrite Hh by lia. apply Hhf. lia.
Qed.

(** A call keeps the pin, and its value satisfies what it guarantees. *)
Lemma pinned_call {A} revision hf (m : stM W anyhow A) (V : A → Prop) :
  steps cache_moves m → (∀ w a w', m w = (Ok a, w') → V a) →
  guarantees cache_moves (pinned revision hf) m (λ a w, pinned revision hf w ∧ V a).
Proof.
  intros Hm HV w HP. split; [apply Hm|]. intros a Ha. split; [eapply pinned_stable; [exact HP|apply Hm]|].
  apply (HV w a (m w).2). rewrite <-Ha. by destruct (m w).
Qed.

Lemma publish_guarantees revision hf horizon s :
  (∀ t, cache_ok t → max_final t = hf → prepared hf horizon s) →
  guarantees cache_moves (pinned revision hf) (replace_bitcoin_core_header_cache s revision) (λ _ _, True).
Proof.
  intros Hprep w Hpin. split; [|done]. unfold replace_bitcoin_core_header_cache.
  unfold mbind at 1, stM_bind at 1, lift at 1. destruct (snapshot_checks s) as [[]|e]; [|reflexivity].
  unfold mbind at 1, stM_bind at 1. pose proof (rely_statement Hrely w) as Hst.
  destruct (cache_statement w) as [[[]|e] w1]; [|done]. simpl in Hst. pose proof (pinned_stable _ _ _ _ Hpin Hst) as [_ Hhf].
  unfold mbind, stM_bind, gets, lift. destruct (publish (cache_db w1) s revision) as [[[u db']|]|e] eqn:Hp; [|done..].
  simpl. etrans; [exact Hst|]. unfold cache_moves. rewrite cache_db_set. pose proof (publish_Ok _ _ _ _ _ Hp) as [Hrev _].
  specialize (Hhf Hrev). eapply publish_evolves; [|exact Hp]. intros Hok. rewrite Hhf. by eapply Hprep.
Qed.

Lemma guarantees_pure {A} (P : W → Prop) (V : Prop) (m : stM W anyhow A) (Q : A → W → Prop) :
  (V → guarantees cache_moves P m Q) → guarantees cache_moves (λ w, P w ∧ V) m Q.
Proof. intros Hm w [HP HV]. by apply Hm. Qed.

Lemma call_pinned {A B} revision hf (m : stM W anyhow A) (V : A → Prop) (f : A → stM W anyhow B) :
  steps cache_moves m → (∀ w a w', m w = (Ok a, w') → V a) →
  (∀ a, V a → guarantees cache_moves (pinned revision hf) (f a) (λ _ _, True)) →
  guarantees cache_moves (pinned revision hf) (m ≫= f) (λ _ _, True).
Proof.
  intros Hm HV Hf. eapply guarantees_bind; [apply _|by apply pinned_call|].
  intros a. apply guarantees_pure. apply Hf.
Qed.

Lemma steps_guarantee {A} (P : W → Prop) (m : stM W anyhow A) :
  steps cache_moves m → guarantees cache_moves P m (λ _ _, True).
Proof. intros Hm w _. split; [apply Hm|done]. Qed.

Lemma horizon_range tip hf t :
  0 ≤ tip ≤ MAX_HEIGHT → cache_ok t → max_final t = hf →
  0 ≤ horizon_height_of classifier tip (next_epoch_of hf) ≤ MAX_HEIGHT.
Proof.
  intros Htip Hok Hhf. unfold horizon_height_of, DAA_EPOCH_INTERVAL, CORE_HEADER_REORG_SAFE_DEPTH.
  destruct (Configured_is_live classifier); [|done].
  assert (0 ≤ next_epoch_of hf ≤ MAX_HEIGHT + 2016) as Hn.
  { destruct hf as [m|]; [|unfold MAX_HEIGHT; simpl; lia].
    apply (max_final_Some _ _ Hok) in Hhf as [(r & Hr & _) _]. destruct (ck_row _ Hok _ _ Hr) as (_ & Hm & _).
    simpl. unfold MAX_HEIGHT, DAA_EPOCH_INTERVAL in *. rewrite add_i32_id; [lia|unfold in_i32; lia]. }
  unfold MAX_HEIGHT in *. rewrite !add_i32_id; try (unfold in_i32; lia).
  rewrite add_i32_id; unfold in_i32; lia.
Qed.

Lemma snapshot_moves : steps cache_moves (refresh_bitcoin_core_header_cache_snapshot classifier : stM W anyhow _).
Proof.
  apply (guarantees_steps _ (λ _, True)); [|done]. unfold refresh_bitcoin_core_header_cache_snapshot.
  eapply (guarantees_bind _ _ _ (λ tip _, True ∧ (0 ≤ st_height tip ≤ MAX_HEIGHT))).
  { intros w _. split; [apply ready_moves|]. intros tip Ht. split; [done|].
    apply (ready_height w tip (checked_ready_tip classifier w).2). rewrite <-Ht. by destruct (checked_ready_tip classifier w). }
  intros tip. apply guarantees_pure. intros Htip.
  eapply (guarantees_bind _ _ _ (λ revision w, revision ≤ revision_of (cache_db w))).
  { intros w _. unfold load_core_cache_publication_revision, read_cache. pose proof (rely_statement Hrely w) as Hst.
    unfold mbind, stM_bind, gets, lift. destruct (cache_statement w) as [[[]|e] w1]; [|by split].
    simpl. destruct (cd_state (cache_db w1)) as [st|] eqn:Es; simpl; split; try done.
    intros r [= <-]. unfold revision_of. by rewrite Es. }
  intros revision.
  eapply (guarantees_bind _ _ _ (pinned revision)).
  { intros w Hrev. unfold highest_final_bitcoin_core_epoch, read_cache. pose proof (rely_statement Hrely w) as Hst.
    unfold mbind, stM_bind, gets. destruct (cache_statement w) as [[[]|e] w1]; [|by split]. simpl.
    split; [done|]. intros hf [= <-]. split; [|done]. destruct Hst as [? _]. simpl in *. lia. }
  intros hf. cbv zeta. set (horizon := horizon_height_of classifier (st_height tip) (next_epoch_of hf)).
  apply (call_pinned _ _ _ (λ _, True)); [unfold load_bitcoin_core_header_cache_horizon; apply read_moves|done|]. intros prior _.
  apply (call_pinned _ _ _ (λ hd, ch_height hd = horizon)).
  { apply steps_on_err, canonical_moves. }
  { intros w a w' Hc. apply (proj1 (st_on_err_Ok _ _ _ _ _)) in Hc. by eapply canonical_height. }
  intros opening Hopen. apply (call_pinned _ _ _ (λ _, True)); [apply prior_moves|done|]. intros reorged _.
  eapply call_pinned; [apply final_epochs_moves|intros w a w'; apply final_epochs_heights|]. intros finals Hfinals.
  eapply call_pinned; [apply shallow_moves|intros w a w'; apply shallow_height|]. intros shallow Hshallow.
  apply (call_pinned _ _ _ (λ _, True)); [apply ready_moves|done|]. intros closing_tip _.
  apply (call_pinned _ _ _ (λ _, True)); [apply steps_on_err, canonical_moves|done|]. intros closing _.
  destruct (negb _); [apply guarantees_ret; [apply _|done]|].
  eapply guarantees_bind; [apply _| |].
  - apply (publish_guarantees revision hf horizon). intros t Hok Hhf. split; simpl; try done.
    by apply (horizon_range _ _ t).
  - intros [u|]; apply steps_guarantee; solve_steps.
Qed.

Lemma attempts_moves n first : steps cache_moves (refresh_attempts classifier n first : stM W anyhow _).
Proof.
  revert first. induction n as [|n IH]; intros first; simpl; [solve_steps|]. pose proof snapshot_moves. solve_steps.
Qed.
#[local] Hint Resolve attempts_moves : steps.

Lemma refresh_moves : steps cache_moves (refresh_bitcoin_core_header_cache classifier : stM W anyhow _).
Proof. unfold refresh_bitcoin_core_header_cache. solve_steps. Qed.
End sessions.

(** ** Loading the table *)

Lemma ssorted_lookup {A} (R : A → A → Prop) l i j x y :
  StronglySorted R l → (i < j)%nat → l !! i = Some x → l !! j = Some y → R x y.
Proof.
  intros Hs. revert i j. induction Hs as [|a l Hl IH Ha]; intros i j Hij Hi Hj; [done|].
  destruct j as [|j]; [lia|]. destruct i as [|i]; simplify_eq/=.
  - rewrite Forall_forall in Ha. apply Ha. by eapply list_elem_of_lookup_2.
  - apply (IH i j); [lia|done..].
Qed.

Lemma ssorted_filter {A} (R : A → A → Prop) (P : A → Prop) `{∀ x, Decision (P x)} l :
  StronglySorted R l → StronglySorted R (filter P l).
Proof.
  induction 1 as [|a l Hl IH Ha]; [constructor|]. rewrite filter_cons. case_decide; [|done]. constructor; [done|].
  rewrite Forall_forall in *. intros x [_ Hx]%list_elem_of_filter. by apply Ha.
Qed.

Lemma ssorted_strict {A} (key : A → Z) l :
  StronglySorted (λ a b, key a ≤ key b) l → NoDup (key <$> l) → StronglySorted (λ a b, key a < key b) l.
Proof.
  induction 1 as [|a l Hl IH Ha]; intros Hn; [constructor|]. apply NoDup_cons in Hn as [Hn Hn'].
  constructor; [by apply IH|]. rewrite Forall_forall in *. intros x Hx. specialize (Ha x Hx).
  assert (key a ≠ key x); [|lia]. intros E. apply Hn. rewrite E. by apply list_elem_of_fmap_2.
Qed.

Lemma ssorted_last {A} (R : A → A → Prop) l x m : StronglySorted R l → x ∈ l → last l = Some m → x = m ∨ R x m.
Proof.
  intros Hs [i Hi]%list_elem_of_lookup_1 Hm. rewrite last_lookup in Hm.
  destruct (decide (i = pred (length l))) as [->|Hne]; [left; congruence|right].
  pose proof (lookup_lt_Some _ _ _ Hi). eapply ssorted_lookup; [done| |done|done]. lia.
Qed.

#[global] Instance header_le_total : Total header_le.
Proof. intros a b. unfold header_le. lia. Qed.
#[global] Instance header_le_trans : Transitive header_le.
Proof. intros a b c. unfold header_le. lia. Qed.

(** The cached rows in the order the query gives them. *)
Definition ordered (t : header_table) : list BitcoinEpochHeader :=
  to_epoch_header <$> merge_sort header_le (rows_of t).

Section ordered.
Context (t : header_table) (Hok : cache_ok t).

Lemma elem_of_ordered e : e ∈ ordered t ↔ ∃ k r, t !! k = Some r ∧ e = to_epoch_header r ∧ eh_height e = k.
Proof.
  unfold ordered. rewrite list_elem_of_fmap. setoid_rewrite merge_sort_Permutation. setoid_rewrite elem_of_rows_of. split.
  - intros (r & -> & k & Hk). exists k, r. destruct (ck_row _ Hok _ _ Hk) as [? _]. done.
  - intros (k & r & Hk & -> & _). eauto.
Qed.

Lemma ordered_sorted : StronglySorted (λ a b, eh_height a < eh_height b) (ordered t).
Proof.
  apply ssorted_strict.
  - apply (StronglySorted_fmap _ header_le); [done|]. apply StronglySorted_merge_sort; apply _.
  - unfold ordered. rewrite <-list_fmap_compose.
    assert (eh_height ∘ to_epoch_header <$> merge_sort header_le (rows_of t) ≡ₚ (map_to_list t).*1) as ->.
    { rewrite merge_sort_Permutation. unfold rows_of. rewrite <-list_fmap_compose.
      apply Permutation_refl'. apply list_fmap_ext. intros i [k r] Hi. simpl.
      apply list_elem_of_lookup_2, elem_of_map_to_list in Hi. by destruct (ck_row _ Hok _ _ Hi) as [? _]. }
    apply NoDup_fst_map_to_list.
Qed.

Lemma epoch_row_spec e : e ∈ filter is_epoch_row (ordered t) ↔ e ∈ ordered t ∧ is_boundary (eh_height e) = true.
Proof. rewrite list_elem_of_filter, Is_true_true. unfold is_epoch_row, is_boundary, DAA_EPOCH_INTERVAL. naive_solver. Qed.

Lemma epoch_at k : is_boundary k = true → is_Some (t !! k) →
  ∃ e, e ∈ filter is_epoch_row (ordered t) ∧ eh_height e = k.
Proof.
  intros Hb [r Hr]. exists (to_epoch_header r). destruct (ck_row _ Hok _ _ Hr) as (Hk & _).
  split; [|done]. apply epoch_row_spec. split; [apply elem_of_ordered; eauto 6|]. simpl. by rewrite Hk.
Qed.

Lemma ordered_height e : e ∈ ordered t → 0 ≤ eh_height e ≤ MAX_HEIGHT ∧ is_Some (t !! eh_height e).
Proof. intros (k & r & Hk & -> & <-)%elem_of_ordered. destruct (ck_row _ Hok _ _ Hk) as (_ & ? & _). eauto. Qed.

Lemma epochs_consecutive i x y :
  filter is_epoch_row (ordered t) !! i = Some x → filter is_epoch_row (ordered t) !! S i = Some y →
  eh_height y = eh_height x + 2016.
Proof.
  intros Hx Hy. pose proof (ssorted_filter _ is_epoch_row _ ordered_sorted) as Hs.
  pose proof (ssorted_lookup _ _ i (S i) x y Hs ltac:(lia) Hx Hy) as Hlt. simpl in Hlt.
  pose proof (list_elem_of_lookup_2 _ _ _ Hx) as [Hxo Hxb]%epoch_row_spec.
  pose proof (list_elem_of_lookup_2 _ _ _ Hy) as [Hyo Hyb]%epoch_row_spec.
  destruct (ordered_height x Hxo) as [Hx0 _], (ordered_height y Hyo) as [Hy0 Hys].
  apply is_boundary_true in Hxb as Hxq; [|lia]. apply is_boundary_true in Hyb as Hyq; [|lia].
  destruct (decide (eh_height y = eh_height x + 2016)) as [|Hne]; [done|exfalso].
  assert (is_boundary (eh_height x + 2016) = true) as Hb.
  { apply is_boundary_true; [lia|]. replace (eh_height x + 2016) with (eh_height x + 1 * 2016) by lia.
    rewrite Z.div_add by lia. lia. }
  destruct (epoch_at (eh_height x + 2016) Hb) as (z & [j Hj]%list_elem_of_lookup_1 & Hz).
  { eapply (ck_epochs _ Hok); [exact Hys|lia|done]. }
  destruct (decide (j ≤ i)%nat).
  - destruct (decide (j = i)) as [->|]; [assert (z = x) as -> by congruence; lia|].
    pose proof (ssorted_lookup _ _ j i z x Hs ltac:(lia) Hj Hx) as Hc. simpl in Hc. lia.
  - destruct (decide (j = S i)) as [->|]; [assert (z = y) as -> by congruence; lia|].
    pose proof (ssorted_lookup _ _ (S i) j y z Hs ltac:(lia) Hy Hj) as Hc. simpl in Hc. lia.
Qed.

(** The horizon, the first and the last cached epoch. *)
Lemma ordered_ends :
  t ≠ ∅ →
  ∃ hz first le, last (ordered t) = Some hz ∧ head (filter is_epoch_row (ordered t)) = Some first ∧
    last (filter is_epoch_row (ordered t)) = Some le ∧ eh_height first = 0 ∧ 0 ≤ eh_height le ≤ MAX_HEIGHT ∧
    eh_height le ≤ eh_height hz < eh_height le + 2016.
Proof.
  intros Hne. pose proof ordered_sorted as Hs. pose proof (ssorted_filter _ is_epoch_row _ Hs) as Hse.
  assert (∃ k r, t !! k = Some r) as (k0 & r0 & Hk0) by (apply map_choose in Hne; naive_solver).
  assert (to_epoch_header r0 ∈ ordered t) as Hin0.
  { apply elem_of_ordered. destruct (ck_row _ Hok _ _ Hk0) as [? _]. eauto. }
  destruct (last (ordered t)) as [hz|] eqn:Hlast; [|apply last_None in Hlast; rewrite Hlast in Hin0; by apply not_elem_of_nil in Hin0].
  assert (hz ∈ ordered t) as Hhz by (rewrite last_lookup in Hlast; by eapply list_elem_of_lookup_2).
  destruct (ordered_height hz Hhz) as [Hz0 Hzs].
  destruct (epoch_at 0) as (g & Hg & Hg0); [done|eapply (ck_epochs _ Hok); [exact Hzs|lia|done]|].
  pose proof (Z.mul_div_le (eh_height hz) 2016). pose proof (Z.div_pos (eh_height hz) 2016).
  pose proof (Z.mul_succ_div_gt (eh_height hz) 2016).
  assert (is_boundary (2016 * (eh_height hz / 2016)) = true) as Hcb.
  { apply is_boundary_true; [lia|]. rewrite (Z.mul_comm 2016 (_ / _)), Z.div_mul by lia. lia. }
  destruct (epoch_at _ Hcb) as (c & Hc & Hc0); [eapply (ck_epochs _ Hok); [exact Hzs|lia|done]|].
  destruct (filter is_epoch_row (ordered t)) as [|first E'] eqn:HE; [by apply not_elem_of_nil in Hg|].
  destruct (last (first :: E')) as [le|] eqn:Hle; [|by apply last_None in Hle].
  assert (first ∈ ordered t ∧ le ∈ ordered t) as [Hfo Hlo].
  { split; apply epoch_row_spec; rewrite HE; [left|]. rewrite last_lookup in Hle. by eapply list_elem_of_lookup_2. }
  destruct (ordered_height first Hfo) as [Hf0 _], (ordered_height le Hlo) as [Hl0 _].
  exists hz, first, le. split_and!; [done..| |lia|lia| |].
  - apply elem_of_cons in Hg as [<-|Hg]; [done|]. apply StronglySorted_inv in Hse as [_ Ha]. rewrite Forall_forall in Ha.
    specialize (Ha g Hg). simpl in Ha. lia.
  - destruct (ssorted_last _ _ le hz Hs Hlo Hlast) as [->|Hlt]; [lia|simpl in Hlt; lia].
  - destruct (ssorted_last _ _ c le Hse Hc Hle) as [->|Hlt]; [lia|simpl in Hlt; lia].
Qed.

Lemma table_loads cached :
  t ≠ ∅ →
  ∃ tbl, from_bitcoin_core_headers_with_horizon_time (ordered t) cached = Ok tbl ∧
    (∃ hz, last (ordered t) = Some hz ∧ horizon_height tbl = eh_height hz).
Proof.
  intros Hne. destruct (ordered_ends Hne) as (hz & first & le & Hlast & Hfirst & Hle & H0' & Hl0 & Hz).
  unfold MAX_HEIGHT in *. unfold from_bitcoin_core_headers_with_horizon_time. rewrite Hlast. cbn [ok_or mbind result_bind].
  rewrite (proj2 (all_pairs_true _ (ordered t))).
  2: { intros i x y Hx Hy. apply Z.ltb_lt. eapply (ssorted_lookup _ _ i (S i) x y ordered_sorted); [lia|done|done]. }
  cbn [ensure mbind result_bind]. rewrite Hfirst. cbn [ok_or mbind result_bind]. rewrite H0'. cbn [Z.eqb ensure mbind result_bind].
  rewrite (proj2 (all_pairs_true _ (filter is_epoch_row (ordered t)))).
  2: { intros i x y Hx Hy. apply Z.eqb_eq. pose proof (list_elem_of_lookup_2 _ _ _ Hx) as [Hxo _]%epoch_row_spec.
       destruct (ordered_height x Hxo) as [Hx0 _]. rewrite (epochs_consecutive i x y) by done.
       unfold DAA_EPOCH_INTERVAL, MAX_HEIGHT in *. rewrite add_i32_id; [done|unfold in_i32; lia]. }
  cbn [ensure mbind result_bind]. rewrite Hle. cbn [ok_or mbind result_bind]. unfold DAA_EPOCH_INTERVAL.
  rewrite add_i32_id by (unfold in_i32; lia).
  replace (eh_height le <=? eh_height hz) with true by lia. replace (eh_height hz <? eh_height le + 2016) with true by lia.
  cbn [ensure mbind result_bind].
  destruct (max_time (ordered t)) as [mt|] eqn:Hmt.
  - eexists. split; [reflexivity|]. exists hz. done.
  - unfold max_time in Hmt. destruct (ordered t); [done|]. done.
Qed.
End ordered.

Lemma load_inv db tbl :
  load_bitcoin_core_nbits_table db = Ok tbl →
  ∃ s, cd_state db = Some s ∧
    from_bitcoin_core_headers_with_horizon_time (ordered (cd_headers db)) (cs_horizon_time s) = Ok tbl.
Proof.
  unfold load_bitcoin_core_nbits_table, load_bitcoin_core_nbits_table_if_present, ordered,
    ensure_bitcoin_core_header_cache_integrity. intros Hl. res_inv.
  destruct (cd_state db) as [s|]; [|by res_inv]. exists s. split; [done|].
  destruct (merge_sort header_le (rows_of (cd_headers db))) as [|r rows]; res_inv.
  destruct (from_bitcoin_core_headers_with_horizon_time _ _); by res_inv.
Qed.

Lemma load_ok db s :
  cache_ok (cd_headers db) → cd_state db = Some s → cd_headers db ≠ ∅ →
  ∃ tbl, load_bitcoin_core_nbits_table db = Ok tbl.
Proof.
  intros Hok Hs Hne. destruct (table_loads _ Hok (cs_horizon_time s) Hne) as (tbl & Ht & _). exists tbl.
  unfold load_bitcoin_core_nbits_table, load_bitcoin_core_nbits_table_if_present,
    ensure_bitcoin_core_header_cache_integrity. rewrite Hs. unfold ordered in Ht.
  destruct (merge_sort header_le (rows_of (cd_headers db))) as [|r rows] eqn:Hm; [done|].
  rewrite (proj2 (forallb_forall _ _)).
  - cbn [ensure mbind result_bind]. rewrite Ht. done.
  - intros x Hx%list_elem_of_In. assert (x ∈ rows_of (cd_headers db)) as (k & Hk)%elem_of_rows_of.
    { by rewrite <-merge_sort_Permutation, Hm. }
    destruct (ck_row _ Hok _ _ Hk) as (_ & _ & ?). apply andb_true_iff. lia.
Qed.

Section claim.
Context `{BitcoinLib} {W : Type} `{CoreHeaderSource W} `{Clock W} `{HeaderCacheStoreLaws W}.

(** C18. A refresh of the header cache, whatever Core answers and whichever refreshes of other
    sessions interleave with it, leaves a cache of consecutive epochs from genesis to the horizon
    that the difficulty table loads from, never changes a final epoch, and does to the cache
    only what the other sessions rely on. *)
Theorem refresh_keeps_cache classifier (w : W) :
  cache_rely (W := W) → cache_ok (cd_headers (cache_db w)) →
  let db' := cache_db (refresh_bitcoin_core_header_cache classifier w).2 in
  evolves (cache_db w) db' ∧ cache_ok (cd_headers db') ∧
  (∀ k r, cd_headers (cache_db w) !! k = Some r → hr_final r = true → cd_headers db' !! k = Some r) ∧
  (is_Some (cd_state db') → cd_headers db' ≠ ∅ → ∃ tbl, load_bitcoin_core_nbits_table db' = Ok tbl).
Proof.
  intros Hrely Hok db'. assert (evolves (cache_db w) db') as Hev by apply (refresh_moves Hrely).
  split; [done|]. destruct Hev as (_ & _ & Hev). destruct (Hev Hok) as [Hok' Hf]. split_and!; [done|done|].
  intros [s Hs] Hne. by eapply load_ok.
Qed.
End claim.

(** ** Verdicts across a publication *)

(** The stored time bound covers every cached header. *)
Definition times_covered (db : CacheDb) : Prop :=
  ∀ k r, cd_headers db !! k = Some r →
    bh_block_time (hr_header r) ≤ cs_horizon_time (default CacheState_default (cd_state db)).

Lemma publish_times db s rev u db' : publish db s rev = Ok (Some (u, db')) → times_covered db'.
Proof.
  intros (_ & _ & _ & t' & observed & _ & Hmax & Hh & Hs)%publish_Ok k r Hk. rewrite Hs. simpl.
  apply sql_max_spec in Hmax as [_ Hmax]. rewrite Hh in Hk.
  assert (bh_block_time (hr_header r) ≤ observed).
  { apply Hmax, list_elem_of_fmap. exists r. split; [done|]. apply elem_of_rows_of. eauto. }
  destruct (shallow_cache_reorged _ _ _ _); lia.
Qed.

Lemma elem_of_shallow_rows t h : h ∈ shallow_rows t ↔ ∃ k r, t !! k = Some r ∧ hr_final r = false ∧ hr_header r = h.
Proof.
  unfold shallow_rows. rewrite list_elem_of_fmap. setoid_rewrite list_elem_of_filter. setoid_rewrite elem_of_rows_of.
  naive_solver.
Qed.

Lemma elem_of_incoming s h :
  h ∈ incoming s ↔ h ∈ sn_final_epochs s ∨ sn_shallow_epoch s = Some h ∨ h = sn_horizon s.
Proof. unfold incoming. rewrite !elem_of_app, elem_of_option_list', list_elem_of_singleton. done. Qed.

Section stable.
Context (t t' : header_table) (s : Snapshot) (horizon prior_time : Z) (hf : option Z).
Context (Hok : cache_ok t) (Hhf : hf = max_final t) (Hhk : hf_ok hf horizon) (Hp : prepared hf horizon s).
Context (Ht' : replace_headers t hf s = Ok t').
Context (Hreorg : shallow_cache_reorged (shallow_rows t) (incoming s) (bh_height (sn_horizon s))
                    (sn_prior_horizon_reorged s) = false).
Context (Hover : cache_epoch_coverage_overlaps_prior_horizon hf (shallow_rows t) (incoming s) prior_time = false).

Lemma incoming_row h : h ∈ incoming s → ∃ fin, t' !! bh_height h = Some (mkHeaderRow h fin).
Proof.
  destruct (replace_headers_rows t hf s t' Hok Ht') as [_ Hrow].
  intros [Hin|[Hin| ->]]%elem_of_incoming; eexists; apply Hrow; [right; left|right; right; left|right; right; right]; eauto.
Qed.

(** A boundary that was cached keeps its header. *)
Lemma boundary_kept k r :
  t !! k = Some r → is_boundary k = true → ∃ r', t' !! k = Some r' ∧ hr_header r' = hr_header r.
Proof.
  intros Hk Hb. destruct (replace_headers_rows t hf s t' Hok Ht') as [_ Hrow].
  destruct (hr_final r) eqn:Hf; [exists r; split; [apply Hrow; by left|done]|].
  apply orb_false_iff in Hreorg as [Hr1 Hr2]. apply orb_false_iff in Hr1 as [_ Hr1].
  assert (hr_header r ∈ shallow_rows t) as Hsh by (apply elem_of_shallow_rows; eauto).
  destruct (ck_row _ Hok _ _ Hk) as (Hkh & Hk0 & _).
  assert (k ≤ horizon) as Hkz.
  { destruct (sql_max (bh_height <$> shallow_rows t)) as [m|] eqn:Hm.
    - apply sql_max_spec in Hm as [_ Hm]. specialize (Hm k). rewrite (pr_horizon _ _ _ Hp) in Hr2.
      assert (k ≤ m); [|lia]. apply Hm. rewrite <-Hkh. by apply list_elem_of_fmap_2.
    - apply sql_max_None, fmap_nil_inv in Hm. rewrite Hm in Hsh. by apply not_elem_of_nil in Hsh. }
  assert (∃ h, h ∈ incoming s ∧ bh_height h = k) as (h & Hin & Hh).
  { apply (boundaries_covered hf horizon s) in Hkz as [(m & Hm & Hle)|[Hin|Hin]]; [| | |done..|lia].
    - exfalso. subst hf. assert (∃ r0, t !! k = Some r0 ∧ hr_final r0 = true) as (r0 & ? & ?).
      { apply (final_below t k Hok Hb); [lia|eauto]. } congruence.
    - apply list_elem_of_fmap in Hin as (h & -> & Hin). exists h. rewrite elem_of_incoming. eauto.
    - symmetry in Hin. apply fmap_Some in Hin as (h & Hin & ->). exists h. rewrite elem_of_incoming. eauto. }
  destruct (List.find (λ h, bh_height h =? bh_height (hr_header r)) (incoming s)) as [h0|] eqn:Hfind.
  - apply find_some in Hfind as Hf0. destruct Hf0 as [Hin0%list_elem_of_In Heq%Z.eqb_eq].
    destruct (incoming_row h0 Hin0) as [fin Hrow0]. rewrite Heq, Hkh in Hrow0. exists (mkHeaderRow h0 fin). split; [done|].
    destruct (decide (h0 = hr_header r)) as [|Hne]; [done|exfalso].
    assert (existsb (λ previous, match List.find (λ h, bh_height h =? bh_height previous) (incoming s) with
      | Some h => negb (bool_decide (h = previous)) | None => false end) (shallow_rows t) = true) as Hc; [|congruence].
    apply existsb_exists. exists (hr_header r). split; [by apply list_elem_of_In|]. rewrite Hfind.
    by rewrite bool_decide_eq_false_2.
  - pose proof (find_none _ _ Hfind h ltac:(by apply list_elem_of_In)) as Hc. simpl in Hc. lia.
Qed.

(** A new boundary starts after the prior time bound. *)
Lemma boundary_new k r' :
  t' !! k = Some r' → is_boundary k = true → t !! k = None → prior_time < bh_block_time (hr_header r').
Proof.
  intros Hk Hb Hn. destruct (replace_headers_rows t hf s t' Hok Ht') as [Hfit Hrow].
  destruct (Hfit k r' Hk) as (Hkh & Hk0 & _).
  assert (hr_header r' ∈ incoming s) as Hin.
  { apply Hrow in Hk as [[Hk _]|[(h & Hin & _ & ->)|[(h & Hin & _ & ->)|[_ ->]]]]; [congruence| | |];
      apply elem_of_incoming; eauto. }
  destruct (decide (prior_time < bh_block_time (hr_header r'))) as [|Hle]; [done|exfalso].
  assert (cache_epoch_coverage_overlaps_prior_horizon hf (shallow_rows t) (incoming s) prior_time = true) as Hc;
    [|congruence].
  apply existsb_exists. exists (hr_header r'). split; [by apply list_elem_of_In|]. rewrite Hkh, Hb. simpl.
  apply andb_true_iff. split; [|lia].
  destruct (sql_max _) as [m|] eqn:Hm; [|done]. apply sql_max_spec in Hm as [Hm _]. apply Z.ltb_lt.
  apply Z.nle_gt. intros Hmk. assert (is_Some (t !! m)) as Hms.
  { apply elem_of_app in Hm as [Hm|Hm].
    - apply elem_of_option_list' in Hm. subst hf. apply (max_final_Some _ _ Hok) in Hm as [(r & ? & _) _]. eauto.
    - apply list_elem_of_filter in Hm as [_ Hm]. apply list_elem_of_fmap in Hm as (h & -> & Hm).
      apply elem_of_shallow_rows in Hm as (j & r & Hj & _ & <-). destruct (ck_row _ Hok _ _ Hj) as [-> _]. eauto. }
  destruct (ck_epochs _ Hok m k Hms) as [r Hr]; [lia|done|congruence].
Qed.
End stable.

(** Two tables, the second with more epochs that start after the horizon of the first. *)
Section extended.
Context (a b : NbitsTable) (ra rb : list BitcoinEpochHeader).
Context (Ha : table_rows a ra) (Hb : table_rows b rb).
Context (Hsub : ∀ e, e ∈ ra → e ∈ rb) (Hnew : ∀ e, e ∈ rb → e ∈ ra ∨ horizon_time a < eh_block_time e).
Context (Hhz : horizon_time a ≤ horizon_time b).

Lemma extended_height h bits : in_i32 h → expected_nbits a h = Found bits → expected_nbits b h = Found bits.
Proof.
  intros Hh Hf. destruct (expected_nbits_spec Ha h Hh) as [[? E]|[[? E]|(Hr & r & Hi & E)]]; [congruence..|].
  rewrite E in Hf. injection Hf as <-. pose proof (rows_height _ _ Ha _ _ Hi) as Hrh.
  apply list_elem_of_lookup_2, Hsub, list_elem_of_lookup_1 in Hi as [j Hj]. pose proof (rows_height _ _ Hb _ _ Hj) as Hrj.
  assert (j = Z.to_nat (h / 2016)) as -> by lia. pose proof (lookup_lt_Some _ _ _ Hj) as Hlt.
  pose proof (rows_covered _ _ Hb) as Hc. pose proof (Z.mul_succ_div_gt h 2016). pose proof (Z.div_pos h 2016).
  destruct (expected_nbits_spec Hb h Hh) as [[? _]|[[? _]|(_ & r' & Hr' & ->)]]; [lia..|]. congruence.
Qed.

Lemma time_entry (t : NbitsTable) rows p :
  table_rows t rows → p ∈ epochs_by_time t ↔ ∃ r, r ∈ rows ∧ p = (eh_block_time r, eh_height r).
Proof. intros Ht. rewrite (rows_by_time _ _ Ht), list_elem_of_fmap. naive_solver. Qed.

Lemma extended_time time : time ≤ horizon_time a → epoch_height_for_time b time = epoch_height_for_time a time.
Proof.
  intros Htime.
  assert (∀ p, p.1 ≤ time → p ∈ epochs_by_time b ↔ p ∈ epochs_by_time a) as Hsame.
  { intros p Hpt. rewrite (time_entry b rb p Hb), (time_entry a ra p Ha). split; intros (r & Hr & ->); [|eauto].
    destruct (Hnew r Hr); [eauto|]. simpl in Hpt. lia. }
  pose proof (epoch_height_for_time_spec a time (rows_sorted _ _ Ha)) as Sa.
  pose proof (epoch_height_for_time_spec b time (rows_sorted _ _ Hb)) as Sb.
  destruct (epoch_height_for_time a time) as [ea|], (epoch_height_for_time b time) as [eb|].
  - destruct Sa as [_ (sa & Hia & Hla & Hma)], Sb as [_ (sb & Hib & Hlb & Hmb)]. f_equal.
    pose proof (Hma (sb, eb)) as H1'. rewrite <-Hsame in H1' by done. specialize (H1' Hib Hlb).
    pose proof (Hmb (sa, ea)) as H2'. rewrite Hsame in H2' by done. specialize (H2' Hia Hla).
    unfold tuple_le in *. simpl in *. lia.
  - destruct Sa as [_ (sa & Hia & Hla & _)]. destruct Sb as [?|Sb]; [lia|]. apply Hsame, Sb in Hia; simpl in *; lia.
  - destruct Sb as [_ (sb & Hib & Hlb & _)]. destruct Sa as [?|Sa]; [lia|]. apply Hsame, Sa in Hib; simpl in *; lia.
  - done.
Qed.

Lemma selected_range time e :
  epoch_height_for_time a time = Some e → in_i32 (e - 2016) ∧ in_i32 (e + 2016) ∧ time ≤ horizon_time a ∧
  0 ≤ e ≤ covered_max_height a ∧ e = 2016 * (e / 2016).
Proof.
  intros He. pose proof (epoch_height_for_time_spec a time (rows_sorted _ _ Ha)) as Sa. rewrite He in Sa.
  destruct Sa as [Ht (s & Hs & _)]. apply (time_entry a ra _ Ha) in Hs as (r & [i Hi]%list_elem_of_lookup_1 & [= -> ->]).
  pose proof (rows_height _ _ Ha _ _ Hi) as Hh. pose proof (lookup_lt_Some _ _ _ Hi).
  pose proof (rows_covered _ _ Ha). pose proof (rows_bound _ _ Ha). unfold in_i32, i32_MAX in *.
  rewrite Hh, (Z.mul_comm 2016 (Z.of_nat i)), Z.div_mul by lia. lia.
Qed.

(** The weak verdict, case by case. *)
Lemma extended_weak time bits :
  match classify_nbits_by_time a time bits with
  | AboveHorizon => True
  | NonBtcEpochBits =>
      classify_nbits_by_time b time bits = NonBtcEpochBits ∨
      classify_nbits_by_time b time bits = Match ∧
      epoch_height_for_time a time = Some (covered_max_height a) ∧
      expected_nbits b (covered_max_height a + 2016) = Found bits
  | v => classify_nbits_by_time b time bits = v
  end.
Proof.
  destruct (decide (time ≤ horizon_time a)) as [Htime|Htime].
  2: { unfold classify_nbits_by_time. by replace (horizon_time a <? time) with true by lia. }
  pose proof (extended_time time Htime) as Het. destruct (epoch_height_for_time a time) as [e|] eqn:He.
  2: { unfold classify_nbits_by_time. rewrite Het, He. replace (horizon_time a <? time) with false by lia.
       by replace (horizon_time b <? time) with false by lia. }
  destruct (selected_range time e He) as (Hlo & Hhi & _ & He0 & Heq).
  pose proof (classify_Match a ra time bits e Ha He Hlo Hhi Htime) as Ma.
  pose proof (classify_Match b rb time bits e Hb Het Hlo Hhi ltac:(lia)) as Mb.
  assert (∀ t, horizon_time a ≤ horizon_time t → epoch_height_for_time t time = Some e →
    classify_nbits_by_time t time bits = Match ∨ classify_nbits_by_time t time bits = NonBtcEpochBits) as Hcases.
  { intros t Hz Ht. unfold classify_nbits_by_time. replace (horizon_time t <? time) with false by lia. rewrite Ht.
    destruct (existsb _ _); auto. }
  destruct (Hcases a ltac:(lia) He) as [E|E]; rewrite E in *.
  - apply Mb. destruct (proj1 Ma eq_refl) as (r & Hr & Hrest). eauto.
  - destruct (Hcases b Hhz Het) as [E'|E']; rewrite E' in *; [right|by left].
    destruct (proj1 Mb eq_refl) as (r & Hr & Hbits & Hh).
    assert (r ∉ ra) as Hnot. { intros Hra. enough (NonBtcEpochBits = Match) by done. apply Ma. eauto. }
    assert (eh_height r = e + 2016 ∧ e = covered_max_height a) as [Hrh ->].
    { assert (covered_max_height a < eh_height r) as Hlt; [|pose proof (rows_covered _ _ Ha); lia].
      apply Z.nle_gt. intros Hle. apply list_elem_of_lookup_1 in Hr as [j Hj]. pose proof (rows_height _ _ Hb _ _ Hj) as Hrj.
      pose proof (rows_covered _ _ Ha). destruct (lookup_lt_is_Some_2 ra j) as [r0 Hr0]; [lia|].
      pose proof (rows_height _ _ Ha _ _ Hr0). apply list_elem_of_lookup_2 in Hr0 as Hr0'.
      apply Hsub, list_elem_of_lookup_1 in Hr0' as [i Hi]. pose proof (rows_height _ _ Hb _ _ Hi).
      assert (i = j) as -> by lia. assert (r0 = r) as -> by congruence. apply Hnot. by eapply list_elem_of_lookup_2. }
    split_and!; [done|done|]. apply list_elem_of_lookup_1 in Hr as [j Hj]. pose proof (rows_height _ _ Hb _ _ Hj) as Hrj.
    pose proof (rows_covered _ _ Hb). pose proof (lookup_lt_Some _ _ _ Hj).
    destruct (expected_nbits_spec Hb (covered_max_height a + 2016) Hhi) as [[? _]|[[? _]|(_ & r' & Hr' & ->)]]; [lia..|].
    replace (Z.to_nat ((covered_max_height a + 2016) / 2016)) with j in Hr'; [congruence|].
    rewrite <-Hrh, Hrj, (Z.mul_comm 2016 (Z.of_nat j)), Z.div_mul by lia. lia.
Qed.
End extended.

Lemma ordered_fit t : cache_ok t → heights_fit (ordered t).
Proof.
  intros Hok. unfold heights_fit. apply Forall_forall. intros e He. destruct (ordered_height t Hok e He) as [Hh _].
  unfold MAX_HEIGHT, i32_MIN, i32_MAX in *. lia.
Qed.

Lemma foldl_max_spec l m : (foldl Z.max m l = m ∨ foldl Z.max m l ∈ l) ∧ m ≤ foldl Z.max m l.
Proof.
  revert m. induction l as [|x l IH]; intros m; simpl; [split; [by left|lia]|].
  destruct (IH (Z.max m x)) as [[E|E] Hle]; (split; [|lia]).
  - rewrite E. destruct (Z.max_spec m x) as [[_ ->]|[_ ->]]; [right; left|by left].
  - right. by right.
Qed.

(** A table loaded from a covered cache has the stored time bound as its horizon. *)
Lemma loaded_table db tbl :
  cache_ok (cd_headers db) → times_covered db → load_bitcoin_core_nbits_table db = Ok tbl →
  ∃ s, cd_state db = Some s ∧ table_rows tbl (filter is_epoch_row (ordered (cd_headers db))) ∧
    horizon_time tbl = cs_horizon_time s.
Proof.
  intros Hok Htimes Hl. apply load_inv in Hl as (s & Hs & Hf). exists s. split; [done|].
  split; [eapply table_built; [by apply ordered_fit|exact Hf]|].
  assert (∀ e, e ∈ ordered (cd_headers db) → eh_block_time e ≤ cs_horizon_time s) as Hle.
  { intros e (k & r & Hk & -> & _)%elem_of_ordered; [|done]. specialize (Htimes k r Hk). by rewrite Hs in Htimes. }
  unfold from_bitcoin_core_headers_with_horizon_time in Hf. res_inv. simpl.
  match goal with Hm : max_time _ = Some ?m |- _ => assert (m ≤ cs_horizon_time s); [|lia]; unfold max_time in Hm end.
  destruct (ordered (cd_headers db)) as [|e l]; [done|]. simplify_eq/=.
  destruct (foldl_max_spec (eh_block_time <$> l) (eh_block_time e)) as [[->|(y & -> & Hy)%list_elem_of_fmap] _].
  - apply Hle. left.
  - apply Hle. by right.
Qed.

Lemma epoch_rows_of t e :
  cache_ok t → e ∈ filter is_epoch_row (ordered t) ↔
  ∃ k r, t !! k = Some r ∧ is_boundary k = true ∧ e = to_epoch_header r.
Proof.
  intros Hok. rewrite epoch_row_spec, elem_of_ordered by done. split.
  - intros [(k & r & Hk & -> & Hh) Hb]. exists k, r. by rewrite Hh in Hb.
  - intros (k & r & Hk & Hb & ->). destruct (ck_row _ Hok _ _ Hk) as [Hh _]. simpl. rewrite Hh. split; [|done]. eauto.
Qed.

(** C34. A publication that leaves the cache generation alone keeps every verdict given from the
    cache: bits found at a height stay, the epoch a covered time selects stays, and so does every
    weak verdict, except that bits refused in the last cached epoch become a match when they are
    the bits of the epoch that follows. *)
Theorem publication_keeps_verdicts db s rev horizon u db' tbl tbl' :
  cache_ok (cd_headers db) → times_covered db → prepared (max_final (cd_headers db)) horizon s →
  publish db s rev = Ok (Some (u, db')) →
  core_cache_generation <$> cd_state db' = core_cache_generation <$> cd_state db →
  load_bitcoin_core_nbits_table db = Ok tbl → load_bitcoin_core_nbits_table db' = Ok tbl' →
  (∀ h bits, in_i32 h → expected_nbits tbl h = Found bits → expected_nbits tbl' h = Found bits) ∧
  (∀ time, time ≤ horizon_time tbl → epoch_height_for_time tbl' time = epoch_height_for_time tbl time) ∧
  ∀ time bits,
    match classify_nbits_by_time tbl time bits with
    | AboveHorizon => True
    | NonBtcEpochBits =>
        classify_nbits_by_time tbl' time bits = NonBtcEpochBits ∨
        classify_nbits_by_time tbl' time bits = Match ∧
        epoch_height_for_time tbl time = Some (covered_max_height tbl) ∧
        expected_nbits tbl' (covered_max_height tbl + 2016) = Found bits
    | v => classify_nbits_by_time tbl' time bits = v
    end.
Proof.
  intros Hok Htimes Hprep Hpub Hgen Hl Hl'.
  pose proof (publish_times _ _ _ _ _ Hpub) as Htimes'. pose proof (publish_evolves _ _ _ horizon _ _ (λ _, Hprep) Hpub) as Hev.
  destruct (proj2 (proj2 Hev) Hok) as [Hok' _].
  destruct (loaded_table _ _ Hok Htimes Hl) as (st & Hst & Ha & Hza).
  destruct (loaded_table _ _ Hok' Htimes' Hl') as (st' & Hst' & Hb & Hzb).
  apply publish_Ok in Hpub as (_ & _ & Hhf & t' & observed & Ht' & _ & Hh & Hs). rewrite Hst in Hs. simpl in Hs.
  rewrite Hs, Hst in Hgen. simpl in Hgen. injection Hgen as Hgen. rewrite Hst' in Hs. injection Hs as ->.
  destruct (shallow_cache_reorged _ _ _ _) eqn:Hreorg; [simpl in Hgen; lia|].
  destruct (cache_epoch_coverage_overlaps_prior_horizon _ _ _ _) eqn:Hover; [simpl in Hgen; lia|]. clear Hgen.
  pose proof (max_final_ok _ _ _ Hok Hprep Hhf) as Hhk.
  rewrite Hh in *. simpl in Hzb.
  assert (∀ e, e ∈ filter is_epoch_row (ordered (cd_headers db)) → e ∈ filter is_epoch_row (ordered t')) as Hsub.
  { intros e (k & r & Hk & Hkb & ->)%epoch_rows_of; [|done].
    destruct (boundary_kept _ _ _ _ _ _ Hok eq_refl Hhk Hprep Ht' Hreorg Hover k r Hk Hkb) as (r' & Hk' & Hrr).
    apply epoch_rows_of; [done|]. exists k, r'. unfold to_epoch_header. by rewrite Hrr. }
  assert (∀ e, e ∈ filter is_epoch_row (ordered t') →
    e ∈ filter is_epoch_row (ordered (cd_headers db)) ∨ horizon_time tbl < eh_block_time e) as Hnew.
  { intros e (k & r' & Hk' & Hkb & ->)%epoch_rows_of; [|done]. destruct (cd_headers db !! k) as [r|] eqn:Hk.
    - left. destruct (boundary_kept _ _ _ _ _ _ Hok eq_refl Hhk Hprep Ht' Hreorg Hover k r Hk Hkb) as (r0 & Hk0 & Hrr).
      simplify_eq. apply epoch_rows_of; [done|]. exists k, r. unfold to_epoch_header. by rewrite <-Hrr.
    - right. rewrite Hza. by eapply (boundary_new _ _ _ _ _ _ Hok eq_refl Hhk Hprep Ht' Hover). }
  assert (horizon_time tbl ≤ horizon_time tbl') by lia.
  split_and!; [by eapply extended_height|by eapply extended_time|by eapply extended_weak].
Qed.

Module HeaderCacheSample.
Import Toy.

(** A chain where block [k] has time [10 k] and the bits of its epoch. *)
Definition hash_of (k : Z) : bytes := to_le_bytes 32 k.
Definition header_at (k : Z) : BitcoinCoreHeader := mkCacheHeader k (hash_of k) (10 * k) (1000 + k / 2016).

(** Scheduling everything, then binding a pass to it. *)
Definition scheduled_state : CacheState := (schedule_core_recheck CacheState_default everything true).2.
Definition bound_state : CacheState :=
  (bind_recheck_pass scheduled_state (sr_pending_scope (load_scheduled_recheck scheduled_state))).2.

Lemma recheck_never_lost_witness :
  is_pending (load_scheduled_recheck scheduled_state) = true ∧
  (owed bound_state true "hathor" ∨
   ∃ pass, sr_pass (load_scheduled_recheck scheduled_state) = Some pass ∧ covers (rp_scope pass) true "hathor" ∧
     acknowledge_recheck_pass scheduled_state (rp_generation pass) = Ok bound_state).
Proof.
  apply (recheck_never_lost scheduled_state bound_state true "hathor").
  - apply rtc_once. apply step_schedule.
  - apply step_bind; vm_compute; reflexivity.
  - left. vm_compute. auto.
Defined.

(** A session whose world is the cache alone. *)
#[local] Instance core : CoreHeaderSource CacheDb := {
  get_chain_status := mret (mkChainStatus true 4040 4040 false 0);
  get_block_hash k := mret (hash_of k);
  get_header _ _ := throw (Other "unused");
  get_block_header h :=
    let k := from_le_bytes h in
    mret {| hdr_version := 1; prev_blockhash := hash_of (k - 1); merkle_root := [];
            hdr_time := 10 * k; hdr_bits := 1000 + k / 2016; hdr_nonce := 0 |};
  get_header_verbose _ := throw (Other "unused");
  get_block_coinbase _ := throw (Other "unused");
}.
#[local] Instance clock : Clock CacheDb := mret 0.
#[local] Instance store : HeaderCacheStore CacheDb := {
  cache_db w := w;
  set_cache_db db _ := db;
  cache_statement := mret ();
  cache_drain _ := mret ();
}.
#[local] Instance store_laws : HeaderCacheStoreLaws CacheDb.
Proof. intros db w. reflexivity. Qed.

Lemma sample_rely : cache_rely (W := CacheDb).
Proof.
  split; try (intros; intros w; unfold cache_moves; reflexivity).
  intros w status [= <-]. unfold MAX_HEIGHT. simpl. lia.
Qed.

Definition empty_db : CacheDb := mkCacheDb ∅ (Some CacheState_default) false.
Definition refreshed := refresh_bitcoin_core_header_cache (BitcoinCore false) empty_db.

Lemma refresh_keeps_cache_witness :
  is_ok refreshed.1 = true ∧ cache_ok (cd_headers refreshed.2) ∧
  (λ k, is_some (cd_headers refreshed.2 !! k)) <$> [0; 2016; 4032; 4040; 2020] = [true; true; true; true; false].
Proof.
  split; [vm_compute; reflexivity|]. split; [|vm_compute; reflexivity].
  destruct (refresh_keeps_cache (BitcoinCore false) empty_db sample_rely cache_ok_empty) as (_ & Hok & _). exact Hok.
Defined.

(** Two publications, at heights 2020 and 4040. *)
Definition first_snapshot : Snapshot := mkSnapshot 0 [header_at 0] (Some (header_at 2016)) (header_at 2020) false.
Definition second_snapshot : Snapshot := mkSnapshot 2016 [header_at 2016] (Some (header_at 4032)) (header_at 4040) false.
Definition published (r : result anyhow (option (BitcoinCoreHeaderCacheUpdate * CacheDb))) : CacheDb :=
  match r with Ok (Some (_, db)) => db | _ => empty_db end.
Definition first_db : CacheDb := published (publish empty_db first_snapshot 0).
Definition second_db : CacheDb := published (publish first_db second_snapshot 1).
Definition table (db : CacheDb) : NbitsTable :=
  default (mkNbitsTable 0 0 0 ∅ []) (result_ok (load_bitcoin_core_nbits_table db)).

Lemma first_published : ∃ u, publish empty_db first_snapshot 0 = Ok (Some (u, first_db)).
Proof. eexists. vm_compute. reflexivity. Qed.
Lemma first_prepared : prepared (max_final (cd_headers empty_db)) 2020 first_snapshot.
Proof. split; try (vm_compute; reflexivity). unfold MAX_HEIGHT. lia. Qed.
Lemma first_ok : cache_ok (cd_headers first_db).
Proof.
  destruct first_published as [u Hp]. destruct (publish_evolves _ _ _ 2020 _ _ (λ _, first_prepared) Hp) as (_ & _ & Hok).
  by apply Hok, cache_ok_empty.
Qed.

(** Bits refused before the retarget match after it. *)
Lemma publication_keeps_verdicts_witness :
  epoch_height_for_time (table second_db) 20160 = Some 2016 ∧
  classify_nbits_by_time (table first_db) 20160 1002 = NonBtcEpochBits ∧
  classify_nbits_by_time (table second_db) 20160 1002 = Match.
Proof.
  split; [|split; vm_compute; reflexivity].
  assert (∃ u, publish first_db second_snapshot 1 = Ok (Some (u, second_db))) as [u Hp] by (eexists; vm_compute; reflexivity).
  assert (times_covered first_db) as Ht by (destruct first_published as [u' Hp']; exact (publish_times _ _ _ _ _ Hp')).
  destruct (publication_keeps_verdicts first_db second_snapshot 1 4040 u second_db (table first_db) (table second_db)
    first_ok Ht) as (_ & Htime & _).
  - split; try (vm_compute; reflexivity). unfold MAX_HEIGHT. lia.
  - exact Hp.
  - vm_compute. reflexivity.
  - vm_compute. reflexivity.
  - vm_compute. reflexivity.
  - rewrite Htime; [vm_compute; reflexivity|]. vm_compute. discriminate.
Defined.
End HeaderCacheSample.
