(* ===== verification/Live.v ===== *)
(** * The live backbone follower

    Models [bitcoin_core_backbone/live.rs]: the schedule of near-tip repairs, the repair
    with its verification and acceptance, the follow tick with its bookkeeping, and the
    stall policy. A tick composes the drain of the queue ([CoreQueue]), the repair
    ([Reorg], [LiveWindow]), the ordinary batch ([Backbone]) and the refresh of the header
    cache ([HeaderCache]). *)

From stdpp Require Import list_numbers sorting.
From S2P Require Import Prelude BitcoinLib Effects Errors Nbits Lineage Classifier LiveLoop Poller Blocks SyncState CoreQueue Backbone LiveWindow Events Reconcile CoreSuffix Reorg HeaderCache.

Definition FOLLOW_STALL_EXIT_THRESHOLD : Z := 5.

Record FollowProgress := mkProgress {
  fp_contiguous_complete_height : Z;
  fp_target_tip_height : option Z;
}.

Definition caught_up (p : FollowProgress) : bool :=
  match fp_target_tip_height p with
  | Some tip => tip <=? fp_contiguous_complete_height p
  | None => false
  end.

Definition normalize_follow_config (c : BitcoinCoreSyncConfig) : BitcoinCoreSyncConfig :=
  mkSyncConfig None None (limit c) true true.

Definition follow_stall_step (caught_up progressed : bool) (stall : Z) : Z * bool :=
  if progressed || caught_up then (0, false)
  else let next := stall + 1 in (next, FOLLOW_STALL_EXIT_THRESHOLD <=? next).

(** [Instant]s and [Duration]s in milliseconds; [elapsed] saturates at zero. *)
Definition near_tip_repair_due (last_repair : option Z) (interval now : Z) : bool :=
  match last_repair with Some last => interval <=? Z.max (now - last) 0 | None => true end.

Inductive NearTipRepairSchedule := IfDue (last_repair : option Z) (interval : Z) | Force.

Definition skipped_timestamp (s : NearTipRepairSchedule) (now : Z) : option Z :=
  match s with
  | IfDue last_repair interval => if near_tip_repair_due last_repair interval now then None else last_repair
  | Force => None
  end.

Definition handle_near_tip_repair_result (r : result anyhow BitcoinCoreSyncStats) : result anyhow bool :=
  match r with
  | Ok stats => Ok (coinbase_failed stats =? 0)
  | Err e => if is_backbone_integrity_error e || must_propagate e then Err e else Ok false
  end.

Definition wait_after_live_tick (outcome : TickOutcome) (stall follow_interval : Z) : result anyhow Z * Z :=
  let '(next_stall, should_exit) := follow_stall_step (idle_at_target outcome) (progressed outcome) stall in
  if should_exit then (Err (Other "Bitcoin Core backbone live producer stalled below tip"), next_stall)
  else (Ok (if progressed outcome then 0 else follow_interval), next_stall).

Definition bookkeeping_failure_outcome_from (before after : option FollowProgress) : TickOutcome :=
  {| progressed := match before, after with
                   | Some b, Some a => fp_contiguous_complete_height b <? fp_contiguous_complete_height a
                   | _, _ => false
                   end;
     idle_at_target := default false (caught_up <$> (match after with Some a => Some a | None => before end));
     completed := false |}.

Definition handle_header_cache_refresh_result {A} (r : result anyhow A) : result anyhow bool :=
  match r with
  | Ok _ => Ok true
  | Err e => if is_backbone_integrity_error e || must_propagate e then Err e else Ok false
  end.

(** The producer: the world of the repair, the time of the last repair, and the stall count. *)
Record FollowWorld (W : Type) := mkFollowWorld {
  fw_world : RepairWorld W;
  last_near_tip_repair_at : option Z;
  stall : Z;
}.
Arguments mkFollowWorld {W}.
Arguments fw_world {W}.
Arguments last_near_tip_repair_at {W}.
Arguments stall {W}.

Section follow.
Context `{BitcoinLib} {W : Type} `{BitcoinCoreBackboneSource W} `{!CoreHeaderSource W} `{!Clock W}.
Context `{ReconcileEnv (W * ReadModel)} `{HeaderCacheStore W}.
Context (invalid_blocks_lookup : bytes → option InvalidBlock).
Context (resolve_pool : bytes → option bytes → option Z) (hex : bytes → string) (now : Z).
Context (drain_fuel : queue → nat) (cascade_budget : Z) (repair_fuel : nat).
(** [Instant::now], and the drain of the relationship summaries. *)
Context (instant_now : W → Z) (drain_relationship_refresh_queue : stM W anyhow unit).
Context (classifier : ConfiguredParentClassifier).
Context (config : BitcoinCoreSyncConfig) (follow_interval near_tip_repair_window_heights : Z).

#[local] Abbreviation pM := (stM (RepairWorld W) anyhow).
#[local] Abbreviation fM := (stM (FollowWorld W) anyhow).

(** [drain_core_queue] on the tables of the repair. *)
Definition drain_queue : pM unit :=
  q ← gets rw_queue;
  r ← on_queue (drain_core_queue (drain_fuel q) (Configured_is_live classifier) cascade_budget);
  match r with Some _ => mret () | None => throw (Other "out of fuel") end.

(** The header cache of this database: its headers and state are in the environment, its
    queue is the durable queue. *)
#[local] Instance repair_core : CoreHeaderSource (RepairWorld W) := {
  get_chain_status := on_core get_chain_status;
  get_block_hash h := on_core (get_block_hash h);
  get_header k h := on_core (get_header k h);
  get_block_header k := on_core (get_block_header k);
  get_header_verbose k := on_core (get_header_verbose k);
  get_block_coinbase k := on_core (get_block_coinbase k);
}.
#[local] Instance repair_clock : Clock (RepairWorld W) := on_core now_unix_secs.
#[local] Instance repair_cache : HeaderCacheStore (RepairWorld W) := {
  cache_db w := let db := cache_db (rw_env w) in
                mkCacheDb (cd_headers db) (cd_state db) (negb (queue_empty (rw_queue w)));
  set_cache_db db w :=
    mkRepairWorld (set_cache_db db (rw_env w)) (rw_model w) (rw_sync w) (rw_queue w);
  cache_statement := on_core cache_statement;
  cache_drain _ := drain_queue;
}.

(** [try_record_retryable_repair_message], whose own failure is only logged. *)
Definition record_retryable (target : option BitcoinCoreBackboneTip) (message : string) : pM unit :=
  _ ← attempt (on_backbone (bb_transaction (
        _ ← load_or_init_sync_state;
        _ ← on_err (Context "check Bitcoin Core status ownership before recording repair retry") (on_bb bb_statement);
        e ← no_queued_work;
        update_sync (λ s, SyncState.record_retryable_repair_message s e
                            ((λ t, (tip_height t, tip_hash t)) <$> target) message Null))));
  mret ().

(** The repair, its verification and the acceptance of its target. *)
Definition repair_and_verify (target : BitcoinCoreBackboneTip) : pM BitcoinCoreSyncStats :=
  r ← repair_near_tip_backbone_to_target invalid_blocks_lookup resolve_pool hex now drain_fuel cascade_budget
        repair_fuel classifier target near_tip_repair_window_heights;
  match r with
  | None => throw (Other "out of fuel")
  | Some stats =>
      if coinbase_failed stats =? 0 then
        _ ← on_backbone (verify_live_backbone_window target near_tip_repair_window_heights);
        _ ← on_backbone (accept_live_repaired_target target);
        mret stats
      else mret stats
  end.

Definition capture_live_window_target : pM BitcoinCoreBackboneTip :=
  on_err (Context "fetch Bitcoin Core live backbone window target tip") (on_core bb_tip).

Definition repair_near_tip_backbone_if_due (schedule : NearTipRepairSchedule) : pM (option Z * bool) :=
  now ← gets (λ w, instant_now (rw_env w));
  match skipped_timestamp schedule now with
  | Some last_repair => mret (Some last_repair, true)
  | None =>
      r ← attempt capture_live_window_target;
      match r with
      | Err e =>
          if must_propagate e then throw e else
          _ ← record_retryable None "target_capture_failed";
          now ← gets (λ w, instant_now (rw_env w));
          mret (Some now, false)
      | Ok target =>
          r ← attempt (repair_and_verify target);
          repair_succeeded ← lift (handle_near_tip_repair_result r);
          _ ← (if (repair_succeeded : bool) then mret ()
               else record_retryable (Some target)
                      match r with Ok _ => "coinbase_incomplete" | Err _ => "transient_repair_failure" end);
          now ← gets (λ w, instant_now (rw_env w));
          mret (Some now, repair_succeeded)
      end
  end.

Definition load_follow_progress : pM FollowProgress :=
  _ ← on_err (Context "load Bitcoin Core follow progress") (on_core bb_statement);
  s ← gets rw_sync;
  s ← lift (ok_or (Context "load Bitcoin Core follow progress"
                     (Other "query returned an unexpected number of rows")) s);
  mret (mkProgress (contiguous_complete_height s) (target_tip_height s)).

Definition on_world {A} (m : pM A) : fM A := λ w,
  let '(r, u) := m (fw_world w) in (r, mkFollowWorld u (last_near_tip_repair_at w) (stall w)).

Definition bookkeeping_failure_outcome (before : option FollowProgress) : fM TickOutcome :=
  after ← on_world (attempt load_follow_progress);
  mret (bookkeeping_failure_outcome_from before (result_ok after)).

Definition finish_tick (before : FollowProgress) (done : bool) : fM TickOutcome :=
  r ← on_world (attempt load_follow_progress);
  match r with
  | Err _ => bookkeeping_failure_outcome (Some before)
  | Ok after =>
      d ← on_world (attempt (on_core drain_relationship_refresh_queue));
      _ ← match d with Err e => if must_propagate e then throw e else mret () | Ok _ => mret () end;
      mret {| progressed := fp_contiguous_complete_height before <? fp_contiguous_complete_height after;
              idle_at_target := caught_up after;
              completed := done |}
  end.

Definition repair_near_tip (schedule : NearTipRepairSchedule) : fM bool :=
  '(last_repair, repair_succeeded) ← on_world (repair_near_tip_backbone_if_due schedule);
  _ ← modify (λ w, mkFollowWorld (fw_world w) last_repair (stall w));
  mret repair_succeeded.

Definition no_safe_progress : TickOutcome := mkTickOutcome false false false.

(** The batch, with one forced repair when it finds a conflict; [None] when that repair
    did not succeed. *)
Definition follow_batch : fM (option (result anyhow BitcoinCoreSyncStats)) :=
  batch ← on_world (attempt (on_backbone (run_sync_bitcoin_core (normalize_follow_config config))));
  if match batch with Err e => is_backbone_integrity_error e && negb (must_propagate e) | Ok _ => false end then
    repaired ← repair_near_tip Force;
    if (repaired : bool) then
      batch ← on_world (attempt (on_backbone (run_sync_bitcoin_core (normalize_follow_config config))));
      mret (Some batch)
    else mret None
  else mret (Some batch).

Definition tick_batch (before : FollowProgress) : fM TickOutcome :=
  w ← gets last_near_tip_repair_at;
  repaired ← repair_near_tip (IfDue w follow_interval);
  if negb (repaired : bool) then mret no_safe_progress else
  b ← follow_batch;
  match b with
  | None => mret no_safe_progress
  | Some batch =>
      done ← match batch with
             | Ok stats => mret (coinbase_failed stats =? 0)
             | Err e => if is_backbone_integrity_error e || must_propagate e then throw e else mret false
             end;
      refresh ← on_world (attempt (on_err (Context "refresh Core header cache after Bitcoin backbone follow batch")
                                     (refresh_bitcoin_core_header_cache classifier)));
      refreshed ← lift (handle_header_cache_refresh_result refresh);
      if negb (refreshed : bool) then bookkeeping_failure_outcome (Some before) else finish_tick before done
  end.

Definition tick : fM TickOutcome :=
  _ ← (if Configured_is_live classifier
       then (_ ← on_world (on_core (Configured_ready_tip classifier)); mret ()) else mret ());
  d ← on_world (attempt drain_queue);
  match d with
  | Err e => if must_propagate e then throw e else bookkeeping_failure_outcome None
  | Ok _ =>
      p ← on_world (attempt load_follow_progress);
      match p with
      | Err _ => bookkeeping_failure_outcome None
      | Ok before => tick_batch before
      end
  end.

(** [wait_after_tick]: the stall counter moves only after a completed tick. *)
Definition wait_after_tick (r : result anyhow TickOutcome) : fM Z := λ w,
  match r with
  | Ok outcome =>
      let '(d, next) := wait_after_live_tick outcome (stall w) follow_interval in
      (d, mkFollowWorld (fw_world w) (last_near_tip_repair_at w) next)
  | Err e => (Err e, w)
  end.

(** [BitcoinCoreLiveProducer::start]. *)
Definition start (last_repair : option Z) : pM (FollowWorld W * Z) :=
  _ ← on_err (Context "load source") (on_core bb_statement);
  s ← on_backbone load_or_init_sync_state;
  w ← gets id;
  mret (mkFollowWorld w last_repair 0, ss_contiguous_complete_height s).
End follow.

(** ** A repair that succeeds *)

Section repaired.
Context `{BitcoinLib} {W : Type} `{BitcoinCoreBackboneSource W}.

#[local] Existing Instance same_db_preorder.

Lemma stability_db target : steps same_db (target_stability_failure (W := W) target).
Proof. unfold target_stability_failure. solve_steps; by apply on_bb_same. Qed.

Lemma bb_transaction_Ok {A} (m : stM (BackboneWorld W) anyhow A) w a w' :
  bb_transaction m w = (Ok a, w') → ∃ w1, m w = (Ok a, w1) ∧ db w' = db w1.
Proof.
  unfold bb_transaction. destruct (m w) as [[b|e] w1]; [|done].
  destruct (on_bb bb_statement w1) as [[u|e] w2] eqn:Hb; [|done]. intros [= -> ->].
  apply on_bb_db in Hb. by eauto.
Qed.

Lemma persist_failure_Ok {A} (m : stM (BackboneWorld W) anyhow A) w a w' :
  persist_failure m w = (Ok a, w') → m w = (Ok a, w').
Proof.
  unfold persist_failure. intros Hp. st_inv. destruct x as [b|e]; [by st_inv|].
  destruct (downcast_integrity_failure e) as [[? ?]|]; st_inv.
Qed.

Lemma no_pending_Ok (w w' : BackboneWorld W) u :
  guard_no_pending_core_reconcile w = (Ok u, w') → db w' = db w ∧ queue_empty (bb_queue w) = true.
Proof.
  unfold guard_no_pending_core_reconcile, no_queued_work. intros Hg. st_inv.
  match goal with Hb : on_bb _ _ = _ |- _ => apply on_bb_db in Hb as Hd end.
  split; [done|]. apply db_eq in Hd as (_ & _ & Hq). by rewrite <-Hq.
Qed.

Lemma accept_target_Ok target (w w' : BackboneWorld W) :
  accept_live_repaired_target target w = (Ok (), w') →
  bb_blocks w' = bb_blocks w ∧ queue_empty (bb_queue w') = true ∧
  ∃ s, bb_sync w' = Some s ∧ target_tip_height s = Some (tip_height target) ∧
       target_tip_hash s = Some (tip_hash target).
Proof.
  unfold accept_live_repaired_target. intros (w1 & Ha & Hd)%persist_failure_Ok%bb_transaction_Ok. st_inv.
  match goal with Hg : guard_no_pending_core_reconcile _ = _ |- _ => apply no_pending_Ok in Hg as [Hd1 Hq] end.
  match goal with Hb : on_bb _ _ = _ |- _ => apply on_bb_db in Hb as Hd2 end.
  match goal with Hs : target_stability_failure ?t ?w0 = (Ok ?r, ?w1) |- _ =>
    pose proof (stability_db t w0) as Hd3; rewrite Hs in Hd3; destruct r; [discriminate|] end.
  unfold update_sync in *. st_inv.
  repeat match goal with Hb : on_bb _ _ = _ |- _ => apply on_bb_db in Hb end.
  unfold same_db in Hd3. simpl in Hd3.
  repeat match goal with Hb : db _ = db _ |- _ => apply db_eq in Hb as (? & ? & ?) end. simpl in *.
  split_and!; [congruence|congruence|].
  destruct (bb_sync x1) as [s|] eqn:Hs; [|by replace (bb_sync x2) with (@None SyncStateRow) in * by congruence].
  eexists. split; [done|]. unfold store_live_repaired_target. by destruct (code_in _ _).
Qed.

(** An empty window never passes: there is no local tip to compare. *)
Lemma empty_window_fails start target rows (w w' : BackboneWorld W) :
  tip_height target < start →
  verify_live_backbone_window_rows (mkWindowContext start target) rows w ≠ (Ok (), w').
Proof.
  intros Hlt Hv. unfold verify_live_backbone_window_rows in Hv. simpl in Hv.
  unfold range_inclusive in Hv. rewrite seqZ_nil in Hv by lia. st_inv.
  simpl in *. st_inv. unfold verify_live_window_tip_hash in *. case_bool_decide; [done|].
  by edestruct @invariant_failure_not_Ok.
Qed.

(** The window is checked against the tables that are there. *)
Lemma verify_window_Ok target window_heights (w w' : BackboneWorld W) :
  verify_live_backbone_window target window_heights w = (Ok (), w') →
  live_window (bb_blocks w') (live_backbone_window_start_height (tip_height target) window_heights) target.
Proof.
  unfold verify_live_backbone_window, load_canonical_window_rows. intros Hv. st_inv.
  match goal with Hr : verify_live_backbone_window_rows (mkWindowContext ?start _) _ _ = _ |- _ =>
    destruct (Z.le_gt_cases start (tip_height target)) as [Hle|]; [|by edestruct @empty_window_fails] end.
  match goal with Hr : verify_live_backbone_window_rows _ _ _ = _ |- _ =>
    apply verify_rows_Ok in Hr as [Hl ->]; [|exact Hle] end.
  by apply live_window_linked.
Qed.
End repaired.

Section follow_ok.
Context `{BitcoinLib} {W : Type} `{BitcoinCoreBackboneSource W} `{!CoreHeaderSource W} `{!Clock W}.
Context `{ReconcileEnv (W * ReadModel)} `{HeaderCacheStore W}.

Lemma on_backbone_Ok {A} (m : stM (BackboneWorld W) anyhow A) w a w' :
  on_backbone m w = (Ok a, w') →
  ∃ b, m (mkBackboneWorld (rw_env w) (rm_blocks (rw_model w)) (rw_sync w) (rw_queue w)) = (Ok a, b) ∧
    rm_blocks (rw_model w') = bb_blocks b ∧ rw_sync w' = bb_sync b ∧ rw_queue w' = bb_queue b.
Proof. unfold on_backbone. destruct (m _) as [r b]. intros [= -> <-]. by exists b. Qed.

(** What a repair promises when it reports success. *)
Definition repaired (w : RepairWorld W) (window_heights : Z) : Prop :=
  ∃ target s,
    live_window (rm_blocks (rw_model w))
      (live_backbone_window_start_height (tip_height target) window_heights) target ∧
    queue_empty (rw_queue w) = true ∧ rw_sync w = Some s ∧
    target_tip_height s = Some (tip_height target) ∧ target_tip_hash s = Some (tip_hash target).

Context (lookup : bytes → option InvalidBlock) (resolve_pool : bytes → option bytes → option Z)
  (hex : bytes → string) (now : Z) (drain_fuel : queue → nat) (cascade_budget : Z) (repair_fuel : nat)
  (instant_now : W → Z) (classifier : ConfiguredParentClassifier) (window_heights : Z).

Lemma repair_and_verify_repaired target w stats w' :
  repair_and_verify lookup resolve_pool hex now drain_fuel cascade_budget repair_fuel classifier
    window_heights target w = (Ok stats, w') →
  coinbase_failed stats = 0 → repaired w' window_heights.
Proof.
  unfold repair_and_verify. intros Hr Hz. st_inv. destruct x as [st|]; [|by st_inv].
  destruct (coinbase_failed st =? 0) eqn:Hc; st_inv; [|by rewrite Hz in Hc].
  repeat match goal with Hb : on_backbone _ _ = _ |- _ => apply on_backbone_Ok in Hb as (? & ? & ? & ? & ?) end.
  match goal with Ha : accept_live_repaired_target _ _ = _ |- _ =>
    apply accept_target_Ok in Ha as (Hb & Hq & s & Hs & ? & ?) end.
  match goal with Hv : verify_live_backbone_window _ _ _ = _ |- _ => apply verify_window_Ok in Hv end.
  simpl in *. exists target, s. split_and!; [|congruence..|done|done].
  match goal with Hl : live_window (bb_blocks ?b) _ _ |- live_window ?t _ _ =>
    replace t with (bb_blocks b) by congruence; exact Hl end.
Qed.

Lemma record_retryable_Ok target message (w : RepairWorld W) r w' :
  record_retryable target message w = (r, w') → r = Ok ().
Proof. unfold record_retryable. rewrite st_attempt_bind. by intros [= <- _]. Qed.

(** C26. The verdict of the scheduled repair: it reports success without repairing only when the
    last repair is recent, and then touches nothing; otherwise success means that the stored rows
    near the tip of Core form one complete linked chain ending on that tip, that no queued work is
    left, and that the tip is the accepted target of the sync state. *)
Theorem repair_verdict schedule w last w' :
  repair_near_tip_backbone_if_due lookup resolve_pool hex now drain_fuel cascade_budget repair_fuel
    instant_now classifier window_heights schedule w = (Ok (last, true), w') →
  match skipped_timestamp schedule (instant_now (rw_env w)) with
  | Some recent => last = Some recent ∧ w' = w
  | None => last = Some (instant_now (rw_env w')) ∧ repaired w' window_heights
  end.
Proof.
  unfold repair_near_tip_backbone_if_due. intros Hr. st_inv.
  destruct (skipped_timestamp _ _) as [l|]; [by st_inv|]. st_inv.
  match goal with Hc : capture_live_window_target _ = (?r, _) |- _ => destruct r as [target|e] end;
    [|destruct (must_propagate e); st_inv].
  st_inv. match goal with Hc : repair_and_verify _ _ _ _ _ _ _ _ _ _ _ = (?r, _) |- _ => destruct r as [stats|e] end;
    simpl in *; [|by destruct (_ || _)].
  match goal with Hs : Ok (_ =? 0) = Ok true |- _ => injection Hs as Hz%Z.eqb_eq end.
  st_inv. split; [done|]. by eapply repair_and_verify_repaired.
Qed.
End follow_ok.

(** ** The stall policy *)

(** The waits after a sequence of ticks; [None] when the producer gives up. *)
Fixpoint waits (follow_interval stall : Z) (outcomes : list TickOutcome) : option (list Z) :=
  match outcomes with
  | [] => Some []
  | o :: outcomes =>
      match wait_after_live_tick o stall follow_interval with
      | (Ok d, stall) => cons d <$> waits follow_interval stall outcomes
      | (Err _, _) => None
      end
  end.

(** No forward progress and not at the target. *)
Definition stalled (o : TickOutcome) : Prop := progressed o = false ∧ idle_at_target o = false.
#[global] Instance stalled_dec o : Decision (stalled o).
Proof. unfold stalled. apply _. Defined.

Lemma wait_after_Ok o stall interval :
  wait_after_live_tick o stall interval =
  if decide (stalled o) then
    if 4 <=? stall then (Err (Other "Bitcoin Core backbone live producer stalled below tip"), stall + 1)
    else (Ok interval, stall + 1)
  else (Ok (if progressed o then 0 else interval), 0).
Proof.
  unfold wait_after_live_tick, follow_stall_step, FOLLOW_STALL_EXIT_THRESHOLD.
  case_decide as Ho; unfold stalled in Ho.
  - destruct Ho as [-> ->]. simpl. destruct (Z.leb_spec 5 (stall + 1)), (Z.leb_spec 4 stall); by try lia.
  - destruct (progressed o), (idle_at_target o); simpl; done || by destruct Ho.
Qed.

(** The outcomes start with [n] stalled ticks, or have five in a row. *)
Definition gives_up (n : nat) (outcomes : list TickOutcome) : Prop :=
  (∃ run post, outcomes = run ++ post ∧ length run = n ∧ Forall stalled run) ∨
  (∃ pre run post, outcomes = pre ++ run ++ post ∧ length run = 5%nat ∧ Forall stalled run).

Lemma gives_up_cons n o outcomes :
  (n < 5)%nat → gives_up (S n) (o :: outcomes) ↔ if decide (stalled o) then gives_up n outcomes else gives_up 5 outcomes.
Proof.
  intros Hn. unfold gives_up. split.
  - intros [(run & post & He & Hl & Hf)|(pre & run & post & He & Hl & Hf)].
    + destruct run as [|x run]; simplify_eq/=. apply Forall_cons in Hf as [Hx Hf]. rewrite decide_True by done. eauto 6.
    + destruct pre as [|x pre]; simplify_eq/=; [|by case_decide; eauto 8].
      destruct run as [|x run]; simplify_eq/=. apply Forall_cons in Hf as [Hx Hf]. rewrite decide_True by done.
      left. exists (take n run), (drop n run ++ post). rewrite app_assoc, take_drop, length_take.
      split_and!; [done|lia|by apply Forall_take].
  - case_decide as Ho; intros [(run & post & -> & Hl & Hf)|(pre & run & post & -> & Hl & Hf)].
    + left. exists (o :: run), post. split_and!; [done|simpl; lia|by constructor].
    + right. by exists (o :: pre), run, post.
    + right. by exists [o], run, post.
    + right. by exists (o :: pre), run, post.
Qed.

Lemma waits_None interval outcomes : ∀ k, (k < 5)%nat →
  waits interval (Z.of_nat k) outcomes = None ↔ gives_up (5 - k) outcomes.
Proof.
  induction outcomes as [|o outcomes IH]; intros k Hk.
  - split; [done|]. intros [(run & post & He & Hl & _)|(pre & run & post & He & Hl & _)].
    + destruct run; simpl in *; [lia|done].
    + destruct pre, run; simplify_eq/=.
  - replace (5 - k)%nat with (S (4 - k)) by lia. rewrite gives_up_cons by lia. simpl. rewrite wait_after_Ok.
    case_decide as Ho.
    + destruct (Z.leb_spec 4 (Z.of_nat k)).
      * assert (k = 4)%nat as -> by lia. split; [|done]. intros _. left. by exists [], outcomes.
      * replace (Z.of_nat k + 1) with (Z.of_nat (S k)) by lia. rewrite fmap_None, IH by lia. done.
    + rewrite fmap_None, (IH 0%nat) by lia. done.
Qed.

(** The follower gives up exactly on five consecutive ticks that neither advanced the
    contiguous cursor nor idled at the target; otherwise every tick is followed by a wait, which
    is empty after progress and the follow interval after none. *)
Theorem stall_policy interval outcomes :
  (waits interval 0 outcomes = None ↔
   ∃ pre run post, outcomes = pre ++ run ++ post ∧ length run = 5%nat ∧ Forall stalled run) ∧
  ∀ ds, waits interval 0 outcomes = Some ds →
    ds = (λ o, if progressed o then 0 else interval) <$> outcomes.
Proof.
  split.
  - rewrite (waits_None interval outcomes 0) by lia. split; [|by right].
    intros [(run & post & -> & Hr)|?]; [by exists [], run, post|done].
  - enough (∀ stall ds, waits interval stall outcomes = Some ds →
              ds = (λ o, if progressed o then 0 else interval) <$> outcomes) by eauto.
    induction outcomes as [|o outcomes IH]; intros stall ds; simpl; [by intros [= <-]|].
    rewrite wait_after_Ok. case_decide as Ho; [destruct (4 <=? stall); [done|]|];
      intros (ds' & ->%IH & ->)%fmap_Some; [by rewrite (proj1 Ho)|done].
Qed.

(** ** What a tick reports *)

Section reports.
Context `{BitcoinLib} {W : Type} `{BitcoinCoreBackboneSource W} `{!CoreHeaderSource W} `{!Clock W}.
Context `{ReconcileEnv (W * ReadModel)} `{HeaderCacheStore W}.

(** The cursor of the sync state. *)
Definition cursor (s : option SyncStateRow) : option Z := contiguous_complete_height <$> s.
Definition same_cursor {V} (w w' : QueueWorld V) : Prop := cursor (q_sync w') = cursor (q_sync w).
#[local] Instance same_cursor_preorder V : PreOrder (@same_cursor V).
Proof. split; [done|]. unfold same_cursor. intros w1 w2 w3. congruence. Qed.

Section drain.
Context {V : Type} `{ReconcileEnv V}.

Lemma qenv_cursor {A} (m : stM V anyhow A) : steps same_cursor (on_qenv m).
Proof. intros w. unfold on_qenv. by destruct (m (q_env w)). Qed.
Hint Resolve qenv_cursor : steps.

Lemma put_queue_cursor q : steps same_cursor (put_queue (W := V) q).
Proof. by intros w. Qed.
Hint Resolve put_queue_cursor : steps.

Lemma transaction_cursor {A} (m : stM (QueueWorld V) anyhow A) :
  steps same_cursor m → steps same_cursor (transaction m).
Proof.
  intros Hm w. unfold transaction. specialize (Hm w). destruct (m w) as [[a|e] w']; [|done].
  pose proof (qenv_cursor statement w') as Hs. destruct (on_qenv statement w') as [[u|e] w'']; [|done].
  simpl in *. by etrans.
Qed.

Lemma clear_pending_cch s e s' :
  clear_pending_error s e = Ok s' → contiguous_complete_height s' = contiguous_complete_height s.
Proof.
  unfold clear_pending_error. intros Hc. destruct (negb e); [by simplify_eq|].
  destruct (negb _); [by simplify_eq|]. res_inv. by destruct x.
Qed.

Lemma clear_pending_cursor : steps same_cursor (clear_pending_error_in_transaction (W := V)).
Proof.
  unfold clear_pending_error_in_transaction. intros w.
  pose proof (qenv_cursor statement w) as Hs. unfold mbind at 1, stM_bind.
  destruct (on_qenv statement w) as [[u|e] w1]; [|exact Hs]. simpl in *. etrans; [exact Hs|].
  unfold gets, mbind, stM_bind, same_cursor, cursor. simpl. destruct (q_sync w1) as [row|] eqn:Hr; simpl; rewrite ?Hr; [|done].
  unfold lift, put_sync, modify. destruct (clear_pending_error row _) as [row'|e] eqn:Hc; simpl; rewrite ?Hr; [|done].
  simpl. f_equal. by eapply clear_pending_cch.
Qed.
Hint Resolve clear_pending_cursor : steps.

Lemma drain_loop_cursor fuel batch n p i : steps same_cursor (drain_loop (W := V) fuel batch n p i).
Proof.
  revert p i. induction fuel as [|fuel IH]; intros p i; simpl; [solve_steps|].
  solve_steps; unfold clear_pending_error_if_queue_empty, reconcile_one_block_strict, expand_core_reconcile_work;
    try apply transaction_cursor; solve_steps.
Qed.
Hint Resolve drain_loop_cursor : steps.

Lemma drain_core_queue_cursor fuel live budget : steps same_cursor (drain_core_queue (W := V) fuel live budget).
Proof.
  unfold drain_core_queue, drain_core_reconcile_queue_with_budget, drain_core_reconcile_queue_up_to. solve_steps.
Qed.
End drain.

Lemma drain_queue_cursor drain_fuel budget classifier (w : RepairWorld W) r w' :
  drain_queue drain_fuel budget classifier w = (Ok r, w') → cursor (rw_sync w') = cursor (rw_sync w).
Proof.
  unfold drain_queue. intros Hd. st_inv. match goal with o : option unit |- _ => destruct o end; st_inv. unfold on_queue in *.
  match goal with Hq : context [drain_core_queue ?f ?l ?b ?q] |- _ =>
    pose proof (drain_core_queue_cursor f l b q) as Hc; destruct (drain_core_queue f l b q) end.
  by simplify_eq/=.
Qed.

Context (lookup : bytes → option InvalidBlock) (resolve_pool : bytes → option bytes → option Z)
  (hex : bytes → string) (now : Z) (drain_fuel : queue → nat) (cascade_budget : Z) (repair_fuel : nat)
  (instant_now : W → Z) (drain_relationships : stM W anyhow unit) (classifier : ConfiguredParentClassifier)
  (config : BitcoinCoreSyncConfig) (follow_interval window_heights : Z).

#[local] Abbreviation tick_batch' := (tick_batch lookup resolve_pool hex now drain_fuel cascade_budget repair_fuel
  instant_now drain_relationships classifier config follow_interval window_heights).
#[local] Abbreviation tick' := (tick lookup resolve_pool hex now drain_fuel cascade_budget repair_fuel
  instant_now drain_relationships classifier config follow_interval window_heights).

Lemma on_world_Ok {A} (m : stM (RepairWorld W) anyhow A) w a w' :
  on_world m w = (Ok a, w') → m (fw_world w) = (Ok a, fw_world w').
Proof. unfold on_world. destruct (m _). by intros [= -> <-]. Qed.

Lemma on_core_sync {A} (m : stM W anyhow A) (w : RepairWorld W) r w' :
  on_core m w = (r, w') → rw_sync w' = rw_sync w.
Proof. unfold on_core. destruct (m _). by intros [= _ <-]. Qed.

Definition progress_of (s : SyncStateRow) : FollowProgress :=
  mkProgress (contiguous_complete_height s) (target_tip_height s).

Lemma load_progress_Ok (w : RepairWorld W) p w' :
  load_follow_progress w = (Ok p, w') → rw_sync w' = rw_sync w ∧ ∃ s, rw_sync w = Some s ∧ p = progress_of s.
Proof.
  unfold load_follow_progress. intros Hl. st_inv.
  match goal with Hc : on_core _ _ = _ |- _ => apply on_core_sync in Hc as Hs end.
  split; [done|]. rewrite <-Hs. destruct (rw_sync _); simplify_eq/=. by eexists.
Qed.

Lemma bookkeeping_incomplete before (w : FollowWorld W) o w' :
  bookkeeping_failure_outcome before w = (Ok o, w') → completed o = false.
Proof. unfold bookkeeping_failure_outcome. intros Hb. by st_inv. Qed.

Lemma finish_tick_Ok before done (w : FollowWorld W) o w' :
  finish_tick drain_relationships before done w = (Ok o, w') → completed o = true →
  done = true ∧ ∃ s, rw_sync (fw_world w') = Some s ∧
    progressed o = (fp_contiguous_complete_height before <? contiguous_complete_height s) ∧
    idle_at_target o = caught_up (progress_of s).
Proof.
  unfold finish_tick. intros Hf Hc. st_inv. repeat match goal with Hw : on_world _ _ = _ |- _ => apply on_world_Ok in Hw; st_inv end.
  destruct x as [after|e]; [|by rewrite (bookkeeping_incomplete _ _ _ _ H4) in Hc].
  apply load_progress_Ok in H3 as (Hs & s & Hs' & ->). st_inv. split; [done|]. exists s.
  split; [|done]. rewrite <-Hs', <-Hs.
  match goal with Hw : on_world _ _ = _ |- _ => apply on_world_Ok in Hw; st_inv end.
  match goal with Hw : on_core _ _ = _ |- _ => apply on_core_sync in Hw; rewrite <-Hw end.
  match goal with Hm : match ?d with Ok _ => _ | Err _ => _ end _ = _ |- _ => destruct d as [|e]; [|destruct (must_propagate e)] end;
    by st_inv.
Qed.

Lemma tick_batch_Ok before w o w' :
  tick_batch' before w = (Ok o, w') → completed o = true →
  ∃ s, rw_sync (fw_world w') = Some s ∧
    progressed o = (fp_contiguous_complete_height before <? contiguous_complete_height s) ∧
    idle_at_target o = caught_up (progress_of s).
Proof.
  unfold tick_batch. intros Ht Hc. st_inv.
  match goal with Hm : (if negb ?b then _ else _) _ = _ |- _ => destruct b end; simpl in *; [|by st_inv]. st_inv.
  match goal with Hm : match ?b with Some _ => _ | None => _ end _ = _ |- _ => destruct b end; [|by st_inv]. st_inv.
  match goal with Hm : (if negb ?b then _ else _) _ = _ |- _ => destruct b end; simpl in *.
  - eapply finish_tick_Ok; eauto.
  - by erewrite bookkeeping_incomplete in Hc.
Qed.

Lemma start_tick_sync (w w' : FollowWorld W) :
  (if Configured_is_live classifier
   then (_ ← on_world (on_core (Configured_ready_tip classifier)); mret ()) else mret ()) w = (Ok (), w') →
  rw_sync (fw_world w') = rw_sync (fw_world w).
Proof.
  destruct (Configured_is_live classifier); intros Hs; st_inv; [|done].
  match goal with Hw : on_world _ _ = _ |- _ => apply on_world_Ok, on_core_sync in Hw end. done.
Qed.

(** What a completed tick of the follower reports is what the tables hold: it progressed
    exactly when the stored contiguous cursor is above the one the tick started from, and it
    idles at the target exactly when the stored cursor has reached the stored target. *)
Theorem tick_reports w o w' :
  tick' w = (Ok o, w') → completed o = true →
  ∃ before after, cursor (rw_sync (fw_world w)) = Some before ∧ rw_sync (fw_world w') = Some after ∧
    (progressed o = true ↔ before < contiguous_complete_height after) ∧
    (idle_at_target o = true ↔
       ∃ tip, target_tip_height after = Some tip ∧ tip ≤ contiguous_complete_height after).
Proof.
  unfold tick. intros Ht Hc. st_inv.
  match goal with Hw : on_world (attempt (drain_queue _ _ _)) _ = (Ok ?d, _) |- _ => destruct d as [u|e] end.
  2: { destruct (must_propagate e); st_inv. by erewrite bookkeeping_incomplete in Hc. }
  st_inv.
  match goal with Hw : on_world (attempt load_follow_progress) _ = (Ok ?d, _) |- _ => destruct d as [before|e] end.
  2: by erewrite bookkeeping_incomplete in Hc.
  repeat match goal with Hw : on_world _ _ = _ |- _ => apply on_world_Ok in Hw; st_inv end.
  destruct (tick_batch_Ok _ _ _ _ H6 Hc) as (after & Ha & -> & ->).
  apply load_progress_Ok in H5 as (_ & s & Hs & ->). apply drain_queue_cursor in H4.
  exists (contiguous_complete_height s), after. split_and!; [|done|by rewrite Z.ltb_lt|].
  - rewrite <-(start_tick_sync _ _ H3), <-H4, Hs. done.
  - unfold caught_up. simpl. destruct (target_tip_height after); [rewrite Z.leb_le|]; naive_solver.
Qed.
End reports.

Module LiveSample.
(** Hashes count: the block after the hash [n] has the hash [n + 1]. *)
Definition counting_lib : BitcoinLib :=
  let toy := Toy.toy in
  {| sha256d := @sha256d toy; block_hash h := to_le_bytes 32 (from_le_bytes (prev_blockhash h) + 1);
     compute_txid := @compute_txid toy; is_coinbase := @is_coinbase toy;
     deserialize_header := @deserialize_header toy; serialize_header := @serialize_header toy;
     deserialize_partial_tx := @deserialize_partial_tx toy; deserialize_tx := @deserialize_tx toy;
     deserialize_txouts := @deserialize_txouts toy; deserialize_block := @deserialize_block toy;
     check_merkle_root := @check_merkle_root toy; target_from_compact := @target_from_compact toy;
     is_met_by := @is_met_by toy; is_op_return := @is_op_return toy;
     address_from_script := @address_from_script toy |}.
#[local] Existing Instance counting_lib.
Definition hash_at (h : Z) : bytes := to_le_bytes 32 (h + 1).

(** A Core at height 2, an empty database with a fresh header cache. *)
Definition next_header (hash : bytes) : stM CacheDb anyhow Header :=
  mret {| hdr_version := 1; prev_blockhash := to_le_bytes 32 (from_le_bytes hash - 1); merkle_root := [];
          hdr_time := 10 * from_le_bytes hash; hdr_bits := 1000; hdr_nonce := 0 |}.
#[local] Instance backbone : BitcoinCoreBackboneSource CacheDb := {
  bb_tip := mret (mkTip 2 (hash_at 2));
  bb_block_hash h := mret (hash_at h);
  bb_block_header := next_header;
  bb_block_coinbase h := mret (mkBlockCoinbase [x01] [x02] [x03]);
  bb_statement := mret ();
  bb_resolve_pool _ := None;
  bb_has_missing_dependents _ := mret false;
  bb_cascade _ := mret ();
}.
#[local] Instance headers : CoreHeaderSource CacheDb := {
  get_chain_status := mret (mkChainStatus true 2 2 false 0);
  get_block_hash k := mret (hash_at k);
  get_header _ _ := throw (Other "unused");
  get_block_header := next_header;
  get_header_verbose _ := throw (Other "unused");
  get_block_coinbase _ := throw (Other "unused");
}.
#[local] Instance clock : Clock CacheDb := mret 0.
#[local] Instance store : HeaderCacheStore CacheDb := {
  cache_db w := w;
  set_cache_db db _ := db;
  cache_statement := mret ();
  cache_drain _ := mret ();
}.
#[local] Instance env : ReconcileEnv (CacheDb * ReadModel) := {
  reconcile_block _ := mret [];
  dependent_edges _ _ := [];
  now_secs _ := 0;
  statement := mret ();
}.

Definition empty_model : ReadModel := mkReadModel ∅ ∅ ∅ ∅ ∅ (Err (Other "no table")).
Definition first_world : RepairWorld CacheDb :=
  mkRepairWorld (mkCacheDb ∅ (Some CacheState_default) false) empty_model (Some SyncStateRow_default) ∅.
Definition first : FollowWorld CacheDb := mkFollowWorld first_world None 0.
Definition run_tick : FollowWorld CacheDb → result anyhow TickOutcome * FollowWorld CacheDb :=
  tick (λ _, None) (λ _ _, None) (λ _, EmptyString) 0 (λ _, 10%nat) 100 3 (λ _, 0) (mret ())
    (BitcoinCore false) (mkSyncConfig None None 4 true true) 60000 3.
Definition run_repair : result anyhow (option Z * bool) * RepairWorld CacheDb :=
  repair_near_tip_backbone_if_due (λ _, None) (λ _ _, None) (λ _, EmptyString) 0 (λ _, 10%nat) 100 3 (λ _, 0)
    (BitcoinCore false) 3 Force first_world.

Lemma repair_verdict_witness : run_repair.1 = Ok (Some 0, true) ∧ repaired run_repair.2 3.
Proof.
  split; [vm_compute; reflexivity|].
  destruct (repair_verdict (λ _, None) (λ _ _, None) (λ _, EmptyString) 0 (λ _, 10%nat) 100 3 (λ _, 0)
    (BitcoinCore false) 3 Force first_world (Some 0) run_repair.2) as [_ Hr].
  - vm_compute. reflexivity.
  - exact Hr.
Defined.

Lemma tick_reports_witness :
  (run_tick first).1 = Ok (mkTickOutcome true true true) ∧
  ∃ after, rw_sync (fw_world (run_tick first).2) = Some after ∧ -1 < contiguous_complete_height after.
Proof.
  split; [vm_compute; reflexivity|].
  destruct (tick_reports (λ _, None) (λ _ _, None) (λ _, EmptyString) 0 (λ _, 10%nat) 100 3 (λ _, 0) (mret ())
    (BitcoinCore false) (mkSyncConfig None None 4 true true) 60000 3 first (mkTickOutcome true true true)
    (run_tick first).2) as (before & after & Hb & Ha & [Hp _] & _).
  - vm_compute. reflexivity.
  - reflexivity.
  - exists after. split; [exact Ha|]. specialize (Hp eq_refl). injection Hb as <-. exact Hp.
Defined.

Lemma stall_policy_witness :
  let still := mkTickOutcome false false true in
  let ahead := mkTickOutcome true false true in
  waits 60 0 [still; still; still; still; still] = None ∧
  waits 60 0 [still; still; still; still; ahead; still] = Some [60; 60; 60; 60; 0; 60].
Proof.
  split; [|vm_compute; reflexivity].
  apply stall_policy. exists [], (replicate 5 (mkTickOutcome false false true)), [].
  split; [reflexivity|]. split; [reflexivity|]. repeat constructor.
Defined.
End LiveSample.
