(* ===== verification/Cascade.v ===== *)
(** * The cascade

    Models the rest of [crates/mmm-read-model/src/reconcile.rs] and the entry points of
    [lib.rs]: the reconcile of one event or block in its own transaction, with its
    retries when the lock set changed, and the breadth-first cascade over the events
    and blocks that depend on a changed parent.

    The world is an environment and the tables. Between two statements other sessions
    may commit, so a statement may move the tables; the tables read once the advisory
    locks are held are those after such a move. What others commit between the locks
    and the commit concerns rows this transaction does not write and is counted after it.
    Source health lives in other tables and is left out. *)

From stdpp Require Import sorting.
From S2P Require Import Prelude BitcoinLib Effects Errors Nbits Lineage Classifier LiveLoop Poller Blocks SyncState CoreQueue Events Reconcile.

Definition RECONCILE_LOCK_SET_RETRY_LIMIT : nat := 3.
Definition DEFAULT_CASCADE_BUDGET : Z := 10000.

Inductive ReconcileWork :=
| WorkEvent (event_id : Z) (preclassified : option PreclassifiedParent)
| WorkStrictEvent (event_id : Z)
| WorkBlock (hash : bytes).

Record ReconcileStats := mkReconcileStats { parents_reconciled : Z; descendants_reconciled : Z }.

(** A statement, before which other sessions may commit, and the outcome of a commit. *)
Class ReadModelSession (W : Type) := {
  session : stM (W * ReadModel) anyhow unit;
  commit : stM W anyhow unit;
}.

(** ** Dependents *)

(** [ORDER BY child_height NULLS LAST, id]. *)
Definition nulls_last (o : option Z) : Z := default 2147483648 o.
Definition child_le (a b : EventRow) : Prop :=
  nulls_last (e_child_height a) < nulls_last (e_child_height b) ∨
  nulls_last (e_child_height a) = nulls_last (e_child_height b) ∧ e_id a ≤ e_id b.
#[global] Instance child_le_dec a b : Decision (child_le a b).
Proof. unfold child_le. apply _. Defined.

Definition find_child_events (t : event_table) (hash : bytes) : list Z :=
  e_id <$> merge_sort child_le
    (filter (λ e, e_prev_hash e = hash ∧ e_pow e = true ∧ is_active e = true) (map_to_list t).*2).

(** [ORDER BY btc_height, btc_header_hash]; ascending order puts nulls last. *)
Definition height_hash_le (a b : BlockInput) : Prop :=
  nulls_last (b_height a) < nulls_last (b_height b) ∨
  nulls_last (b_height a) = nulls_last (b_height b) ∧ bytes_leb (b_hash a) (b_hash b) = true.
#[global] Instance height_hash_le_dec a b : Decision (height_hash_le a b).
Proof. unfold height_hash_le. apply _. Defined.

Definition find_derived_child_blocks (t : block_table) (hash : bytes) : list bytes :=
  b_hash <$> merge_sort height_hash_le (filter (λ r, b_prev_hash r = hash) (map_to_list t).*2).

Definition find_stale_competitor_dependents (t : block_table) (hash : bytes) : list bytes :=
  merge_sort bytes_le
    (b_hash <$> filter (λ r, b_kind r = BkStale ∧ b_canonical_competitor_hash r = Some hash) (map_to_list t).*2).

(** ** One event or block *)

Section cascade.
Context `{BitcoinLib} {W : Type} `{CoreHeaderSource W} `{Clock W} `{ReadModelSession W}.
Context (invalid_blocks_lookup : bytes → option InvalidBlock).
Context (resolve_pool : bytes → option bytes → option Z).
Context (classifier : ConfiguredParentClassifier) (nbits_table : option NbitsTable).

#[local] Abbreviation sM := (stM (W * ReadModel) anyhow).

Definition on_env {A} (m : stM W anyhow A) : sM A := λ w,
  let '(r, e) := m w.1 in (r, (e, w.2)).
Definition tables : sM ReadModel := gets snd.

(** The writes of a transaction, kept when its commit succeeds. *)
Definition commit_tables (db : ReadModel) : sM unit :=
  _ ← on_err (Context "commit reconcile transaction") (on_env commit);
  modify (λ w, (w.1, db)).

(** [for attempt in 0..RECONCILE_LOCK_SET_RETRY_LIMIT], with [n] attempts left. [settle]
    is the durable cascade of the caller, which does nothing without one. *)
Fixpoint reconcile_attempts (n : nat) (event_id : Z) (preclassified : option PreclassifiedParent)
    (strict : bool) (settle : list bytes → sM unit) : sM (list bytes) :=
  match n with
  | O => throw (Other "reconcile retry loop always returns")
  | S n =>
      _ ← on_err (Context "begin reconcile transaction") session;
      before ← tables;
      pre ← (if negb (is_enabled classifier) then mret preclassified
             else on_env (preclassify_event_parent_with_policy invalid_blocks_lookup before event_id
                            classifier strict));
      _ ← session;
      before ← tables;
      _ ← session;
      after ← tables;
      r ← attempt (on_env (reconcile_one_event_in_txn invalid_blocks_lookup resolve_pool before after event_id
                             classifier pre None nbits_table));
      match r with
      | Ok (changed_hashes, db) =>
          _ ← settle changed_hashes;
          _ ← commit_tables db;
          mret changed_hashes
      | Err e =>
          if is_reconcile_lock_set_changed e && negb (n =? 0)%nat then
            _ ← on_err (Context "rollback reconcile transaction after lock-set change") session;
            reconcile_attempts n event_id preclassified strict settle
          else
            _ ← attempt session;
            throw e
      end
  end.

Definition reconcile_one_event_with_cascade (event_id : Z) (preclassified : option PreclassifiedParent)
    (strict : bool) (settle : list bytes → sM unit) : sM (list bytes) :=
  reconcile_attempts RECONCILE_LOCK_SET_RETRY_LIMIT event_id preclassified strict settle.

Definition no_settle : list bytes → sM unit := λ _, mret ().

Definition reconcile_one_event_with_policy (event_id : Z) (preclassified : option PreclassifiedParent)
    (strict : bool) : sM (list bytes) :=
  reconcile_one_event_with_cascade event_id preclassified strict no_settle.

Definition reconcile_one_event (event_id : Z) (preclassified : option PreclassifiedParent) : sM (list bytes) :=
  reconcile_one_event_with_policy event_id preclassified (default false (strict_core_errors <$> preclassified)).

Definition reconcile_one_block_with_policy (hash : bytes) (strict : bool) (settle : list bytes → sM unit)
    : sM (list bytes) :=
  _ ← session;
  db ← tables;
  match find_anchor_event_for_block (rm_events db) hash with
  | Some event_id => reconcile_one_event_with_cascade event_id None strict settle
  | None =>
      _ ← on_err (Context "begin block reconcile") session;
      after ← tables;
      db ← lift (rebuild_parent_read_model invalid_blocks_lookup resolve_pool after hash None nbits_table);
      let changed_hashes :=
        if bool_decide (load_block_cascade_state (rm_blocks after) hash = load_block_cascade_state (rm_blocks db) hash)
        then [] else [hash] in
      _ ← settle changed_hashes;
      _ ← commit_tables db;
      mret changed_hashes
  end.

Definition reconcile_one_block (hash : bytes) : sM (list bytes) :=
  reconcile_one_block_with_policy hash false no_settle.

(** ** The queue *)

(** The queries for the dependents of a hash: the tables that each of the three read. *)
Record Answer := mkAnswer {
  an_hash : bytes;
  an_events : ReadModel;
  an_children : ReadModel;
  an_stales : ReadModel;
}.

(** The locals of [drain_reconcile_queue]. [answers] is the history of the queries for
    dependents; the code does not keep it. *)
Record CascadeState := mkCascade {
  cs_queue : list ReconcileWork;
  visited_events : gset Z;
  visited_blocks : gset bytes;
  cs_stats : ReconcileStats;
  answers : list Answer;
}.

Definition count_descendants (s : ReconcileStats) (n : nat) : ReconcileStats :=
  mkReconcileStats (parents_reconciled s) (descendants_reconciled s + Z.of_nat n).
Definition count_parent (s : ReconcileStats) : ReconcileStats :=
  mkReconcileStats (parents_reconciled s + 1) (descendants_reconciled s).

Definition push (st : CascadeState) (items : list ReconcileWork) (ans : Answer) : CascadeState :=
  mkCascade (cs_queue st ++ items) (visited_events st) (visited_blocks st)
    (count_descendants (cs_stats st) (length items)) (answers st ++ [ans]).

Definition new_events (st : CascadeState) (ids : list Z) : list ReconcileWork :=
  (λ id, WorkEvent id None) <$> filter (λ id, id ∉ visited_events st) ids.
Definition new_blocks (st : CascadeState) (hashes : list bytes) : list ReconcileWork :=
  WorkBlock <$> filter (λ h, h ∉ visited_blocks st) hashes.

Definition enqueue_dependents (hash : bytes) (st : CascadeState) : sM CascadeState :=
  _ ← on_err (Context "find child events") session;
  db1 ← tables;
  let ids := find_child_events (rm_events db1) hash in
  _ ← on_err (Context "find derived child blocks") session;
  db2 ← tables;
  let children := find_derived_child_blocks (rm_blocks db2) hash in
  _ ← on_err (Context "find stale competitor dependents") session;
  db3 ← tables;
  let stales := find_stale_competitor_dependents (rm_blocks db3) hash in
  mret (push st (new_events st ids ++ new_blocks st children ++ new_blocks st stales)
          (mkAnswer hash db1 db2 db3)).

Fixpoint enqueue_all (hashes : list bytes) (st : CascadeState) : sM CascadeState :=
  match hashes with
  | [] => mret st
  | h :: hashes => st ← enqueue_dependents h st; enqueue_all hashes st
  end.

(** A popped item: visited before, or reconciled now. *)
Definition was_visited (st : CascadeState) (work : ReconcileWork) : bool :=
  match work with
  | WorkEvent id _ | WorkStrictEvent id => bool_decide (id ∈ visited_events st)
  | WorkBlock hash => bool_decide (hash ∈ visited_blocks st)
  end.
Definition visit (st : CascadeState) (queue : list ReconcileWork) (work : ReconcileWork) : CascadeState :=
  match work with
  | WorkEvent id _ | WorkStrictEvent id =>
      mkCascade queue ({[ id ]} ∪ visited_events st) (visited_blocks st) (cs_stats st) (answers st)
  | WorkBlock hash =>
      mkCascade queue (visited_events st) ({[ hash ]} ∪ visited_blocks st) (cs_stats st) (answers st)
  end.
Definition reconcile_work (work : ReconcileWork) : sM (list bytes) :=
  match work with
  | WorkEvent id preclassified => reconcile_one_event id preclassified
  | WorkStrictEvent id => reconcile_one_event_with_policy id None true
  | WorkBlock hash => reconcile_one_block hash
  end.

Definition with_queue (st : CascadeState) (queue : list ReconcileWork) : CascadeState :=
  mkCascade queue (visited_events st) (visited_blocks st) (cs_stats st) (answers st).
Definition with_parent (st : CascadeState) : CascadeState :=
  mkCascade (cs_queue st) (visited_events st) (visited_blocks st) (count_parent (cs_stats st)) (answers st).

(** [while let Some(work) = queue.pop_front()]; [None] when the fuel runs out. *)
Fixpoint cascade_loop (fuel : nat) (budget : option Z) (st : CascadeState) : sM (option CascadeState) :=
  match fuel with
  | O => mret None
  | S fuel =>
      match cs_queue st with
      | [] => mret (Some st)
      | work :: queue =>
          if match budget with Some b => b <=? parents_reconciled (cs_stats st) | None => false end
          then throw ReconcileBudgetExhausted else
          if was_visited st work then cascade_loop fuel budget (with_queue st queue) else
          changed_hashes ← reconcile_work work;
          st ← enqueue_all changed_hashes (with_parent (visit st queue work));
          cascade_loop fuel budget st
      end
  end.

Definition cascade_start (queue : list ReconcileWork) : CascadeState :=
  mkCascade queue ∅ ∅ (mkReconcileStats 0 0) [].

Definition drain_reconcile_queue (fuel : nat) (queue : list ReconcileWork) (budget : option Z)
    : sM (option ReconcileStats) :=
  r ← cascade_loop fuel budget (cascade_start queue);
  mret (cs_stats <$> r).

Definition reconcile_dependents_after_changes (fuel : nat) (hashes : list bytes) (budget : Z) : sM (option unit) :=
  st ← enqueue_all hashes (cascade_start []);
  match cs_queue st with
  | [] => mret (Some ())
  | queue => r ← drain_reconcile_queue fuel queue (Some budget); mret ((λ _, ()) <$> r)
  end.

(** ** The entry points of [lib.rs] *)

Definition reconcile_from_merge_mining_event (fuel : nat) (event_id : Z)
    (preclassified : option ParentClassification) : sM (option ReconcileStats) :=
  drain_reconcile_queue fuel [WorkEvent event_id (trusted <$> preclassified)] (Some DEFAULT_CASCADE_BUDGET).

Definition reconcile_by_block_hash (fuel : nat) (hash : bytes) : sM (option ReconcileStats) :=
  drain_reconcile_queue fuel [WorkBlock hash] (Some DEFAULT_CASCADE_BUDGET).

Definition run_reclassify_parent (fuel : nat) (hash : bytes) : sM (option ReconcileStats) :=
  if negb (is_enabled classifier) then throw (Other "reclassify-parent requires a Bitcoin Core classifier") else
  _ ← session;
  db ← tables;
  event_id ← lift (ok_or (Other "no active merge-mining event for parent")
                     (find_anchor_event_for_block (rm_events db) hash));
  drain_reconcile_queue fuel [WorkStrictEvent event_id] (Some DEFAULT_CASCADE_BUDGET).
End cascade.

(** ** Coverage *)

Definition key (work : ReconcileWork) : Z + bytes :=
  match work with WorkEvent id _ | WorkStrictEvent id => inl id | WorkBlock hash => inr hash end.

Definition visited (st : CascadeState) (k : Z + bytes) : Prop :=
  match k with inl id => id ∈ visited_events st | inr hash => hash ∈ visited_blocks st end.

#[global] Instance visited_dec st k : Decision (visited st k).
Proof. destruct k; simpl; apply _. Defined.

(** The dependents of a hash in the tables its queries read. *)
Definition named (ans : Answer) : list (Z + bytes) :=
  (inl <$> find_child_events (rm_events (an_events ans)) (an_hash ans)) ++
  (inr <$> find_derived_child_blocks (rm_blocks (an_children ans)) (an_hash ans)) ++
  (inr <$> find_stale_competitor_dependents (rm_blocks (an_stales ans)) (an_hash ans)).

(** Visited, or still queued. *)
Definition covered (st : CascadeState) (k : Z + bytes) : Prop := visited st k ∨ k ∈ key <$> cs_queue st.

(** What every pass of the loop keeps, from the [seeds] the cascade started with. *)
Record cascade_inv (seeds : list (Z + bytes)) (st : CascadeState) : Prop := {
  ci_seeds : ∀ k, k ∈ seeds → covered st k;
  ci_answers : ∀ ans k, ans ∈ answers st → k ∈ named ans → covered st k;
  ci_only : ∀ k, covered st k → k ∈ seeds ∨ ∃ ans, ans ∈ answers st ∧ k ∈ named ans;
  ci_count : parents_reconciled (cs_stats st) = Z.of_nat (size (visited_events st)) + Z.of_nat (size (visited_blocks st));
}.

Lemma was_visited_true st work : was_visited st work = true ↔ visited st (key work).
Proof. destruct work; simpl; apply bool_decide_eq_true. Qed.

Lemma visited_visit st queue work k : visited (visit st queue work) k ↔ k = key work ∨ visited st k.
Proof. destruct work, k; simpl; set_solver. Qed.

Lemma inv_start queue : cascade_inv (key <$> queue) (cascade_start queue).
Proof. split; unfold covered; simpl; [by auto|set_solver|intros [|] [Hv|Hq]; set_solver|done]. Qed.

Lemma inv_skip seeds st work queue :
  cascade_inv seeds st → cs_queue st = work :: queue → visited st (key work) →
  cascade_inv seeds (with_queue st queue).
Proof.
  intros [Hs Ha Ho Hc] Hq Hv.
  assert (∀ k, covered (with_queue st queue) k ↔ covered st k) as Hk.
  { intros k. unfold covered. rewrite Hq, fmap_cons, elem_of_cons. change (visited (with_queue st queue) k) with (visited st k).
    split; [tauto|]. intros [?|[->|?]]; auto. }
  split.
  - intros k Hks. by apply Hk, Hs.
  - intros ans k Hans Hn. by apply Hk, (Ha ans).
  - intros k Hk'%Hk. by apply Ho.
  - exact Hc.
Qed.

Lemma inv_visit seeds st work queue :
  cascade_inv seeds st → cs_queue st = work :: queue → ¬ visited st (key work) →
  cascade_inv seeds (with_parent (visit st queue work)).
Proof.
  intros [Hs Ha Ho Hc] Hq Hv.
  assert (∀ k, covered (with_parent (visit st queue work)) k ↔ covered st k) as Hk.
  { intros k. unfold covered. rewrite Hq, fmap_cons, elem_of_cons.
    change (visited (with_parent (visit st queue work)) k) with (visited (visit st queue work) k).
    rewrite visited_visit. replace (cs_queue (with_parent (visit st queue work))) with queue by by destruct work.
    tauto. }
  assert (answers (with_parent (visit st queue work)) = answers st) as Hans by by destruct work.
  split.
  - intros k Hks. by apply Hk, Hs.
  - intros ans k Hin Hn. rewrite Hans in Hin. by apply Hk, (Ha ans).
  - intros k Hk'%Hk. rewrite Hans. by apply Ho.
  - destruct work; simpl in *; rewrite Hc, size_union, size_singleton by set_solver; lia.
Qed.

Lemma key_new_events st ids k :
  k ∈ key <$> new_events st ids ↔ k ∈ inl <$> ids ∧ ¬ visited st k.
Proof.
  unfold new_events. rewrite <-list_fmap_compose, !list_elem_of_fmap.
  setoid_rewrite list_elem_of_filter. naive_solver.
Qed.
Lemma key_new_blocks st hashes k :
  k ∈ key <$> new_blocks st hashes ↔ k ∈ inr <$> hashes ∧ ¬ visited st k.
Proof.
  unfold new_blocks. rewrite <-list_fmap_compose, !list_elem_of_fmap.
  setoid_rewrite list_elem_of_filter. naive_solver.
Qed.

Section loop.
Context `{BitcoinLib} {W : Type} `{CoreHeaderSource W} `{Clock W} `{ReadModelSession W}.
Context (lookup : bytes → option InvalidBlock) (resolve_pool : bytes → option bytes → option Z).
Context (classifier : ConfiguredParentClassifier) (nbits_table : option NbitsTable).

#[local] Abbreviation sM := (stM (W * ReadModel) anyhow).
#[local] Abbreviation loop := (cascade_loop lookup resolve_pool classifier nbits_table).

(** What one query adds. *)
Lemma enqueue_spec hash st (w : W * ReadModel) st' w' :
  enqueue_dependents hash st w = (Ok st', w') →
  ∃ ans items, st' = push st items ans ∧ an_hash ans = hash ∧
    ∀ k, k ∈ key <$> items ↔ k ∈ named ans ∧ ¬ visited st k.
Proof.
  unfold enqueue_dependents. intros He. st_inv. eexists _, _. split_and!; [done|done|].
  intros k. rewrite !fmap_app, !elem_of_app, key_new_events, !key_new_blocks.
  unfold named. rewrite !elem_of_app. simpl. tauto.
Qed.

Lemma inv_push seeds st items ans :
  cascade_inv seeds st → (∀ k, k ∈ key <$> items ↔ k ∈ named ans ∧ ¬ visited st k) →
  cascade_inv seeds (push st items ans).
Proof.
  intros [Hs Ha Ho Hc] Hitems.
  assert (∀ k, covered (push st items ans) k ↔ covered st k ∨ k ∈ named ans) as Hk.
  { intros k. unfold covered. simpl. rewrite fmap_app, elem_of_app, Hitems.
    change (visited (push st items ans) k) with (visited st k).
    destruct (decide (visited st k)); tauto. }
  split; simpl.
  - intros k Hks. apply Hk. left. by apply Hs.
  - intros a k [Hin| ->%list_elem_of_singleton]%elem_of_app Hn; apply Hk; [left; by apply (Ha a)|by right].
  - intros k [Hk'|Hk']%Hk.
    + destruct (Ho k Hk') as [?|(a & ? & ?)]; [by left|right]. exists a. rewrite elem_of_app. auto.
    + right. exists ans. rewrite elem_of_app, list_elem_of_singleton. auto.
  - done.
Qed.

Lemma enqueue_all_spec seeds hashes st (w : W * ReadModel) st' w' :
  enqueue_all hashes st w = (Ok st', w') →
  parents_reconciled (cs_stats st') = parents_reconciled (cs_stats st) ∧
  (cascade_inv seeds st → cascade_inv seeds st').
Proof.
  revert st w. induction hashes as [|h hashes IH]; intros st w He; simpl in He; st_inv; [done|].
  match goal with Hd : enqueue_dependents _ _ _ = _ |- _ => apply enqueue_spec in Hd as (ans & items & -> & _ & Hi) end.
  match goal with Hd : enqueue_all _ _ _ = _ |- _ => apply IH in Hd as [-> Hinv] end.
  split; [done|]. intros Hst. by apply Hinv, inv_push.
Qed.

Lemma loop_inv seeds fuel budget st (w : W * ReadModel) st' w' :
  loop fuel budget st w = (Ok (Some st'), w') →
  cascade_inv seeds st → cascade_inv seeds st' ∧ cs_queue st' = [] ∧
  ∀ b, budget = Some b → parents_reconciled (cs_stats st) ≤ b → parents_reconciled (cs_stats st') ≤ b.
Proof.
  revert st w. induction fuel as [|fuel IH]; intros st w Hl Hinv; simpl in Hl; [by st_inv|].
  destruct (cs_queue st) as [|work queue] eqn:Hq; [by st_inv|].
  destruct (match budget with Some _ => _ | None => _ end) eqn:Hb; [by st_inv|].
  destruct (was_visited st work) eqn:Hv.
  - apply IH in Hl; [done|]. eapply inv_skip; eauto. by apply was_visited_true.
  - st_inv. match goal with He : enqueue_all _ _ _ = _ |- _ => apply (enqueue_all_spec seeds) in He as [Hp Henq] end.
    match goal with Hd : loop _ _ _ _ = _ |- _ => apply IH in Hd as (Hi & Hq' & Hbud) end.
    + split_and!; [done|done|]. intros b -> Hle. apply Hbud; [done|]. rewrite Hp. apply Z.leb_gt in Hb.
      destruct work; simpl; lia.
    + apply Henq. eapply inv_visit; eauto. by rewrite <-was_visited_true, Hv.
Qed.

Lemma loop_terminates b (n : nat) : ∀ queue st (w : W * ReadModel),
  (Z.to_nat (b - parents_reconciled (cs_stats st)) ≤ n)%nat → cs_queue st = queue →
  ∃ fuel, (loop fuel (Some b) st w).1 ≠ Ok None.
Proof.
  induction n as [|n IHn]; induction queue as [|work queue IHq]; intros st w Hn Hq;
    try (exists 1%nat; simpl; by rewrite Hq).
  - exists 1%nat. simpl. rewrite Hq. replace (_ <=? _) with true by (symmetry; apply Z.leb_le; lia). done.
  - destruct (Z.leb_spec b (parents_reconciled (cs_stats st))) as [Hle|Hlt].
    { exists 1%nat. simpl. rewrite Hq, (proj2 (Z.leb_le _ _) Hle). done. }
    destruct (was_visited st work) eqn:Hv.
    { destruct (IHq (with_queue st queue) w) as [fuel Hf]; [done|done|]. exists (S fuel). simpl.
      by rewrite Hq, Hv, (proj2 (Z.leb_gt _ _) Hlt). }
    destruct (reconcile_work lookup resolve_pool classifier nbits_table work w) as [[changed|e] w1] eqn:Hr.
    2: { exists 1%nat. simpl. unfold mbind, stM_bind. by rewrite Hq, Hv, (proj2 (Z.leb_gt _ _) Hlt), Hr. }
    destruct (enqueue_all changed (with_parent (visit st queue work)) w1) as [[st1|e] w2] eqn:He.
    2: { exists 1%nat. simpl. unfold mbind, stM_bind. by rewrite Hq, Hv, (proj2 (Z.leb_gt _ _) Hlt), Hr, He. }
    destruct (IHn (cs_queue st1) st1 w2) as [fuel Hf]; [|done|].
    { apply (enqueue_all_spec []) in He as [-> _]. destruct work; simpl; lia. }
    exists (S fuel). simpl. unfold mbind, stM_bind. by rewrite Hq, Hv, (proj2 (Z.leb_gt _ _) Hlt), Hr, He.
Qed.

(** A cascade ends: whatever its seeds, the tables and Core answer, and whatever other
    sessions commit, the drain under a budget returns or fails after finitely many passes. *)
Theorem cascade_terminates queue b (w : W * ReadModel) :
  ∃ fuel, (drain_reconcile_queue lookup resolve_pool classifier nbits_table fuel queue (Some b) w).1 ≠ Ok None.
Proof.
  destruct (loop_terminates b _ queue (cascade_start queue) w (le_n _) eq_refl) as [fuel Hf]. exists fuel.
  unfold drain_reconcile_queue, mbind, stM_bind. destruct (loop _ _ _ _) as [[[st|]|e] w']; simpl in *; done.
Qed.

(** A cascade that ends covers everything: each seed and each dependent that a query named
    for a changed parent was reconciled, nothing else was, each event and each block once, and
    the reported number of reconciles is that of the visited items and within the budget. *)
Theorem cascade_covers fuel queue budget (w : W * ReadModel) st w' :
  loop fuel budget (cascade_start queue) w = (Ok (Some st), w') →
  (∀ k, visited st k ↔ k ∈ key <$> queue ∨ ∃ ans, ans ∈ answers st ∧ k ∈ named ans) ∧
  parents_reconciled (cs_stats st) = Z.of_nat (size (visited_events st)) + Z.of_nat (size (visited_blocks st)) ∧
  ∀ b, budget = Some b → 0 ≤ b → parents_reconciled (cs_stats st) ≤ b.
Proof.
  intros Hl. apply (loop_inv (key <$> queue)) in Hl as ([Hs Ha Ho Hc] & Hq & Hb); [|apply inv_start].
  assert (∀ k, covered st k ↔ visited st k) as Hk by (intros k; unfold covered; rewrite Hq; set_solver).
  split_and!; [|done|done]. intros k. rewrite <-Hk. split; [apply Ho|].
  intros [?|(ans & ? & ?)]; [by apply Hs|by eapply Ha].
Qed.
End loop.

(** ** What happens to the tables *)

Definition model_ok (db : ReadModel) : Prop := blocks_ok (rm_blocks db) ∧ events_ok (rm_events db).

(** Every parent whose cascade state differs is in [hashes]. *)
Definition reported (hashes : list bytes) (db db' : ReadModel) : Prop :=
  ∀ h, load_block_cascade_state (rm_blocks db) h ≠ load_block_cascade_state (rm_blocks db') h → h ∈ hashes.

Section reports.
Context `{BitcoinLib} {W : Type} `{CoreHeaderSource W} `{Clock W}.
Context (lookup : bytes → option InvalidBlock) (resolve_pool : bytes → option bytes → option Z).
Context (classifier : ConfiguredParentClassifier) (nbits_table : option NbitsTable).

Lemma in_txn_reported before after event_id pre (w : W) changed db' w' :
  model_ok after →
  reconcile_one_event_in_txn lookup resolve_pool before after event_id classifier pre None nbits_table w
    = (Ok (changed, db'), w') →
  model_ok db' ∧ reported changed after db'.
Proof.
  intros [Hb He] Hr.
  apply reconcile_inv in Hr as [(-> & -> & _)|(ie & ih & ic & w1 & ev & h & c & _ & _ & _ & _ & _ & _ & Hl)].
  { split; [by split|]. by intros h. }
  apply reconcile_locked_spec in Hl as (Hb' & He' & _ & _ & Hd); [|done]. split; [|done]. split; auto.
Qed.

Lemma rebuild_reported db hash db' :
  model_ok db → rebuild_parent_read_model lookup resolve_pool db hash None nbits_table = Ok db' →
  model_ok db' ∧ reported [hash] db db'.
Proof.
  intros [Hb He] Hr. apply rebuild_spec in Hr as (Hb' & Ho & (Hev & _) & _); [|done].
  split; [split; [done|by rewrite Hev]|]. intros h Hd. apply list_elem_of_singleton.
  destruct (decide (h = hash)); [done|]. exfalso. apply Hd. unfold load_block_cascade_state.
  by rewrite (Ho h) by set_solver.
Qed.
End reports.

Section moves.
Context `{BitcoinLib} {W : Type} `{CoreHeaderSource W} `{Clock W} `{ReadModelSession W}.
Context (lookup : bytes → option InvalidBlock) (resolve_pool : bytes → option bytes → option Z).
Context (classifier : ConfiguredParentClassifier) (nbits_table : option NbitsTable).
(** What other sessions commit between two statements: tables that satisfy their constraints. *)
Context (others : ReadModel → ReadModel → Prop).
Context (others_ok : ∀ db db', others db db' → model_ok db → model_ok db').
Context (session_others : ∀ w : W * ReadModel, rtc others w.2 (session w).2.2).

#[local] Abbreviation sM := (stM (W * ReadModel) anyhow).

Lemma rtc_others_ok db db' : rtc others db db' → model_ok db → model_ok db'.
Proof. induction 1; eauto. Qed.
Lemma session_rtc (w w' : W * ReadModel) r : session w = (r, w') → rtc others w.2 w'.2.
Proof. intros Hs. pose proof (session_others w) as Ho. by rewrite Hs in Ho. Qed.

Lemma on_env_tables {A} (m : stM W anyhow A) (w : W * ReadModel) r w' : on_env m w = (r, w') → w'.2 = w.2.
Proof. unfold on_env. destruct (m w.1). by intros [= _ <-]. Qed.

(** A transaction: others commit before its locks, then it commits what it reports. *)
Definition committed (changed : list bytes) (db db' : ReadModel) : Prop :=
  ∃ locked, rtc others db locked ∧ (model_ok locked → model_ok db' ∧ reported changed locked db').

Lemma committed_after changed db db1 db' : rtc others db db1 → committed changed db1 db' → committed changed db db'.
Proof. intros Ho (l & Hl & Hc). exists l. split; [by etrans|done]. Qed.

(** The end of a transaction that computed [db] from the tables it locked. *)
Lemma commit_committed (settle : list bytes → sM unit) changed (w : W * ReadModel) db r w' :
  (∀ w r w', settle changed w = (r, w') → w'.2 = w.2) →
  (model_ok w.2 → model_ok db ∧ reported changed w.2 db) →
  (_ ← settle changed; _ ← commit_tables db; mret changed) w = (Ok r, w') → r = changed ∧ committed changed w.2 w'.2.
Proof.
  intros Hset Hdb Hc. unfold commit_tables in Hc. st_inv. split; [done|]. simpl. exists w.2. by split.
Qed.

Lemma reconcile_attempts_committed n event_id pre strict settle :
  (∀ changed w r w', settle changed w = (r, w') → w'.2 = w.2) → ∀ (w : W * ReadModel) changed w',
  reconcile_attempts lookup resolve_pool classifier nbits_table n event_id pre strict settle w = (Ok changed, w') →
  committed changed w.2 w'.2.
Proof.
  intros Hset. induction n as [|n IH]; intros w changed w' Hr; simpl in Hr; [by st_inv|].
  unfold tables in Hr. st_inv.
  match goal with Hp : (if negb _ then _ else _) ?a = (Ok _, ?b) |- _ => assert (b.2 = a.2) as Hpre end.
  { destruct (negb (is_enabled classifier)); st_inv; [done|]. by eapply on_env_tables. }
  match goal with He : on_env _ ?a = (_, ?b) |- _ => pose proof (on_env_tables _ _ _ _ He) as Hrec end.
  repeat match goal with Hs : session ?a = _ |- _ => apply session_rtc in Hs end.
  eapply committed_after; [eassumption|]. rewrite <-Hpre. eapply committed_after; [eassumption|].
  eapply committed_after; [eassumption|]. rewrite <-Hrec.
  match goal with He : on_env _ _ = (?r, _) |- _ => rename He into Htxn; destruct r as [[ch db]|e] end.
  - eapply (commit_committed settle) in H11 as [-> ?]; [done|by eauto|]. rewrite Hrec. intros Hok. unfold on_env in Htxn.
    destruct (reconcile_one_event_in_txn _ _ _ _ _ _ _ _ _ _) as [r e] eqn:Ht. simplify_eq. by eapply in_txn_reported.
  - destruct (_ && _); st_inv.
    match goal with Hs : session ?a = _ |- _ => apply session_rtc in Hs; eapply committed_after; [exact Hs|] end.
    by eapply IH.
Qed.

Lemma no_settle_tables changed (w : W * ReadModel) r w' : no_settle changed w = (r, w') → w'.2 = w.2.
Proof. unfold no_settle. by intros [= _ <-]. Qed.

Lemma work_committed work (w : W * ReadModel) changed w' :
  reconcile_work lookup resolve_pool classifier nbits_table work w = (Ok changed, w') → committed changed w.2 w'.2.
Proof.
  destruct work as [i pre|i|hash]; [apply reconcile_attempts_committed, no_settle_tables..|].
  intros Hr. simpl in Hr. unfold reconcile_one_block, reconcile_one_block_with_policy, tables in Hr. st_inv.
  match goal with Hs : session ?a = _ |- _ => apply session_rtc in Hs; eapply committed_after; [exact Hs|] end.
  destruct (find_anchor_event_for_block _ _) as [i|].
  - eapply reconcile_attempts_committed; [apply no_settle_tables|eassumption].
  - apply st_bind_Ok in H5 as ([] & w1 & Hs%st_on_err_Ok & H5).
    eapply committed_after; [by eapply session_rtc|]. apply st_bind_Ok in H5 as (after & w2 & [-> ->]%st_gets_Ok & H5).
    apply st_bind_Ok in H5 as (db & w3 & [Hdb ->]%st_lift_Ok & H5).
    eapply (commit_committed no_settle) in H5 as [-> ?]; [done|by apply no_settle_tables|].
    intros Hok. destruct (rebuild_reported _ _ _ _ _ _ Hok Hdb) as [Hok' Hrep]. split; [done|].
    intros h Hd. specialize (Hrep h Hd). apply list_elem_of_singleton in Hrep as ->. case_bool_decide; [done|left].
Qed.

(** The queries read the tables after [db], with no commit but those of others in between. *)
Definition asked_after (db : ReadModel) (ans : Answer) : Prop :=
  rtc others db (an_events ans) ∧ rtc others (an_events ans) (an_children ans) ∧ rtc others (an_children ans) (an_stales ans).

Lemma enqueue_all_asked hashes st (w : W * ReadModel) st' w' :
  enqueue_all hashes st w = (Ok st', w') →
  rtc others w.2 w'.2 ∧ ∃ more, answers st' = answers st ++ more ∧ an_hash <$> more = hashes ∧ Forall (asked_after w.2) more.
Proof.
  revert st w. induction hashes as [|h hashes IH]; intros st w He; simpl in He.
  { st_inv. split; [done|]. exists []. by rewrite app_nil_r. }
  apply st_bind_Ok in He as (st1 & w1 & Hd & He). unfold enqueue_dependents, tables in Hd. st_inv.
  repeat match goal with Hs : session ?a = _ |- _ => apply session_rtc in Hs end.
  destruct (IH _ _ He) as (Ho & more & Ha & <- & Hall).
  split; [etrans; [eassumption|]; etrans; [eassumption|]; etrans; eassumption|].
  eexists (_ :: more). rewrite Ha. simpl. rewrite <-app_assoc. split_and!; [done|done|].
  constructor; [by split_and!|]. eapply Forall_impl; [exact Hall|]. intros ans (? & ? & ?). split_and!; [|done|done].
  etrans; [eassumption|]; etrans; [eassumption|]; etrans; eassumption.
Qed.

(** A commit of the cascade whose changes are all followed: for each parent it changed, the
    dependents that the tables name right after it are visited. *)
Definition propagated (st : CascadeState) (db db' : ReadModel) : Prop :=
  ∀ h, load_block_cascade_state (rm_blocks db) h ≠ load_block_cascade_state (rm_blocks db') h →
    ∃ ans, ans ∈ answers st ∧ an_hash ans = h ∧ asked_after db' ans ∧ ∀ k, k ∈ named ans → visited st k.
Definition cascade_step (st : CascadeState) (db db' : ReadModel) : Prop := others db db' ∨ propagated st db db'.

Lemma loop_moves fuel budget st (w : W * ReadModel) st' w' :
  model_ok w.2 → cascade_loop lookup resolve_pool classifier nbits_table fuel budget st w = (Ok (Some st'), w') →
  (∀ ans k, ans ∈ answers st' → k ∈ named ans → visited st' k) →
  model_ok w'.2 ∧ rtc (cascade_step st') w.2 w'.2 ∧ answers st `prefix_of` answers st'.
Proof.
  revert st w. induction fuel as [|fuel IH]; intros st w Hok Hl Hvis; simpl in Hl; [by st_inv|].
  destruct (cs_queue st) as [|work queue] eqn:Hq; [by st_inv; split_and!|].
  destruct (match budget with Some _ => _ | None => _ end); [by st_inv|].
  destruct (was_visited st work); [by apply IH in Hl|].
  apply st_bind_Ok in Hl as (changed & w1 & Hw & Hl). apply st_bind_Ok in Hl as (st1 & w2 & He & Hl).
  destruct (work_committed _ _ _ _ Hw) as (locked & Ho & Hc).
  destruct (Hc (rtc_others_ok _ _ Ho Hok)) as [Hok1 Hrep].
  destruct (enqueue_all_asked _ _ _ _ _ He) as (Ho2 & more & Ha & Hmore & Hall).
  destruct (IH _ _ (rtc_others_ok _ _ Ho2 Hok1) Hl Hvis) as (Hok' & Hsteps & Hpre).
  assert (∀ d d', rtc others d d' → rtc (cascade_step st') d d') as Hoth by (intros d d'; apply rtc_subrel; by left).
  assert (∀ ans, ans ∈ more → ans ∈ answers st') as Hin.
  { intros ans Hans. destruct Hpre as [rest ->]. rewrite Ha, !elem_of_app. auto. }
  split_and!; [done| |].
  - etrans; [by apply Hoth|]. eapply rtc_l; [|etrans; [by apply Hoth|exact Hsteps]]. right. intros h Hh.
    specialize (Hrep h Hh). rewrite <-Hmore in Hrep. apply list_elem_of_fmap in Hrep as (ans & -> & Hans).
    exists ans. rewrite Forall_forall in Hall. split_and!; [by apply Hin|done|by apply Hall|eauto].
  - etrans; [|exact Hpre]. rewrite Ha. replace (answers (with_parent (visit st queue work))) with (answers st) by by destruct work.
    by apply prefix_app_r.
Qed.

End moves.

Module CascadeSample.
Import Toy Sample BlocksSample ReconcileSample.

(** Two events: the second attests a block on top of the parent of the first. *)
Definition child : Header :=
  {| hdr_version := 1; prev_blockhash := block_hash header; merkle_root := merkle_root header;
     hdr_time := 2000; hdr_bits := hdr_bits header; hdr_nonce := 0 |}.
Definition ev2 : EventRow :=
  {| e_id := 2; e_source_id := 1; e_child_height := Some 4; e_hash := block_hash child;
     e_prev_hash := block_hash header; e_header_bytes := serialize_header child;
     e_header_time := 2000; e_height := None; e_kind := PkUnknown; e_pow := true;
     e_difficulty_ok := None; e_script := None; e_outputs := None; e_tx_bytes := None;
     e_discovered_at := 10; e_confirmed_at := 20; e_revoked_at := None;
     e_revocation_reason := None; e_relevance_reason := None |}.
Definition model : ReadModel :=
  mkReadModel {[ 1 := ev; 2 := ev2 ]} ∅ ∅ {[ 1 := mkSource "namecoin" "auxpow" ]} ∅ (Err (Other "empty")).
#[local] Instance alone : ReadModelSession unit := { session := mret (); commit := mret () }.
Definition seeds : list ReconcileWork := [WorkEvent 1 (Some (trusted verdict))].
Definition cascade : result anyhow (option CascadeState) * (unit * ReadModel) :=
  cascade_loop (λ _, None) (λ _ _, None) Disabled None 10 (Some 100) (cascade_start seeds) (tt, model).
Definition final : CascadeState := match cascade.1 with Ok (Some st) => st | _ => cascade_start [] end.

Lemma cascade_Ok : cascade = (Ok (Some final), cascade.2).
Proof. vm_compute. reflexivity. Qed.

(** The second event was not a seed. *)
Lemma cascade_covers_witness :
  visited final (inl 2) ∧ (key <$> seeds) = [inl 1] ∧ parents_reconciled (cs_stats final) = 3.
Proof.
  destruct (cascade_covers (λ _, None) (λ _ _, None) Disabled None 10 seeds (Some 100) (tt, model) final cascade.2
    cascade_Ok) as (Hv & Hn & _).
  split; [|split; [reflexivity|rewrite Hn; vm_compute; reflexivity]].
  apply Hv. right. exists (default (mkAnswer [] model model model) (answers final !! 0%nat)).
  split; [|vm_compute; right; left].
  apply list_elem_of_lookup. exists 0%nat. vm_compute. reflexivity.
Defined.

Lemma model_wf : model_ok model.
Proof.
  split; [exact empty_ok|]. intros i e Hl. simpl in Hl.
  apply lookup_insert_Some in Hl as [[<- <-]|[_ Hl]]; [split; reflexivity|].
  apply lookup_singleton_Some in Hl as [<- <-]. split; reflexivity.
Qed.

End CascadeSample.
