(* ===== verification/Payload.v ===== *)
(** * Captured events

    Models [crates/mmm-capture/src/capture]: the payload of a captured child block, how
    the offline proof of work and an external proof decide the kind of its parent, and
    the child block observation each kind of capture describes. The pool attributions a
    capture resolves are part of the payload; how they are resolved is not modelled.
    The serialisation of the outputs of a coinbase and the catalogue of invalid blocks
    are parameters. *)

From S2P Require Import Prelude BitcoinLib Effects Errors Reader Auxpow Nbits Lineage Classifier LiveLoop Poller Blocks SyncState CoreQueue Events Reconcile.

Inductive PoolAttributionSide := SideBtcParent | SideChildBlock.
#[global] Instance PoolAttributionSide_eq_dec : EqDecision PoolAttributionSide.
Proof. solve_decision. Defined.
#[global] Instance PoolAttributionSide_countable : Countable PoolAttributionSide.
Proof.
  refine (inj_countable' (λ s, match s with SideBtcParent => true | SideChildBlock => false end)
            (λ b, if b : bool then SideBtcParent else SideChildBlock) _). by intros [].
Defined.

Inductive PoolAttributionConfidence := ConfHigh | ConfMedium | ConfLow.
#[global] Instance PoolAttributionConfidence_eq_dec : EqDecision PoolAttributionConfidence.
Proof. solve_decision. Defined.

Record EventPoolAttribution := mkAttribution {
  at_side : PoolAttributionSide;
  at_namespace : string;
  at_match_kind : string;
  at_matched_value : string;
  at_pool_id : option Z;
  at_pool_identity_id : option Z;
  at_source : string;
  at_confidence : PoolAttributionConfidence;
  at_details : Value;
}.

Record HistoricalEventProvenance := mkProvenance {
  hp_publication_ref : string;
  hp_chain : string;
  hp_source_kind : string;
  hp_source_path : string;
  hp_source_row_number : Z;
  hp_artifact_scope : string;
  hp_provenance : string;
  hp_classification : string;
  hp_btc_height : option Z;
  hp_validation_status : option string;
  hp_btc_stale_relevance : option string;
  hp_relevance_reason : option string;
}.
#[global] Instance HistoricalEventProvenance_eq_dec : EqDecision HistoricalEventProvenance.
Proof. solve_decision. Defined.

Record MergeMiningEventPayload := mkPayload {
  p_child_height : option Z;
  p_child_block_hash : option bytes;
  p_child_header_bytes : option bytes;
  p_child_block_time : option Z;
  p_child_nbits : option Z;
  p_child_prev_block_hash : option bytes;
  p_hash : bytes;
  p_prev_hash : bytes;
  p_header_bytes : bytes;
  p_header_time : Z;
  p_height : option Z;
  p_kind : ParentKind;
  p_pow : bool;
  p_pow_child : option bool;
  p_difficulty_ok : option bool;
  p_provisional : bool;
  p_txid : option bytes;
  p_script : option bytes;
  p_outputs : option bytes;
  p_outputs_text : option string;
  p_tx_bytes : option bytes;
  p_child_txid : option bytes;
  p_child_script : option bytes;
  p_child_outputs : option bytes;
  p_proof : option bytes;
  p_attributions : list EventPoolAttribution;
  p_discovered_at : Z;
  p_confirmed_at : Z;
  p_revoked_at : option Z;
  p_revocation_reason : option string;
  p_provenance : option HistoricalEventProvenance;
}.

Record NormalizedEventEvidence := mkEvidence {
  v_child_height : option Z;
  v_child_block_hash : option bytes;
  v_child_header_bytes : option bytes;
  v_child_block_time : option Z;
  v_child_nbits : option Z;
  v_child_prev_block_hash : option bytes;
  v_parent_header : Header;
  v_pow_child : option bool;
  v_txid : option bytes;
  v_script : option bytes;
  v_outputs : option bytes;
  v_outputs_text : option string;
  v_tx_bytes : option bytes;
  v_child_txid : option bytes;
  v_child_script : option bytes;
  v_child_outputs : option bytes;
  v_proof : option bytes;
}.

(** ** The kind of the parent *)

Definition classify_parent (pow : bool) (proven_kind : option ParentKind) (proven_height : option Z)
    : result anyhow ParentKind :=
  if negb pow then Ok PkNear else
  match proven_kind with
  | Some PkNear => Err (Other "near parent proof conflicts with BTC target validation")
  | Some (PkCanonical | PkStale | PkInvalidBlock) as k =>
      if negb (is_some proven_height)
      then Err (Other "canonical/stale/invalid-block parent proof requires btc_parent_height")
      else Ok (default PkUnknown k)
  | Some k => Ok k
  | None => Ok PkUnknown
  end.

Section payload.
Context `{BitcoinLib} (invalid_blocks_lookup : bytes → option InvalidBlock).
Context (serialize_txouts : list TxOut → bytes).

Definition invalid_block_proof (parent_hash : bytes) (pow : bool) (proof : ClassificationProof)
    : option ParentKind * option Z :=
  match (if pow then invalid_blocks_lookup parent_hash else None) with
  | Some b => (Some PkInvalidBlock, Some (ib_height b))
  | None =>
      (cp_parent_kind proof,
       match cp_parent_kind proof with
       | Some (PkCanonical | PkStale | PkInvalidBlock) => cp_parent_height proof
       | Some (PkNear | PkUnknown) | None => None
       end)
  end.

Definition build_event_payload_from_evidence (ev : NormalizedEventEvidence)
    (attributions : list EventPoolAttribution) (proof : ClassificationProof) (observed_at : Z)
    : result anyhow MergeMiningEventPayload :=
  let parent_hash := block_hash (v_parent_header ev) in
  let pow := validates_target parent_hash (hdr_bits (v_parent_header ev)) in
  let '(proven_kind, height) := invalid_block_proof parent_hash pow proof in
  kind ← classify_parent pow proven_kind height;
  mret {| p_child_height := v_child_height ev; p_child_block_hash := v_child_block_hash ev;
          p_child_header_bytes := v_child_header_bytes ev; p_child_block_time := v_child_block_time ev;
          p_child_nbits := v_child_nbits ev; p_child_prev_block_hash := v_child_prev_block_hash ev;
          p_hash := parent_hash; p_prev_hash := prev_blockhash (v_parent_header ev);
          p_header_bytes := serialize_header (v_parent_header ev);
          p_header_time := hdr_time (v_parent_header ev);
          p_height := height; p_kind := kind; p_pow := pow; p_pow_child := v_pow_child ev;
          p_difficulty_ok := cp_difficulty_epoch_ok proof; p_provisional := false;
          p_txid := v_txid ev; p_script := v_script ev; p_outputs := v_outputs ev;
          p_outputs_text := v_outputs_text ev; p_tx_bytes := v_tx_bytes ev;
          p_child_txid := v_child_txid ev; p_child_script := v_child_script ev;
          p_child_outputs := v_child_outputs ev; p_proof := v_proof ev;
          p_attributions := attributions; p_discovered_at := observed_at; p_confirmed_at := observed_at;
          p_revoked_at := None; p_revocation_reason := None; p_provenance := None |}.

Definition set_parent (p : MergeMiningEventPayload) (kind : ParentKind) (height : option Z)
    (difficulty_ok : option bool) (provisional : bool) : MergeMiningEventPayload :=
  {| p_child_height := p_child_height p; p_child_block_hash := p_child_block_hash p;
     p_child_header_bytes := p_child_header_bytes p; p_child_block_time := p_child_block_time p;
     p_child_nbits := p_child_nbits p; p_child_prev_block_hash := p_child_prev_block_hash p;
     p_hash := p_hash p; p_prev_hash := p_prev_hash p; p_header_bytes := p_header_bytes p;
     p_header_time := p_header_time p; p_height := height; p_kind := kind; p_pow := p_pow p;
     p_pow_child := p_pow_child p; p_difficulty_ok := difficulty_ok; p_provisional := provisional;
     p_txid := p_txid p; p_script := p_script p; p_outputs := p_outputs p;
     p_outputs_text := p_outputs_text p; p_tx_bytes := p_tx_bytes p;
     p_child_txid := p_child_txid p; p_child_script := p_child_script p;
     p_child_outputs := p_child_outputs p; p_proof := p_proof p;
     p_attributions := p_attributions p; p_discovered_at := p_discovered_at p;
     p_confirmed_at := p_confirmed_at p; p_revoked_at := p_revoked_at p;
     p_revocation_reason := p_revocation_reason p; p_provenance := p_provenance p |}.

Definition apply_classification_proof (p : MergeMiningEventPayload) (proof : ClassificationProof)
    : result anyhow MergeMiningEventPayload :=
  let '(proven_kind, height) := invalid_block_proof (p_hash p) (p_pow p) proof in
  kind ← classify_parent (p_pow p) proven_kind height;
  mret (set_parent p kind height (cp_difficulty_epoch_ok proof) (cp_provisional proof)).

Definition namecoin_evidence (parsed : ParsedAuxpowBlock) (child_height_hint : option Z)
    : result anyhow NormalizedEventEvidence :=
  child_height ← ok_or (Other "AuxPoW child height is unavailable")
                   (match child_height_hint with Some h => Some h | None => child_height parsed end);
  let child := ph_header (child_header parsed) in
  mret {| v_child_height := Some child_height;
          v_child_block_hash := Some (block_hash child);
          v_child_header_bytes := Some (serialize_header child);
          v_child_block_time := Some (hdr_time child);
          v_child_nbits := Some (hdr_bits child);
          v_child_prev_block_hash := None;
          v_parent_header := ph_header (parent_header parsed);
          v_pow_child := Some (validates_target (block_hash (ph_header (parent_header parsed))) (hdr_bits child));
          v_txid := Some (parent_coinbase_txid parsed);
          v_script := Some (parent_coinbase_script parsed);
          v_outputs := Some (serialize_txouts (parent_coinbase_outputs parsed));
          v_outputs_text := None; v_tx_bytes := None;
          v_child_txid := child_coinbase_txid parsed;
          v_child_script := child_coinbase_script parsed;
          v_child_outputs := match child_coinbase_outputs parsed with
                             | [] => None
                             | outputs => Some (serialize_txouts outputs)
                             end;
          v_proof := Some (auxpow_bytes parsed) |}.

Definition build_event_payload (parsed : ParsedAuxpowBlock) (child_height_hint : option Z)
    (attributions : list EventPoolAttribution) (proof : ClassificationProof) (observed_at : Z)
    : result anyhow MergeMiningEventPayload :=
  ev ← namecoin_evidence parsed child_height_hint;
  build_event_payload_from_evidence ev attributions proof observed_at.
End payload.

(** ** Observations *)

Inductive ObservationKind := ObsEvidence | ObsNear | ObsNotMergeMined | ObsNonBitcoinParent | ObsUnverifiedParent.
#[global] Instance ObservationKind_eq_dec : EqDecision ObservationKind.
Proof. solve_decision. Defined.

Definition is_child_only (k : ObservationKind) : bool :=
  match k with ObsEvidence | ObsNear => false | _ => true end.

Record NearParentEvidence := mkNearParent {
  np_header_bytes : bytes;
  np_header_time : Z;
  np_txid : option bytes;
  np_script : option bytes;
  np_outputs : option bytes;
}.

(** A namespace and an identifier. *)
Definition ChildIdentity : Type := string * string.

Record ChildBlockObservation := mkObservation {
  ob_kind : ObservationKind;
  ob_child_height : option Z;
  ob_child_block_hash : option bytes;
  ob_child_block_time : option Z;
  ob_child_header_bytes : option bytes;
  ob_child_nbits : option Z;
  ob_child_prev_block_hash : option bytes;
  ob_child_txid : option bytes;
  ob_child_script : option bytes;
  ob_child_outputs : option bytes;
  ob_pow_child : option bool;
  ob_parent_hash : option bytes;
  ob_near_parent : option NearParentEvidence;
  ob_child_identities : list ChildIdentity;
  ob_child_pool_id : option Z;
  ob_child_pools_conflict : bool;
  ob_parent_pool_id : option Z;
  ob_recorded_at : Z;
}.

(** [starts_with("btc_")]. *)
Definition is_child_identity_namespace (namespace : string) : bool :=
  negb (String.prefix "btc_" namespace).

Definition side_rows (attributions : list EventPoolAttribution) (side : PoolAttributionSide) :=
  filter (λ a, at_side a = side) attributions.

(** A [BTreeSet] of pool ids. *)
Definition known_pools (attributions : list EventPoolAttribution) (side : PoolAttributionSide) : gset Z :=
  list_to_set (omap at_pool_id (side_rows attributions side)).

Definition unique_pool (attributions : list EventPoolAttribution) (side : PoolAttributionSide) : option Z :=
  match elements (known_pools attributions side) with [pool] => Some pool | _ => None end.

(** Sorted and without duplicates in the code; the store resolves them as a set. *)
Definition child_identities (attributions : list EventPoolAttribution) : list ChildIdentity :=
  remove_dups ((λ a, (at_namespace a, at_matched_value a)) <$>
    filter (λ a, is_child_identity_namespace (at_namespace a) = true) (side_rows attributions SideChildBlock)).

(** [hashPrevBlock], bytes 4 to 36. *)
Definition header_prev_block_hash (header : bytes) : option bytes :=
  if (length header =? 80)%nat then Some (slice 4 36 header) else None.

Definition child_side (k : ObservationKind) (p : MergeMiningEventPayload) : ChildBlockObservation :=
  {| ob_kind := k; ob_child_height := p_child_height p; ob_child_block_hash := p_child_block_hash p;
     ob_child_block_time := p_child_block_time p; ob_child_header_bytes := p_child_header_bytes p;
     ob_child_nbits := p_child_nbits p;
     ob_child_prev_block_hash := match p_child_prev_block_hash p with
                                 | Some h => Some h
                                 | None => p_child_header_bytes p ≫= header_prev_block_hash
                                 end;
     ob_child_txid := p_child_txid p; ob_child_script := p_child_script p;
     ob_child_outputs := p_child_outputs p; ob_pow_child := p_pow_child p;
     ob_parent_hash := None; ob_near_parent := None; ob_child_identities := [];
     ob_child_pool_id := None; ob_child_pools_conflict := false; ob_parent_pool_id := None;
     ob_recorded_at := p_discovered_at p |}.

Definition set_child_side_attribution (o : ChildBlockObservation) (attributions : list EventPoolAttribution)
    : ChildBlockObservation :=
  {| ob_kind := ob_kind o; ob_child_height := ob_child_height o; ob_child_block_hash := ob_child_block_hash o;
     ob_child_block_time := ob_child_block_time o; ob_child_header_bytes := ob_child_header_bytes o;
     ob_child_nbits := ob_child_nbits o; ob_child_prev_block_hash := ob_child_prev_block_hash o;
     ob_child_txid := ob_child_txid o; ob_child_script := ob_child_script o;
     ob_child_outputs := ob_child_outputs o; ob_pow_child := ob_pow_child o;
     ob_parent_hash := ob_parent_hash o; ob_near_parent := ob_near_parent o;
     ob_child_identities := child_identities attributions;
     ob_child_pool_id := unique_pool attributions SideChildBlock;
     ob_child_pools_conflict := bool_decide (1 < size (known_pools attributions SideChildBlock))%nat;
     ob_parent_pool_id := ob_parent_pool_id o; ob_recorded_at := ob_recorded_at o |}.

(** The parent of an observation, with the evidence and pool of a near parent. *)
Definition set_parent_side (o : ChildBlockObservation) (hash : bytes) (near : option NearParentEvidence)
    (pool : option Z) : ChildBlockObservation :=
  {| ob_kind := ob_kind o; ob_child_height := ob_child_height o; ob_child_block_hash := ob_child_block_hash o;
     ob_child_block_time := ob_child_block_time o; ob_child_header_bytes := ob_child_header_bytes o;
     ob_child_nbits := ob_child_nbits o; ob_child_prev_block_hash := ob_child_prev_block_hash o;
     ob_child_txid := ob_child_txid o; ob_child_script := ob_child_script o;
     ob_child_outputs := ob_child_outputs o; ob_pow_child := ob_pow_child o;
     ob_parent_hash := Some hash; ob_near_parent := near;
     ob_child_identities := ob_child_identities o; ob_child_pool_id := ob_child_pool_id o;
     ob_child_pools_conflict := ob_child_pools_conflict o; ob_parent_pool_id := pool;
     ob_recorded_at := ob_recorded_at o |}.

Definition from_event_payload (p : MergeMiningEventPayload) : ChildBlockObservation :=
  set_parent_side (child_side ObsEvidence p) (p_hash p) None None.

Definition near_observation (p : MergeMiningEventPayload) : ChildBlockObservation :=
  set_parent_side (set_child_side_attribution (child_side ObsNear p) (p_attributions p)) (p_hash p)
    (Some (mkNearParent (p_header_bytes p) (p_header_time p) (p_txid p) (p_script p) (p_outputs p)))
    (unique_pool (p_attributions p) SideBtcParent).

Definition non_bitcoin_parent (p : MergeMiningEventPayload) : ChildBlockObservation :=
  set_child_side_attribution (child_side ObsNonBitcoinParent p) (p_attributions p).

Definition child_only (k : ObservationKind) (child_height : Z) (child_block_hash : bytes)
    (child_block_time : option Z) (child_prev_block_hash : option bytes) (recorded_at : Z) : ChildBlockObservation :=
  {| ob_kind := k; ob_child_height := Some child_height; ob_child_block_hash := Some child_block_hash;
     ob_child_block_time := child_block_time; ob_child_header_bytes := None; ob_child_nbits := None;
     ob_child_prev_block_hash := child_prev_block_hash; ob_child_txid := None; ob_child_script := None;
     ob_child_outputs := None; ob_pow_child := None; ob_parent_hash := None; ob_near_parent := None;
     ob_child_identities := []; ob_child_pool_id := None; ob_child_pools_conflict := false;
     ob_parent_pool_id := None; ob_recorded_at := recorded_at |}.

Definition child_only_from_header `{BitcoinLib} (k : ObservationKind) (child_height : Z) (header : Header)
    (recorded_at : Z) : ChildBlockObservation :=
  let o := child_only k child_height (block_hash header) (Some (hdr_time header))
             (Some (prev_blockhash header)) recorded_at in
  {| ob_kind := ob_kind o; ob_child_height := ob_child_height o; ob_child_block_hash := ob_child_block_hash o;
     ob_child_block_time := ob_child_block_time o; ob_child_header_bytes := Some (serialize_header header);
     ob_child_nbits := Some (hdr_bits header); ob_child_prev_block_hash := ob_child_prev_block_hash o;
     ob_child_txid := None; ob_child_script := None; ob_child_outputs := None; ob_pow_child := None;
     ob_parent_hash := None; ob_near_parent := None; ob_child_identities := []; ob_child_pool_id := None;
     ob_child_pools_conflict := false; ob_parent_pool_id := None; ob_recorded_at := recorded_at |}.

(** ** The verdict of a payload *)

(** What the constraint on the kind of an event asks for, and that a near is not an event. *)
Definition payload_ok (p : MergeMiningEventPayload) : Prop :=
  (p_kind p = PkNear ↔ p_pow p = false) ∧
  (is_Some (p_height p) ↔ p_kind p ∈ [PkCanonical; PkStale; PkInvalidBlock]).

Section verdict.
Context (lookup : bytes → option InvalidBlock).

(** Everything but the verdict. *)
Definition same_evidence_payload (p p' : MergeMiningEventPayload) : Prop :=
  p' = set_parent p (p_kind p') (p_height p') (p_difficulty_ok p') (p_provisional p').

(** The kinds that place a parent at a height. *)
Definition places (k : option ParentKind) : bool :=
  match k with Some (PkCanonical | PkStale | PkInvalidBlock) => true | _ => false end.

(** A proof that no target-meeting parent can have: it calls it near, or places it at no height. *)
Definition bad_proof (proof : ClassificationProof) : Prop :=
  cp_parent_kind proof = Some PkNear ∨ places (cp_parent_kind proof) = true ∧ cp_parent_height proof = None.

(** C37. Applying a proof to a payload whose parent meets the target: a catalogued parent is
    invalid at its catalogued height, whatever the proof; for another the proof is refused
    exactly when it calls it near or places it at no height, and else the kind is the proof's
    (unknown without one) at the proof's height for the kinds that have one. A parent that
    misses the target is near whatever the proof says, and no proof is refused; a height the
    proof places it at is kept. Difficulty and the provisional mark are the proof's, and
    nothing else of the payload changes. *)
Theorem parent_verdict_exact p proof :
  match apply_classification_proof lookup p proof with
  | Err _ => p_pow p = true ∧ lookup (p_hash p) = None ∧ bad_proof proof
  | Ok p' =>
      ¬ (p_pow p = true ∧ lookup (p_hash p) = None ∧ bad_proof proof) ∧
      same_evidence_payload p p' ∧ (p_pow p = true → payload_ok p') ∧
      p_difficulty_ok p' = cp_difficulty_epoch_ok proof ∧ p_provisional p' = cp_provisional proof ∧
      match p_pow p, lookup (p_hash p) with
      | true, Some b => p_kind p' = PkInvalidBlock ∧ p_height p' = Some (ib_height b)
      | pow, _ =>
          p_kind p' = (if pow then default PkUnknown (cp_parent_kind proof) else PkNear) ∧
          p_height p' = if places (cp_parent_kind proof) then cp_parent_height proof else None
      end
  end.
Proof.
  unfold apply_classification_proof, invalid_block_proof, payload_ok, bad_proof, classify_parent.
  destruct (p_pow p) eqn:Hp; simpl.
  - destruct (lookup (p_hash p)) as [b|] eqn:Hl; simpl.
    + rewrite Hp. split_and!; try done; [naive_solver|set_solver].
    + destruct proof as [[[]|] [h|] d pr]; simpl; rewrite ?Hp; split_and!; try done; set_solver.
  - destruct proof as [[[]|] [h|] d pr]; simpl; split_and!; naive_solver.
Qed.
End verdict.

Module PayloadSample.
(** A block of the catalogue that Core calls stale. *)
Definition payload : MergeMiningEventPayload :=
  {| p_child_height := Some 7; p_child_block_hash := None; p_child_header_bytes := None;
     p_child_block_time := None; p_child_nbits := None; p_child_prev_block_hash := None;
     p_hash := [x01]; p_prev_hash := [x00]; p_header_bytes := []; p_header_time := 0;
     p_height := None; p_kind := PkUnknown; p_pow := true; p_pow_child := None;
     p_difficulty_ok := None; p_provisional := false; p_txid := None; p_script := None;
     p_outputs := None; p_outputs_text := None; p_tx_bytes := None; p_child_txid := None;
     p_child_script := None; p_child_outputs := None; p_proof := None; p_attributions := [];
     p_discovered_at := 5; p_confirmed_at := 5; p_revoked_at := None; p_revocation_reason := None;
     p_provenance := None |}.
Definition catalogue (hash : bytes) : option InvalidBlock :=
  if bool_decide (hash = [x01]) then Some (mkInvalidBlock 709632 "bad-txns") else None.

Lemma parent_verdict_exact_witness :
  p_kind <$> result_ok (apply_classification_proof catalogue payload
                          (mkClassificationProof (Some PkStale) (Some 1) None false)) = Some PkInvalidBlock ∧
  is_ok (apply_classification_proof (λ _, None) payload
           (mkClassificationProof (Some PkStale) None None false)) = false.
Proof.
  pose proof (parent_verdict_exact catalogue payload (mkClassificationProof (Some PkStale) (Some 1) None false)) as Ht.
  destruct (apply_classification_proof catalogue payload _) as [p'|e]; [|destruct Ht as (_ & Ht & _); discriminate Ht].
  destruct Ht as (_ & _ & _ & _ & _ & Hk & _). split; [|reflexivity]. exact (f_equal Some Hk).
Defined.
End PayloadSample.
