(* ===== verification/EventStore.v ===== *)
(** * The event store

    Models [crates/mmm-store/src/event.rs], [observation.rs] and [capture_write.rs]: the
    upsert of a merge-mining event under its strongest child identity, the child block
    observation behind it, and its pool attributions. A failed statement fails the
    transaction of the caller, so an operation maps the tables to the tables or an error.

    An event row is the row the read model sees ([Events.EventRow]) and the columns only
    the store uses. Ids come from counters. The chain role of an observation is a column
    no modelled statement writes; it is left out, as are the queue rows of the relationship
    summaries. The two columns of a displacement are one pair: a constraint has both or none. *)

From S2P Require Import Prelude BitcoinLib Effects Errors Reader Auxpow Nbits Lineage Classifier LiveLoop Poller Blocks SyncState CoreQueue Events Reconcile Payload.

Record EventExtra := mkExtra {
  x_child_hash : option bytes;
  x_txid : option bytes;
  x_outputs_text : option string;
  x_proof : option bytes;
  x_observation : Z;
}.

Record ObservationRow := mkObsRow {
  o_source : Z;
  o_child_height : option Z;
  o_child_hash : option bytes;
  o_kind : ObservationKind;
  o_child_time : option Z;
  o_child_header : option bytes;
  o_child_nbits : option Z;
  o_child_prev : option bytes;
  o_difficulty_reported : option Z;
  o_child_txid : option bytes;
  o_child_script : option bytes;
  o_child_outputs : option bytes;
  o_pow_child : option bool;
  o_parent : option bytes;
  o_parent_header : option bytes;
  o_parent_time : option Z;
  o_parent_txid : option bytes;
  o_parent_script : option bytes;
  o_parent_outputs : option bytes;
  o_identities : gset Z;
  o_child_pool : option Z;
  o_parent_pool : option Z;
  o_recorded_at : Z;
  o_displaced : option (Z * bytes);
}.

Record AttributionRow := mkAttrRow {
  ar_match_kind : string;
  ar_pool_id : option Z;
  ar_pool_identity_id : option Z;
  ar_source : string;
  ar_confidence : PoolAttributionConfidence;
  ar_details : Value;
  ar_first_seen_at : Z;
  ar_last_seen_at : Z;
}.

(** [(event_id, side, namespace, matched_value)]. *)
Definition attribution_key : Type := Z * PoolAttributionSide * string * string.

(** [(publication_ref, chain, source_path, source_row_number)]. *)
Definition provenance_key : Type := string * string * string * Z.

(** A row of [child_chain_head]. *)
Record HeadRow := mkHeadRow {
  ch_block_hash : bytes;
  ch_parent : option bytes;
  ch_outcome : string;
  ch_generation : Z;
  ch_evidence_marker : option Z;
  ch_observed_at : Z;
}.

Record StoreDb := mkStoreDb {
  sd_events : event_table;
  sd_extra : gmap Z EventExtra;
  sd_next_event : Z;
  sd_observations : gmap Z ObservationRow;
  sd_next_observation : Z;
  sd_identities : gmap (string * string) Z;
  sd_next_identity : Z;
  sd_attributions : gmap attribution_key AttributionRow;
  sd_provenance : gmap provenance_key (Z * HistoricalEventProvenance);
  sd_heads : gmap (Z * Z) HeadRow;
}.

Definition with_event (db : StoreDb) (i : Z) (e : EventRow) (x : EventExtra) : StoreDb :=
  mkStoreDb (<[i := e]> (sd_events db)) (<[i := x]> (sd_extra db)) (sd_next_event db) (sd_observations db)
    (sd_next_observation db) (sd_identities db) (sd_next_identity db) (sd_attributions db) (sd_provenance db) (sd_heads db).
Definition with_observations (db : StoreDb) (t : gmap Z ObservationRow) : StoreDb :=
  mkStoreDb (sd_events db) (sd_extra db) (sd_next_event db) t (sd_next_observation db)
    (sd_identities db) (sd_next_identity db) (sd_attributions db) (sd_provenance db) (sd_heads db).
Definition with_attributions (db : StoreDb) (t : gmap attribution_key AttributionRow) : StoreDb :=
  mkStoreDb (sd_events db) (sd_extra db) (sd_next_event db) (sd_observations db) (sd_next_observation db)
    (sd_identities db) (sd_next_identity db) t (sd_provenance db) (sd_heads db).

(** [(a IS NULL OR b IS NULL OR a = b)]. *)
Definition agrees {A} `{EqDecision A} (a b : option A) : bool :=
  match a, b with Some a, Some b => bool_decide (a = b) | _, _ => true end.

(** ** Identities *)

Definition insert_child_identity (db : StoreDb) (k : string * string) : StoreDb :=
  match sd_identities db !! k with
  | Some _ => db
  | None => mkStoreDb (sd_events db) (sd_extra db) (sd_next_event db) (sd_observations db) (sd_next_observation db)
              (<[k := sd_next_identity db]> (sd_identities db)) (sd_next_identity db + 1) (sd_attributions db) (sd_provenance db) (sd_heads db)
  end.
Definition insert_child_identities (db : StoreDb) (ks : list (string * string)) : StoreDb :=
  foldl insert_child_identity db ks.

Definition child_identity_ids (db : StoreDb) (o : ChildBlockObservation) : gset Z * StoreDb :=
  match ob_child_identities o with
  | [] => (∅, db)
  | ks => let db := insert_child_identities db ks in
          (list_to_set (omap (λ k, sd_identities db !! k) ks), db)
  end.

(** ** Observations *)

Inductive Exactness := Exact | Partial.

(** The row the arbiter of [identity_conflict_clause] finds: no unique index holds a null. *)
Definition same_identity (exactness : Exactness) (source : Z) (hash : option bytes) (height : option Z)
    (parent : option bytes) (r_source : Z) (r_hash : option bytes) (r_height : option Z) (r_parent : option bytes)
    : bool :=
  bool_decide (r_source = source) &&
  match exactness with
  | Exact => is_some hash && bool_decide (r_hash = hash)
  | Partial => negb (is_some r_hash) && is_some height && bool_decide (r_height = height)
               && is_some parent && bool_decide (r_parent = parent)
  end.

(** The first row, in the order of the ids, that satisfies a test. *)
Definition find_row {A} (p : Z → A → bool) (t : gmap Z A) : option (Z * A) :=
  head (filter (λ kr, p kr.1 kr.2 = true) (map_to_list t)).

(** [chk_cbo_child_identity_present], [chk_cbo_child_displaced_by_other_block] and
    [chk_cbo_parent_by_kind]. *)
Definition chk_observation (r : ObservationRow) : bool :=
  (is_some (o_child_hash r) || is_some (o_child_height r)) &&
  negb (is_some (o_displaced r) && bool_decide (snd <$> o_displaced r = o_child_hash r)) &&
  match o_kind r with
  | ObsEvidence =>
      is_some (o_parent r) && negb (is_some (o_parent_header r)) && negb (is_some (o_parent_time r))
      && negb (is_some (o_parent_txid r)) && negb (is_some (o_parent_script r))
      && negb (is_some (o_parent_outputs r)) && negb (is_some (o_parent_pool r))
  | ObsNear => is_some (o_parent r) && is_some (o_parent_header r) && is_some (o_parent_time r)
  | _ =>
      is_some (o_child_hash r) && negb (is_some (o_parent r)) && negb (is_some (o_parent_header r))
      && negb (is_some (o_parent_time r)) && negb (is_some (o_parent_txid r)) && negb (is_some (o_parent_script r))
      && negb (is_some (o_parent_outputs r)) && negb (is_some (o_parent_pool r))
  end.

Definition excluded_observation (source : Z) (o : ChildBlockObservation) (ids : gset Z) : ObservationRow :=
  let near := ob_near_parent o in
  {| o_source := source; o_child_height := ob_child_height o; o_child_hash := ob_child_block_hash o;
     o_kind := ob_kind o; o_child_time := ob_child_block_time o; o_child_header := ob_child_header_bytes o;
     o_child_nbits := ob_child_nbits o; o_child_prev := ob_child_prev_block_hash o;
     o_difficulty_reported := None; o_child_txid := ob_child_txid o; o_child_script := ob_child_script o;
     o_child_outputs := ob_child_outputs o; o_pow_child := ob_pow_child o; o_parent := ob_parent_hash o;
     o_parent_header := np_header_bytes <$> near; o_parent_time := np_header_time <$> near;
     o_parent_txid := near ≫= np_txid; o_parent_script := near ≫= np_script;
     o_parent_outputs := near ≫= np_outputs; o_identities := ids; o_child_pool := ob_child_pool_id o;
     o_parent_pool := ob_parent_pool_id o; o_recorded_at := ob_recorded_at o; o_displaced := None |}.

(** [CHECKED_CHILD_EVIDENCE]. *)
Definition child_evidence_agrees (o other : ObservationRow) : bool :=
  agrees (o_child_height o) (o_child_height other) && agrees (o_child_time o) (o_child_time other)
  && agrees (o_child_header o) (o_child_header other) && agrees (o_child_nbits o) (o_child_nbits other)
  && agrees (o_pow_child o) (o_pow_child other) && agrees (o_child_prev o) (o_child_prev other).

(** [fill_child_evidence_from], which merges the identities too. *)
Definition fill_child_evidence_from (o from : ObservationRow) : ObservationRow :=
  {| o_source := o_source o; o_child_height := coalesce (o_child_height o) (o_child_height from);
     o_child_hash := o_child_hash o; o_kind := o_kind o;
     o_child_time := coalesce (o_child_time o) (o_child_time from);
     o_child_header := coalesce (o_child_header o) (o_child_header from);
     o_child_nbits := coalesce (o_child_nbits o) (o_child_nbits from);
     o_child_prev := coalesce (o_child_prev o) (o_child_prev from);
     o_difficulty_reported := o_difficulty_reported o;
     o_child_txid := coalesce (o_child_txid o) (o_child_txid from);
     o_child_script := coalesce (o_child_script o) (o_child_script from);
     o_child_outputs := coalesce (o_child_outputs o) (o_child_outputs from);
     o_pow_child := coalesce (o_pow_child o) (o_pow_child from); o_parent := o_parent o;
     o_parent_header := o_parent_header o; o_parent_time := o_parent_time o;
     o_parent_txid := o_parent_txid o; o_parent_script := o_parent_script o;
     o_parent_outputs := o_parent_outputs o; o_identities := o_identities o ∪ o_identities from;
     o_child_pool := o_child_pool o; o_parent_pool := o_parent_pool o; o_recorded_at := o_recorded_at o;
     o_displaced := o_displaced o |}.

(** [near_parent_set]: a rewrite of the same near parent keeps its stored coinbase. *)
Definition same_near_parent (o excluded : ObservationRow) : bool :=
  bool_decide (o_kind excluded = ObsNear) && bool_decide (o_kind o = ObsNear)
  && bool_decide (o_parent o = o_parent excluded).

Definition observation_conflict_set (o excluded : ObservationRow) (pools_conflict : bool) : ObservationRow :=
  let filled := fill_child_evidence_from o excluded in
  let same := same_near_parent o excluded in
  {| o_source := o_source o; o_child_height := o_child_height filled; o_child_hash := o_child_hash o;
     o_kind := o_kind excluded; o_child_time := o_child_time filled; o_child_header := o_child_header filled;
     o_child_nbits := o_child_nbits filled; o_child_prev := o_child_prev filled;
     o_difficulty_reported := o_difficulty_reported o;
     o_child_txid := o_child_txid filled; o_child_script := o_child_script filled;
     o_child_outputs := o_child_outputs filled; o_pow_child := o_pow_child filled;
     o_parent := o_parent excluded; o_parent_header := o_parent_header excluded;
     o_parent_time := o_parent_time excluded;
     o_parent_txid := if same then coalesce (o_parent_txid o) (o_parent_txid excluded) else o_parent_txid excluded;
     o_parent_script := if same then coalesce (o_parent_script o) (o_parent_script excluded)
                        else o_parent_script excluded;
     o_parent_outputs := if same then coalesce (o_parent_outputs o) (o_parent_outputs excluded)
                         else o_parent_outputs excluded;
     o_identities := o_identities filled;
     o_child_pool := if pools_conflict then None else coalesce (o_child_pool excluded) (o_child_pool o);
     o_parent_pool := if same then coalesce (o_parent_pool excluded) (o_parent_pool o) else o_parent_pool excluded;
     o_recorded_at := o_recorded_at o;
     o_displaced := o_displaced o |}.

(** An unauthenticated child-only answer never overwrites a proven parent. *)
Definition kind_guard (k : ObservationKind) (o : ObservationRow) : bool :=
  match k with
  | ObsNotMergeMined | ObsUnverifiedParent => is_child_only (o_kind o)
  | _ => true
  end.

Definition observation_where (o excluded : ObservationRow) : bool :=
  agrees (o_parent o) (o_parent excluded) && child_evidence_agrees o excluded && kind_guard (o_kind excluded) o.

Definition store_observation (db : StoreDb) (i : Z) (r : ObservationRow) : result anyhow StoreDb :=
  _ ← ensure (chk_observation r) (Other "check constraint of child_block_observation");
  mret (with_observations db (<[i := r]> (sd_observations db))).

(** [None] when the conflict clause refuses the row. A check constraint holds of the row
    proposed for insertion even when it conflicts. *)
Definition write_observation (db : StoreDb) (source : Z) (o : ChildBlockObservation)
    : result anyhow (option Z * StoreDb) :=
  let '(ids, db) := child_identity_ids db o in
  let excluded := excluded_observation source o ids in
  let exactness := if is_some (ob_child_block_hash o) then Exact else Partial in
  _ ← ensure (chk_observation excluded) (Other "check constraint of child_block_observation");
  match find_row (λ _ r, same_identity exactness source (ob_child_block_hash o) (ob_child_height o) (ob_parent_hash o)
                           (o_source r) (o_child_hash r) (o_child_height r) (o_parent r)) (sd_observations db) with
  | None =>
      let i := sd_next_observation db in
      db ← store_observation db i excluded;
      mret (Some i, mkStoreDb (sd_events db) (sd_extra db) (sd_next_event db) (sd_observations db) (i + 1)
                      (sd_identities db) (sd_next_identity db) (sd_attributions db) (sd_provenance db) (sd_heads db))
  | Some (i, r) =>
      if observation_where r excluded then
        db ← store_observation db i (observation_conflict_set r excluded (ob_child_pools_conflict o));
        mret (Some i, db)
      else mret (None, db)
  end.

Definition write_event_observation (db : StoreDb) (source : Z) (o : ChildBlockObservation)
    : result anyhow (Z * StoreDb) :=
  '(written, db) ← write_observation db source o;
  i ← ok_or (Other "event observation contradicts the stored child evidence") written;
  mret (i, db).

Definition upsert_child_only_observation (db : StoreDb) (source : Z) (o : ChildBlockObservation)
    : result anyhow (option Z * StoreDb) :=
  _ ← ensure (is_child_only (ob_kind o)) (Other "an evidence or near observation is written through the capture path");
  _ ← ensure (is_some (ob_child_block_hash o)) (Other "a child-only observation requires the child block hash");
  '(written, db) ← write_observation db source o;
  _ ← ensure (is_some written || negb (bool_decide (ob_kind o = ObsNonBitcoinParent)))
        (Other "child-only observation conflicts with an event-backed or contradictory observation");
  mret (written, db).

(** ** Event rows *)

Inductive EventWriteDisposition := Inserted | Updated | Promoted | SatisfiedByExistingExact.

Record EventWriteOutcome := mkOutcome {
  ow_event_id : Z;
  ow_observation_id : Z;
  ow_disposition : EventWriteDisposition;
  ow_parent_read_model_changed : bool;
}.

Record ParentReadModelInput := mkParentInput {
  pi_child_height : option Z;
  pi_kind : ParentKind;
  pi_height : option Z;
  pi_difficulty_ok : option bool;
  pi_script : option bytes;
  pi_outputs : option bytes;
  pi_discovered_at : Z;
  pi_confirmed_at : Z;
  pi_revoked_at : option Z;
}.
#[global] Instance ParentReadModelInput_eq_dec : EqDecision ParentReadModelInput.
Proof. solve_decision. Defined.

(** [ParentReadModelInput::from_row]. *)
Definition parent_input (e : EventRow) : ParentReadModelInput :=
  mkParentInput (e_child_height e) (e_kind e) (e_height e) (e_difficulty_ok e) (e_script e) (e_outputs e)
    (e_discovered_at e) (e_confirmed_at e) (e_revoked_at e).

Definition classification_matches (i : ParentReadModelInput) (p : MergeMiningEventPayload) : bool :=
  bool_decide (pi_kind i = p_kind p) && bool_decide (pi_height i = p_height p)
  && (negb (is_some (p_difficulty_ok p)) || bool_decide (pi_difficulty_ok i = p_difficulty_ok p)).

(** The rows of the table with both parts. *)
Definition event_rows (db : StoreDb) : list (Z * (EventRow * EventExtra)) :=
  omap (λ '(i, e), (λ x, (i, (e, x))) <$> sd_extra db !! i) (map_to_list (sd_events db)).
Definition find_event (db : StoreDb) (p : EventRow → EventExtra → bool) : option (Z * (EventRow * EventExtra)) :=
  head (filter (λ r, p r.2.1 r.2.2 = true) (event_rows db)).

(** [merge_mining_event_child_identity_present], the unique and the foreign key of
    [observation_id]. *)
Definition chk_event_columns (e : EventRow) (x : EventExtra) : bool :=
  chk_event e && (is_some (x_child_hash x) || is_some (e_child_height e)).
Definition chk_event_row (db : StoreDb) (i : Z) (e : EventRow) (x : EventExtra) : bool :=
  chk_event_columns e x && is_some (sd_observations db !! x_observation x)
  && bool_decide (map_Forall (λ j y, j = i ∨ x_observation y ≠ x_observation x) (sd_extra db)).

Definition store_event (db : StoreDb) (i : Z) (e : EventRow) (x : EventExtra) : result anyhow StoreDb :=
  _ ← ensure (chk_event_row db i e x) (Other "constraint of merge_mining_event");
  mret (with_event db i e x).

Definition delete_observation (db : StoreDb) (i : Z) : result anyhow StoreDb :=
  _ ← ensure (bool_decide (map_Forall (λ _ y, x_observation y ≠ i) (sd_extra db)))
        (Other "merge_mining_event_observation_id_fkey");
  mret (with_observations db (delete i (sd_observations db))).

(** The coinbase evidence a conflicting write must agree on. *)
Definition coinbase_agrees (e : EventRow) (x : EventExtra) (p : MergeMiningEventPayload) : bool :=
  agrees (x_txid x) (p_txid p) && agrees (e_script e) (p_script p) && agrees (e_outputs e) (p_outputs p)
  && agrees (e_tx_bytes e) (p_tx_bytes p).

(** The columns every update of an event sets: evidence fills what is null, the text of
    the outputs follows the payload. *)
Definition fill_event (e : EventRow) (child_height : option Z) (confirmed_at : Z) (p : MergeMiningEventPayload)
    : EventRow :=
  {| e_id := e_id e; e_source_id := e_source_id e; e_child_height := child_height; e_hash := e_hash e;
     e_prev_hash := e_prev_hash e; e_header_bytes := e_header_bytes e; e_header_time := e_header_time e;
     e_height := e_height e; e_kind := e_kind e; e_pow := e_pow e; e_difficulty_ok := e_difficulty_ok e;
     e_script := coalesce (e_script e) (p_script p); e_outputs := coalesce (e_outputs e) (p_outputs p);
     e_tx_bytes := coalesce (e_tx_bytes e) (p_tx_bytes p); e_discovered_at := e_discovered_at e;
     e_confirmed_at := confirmed_at; e_revoked_at := e_revoked_at e;
     e_revocation_reason := e_revocation_reason e; e_relevance_reason := e_relevance_reason e |}.
Definition fill_extra (x : EventExtra) (hash : option bytes) (observation : Z) (p : MergeMiningEventPayload)
    : EventExtra :=
  {| x_child_hash := hash; x_txid := coalesce (x_txid x) (p_txid p);
     x_outputs_text := coalesce (p_outputs_text p) (x_outputs_text x);
     x_proof := coalesce (x_proof x) (p_proof p); x_observation := observation |}.

(** ** The event upsert *)

Definition exact_event (db : StoreDb) (source : Z) (child_hash : bytes) : option (Z * (EventRow * EventExtra)) :=
  find_event db (λ e x, bool_decide (e_source_id e = source) && bool_decide (x_child_hash x = Some child_hash)).

Definition exact_event_parent_input (db : StoreDb) (source : Z) (child_hash : bytes) : option ParentReadModelInput :=
  (λ r, parent_input r.2.1) <$> exact_event db source child_hash.

Definition describes (source child_height : Z) (p : MergeMiningEventPayload) (e : EventRow) : bool :=
  bool_decide (e_source_id e = source) && bool_decide (e_child_height e = Some child_height)
  && bool_decide (e_hash e = p_hash p).

Definition matching_partial_event_id (db : StoreDb) (source child_height : Z) (p : MergeMiningEventPayload)
    : option Z :=
  fst <$> find_event db (λ e x, describes source child_height p e && negb (is_some (x_child_hash x))).

(** In the order of the ids and at most two in the code; only how many there are counts. *)
Definition matching_exact_event_ids (db : StoreDb) (source child_height : Z) (p : MergeMiningEventPayload)
    : list Z :=
  fst <$> filter (λ r, describes source child_height p r.2.1 && is_some (x_child_hash r.2.2) = true) (event_rows db).

(** An update by id sees the row with both parts. *)
Definition event_row (db : StoreDb) (i : Z) : option (EventRow * EventExtra) :=
  e ← sd_events db !! i; x ← sd_extra db !! i; Some (e, x).

Definition promote_partial_event (db : StoreDb) (i : Z) (p : MergeMiningEventPayload) : result anyhow (Z * StoreDb) :=
  '(e, x) ← ok_or (Other "exact refinement contradicts the stored partial observation") (event_row db i);
  _ ← ensure (negb (is_some (x_child_hash x)) && bool_decide (e_header_bytes e = p_header_bytes p)
              && coinbase_agrees e x p)
        (Other "exact refinement contradicts the stored partial observation");
  db ← store_event db i (fill_event e (e_child_height e) (Z.max (e_confirmed_at e) (p_confirmed_at p)) p)
         (fill_extra x (p_child_block_hash p) (x_observation x) p);
  mret (i, db).

(** The answer's hash is read as non-null. *)
Definition fill_existing_event (db : StoreDb) (i : Z) (p : MergeMiningEventPayload)
    : result anyhow (option Z * bytes * StoreDb) :=
  '(e, x) ← ok_or (Other "partial child evidence contradicts existing exact observation") (event_row db i);
  _ ← ensure (bool_decide (e_hash e = p_hash p) && bool_decide (e_header_bytes e = p_header_bytes p)
              && coinbase_agrees e x p)
        (Other "partial child evidence contradicts existing exact observation");
  db ← store_event db i (fill_event e (e_child_height e) (Z.max (e_confirmed_at e) (p_confirmed_at p)) p)
         (fill_extra x (x_child_hash x) (x_observation x) p);
  hash ← ok_or (Other "child_block_hash is null") (x_child_hash x);
  mret (e_child_height e, hash, db).

Definition link_event_observation (db : StoreDb) (i observation : Z) : result anyhow StoreDb :=
  match event_row db i with
  | Some (e, x) =>
      if bool_decide (x_observation x = observation) then mret db
      else store_event db i e {| x_child_hash := x_child_hash x; x_txid := x_txid x;
                                 x_outputs_text := x_outputs_text x; x_proof := x_proof x;
                                 x_observation := observation |}
  | None => mret db
  end.

Definition with_child_hash (o : ObservationRow) (hash : option bytes) (height : option Z) : ObservationRow :=
  {| o_source := o_source o; o_child_height := height; o_child_hash := hash; o_kind := o_kind o;
     o_child_time := o_child_time o; o_child_header := o_child_header o; o_child_nbits := o_child_nbits o;
     o_child_prev := o_child_prev o; o_difficulty_reported := o_difficulty_reported o;
     o_child_txid := o_child_txid o; o_child_script := o_child_script o; o_child_outputs := o_child_outputs o;
     o_pow_child := o_pow_child o; o_parent := o_parent o; o_parent_header := o_parent_header o;
     o_parent_time := o_parent_time o; o_parent_txid := o_parent_txid o; o_parent_script := o_parent_script o;
     o_parent_outputs := o_parent_outputs o; o_identities := o_identities o; o_child_pool := o_child_pool o;
     o_parent_pool := o_parent_pool o; o_recorded_at := o_recorded_at o;
     o_displaced := o_displaced o |}.

(** What the fold adds to [fill_child_evidence_from]. *)
Definition fold_observation (o h : ObservationRow) : ObservationRow :=
  let f := fill_child_evidence_from o h in
  {| o_source := o_source f; o_child_height := o_child_height f; o_child_hash := o_child_hash f;
     o_kind := o_kind f; o_child_time := o_child_time f; o_child_header := o_child_header f;
     o_child_nbits := o_child_nbits f; o_child_prev := o_child_prev f;
     o_difficulty_reported := coalesce (o_difficulty_reported o) (o_difficulty_reported h);
     o_child_txid := o_child_txid f; o_child_script := o_child_script f; o_child_outputs := o_child_outputs f;
     o_pow_child := o_pow_child f; o_parent := o_parent f; o_parent_header := o_parent_header f;
     o_parent_time := o_parent_time f; o_parent_txid := o_parent_txid f; o_parent_script := o_parent_script f;
     o_parent_outputs := o_parent_outputs f; o_identities := o_identities f; o_child_pool := o_child_pool f;
     o_parent_pool := o_parent_pool f; o_recorded_at := Z.min (o_recorded_at o) (o_recorded_at h);
     o_displaced := o_displaced f |}.

Definition fold_hashless_observation (db : StoreDb) (i : Z) : result anyhow StoreDb :=
  '(e, x) ← ok_or (Other "look up the event's hashless and exact observations") (event_row db i);
  let hashless := opt_filter (λ r, negb (is_some (o_child_hash r))) (sd_observations db !! x_observation x) in
  let exact := find_row (λ _ r, bool_decide (o_source r = e_source_id e) && is_some (x_child_hash x)
                                && bool_decide (o_child_hash r = x_child_hash x)) (sd_observations db) in
  match hashless, exact with
  | Some h, None =>
      store_observation db (x_observation x)
        (with_child_hash h (x_child_hash x) (coalesce (o_child_height h) (e_child_height e)))
  | Some h, Some (j, o) =>
      _ ← ensure (child_evidence_agrees o h) (Other "the hashless observation contradicts the block's exact observation");
      db ← store_observation db j (fold_observation o h);
      db ← link_event_observation db i j;
      delete_observation db (x_observation x)
  | None, _ => mret db
  end.

(** The row a payload inserts. *)
Definition new_event (i source : Z) (p : MergeMiningEventPayload) : EventRow :=
  {| e_id := i; e_source_id := source; e_child_height := p_child_height p; e_hash := p_hash p;
     e_prev_hash := p_prev_hash p; e_header_bytes := p_header_bytes p; e_header_time := p_header_time p;
     e_height := p_height p; e_kind := p_kind p; e_pow := p_pow p; e_difficulty_ok := p_difficulty_ok p;
     e_script := p_script p; e_outputs := p_outputs p; e_tx_bytes := p_tx_bytes p;
     e_discovered_at := p_discovered_at p; e_confirmed_at := p_confirmed_at p; e_revoked_at := p_revoked_at p;
     e_revocation_reason := p_revocation_reason p; e_relevance_reason := None |}.
Definition new_extra (observation : Z) (p : MergeMiningEventPayload) : EventExtra :=
  mkExtra (p_child_block_hash p) (p_txid p) (p_outputs_text p) (p_proof p) observation.

Definition bump_event (db : StoreDb) : StoreDb :=
  mkStoreDb (sd_events db) (sd_extra db) (sd_next_event db + 1) (sd_observations db) (sd_next_observation db)
    (sd_identities db) (sd_next_identity db) (sd_attributions db) (sd_provenance db) (sd_heads db).

(** [WHERE] of the conflict clause. *)
Definition conflict_agrees (e : EventRow) (x : EventExtra) (p : MergeMiningEventPayload) : bool :=
  bool_decide (e_hash e = p_hash p) && bool_decide (e_header_bytes e = p_header_bytes p)
  && agrees (e_child_height e) (p_child_height p) && coinbase_agrees e x p.

Definition conflict_confirmed_at (e : EventRow) (p : MergeMiningEventPayload) : Z :=
  if is_some (p_provenance p) then e_confirmed_at e else Z.max (e_confirmed_at e) (p_confirmed_at p).

Definition event_write_outcome (i : Z) (inserted : bool) (e : EventRow) (previous : option ParentReadModelInput)
    (p : MergeMiningEventPayload) (observation : Z) : EventWriteOutcome :=
  let current := parent_input e in
  mkOutcome i observation (if inserted then Inserted else Updated)
    (inserted || negb (bool_decide (previous = Some current)) || negb (classification_matches current p)).

Definition insert_event (db : StoreDb) (source : Z) (p : MergeMiningEventPayload) (exactness : Exactness)
    (previous : option ParentReadModelInput) (o : ChildBlockObservation) : result anyhow (EventWriteOutcome * StoreDb) :=
  '(observation, db) ← write_event_observation db source o;
  let i := sd_next_event db in
  let new := new_event i source p in
  _ ← ensure (chk_event_columns new (new_extra observation p)) (Other "constraint of merge_mining_event");
  match find_event db (λ e x, same_identity exactness source (p_child_block_hash p) (p_child_height p)
                                (Some (p_hash p)) (e_source_id e) (x_child_hash x) (e_child_height e)
                                (Some (e_hash e))) with
  | None =>
      db ← store_event db i new (new_extra observation p);
      mret (event_write_outcome i true new previous p observation, bump_event db)
  | Some (i, (e, x)) =>
      _ ← ensure (conflict_agrees e x p) (Other "merge-mining observation contradicts stored evidence");
      let e' := fill_event e (coalesce (e_child_height e) (p_child_height p)) (conflict_confirmed_at e p) p in
      db ← store_event db i e' (fill_extra x (x_child_hash x) observation p);
      mret (event_write_outcome i false e' previous p observation, db)
  end.

(** [expect] on the height of a hashless payload: an error here. *)
Definition upsert_hashless_event (db : StoreDb) (source : Z) (p : MergeMiningEventPayload) (o : ChildBlockObservation)
    : result anyhow (EventWriteOutcome * StoreDb) :=
  child_height ← ok_or (Other "hashless identity checked to have a height") (p_child_height p);
  match matching_exact_event_ids db source child_height p with
  | [] => insert_event db source p Partial None o
  | [i] =>
      '(height, hash, db) ← fill_existing_event db i p;
      let o := {| ob_kind := ob_kind o; ob_child_height := coalesce height (ob_child_height o);
                  ob_child_block_hash := Some hash; ob_child_block_time := ob_child_block_time o;
                  ob_child_header_bytes := ob_child_header_bytes o; ob_child_nbits := ob_child_nbits o;
                  ob_child_prev_block_hash := ob_child_prev_block_hash o; ob_child_txid := ob_child_txid o;
                  ob_child_script := ob_child_script o; ob_child_outputs := ob_child_outputs o;
                  ob_pow_child := ob_pow_child o; ob_parent_hash := ob_parent_hash o;
                  ob_near_parent := ob_near_parent o; ob_child_identities := ob_child_identities o;
                  ob_child_pool_id := ob_child_pool_id o; ob_child_pools_conflict := ob_child_pools_conflict o;
                  ob_parent_pool_id := ob_parent_pool_id o; ob_recorded_at := ob_recorded_at o |} in
      '(observation, db) ← write_event_observation db source o;
      mret (mkOutcome i observation SatisfiedByExistingExact true, db)
  | _ => Err (Other "hashless observation ambiguously matches exact events")
  end.

Definition upsert_merge_mining_event (db : StoreDb) (source : Z) (p : MergeMiningEventPayload)
    : result anyhow (EventWriteOutcome * StoreDb) :=
  _ ← ensure (negb (bool_decide (p_kind p = PkNear))) (Other "a near is recorded as an observation, not an event");
  _ ← ensure (is_some (p_child_block_hash p) || is_some (p_child_height p))
        (Other "merge-mining observation requires a child hash or child height");
  let o := from_event_payload p in
  match p_child_block_hash p with
  | Some child_hash =>
      let existing := exact_event_parent_input db source child_hash in
      let partial := if is_some existing then None
                     else h ← p_child_height p; matching_partial_event_id db source h p in
      match partial with
      | Some i =>
          '(i, db) ← promote_partial_event db i p;
          db ← fold_hashless_observation db i;
          '(observation, db) ← write_event_observation db source o;
          mret (mkOutcome i observation Promoted true, db)
      | None => insert_event db source p Exact existing o
      end
  | None => upsert_hashless_event db source p o
  end.

(** ** Pool attributions *)

Definition RSK_MINER_ADDRESS_NAMESPACE : string := "rsk_miner_address".
Definition CHILD_COINBASE_OUTPUT_SOURCE : string := "child_coinbase_output".
Definition CHILD_PAYOUT_REGISTRY_SOURCE : string := "child_payout_registry".

Definition attribution_row_key (event_id : Z) (a : EventPoolAttribution) : attribution_key :=
  (event_id, at_side a, at_namespace a, at_matched_value a).

Definition new_attribution (a : EventPoolAttribution) (observed_at : Z) : AttributionRow :=
  mkAttrRow (at_match_kind a) (at_pool_id a) (at_pool_identity_id a) (at_source a) (at_confidence a)
    (at_details a) observed_at observed_at.

(** [DO UPDATE SET]: an unknown pool keeps what a known one stored. *)
Definition merge_attribution (old new : AttributionRow) : AttributionRow :=
  let keep := negb (is_some (ar_pool_id new)) && is_some (ar_pool_id old) in
  {| ar_match_kind := if keep then ar_match_kind old else ar_match_kind new;
     ar_pool_id := if is_some (ar_pool_id new) then ar_pool_id new else ar_pool_id old;
     ar_pool_identity_id := if is_some (ar_pool_id new) then ar_pool_identity_id new
                            else if is_some (ar_pool_id old) then ar_pool_identity_id old
                            else ar_pool_identity_id new;
     ar_source := if keep then ar_source old else ar_source new;
     ar_confidence := if keep then ar_confidence old else ar_confidence new;
     ar_details := if keep then ar_details old else ar_details new;
     ar_first_seen_at := ar_first_seen_at old;
     ar_last_seen_at := Z.max (ar_last_seen_at old) (ar_last_seen_at new) |}.

(** [event_pool_attribution_pool_identity_consistency]. *)
Definition chk_attribution (r : AttributionRow) : bool :=
  negb (is_some (ar_pool_identity_id r)) || is_some (ar_pool_id r).

Fixpoint upsert_event_pool_attribution_rows (t : gmap attribution_key AttributionRow) (event_id : Z)
    (attributions : list EventPoolAttribution) (observed_at : Z) : result anyhow (gmap attribution_key AttributionRow) :=
  match attributions with
  | [] => mret t
  | a :: attributions =>
      let key := attribution_row_key event_id a in
      let new := new_attribution a observed_at in
      let row := match t !! key with Some old => merge_attribution old new | None => new end in
      _ ← ensure (chk_attribution new && chk_attribution row) (Other "upsert event_pool_attribution");
      upsert_event_pool_attribution_rows (<[key := row]> t) event_id attributions observed_at
  end.

Definition is_child_payout_source (source : string) : bool :=
  bool_decide (source = CHILD_COINBASE_OUTPUT_SOURCE) || bool_decide (source = CHILD_PAYOUT_REGISTRY_SOURCE).

(** The keys a source of a side retains; the child payout sources retain one another's. *)
Definition retained_keys (attributions : list EventPoolAttribution) (side : PoolAttributionSide) (source : string)
    : list (string * string) :=
  let keys l := (λ a, (at_namespace a, at_matched_value a)) <$> l in
  keys (filter (λ a, at_side a = side ∧ at_source a = source) attributions)
  ++ (if is_child_payout_source source
      then keys (filter (λ a, at_side a = side ∧ is_child_payout_source (at_source a) = true) attributions)
      else []).

(** The statement of one side and source. *)
Definition stale_attribution (event_id : Z) (side : PoolAttributionSide) (source : string)
    (retained : list (string * string)) (k : attribution_key) (r : AttributionRow) : bool :=
  let '(e, s, n, v) := k in
  bool_decide (e = event_id) && bool_decide (s = side) && bool_decide (ar_source r = source)
  && negb (bool_decide ((n, v) ∈ retained)).

Definition delete_stale_for (event_id : Z) (attributions : list EventPoolAttribution)
    (t : gmap attribution_key AttributionRow) (group : PoolAttributionSide * string)
    : gmap attribution_key AttributionRow :=
  filter (λ '(k, r), stale_attribution event_id group.1 group.2 (retained_keys attributions group.1 group.2) k r
                     = false) t.

Definition delete_stale_event_pool_attributions_for_sources (t : gmap attribution_key AttributionRow)
    (event_id : Z) (attributions : list EventPoolAttribution) : gmap attribution_key AttributionRow :=
  foldl (delete_stale_for event_id attributions) t (remove_dups ((λ a, (at_side a, at_source a)) <$> attributions)).

Definition upsert_event_pool_attributions (db : StoreDb) (event_id : Z) (attributions : list EventPoolAttribution)
    (observed_at : Z) : result anyhow StoreDb :=
  let t := delete_stale_event_pool_attributions_for_sources (sd_attributions db) event_id attributions in
  t ← upsert_event_pool_attribution_rows t event_id attributions observed_at;
  mret (with_attributions db t).

Definition upsert_event_pool_attributions_without_stale_cleanup (db : StoreDb) (event_id : Z)
    (attributions : list EventPoolAttribution) (observed_at : Z) : result anyhow StoreDb :=
  t ← upsert_event_pool_attribution_rows (sd_attributions db) event_id attributions observed_at;
  mret (with_attributions db t).

Definition delete_event_pool_attributions_for_source (db : StoreDb) (event_id : Z) (side : PoolAttributionSide)
    (source : string) : StoreDb :=
  with_attributions db
    (filter (λ '((e, s, _, _), r), ¬ (e = event_id ∧ s = side ∧ ar_source r = source)) (sd_attributions db)).

(** The attribution rows of an event on the child's side. *)
Definition child_attributions (db : StoreDb) (event_id : Z) : list (attribution_key * AttributionRow) :=
  filter (λ '((e, s, _, _), _), e = event_id ∧ s = SideChildBlock) (map_to_list (sd_attributions db)).

Definition attributed_identities (db : StoreDb) (event_id : Z) : list (string * string) :=
  filter (λ k, is_child_identity_namespace k.1 = true)
    ((λ '((_, _, n, v), _), (n, v)) <$> child_attributions db event_id).

(** [count(DISTINCT pool_id) = 1]. *)
Definition attributed_pool (db : StoreDb) (event_id : Z) : option Z :=
  match remove_dups (omap (λ '(_, r), ar_pool_id r) (child_attributions db event_id)) with
  | [pool] => Some pool
  | _ => None
  end.

Definition rsk_identities (db : StoreDb) (ids : gset Z) : gset Z :=
  list_to_set (omap (λ '((n, _), i), if bool_decide (n = RSK_MINER_ADDRESS_NAMESPACE ∧ i ∈ ids) then Some i else None)
                 (map_to_list (sd_identities db))).

Definition with_attribution (o : ObservationRow) (ids : gset Z) (pool : option Z) : ObservationRow :=
  {| o_source := o_source o; o_child_height := o_child_height o; o_child_hash := o_child_hash o;
     o_kind := o_kind o; o_child_time := o_child_time o; o_child_header := o_child_header o;
     o_child_nbits := o_child_nbits o; o_child_prev := o_child_prev o;
     o_difficulty_reported := o_difficulty_reported o; o_child_txid := o_child_txid o;
     o_child_script := o_child_script o; o_child_outputs := o_child_outputs o; o_pow_child := o_pow_child o;
     o_parent := o_parent o; o_parent_header := o_parent_header o; o_parent_time := o_parent_time o;
     o_parent_txid := o_parent_txid o; o_parent_script := o_parent_script o;
     o_parent_outputs := o_parent_outputs o; o_identities := ids; o_child_pool := pool;
     o_parent_pool := o_parent_pool o; o_recorded_at := o_recorded_at o;
     o_displaced := o_displaced o |}.

Definition sync_event_observation_attribution (db : StoreDb) (event_id : Z) : StoreDb :=
  let keys := attributed_identities db event_id in
  let db := insert_child_identities db keys in
  match (x ← sd_extra db !! event_id; o ← sd_observations db !! x_observation x; Some (x_observation x, o)) with
  | None => db
  | Some (i, o) =>
      let ids := list_to_set (omap (λ k, sd_identities db !! k) keys) ∪ rsk_identities db (o_identities o) in
      with_observations db (<[i := with_attribution o ids (attributed_pool db event_id)]> (sd_observations db))
  end.

(** ** Historical provenance *)

Definition provenance_row_key (v : HistoricalEventProvenance) : provenance_key :=
  (hp_publication_ref v, hp_chain v, hp_source_path v, hp_source_row_number v).

Definition error_block_scope : string := "error-block-observations".

Definition same_coordinate (v w : HistoricalEventProvenance) : bool :=
  bool_decide (hp_chain w = hp_chain v) && bool_decide (hp_source_path w = hp_source_path v)
  && bool_decide (hp_source_row_number w = hp_source_row_number v)
  && bool_decide (hp_artifact_scope w = error_block_scope).

Definition ensure_invalid_observation_coordinate_identity (db : StoreDb) (event_id : Z)
    (v : HistoricalEventProvenance) : result anyhow unit :=
  if negb (bool_decide (hp_artifact_scope v = error_block_scope)) then mret ()
  else ensure (bool_decide (map_Forall (λ _ '(i, w), same_coordinate v w = true → i = event_id) (sd_provenance db)))
         (Other "invalid-observation coordinate contradicts stored child identity").

(** The column of the join: a reason that attests a stale branch when a row of the event
    has one. *)
Definition stale_branch_reason (o : option string) : bool :=
  bool_decide (o ∈ [Some "valid_direct_stale"; Some "valid_stale_descendant"]%string).
Definition joined_relevance (t : gmap provenance_key (Z * HistoricalEventProvenance)) (event_id : Z) : option string :=
  let reasons := (λ r, hp_relevance_reason r.2.2) <$> filter (λ r, r.2.1 = event_id) (map_to_list t) in
  match filter (λ o, stale_branch_reason o = true) reasons with
  | o :: _ => o
  | [] => head reasons ≫= id
  end.

Definition with_relevance (e : EventRow) (reason : option string) : EventRow :=
  {| e_id := e_id e; e_source_id := e_source_id e; e_child_height := e_child_height e; e_hash := e_hash e;
     e_prev_hash := e_prev_hash e; e_header_bytes := e_header_bytes e; e_header_time := e_header_time e;
     e_height := e_height e; e_kind := e_kind e; e_pow := e_pow e; e_difficulty_ok := e_difficulty_ok e;
     e_script := e_script e; e_outputs := e_outputs e; e_tx_bytes := e_tx_bytes e;
     e_discovered_at := e_discovered_at e; e_confirmed_at := e_confirmed_at e; e_revoked_at := e_revoked_at e;
     e_revocation_reason := e_revocation_reason e; e_relevance_reason := reason |}.

Definition with_provenance (db : StoreDb) (event_id : Z) (k : provenance_key) (v : HistoricalEventProvenance)
    : StoreDb :=
  let t := <[k := (event_id, v)]> (sd_provenance db) in
  mkStoreDb (alter (λ e, with_relevance e (joined_relevance t event_id)) event_id (sd_events db)) (sd_extra db)
    (sd_next_event db) (sd_observations db) (sd_next_observation db) (sd_identities db) (sd_next_identity db)
    (sd_attributions db) t (sd_heads db).

(** The conflict clause admits only the row already stored. *)
Definition upsert_historical_event_provenance (db : StoreDb) (event_id : Z) (v : HistoricalEventProvenance)
    : result anyhow StoreDb :=
  _ ← ensure (0 <? hp_source_row_number v) (Other "historical source_row_number must be positive");
  _ ← ensure_invalid_observation_coordinate_identity db event_id v;
  let k := provenance_row_key v in
  match sd_provenance db !! k with
  | Some old =>
      _ ← ensure (bool_decide (old = (event_id, v))) (Other "historical publication row contradicts stored provenance");
      mret db
  | None => mret (with_provenance db event_id k v)
  end.

(** ** The capture write *)

Definition upsert_merge_mining_event_with_attributions (db : StoreDb) (source : Z) (p : MergeMiningEventPayload)
    : result anyhow (EventWriteOutcome * StoreDb) :=
  '(outcome, db) ← upsert_merge_mining_event db source p;
  db ← upsert_event_pool_attributions db (ow_event_id outcome) (p_attributions p) (p_confirmed_at p);
  db ← match p_provenance p with
       | Some v => upsert_historical_event_provenance db (ow_event_id outcome) v
       | None => mret db
       end;
  mret (outcome, sync_event_observation_attribution db (ow_event_id outcome)).

Inductive CaptureWrite := WroteEvent (o : EventWriteOutcome) | WroteNear (observation_id : Z).

Definition write_capture (db : StoreDb) (source : Z) (p : MergeMiningEventPayload)
    : result anyhow (CaptureWrite * StoreDb) :=
  if bool_decide (p_kind p = PkNear) then
    '(observation, db) ← write_event_observation db source (near_observation p);
    mret (WroteNear observation, db)
  else
    '(outcome, db) ← upsert_merge_mining_event_with_attributions db source p;
    mret (WroteEvent outcome, db).

(** ** Retraction *)

(** [None = $2] is null: a hashless row matches only with a height. *)
Definition child_block_event (source : Z) (height : option Z) (child_hash parent : bytes) (e : EventRow)
    (x : EventExtra) : bool :=
  bool_decide (e_source_id e = source) &&
  (bool_decide (x_child_hash x = Some child_hash)
   || negb (is_some (x_child_hash x)) && is_some height && bool_decide (e_child_height e = height)
      && bool_decide (e_hash e = parent)).

Definition child_block_is_counted (db : StoreDb) (source : Z) (height : option Z) (child_hash parent : bytes) : bool :=
  is_some (find_event db (child_block_event source height child_hash parent))
  || is_some (find_row (λ _ o, bool_decide (o_source o = source) && bool_decide (o_child_hash o = Some child_hash)
                               && bool_decide (o_kind o = ObsNear)) (sd_observations db)).

(** Delete events by id; their attributions and provenance go with them. *)
Definition delete_events (db : StoreDb) (ids : gset Z) : StoreDb :=
  mkStoreDb (filter (λ r, r.1 ∉ ids) (sd_events db)) (filter (λ r, r.1 ∉ ids) (sd_extra db)) (sd_next_event db)
    (sd_observations db) (sd_next_observation db) (sd_identities db) (sd_next_identity db)
    (filter (λ '((e, _, _, _), _), e ∉ ids) (sd_attributions db))
    (filter (λ r, r.2.1 ∉ ids) (sd_provenance db)) (sd_heads db).

Definition delete_child_block_events (db : StoreDb) (source : Z) (height : option Z) (child_hash parent : bytes)
    : result anyhow (Z * StoreDb) :=
  let gone := filter (λ r, child_block_event source height child_hash parent r.2.1 r.2.2 = true) (event_rows db) in
  let observations : gset Z := list_to_set ((λ r, x_observation r.2.2) <$> gone) in
  let db' := delete_events db (list_to_set (fst <$> gone)) in
  let t := filter (λ r, ¬ (r.1 ∈ observations ∧ o_child_hash r.2 = None)) (sd_observations db') in
  _ ← ensure (bool_decide (map_Forall (λ _ y, is_Some (t !! x_observation y)) (sd_extra db')))
        (Other "merge_mining_event_observation_id_fkey");
  mret (Z.of_nat (length gone), with_observations db' t).

(** Decompose a success through the pairs it returns. *)
Ltac res_pairs :=
  res_inv;
  repeat (match goal with
          | H : (let '(_, _) := ?x in _) = Ok _ |- _ => destruct x
          | H : (let '(_, _) := ?x in _) _ = Ok _ |- _ => destruct x
          end; res_inv); simplify_eq.

(** ** Lookups *)

Lemma agrees_true {A} `{EqDecision A} (a b : option A) :
  agrees a b = true ↔ ∀ x y, a = Some x → b = Some y → x = y.
Proof. unfold agrees. destruct a, b; rewrite ?bool_decide_eq_true; naive_solver. Qed.

Lemma head_filter_Some {A} (p : A → bool) (l : list A) a :
  head (filter (λ a, p a = true) l) = Some a → a ∈ l ∧ p a = true.
Proof.
  intros Hh. assert (a ∈ filter (λ a, p a = true) l) as Hin.
  { destruct (filter _ l); simplify_eq/=. apply list_elem_of_here. }
  apply list_elem_of_filter in Hin. tauto.
Qed.
Lemma head_filter_None {A} (p : A → bool) (l : list A) a :
  head (filter (λ a, p a = true) l) = None → a ∈ l → p a = false.
Proof.
  intros Hh Hin. apply not_true_iff_false. intros Hp.
  assert (a ∈ filter (λ a, p a = true) l) as Hf by (by apply list_elem_of_filter).
  destruct (filter _ l); [by apply elem_of_nil in Hf|discriminate].
Qed.

Lemma find_row_Some {A} (p : Z → A → bool) t i r : find_row p t = Some (i, r) → t !! i = Some r ∧ p i r = true.
Proof.
  intros [Hin Hp]%(head_filter_Some (λ kr, p kr.1 kr.2)). by apply elem_of_map_to_list in Hin.
Qed.
Lemma find_row_None {A} (p : Z → A → bool) t i r : find_row p t = None → t !! i = Some r → p i r = false.
Proof.
  intros Hn Hr. apply (head_filter_None (λ kr, p kr.1 kr.2) _ (i, r) Hn). by apply elem_of_map_to_list.
Qed.

Lemma event_row_Some db i e x :
  event_row db i = Some (e, x) ↔ sd_events db !! i = Some e ∧ sd_extra db !! i = Some x.
Proof.
  unfold event_row. destruct (sd_events db !! i), (sd_extra db !! i); naive_solver.
Qed.
Lemma elem_of_event_rows db i e x : (i, (e, x)) ∈ event_rows db ↔ event_row db i = Some (e, x).
Proof.
  rewrite event_row_Some. unfold event_rows. rewrite list_elem_of_omap. split.
  - intros ([j f] & Hin & Hx). apply elem_of_map_to_list in Hin.
    apply fmap_Some in Hx as (y & Hy & Heq). by simplify_eq.
  - intros [He Hx]. exists (i, e). rewrite elem_of_map_to_list. split; [done|]. by rewrite Hx.
Qed.
Lemma find_event_Some db p i e x : find_event db p = Some (i, (e, x)) → event_row db i = Some (e, x) ∧ p e x = true.
Proof. intros [Hin Hp]%(head_filter_Some (λ r, p r.2.1 r.2.2)). by apply elem_of_event_rows in Hin. Qed.
Lemma find_event_None db p i e x : find_event db p = None → event_row db i = Some (e, x) → p e x = false.
Proof.
  intros Hn Hr. apply (head_filter_None (λ r, p r.2.1 r.2.2) _ (i, (e, x)) Hn). by apply elem_of_event_rows.
Qed.

(** ** The invariant *)

(** An observation of a child block is unique by hash, and by height and parent without one. *)
Definition same_key (r r' : ObservationRow) : Prop :=
  o_source r = o_source r' ∧
  (is_Some (o_child_hash r) ∧ o_child_hash r = o_child_hash r' ∨
   o_child_hash r = None ∧ o_child_hash r' = None ∧ is_Some (o_child_height r) ∧ is_Some (o_parent r)
   ∧ o_child_height r = o_child_height r' ∧ o_parent r = o_parent r').

Record observations_ok (t : gmap Z ObservationRow) (next : Z) : Prop := {
  obs_next : ∀ i r, t !! i = Some r → i < next;
  obs_chk : ∀ i r, t !! i = Some r → chk_observation r = true;
  obs_unique : ∀ i j r r', t !! i = Some r → t !! j = Some r' → same_key r r' → i = j;
}.

(** Two event rows name the same child block. *)
Definition same_child (e : EventRow) (x : EventExtra) (e' : EventRow) (x' : EventExtra) : Prop :=
  e_source_id e = e_source_id e' ∧
  (is_Some (x_child_hash x) ∧ x_child_hash x = x_child_hash x' ∨
   x_child_hash x = None ∧ x_child_hash x' = None ∧ is_Some (e_child_height e)
   ∧ e_child_height e = e_child_height e' ∧ e_hash e = e_hash e').

Record rows_ok (db : StoreDb) : Prop := {
  rows_dom : dom (sd_events db) = dom (sd_extra db);
  rows_next : ∀ i e, sd_events db !! i = Some e → i < sd_next_event db;
  rows_chk : ∀ i e x, event_row db i = Some (e, x) → e_id e = i ∧ chk_event_columns e x = true;
  rows_unique : ∀ i j e x e' x', event_row db i = Some (e, x) → event_row db j = Some (e', x') →
    same_child e x e' x' → i = j;
  rows_observation : ∀ i j x y, sd_extra db !! i = Some x → sd_extra db !! j = Some y →
    x_observation x = x_observation y → i = j;
}.

(** The observation of an event names its child block. *)
Record named_by (e : EventRow) (x : EventExtra) (o : ObservationRow) : Prop := {
  named_source : o_source o = e_source_id e;
  named_hash : o_child_hash o = x_child_hash x;
  named_height : x_child_hash x = None → o_child_height o = e_child_height e;
}.
(** It records the parent of the event as evidence. *)
Record linked (e : EventRow) (x : EventExtra) (o : ObservationRow) : Prop := {
  linked_named : named_by e x o;
  linked_kind : o_kind o = ObsEvidence;
  linked_parent : o_parent o = Some (e_hash e);
}.

(** The links of all events but those of a set. *)
Definition links_ok (but : gset Z) (db : StoreDb) : Prop :=
  ∀ i e x, event_row db i = Some (e, x) →
    ∃ o, sd_observations db !! x_observation x = Some o ∧
      (i ∉ but → linked e x o).

Record store_ok (db : StoreDb) : Prop := {
  ok_observations : observations_ok (sd_observations db) (sd_next_observation db);
  ok_rows : rows_ok db;
  ok_links : links_ok ∅ db;
}.

(** A write that leaves the events alone. *)
Record same_events (db db' : StoreDb) : Prop := {
  se_events : sd_events db' = sd_events db;
  se_extra : sd_extra db' = sd_extra db;
  se_next : sd_next_event db' = sd_next_event db;
  se_attributions : sd_attributions db' = sd_attributions db;
  se_provenance : sd_provenance db' = sd_provenance db;
}.
#[global] Instance same_events_preorder : PreOrder same_events.
Proof.
  split; [by constructor|]. intros a b c [] []. constructor; congruence.
Qed.
Lemma same_events_row db db' i : same_events db db' → event_row db' i = event_row db i.
Proof. intros [He Hx _ _ _]. unfold event_row. by rewrite He, Hx. Qed.
Lemma same_events_rows db db' : same_events db db' → rows_ok db → rows_ok db'.
Proof.
  intros Hs [Hd Hn Hc Hu Ho].
  assert (∀ i, event_row db' i = event_row db i) as Hr by (intros; by apply same_events_row).
  destruct Hs as [He Hx Hnx _ _]. split; [by rewrite He, Hx| | | |].
  - intros i e. rewrite He, Hnx. apply Hn.
  - intros i e x. rewrite Hr. apply Hc.
  - intros i j e x e' x'. rewrite !Hr. apply Hu.
  - intros i j x y. rewrite Hx. apply Ho.
Qed.

Lemma insert_child_identities_same db ks :
  same_events db (insert_child_identities db ks)
  ∧ sd_observations (insert_child_identities db ks) = sd_observations db
  ∧ sd_next_observation (insert_child_identities db ks) = sd_next_observation db.
Proof.
  unfold insert_child_identities. revert db. induction ks as [|k ks IH]; intros db; [done|].
  simpl. destruct (IH (insert_child_identity db k)) as (Hs & -> & ->).
  unfold insert_child_identity in *. destruct (sd_identities db !! k); [done|].
  split; [|done]. etrans; [|exact Hs]. by constructor.
Qed.

Lemma child_identity_ids_same db o ids db' : child_identity_ids db o = (ids, db') →
  same_events db db' ∧ sd_observations db' = sd_observations db ∧ sd_next_observation db' = sd_next_observation db.
Proof.
  unfold child_identity_ids. destruct (ob_child_identities o) as [|k ks]; intros Hc; simplify_eq; [done|].
  apply insert_child_identities_same.
Qed.

(** What a written observation row holds. *)
Record written_row (source : Z) (o : ChildBlockObservation) (old : option ObservationRow) (r : ObservationRow)
    : Prop := {
  wr_source : o_source r = source;
  wr_hash : o_child_hash r = ob_child_block_hash o;
  wr_kind : o_kind r = ob_kind o;
  wr_parent : o_parent r = ob_parent_hash o;
  wr_height : ob_child_block_hash o = None → o_child_height r = ob_child_height o;
  wr_old : ∀ q, old = Some q → ∃ ids,
    o_source q = source ∧ o_child_hash q = ob_child_block_hash o ∧
    (ob_child_block_hash o = None → o_child_height q = ob_child_height o ∧ o_parent q = ob_parent_hash o)
    ∧ observation_where q (excluded_observation source o ids) = true
    ∧ r = observation_conflict_set q (excluded_observation source o ids) (ob_child_pools_conflict o);
  wr_new : old = None → ∃ ids, r = excluded_observation source o ids;
}.

Lemma same_identity_Exact source hash height parent rs rh rt rp :
  same_identity Exact source hash height parent rs rh rt rp = true ↔ rs = source ∧ is_Some hash ∧ rh = hash.
Proof. unfold same_identity. rewrite !andb_true_iff, !bool_decide_eq_true, is_some_true. tauto. Qed.
Lemma same_identity_Partial source hash height parent rs rh rt rp :
  same_identity Partial source hash height parent rs rh rt rp = true ↔
  rs = source ∧ rh = None ∧ is_Some height ∧ rt = height ∧ is_Some parent ∧ rp = parent.
Proof.
  unfold same_identity. rewrite !andb_true_iff, !bool_decide_eq_true, !is_some_true, negb_true_iff.
  destruct rh; simpl; intuition congruence.
Qed.

(** The arbiter row of an observation has its key. *)
Definition arbiter (source : Z) (o : ChildBlockObservation) (r : ObservationRow) : bool :=
  same_identity (if is_some (ob_child_block_hash o) then Exact else Partial) source (ob_child_block_hash o)
    (ob_child_height o) (ob_parent_hash o) (o_source r) (o_child_hash r) (o_child_height r) (o_parent r).

Lemma arbiter_true source o r : arbiter source o r = true →
  o_source r = source ∧ o_child_hash r = ob_child_block_hash o ∧
  (ob_child_block_hash o = None → o_child_height r = ob_child_height o ∧ o_parent r = ob_parent_hash o).
Proof.
  unfold arbiter. destruct (ob_child_block_hash o); simpl.
  - rewrite same_identity_Exact. naive_solver.
  - rewrite same_identity_Partial. naive_solver.
Qed.

Lemma written_inserted source o ids : written_row source o None (excluded_observation source o ids).
Proof. constructor; try done. eauto. Qed.

Lemma written_updated source o ids q : arbiter source o q = true →
  observation_where q (excluded_observation source o ids) = true →
  written_row source o (Some q)
    (observation_conflict_set q (excluded_observation source o ids) (ob_child_pools_conflict o)).
Proof.
  intros (Hs & Hh & Hn)%arbiter_true Hw. constructor; simpl; try done.
  - intros [Ht _]%Hn. rewrite Ht. by destruct (ob_child_height o).
  - intros q0 [= <-]. eauto 10.
Qed.

Lemma write_observation_spec db source o w db' :
  observations_ok (sd_observations db) (sd_next_observation db) →
  write_observation db source o = Ok (w, db') →
  same_events db db' ∧
  match w with
  | None => sd_observations db' = sd_observations db ∧ sd_next_observation db' = sd_next_observation db
  | Some i => ∃ r, sd_observations db' = <[i := r]> (sd_observations db) ∧
      written_row source o (sd_observations db !! i) r ∧ chk_observation r = true ∧
      (is_Some (sd_observations db !! i) ∧ sd_next_observation db' = sd_next_observation db ∨
       i = sd_next_observation db ∧ sd_next_observation db' = i + 1 ∧
       ∀ j q, sd_observations db !! j = Some q → arbiter source o q = false)
  end.
Proof.
  unfold write_observation. destruct (child_identity_ids db o) as [ids db1] eqn:Hi.
  destruct (child_identity_ids_same _ _ _ _ Hi) as (Hs & Ho & Hx). intros Hok Hw. res_inv.
  change (find_row _ _) with (find_row (λ _ r, arbiter source o r) (sd_observations db1)) in *.
  rewrite Ho in *. destruct (find_row _ _) as [[i q]|] eqn:Hf.
  - apply find_row_Some in Hf as [Hq Ha].
    destruct (observation_where q _) eqn:Hwhere; unfold store_observation in *; res_inv; [|done].
    split; [by destruct Hs; constructor|]. eexists. cbn. rewrite Ho, Hq. split; [done|].
    split; [by apply written_updated|]. split; [done|]. left. by split.
  - unfold store_observation in *. res_inv. split; [by destruct Hs; constructor|].
    assert (sd_observations db !! sd_next_observation db = None) as Hnone.
    { apply eq_None_not_Some. intros [r Hr]. apply (obs_next _ _ Hok) in Hr. lia. }
    eexists. cbn. rewrite Ho, Hx, Hnone. split; [done|]. split; [apply written_inserted|]. split; [done|].
    right. split_and!; [done|done|]. intros j q Hq. by apply (find_row_None _ _ _ _ Hf Hq).
Qed.

Lemma same_key_sym r r' : same_key r r' → same_key r' r.
Proof. unfold same_key. intuition congruence. Qed.

Lemma observations_insert t n n' i r : observations_ok t n → n ≤ n' → i < n' → chk_observation r = true →
  (∀ j q, j ≠ i → t !! j = Some q → ¬ same_key r q) → observations_ok (<[i := r]> t) n'.
Proof.
  intros [Hn Hc Hu] Hle Hi Hr Hk. split.
  - intros j q [[<- _]|[_ Hq]]%lookup_insert_Some; [done|]. apply Hn in Hq. lia.
  - intros j q [[_ <-]|[_ Hq]]%lookup_insert_Some; [done|]. by apply Hc in Hq.
  - intros j k q q' [[<- <-]|[Hj Hq]]%lookup_insert_Some [[<- <-]|[Hk' Hq']]%lookup_insert_Some Hs; [done| | |eauto].
    + by destruct (Hk k q').
    + destruct (Hk j q); [done|done|by apply same_key_sym].
Qed.

Lemma written_same_key source o old r q : written_row source o old r → same_key r q → arbiter source o q = true.
Proof.
  intros [Hs Hh Hk Hp Ht _ _] [Hq Hkey]. unfold arbiter. rewrite Hh in Hkey.
  destruct (ob_child_block_hash o) as [h|]; simpl.
  - apply same_identity_Exact. intuition (congruence || eauto || by destruct H).
  - apply same_identity_Partial. rewrite (Ht eq_refl), Hp in Hkey. destruct Hkey as [[[] ?]|Hkey]; [done|].
    intuition congruence.
Qed.

Lemma written_old_key source o q r q' : written_row source o (Some q) r → same_key r q' → same_key q q'.
Proof.
  intros [Hs Hh Hk Hp Ht Ho _] [Hq Hkey]. destruct (Ho q eq_refl) as (ids & Hs1 & Hh1 & Hn & _).
  split; [congruence|]. rewrite Hh in Hkey. rewrite Hh1. destruct Hkey as [?|Hkey]; [by left|]. right.
  destruct Hkey as (Hnone & Hkey). destruct (Hn Hnone) as [-> ->]. rewrite (Ht Hnone), Hp in Hkey. by split.
Qed.

Lemma write_observation_ok db source o w db' :
  observations_ok (sd_observations db) (sd_next_observation db) →
  write_observation db source o = Ok (w, db') →
  observations_ok (sd_observations db') (sd_next_observation db').
Proof.
  intros Hok Hw. pose proof (write_observation_spec _ _ _ _ _ Hok Hw) as [_ Hspec].
  destruct w as [i|]; [|by destruct Hspec as [-> ->]].
  destruct Hspec as (r & -> & Hr & Hchk & [[[q Hq] ->]|(-> & -> & Hfresh)]).
  - rewrite Hq in Hr. apply (observations_insert _ _ _ _ _ Hok); [lia| |done|].
    + by apply (obs_next _ _ Hok) in Hq.
    + intros j q' Hj Hq' Hk. destruct Hj. symmetry.
      apply (obs_unique _ _ Hok i j q q' Hq Hq'). by apply (written_old_key _ _ _ _ _ Hr).
  - apply (observations_insert _ _ _ _ _ Hok); [lia|lia|done|].
    intros j q' _ Hq' Hk. apply (written_same_key _ _ _ _ _ Hr) in Hk. by rewrite (Hfresh _ _ Hq') in Hk.
Qed.

(** An evidence write keeps every link. *)
Lemma evidence_keeps_link source o q r e x parent : ob_kind o = ObsEvidence → ob_parent_hash o = Some parent →
  written_row source o (Some q) r → linked e x q → linked e x r.
Proof.
  intros Hk Hpo [Hs Hh Hkind Hp Ht Ho _] [[Hs1 Hh1 Ht1] Hk1 Hp1].
  destruct (Ho q eq_refl) as (ids & Hqs & Hqh & Hqt & Hw & _).
  assert (e_hash e = parent) as <-.
  { unfold observation_where in Hw. apply andb_prop in Hw as [[Ha _]%andb_prop _].
    by apply (proj1 (agrees_true _ _) Ha). }
  split; [split|..]; try congruence.
  intros Hnone. rewrite Hh1, Hnone in Hqh. destruct (Hqt (eq_sym Hqh)) as [Hqt1 _].
  rewrite (Ht (eq_sym Hqh)), <- Hqt1. auto.
Qed.

(** It makes the link of an event it names. *)
Lemma evidence_makes_link source o old r e x : ob_kind o = ObsEvidence → ob_parent_hash o = Some (e_hash e) →
  e_source_id e = source → x_child_hash x = ob_child_block_hash o →
  (x_child_hash x = None → e_child_height e = ob_child_height o) →
  written_row source o old r → linked e x r.
Proof.
  intros Hk Hp Hs Hh Ht [Hs1 Hh1 Hkind Hp1 Ht1 _ _]. split; [split|..]; try congruence.
  intros Hn. rewrite (Ht Hn). apply Ht1. congruence.
Qed.

Lemma write_event_observation_spec db source o i db' :
  observations_ok (sd_observations db) (sd_next_observation db) →
  write_event_observation db source o = Ok (i, db') →
  same_events db db' ∧ observations_ok (sd_observations db') (sd_next_observation db') ∧
  ∃ r, sd_observations db' = <[i := r]> (sd_observations db) ∧ written_row source o (sd_observations db !! i) r.
Proof.
  intros Hok Hw. unfold write_event_observation in Hw. res_pairs.
  match goal with H : write_observation _ _ _ = _ |- _ =>
    pose proof (write_observation_ok _ _ _ _ _ Hok H) as Hok';
    apply (write_observation_spec _ _ _ _ _ Hok) in H as [Hs (r & Hr & Hwr & _)] end.
  eauto 10.
Qed.

(** The links a write of evidence leaves: also that of an event whose observation was
    only named by it, when the write is of that observation. *)
Lemma write_evidence_links but db source o i db' parent : ob_kind o = ObsEvidence → ob_parent_hash o = Some parent →
  observations_ok (sd_observations db) (sd_next_observation db) → links_ok but db →
  write_event_observation db source o = Ok (i, db') →
  links_ok but db' ∧
  (∀ j e x q, event_row db j = Some (e, x) → sd_observations db !! x_observation x = Some q →
     named_by e x q → e_source_id e = source → x_child_hash x = ob_child_block_hash o →
     (x_child_hash x = None → e_child_height e = ob_child_height o) → parent = e_hash e →
     is_Some (x_child_hash x) →
     x_observation x = i ∧ ∃ r, sd_observations db' !! i = Some r ∧ linked e x r).
Proof.
  intros Hk Hp Hok Hl Hw. apply write_event_observation_spec in Hw as (Hs & Hok' & r & Hr & Hwr); [|done].
  split.
  - intros j e x Hj. rewrite (same_events_row _ _ _ Hs) in Hj. destruct (Hl _ _ _ Hj) as (q & Hq & Hlink).
    rewrite Hr. destruct (decide (x_observation x = i)) as [Hi|Hne].
    + rewrite Hi, lookup_insert_eq. exists r. split; [done|]. intros Hbut. rewrite <- Hi, Hq in Hwr.
      apply (evidence_keeps_link _ _ _ _ _ _ _ Hk Hp Hwr). auto.
    + rewrite lookup_insert_ne by done. eauto.
  - intros j e x q Hj Hq Hnamed Hsrc Hh Ht -> Hsome.
    assert (x_observation x = i) as Hi.
    { destruct (decide (x_observation x = i)) as [|Hne]; [done|].
      apply (obs_unique _ _ Hok' _ _ q r).
      - by rewrite Hr, lookup_insert_ne.
      - by rewrite Hr, lookup_insert_eq.
      - destruct Hnamed as [Hn1 Hn2 _]. destruct Hwr as [Hw1 Hw2 _ _ _ _ _].
        split; [congruence|]. left. rewrite Hn2. split; [done|]. congruence. }
    split; [done|]. exists r. rewrite Hr, lookup_insert_eq. split; [done|].
    by apply (evidence_makes_link source o (sd_observations db !! i)).
Qed.

(** ** Writes of event rows *)

Lemma event_row_with_event db i e x j :
  event_row (with_event db i e x) j = if decide (j = i) then Some (e, x) else event_row db j.
Proof.
  unfold event_row, with_event. simpl. case_decide as Hj; [subst; by rewrite !lookup_insert_eq|].
  by rewrite !lookup_insert_ne.
Qed.

Lemma store_event_Ok db i e x db' : store_event db i e x = Ok db' ↔ chk_event_row db i e x = true ∧ db' = with_event db i e x.
Proof.
  unfold store_event. split; [intros Hs; by res_inv|]. intros [Hc ->]. by rewrite Hc.
Qed.

Lemma chk_event_row_true db i e x : chk_event_row db i e x = true →
  chk_event_columns e x = true ∧ is_Some (sd_observations db !! x_observation x) ∧
  ∀ j y, sd_extra db !! j = Some y → x_observation y = x_observation x → j = i.
Proof.
  unfold chk_event_row. rewrite !andb_true_iff, is_some_true, bool_decide_eq_true.
  intros [[Hc Ho] Hu]. split_and!; [done|done|]. intros j y Hy Heq. destruct (Hu j y Hy); done.
Qed.

Lemma same_child_sym e x e' x' : same_child e x e' x' → same_child e' x' e x.
Proof. unfold same_child. intuition congruence. Qed.

Lemma rows_with_event db i e x : rows_ok db → chk_event_row db i e x = true → e_id e = i → i < sd_next_event db →
  (∀ j e' x', j ≠ i → event_row db j = Some (e', x') → ¬ same_child e x e' x') →
  rows_ok (with_event db i e x).
Proof.
  intros [Hd Hn Hc Hu Ho] (Hcol & _ & Hobs)%chk_event_row_true Hid Hi Hk. split.
  - simpl. rewrite !dom_insert_L. by rewrite Hd.
  - simpl. intros j e' [[<- _]|[_ He]]%lookup_insert_Some; [done|]. by apply Hn in He.
  - intros j e' x'. rewrite event_row_with_event. case_decide as Hj; [intros; by simplify_eq|]. apply Hc.
  - intros j k e1 x1 e2 x2. rewrite !event_row_with_event. do 2 case_decide; simplify_eq; [done| | |apply Hu].
    + intros [= -> ->] H2 Hs. by destruct (Hk k e2 x2).
    + intros H1 [= -> ->] Hs. destruct (Hk j e1 x1); [done|done|by apply same_child_sym].
  - simpl. intros j k y z [[<- <-]|[Hj Hy]]%lookup_insert_Some [[<- <-]|[Hk' Hz]]%lookup_insert_Some Heq;
      [done|symmetry; by apply (Hobs k z)|by apply (Hobs j y)|by apply (Ho j k y z)].
Qed.

(** An update in place keeps the identity of the row. *)
Lemma rows_update db i e x e' x' : rows_ok db → event_row db i = Some (e, x) →
  chk_event_row db i e' x' = true → e_id e' = e_id e → e_source_id e' = e_source_id e → e_hash e' = e_hash e →
  x_child_hash x' = x_child_hash x → (x_child_hash x = None → e_child_height e' = e_child_height e) →
  rows_ok (with_event db i e' x').
Proof.
  intros Hok He Hchk Hid Hs Hh Hx Ht. apply rows_with_event; [done|done| | |].
  - rewrite Hid. by apply (rows_chk _ Hok _ _ _ He).
  - apply event_row_Some in He as [He _]. by apply (rows_next _ Hok) in He.
  - intros j f y Hj Hf [Hk1 Hk2]. destruct Hj. symmetry. apply (rows_unique _ Hok i j e x f y He Hf).
    split; [congruence|]. rewrite Hx in Hk2. destruct Hk2 as [?|(Hn & Hk2)]; [by left|]. right.
    rewrite (Ht Hn), Hh in Hk2. by split.
Qed.

(** The row of an event points at an observation that was there or is linked to it. *)
Lemma links_with_event but db i e x o : links_ok but db → sd_observations db !! x_observation x = Some o →
  (i ∉ but → linked e x o) → links_ok but (with_event db i e x).
Proof.
  intros Hl Ho Hlink j f y. rewrite event_row_with_event. case_decide; [intros; simplify_eq; by exists o|]. apply Hl.
Qed.

Lemma bump_rows db : rows_ok db → rows_ok (bump_event db).
Proof.
  intros [Hd Hn Hc Hu Ho]. split; try done. simpl. intros i e He. apply Hn in He. simpl. lia.
Qed.

Lemma payload_observation p : ob_kind (from_event_payload p) = ObsEvidence
  ∧ ob_parent_hash (from_event_payload p) = Some (p_hash p)
  ∧ ob_child_block_hash (from_event_payload p) = p_child_block_hash p
  ∧ ob_child_height (from_event_payload p) = p_child_height p.
Proof. done. Qed.

(** The row the arbiter of the event upsert finds, or that there is none. *)
Definition event_arbiter (exactness : Exactness) (source : Z) (p : MergeMiningEventPayload) (e : EventRow)
    (x : EventExtra) : bool :=
  same_identity exactness source (p_child_block_hash p) (p_child_height p) (Some (p_hash p)) (e_source_id e)
    (x_child_hash x) (e_child_height e) (Some (e_hash e)).
Definition arbiter_fits (exactness : Exactness) (p : MergeMiningEventPayload) : Prop :=
  match exactness with Exact => is_Some (p_child_block_hash p) | Partial => p_child_block_hash p = None end.

Lemma event_arbiter_true exactness source p e x : arbiter_fits exactness p → event_arbiter exactness source p e x = true →
  e_source_id e = source ∧ x_child_hash x = p_child_block_hash p ∧ (x_child_hash x = None → e_child_height e = p_child_height p).
Proof.
  unfold arbiter_fits, event_arbiter. destruct exactness; intros Hfit Ha.
  - apply same_identity_Exact in Ha as (? & [h Hh] & Hx). split_and!; [done|done|]. intros Hn. congruence.
  - apply same_identity_Partial in Ha as (? & ? & ? & ? & _). split_and!; [done|congruence|done].
Qed.
Lemma event_arbiter_complete exactness source p e x f y : arbiter_fits exactness p → e_source_id e = source →
  x_child_hash x = p_child_block_hash p → e_child_height e = p_child_height p → e_hash e = p_hash p →
  same_child e x f y → event_arbiter exactness source p f y = true.
Proof.
  unfold arbiter_fits, event_arbiter. intros Hfit Hs Hx Ht Hh [Hk1 Hk2]. rewrite Hx, Ht, Hh in Hk2. destruct exactness.
  - apply same_identity_Exact. destruct Hk2 as [[? ?]|(? & _)]; [|destruct Hfit; congruence].
    split_and!; congruence.
  - apply same_identity_Partial. destruct Hk2 as [[[] ?]|(? & ? & ? & ? & ?)]; [congruence|].
    split_and!; try congruence; done.
Qed.

(** ** The upsert keeps the invariant *)

(** Every new or updated row of [insert_event]. *)
Lemma insert_event_inv db source p exactness previous o out db' :
  observations_ok (sd_observations db) (sd_next_observation db) →
  insert_event db source p exactness previous o = Ok (out, db') →
  ∃ observation db1, write_event_observation db source o = Ok (observation, db1) ∧ same_events db db1 ∧
  ( (let i := sd_next_event db in (∀ j e x, event_row db j = Some (e, x) → event_arbiter exactness source p e x = false) ∧
      chk_event_row db1 i (new_event i source p) (new_extra observation p) = true ∧
      db' = bump_event (with_event db1 i (new_event i source p) (new_extra observation p)) ∧
      out = event_write_outcome i true (new_event i source p) previous p observation)
  ∨ (∃ i e x,
      let e' := fill_event e (coalesce (e_child_height e) (p_child_height p)) (conflict_confirmed_at e p) p in
      let x' := fill_extra x (x_child_hash x) observation p in
      event_row db i = Some (e, x) ∧ event_arbiter exactness source p e x = true ∧ conflict_agrees e x p = true ∧
      chk_event_row db1 i e' x' = true ∧ db' = with_event db1 i e' x' ∧
      out = event_write_outcome i false e' previous p observation)).
Proof.
  intros Hok Hi. unfold insert_event in Hi. res_pairs.
  match goal with H : write_event_observation _ _ _ = Ok (?i, ?d) |- _ => rename H into Hw; exists i, d end.
  destruct (write_event_observation_spec _ _ _ _ _ Hok Hw) as (Hs & _). split_and!; [done|done|].
  change (find_event _ _) with (find_event s (event_arbiter exactness source p)) in *.
  destruct (find_event s _) as [[i [e x]]|] eqn:Hf; res_pairs;
    match goal with H : store_event _ _ _ _ = _ |- _ => apply store_event_Ok in H as [Hchk ->] end.
  - right. apply find_event_Some in Hf as [Hr Ha]. rewrite (same_events_row _ _ _ Hs) in Hr.
    by exists i, e, x.
  - left. rewrite (se_next _ _ Hs) in *. split_and!; try done.
    intros j e x Hr. rewrite <- (same_events_row _ _ _ Hs) in Hr. by apply (find_event_None _ _ _ _ _ Hf Hr).
Qed.

Lemma conflict_agrees_hash e x p : conflict_agrees e x p = true → e_hash e = p_hash p ∧ agrees (e_child_height e) (p_child_height p) = true.
Proof. unfold conflict_agrees. rewrite !andb_true_iff, !bool_decide_eq_true. tauto. Qed.

Lemma insert_event_ok db source p exactness previous o out db' :
  o = from_event_payload p → arbiter_fits exactness p → store_ok db →
  insert_event db source p exactness previous o = Ok (out, db') → store_ok db'.
Proof.
  intros -> Hfit [Hobs Hrows Hlinks] Hi.
  apply insert_event_inv in Hi as (observation & db1 & Hw & Hs & Hcase); [|done].
  destruct (write_event_observation_spec _ _ _ _ _ Hobs Hw) as (_ & Hobs1 & r & Hr & Hwr).
  destruct (write_evidence_links ∅ db source (from_event_payload p) _ _ (p_hash p) eq_refl eq_refl Hobs Hlinks Hw) as [Hlinks1 _].
  pose proof (same_events_rows _ _ Hs Hrows) as Hrows1.
  assert (sd_observations db1 !! observation = Some r) as Hlook by (by rewrite Hr, lookup_insert_eq).
  destruct Hcase as [(Hnone & Hchk & -> & _)|(i & e & x & He & Ha & Hagree & Hchk & -> & _)].
  - split; [done|apply (rows_with_event (bump_event db1))|]; simpl; try done.
    + by apply bump_rows.
    + rewrite (se_next _ _ Hs). lia.
    + intros j f y _ Hf Hk. change (event_row (bump_event db1) j) with (event_row db1 j) in Hf.
      rewrite (same_events_row _ _ _ Hs) in Hf. specialize (Hnone j f y Hf).
      by rewrite (event_arbiter_complete _ source p (new_event (sd_next_event db) source p) (new_extra observation p)
                    _ _ Hfit eq_refl eq_refl eq_refl eq_refl Hk) in Hnone.
    + apply (links_with_event ∅ (bump_event db1) _ _ _ r); [done|done|]. intros _.
      by apply (evidence_makes_link source (from_event_payload p) (sd_observations db !! observation)).
  - destruct (event_arbiter_true _ _ _ _ _ Hfit Ha) as (Hsrc & Hx & Ht).
    destruct (conflict_agrees_hash _ _ _ Hagree) as [Hh _].
    rewrite <- (same_events_row _ _ _ Hs) in He.
    split; [done|apply (rows_update _ _ e x)|apply (links_with_event ∅ _ _ _ _ r)]; try done.
    + simpl. intros Hn. rewrite (Ht Hn). by destruct (p_child_height p).
    + intros _. apply (evidence_makes_link source (from_event_payload p) (sd_observations db !! observation)); try done.
      * simpl. by rewrite Hh.
      * simpl. intros Hn. rewrite (Ht Hn). by destruct (p_child_height p).
Qed.

(** An event of [but] whose observation names it. *)
Definition named_event (db : StoreDb) (i : Z) (e : EventRow) (hash : option bytes) : Prop :=
  ∃ x o, event_row db i = Some (e, x) ∧ x_child_hash x = hash ∧
    sd_observations db !! x_observation x = Some o ∧ named_by e x o.

(** The tables while the observation of an event is folded. *)
Record folding (db : StoreDb) (i : Z) : Prop := {
  fo_observations : observations_ok (sd_observations db) (sd_next_observation db);
  fo_rows : rows_ok db;
  fo_links : links_ok {[i]} db;
}.

Lemma store_observation_Ok db i r db' : store_observation db i r = Ok db' ↔
  chk_observation r = true ∧ db' = with_observations db (<[i := r]> (sd_observations db)).
Proof. unfold store_observation. split; [intros Hs; by res_inv|]. intros [Hc ->]. by rewrite Hc. Qed.

(** A change of one observation: the other events keep theirs. *)
Lemma links_with_observation but db i r : links_ok but db →
  (∀ j e x q, j ∉ but → event_row db j = Some (e, x) → x_observation x = i →
     sd_observations db !! i = Some q → linked e x q → linked e x r) →
  links_ok but (with_observations db (<[i := r]> (sd_observations db))).
Proof.
  intros Hl Hk j e x Hj. change (event_row _ j) with (event_row db j) in Hj.
  destruct (Hl _ _ _ Hj) as (q & Hq & Hlink). simpl. destruct (decide (x_observation x = i)) as [Hi|Hi].
  - exists r. rewrite Hi, lookup_insert_eq. split; [done|]. intros Hbut. rewrite Hi in Hq.
    by apply (Hk j e x q); [| | | |apply Hlink].
  - exists q. by rewrite lookup_insert_ne by done.
Qed.

Lemma with_observations_rows db t : rows_ok db → rows_ok (with_observations db t).
Proof. apply same_events_rows. by constructor. Qed.

Lemma fold_promotes db i e x h db' : folding db i → event_row db i = Some (e, x) → is_Some (x_child_hash x) →
  sd_observations db !! x_observation x = Some h → o_source h = e_source_id e →
  find_row (λ _ r, bool_decide (o_source r = e_source_id e) && is_some (x_child_hash x)
                   && bool_decide (o_child_hash r = x_child_hash x)) (sd_observations db) = None →
  store_observation db (x_observation x)
    (with_child_hash h (x_child_hash x) (coalesce (o_child_height h) (e_child_height e))) = Ok db' →
  folding db' i ∧ named_event db' i e (x_child_hash x).
Proof.
  intros [Hobs Hrows Hl] He [hash Hx] Hh Hsrc Hnone [Hchk ->]%store_observation_Ok. split; [split|].
  - simpl. apply (observations_insert _ _ _ _ _ Hobs); [lia|by apply (obs_next _ _ Hobs) in Hh|done|].
    intros j q Hj Hq [Hk1 Hk2]. apply (find_row_None _ _ _ _ Hnone) in Hq. simpl in *. rewrite Hx in *.
    destruct Hk2 as [[_ Hk2]|[? _]]; [|done]. rewrite <- Hk1, Hsrc, <- Hk2 in Hq.
    by rewrite !bool_decide_eq_true_2 in Hq.
  - by apply with_observations_rows.
  - apply links_with_observation; [done|]. intros j f y q Hj Hf Hy _ _. destruct Hj. apply elem_of_singleton.
    apply event_row_Some in Hf as [_ Hf], He as [_ He]. apply (rows_observation _ Hrows j i y x Hf He Hy).
  - exists x. eexists. split_and!; [done|done|simpl; by rewrite lookup_insert_eq|].
    split; simpl; [done|done|]. intros. congruence.
Qed.

Lemma fold_keeps_link e x o h : is_Some (o_child_hash o) → linked e x o → linked e x (fold_observation o h).
Proof.
  intros [c Hc] [[Hs Hh Ht] Hk Hp]. split; [split|..]; simpl; try done. intros Hn. congruence.
Qed.

Lemma delete_observation_Ok db j db' : delete_observation db j = Ok db' →
  (∀ i x, sd_extra db !! i = Some x → x_observation x ≠ j)
  ∧ db' = with_observations db (delete j (sd_observations db)).
Proof. unfold delete_observation. intros Hd. res_inv. by split. Qed.

Lemma observations_delete t n j : observations_ok t n → observations_ok (delete j t) n.
Proof.
  intros [Hn Hc Hu]. split.
  - intros i r [_ Hr]%lookup_delete_Some. eauto.
  - intros i r [_ Hr]%lookup_delete_Some. eauto.
  - intros i k r r' [_ Hr]%lookup_delete_Some [_ Hr']%lookup_delete_Some. eauto.
Qed.

Lemma delete_observation_links but db j db' : links_ok but db → delete_observation db j = Ok db' → links_ok but db'.
Proof.
  intros Hl [Hu ->]%delete_observation_Ok i e x Hi. change (event_row _ i) with (event_row db i) in Hi.
  destruct (Hl _ _ _ Hi) as (o & Ho & Hlink). exists o. split; [|done]. simpl.
  apply event_row_Some in Hi as [_ Hi]. rewrite lookup_delete_ne; [done|]. intros Heq. by apply (Hu _ _ Hi).
Qed.

Definition relinked (x : EventExtra) (j : Z) : EventExtra :=
  mkExtra (x_child_hash x) (x_txid x) (x_outputs_text x) (x_proof x) j.

Lemma link_event_observation_Ok db i j e x db' : event_row db i = Some (e, x) → x_observation x ≠ j →
  link_event_observation db i j = Ok db' →
  chk_event_row db i e (relinked x j) = true ∧ db' = with_event db i e (relinked x j).
Proof.
  intros He Hj. unfold link_event_observation. rewrite He, bool_decide_eq_false_2 by done. apply store_event_Ok.
Qed.

Lemma fold_merges db i e x h j o db' : folding db i → event_row db i = Some (e, x) → is_Some (x_child_hash x) →
  sd_observations db !! x_observation x = Some h → o_child_hash h = None →
  sd_observations db !! j = Some o → o_source o = e_source_id e → o_child_hash o = x_child_hash x →
  (db1 ← store_observation db j (fold_observation o h);
   db2 ← link_event_observation db1 i j;
   delete_observation db2 (x_observation x)) = Ok db' →
  folding db' i ∧ named_event db' i e (x_child_hash x).
Proof.
  intros [Hobs Hrows Hl] He [hash Hx] Hh Hhn Ho Hsrc Hoh Hrun.
  assert (x_observation x ≠ j) as Hne by (intros Heq; rewrite Heq in Hh; congruence).
  apply bind_Ok in Hrun as (db1 & [Hchk ->]%store_observation_Ok & Hrun).
  apply bind_Ok in Hrun as (db2 & Hlink & Hdel).
  apply (link_event_observation_Ok _ _ _ e x) in Hlink as [Hrow ->]; [|done|done].
  set (db1 := with_observations db _) in *. set (db2 := with_event db1 i e _) in *.
  assert (links_ok {[i]} db1) as Hl1.
  { apply links_with_observation; [done|]. intros k f y q _ _ _ Hq. rewrite Ho in Hq. simplify_eq.
    apply fold_keeps_link. rewrite Hoh. eauto. }
  assert (links_ok {[i]} db2) as Hl2.
  { apply (links_with_event _ _ _ _ _ (fold_observation o h)); [done| |set_solver].
    simpl. by rewrite lookup_insert_eq. }
  pose proof (delete_observation_links _ _ _ _ Hl2 Hdel) as Hl3.
  apply delete_observation_Ok in Hdel as [_ ->]. split; [split|]; [| |done|].
  - apply observations_delete. simpl.
    apply (observations_insert _ _ _ _ _ Hobs); [lia|by apply (obs_next _ _ Hobs) in Ho|done|].
    intros k q Hk Hq Hs. destruct Hk. symmetry. apply (obs_unique _ _ Hobs j k o q); try done.
    destruct Hs as [Hs1 Hs2]. split; [done|]. simpl in Hs2. left. rewrite Hoh, Hx in *.
    destruct Hs2 as [?|[? _]]; [done|discriminate].
  - apply with_observations_rows. apply (rows_update db1 i e x); try done. by apply with_observations_rows.
  - exists (relinked x j), (fold_observation o h). split_and!; [| done| |].
    + change (event_row db2 i = Some (e, relinked x j)). unfold db2. rewrite event_row_with_event. by rewrite decide_True.
    + simpl. by rewrite lookup_delete_ne, lookup_insert_eq.
    + split; simpl; [done|done|]. congruence.
Qed.

Lemma fold_ok db i e x h db' : folding db i → event_row db i = Some (e, x) → is_Some (x_child_hash x) →
  sd_observations db !! x_observation x = Some h → o_source h = e_source_id e → o_child_hash h = None →
  fold_hashless_observation db i = Ok db' →
  folding db' i ∧ named_event db' i e (x_child_hash x).
Proof.
  intros Hf He Hx Hh Hs Hn Hfold. unfold fold_hashless_observation in Hfold. rewrite He in Hfold. simpl in Hfold. rewrite Hh in Hfold.
  simpl in Hfold.
  rewrite Hn in Hfold. simpl in Hfold. destruct (find_row _ _) as [[j o]|] eqn:Hr.
  - apply find_row_Some in Hr as [Ho Ha]. rewrite !andb_true_iff, !bool_decide_eq_true in Ha.
    destruct Ha as [[Hsrc _] Hoh]. apply bind_Ok in Hfold as (u & _ & Hfold).
    by apply (fold_merges db i e x h j o).
  - by apply (fold_promotes db i e x h).
Qed.

Lemma promote_Ok db i p r : promote_partial_event db i p = Ok r → ∃ e x,
  let e' := fill_event e (e_child_height e) (Z.max (e_confirmed_at e) (p_confirmed_at p)) p in
  let x' := fill_extra x (p_child_block_hash p) (x_observation x) p in
  event_row db i = Some (e, x) ∧ x_child_hash x = None ∧ e_header_bytes e = p_header_bytes p ∧
  coinbase_agrees e x p = true ∧ chk_event_row db i e' x' = true ∧ r = (i, with_event db i e' x').
Proof.
  unfold promote_partial_event. intros Hp. res_inv.
  match goal with H : event_row _ _ = Some ?r |- _ => destruct r as [e x] end. res_inv.
  match goal with H : store_event _ _ _ _ = _ |- _ => apply store_event_Ok in H as [Hchk ->] end.
  match goal with H : (_ && _) = true |- _ => rewrite !andb_true_iff, bool_decide_eq_true in H; destruct H as [[Hn Hb] Hc] end.
  exists e, x. split_and!; try done. by destruct (x_child_hash x).
Qed.

Lemma fill_existing_Ok db i p r : fill_existing_event db i p = Ok r → ∃ e x hash,
  let e' := fill_event e (e_child_height e) (Z.max (e_confirmed_at e) (p_confirmed_at p)) p in
  let x' := fill_extra x (x_child_hash x) (x_observation x) p in
  event_row db i = Some (e, x) ∧ x_child_hash x = Some hash ∧ e_hash e = p_hash p ∧ e_header_bytes e = p_header_bytes p ∧
  coinbase_agrees e x p = true ∧ chk_event_row db i e' x' = true ∧
  r = (e_child_height e, hash, with_event db i e' x').
Proof.
  unfold fill_existing_event. intros Hp. res_inv.
  match goal with H : event_row _ _ = Some ?r |- _ => destruct r as [e x] end. res_inv.
  match goal with H : store_event _ _ _ _ = _ |- _ => apply store_event_Ok in H as [Hchk ->] end.
  match goal with H : (_ && _) = true |- _ => rewrite !andb_true_iff, !bool_decide_eq_true in H; destruct H as [[Hn Hb] Hc] end.
  eexists e, x, _. by split_and!.
Qed.

(** A partial row that has got its hash: no other row of the source has it. *)
Lemma promote_folding db p hash i e x e' x' : store_ok db → p_child_block_hash p = Some hash →
  exact_event db (e_source_id e) hash = None → event_row db i = Some (e, x) →
  e_id e' = e_id e → e_source_id e' = e_source_id e → x_child_hash x' = Some hash →
  x_observation x' = x_observation x → chk_event_row db i e' x' = true → folding (with_event db i e' x') i.
Proof.
  intros [Hobs Hrows Hl] Hhash Hnone He Hid Hsrc Hx' Hxo Hchk. split; [done| |].
  - apply rows_with_event; try done.
    + rewrite Hid. by apply (rows_chk _ Hrows _ _ _ He).
    + apply event_row_Some in He as [He _]. by apply (rows_next _ Hrows) in He.
    + intros j f y Hj Hf [Hk1 Hk2]. apply (find_event_None _ _ _ _ _ Hnone) in Hf.
      rewrite Hx' in Hk2. destruct Hk2 as [[_ Hk2]|[? _]]; [|discriminate].
      rewrite <- Hk1, <- Hk2 in Hf. by rewrite !bool_decide_eq_true_2 in Hf.
  - destruct (Hl _ _ _ He) as (o & Ho & _).
    apply (links_with_event _ _ _ _ _ o); [|by rewrite Hxo|set_solver].
    intros j f y Hf. destruct (Hl _ _ _ Hf) as (q & Hq & Hlq). exists q. split; [done|]. intros _. apply Hlq. set_solver.
Qed.

(** The partial row a promotion gives its hash. *)
Lemma promote_ok db source p hash i out db' : store_ok db → p_child_block_hash p = Some hash →
  exact_event db source hash = None → (h ← p_child_height p; matching_partial_event_id db source h p) = Some i →
  ('(i, db1) ← promote_partial_event db i p;
   db2 ← fold_hashless_observation db1 i;
   '(observation, db3) ← write_event_observation db2 source (from_event_payload p);
   mret (mkOutcome i observation Promoted true, db3)) = Ok (out, db') →
  store_ok db'.
Proof.
  intros [Hobs Hrows Hl] Hhash Hnone Hi Hrun.
  apply bind_Some in Hi as (height & Ht & [r [Hf ->]]%fmap_Some).
  destruct r as [i [e0 x0]]. apply find_event_Some in Hf as [He Hd]. simpl in Hrun.
  unfold describes in Hd. rewrite !andb_true_iff, !bool_decide_eq_true in Hd. destruct Hd as [[[Hsrc Hth] Hh] _].
  res_pairs. match goal with H : promote_partial_event _ _ _ = _ |- _ =>
    apply promote_Ok in H as (e & xe & He' & Hx & _ & _ & Hchk & [= -> ->]) end.
  rewrite He in He'. simplify_eq.
  match goal with H : fold_hashless_observation ?d _ = Ok ?d' |- _ => set (db1 := d) in *; rename H into Hfold; rename d' into db2 end.
  match goal with H : write_event_observation _ _ _ = _ |- _ => rename H into Hw end.
  destruct (Hl _ _ _ He) as (o & Ho & Hlink). destruct (Hlink ltac:(set_solver)) as [[Hn1 Hn2 _] _ _].
  assert (folding db1 i) as Hfo by (by apply (promote_folding db p hash i e xe)).
  apply (fold_ok _ _ (fill_event e (e_child_height e) (Z.max (e_confirmed_at e) (p_confirmed_at p)) p)
           (fill_extra xe (p_child_block_hash p) (x_observation xe) p) o) in Hfold as [[Hobs2 Hrows2 Hl2] (y & q & Hy & Hyh & Hq & Hnq)];
    [|done|unfold db1; rewrite event_row_with_event; by rewrite decide_True|by rewrite Hhash|done|done|congruence].
  simpl in Hyh.
  destruct (write_event_observation_spec _ _ _ _ _ Hobs2 Hw) as (Hs & Hobs3 & _).
  destruct (write_evidence_links {[i]} db2 _ (from_event_payload p) _ _ (p_hash p) eq_refl eq_refl Hobs2 Hl2 Hw) as [Hl3 Hmine].
  split; [done|by apply (same_events_rows _ _ Hs)|].
  intros j f z Hj. destruct (Hl3 _ _ _ Hj) as (q' & Hq' & Hlq). exists q'. split; [done|]. intros _.
  destruct (decide (j = i)) as [->|Hne]; [|apply Hlq; set_solver].
  rewrite (same_events_row _ _ _ Hs), Hy in Hj. simplify_eq.
  destruct (Hmine _ _ _ _ Hy Hq Hnq) as (Hz & r & Hr & Hlr); simpl; try done.
  - rewrite Hyh, Hhash. discriminate.
  - by rewrite Hyh, Hhash.
  - rewrite Hz in Hq'. by simplify_eq.
Qed.

Lemma hashless_ok db source p out db' : store_ok db → p_child_block_hash p = None →
  upsert_hashless_event db source p (from_event_payload p) = Ok (out, db') → store_ok db'.
Proof.
  intros Hok Hhash Hu. unfold upsert_hashless_event in Hu. res_pairs.
  destruct (matching_exact_event_ids _ _ _ _) as [|i [|]] eqn:Hm; res_pairs; [match goal with H : insert_event _ _ _ _ _ _ = _ |- _ => by apply insert_event_ok in H end|].
  match goal with H : fill_existing_event _ _ _ = _ |- _ =>
    apply fill_existing_Ok in H as (e & xe & hash & He & Hx & Hh & _ & _ & Hchk & [= -> -> ->]) end.
  match goal with H : write_event_observation ?d _ ?o = _ |- _ => set (db1 := d) in *; set (obs := o) in *; rename H into Hw end.
  destruct Hok as [Hobs Hrows Hl]. destruct (Hl _ _ _ He) as (o & Ho & Hlink).
  destruct (Hlink ltac:(set_solver)) as [[Hn1 Hn2 _] Hk Hp].
  assert (rows_ok db1) as Hrows1 by (by apply (rows_update _ _ e xe)).
  assert (links_ok ∅ db1) as Hl1.
  { apply (links_with_event _ _ _ _ _ o); [done|done|]. intros _. split; [split|..]; try done. simpl. congruence. }
  destruct (write_event_observation_spec db1 _ _ _ _ Hobs Hw) as (Hs & Hobs3 & _).
  destruct (write_evidence_links ∅ db1 source obs _ _ (p_hash p) eq_refl eq_refl Hobs Hl1 Hw) as [Hl3 _].
  split; [done|by apply (same_events_rows _ _ Hs)|done].
Qed.

Lemma upsert_event_ok db source p out db' : store_ok db →
  upsert_merge_mining_event db source p = Ok (out, db') → store_ok db'.
Proof.
  intros Hok Hu. unfold upsert_merge_mining_event in Hu.
  apply bind_Ok in Hu as (? & _ & Hu). apply bind_Ok in Hu as (? & _ & Hu). cbv zeta in Hu.
  destruct (p_child_block_hash p) as [hash|] eqn:Hhash; [|by apply hashless_ok in Hu].
  destruct (exact_event_parent_input db source hash) as [input|] eqn:He; simpl in Hu.
  - apply insert_event_ok in Hu; try done. simpl. by rewrite Hhash.
  - destruct (p_child_height p ≫= _) as [i|] eqn:Hi.
    + apply (promote_ok db source p hash i out); try done.
      unfold exact_event_parent_input in He. by apply fmap_None in He.
    + apply insert_event_ok in Hu; try done. simpl. by rewrite Hhash.
Qed.

(** The columns the invariant reads are those of the rows. *)
Lemma sync_ok db i : store_ok db → store_ok (sync_event_observation_attribution db i).
Proof.
  intros [Hobs Hrows Hl]. unfold sync_event_observation_attribution.
  set (keys := attributed_identities db i). destruct (insert_child_identities_same db keys) as (Hs & Ho & Hn).
  set (db1 := insert_child_identities db keys) in *.
  assert (store_ok db1) as [Hobs1 Hrows1 Hl1].
  { split; [by rewrite Ho, Hn|by apply (same_events_rows _ _ Hs)|]. intros j e x. rewrite (same_events_row _ _ _ Hs), Ho. apply Hl. }
  destruct (sd_extra db1 !! i ≫= _) as [[j o]|] eqn:Hj; [|by split].
  apply bind_Some in Hj as (x & Hx & Hj). apply bind_Some in Hj as (q & Hq & [= <- ->]).
  split; [|by apply with_observations_rows|].
  - simpl. apply (observations_insert _ _ _ _ _ Hobs1); [lia|by apply (obs_next _ _ Hobs1) in Hq| |].
    + by apply (obs_chk _ _ Hobs1) in Hq.
    + intros k r Hk Hr Hkey. destruct Hk. symmetry. by apply (obs_unique _ _ Hobs1 _ _ o r).
  - apply links_with_observation; [done|]. intros k e y r _ _ _ Hr. simpl in *. rewrite Hq in Hr. simplify_eq.
    intros [[]]. by repeat split.
Qed.

Lemma attributions_ok db i l now db' : store_ok db → upsert_event_pool_attributions db i l now = Ok db' → store_ok db'.
Proof. intros [Hobs [H1 H2 H3 H4 H5] Hl] Hu. unfold upsert_event_pool_attributions in Hu. res_inv. split; [done|by split|done]. Qed.

Lemma with_provenance_row db i k v j e x : event_row (with_provenance db i k v) j = Some (e, x) →
  ∃ e0 reason, event_row db j = Some (e0, x) ∧ e = with_relevance e0 reason ∨ event_row db j = Some (e, x).
Proof.
  rewrite event_row_Some. intros [He Hx]. simpl in He, Hx.
  apply lookup_alter_Some in He as [(-> & e0 & He & ->)|[_ He]].
  - exists e0. eexists. left. rewrite event_row_Some. by split.
  - exists e, None. right. by rewrite event_row_Some.
Qed.

Lemma with_relevance_row db i k v : ∀ j,
  event_row (with_provenance db i k v) j =
  (λ '(e, x), (if decide (i = j) then with_relevance e (joined_relevance (<[k := (i, v)]> (sd_provenance db)) i) else e, x))
    <$> event_row db j.
Proof.
  intros j. unfold event_row, with_provenance. simpl. case_decide as Hj.
  - subst. rewrite lookup_alter_eq. by destruct (sd_events db !! j), (sd_extra db !! j).
  - rewrite lookup_alter_ne by done. by destruct (sd_events db !! j), (sd_extra db !! j).
Qed.

Lemma with_provenance_ok db i k v : store_ok db → store_ok (with_provenance db i k v).
Proof.
  intros [Hobs [Hd Hn Hc Hu Ho] Hl].
  assert (∀ j e x, event_row (with_provenance db i k v) j = Some (e, x) →
    ∃ e0 reason, event_row db j = Some (e0, x) ∧ (e = e0 ∨ e = with_relevance e0 reason)) as Hrow.
  { intros j e x. rewrite with_relevance_row. intros [[e0 x0] [He Heq]]%fmap_Some.
    exists e0. eexists. case_decide; simplify_eq; split; eauto. }
  split; [done| |].
  - split.
    + simpl. by rewrite dom_alter_L.
    + intros j e He. simpl in He. apply lookup_alter_Some in He as [(-> & e0 & He & _)|[_ He]]; by apply Hn in He.
    + intros j e x (e0 & reason & He & [->| ->])%Hrow; by apply Hc in He.
    + intros j j' e x e' x' (e0 & r0 & He & Heq)%Hrow (e1 & r1 & He1 & Heq1)%Hrow Hk.
      apply (Hu j j' e0 x e1 x' He He1). destruct Heq as [->| ->], Heq1 as [->| ->]; done.
    + done.
  - intros j e x (e0 & reason & He & Heq)%Hrow. destruct (Hl _ _ _ He) as (o & Hlo & Hlink).
    exists o. split; [done|]. intros Hj. destruct (Hlink Hj) as [[]]. by destruct Heq as [->| ->].
Qed.

Lemma provenance_ok db i v db' : store_ok db → upsert_historical_event_provenance db i v = Ok db' → store_ok db'.
Proof.
  intros Hok Hu. unfold upsert_historical_event_provenance in Hu.
  apply bind_Ok in Hu as (? & _ & Hu). apply bind_Ok in Hu as (? & _ & Hu). cbv zeta in Hu.
  destruct (sd_provenance db !! _); res_inv; [done|]. by apply with_provenance_ok.
Qed.

Lemma upsert_with_attributions_ok db source p out db' : store_ok db →
  upsert_merge_mining_event_with_attributions db source p = Ok (out, db') → store_ok db'.
Proof.
  intros Hok Hu. unfold upsert_merge_mining_event_with_attributions in Hu. res_pairs. apply sync_ok.
  match goal with H : upsert_merge_mining_event _ _ _ = _ |- _ => apply upsert_event_ok in H as Hok1; [|done] end.
  match goal with H : upsert_event_pool_attributions _ _ _ _ = _ |- _ => apply attributions_ok in H as Hok2; [|done] end.
  destruct (p_provenance p); res_inv; [by eapply provenance_ok|done].
Qed.

(** No event is linked to the observation a write would change. *)
Definition unbacked (db : StoreDb) (source : Z) (o : ChildBlockObservation) : Prop :=
  ∀ i e x q, event_row db i = Some (e, x) → sd_observations db !! x_observation x = Some q →
    arbiter source o q = false.
(** An unauthenticated answer about a child block. *)
Definition unauthenticated (k : ObservationKind) : Prop := k = ObsNotMergeMined ∨ k = ObsUnverifiedParent.

(** A write that may not touch the observation of an event keeps every link. *)
Lemma write_observation_guarded db source o w db' : store_ok db →
  (∀ j e x q ids, event_row db j = Some (e, x) → sd_observations db !! x_observation x = Some q → linked e x q →
     arbiter source o q = true → observation_where q (excluded_observation source o ids) = true → False) →
  write_observation db source o = Ok (w, db') → store_ok db'.
Proof.
  intros [Hobs Hrows Hl] Hg Hw. pose proof (write_observation_ok _ _ _ _ _ Hobs Hw) as Hobs1.
  apply write_observation_spec in Hw as [Hs Hspec]; [|done].
  split; [done|by apply (same_events_rows _ _ Hs)|]. intros j e x. rewrite (same_events_row _ _ _ Hs). intros Hj.
  destruct (Hl _ _ _ Hj) as (q & Hq & Hlink). destruct w as [i|]; [|destruct Hspec as [-> _]; eauto].
  destruct Hspec as (r & -> & Hr & _). destruct (decide (x_observation x = i)) as [Hi|Hne].
  - exfalso. rewrite <- Hi, Hq in Hr. destruct (wr_old _ _ _ _ Hr q eq_refl) as (ids & Hqs & Hqh & Hqt & Hwhere & _).
    pose proof (Hlink ltac:(set_solver)) as Hlk. apply (Hg j e x q ids Hj Hq Hlk); [|done]. unfold arbiter.
    destruct (ob_child_block_hash o) as [h|]; simpl; [apply same_identity_Exact; split_and!; eauto|].
    destruct (Hqt eq_refl) as [Ht Hp]. apply same_identity_Partial. destruct Hlk as [[_ Hh Hth] _ Hpar].
    assert (is_Some (o_child_height q)) as Hsome.
    { destruct (rows_chk _ Hrows _ _ _ Hj) as [_ Hchk]. unfold chk_event_columns in Hchk.
      rewrite Hqh in Hh. rewrite <- Hh in Hchk. simpl in Hchk. apply andb_prop in Hchk as [_ Hchk].
      rewrite (Hth (eq_sym Hh)). by apply is_some_true. }
    split_and!; try done; [by rewrite <- Ht|by rewrite <- Hp, Hpar].
  - exists q. rewrite lookup_insert_ne by done. eauto.
Qed.

Lemma write_observation_store_ok db source o w db' : store_ok db →
  unauthenticated (ob_kind o) ∨ unbacked db source o →
  write_observation db source o = Ok (w, db') → store_ok db'.
Proof.
  intros Hok Hg. apply write_observation_guarded; [done|]. intros j e x q ids Hj Hq Hlink Ha Hwhere.
  destruct Hg as [Hun|Hun]; [|specialize (Hun j e x q Hj Hq); congruence].
  unfold observation_where in Hwhere. apply andb_prop in Hwhere as [_ Hk]. simpl in Hk.
  destruct Hlink as [_ Hkind _]. destruct Hun as [Hun|Hun]; rewrite Hun in Hk; simpl in Hk; by rewrite Hkind in Hk.
Qed.

(** A parent no event attests: its observation is not the one of an event. *)
Lemma write_observation_elsewhere db source o w db' parent : store_ok db → ob_parent_hash o = Some parent →
  (∀ i e x, event_row db i = Some (e, x) → e_hash e ≠ parent) →
  write_observation db source o = Ok (w, db') → store_ok db'.
Proof.
  intros Hok Hp Hn. apply write_observation_guarded; [done|]. intros j e x q ids Hj Hq [_ _ Hpar] _ Hwhere.
  unfold observation_where in Hwhere. apply andb_prop in Hwhere as [[Hag _]%andb_prop _]. simpl in Hag.
  rewrite Hpar, Hp in Hag. simpl in Hag. apply (Hn j e x Hj). by apply bool_decide_eq_true in Hag.
Qed.

Lemma delete_events_row db ids j e x : event_row (delete_events db ids) j = Some (e, x) ↔ event_row db j = Some (e, x) ∧ j ∉ ids.
Proof.
  rewrite !event_row_Some. simpl. rewrite !map_lookup_filter_Some. simpl. tauto.
Qed.

Lemma delete_events_rows db ids : rows_ok db → rows_ok (delete_events db ids).
Proof.
  intros [Hd Hn Hc Hu Ho]. split.
  - apply set_eq. intros j. simpl. rewrite !elem_of_dom.
    assert (is_Some (sd_events db !! j) ↔ is_Some (sd_extra db !! j)) as Hiff by (rewrite <- !elem_of_dom; by rewrite Hd).
    split; intros [y [Hy Hj]%map_lookup_filter_Some]; simpl in Hj.
    + destruct (proj1 Hiff ltac:(eauto)) as [z Hz]. exists z. by apply map_lookup_filter_Some.
    + destruct (proj2 Hiff ltac:(eauto)) as [z Hz]. exists z. by apply map_lookup_filter_Some.
  - simpl. intros j e [He _]%map_lookup_filter_Some. by apply Hn in He.
  - intros j e x [He _]%delete_events_row. by apply Hc.
  - intros i j e x e' x' [He _]%delete_events_row [He' _]%delete_events_row. by apply Hu.
  - simpl. intros i j x y [Hx _]%map_lookup_filter_Some [Hy _]%map_lookup_filter_Some. by apply Ho.
Qed.

Lemma observations_filter (P : Z * ObservationRow → Prop) `{!∀ r, Decision (P r)} t n :
  observations_ok t n → observations_ok (filter P t) n.
Proof.
  intros [Hn Hc Hu]. split.
  - intros i r [Hr _]%map_lookup_filter_Some. eauto.
  - intros i r [Hr _]%map_lookup_filter_Some. eauto.
  - intros i k r r' [Hr _]%map_lookup_filter_Some [Hr' _]%map_lookup_filter_Some. eauto.
Qed.

(** Deleting the events a test selects. *)
Definition selected (P : EventRow → EventExtra → bool) (db : StoreDb) : list (Z * (EventRow * EventExtra)) :=
  filter (λ r, P r.2.1 r.2.2 = true) (event_rows db).

Lemma elem_of_selected P db j e x : (j, (e, x)) ∈ selected P db ↔ event_row db j = Some (e, x) ∧ P e x = true.
Proof. unfold selected. rewrite list_elem_of_filter, elem_of_event_rows. simpl. tauto. Qed.

Lemma event_rows_sublist db : sublist (fst <$> event_rows db) (fst <$> map_to_list (sd_events db)).
Proof.
  unfold event_rows. induction (map_to_list (sd_events db)) as [|[i e] l IH]; [done|]. csimpl.
  destruct (sd_extra db !! i); csimpl; by constructor.
Qed.
Lemma selected_ids_NoDup P db : NoDup (fst <$> selected P db).
Proof.
  eapply sublist_NoDup; [apply (NoDup_fst_map_to_list (sd_events db))|].
  etrans; [apply fmap_sublist, sublist_filter|apply event_rows_sublist].
Qed.

Lemma delete_selected_row P db j e x :
  event_row (delete_events db (list_to_set (fst <$> selected P db))) j = Some (e, x) ↔
  event_row db j = Some (e, x) ∧ P e x = false.
Proof.
  rewrite delete_events_row, elem_of_list_to_set, list_elem_of_fmap.
  split; intros [He Hin]; (split; [done|]).
  - apply not_true_iff_false. intros Hc. apply Hin. exists (j, (e, x)). split; [done|]. by apply elem_of_selected.
  - intros ([i [f y]] & -> & [Hf Hc]%elem_of_selected). simpl in *. rewrite He in Hf. simplify_eq. congruence.
Qed.

(** The deletion of events and of some observations, none of which another event names. *)
Lemma delete_events_store_ok (P : Z * ObservationRow → Prop) `{!∀ r, Decision (P r)} db ids : store_ok db →
  map_Forall (λ _ y, is_Some (filter P (sd_observations db) !! x_observation y)) (sd_extra (delete_events db ids)) →
  store_ok (with_observations (delete_events db ids) (filter P (sd_observations db))).
Proof.
  intros [Hobs Hrows Hl] Hfk. split.
  - simpl. by apply observations_filter.
  - by apply with_observations_rows, delete_events_rows.
  - intros j e x Hj. change (event_row (with_observations ?d _) j) with (event_row d j) in Hj.
    pose proof Hj as [Hj' _]%delete_events_row. destruct (Hl _ _ _ Hj') as (o & Ho & Hlink).
    exists o. split; [|done]. apply event_row_Some in Hj as [_ Hj]. destruct (Hfk _ _ Hj) as [q Hq].
    etrans; [exact Hq|]. apply map_lookup_filter_Some in Hq as [Hq _]. congruence.
Qed.

(** The retraction deletes exactly the events of the child block. *)
Lemma delete_child_block_spec db source height hash parent n db' :
  delete_child_block_events db source height hash parent = Ok (n, db') →
  (∀ j e x, event_row db' j = Some (e, x) ↔
     event_row db j = Some (e, x) ∧ child_block_event source height hash parent e x = false) ∧
  (∀ j o, sd_observations db' !! j = Some o → sd_observations db !! j = Some o) ∧
  (∀ j o, sd_observations db !! j = Some o → is_Some (o_child_hash o) → sd_observations db' !! j = Some o).
Proof.
  unfold delete_child_block_events. intros Hd. res_inv. split_and!.
  - intros j e x. change (event_row (with_observations ?d _) j) with (event_row d j). apply delete_selected_row.
  - simpl. by intros j o [Ho _]%map_lookup_filter_Some.
  - simpl. intros j o Ho Hs. apply map_lookup_filter_Some. split; [done|]. simpl. intros [_ Hn]. rewrite Hn in Hs. by destruct Hs.
Qed.

Lemma delete_child_block_ok db source height hash parent n db' : store_ok db →
  delete_child_block_events db source height hash parent = Ok (n, db') → store_ok db'.
Proof. intros Hok Hd. unfold delete_child_block_events in Hd. res_inv. by apply delete_events_store_ok. Qed.

(** ** Evidence *)

(** A known value is kept. *)
Definition kept {A} (a b : option A) : Prop := ∀ v, a = Some v → b = Some v.
Lemma kept_coalesce {A} (a b : option A) : kept a (coalesce a b).
Proof. by intros v ->. Qed.
Lemma kept_agrees {A} `{EqDecision A} (a b : option A) : agrees a b = true → kept b (coalesce a b).
Proof. intros Ha v ->. destruct a as [w|]; [|done]. simpl. f_equal. by apply (proj1 (agrees_true _ _) Ha). Qed.
Lemma kept_refl {A} (a : option A) : kept a a.
Proof. by intros v. Qed.
#[local] Hint Resolve kept_coalesce kept_agrees kept_refl : core.

(** The row keeps its evidence, its verdict and its revocation. *)
Record row_kept (e : EventRow) (x : EventExtra) (e' : EventRow) (x' : EventExtra) : Prop := {
  rk_identity : (e_id e', e_source_id e') = (e_id e, e_source_id e);
  rk_header : (e_hash e', e_prev_hash e', e_header_bytes e', e_header_time e')
              = (e_hash e, e_prev_hash e, e_header_bytes e, e_header_time e);
  rk_verdict : (e_kind e', e_height e', e_pow e', e_difficulty_ok e') = (e_kind e, e_height e, e_pow e, e_difficulty_ok e);
  rk_revoked : (e_revoked_at e', e_revocation_reason e') = (e_revoked_at e, e_revocation_reason e);
  rk_discovered : e_discovered_at e' = e_discovered_at e;
  rk_confirmed : e_confirmed_at e ≤ e_confirmed_at e';
  rk_child : kept (e_child_height e) (e_child_height e') ∧ kept (x_child_hash x) (x_child_hash x');
  rk_coinbase : kept (e_script e) (e_script e') ∧ kept (e_outputs e) (e_outputs e') ∧ kept (e_tx_bytes e) (e_tx_bytes e')
                ∧ kept (x_txid x) (x_txid x') ∧ kept (x_proof x) (x_proof x');
}.

(** The row has the evidence of the payload. *)
Record row_carries (p : MergeMiningEventPayload) (e : EventRow) (x : EventExtra) : Prop := {
  rc_header : (e_hash e, e_header_bytes e) = (p_hash p, p_header_bytes p);
  rc_child : kept (p_child_height p) (e_child_height e) ∧ kept (p_child_block_hash p) (x_child_hash x);
  rc_coinbase : kept (p_script p) (e_script e) ∧ kept (p_outputs p) (e_outputs e) ∧ kept (p_tx_bytes p) (e_tx_bytes e)
                ∧ kept (p_txid p) (x_txid x);
  rc_confirmed : p_provenance p = None → p_confirmed_at p ≤ e_confirmed_at e;
}.

(** One event changes: it keeps what it had and carries the payload. *)
Record joined (p : MergeMiningEventPayload) (db : StoreDb) (i : Z) (db' : StoreDb) : Prop := {
  jo_others : ∀ j, j ≠ i → event_row db' j = event_row db j;
  jo_carries : ∃ e x, event_row db' i = Some (e, x) ∧ row_carries p e x ∧
    ∀ e0 x0, event_row db i = Some (e0, x0) → row_kept e0 x0 e x;
}.

Lemma fill_kept e x height confirmed hash obs p : kept (e_child_height e) height → kept (x_child_hash x) hash →
  e_confirmed_at e ≤ confirmed → row_kept e x (fill_event e height confirmed p) (fill_extra x hash obs p).
Proof. intros. by repeat split; simpl. Qed.

Lemma fill_carries e x height confirmed hash obs p : e_hash e = p_hash p → e_header_bytes e = p_header_bytes p →
  kept (p_child_height p) height → kept (p_child_block_hash p) hash → coinbase_agrees e x p = true →
  (p_provenance p = None → p_confirmed_at p ≤ confirmed) →
  row_carries p (fill_event e height confirmed p) (fill_extra x hash obs p).
Proof.
  intros Hh Hb Ht Hx Hc Hconf. unfold coinbase_agrees in Hc. rewrite !andb_true_iff in Hc. destruct Hc as [[[? ?] ?] ?].
  split; simpl; [congruence|by split| |done]. split_and!; by apply kept_agrees.
Qed.

Lemma joined_with_event p db db1 i e x : same_events db db1 → row_carries p e x →
  (∀ e0 x0, event_row db i = Some (e0, x0) → row_kept e0 x0 e x) → joined p db i (with_event db1 i e x).
Proof.
  intros Hs Hc Hk. split.
  - intros j Hj. rewrite event_row_with_event, decide_False by done. by apply same_events_row.
  - exists e, x. rewrite event_row_with_event, decide_True by done. done.
Qed.

Lemma joined_same_rows p db i db1 db2 : joined p db i db1 → (∀ j, event_row db2 j = event_row db1 j) → joined p db i db2.
Proof.
  intros [Ho (e & x & He & Hc)] Hs. split.
  - intros j Hj. rewrite Hs. auto.
  - exists e, x. by rewrite Hs.
Qed.

Lemma insert_event_joined db source p exactness previous o out db' : store_ok db → arbiter_fits exactness p →
  insert_event db source p exactness previous o = Ok (out, db') → joined p db (ow_event_id out) db'.
Proof.
  intros [Hobs Hrows _] Hfit Hi. apply insert_event_inv in Hi as (observation & db1 & _ & Hs & Hcase); [|done].
  destruct Hcase as [(_ & _ & -> & ->)|(i & e & x & He & Ha & Hagree & _ & -> & ->)]; simpl.
  - apply (joined_same_rows _ _ _ (with_event db1 (sd_next_event db) (new_event (sd_next_event db) source p) (new_extra observation p))).
    + apply joined_with_event; [done|by repeat split|]. intros e0 x0 [He _]%event_row_Some.
      apply (rows_next _ Hrows) in He. lia.
    + done.
  - destruct (event_arbiter_true _ _ _ _ _ Hfit Ha) as (_ & Hx & _).
    unfold conflict_agrees in Hagree. rewrite !andb_true_iff, !bool_decide_eq_true in Hagree.
    destruct Hagree as [[[Hh Hb] Ht] Hc]. apply joined_with_event; [done| |].
    + apply fill_carries; try done; [by apply kept_agrees|by rewrite Hx|].
      unfold conflict_confirmed_at. intros ->. simpl. lia.
    + intros e0 x0 He0. rewrite He in He0. simplify_eq. apply fill_kept; [done|done|].
      unfold conflict_confirmed_at. destruct (is_some _); lia.
Qed.

Lemma fold_rows db i db' : fold_hashless_observation db i = Ok db' →
  (∀ j, j ≠ i → event_row db' j = event_row db j) ∧
  ∀ e x, event_row db i = Some (e, x) → ∃ k, event_row db' i = Some (e, relinked x k).
Proof.
  unfold fold_hashless_observation. intros Hf. apply bind_Ok in Hf as ([e x] & He & Hf). apply ok_or_Ok in He.
  assert (∀ d, (∀ j, event_row d j = event_row db j) → (∀ j, j ≠ i → event_row d j = event_row db j) ∧
    ∀ e x, event_row db i = Some (e, x) → ∃ k, event_row d i = Some (e, relinked x k)) as Hsame.
  { intros d Hd. split; [auto|]. intros f y Hf'. exists (x_observation y). rewrite Hd, Hf'. by destruct y. }
  destruct (opt_filter _ _) as [h|]; [|res_inv; by apply Hsame].
  destruct (find_row _ _) as [[j o]|]; [|apply store_observation_Ok in Hf as [_ ->]; by apply Hsame].
  res_inv. match goal with H : store_observation _ _ _ = _ |- _ => apply store_observation_Ok in H as [_ ->] end.
  match goal with H : delete_observation _ _ = _ |- _ => apply delete_observation_Ok in H as [_ ->] end.
  match goal with H : link_event_observation _ _ _ = _ |- _ => rename H into Hlink end.
  unfold link_event_observation in Hlink. change (event_row (with_observations db _) i) with (event_row db i) in Hlink.
  rewrite He in Hlink. case_bool_decide as Hk; res_inv; [by apply Hsame|]. apply store_event_Ok in Hlink as [_ ->].
  split.
  - intros k Hk'. change (event_row (with_observations ?d _) k) with (event_row d k). rewrite event_row_with_event.
    by rewrite decide_False.
  - intros f y Hf. rewrite He in Hf. simplify_eq. exists j.
    change (event_row (with_observations ?d _) i) with (event_row d i). rewrite event_row_with_event. by rewrite decide_True.
Qed.

Lemma write_event_observation_same db source o i db' :
  write_event_observation db source o = Ok (i, db') → same_events db db'.
Proof.
  unfold write_event_observation, write_observation. destruct (child_identity_ids db o) as [ids db1] eqn:Hi.
  destruct (child_identity_ids_same _ _ _ _ Hi) as ([] & _). intros Hw. apply bind_Ok in Hw as ([w db2] & Hw & Hr). res_inv.
  repeat case_match; res_inv; unfold store_observation in *; res_inv; by constructor.
Qed.

Lemma joined_relinked p db i db1 db2 : joined p db i db1 → (∀ j, j ≠ i → event_row db2 j = event_row db1 j) →
  (∀ e x, event_row db1 i = Some (e, x) → ∃ k, event_row db2 i = Some (e, relinked x k)) → joined p db i db2.
Proof.
  intros [Ho (e & x & He & [] & Hk)] Hs Hi. split; [intros j Hj; rewrite Hs by done; auto|].
  destruct (Hi _ _ He) as [k Hk']. exists e, (relinked x k). split_and!; [done|by split|].
  intros e0 x0 H0. destruct (Hk e0 x0 H0). by split.
Qed.

Lemma promote_joined db source p hash i out db' : p_child_block_hash p = Some hash →
  (h ← p_child_height p; matching_partial_event_id db source h p) = Some i →
  ('(i, db1) ← promote_partial_event db i p;
   db2 ← fold_hashless_observation db1 i;
   '(observation, db3) ← write_event_observation db2 source (from_event_payload p);
   mret (mkOutcome i observation Promoted true, db3)) = Ok (out, db') →
  joined p db (ow_event_id out) db'.
Proof.
  intros Hhash Hi Hrun. apply bind_Some in Hi as (height & Ht & [[i' [e0 x0]] [Hf ->]]%fmap_Some).
  apply find_event_Some in Hf as [He Hd]. simpl in Hrun.
  unfold describes in Hd. rewrite !andb_true_iff, !bool_decide_eq_true in Hd. destruct Hd as [[[Hsrc Hth] Hh] _].
  apply bind_Ok in Hrun as ([i1 db1] & Hp & Hrun).
  apply promote_Ok in Hp as (e & x & He' & Hx & Hb & Hc & _ & [= -> ->]).
  rewrite He in He'. simplify_eq. apply bind_Ok in Hrun as (db2 & Hfold & Hrun).
  apply bind_Ok in Hrun as ([ob db3] & Hw & Hrun). cbv [mret result_ret] in Hrun. simplify_eq. simpl.
  apply (joined_same_rows _ _ _ db2).
  - destruct (fold_rows _ _ _ Hfold) as [Ho Hi]. eapply joined_relinked; [|exact Ho|exact Hi].
    apply joined_with_event; [done| |].
    + apply fill_carries; try done; [by rewrite Ht, Hth|lia].
    + intros f y Hf. rewrite He in Hf. simplify_eq. apply fill_kept; [done|by rewrite Hx|lia].
  - intros j. by apply same_events_row, (write_event_observation_same _ _ _ _ _ Hw).
Qed.

Lemma hashless_joined db source p out db' : store_ok db → p_child_block_hash p = None →
  upsert_hashless_event db source p (from_event_payload p) = Ok (out, db') → joined p db (ow_event_id out) db'.
Proof.
  intros Hok Hhash Hu. unfold upsert_hashless_event in Hu. apply bind_Ok in Hu as (height & Ht & Hu). apply ok_or_Ok in Ht.
  destruct (matching_exact_event_ids db source height p) as [|i [|]] eqn:Hm; [by apply insert_event_joined in Hu| |done].
  apply bind_Ok in Hu as ([[t h] db1] & Hf & Hu).
  apply fill_existing_Ok in Hf as (e & x & hash & He & Hx & Hh & Hb & Hc & _ & [= -> -> ->]).
  apply bind_Ok in Hu as ([ob db2] & Hw & Hu). cbv [mret result_ret] in Hu. simplify_eq. simpl.
  assert (e_child_height e = Some height) as Hth.
  { assert (i ∈ matching_exact_event_ids db source height p) as Hin by (rewrite Hm; set_solver).
    apply list_elem_of_fmap in Hin as ([j [f y]] & -> & [Hd Hin]%list_elem_of_filter). simpl in *.
    apply elem_of_event_rows in Hin. rewrite He in Hin. simplify_eq. unfold describes in Hd.
    rewrite !andb_true_iff, !bool_decide_eq_true in Hd. tauto. }
  eapply joined_same_rows; [|intros j; apply same_events_row, (write_event_observation_same _ _ _ _ _ Hw)].
  apply joined_with_event; [done| |].
  - apply fill_carries; try done; [by rewrite Ht, Hth|by rewrite Hhash|lia].
  - intros e0 x0 He0. rewrite He in He0. simplify_eq. apply fill_kept; [done|done|lia].
Qed.

Lemma upsert_event_joined db source p out db' : store_ok db →
  upsert_merge_mining_event db source p = Ok (out, db') → joined p db (ow_event_id out) db'.
Proof.
  intros Hok Hu. unfold upsert_merge_mining_event in Hu.
  apply bind_Ok in Hu as (? & _ & Hu). apply bind_Ok in Hu as (? & _ & Hu). cbv zeta in Hu.
  destruct (p_child_block_hash p) as [hash|] eqn:Hhash; [|by apply hashless_joined in Hu].
  destruct (exact_event_parent_input db source hash) as [input|] eqn:He; simpl in Hu.
  - apply insert_event_joined in Hu; try done. simpl. by rewrite Hhash.
  - destruct (p_child_height p ≫= _) as [i|] eqn:Hi; [by apply (promote_joined db source p hash i out)|].
    apply insert_event_joined in Hu; try done. simpl. by rewrite Hhash.
Qed.

Lemma sync_rows db i j : event_row (sync_event_observation_attribution db i) j = event_row db j.
Proof.
  unfold sync_event_observation_attribution. set (keys := attributed_identities db i).
  destruct (insert_child_identities_same db keys) as (Hs & _).
  destruct (sd_extra _ !! i ≫= _) as [[k o]|]; [|by apply same_events_row].
  change (event_row (with_observations ?d _) j) with (event_row d j). by apply same_events_row.
Qed.

Lemma joined_provenance p db i db1 v db2 : joined p db i db1 →
  upsert_historical_event_provenance db1 i v = Ok db2 → joined p db i db2.
Proof.
  intros Hj Hu. unfold upsert_historical_event_provenance in Hu.
  apply bind_Ok in Hu as (? & _ & Hu). apply bind_Ok in Hu as (? & _ & Hu). cbv zeta in Hu.
  destruct (sd_provenance db1 !! _); res_inv; [done|].
  destruct Hj as [Ho (e & x & He & [] & Hk)]. split.
  - intros j Hj. rewrite with_relevance_row, <- Ho by done.
    destruct (event_row db1 j) as [[]|]; simpl; [by rewrite decide_False|done].
  - rewrite with_relevance_row, He. simpl. rewrite decide_True by done. eexists _, x. split_and!; [done|by split|].
    intros e0 x0 H0. destruct (Hk e0 x0 H0). by split.
Qed.

Lemma upsert_with_attributions_joined db source p out db' : store_ok db →
  upsert_merge_mining_event_with_attributions db source p = Ok (out, db') → joined p db (ow_event_id out) db'.
Proof.
  intros Hok Hu. unfold upsert_merge_mining_event_with_attributions in Hu.
  apply bind_Ok in Hu as ([o1 db1] & H1 & Hu). apply (upsert_event_joined _ _ _ _ _ Hok) in H1.
  apply bind_Ok in Hu as (db2 & H2 & Hu). apply bind_Ok in Hu as (db3 & H3 & Hu).
  cbv [mret result_ret] in Hu. simplify_eq.
  assert (joined p db (ow_event_id out) db2) as Hj2.
  { apply (joined_same_rows _ _ _ _ _ H1). unfold upsert_event_pool_attributions in H2. by res_inv. }
  apply (joined_same_rows _ _ _ db3); [|intros j; apply sync_rows].
  destruct (p_provenance p); [by eapply joined_provenance|by res_inv].
Qed.


(** ** The invariant along the operations *)

(** The writes of a source. A near is written for a block no event holds; a refused parent
    first deletes the events of its block. *)
Inductive store_step (db : StoreDb) : StoreDb → Prop :=
  | step_event source p out db' :
      upsert_merge_mining_event_with_attributions db source p = Ok (out, db') → store_step db db'
  | step_near source p out db' :
      p_kind p = PkNear → unbacked db source (near_observation p) →
      write_capture db source p = Ok (out, db') → store_step db db'
  | step_child_only source o out db' :
      ob_kind o ≠ ObsNonBitcoinParent → upsert_child_only_observation db source o = Ok (out, db') → store_step db db'
  | step_retract source p hash n db1 out db' :
      p_child_block_hash p = Some hash →
      delete_child_block_events db source (p_child_height p) hash (p_hash p) = Ok (n, db1) →
      upsert_child_only_observation db1 source (non_bitcoin_parent p) = Ok (out, db') → store_step db db'
  | step_attributions i l now db1 :
      upsert_event_pool_attributions_without_stale_cleanup db i l now = Ok db1 →
      store_step db (sync_event_observation_attribution db1 i)
  | step_clear i side source :
      store_step db (sync_event_observation_attribution (delete_event_pool_attributions_for_source db i side source) i).

(** A retraction leaves no event behind the observation it rewrites. *)
Lemma retracted_unbacked db source p hash n db1 : store_ok db → p_child_block_hash p = Some hash →
  delete_child_block_events db source (p_child_height p) hash (p_hash p) = Ok (n, db1) →
  unbacked db1 source (non_bitcoin_parent p).
Proof.
  intros Hok Hhash Hd. pose proof (delete_child_block_ok _ _ _ _ _ _ _ Hok Hd) as [_ _ Hl].
  apply delete_child_block_spec in Hd as (Hev & _). intros i e x q Hi Hq. apply not_true_iff_false.
  intros (Hs & Hh & _)%arbiter_true. simpl in Hh. destruct (Hl _ _ _ Hi) as (o & Ho & Hlink).
  rewrite Hq in Ho. injection Ho as <-. destruct (Hlink ltac:(set_solver)) as [[Hn1 Hn2 _] _ _].
  apply Hev in Hi as [_ Hc]. unfold child_block_event in Hc.
  rewrite (bool_decide_eq_true_2 (e_source_id e = source)), (bool_decide_eq_true_2 (x_child_hash x = Some hash)) in Hc
    by congruence. discriminate Hc.
Qed.

Lemma with_attributions_ok db t : store_ok db → store_ok (with_attributions db t).
Proof. intros [Hobs [H1 H2 H3 H4 H5] Hl]. split; [done|by split|done]. Qed.

Lemma child_only_Ok db source o out db' : upsert_child_only_observation db source o = Ok (out, db') →
  is_child_only (ob_kind o) = true ∧ write_observation db source o = Ok (out, db').
Proof. unfold upsert_child_only_observation. intros Hu. by res_pairs. Qed.

Lemma store_step_ok db db' : store_step db db' → store_ok db → store_ok db'.
Proof.
  intros Hstep Hok.
  destruct Hstep as [source p out db' Hu|source p out db' Hk Hun Hw|source o out db' Hk Hu|source p hash n db1 out db' Hh Hd Hu
                    |i l now db1 Hu|i side source].
  - by apply upsert_with_attributions_ok in Hu.
  - unfold write_capture in Hw. rewrite bool_decide_eq_true_2 in Hw by done. unfold write_event_observation in Hw. res_pairs.
    match goal with H : write_observation _ _ _ = _ |- _ => by apply write_observation_store_ok in H; [|done|right] end.
  - apply child_only_Ok in Hu as [Hc Hw]. apply write_observation_store_ok in Hw; [done|done|]. left.
    unfold unauthenticated. destruct (ob_kind o); simpl in Hc; try done; auto.
  - apply child_only_Ok in Hu as [_ Hw]. apply write_observation_store_ok in Hw; [done|by eapply delete_child_block_ok|].
    right. by eapply retracted_unbacked.
  - apply sync_ok. unfold upsert_event_pool_attributions_without_stale_cleanup in Hu. res_inv. by apply with_attributions_ok.
  - by apply sync_ok, with_attributions_ok.
Qed.

(** C3. In every state the capture writes can reach, a child block has at most one event and
    one observation per source: two events never share a child hash, nor a height and a
    parent without a hash; every event is linked to an observation of its own, which names
    the same child block and records the event's parent as its evidence; and every row
    satisfies its constraints. *)
Theorem store_invariant db db' : rtc store_step db db' → store_ok db → store_ok db'.
Proof. induction 1 as [|db1 db2 db3 Hs _ IH]; [done|]. intros Hok. by apply IH, (store_step_ok db1). Qed.

(** ** What a write reports to the read model *)

(** Nothing of the row changed but the outputs' text, the proof, the transaction bytes and
    the join with the provenance. *)
Record same_inputs (e e' : EventRow) : Prop := {
  si_inputs : parent_input e' = parent_input e;
  si_identity : (e_id e', e_source_id e', e_revocation_reason e') = (e_id e, e_source_id e, e_revocation_reason e);
  si_header : (e_hash e', e_prev_hash e', e_header_bytes e', e_header_time e', e_pow e')
              = (e_hash e, e_prev_hash e, e_header_bytes e, e_header_time e, e_pow e);
}.

(** The previous inputs are those of the exact event of the payload. *)
Definition previous_of (db : StoreDb) (source : Z) (p : MergeMiningEventPayload) (previous : option ParentReadModelInput)
    : Prop :=
  ∀ input, previous = Some input → ∃ hash, p_child_block_hash p = Some hash ∧
    exact_event_parent_input db source hash = Some input.

Definition unchanged_row (p : MergeMiningEventPayload) (db : StoreDb) (out : EventWriteOutcome) (db' : StoreDb) : Prop :=
  ∃ e x e' x', event_row db (ow_event_id out) = Some (e, x) ∧ event_row db' (ow_event_id out) = Some (e', x') ∧
    same_inputs e e' ∧ classification_matches (parent_input e) p = true ∧ ow_disposition out = Updated.

Lemma insert_unchanged db source p exactness previous o out db' : store_ok db → arbiter_fits exactness p →
  previous_of db source p previous → insert_event db source p exactness previous o = Ok (out, db') →
  ow_parent_read_model_changed out = false → unchanged_row p db out db'.
Proof.
  intros [Hobs Hrows _] Hfit Hprev Hi Hch. apply insert_event_inv in Hi as (observation & db1 & _ & Hs & Hcase); [|done].
  destruct Hcase as [(_ & _ & -> & ->)|(i & e & x & He & Ha & _ & _ & -> & ->)]; [discriminate Hch|].
  unfold event_write_outcome in Hch. cbn [ow_parent_read_model_changed orb] in Hch.
  apply orb_false_elim in Hch as [Hp Hc]. apply negb_false_iff in Hp, Hc. apply bool_decide_eq_true in Hp.
  destruct (Hprev _ Hp) as (hash & Hhash & ([j [f y]] & Hf & Hin)%fmap_Some). simpl in Hin.
  apply find_event_Some in Hf as [Hf [Hfs Hfh]%andb_prop]. apply bool_decide_eq_true in Hfs, Hfh.
  destruct (event_arbiter_true _ _ _ _ _ Hfit Ha) as (Hes & Hex & _).
  assert (i = j) as <-.
  { apply (rows_unique _ Hrows i j e x f y He Hf). split; [congruence|]. left. rewrite Hex, Hhash. split; [done|congruence]. }
  rewrite He in Hf. injection Hf as <- <-.
  eexists e, x, _, _. rewrite event_row_with_event, decide_True by done. rewrite <- Hin. by repeat split.
Qed.

Lemma upsert_unchanged db source p out db' : store_ok db → upsert_merge_mining_event db source p = Ok (out, db') →
  ow_parent_read_model_changed out = false → unchanged_row p db out db'.
Proof.
  intros Hok Hu Hch. unfold upsert_merge_mining_event in Hu.
  apply bind_Ok in Hu as (? & _ & Hu). apply bind_Ok in Hu as (? & _ & Hu). cbv zeta in Hu.
  destruct (p_child_block_hash p) as [hash|] eqn:Hhash.
  - destruct (exact_event_parent_input db source hash) as [input|] eqn:He; simpl in Hu.
    + apply insert_unchanged in Hu; try done; [simpl; by rewrite Hhash|]. intros i [= <-]. by exists hash.
    + destruct (p_child_height p ≫= _) as [i|]; [by res_pairs|].
      apply insert_unchanged in Hu; try done. simpl. by rewrite Hhash.
  - unfold upsert_hashless_event in Hu. apply bind_Ok in Hu as (height & _ & Hu).
    destruct (matching_exact_event_ids _ _ _ _) as [|i [|]]; [by apply insert_unchanged in Hu| |done].
    by res_pairs.
Qed.

(** Same inputs in every row. *)
Definition inputs_kept (db db' : StoreDb) : Prop :=
  ∀ i, option_Forall2 (λ r r', same_inputs r.1 r'.1) (event_row db i) (event_row db' i).
Lemma same_inputs_refl e : same_inputs e e.
Proof. by split. Qed.
Lemma inputs_kept_same db db' : (∀ j, event_row db' j = event_row db j) → inputs_kept db db'.
Proof. intros Hr i. rewrite Hr. destruct (event_row db i) as [[]|]; constructor. apply same_inputs_refl. Qed.
Lemma inputs_kept_trans db1 db2 db3 : inputs_kept db1 db2 → inputs_kept db2 db3 → inputs_kept db1 db3.
Proof.
  intros H12 H23 i. specialize (H12 i). specialize (H23 i).
  destruct H12 as [[e1 x1] [e2 x2] [A B C]|]; inversion H23 as [? [e3 x3] [A' B' C']|]; subst; constructor.
  simpl in *. split; congruence.
Qed.
Lemma provenance_inputs db i v db' : upsert_historical_event_provenance db i v = Ok db' → inputs_kept db db'.
Proof.
  intros Hu. unfold upsert_historical_event_provenance in Hu.
  apply bind_Ok in Hu as (? & _ & Hu). apply bind_Ok in Hu as (? & _ & Hu). cbv zeta in Hu.
  destruct (sd_provenance db !! _); res_inv; [by apply inputs_kept_same|].
  intros j. rewrite with_relevance_row. destruct (event_row db j) as [[e x]|]; constructor. simpl. by case_decide.
Qed.

(** A write that reports no change of the read model's inputs updated an event in place,
    and no event of the table differs in a column the parent read model reconciles from:
    child height, verdict, difficulty, coinbase script and outputs, times, revocation and
    header; and the stored verdict is the payload's. *)
Theorem unreported_write_keeps_inputs db source p out db' : store_ok db →
  upsert_merge_mining_event_with_attributions db source p = Ok (out, db') → ow_parent_read_model_changed out = false →
  inputs_kept db db' ∧
  ow_disposition out = Updated ∧
  ∃ e x, event_row db' (ow_event_id out) = Some (e, x) ∧ classification_matches (parent_input e) p = true.
Proof.
  intros Hok Hu Hch. unfold upsert_merge_mining_event_with_attributions in Hu.
  apply bind_Ok in Hu as ([o1 db1] & H1 & Hu). apply bind_Ok in Hu as (db2 & H2 & Hu).
  apply bind_Ok in Hu as (db3 & H3 & Hu). cbv [mret result_ret] in Hu. simplify_eq.
  pose proof (upsert_event_joined _ _ _ _ _ Hok H1) as [Hothers _].
  destruct (upsert_unchanged _ _ _ _ _ Hok H1 Hch) as (e & x & e' & x' & He & He' & Hs & Hc & Hd).
  assert (inputs_kept db (sync_event_observation_attribution db3 (ow_event_id out))) as Hin.
  { apply (inputs_kept_trans _ db1); [|apply (inputs_kept_trans _ db2); [|apply (inputs_kept_trans _ db3)]].
    - intros i. destruct (decide (i = ow_event_id out)) as [->|Hi]; [rewrite He, He'; by constructor|].
      rewrite Hothers by done. by apply inputs_kept_same.
    - apply inputs_kept_same. unfold upsert_event_pool_attributions in H2. by res_inv.
    - destruct (p_provenance p); [by eapply provenance_inputs|res_inv; by apply inputs_kept_same].
    - apply inputs_kept_same. intros j. apply sync_rows. }
  split_and!; [done|done|]. specialize (Hin (ow_event_id out)). rewrite He in Hin.
  inversion Hin as [? [f y] [Hf _ _] Hl Hr|]. simpl in Hf. exists f, y. by rewrite Hf.
Qed.

(** ** Attribution snapshots *)

(** The snapshot keeps a stored row: it is of another event, its source is not touched, or
    its key is listed under its source or, between child payout sources, under either. *)
Definition retained_row (i : Z) (l : list EventPoolAttribution) (k : attribution_key) (r : AttributionRow) : Prop :=
  let '(e, s, n, v) := k in
  e ≠ i ∨ (s, ar_source r) ∉ ((λ a, (at_side a, at_source a)) <$> l) ∨
  ∃ a, a ∈ l ∧ attribution_row_key i a = k ∧
    (at_source a = ar_source r ∨ is_child_payout_source (at_source a) = true ∧ is_child_payout_source (ar_source r) = true).

Lemma elem_of_retained_keys l s source n v : (n, v) ∈ retained_keys l s source ↔
  ∃ a, a ∈ l ∧ (at_side a, at_namespace a, at_matched_value a) = (s, n, v) ∧
    (at_source a = source ∨ is_child_payout_source (at_source a) = true ∧ is_child_payout_source source = true).
Proof.
  unfold retained_keys. rewrite elem_of_app, list_elem_of_fmap.
  destruct (is_child_payout_source source) eqn:Hp; [rewrite list_elem_of_fmap|rewrite elem_of_nil];
    setoid_rewrite list_elem_of_filter; naive_solver.
Qed.

Lemma stale_none_lookup i l groups t k : t !! k = None → foldl (delete_stale_for i l) t groups !! k = None.
Proof.
  revert t. induction groups as [|g groups IH]; intros t Hn; [done|]. simpl. apply IH.
  apply map_lookup_filter_None. by left.
Qed.

Lemma stale_for_lookup i l groups t k r : t !! k = Some r →
  foldl (delete_stale_for i l) t groups !! k =
  if decide (Forall (λ g, stale_attribution i g.1 g.2 (retained_keys l g.1 g.2) k r = false) groups) then Some r else None.
Proof.
  revert t. induction groups as [|g groups IH]; intros t Hk; [done|]. simpl.
  destruct (stale_attribution i g.1 g.2 (retained_keys l g.1 g.2) k r) eqn:Hs.
  - assert (foldl (delete_stale_for i l) (delete_stale_for i l t g) groups !! k = None) as ->.
    { apply stale_none_lookup, map_lookup_filter_None. right. intros r' Hr'. rewrite Hk in Hr'. injection Hr' as <-. simpl. congruence. }
    rewrite decide_False; [done|]. rewrite Forall_cons. rewrite Hs. naive_solver.
  - rewrite IH by (apply map_lookup_filter_Some; by split). apply decide_ext. rewrite Forall_cons. tauto.
Qed.

Lemma delete_stale_lookup i l t k r : t !! k = Some r →
  (delete_stale_event_pool_attributions_for_sources t i l !! k = Some r ↔ retained_row i l k r) ∧
  (delete_stale_event_pool_attributions_for_sources t i l !! k = None ↔ ¬ retained_row i l k r).
Proof.
  intros Hk. unfold delete_stale_event_pool_attributions_for_sources. rewrite (stale_for_lookup _ _ _ _ _ _ Hk).
  assert (Forall (λ g, stale_attribution i g.1 g.2 (retained_keys l g.1 g.2) k r = false)
            (remove_dups ((λ a, (at_side a, at_source a)) <$> l)) ↔ retained_row i l k r) as Hiff.
  2: { case_decide as Hd; rewrite Hiff in Hd; naive_solver. }
  rewrite Forall_forall. setoid_rewrite elem_of_remove_dups. destruct k as [[[e s] n] v]. simpl. split.
  - intros Hall. destruct (decide (e = i)) as [->|]; [right|by left].
    destruct (decide ((s, ar_source r) ∈ (λ a, (at_side a, at_source a)) <$> l)) as [Hin|]; [right|by left].
    specialize (Hall _ Hin). simpl in Hall. rewrite !bool_decide_eq_true_2 in Hall by done. simpl in Hall.
    apply negb_false_iff, bool_decide_eq_true, elem_of_retained_keys in Hall as (a & Ha & Heq & Hs).
    exists a. split; [done|]. unfold attribution_row_key. simplify_eq. done.
  - intros Hr [s' source] Hin. simpl. apply not_true_iff_false. rewrite !andb_true_iff, !bool_decide_eq_true, negb_true_iff.
    intros [[[-> ->] <-] Hnin]. apply bool_decide_eq_false in Hnin.
    destruct Hr as [?|[?|(a & Ha & Hkey & Hs)]]; [done|done|]. destruct Hnin. apply elem_of_retained_keys.
    exists a. unfold attribution_row_key in Hkey. by simplify_eq.
Qed.

(** What the row attributes. *)
Definition attributes (r : AttributionRow) :=
  (ar_pool_id r, ar_pool_identity_id r, ar_match_kind r, ar_source r, ar_confidence r, ar_details r, ar_first_seen_at r).

Lemma upsert_rows_known i l now t t' k r : upsert_event_pool_attribution_rows t i l now = Ok t' →
  t !! k = Some r → is_Some (ar_pool_id r) →
  ∃ r', t' !! k = Some r' ∧ is_Some (ar_pool_id r') ∧ ar_last_seen_at r ≤ ar_last_seen_at r' ∧
    ((∀ a, a ∈ l → attribution_row_key i a = k → at_pool_id a = None) → attributes r' = attributes r).
Proof.
  revert t r. induction l as [|a l IH]; intros t r Hu Hk Hp; simpl in Hu.
  { res_inv. exists r. split_and!; [done|done|lia|done]. }
  apply bind_Ok in Hu as (? & _ & Hu). destruct (decide (attribution_row_key i a = k)) as [Ha|Ha].
  - rewrite Ha, Hk in Hu. set (m := merge_attribution r (new_attribution a now)) in *.
    destruct (IH _ m Hu) as (r' & Hr' & Hp' & Hseen & Hkeep); [by rewrite lookup_insert_eq| |].
    { simpl. by destruct (at_pool_id a). }
    exists r'. split_and!; [done|done|simpl in Hseen; lia|]. intros Hn.
    rewrite Hkeep by (intros b Hb; apply Hn; set_solver).
    specialize (Hn a ltac:(set_solver) Ha). destruct Hp as [pool Hp]. unfold m, merge_attribution, attributes. simpl.
    by rewrite Hn, Hp.
  - destruct (IH _ r Hu) as (r' & Hr' & Hp' & Hseen & Hkeep); [by rewrite lookup_insert_ne|done|].
    exists r'. split_and!; [done|done|done|]. intros Hn. apply Hkeep. intros b Hb. apply Hn. set_solver.
Qed.

Lemma upsert_rows_others i l now t t' k : upsert_event_pool_attribution_rows t i l now = Ok t' →
  (∀ a, a ∈ l → attribution_row_key i a ≠ k) → t' !! k = t !! k.
Proof.
  revert t. induction l as [|a l IH]; intros t Hu Hk; simpl in Hu; [by res_inv|].
  apply bind_Ok in Hu as (? & _ & Hu). rewrite (IH _ Hu) by (intros b Hb; apply Hk; set_solver).
  apply lookup_insert_ne, Hk. set_solver.
Qed.

(** A snapshot of pool attributions never turns a known pool into an unknown one on a row
    it retains: such a row still names a pool, and names the same one, with the same
    identity, source and confidence, unless the snapshot itself names a pool for its key. A
    row of the event whose source the snapshot lists without its key is deleted, and rows
    of other events are untouched. *)
Theorem known_pool_kept db i l now db' k r : upsert_event_pool_attributions db i l now = Ok db' →
  sd_attributions db !! k = Some r →
  (retained_row i l k r → is_Some (ar_pool_id r) → ∃ r', sd_attributions db' !! k = Some r' ∧ is_Some (ar_pool_id r') ∧
     ar_last_seen_at r ≤ ar_last_seen_at r' ∧
     ((∀ a, a ∈ l → attribution_row_key i a = k → at_pool_id a = None) → attributes r' = attributes r)) ∧
  (¬ retained_row i l k r → (∀ a, a ∈ l → attribution_row_key i a ≠ k) → sd_attributions db' !! k = None) ∧
  (k.1.1.1 ≠ i → sd_attributions db' !! k = Some r).
Proof.
  intros Hu Hk. unfold upsert_event_pool_attributions in Hu. apply bind_Ok in Hu as (t & Ht & Hu).
  cbv [mret result_ret] in Hu. injection Hu as <-. destruct (delete_stale_lookup i l _ k r Hk) as [Hs Hn]. split_and!.
  - intros Hr Hp. by apply (upsert_rows_known _ _ _ _ _ _ _ Ht (proj2 Hs Hr)).
  - intros Hr Hl. simpl. rewrite (upsert_rows_others _ _ _ _ _ _ Ht Hl). by apply Hn.
  - intros Hi. simpl. rewrite (upsert_rows_others _ _ _ _ _ k Ht).
    + apply Hs. destruct k as [[[e s] n] v]. by left.
    + intros a _ <-. by apply Hi.
Qed.

Module EventStoreSample.
Import Toy.

Definition empty : StoreDb := mkStoreDb ∅ ∅ 1 ∅ 1 ∅ 1 ∅ ∅ ∅.

(** The height 900000 and its transaction. *)
Definition script : bytes := [x03; xa0; xbb; x0d].
Definition provenance : HistoricalEventProvenance :=
  mkProvenance "operator-csv" "hathor" "full_inventory" "rows.csv" 1 "full_classifier_inventory" "fixture" "unknown"
    None None None None.
Definition tag (pool : option Z) : EventPoolAttribution :=
  mkAttribution SideChildBlock "hathor_address" "exact" "H1" pool None CHILD_COINBASE_OUTPUT_SOURCE ConfHigh Null.

(** A publication's row, without and with the child's hash and the transaction. *)
Definition row (hash tx : option bytes) (pool : option Z) : MergeMiningEventPayload :=
  {| p_child_height := Some 7; p_child_block_hash := hash; p_child_header_bytes := None;
     p_child_block_time := None; p_child_nbits := None; p_child_prev_block_hash := None;
     p_hash := [x01]; p_prev_hash := [x00]; p_header_bytes := [x02]; p_header_time := 0;
     p_height := None; p_kind := PkUnknown; p_pow := true; p_pow_child := None;
     p_difficulty_ok := None; p_provisional := false; p_txid := None; p_script := Some script;
     p_outputs := None; p_outputs_text := None; p_tx_bytes := tx; p_child_txid := None;
     p_child_script := None; p_child_outputs := None; p_proof := None; p_attributions := [tag pool];
     p_discovered_at := 5; p_confirmed_at := 5; p_revoked_at := None; p_revocation_reason := None;
     p_provenance := Some provenance |}.

Definition write (db : StoreDb) (p : MergeMiningEventPayload) : option (EventWriteOutcome * StoreDb) :=
  result_ok (upsert_merge_mining_event_with_attributions db 1 p).
Definition after (db : StoreDb) (p : MergeMiningEventPayload) : StoreDb := default db (snd <$> write db p).
Definition outcome (db : StoreDb) (p : MergeMiningEventPayload) : EventWriteOutcome :=
  default (mkOutcome 0 0 Inserted true) (fst <$> write db p).

Definition hashless : StoreDb := after empty (row None None None).
Definition promoted : StoreDb := after hashless (row (Some [x0a]) None (Some 3)).
Definition refill : MergeMiningEventPayload := row (Some [x0a]) (Some (tx_bytes script)) None.
Definition refilled : StoreDb := after promoted refill.

Lemma write_Ok db p : is_some (write db p) = true →
  upsert_merge_mining_event_with_attributions db 1 p = Ok (outcome db p, after db p).
Proof.
  unfold after, outcome, write. destruct (upsert_merge_mining_event_with_attributions db 1 p) as [[o d]|e]; done.
Qed.

Lemma empty_store_ok : store_ok empty.
Proof.
  split; [split|split|]; simpl; try done; intros i; intros; try by simplify_map_eq.
  all: match goal with H : event_row _ _ = Some _ |- _ => apply event_row_Some in H as [? _] end; by simplify_map_eq.
Qed.

Lemma hashless_store_ok : store_ok hashless.
Proof. apply (upsert_with_attributions_ok empty 1 _ _ _ empty_store_ok (write_Ok empty (row None None None) ltac:(vm_compute; reflexivity))). Qed.
Lemma promoted_store_ok : store_ok promoted.
Proof. apply (upsert_with_attributions_ok _ 1 _ _ _ hashless_store_ok (write_Ok hashless (row (Some [x0a]) None (Some 3)) ltac:(vm_compute; reflexivity))). Qed.

Lemma store_invariant_witness : store_ok promoted ∧ x_child_hash <$> sd_extra promoted !! 1 = Some (Some [x0a]).
Proof.
  split; [|vm_compute; reflexivity]. apply (store_invariant empty); [|exact empty_store_ok].
  eapply rtc_l; [eapply step_event, (write_Ok empty (row None None None)); vm_compute; reflexivity|].
  eapply rtc_once, step_event, (write_Ok hashless (row (Some [x0a]) None (Some 3))). vm_compute. reflexivity.
Defined.


Lemma unreported_write_keeps_inputs_witness :
  ow_parent_read_model_changed (outcome promoted refill) = false ∧
  inputs_kept promoted refilled.
Proof.
  split; [vm_compute; reflexivity|].
  apply (unreported_write_keeps_inputs promoted 1 refill (outcome promoted refill) refilled
           promoted_store_ok); [apply write_Ok|]; vm_compute; reflexivity.
Defined.

Definition key : attribution_key := attribution_row_key 1 (tag None).
Definition base : StoreDb :=
  with_attributions empty
    {[ key := mkAttrRow "exact" (Some 3) None CHILD_COINBASE_OUTPUT_SOURCE ConfHigh Null 1 1;
       (1, SideChildBlock, "hathor_address", "H2") :=
         mkAttrRow "exact" (Some 4) None CHILD_COINBASE_OUTPUT_SOURCE ConfHigh Null 1 1 ]}.
Definition snapshot : result anyhow StoreDb := upsert_event_pool_attributions base 1 [tag None] 5.

Lemma known_pool_kept_witness : ∃ db' r, snapshot = Ok db' ∧ sd_attributions db' !! key = Some r ∧ ar_pool_id r = Some 3.
Proof.
  destruct snapshot as [db'|] eqn:Hu; [|vm_compute in Hu; discriminate Hu].
  destruct (known_pool_kept base 1 [tag None] 5 db' key _ Hu eq_refl) as [Hkept _].
  destruct Hkept as (r & Hr & _ & _ & Hsame).
  { right. right. exists (tag None). split; [apply list_elem_of_here|]. split; [reflexivity|left; reflexivity]. }
  { by eexists. }
  exists db', r. split; [reflexivity|]. split; [exact Hr|].
  specialize (Hsame ltac:(intros a Ha _; apply list_elem_of_singleton in Ha as ->; reflexivity)).
  injection Hsame as Hp _. exact Hp.
Defined.

(** A publication that adds the full coinbase transaction of a Hathor event fills it in, and
    with it the strict height the orphan class of the parent is computed from; the write
    reports that no input of the parent read model changed, so the historical import does
    not enqueue the parent. *)
Theorem filled_transaction_unreported :
  let model db := mkReadModel (sd_events db) ∅ ∅ {[ 1 := mkSource "hathor" "auxpow" ]} ∅ (Err (Other "empty")) in
  ow_parent_read_model_changed (outcome promoted refill) = false ∧
  load_strict_bip34_height (model promoted) [x01] = None ∧
  load_strict_bip34_height (model refilled) [x01] = Some 900000.
Proof. vm_compute. split_and!; reflexivity. Qed.
End EventStoreSample.
