(* ===== verification/ChildHead.v ===== *)
(** * The child chain head

    Models [crates/mmm-store/src/child_displacement.rs]: the block a child chain carries at
    a height. Recording a block writes the row of [child_chain_head], restores the
    observation of the block and displaces the other observations at the height; a
    re-observation repeats the displacement for the block the head already records; a prune
    forgets heads below the rescan window.

    The per-height lock is a session-level lock of the caller, who holds it around the
    operations below; the transaction of a failed operation is rolled back. The digest of
    the Hathor sidecars comes from tables that are not modelled and is a parameter. *)

From stdpp Require Import sorting.
From S2P Require Import Prelude BitcoinLib Effects Errors Reader Auxpow Nbits Lineage Classifier LiveLoop Poller Blocks SyncState CoreQueue Events Reconcile HeaderCache Payload EventStore.

(** [CurrentBlockParent]. *)
Inductive CurrentBlockParent := ParentKnown (parent : bytes) | ParentNoAuxpow | ParentUnknown.

(** [CurrentBlockParent::parent_hash]. *)
Definition parent_hash (p : CurrentBlockParent) : option bytes :=
  match p with ParentKnown h => Some h | ParentNoAuxpow | ParentUnknown => None end.

(** [ChildChainHeadOutcome]. *)
Inductive ChildChainHeadOutcome := HeadCaptured | HeadRecorded | HeadNoAuxpow | HeadUnverified | HeadHeld.
#[global] Instance ChildChainHeadOutcome_eq_dec : EqDecision ChildChainHeadOutcome.
Proof. solve_decision. Defined.

(** [ChildChainHeadOutcome::captured]. *)
Definition head_captured (classification_provisional : bool) : ChildChainHeadOutcome :=
  if classification_provisional then HeadUnverified else HeadCaptured.

Definition outcome_is_final (o : ChildChainHeadOutcome) : bool :=
  match o with HeadCaptured | HeadRecorded | HeadNoAuxpow => true | HeadUnverified | HeadHeld => false end.

Definition outcome_as_db_str (o : ChildChainHeadOutcome) : string :=
  match o with
  | HeadCaptured => "captured"
  | HeadRecorded => "recorded"
  | HeadNoAuxpow => "non_auxpow"
  | HeadUnverified => "unverified"
  | HeadHeld => "held"
  end.

Definition outcome_from_db_str (value : string) : result anyhow ChildChainHeadOutcome :=
  if bool_decide (value = "captured") then mret HeadCaptured
  else if bool_decide (value = "recorded") then mret HeadRecorded
  else if bool_decide (value = "non_auxpow") then mret HeadNoAuxpow
  else if bool_decide (value = "unverified") then mret HeadUnverified
  else if bool_decide (value = "held") then mret HeadHeld
  else Err (Other "unknown child_chain_head outcome").

Inductive EvidenceMarker := NoMarker | HathorSidecars.

Record ChildChainHeadRecord := mkHeadRecord {
  rec_block_hash : bytes;
  rec_parent : CurrentBlockParent;
  rec_outcome : ChildChainHeadOutcome;
  rec_evidence : EvidenceMarker;
  rec_observed_at : Z;
  rec_core_cache_generation : option Z;
}.

Record ChildChainHead := mkChildHead {
  hd_block_hash : bytes;
  hd_parent : option bytes;
  hd_outcome : ChildChainHeadOutcome;
  hd_core_cache_changed : bool;
  hd_evidence_changed : bool;
  hd_observed_at : Z;
}.

(** [ChildChainHead::is_final]. *)
Definition head_is_final (h : ChildChainHead) : bool :=
  outcome_is_final (hd_outcome h) && negb (hd_core_cache_changed h).

Definition current_parent (h : ChildChainHead) : CurrentBlockParent :=
  match hd_parent h, hd_outcome h with
  | Some parent, _ => ParentKnown parent
  | None, HeadNoAuxpow => ParentNoAuxpow
  | None, _ => ParentUnknown
  end.

Record ChildDisplacementOutcome := mkDisplacement { restored : Z; displaced : Z }.

(** ** Displacement *)

Definition with_displaced (o : ObservationRow) (d : option (Z * bytes)) : ObservationRow :=
  {| o_source := o_source o; o_child_height := o_child_height o; o_child_hash := o_child_hash o;
     o_kind := o_kind o; o_child_time := o_child_time o; o_child_header := o_child_header o;
     o_child_nbits := o_child_nbits o; o_child_prev := o_child_prev o;
     o_difficulty_reported := o_difficulty_reported o; o_child_txid := o_child_txid o;
     o_child_script := o_child_script o; o_child_outputs := o_child_outputs o; o_pow_child := o_pow_child o;
     o_parent := o_parent o; o_parent_header := o_parent_header o; o_parent_time := o_parent_time o;
     o_parent_txid := o_parent_txid o; o_parent_script := o_parent_script o;
     o_parent_outputs := o_parent_outputs o; o_identities := o_identities o; o_child_pool := o_child_pool o;
     o_parent_pool := o_parent_pool o; o_recorded_at := o_recorded_at o; o_displaced := d |}.

(** The CTE [candidate]. *)
Definition candidate (source height : Z) (parent : CurrentBlockParent) (o : ObservationRow) : bool :=
  let hashless_decidable := match parent with ParentUnknown => false | _ => true end in
  bool_decide (o_source o = source) && bool_decide (o_child_height o = Some height)
  && negb (negb (is_some (o_child_hash o)) && negb hashless_decidable).
Definition is_current (block_hash : bytes) (parent : CurrentBlockParent) (o : ObservationRow) : bool :=
  bool_decide (o_child_hash o = Some block_hash)
  || negb (is_some (o_child_hash o)) && is_some (parent_hash parent) && bool_decide (o_parent o = parent_hash parent).

(** The new row of an observation the statement updates. *)
Definition displacement_update (source height : Z) (block_hash : bytes) (parent : CurrentBlockParent) (observed_at : Z)
    (o : ObservationRow) : option ObservationRow :=
  if negb (candidate source height parent o) then None
  else if is_current block_hash parent o then
    if is_some (o_displaced o) then Some (with_displaced o None) else None
  else if is_some (o_displaced o) then None else Some (with_displaced o (Some (observed_at, block_hash))).

Definition apply_child_displacement (db : StoreDb) (source height : Z) (block_hash : bytes) (parent : CurrentBlockParent)
    (observed_at : Z) : ChildDisplacementOutcome * StoreDb :=
  let rows := omap (displacement_update source height block_hash parent observed_at) (sd_observations db) in
  let restored := Z.of_nat (size (filter (λ r, o_displaced r.2 = None) rows)) in
  (mkDisplacement restored (Z.of_nat (size rows) - restored), with_observations db (rows ∪ sd_observations db)).

(** ** The head *)

Definition with_heads (db : StoreDb) (t : gmap (Z * Z) HeadRow) : StoreDb :=
  mkStoreDb (sd_events db) (sd_extra db) (sd_next_event db) (sd_observations db) (sd_next_observation db)
    (sd_identities db) (sd_next_identity db) (sd_attributions db) (sd_provenance db) t.

Section heads.
Context (hathor_sidecar_digest : Z → Z → option Z).

(** [EvidenceMarker::current]. *)
Definition marker_current (m : EvidenceMarker) (source height : Z) : option Z :=
  match m with NoMarker => None | HathorSidecars => hathor_sidecar_digest source height end.

Definition load_child_chain_head (c : CacheDb) (db : StoreDb) (source height : Z) (evidence : EvidenceMarker)
    : result anyhow (option ChildChainHead) :=
  match sd_heads db !! (source, height), cd_state c with
  | Some h, Some s =>
      outcome ← outcome_from_db_str (ch_outcome h);
      mret (Some (mkChildHead (ch_block_hash h) (ch_parent h) outcome
                    (ch_generation h <? core_cache_generation s)
                    (negb (bool_decide (ch_evidence_marker h = marker_current evidence source height)))
                    (ch_observed_at h)))
  | _, _ => mret None
  end.

(** The cross join with the state of the cache: no row when the cache has none. *)
Definition upsert_head (c : CacheDb) (db : StoreDb) (source height : Z) (r : ChildChainHeadRecord)
    : result anyhow StoreDb :=
  match cd_state c with
  | None => mret db
  | Some s =>
      _ ← ensure (match parent_hash (rec_parent r) with Some p => (length p =? 32)%nat | None => true end)
            (Other "check constraint of child_chain_head");
      let row := mkHeadRow (rec_block_hash r) (parent_hash (rec_parent r)) (outcome_as_db_str (rec_outcome r))
                   (default (core_cache_generation s) (rec_core_cache_generation r))
                   (marker_current (rec_evidence r) source height) (rec_observed_at r) in
      mret (with_heads db (<[(source, height) := row]> (sd_heads db)))
  end.

Definition record_child_chain_block (c : CacheDb) (db : StoreDb) (source height : Z) (r : ChildChainHeadRecord)
    : result anyhow (ChildDisplacementOutcome * StoreDb) :=
  _ ← ensure (length (rec_block_hash r) =? 32)%nat (Other "child block hash must be 32 bytes");
  db ← upsert_head c db source height r;
  mret (apply_child_displacement db source height (rec_block_hash r) (rec_parent r) (rec_observed_at r)).

Definition record_child_chain_block_in_own_transaction (c : CacheDb) (db : StoreDb) (source height : Z)
    (r : ChildChainHeadRecord) (observation : option ChildBlockObservation)
    : result anyhow (ChildDisplacementOutcome * StoreDb) :=
  '(outcome, db) ← record_child_chain_block c db source height r;
  match observation with
  | None => mret (outcome, db)
  | Some o => '(_, db) ← upsert_child_only_observation db source o; mret (outcome, db)
  end.
End heads.

Definition observed_again (h : HeadRow) (observed_at : Z) : HeadRow :=
  mkHeadRow (ch_block_hash h) (ch_parent h) (ch_outcome h) (ch_generation h) (ch_evidence_marker h) observed_at.

Definition reobserve_child_chain_block_in_own_transaction (db : StoreDb) (source height : Z) (block_hash : bytes)
    (parent : CurrentBlockParent) (observed_at : Z) : result anyhow (ChildDisplacementOutcome * StoreDb) :=
  _ ← ensure (length block_hash =? 32)%nat (Other "child block hash must be 32 bytes");
  h ← ok_or (Other "the child chain head no longer records the re-observed block")
        (opt_filter (λ h, bool_decide (ch_block_hash h = block_hash)) (sd_heads db !! (source, height)));
  let db := with_heads db (<[(source, height) := observed_again h observed_at]> (sd_heads db)) in
  mret (apply_child_displacement db source height block_hash parent observed_at).

(** [locked] holds the heights whose lock another session has. *)
Definition prune_child_chain_heads_below (db : StoreDb) (source floor limit : Z) (locked : gset Z) : Z * StoreDb :=
  let below := omap (λ k, if bool_decide (k.1 = source ∧ k.2 < floor) then Some k.2 else None) (map_to_list (sd_heads db)).*1 in
  let gone := filter (λ h, h ∉ locked) (take (Z.to_nat limit) (merge_sort Z.le below)) in
  (Z.of_nat (length gone), with_heads db (filter (λ r, ¬ (r.1.1 = source ∧ r.1.2 ∈ gone)) (sd_heads db))).

(** [finish_child_chain_height_operation]: the error of the operation wins. *)
Definition finish_child_chain_height_operation {A} (operation : result anyhow A) (unlock : result anyhow unit)
    : result anyhow A :=
  match operation, unlock with
  | Ok a, Ok _ => Ok a
  | Ok _, Err e => Err e
  | Err e, _ => Err e
  end.

(** ** Lemmas *)

Lemma outcome_roundtrip o : outcome_from_db_str (outcome_as_db_str o) = Ok o.
Proof. by destruct o. Qed.

Lemma with_displaced_id o : with_displaced o (o_displaced o) = o.
Proof. by destruct o. Qed.

Section displacement.
Context (source height : Z) (h : bytes) (parent : CurrentBlockParent) (observed_at : Z).
#[local] Abbreviation update := (displacement_update source height h parent observed_at).
#[local] Abbreviation apply db := (apply_child_displacement db source height h parent observed_at).

(** The displacement the observation of a block has once [h] is the block of the height. *)
Definition displacement_of (o : ObservationRow) : option (Z * bytes) :=
  if candidate source height parent o then
    if is_current h parent o then None else Some (default (observed_at, h) (o_displaced o))
  else o_displaced o.

Lemma default_update o : default o (update o) = with_displaced o (displacement_of o).
Proof.
  unfold displacement_update, displacement_of. destruct (candidate _ _ _ _); simpl; [|by rewrite with_displaced_id].
  destruct (is_current _ _ _), (o_displaced o) as [d|] eqn:Hd; simpl; rewrite <-?Hd, ?with_displaced_id; try done.
Qed.

Lemma displacement_lookup db i :
  sd_observations (apply db).2 !! i = (λ o, with_displaced o (displacement_of o)) <$> sd_observations db !! i.
Proof.
  simpl. rewrite lookup_union, lookup_omap. destruct (sd_observations db !! i) as [o|]; simpl; [|done].
  rewrite <-default_update. by destruct (update o).
Qed.

Lemma update_Some o o' : update o = Some o' ↔ o' = with_displaced o (displacement_of o) ∧
  (is_Some (o_displaced o) ↔ displacement_of o = None).
Proof.
  unfold displacement_update, displacement_of. rewrite is_Some_alt.
  destruct (candidate _ _ _ _), (is_current _ _ _), (o_displaced o) as [d|]; simpl; naive_solver.
Qed.

Lemma elem_of_dom_filter (P : Z * ObservationRow → Prop) `{∀ r, Decision (P r)} (t : gmap Z ObservationRow) i :
  i ∈ dom (filter P t) ↔ ∃ o, t !! i = Some o ∧ P (i, o).
Proof. rewrite elem_of_dom. unfold is_Some. by setoid_rewrite map_lookup_filter_Some. Qed.

Lemma size_restored db :
  restored (apply db).1 = Z.of_nat (size (filter (λ r, is_Some (o_displaced r.2) ∧ displacement_of r.2 = None) (sd_observations db))) ∧
  displaced (apply db).1 = Z.of_nat (size (filter (λ r, o_displaced r.2 = None ∧ is_Some (displacement_of r.2)) (sd_observations db))).
Proof.
  simpl. set (t := sd_observations db). set (rows := omap update t).
  set (back := filter (λ r, is_Some _ ∧ _) t). set (gone := filter (λ r, _ ∧ is_Some _) t).
  assert (∀ i o', rows !! i = Some o' ↔ ∃ o, t !! i = Some o ∧ o' = with_displaced o (displacement_of o) ∧
    (is_Some (o_displaced o) ↔ displacement_of o = None)) as Hrows.
  { intros i o'. unfold rows. rewrite lookup_omap, bind_Some. by setoid_rewrite update_Some. }
  assert (dom (filter (λ r, o_displaced r.2 = None) rows) = dom back) as Hb.
  { apply set_eq. intros i. unfold back. rewrite !elem_of_dom_filter. setoid_rewrite Hrows. split.
    - intros (o' & (o & Ho & -> & Hi) & Hn). exists o. simpl in *. tauto.
    - intros (o & Ho & Hs & Hn). exists (with_displaced o (displacement_of o)). simpl in *. split; [|done].
      exists o. tauto. }
  assert (dom rows = dom back ∪ dom gone) as Hr.
  { apply set_eq. intros i. unfold back, gone. rewrite elem_of_union, !elem_of_dom_filter, elem_of_dom. split.
    - intros [o' (o & Ho & -> & Hi)%Hrows]. simpl.
      destruct (o_displaced o) as [d|] eqn:Hd; [left|right]; exists o; simpl; rewrite Hd in *; (split; [done|]).
      + split; [done|]. by apply Hi.
      + split; [done|]. apply not_eq_None_Some. intros Hn. apply Hi in Hn as []. done.
    - intros [(o & Ho & Hs & Hn)|(o & Ho & Hs & [d Hn])]; eexists; apply Hrows; exists o; simpl in *;
        (split_and!; [done|done|]).
      + tauto.
      + rewrite Hs, Hn. split; [by intros []|done]. }
  assert (dom back ## dom gone) as Hdisj.
  { apply elem_of_disjoint. intros i. unfold back, gone. rewrite !elem_of_dom_filter.
    intros (o & Ho & Hs & _) (o' & Ho' & Hn & _). simplify_eq/=. rewrite Hn in Hs. by destruct Hs. }
  rewrite <-!(size_dom (D := gset Z)), Hb, Hr, size_union by done. split; [done|lia].
Qed.
End displacement.

(** Only the displacement of an observation changes, to nothing or to another block. *)
Lemma displacement_of_other source height h parent at' o b : chk_observation o = true →
  snd <$> displacement_of source height h parent at' o = Some b → o_child_hash o ≠ Some b.
Proof.
  unfold displacement_of. intros Hc. assert (∀ d, o_displaced o = Some d → o_child_hash o ≠ Some d.2) as Hold.
  { intros d Hd He. unfold chk_observation in Hc. rewrite !andb_true_iff, Hd, He in Hc.
    destruct Hc as [[_ Hc] _]. simpl in Hc. by rewrite bool_decide_true in Hc. }
  destruct (candidate _ _ _ _); [destruct (is_current _ _ _) eqn:Hi|]; simpl; [done| |].
  - destruct (o_displaced o) as [d|] eqn:Hd; simpl; intros [= <-]; [by apply Hold|].
    unfold is_current in Hi. apply orb_false_iff in Hi as [Hi%bool_decide_eq_false _]. done.
  - destruct (o_displaced o) as [d|] eqn:Hd; simpl; intros [= <-]; by apply Hold.
Qed.

Lemma with_displaced_chk o d : chk_observation o = true → (∀ b, snd <$> d = Some b → o_child_hash o ≠ Some b) →
  chk_observation (with_displaced o d) = true.
Proof.
  unfold chk_observation. simpl. intros Hc Hd. rewrite !andb_true_iff in *.
  destruct Hc as [[Hid _] Hk]. split_and!; [done| |done].
  destruct d as [[t b]|]; simpl; [|done]. rewrite bool_decide_false; [done|]. intros He. by apply (Hd b).
Qed.

Lemma displacement_store_ok db source height h parent at' : store_ok db →
  store_ok (apply_child_displacement db source height h parent at').2.
Proof.
  intros [[Hn Hc Hu] Hr Hl].
  assert (∀ i o, sd_observations (apply_child_displacement db source height h parent at').2 !! i = Some o →
    ∃ o0, sd_observations db !! i = Some o0 ∧ o = with_displaced o0 (displacement_of source height h parent at' o0)) as Hobs.
  { intros i o. rewrite displacement_lookup. intros (o0 & Ho & ->)%fmap_Some. eauto. }
  split.
  - split.
    + intros i o (o0 & Ho & _)%Hobs. by apply Hn in Ho.
    + intros i o (o0 & Ho & ->)%Hobs. apply Hc in Ho. apply with_displaced_chk; [done|]. intros b. by apply displacement_of_other.
    + intros i j o o' (o0 & Ho & ->)%Hobs (o0' & Ho' & ->)%Hobs Hs. exact (Hu _ _ _ _ Ho Ho' Hs).
  - apply (same_events_rows db); [by constructor|done].
  - intros i e x He. change (event_row _ i) with (event_row db i) in He. destruct (Hl i e x He) as (o & Ho & Hlink).
    exists (with_displaced o (displacement_of source height h parent at' o)). rewrite displacement_lookup, Ho.
    split; [done|]. intros Hi. destruct (Hlink Hi) as [[] ? ?]. by repeat constructor.
Qed.

Lemma with_heads_store_ok db t : store_ok db → store_ok (with_heads db t).
Proof. intros [Ho [] Hl]. split; [done|by constructor|done]. Qed.

(** What a recorded block leaves of an observation. *)
Lemma displacement_of_spec source height h parent at' o :
  let d := displacement_of source height h parent at' o in
  let kept := Some (default (at', h) (o_displaced o)) in
  if bool_decide (o_source o = source ∧ o_child_height o = Some height) then
    match o_child_hash o, parent with
    | Some k, _ => d = if bool_decide (k = h) then None else kept
    | None, ParentKnown p => d = if bool_decide (o_parent o = Some p) then None else kept
    | None, ParentNoAuxpow => d = kept
    | None, ParentUnknown => d = o_displaced o
    end
  else d = o_displaced o.
Proof.
  unfold displacement_of, candidate, is_current. case_bool_decide as Hat.
  - destruct Hat as [-> ->]. rewrite !bool_decide_true by done. simpl.
    destruct (o_child_hash o) as [k|]; simpl; [|by destruct parent].
    rewrite orb_false_r. do 2 case_bool_decide; naive_solver.
  - destruct (bool_decide (o_source o = source)) eqn:Hs, (bool_decide (o_child_height o = Some height)) eqn:Ht; try done.
    apply bool_decide_eq_true in Hs, Ht. by destruct Hat.
Qed.

Lemma displacement_of_again source height h parent at' later o :
  displacement_of source height h parent later (with_displaced o (displacement_of source height h parent at' o))
  = displacement_of source height h parent at' o.
Proof.
  assert (∀ d, candidate source height parent (with_displaced o d) = candidate source height parent o
               ∧ is_current h parent (with_displaced o d) = is_current h parent o) as He by done.
  unfold displacement_of. rewrite !(proj1 (He _)), !(proj2 (He _)). simpl.
  by destruct (candidate _ _ _ _), (is_current _ _ _).
Qed.

Lemma record_block_Ok digest c db source height r out db' :
  record_child_chain_block digest c db source height r = Ok (out, db') →
  length (rec_block_hash r) = 32%nat ∧ ∃ t,
    (out, db') = apply_child_displacement (with_heads db t) source height (rec_block_hash r) (rec_parent r) (rec_observed_at r) ∧
    match cd_state c with
    | None => t = sd_heads db
    | Some s => t = <[(source, height) := mkHeadRow (rec_block_hash r) (parent_hash (rec_parent r))
                       (outcome_as_db_str (rec_outcome r)) (default (core_cache_generation s) (rec_core_cache_generation r))
                       (marker_current digest (rec_evidence r) source height) (rec_observed_at r)]> (sd_heads db)
    end.
Proof.
  unfold record_child_chain_block, upsert_head. intros Hr.
  apply bind_Ok in Hr as ([] & Hlen%ensure_Ok & Hr). apply Nat.eqb_eq in Hlen. split; [done|].
  apply bind_Ok in Hr as (db1 & Hu & Hr).
  remember (apply_child_displacement _ _ _ _ _ _) as a eqn:Ha. injection Hr as ->. destruct (cd_state c) as [s|].
  - apply bind_Ok in Hu as ([] & _ & [= <-]). eexists. by split.
  - injection Hu as <-. exists (sd_heads db). split; [|done]. rewrite Ha. by destruct db.
Qed.

(** The displacement of the observation [i]. *)
Definition displaced_in (db : StoreDb) (i : Z) : option (Z * bytes) := sd_observations db !! i ≫= o_displaced.

Lemma displaced_in_lookup db i o : sd_observations db !! i = Some o → displaced_in db i = o_displaced o.
Proof. unfold displaced_in. by intros ->. Qed.

(** C21. Recording the block a child chain carries at a height restores the observation of the
    block and displaces every other block observed at the height, naming the block that
    replaced it; a block already displaced keeps its first displacement. Observations without
    a hash follow the parent when it is known, are displaced when the block has no merge-mining
    proof, and are left alone when the proof did not verify. Nothing else of the store changes,
    its invariant holds, and the two counts are those of the observations restored and displaced. *)
Theorem displacement_exact digest c db source height r out db' : store_ok db →
  record_child_chain_block digest c db source height r = Ok (out, db') →
  let kept o := Some (default (rec_observed_at r, rec_block_hash r) (o_displaced o)) in
  store_ok db' ∧ db' = with_heads (with_observations db (sd_observations db')) (sd_heads db') ∧
  dom (sd_observations db') = dom (sd_observations db) ∧
  (∀ i o, sd_observations db !! i = Some o → ∃ d, sd_observations db' !! i = Some (with_displaced o d) ∧
     if bool_decide (o_source o = source ∧ o_child_height o = Some height) then
       match o_child_hash o, rec_parent r with
       | Some k, _ => d = if bool_decide (k = rec_block_hash r) then None else kept o
       | None, ParentKnown p => d = if bool_decide (o_parent o = Some p) then None else kept o
       | None, ParentNoAuxpow => d = kept o
       | None, ParentUnknown => d = o_displaced o
       end
     else d = o_displaced o) ∧
  restored out = Z.of_nat (size (filter (λ i, is_Some (displaced_in db i) ∧ displaced_in db' i = None) (dom (sd_observations db)))) ∧
  displaced out = Z.of_nat (size (filter (λ i, displaced_in db i = None ∧ is_Some (displaced_in db' i)) (dom (sd_observations db)))).
Proof.
  intros Hok Hr kept. apply record_block_Ok in Hr as (_ & t & Hr & _).
  set (h := rec_block_hash r) in *. set (p := rec_parent r) in *. set (at' := rec_observed_at r) in *.
  destruct (size_restored source height h p at' (with_heads db t)) as [Hrest Hdisp].
  rewrite <-Hr in Hrest, Hdisp. simpl in Hrest, Hdisp. apply (f_equal snd) in Hr. simpl in Hr.
  assert (∀ i, sd_observations db' !! i = (λ o, with_displaced o (displacement_of source height h p at' o)) <$> sd_observations db !! i) as Hl
    by (intros i; rewrite Hr; apply (displacement_lookup source height h p at' (with_heads db t))).
  split_and!.
  - rewrite Hr. exact (displacement_store_ok _ source height h p at' (with_heads_store_ok db t Hok)).
  - by rewrite Hr.
  - apply set_eq. intros i. rewrite !elem_of_dom, Hl. apply fmap_is_Some.
  - intros i o Ho. exists (displacement_of source height h p at' o). rewrite Hl, Ho. split; [done|]. apply displacement_of_spec.
  - rewrite Hrest. f_equal. rewrite <-(size_dom (D := gset Z)). apply set_size_proper. intros i.
    rewrite elem_of_filter, elem_of_dom_filter, elem_of_dom. unfold displaced_in. rewrite Hl. split.
    + intros (o & -> & Hs & Hn). simpl in *. eauto.
    + intros [Hs [o Ho]]. rewrite Ho in Hs. exists o. by split.
  - rewrite Hdisp. f_equal. rewrite <-(size_dom (D := gset Z)). apply set_size_proper. intros i.
    rewrite elem_of_filter, elem_of_dom_filter, elem_of_dom. unfold displaced_in. rewrite Hl. split.
    + intros (o & -> & Hs & Hn). simpl in *. eauto.
    + intros [Hs [o Ho]]. rewrite Ho in Hs. exists o. by split.
Qed.

(** The parent a producer records goes with its outcome. *)
Definition parent_fits (p : CurrentBlockParent) (o : ChildChainHeadOutcome) : Prop :=
  match p with ParentKnown _ => True | ParentNoAuxpow => o = HeadNoAuxpow | ParentUnknown => o ≠ HeadNoAuxpow end.

Lemma displacement_quiet source height h p later db :
  (∀ i o, sd_observations db !! i = Some o → displacement_of source height h p later o = o_displaced o) →
  apply_child_displacement db source height h p later = (mkDisplacement 0 0, with_observations db (sd_observations db)).
Proof.
  intros Hq. assert (omap (displacement_update source height h p later) (sd_observations db) = ∅) as Ho.
  { apply map_empty. intros i. rewrite lookup_omap. destruct (sd_observations db !! i) as [o|] eqn:Hi; [|done]. simpl.
    destruct (displacement_update _ _ _ _ _ o) as [o'|] eqn:Hu; [|done]. apply update_Some in Hu as [_ Hu].
    rewrite (Hq i o Hi) in Hu. destruct (o_displaced o); [by destruct Hu as [Hu _]; specialize (Hu ltac:(eauto))|].
    destruct Hu as [_ Hu]. by destruct (Hu eq_refl). }
  unfold apply_child_displacement. cbv zeta. rewrite Ho, map_filter_empty, !map_size_empty.
  by rewrite (left_id_L ∅ (∪)).
Qed.

(** C38. A recorded head reads back: the block, its parent, its outcome and its time, with nothing
    changed since unless the verdict came from an older generation of the header cache. So a
    rescan trusts it exactly when the outcome is final, and re-observing the block with the parent
    read from the head succeeds, displaces and restores nothing, and refreshes only the time;
    the heads of other heights are kept. *)
Theorem head_readback digest c st db source height r out db' later :
  cd_state c = Some st → parent_fits (rec_parent r) (rec_outcome r) →
  record_child_chain_block digest c db source height r = Ok (out, db') →
  let stale := default (core_cache_generation st) (rec_core_cache_generation r) <? core_cache_generation st in
  let head t := mkChildHead (rec_block_hash r) (parent_hash (rec_parent r)) (rec_outcome r) stale false t in
  load_child_chain_head digest c db' source height (rec_evidence r) = Ok (Some (head (rec_observed_at r))) ∧
  head_is_final (head (rec_observed_at r)) = outcome_is_final (rec_outcome r) && negb stale ∧
  current_parent (head (rec_observed_at r)) = rec_parent r ∧
  (∀ k, k ≠ (source, height) → sd_heads db' !! k = sd_heads db !! k) ∧
  ∃ db2, reobserve_child_chain_block_in_own_transaction db' source height (rec_block_hash r)
           (current_parent (head (rec_observed_at r))) later = Ok (mkDisplacement 0 0, db2) ∧
    db2 = with_heads db' (sd_heads db2) ∧
    load_child_chain_head digest c db2 source height (rec_evidence r) = Ok (Some (head later)) ∧
    ∀ k, k ≠ (source, height) → sd_heads db2 !! k = sd_heads db' !! k.
Proof.
  intros Hst Hfit Hr stale head. apply record_block_Ok in Hr as (Hlen & t & Hr & Ht). rewrite Hst in Ht.
  apply (f_equal snd) in Hr. simpl in Hr.
  assert (sd_heads db' = t) as Hh by (by rewrite Hr).
  assert (current_parent (head (rec_observed_at r)) = rec_parent r) as Hcur.
  { unfold current_parent. simpl. destruct (rec_parent r); simpl in *; [done|by rewrite Hfit|by destruct (rec_outcome r)]. }
  assert (∀ t' d, sd_heads d !! (source, height) = Some (mkHeadRow (rec_block_hash r) (parent_hash (rec_parent r))
      (outcome_as_db_str (rec_outcome r)) (default (core_cache_generation st) (rec_core_cache_generation r))
      (marker_current digest (rec_evidence r) source height) t') →
      load_child_chain_head digest c d source height (rec_evidence r) = Ok (Some (head t'))) as Hload.
  { intros t' d Hd. unfold load_child_chain_head. rewrite Hd, Hst. simpl. rewrite outcome_roundtrip. simpl.
    by rewrite bool_decide_true. }
  assert (∀ k, k ≠ (source, height) → sd_heads db' !! k = sd_heads db !! k) as Hother
    by (intros k Hk; rewrite Hh, Ht; by rewrite lookup_insert_ne).
  split_and!; [apply Hload; by rewrite Hh, Ht, lookup_insert_eq|done|done|done|]. rewrite Hcur.
  unfold reobserve_child_chain_block_in_own_transaction. rewrite (proj2 (Nat.eqb_eq _ _) Hlen). simpl.
  rewrite Hh, Ht, lookup_insert_eq. simpl. rewrite bool_decide_true by done. simpl.
  eexists. rewrite displacement_quiet; [split; [reflexivity|]|].
  - split_and!; [done|apply Hload; simpl; by rewrite lookup_insert_eq|]. intros k Hk. simpl.
    by rewrite !lookup_insert_ne.
  - intros i o. simpl. rewrite Hr. simpl.
    change (_ ∪ _) with (sd_observations (apply_child_displacement (with_heads db t) source height (rec_block_hash r)
      (rec_parent r) (rec_observed_at r)).2). rewrite displacement_lookup. intros (o0 & _ & ->)%fmap_Some.
    apply displacement_of_again.
Qed.

Lemma record_own_store_ok digest c db source height r observation out db' : store_ok db →
  (∀ o, observation = Some o → ob_kind o ≠ ObsNonBitcoinParent) →
  record_child_chain_block_in_own_transaction digest c db source height r observation = Ok (out, db') → store_ok db'.
Proof.
  unfold record_child_chain_block_in_own_transaction. intros Hok Hk Hr. apply bind_Ok in Hr as ([o db1] & Hr & Hu).
  apply record_block_Ok in Hr as (_ & t & Hr & _). apply (f_equal snd) in Hr. simpl in Hr.
  assert (store_ok db1) as Hok1 by (rewrite Hr; exact (displacement_store_ok _ _ _ _ _ _ (with_heads_store_ok db t Hok))).
  destruct observation as [ob|]; [|by injection Hu as _ <-].
  apply bind_Ok in Hu as ([w db2] & Hu & [= _ <-]). exact (store_step_ok _ _ (step_child_only _ _ _ _ _ (Hk ob eq_refl) Hu) Hok1).
Qed.

(** ** Pruning *)

Lemma elem_of_below db source floor height :
  height ∈ omap (λ k : Z * Z, if bool_decide (k.1 = source ∧ k.2 < floor) then Some k.2 else None) (map_to_list (sd_heads db)).*1 ↔
  is_Some (sd_heads db !! (source, height)) ∧ height < floor.
Proof.
  rewrite list_elem_of_omap. split.
  - intros (k & ([[s h] r] & -> & Hk%elem_of_map_to_list)%list_elem_of_fmap & Hb). simpl in Hb.
    case_bool_decide as Hc; [|done]. simplify_eq/=. destruct Hc as [-> Hlt]. eauto.
  - intros [[r Hr] Hlt]. exists (source, height). split; [|by rewrite bool_decide_true].
    apply list_elem_of_fmap. exists (source, height, r). by rewrite elem_of_map_to_list.
Qed.

Lemma heads_below_NoDup (db : StoreDb) source floor :
  NoDup (omap (λ k : Z * Z, if bool_decide (k.1 = source ∧ k.2 < floor) then Some k.2 else None) (map_to_list (sd_heads db)).*1).
Proof.
  apply omap_NoDup_partial_inj; [apply NoDup_fst_map_to_list|]. intros [s h] [s' h'] z _ _. simpl.
  do 2 case_bool_decide; naive_solver.
Qed.

(** Of a sorted list, what a prefix leaves out is not below what it has. *)
Lemma take_sorted_le n (l : list Z) x y : StronglySorted Z.le l → x ∈ take n l → y ∈ l → y ∉ take n l → x ≤ y.
Proof.
  intros Hs Hx Hy Hn. rewrite <-(take_drop n l) in Hs, Hy. apply elem_of_app in Hy as [?|Hy]; [done|].
  clear Hn. revert Hs Hx. generalize (take n l), (drop n l), Hy. clear Hy l. intros a b Hy Hs Hx.
  induction a as [|z a IH]; [by apply not_elem_of_nil in Hx|]. simpl in Hs. apply StronglySorted_inv in Hs as [Hs Hall].
  apply elem_of_cons in Hx as [->|Hx]; [|by apply IH]. rewrite Forall_forall in Hall. apply Hall, elem_of_app. by right.
Qed.

(** A prune deletes heads of its source below the floor whose height no other session has
    locked, at most [limit] of them and the lowest first, and reports their number; every other
    head is kept. When at most [limit] heads of the source are below the floor, only the locked
    ones of them stay. *)
Theorem prune_exact db source floor limit locked n db' :
  prune_child_chain_heads_below db source floor limit locked = (n, db') →
  let below height := is_Some (sd_heads db !! (source, height)) ∧ height < floor in
  let gone height := below height ∧ sd_heads db' !! (source, height) = None in
  db' = with_heads db (sd_heads db') ∧
  (∀ k, sd_heads db' !! k = sd_heads db !! k ∨ k.1 = source ∧ gone k.2) ∧
  (∀ height, gone height → height ∉ locked) ∧
  (∀ a b, gone a → below b → b ∉ locked → ¬ gone b → a ≤ b) ∧
  (∃ l, NoDup l ∧ n = Z.of_nat (length l) ∧ n ≤ Z.max 0 limit ∧ ∀ height, height ∈ l ↔ gone height) ∧
  ∀ all : list Z, (∀ height, height ∈ all ↔ below height) → NoDup all → Z.of_nat (length all) ≤ limit →
    ∀ height, below height → gone height ∨ height ∈ locked.
Proof.
  intros Hp below gone. unfold prune_child_chain_heads_below in Hp. set (hs := omap _ _) in Hp.
  set (l := filter _ (take _ _)) in Hp. injection Hp as <- <-.
  set (sorted := merge_sort Z.le hs) in *.
  assert (∀ h, h ∈ sorted ↔ below h) as Hbelow.
  { intros h. unfold sorted. rewrite merge_sort_Permutation. apply elem_of_below. }
  assert (NoDup sorted) as Hnd.
  { unfold sorted. rewrite merge_sort_Permutation. apply heads_below_NoDup. }
  assert (StronglySorted Z.le sorted) as Hss by (apply StronglySorted_merge_sort; apply _).
  assert (∀ h, h ∈ l ↔ (h ∉ locked) ∧ h ∈ take (Z.to_nat limit) sorted) as Hl by (intros h; unfold l; by rewrite list_elem_of_filter).
  assert (∀ h, h ∈ take (Z.to_nat limit) sorted → below h) as Htake.
  { intros h Hh. apply Hbelow. by eapply subseteq_take. }
  assert (∀ k, filter (λ r : Z * Z * HeadRow, ¬ (r.1.1 = source ∧ r.1.2 ∈ l)) (sd_heads db) !! k =
    if bool_decide (k.1 = source ∧ k.2 ∈ l) then None else sd_heads db !! k) as Hlook.
  { intros k. rewrite map_lookup_filter. destruct (sd_heads db !! k) as [r|]; simpl; [|by case_bool_decide].
    case_bool_decide; by case_guard. }
  assert (∀ h, gone h ↔ h ∈ l) as Hgone.
  { intros h. unfold gone. simpl. rewrite Hlook. simpl. split.
    - intros [[[r Hr] _] Hn]. case_bool_decide as Hc; [by destruct Hc|]. by rewrite Hr in Hn.
    - intros Hh. rewrite bool_decide_true by done. split; [|done]. apply Htake. by apply Hl in Hh as [_ ?]. }
  split_and!.
  - done.
  - intros k. simpl. rewrite Hlook. case_bool_decide as Hc; [right|by left]. by rewrite Hgone.
  - intros h Hh%Hgone. by apply Hl in Hh as [? _].
  - intros a b Ha%Hgone Hb Hlk Hn. apply Hl in Ha as [_ Ha]. apply (take_sorted_le _ _ _ _ Hss Ha); [by apply Hbelow|].
    intros Hc. apply Hn, Hgone. by apply Hl.
  - exists l. split_and!; [|done| |intros h; by rewrite Hgone].
    + apply NoDup_filter. eapply sublist_NoDup; [exact Hnd|apply sublist_take].
    + assert (length l ≤ Z.to_nat limit)%nat; [|lia]. etrans; [apply length_filter|]. rewrite length_take. lia.
  - intros all Hall Hnda Hlen h Hh. rewrite Hgone, Hl. assert (h ∈ take (Z.to_nat limit) sorted) as Hin.
    { rewrite take_ge; [by apply Hbelow|]. assert (length sorted = length all) as ->; [|lia].
      apply Permutation_length, NoDup_Permutation; [done|done|]. intros x. by rewrite Hbelow, Hall. }
    destruct (decide (h ∈ locked)); [by right|by left].
Qed.

(** ** The writes of the event store leave the heads alone *)

Lemma identities_heads db ks : sd_heads (insert_child_identities db ks) = sd_heads db.
Proof.
  unfold insert_child_identities. revert db. induction ks as [|k ks IH]; intros db; [done|]. simpl. rewrite IH.
  unfold insert_child_identity. by destruct (sd_identities db !! k).
Qed.
Lemma child_identity_ids_heads db o : sd_heads (child_identity_ids db o).2 = sd_heads db.
Proof. unfold child_identity_ids. destruct (ob_child_identities o); [done|]. apply identities_heads. Qed.
Lemma store_observation_heads db i r db' : store_observation db i r = Ok db' → sd_heads db' = sd_heads db.
Proof. unfold store_observation. intros Hs. by res_inv. Qed.
Lemma store_event_heads db i e x db' : store_event db i e x = Ok db' → sd_heads db' = sd_heads db.
Proof. unfold store_event. intros Hs. by res_inv. Qed.
Lemma write_observation_heads db source o w db' : write_observation db source o = Ok (w, db') → sd_heads db' = sd_heads db.
Proof.
  unfold write_observation. pose proof (child_identity_ids_heads db o) as Hi.
  destruct (child_identity_ids db o) as [ids db1]. simpl in Hi. rewrite <-Hi. intros Hw. res_inv.
  destruct (find_row _ _) as [[i q]|].
  - destruct (observation_where _ _); res_inv; [|done]. by eapply store_observation_heads.
  - res_inv. simpl. by eapply store_observation_heads.
Qed.
Lemma write_event_observation_heads db source o i db' :
  write_event_observation db source o = Ok (i, db') → sd_heads db' = sd_heads db.
Proof. unfold write_event_observation. intros Hw. res_pairs. by eapply write_observation_heads. Qed.
Lemma child_only_heads db source o w db' : upsert_child_only_observation db source o = Ok (w, db') → sd_heads db' = sd_heads db.
Proof. intros [_ Hw]%child_only_Ok. by eapply write_observation_heads. Qed.
Lemma delete_child_block_heads db source height hash parent n db' :
  delete_child_block_events db source height hash parent = Ok (n, db') → sd_heads db' = sd_heads db.
Proof. unfold delete_child_block_events. intros Hd. by res_inv. Qed.

Lemma fold_hashless_heads db i db' : fold_hashless_observation db i = Ok db' → sd_heads db' = sd_heads db.
Proof.
  unfold fold_hashless_observation. intros Hf. apply bind_Ok in Hf as ([e x] & _ & Hf). cbv zeta in Hf.
  destruct (opt_filter _ _) as [h|]; [|by injection Hf as <-]. destruct (find_row _ _) as [[j o]|].
  - apply bind_Ok in Hf as ([] & _ & Hf). apply bind_Ok in Hf as (d1 & H1 & Hf). apply bind_Ok in Hf as (d2 & H2 & H3).
    apply store_observation_heads in H1. unfold delete_observation in H3. res_inv. simpl. rewrite <-H1.
    unfold link_event_observation in H2. destruct (event_row d1 i) as [[e' x']|]; [|by injection H2 as <-].
    case_bool_decide; [by injection H2 as <-|by apply store_event_heads in H2].
  - by apply store_observation_heads in Hf.
Qed.
Lemma insert_event_heads db source p ex previous o out db' :
  insert_event db source p ex previous o = Ok (out, db') → sd_heads db' = sd_heads db.
Proof.
  unfold insert_event. intros Hi. apply bind_Ok in Hi as ([obs d1] & H1%write_event_observation_heads & Hi). rewrite <-H1.
  cbv zeta in Hi. apply bind_Ok in Hi as ([] & _ & Hi). destruct (find_event _ _) as [[j [e x]]|].
  - apply bind_Ok in Hi as ([] & _ & Hi). by apply bind_Ok in Hi as (d2 & H2%store_event_heads & [= _ <-]).
  - by apply bind_Ok in Hi as (d2 & H2%store_event_heads & [= _ <-]).
Qed.
Lemma promote_partial_heads db i p j db' : promote_partial_event db i p = Ok (j, db') → sd_heads db' = sd_heads db.
Proof. unfold promote_partial_event. intros Hp. res_pairs. by eapply store_event_heads. Qed.
Lemma fill_existing_heads db i p h k db' : fill_existing_event db i p = Ok (h, k, db') → sd_heads db' = sd_heads db.
Proof. unfold fill_existing_event. intros Hp. res_pairs. by eapply store_event_heads. Qed.

Lemma upsert_event_heads db source p out db' : upsert_merge_mining_event db source p = Ok (out, db') → sd_heads db' = sd_heads db.
Proof.
  unfold upsert_merge_mining_event. intros Hu. apply bind_Ok in Hu as ([] & _ & Hu). apply bind_Ok in Hu as ([] & _ & Hu).
  cbv zeta in Hu. destruct (p_child_block_hash p) as [hash|].
  - destruct (if is_some _ then None else _) as [i|]; [|by apply insert_event_heads in Hu].
    apply bind_Ok in Hu as ([j d1] & H1%promote_partial_heads & Hu). apply bind_Ok in Hu as (d2 & H2%fold_hashless_heads & Hu).
    apply bind_Ok in Hu as ([k d3] & H3%write_event_observation_heads & [= _ <-]). congruence.
  - unfold upsert_hashless_event in Hu. apply bind_Ok in Hu as (h & _ & Hu).
    destruct (matching_exact_event_ids _ _ _ _) as [|i [|]]; [by apply insert_event_heads in Hu| |done].
    apply bind_Ok in Hu as ([[t k] d1] & H1%fill_existing_heads & Hu). cbv zeta in Hu.
    apply bind_Ok in Hu as ([j d2] & H2%write_event_observation_heads & [= _ <-]). congruence.
Qed.

Lemma sync_heads db i : sd_heads (sync_event_observation_attribution db i) = sd_heads db.
Proof.
  unfold sync_event_observation_attribution. destruct (_ ≫= _) as [[j o]|]; simpl; by rewrite identities_heads.
Qed.

Lemma write_capture_heads db source p out db' : write_capture db source p = Ok (out, db') → sd_heads db' = sd_heads db.
Proof.
  unfold write_capture. case_bool_decide; intros Hw.
  - by apply bind_Ok in Hw as ([o d] & Hd%write_event_observation_heads & [= _ <-]).
  - apply bind_Ok in Hw as ([o d] & Hd & [= _ <-]). unfold upsert_merge_mining_event_with_attributions in Hd.
    apply bind_Ok in Hd as ([o1 d1] & H1%upsert_event_heads & Hd). apply bind_Ok in Hd as (d2 & H2 & Hd).
    unfold upsert_event_pool_attributions in H2. apply bind_Ok in H2 as (t & _ & [= <-]).
    apply bind_Ok in Hd as (d3 & H3 & [= _ <-]). rewrite sync_heads, <-H1. destruct (p_provenance p) as [v|]; [|by injection H3 as <-].
    unfold upsert_historical_event_provenance in H3. res_inv. destruct (sd_provenance _ !! _); by res_inv.
Qed.

(** A recorded head is the row of its height. *)
Lemma record_heads digest c db source height r out db' s :
  record_child_chain_block digest c db source height r = Ok (out, db') → cd_state c = Some s →
  sd_heads db' = <[(source, height) := mkHeadRow (rec_block_hash r) (parent_hash (rec_parent r))
                     (outcome_as_db_str (rec_outcome r)) (default (core_cache_generation s) (rec_core_cache_generation r))
                     (marker_current digest (rec_evidence r) source height) (rec_observed_at r)]> (sd_heads db).
Proof.
  intros (_ & t & Hr & Ht)%record_block_Ok Hs. rewrite Hs in Ht. apply (f_equal snd) in Hr. simpl in Hr. by rewrite Hr, <-Ht.
Qed.
Lemma record_own_heads digest c db source height r o out db' s :
  record_child_chain_block_in_own_transaction digest c db source height r o = Ok (out, db') → cd_state c = Some s →
  sd_heads db' = <[(source, height) := mkHeadRow (rec_block_hash r) (parent_hash (rec_parent r))
                     (outcome_as_db_str (rec_outcome r)) (default (core_cache_generation s) (rec_core_cache_generation r))
                     (marker_current digest (rec_evidence r) source height) (rec_observed_at r)]> (sd_heads db).
Proof.
  unfold record_child_chain_block_in_own_transaction. intros Hr Hs. apply bind_Ok in Hr as ([d db1] & Hr & Hu).
  rewrite <-(record_heads _ _ _ _ _ _ _ _ _ Hr Hs). destruct o as [o|]; [|by injection Hu as _ <-].
  by apply bind_Ok in Hu as ([w db2] & Hu%child_only_heads & [= _ <-]).
Qed.

Module ChildHeadSample.
Import EventStoreSample.

Definition cache : CacheDb := mkCacheDb ∅ (Some CacheState_default) false.
Definition block (b : Byte.byte) : bytes := replicate 32 b.
Definition seen (b : Byte.byte) : ChildBlockObservation :=
  {| ob_kind := ObsNotMergeMined; ob_child_height := Some 7; ob_child_block_hash := Some (block b);
     ob_child_block_time := None; ob_child_header_bytes := None; ob_child_nbits := None;
     ob_child_prev_block_hash := None; ob_child_txid := None; ob_child_script := None; ob_child_outputs := None;
     ob_pow_child := None; ob_parent_hash := None; ob_near_parent := None; ob_child_identities := [];
     ob_child_pool_id := None; ob_child_pools_conflict := false; ob_parent_pool_id := None; ob_recorded_at := 5 |}.
Definition direct (b : Byte.byte) (t : Z) : ChildChainHeadRecord :=
  mkHeadRecord (block b) ParentNoAuxpow HeadNoAuxpow NoMarker t None.

(** The chain carried the block [0a]. *)
Definition one_block : StoreDb :=
  match record_child_chain_block_in_own_transaction (λ _ _, None) cache empty 1 7 (direct x0a 5) (Some (seen x0a)) with
  | Ok (_, db) => db
  | Err _ => empty
  end.
Lemma one_block_ok : store_ok one_block.
Proof.
  unfold one_block. destruct (record_child_chain_block_in_own_transaction _ _ _ _ _ _ _) as [[out db]|e] eqn:Hr;
    [|exact empty_store_ok].
  eapply record_own_store_ok; [exact empty_store_ok| |exact Hr]. by intros o [= <-].
Qed.

(** It now carries [0b]. *)
Lemma displacement_exact_witness :
  ∃ out db', record_child_chain_block (λ _ _, None) cache one_block 1 7 (direct x0b 9) = Ok (out, db') ∧
    store_ok db' ∧ displaced_in db' 1 = Some (9, block x0b) ∧ displaced out = 1.
Proof.
  destruct (record_child_chain_block (λ _ _, None) cache one_block 1 7 (direct x0b 9)) as [[out db']|e] eqn:Hr;
    [|exfalso; vm_compute in Hr; discriminate Hr].
  destruct (displacement_exact (λ _ _, None) cache one_block 1 7 (direct x0b 9) out db' one_block_ok Hr) as (Hok & _).
  exists out, db'. split; [reflexivity|]. split; [exact Hok|].
  vm_compute in Hr. injection Hr as <- <-. split; reflexivity.
Defined.

Lemma head_readback_witness :
  ∃ out db' db2, record_child_chain_block (λ _ _, None) cache one_block 1 7 (direct x0b 9) = Ok (out, db') ∧
    reobserve_child_chain_block_in_own_transaction db' 1 7 (block x0b) ParentNoAuxpow 11 = Ok (mkDisplacement 0 0, db2).
Proof.
  destruct (record_child_chain_block (λ _ _, None) cache one_block 1 7 (direct x0b 9)) as [[out db']|e] eqn:Hr;
    [|exfalso; vm_compute in Hr; discriminate Hr].
  destruct (head_readback (λ _ _, None) cache CacheState_default one_block 1 7 (direct x0b 9) out db' 11
    eq_refl eq_refl Hr) as (_ & _ & _ & _ & db2 & Hre & _).
  exists out, db', db2. split; [reflexivity|exact Hre].
Defined.

Lemma prune_exact_witness :
  ∃ db', prune_child_chain_heads_below one_block 1 8 10 ∅ = (1, db') ∧ sd_heads db' !! (1, 7) = None.
Proof.
  destruct (prune_child_chain_heads_below one_block 1 8 10 ∅) as [n db'] eqn:Hp.
  destruct (prune_exact one_block 1 8 10 ∅ n db' Hp) as (_ & _ & _ & _ & (l & _ & Hn & _) & Hall).
  assert (bool_decide (n = 1) = true) as Hn1.
  { replace n with (prune_child_chain_heads_below one_block 1 8 10 ∅).1 by (by rewrite Hp). vm_compute. reflexivity. }
  apply bool_decide_eq_true in Hn1 as ->. exists db'. split; [reflexivity|].
  destruct (sd_heads one_block !! (1, 7)) as [r|] eqn:Hr; [|exfalso; vm_compute in Hr; discriminate Hr].
  destruct (Hall [7]) with (height := 7) as [[_ Hg]|Hg]; [|apply NoDup_singleton|simpl; lia|by rewrite Hr|exact Hg|set_solver].
  intros h. rewrite list_elem_of_singleton. split; [intros ->; split; [by rewrite Hr|lia]|].
  intros [Hh _]. destruct (decide (h = 7)) as [->|Hne]; [reflexivity|]. exfalso.
  assert (sd_heads one_block = {[ (1, 7) := mkHeadRow (block x0a) None "non_auxpow" 0 None 5 ]}) as Heq
    by (vm_compute; reflexivity).
  rewrite Heq, lookup_singleton_ne in Hh by congruence. by destruct Hh.
Defined.
End ChildHeadSample.
