(* ===== verification/Writes.v ===== *)
(** The statements that sessions run on the shared tables of the store, and the invariant they
    keep.

    A capture yields to other sessions between its statements. What those may commit is stated
    here as [store_write]: the capture write of a payload, event or near; an answer about a child
    block that proves no parent; the refusal of a parent with its retraction; the snapshot and
    the removal of pool attributions; the record of a head with its displacements; and the
    deletion of events with the observations they alone backed. [store_inv] is the invariant of
    the store with one more clause, which makes the near write safe: the parent of every event
    meets Bitcoin's target. Whether a parent meets it is a function of its hash, [meets]: the
    header that has the hash fixes the target. *)
From S2P Require Import Prelude BitcoinLib Effects Errors Reader Auxpow Nbits Lineage Classifier LiveLoop Poller Blocks SyncState CoreQueue Events Reconcile HeaderCache Payload EventStore ChildHead.

Section writes.
Context (meets : bytes → bool).

(** The parent of every event meets its target. *)
Definition targets_met (s : StoreDb) : Prop := ∀ i e x, event_row s i = Some (e, x) → meets (e_hash e) = true.

Record store_inv (s : StoreDb) : Prop := mkStoreInv {
  inv_store : store_ok s;
  inv_targets : targets_met s;
}.

(** A payload that says of its parent whether it meets the target, and is near when not. *)
Definition payload_true (p : MergeMiningEventPayload) : Prop :=
  p_pow p = meets (p_hash p) ∧ (p_kind p = PkNear ↔ p_pow p = false).

Inductive store_write (s : StoreDb) : StoreDb → Prop :=
  | write_captured source p out s' : payload_true p → write_capture s source p = Ok (out, s') → store_write s s'
  | write_answered source o out s' :
      ob_kind o ≠ ObsNonBitcoinParent → upsert_child_only_observation s source o = Ok (out, s') → store_write s s'
  | write_refused source p hash out s' :
      p_child_block_hash p = Some hash → child_block_is_counted s source (p_child_height p) hash (p_hash p) = false →
      upsert_child_only_observation s source (non_bitcoin_parent p) = Ok (out, s') → store_write s s'
  | write_retracted source p hash n s1 out s' :
      p_child_block_hash p = Some hash →
      delete_child_block_events s source (p_child_height p) hash (p_hash p) = Ok (n, s1) →
      upsert_child_only_observation s1 source (non_bitcoin_parent p) = Ok (out, s') → store_write s s'
  | write_snapshot i l now s1 :
      upsert_event_pool_attributions s i l now = Ok s1 → store_write s (sync_event_observation_attribution s1 i)
  | write_attributed i l now s1 :
      upsert_event_pool_attributions_without_stale_cleanup s i l now = Ok s1 →
      store_write s (sync_event_observation_attribution s1 i)
  | write_unattributed i side source :
      store_write s (sync_event_observation_attribution (delete_event_pool_attributions_for_source s i side source) i)
  | write_headed digest c source height r out s' :
      record_child_chain_block digest c s source height r = Ok (out, s') → store_write s s'
  | write_deleted (P : Z * ObservationRow → Prop) (dec : ∀ r, Decision (P r)) ids :
      map_Forall (λ _ y, is_Some (filter P (sd_observations s) !! x_observation y)) (sd_extra (delete_events s ids)) →
      store_write s (with_observations (delete_events s ids) (filter P (sd_observations s))).

(** ** Each statement keeps the invariant *)

(** No event is written but those of a set of parents. *)
Definition hashes_within (hs : list bytes) (s s' : StoreDb) : Prop :=
  ∀ i e x, event_row s' i = Some (e, x) → e_hash e ∈ hs ∨ ∃ e0 x0, event_row s i = Some (e0, x0) ∧ e_hash e0 = e_hash e.

Lemma within_targets hs s s' : hashes_within hs s s' → Forall (λ h, meets h = true) hs → targets_met s → targets_met s'.
Proof.
  intros Hw Hh Ht i e x Hi. destruct (Hw _ _ _ Hi) as [He|(e0 & x0 & Hi0 & <-)]; [|by eapply Ht].
  rewrite Forall_forall in Hh. by apply Hh.
Qed.

Lemma within_same hs s s' : (∀ i, event_row s' i = event_row s i) → hashes_within hs s s'.
Proof. intros Hs i e x. rewrite Hs. eauto. Qed.

Lemma within_joined p s i s' : joined p s i s' → hashes_within [p_hash p] s s'.
Proof.
  intros [Ho (e & x & He & [Hc _ _ _] & _)] j f y Hj. destruct (decide (j = i)) as [->|Hne].
  - left. rewrite He in Hj. injection Hj as <- <-. injection Hc as -> _. by apply list_elem_of_singleton.
  - right. rewrite Ho in Hj by done. eauto.
Qed.

Lemma write_observation_within s source o w s' : store_ok s → write_observation s source o = Ok (w, s') →
  hashes_within [] s s'.
Proof. intros [Hobs _ _] [Hs _]%write_observation_spec; [|done]. apply within_same. intros i. by apply same_events_row. Qed.

Lemma delete_child_block_within s source height hash parent n s' :
  delete_child_block_events s source height hash parent = Ok (n, s') → hashes_within [] s s'.
Proof. intros (Hev & _)%delete_child_block_spec i e x [Hi _]%Hev. eauto. Qed.

Lemma child_only_ok s source o a s' : store_ok s → unauthenticated (ob_kind o) ∨ unbacked s source o →
  upsert_child_only_observation s source o = Ok (a, s') → store_ok s'.
Proof. intros Hok Hu [_ Hw]%child_only_Ok. by eapply write_observation_store_ok. Qed.

(** A block that does not count has no event to back its observation. *)
Lemma uncounted_unbacked s source p hash : store_ok s → p_child_block_hash p = Some hash →
  child_block_is_counted s source (p_child_height p) hash (p_hash p) = false → unbacked s source (non_bitcoin_parent p).
Proof.
  intros [_ _ Hl] Hhash [Hc _]%orb_false_elim i e x q Hi Hq. apply not_true_iff_false. intros (Hs & Hh & _)%arbiter_true.
  simpl in Hh. destruct (find_event s _) eqn:Hf; [discriminate Hc|]. apply (find_event_None _ _ _ _ _ Hf) in Hi as Hn.
  destruct (Hl _ _ _ Hi) as (o & Ho & Hlink). rewrite Hq in Ho. injection Ho as <-.
  destruct (Hlink ltac:(set_solver)) as [[Hn1 Hn2 _] _ _]. unfold child_block_event in Hn.
  rewrite (bool_decide_eq_true_2 (e_source_id e = source)), (bool_decide_eq_true_2 (x_child_hash x = Some hash)) in Hn
    by congruence. discriminate Hn.
Qed.

Lemma child_only_inv s source o a s' : store_inv s → unauthenticated (ob_kind o) ∨ unbacked s source o →
  upsert_child_only_observation s source o = Ok (a, s') → store_inv s'.
Proof.
  intros [Hok Ht] Hu Hc. split; [by eapply child_only_ok|]. apply child_only_Ok in Hc as [_ Hw].
  eapply within_targets; [by eapply write_observation_within|constructor|done].
Qed.

(** A near parent is none of an event, so its write leaves every event's observation alone. *)
Lemma write_capture_inv s source p out s' : payload_true p → store_inv s →
  write_capture s source p = Ok (out, s') → store_inv s'.
Proof.
  intros [Hpow Hnear] [Hok Ht] Hw. unfold write_capture in Hw. case_bool_decide as Hk.
  - apply Hnear in Hk. apply bind_Ok in Hw as ([o s1] & Hw & [= _ <-]).
    unfold write_event_observation in Hw. apply bind_Ok in Hw as ([w s2] & Hw & Hr). apply bind_Ok in Hr as (j & _ & [= _ <-]).
    split; [|eapply within_targets; [by eapply write_observation_within|constructor|done]].
    apply (write_observation_elsewhere _ _ _ _ _ (p_hash p)) in Hw; [done|done|done|].
    intros i e x Hi Heq. specialize (Ht _ _ _ Hi). congruence.
  - apply bind_Ok in Hw as ([o s1] & Hw & [= _ <-]). split; [by eapply upsert_with_attributions_ok|].
    apply upsert_with_attributions_joined in Hw; [|done].
    eapply within_targets; [by eapply within_joined| |done]. constructor; [|constructor].
    rewrite <-Hpow. apply not_false_iff_true. tauto.
Qed.

Lemma same_rows_inv s s' : store_ok s' → (∀ i, event_row s' i = event_row s i) → store_inv s → store_inv s'.
Proof. intros Hok Hs [_ Ht]. split; [done|]. by eapply (within_targets []); [apply within_same|constructor|]. Qed.

Lemma retract_inv s source p hash n s1 a s' : store_inv s → p_child_block_hash p = Some hash →
  delete_child_block_events s source (p_child_height p) hash (p_hash p) = Ok (n, s1) →
  upsert_child_only_observation s1 source (non_bitcoin_parent p) = Ok (a, s') → store_inv s'.
Proof.
  intros [Hok Ht] Hh Hd Hu. apply child_only_inv in Hu; [done| |right; by eapply retracted_unbacked].
  split; [by eapply delete_child_block_ok|]. eapply within_targets; [by eapply delete_child_block_within|constructor|done].
Qed.

Lemma store_write_inv s s' : store_write s s' → store_inv s → store_inv s'.
Proof.
  intros Hw Hinv. destruct Hw as [source p out s' Hp Hw|source o out s' Hk Hu|source p hash out s' Hh Hc Hu
    |source p hash n s1 out s' Hh Hd Hu|i l now s1 Hu|i l now s1 Hu|i side source|digest c source height r out s' Hr|P dec ids Hfk].
  - by eapply write_capture_inv.
  - apply child_only_inv in Hu as ?; [done|done|]. left. apply child_only_Ok in Hu as [Hc _].
    unfold unauthenticated. destruct (ob_kind o); simpl in Hc; try done; auto.
  - apply child_only_inv in Hu; [done|done|]. right. apply (uncounted_unbacked _ _ _ hash); [apply Hinv|done..].
  - by eapply retract_inv.
  - apply same_rows_inv with s; [|intros j; rewrite sync_rows|done].
    + apply sync_ok. eapply attributions_ok; [apply Hinv|done].
    + unfold upsert_event_pool_attributions in Hu. by res_inv.
  - unfold upsert_event_pool_attributions_without_stale_cleanup in Hu. apply bind_Ok in Hu as (t & _ & [= <-]).
    apply same_rows_inv with s; [apply sync_ok, with_attributions_ok, Hinv|intros j; by rewrite sync_rows|done].
  - apply same_rows_inv with s; [apply sync_ok, with_attributions_ok, Hinv|intros j; by rewrite sync_rows|done].
  - apply record_block_Ok in Hr as (_ & t & Hr & _). apply (f_equal snd) in Hr. simpl in Hr. rewrite Hr.
    apply same_rows_inv with s; [|done|done].
    exact (displacement_store_ok _ _ _ _ _ _ (with_heads_store_ok s t (inv_store _ Hinv))).
  - split; [apply delete_events_store_ok; [apply Hinv|done]|]. intros i e x Hi.
    change (event_row (with_observations ?d _) i) with (event_row d i) in Hi. apply delete_events_row in Hi as [Hi _].
    by eapply (inv_targets _ Hinv).
Qed.

Lemma store_writes_inv s s' : rtc store_write s s' → store_inv s → store_inv s'.
Proof. induction 1 as [|s s1 s' Hw _ IH]; [done|]. intros Hinv. by eapply IH, store_write_inv. Qed.

(** ** Payloads *)

(** What a producer builds from a proof says of its parent what the hash of the header says. *)
Lemma built_payload_true `{BitcoinLib} lookup ev attributions proof now p :
  meets (block_hash (v_parent_header ev))
    = validates_target (block_hash (v_parent_header ev)) (hdr_bits (v_parent_header ev)) →
  build_event_payload_from_evidence lookup ev attributions proof now = Ok p → payload_true p.
Proof.
  intros Hm Hp. unfold build_event_payload_from_evidence in Hp. destruct (invalid_block_proof _ _ _ _) as [k h].
  apply bind_Ok in Hp as (kind & Hk & [= <-]). split; [by symmetry|]. simpl. unfold classify_parent in Hk.
  destruct (validates_target _ _); simpl in *; [|by injection Hk as <-].
  split; [|done]. intros ->. by destruct k as [[]|], h; simplify_eq/=.
Qed.
End writes.
