(* ===== verification/Capture.v ===== *)
(** * Capture transactions

    Models [crates/mmm-read-model/src/mutation/mod.rs] and [mutation/lineage_gate.rs], with
    the classification of a payload of [lib.rs]: the lineage gate in front of a capture,
    the capture transaction (gate, verdict, event write, reconcile), the retraction of a
    child block whose parent is not Bitcoin's, the revocation of an event, and the cascade
    each runs after its commit.

    The world is an environment, which holds the tables only the store uses, and the read
    model; the event table is the read model's. A transaction that fails or rolls back
    leaves the tables it began with: what other sessions committed meanwhile is counted
    after it. What other sessions may commit is [others]: the statements of this development.
    Source health and protocol commitments live in other tables and are left out. *)

From S2P Require Import Prelude BitcoinLib Effects Errors Reader Auxpow Nbits Lineage Classifier LiveLoop Poller Blocks SyncState CoreQueue Events Reconcile CoreSuffix Cascade HeaderCache Payload EventStore ChildHead Writes.

(** The tables of the store in the environment. *)
Class CaptureTables (W : Type) := {
  store_of : W → StoreDb;
  set_store : StoreDb → W → W;
  cache_of : W → CacheDb;
}.
Class CaptureTablesLaws (W : Type) `{CaptureTables W} := {
  store_of_set s w : store_of (set_store s w) = s;
}.

Inductive CaptureOutcome :=
| Written (w : CaptureWrite)
| CaptureNotBitcoin (reason : string) (core_cache_generation : Z)
| CapturePending (reason : string).

(** ** Transactions *)

Section capture.
Context `{BitcoinLib} {W : Type} `{CoreHeaderSource W} `{Clock W} `{ReadModelSession W} `{CaptureTables W}.
Context (invalid_blocks_lookup : bytes → option InvalidBlock).
Context (resolve_pool : bytes → option bytes → option Z).
Context (classifier : ConfiguredParentClassifier).

#[local] Abbreviation sM := (stM (W * ReadModel) anyhow).

(** The store's tables, with the event rows of the read model. *)
Definition store_view (w : W * ReadModel) : StoreDb :=
  let s := store_of w.1 in
  mkStoreDb (rm_events w.2) (sd_extra s) (sd_next_event s) (sd_observations s) (sd_next_observation s)
    (sd_identities s) (sd_next_identity s) (sd_attributions s) (sd_provenance s) (sd_heads s).
Definition put_store (s : StoreDb) : sM unit :=
  modify (λ w, (set_store s w.1, with_events w.2 (sd_events s))).
Definition put_tables (db : ReadModel) : sM unit := modify (λ w, (w.1, db)).

(** The tables of [w] in the environment of [w']. *)
Definition restore (w w' : W * ReadModel) : W * ReadModel := (set_store (store_of w.1) w'.1, w.2).

(** A transaction commits when its body says so. *)
Definition transaction {A} (m : sM (bool * A)) : sM A := λ w,
  match m w with
  | (Ok (true, a), w') =>
      match on_env commit w' with
      | (Ok _, w') => (Ok a, w')
      | (Err e, w') => (Err (Context "commit transaction" e), restore w w')
      end
  | (Ok (false, a), w') => (Ok a, restore w w')
  | (Err e, w') => (Err e, restore w w')
  end.

(** ** The lineage gate *)

Definition cached_bitcoin_core_header_height (c : CacheDb) (hash : bytes) : option Z :=
  bh_height <$> find (λ h, bool_decide (bh_block_hash h = hash)) (hr_header <$> rows_of (cd_headers c)).

Definition load_core_cache_generation (c : CacheDb) : result anyhow Z :=
  core_cache_generation <$> ok_or (Other "load the Core header cache generation") (cd_state c).

Definition placed_prev_height (t : block_table) (c : CacheDb) (prev : bytes) : option Z :=
  match (r ← t !! prev;
         if bool_decide (b_kind r ∈ [BkCanonical; BkStale; BkInvalidBlock]) then b_height r else None) with
  | Some height => Some height
  | None => cached_bitcoin_core_header_height c prev
  end.

Definition payload_strict_height (db : ReadModel) (source : Z) (p : MergeMiningEventPayload) : result anyhow (option Z) :=
  match p_script p with
  | None => mret None
  | Some script =>
      s ← ok_or (Other "load the capturing source's chain") (rm_sources db !! source);
      mret (strict_bip34_height_from_evidence (s_chain s) script (p_tx_bytes p))
  end.

(** The statements of the gate run under the shared cache lock. *)
Definition refuse_parent (db : ReadModel) (c : CacheDb) (source : Z) (p : MergeMiningEventPayload)
    : result anyhow (option CaptureOutcome) :=
  if is_some (invalid_blocks_lookup (p_hash p)) then mret None else
  header ← ok_or (Context "deserialize payload parent header for the lineage gate" (Other "decode"))
             (deserialize_header (p_header_bytes p));
  let prev_height := placed_prev_height (rm_blocks db) c (p_prev_hash p) in
  if is_some prev_height && negb (p_pow p) then mret None else
  strict_height ← match prev_height with
                  | Some _ => mret None
                  | None => payload_strict_height db source p
                  end;
  table ← rm_nbits db;
  let input := {| li_bits := hdr_bits header; li_time := hdr_time header; meets_own_target := p_pow p;
                  prev_height := prev_height; strict_height := strict_height |} in
  match bitcoin_lineage input table with
  | Bitcoin _ => mret None
  | NotBitcoin reason =>
      generation ← load_core_cache_generation c;
      mret (Some (CaptureNotBitcoin reason generation))
  | Pending reason => mret (Some (CapturePending reason))
  end.

Definition retract_child_block (source : Z) (p : MergeMiningEventPayload) : sM (list bytes) :=
  match p_child_block_hash p with
  | None => mret []
  | Some child_hash =>
      let o := non_bitcoin_parent p in
      let parent := p_hash p in
      s ← gets store_view;
      if negb (child_block_is_counted s source (p_child_height p) child_hash parent) then
        '(_, s) ← lift (upsert_child_only_observation s source o);
        _ ← put_store s;
        mret []
      else
        _ ← session;
        db ← gets snd;
        let before := load_block_cascade_state (rm_blocks db) parent in
        s ← gets store_view;
        '(_, s) ← lift (delete_child_block_events s source (p_child_height p) child_hash parent);
        '(_, s) ← lift (upsert_child_only_observation s source o);
        _ ← put_store s;
        db ← gets snd;
        db ← lift (rebuild_parent_read_model invalid_blocks_lookup resolve_pool db parent None None);
        _ ← put_tables db;
        mret (if bool_decide (before = load_block_cascade_state (rm_blocks db) parent) then [] else [parent])
  end.

(** ** Capture *)

Definition classify_payload_parent (db : ReadModel) (p : MergeMiningEventPayload)
    : stM W anyhow (option ParentClassification * MergeMiningEventPayload) :=
  if negb (p_pow p) then mret (None, p) else
  header ← lift (ok_or (Context "deserialize payload parent header for classification" (Other "decode"))
                   (deserialize_header (p_header_bytes p)));
  if negb (is_enabled classifier) && negb (is_some (invalid_blocks_lookup (p_hash p))) then mret (None, p) else
  live ← (if is_enabled classifier then
            c ← Configured_classify_parent classifier header (load_parent_preflight (rm_blocks db) (p_prev_hash p));
            mret (Some c)
          else mret None);
  c ← lift (resolve_parent_classification invalid_blocks_lookup header live);
  p ← lift (apply_classification_proof invalid_blocks_lookup p (to_proof c));
  mret (Some c, p).

(** The reconcile of an event in the transaction that wrote it; others may commit between
    its first reading and its locks. *)
Definition reconcile_written (event_id : Z) (pre : option PreclassifiedParent) (wrapper : option bytes)
    : sM (list bytes) :=
  before ← gets snd;
  _ ← session;
  after ← gets snd;
  '(changed, db) ← on_env (reconcile_one_event_in_txn invalid_blocks_lookup resolve_pool before after event_id
                             classifier pre wrapper None);
  _ ← put_tables db;
  mret changed.

(** [Err] when the lock set changed and an attempt is left: the body rolls back to retry. *)
Definition or_retry {A} (retry : bool) (m : sM A) (k : A → sM (bool * option A)) : sM (bool * option A) :=
  r ← attempt m;
  match r with
  | Ok a => k a
  | Err e => if is_reconcile_lock_set_changed e && retry then mret (false, None) else throw e
  end.

(** A write of the producer: [upsert]. *)
Abbreviation capture_upsert := (CacheDb → StoreDb → Z → MergeMiningEventPayload → result anyhow (CaptureWrite * StoreDb)).

(** One turn of the loop: [None] asks for another. *)
Definition capture_attempt (source : Z) (upsert : capture_upsert) (retry : bool) (p : MergeMiningEventPayload)
    : sM (bool * option (CaptureOutcome * list bytes)) :=
  _ ← session;
  _ ← session;
  db ← gets snd;
  env ← gets fst;
  refused ← lift (refuse_parent db (cache_of env) source p);
  match refused with
  | Some (CaptureNotBitcoin _ _ as refused) =>
      changed ← retract_child_block source p;
      mret (true, Some (refused, changed))
  | Some refused => mret (false, Some (refused, []))
  | None =>
      '(pre, p) ← on_env (classify_payload_parent db p);
      _ ← session;
      c ← gets (λ w, cache_of w.1);
      s ← gets store_view;
      '(write, s) ← lift (upsert c s source p);
      _ ← put_store s;
      or_retry retry
        (changed ← match write with
                   | WroteEvent o => reconcile_written (ow_event_id o) (trusted <$> pre) (Some (p_hash p))
                   | WroteNear _ => mret []
                   end;
         mret (Written write, changed))
        (λ a, mret (true, Some a))
  end.

(** The payload keeps the verdict of a failed attempt, which the next one replaces. *)
Fixpoint capture_attempts (n : nat) (source : Z) (upsert : capture_upsert) (p : MergeMiningEventPayload)
    : sM (CaptureOutcome * list bytes) :=
  match n with
  | O => throw (Other "capture retry loop always returns")
  | S n =>
      r ← transaction (capture_attempt source upsert (negb (n =? 0)%nat) p);
      match r with
      | Some a => mret a
      | None => capture_attempts n source upsert p
      end
  end.

Definition retry_attempts : nat := Nat.max RECONCILE_LOCK_SET_RETRY_LIMIT 1.

(** [CommittedParentMutation::cascade]. *)
Definition cascade_changed (fuel : nat) (changed : list bytes) : sM (option unit) :=
  match changed with
  | [] => mret (Some ())
  | _ => reconcile_dependents_after_changes invalid_blocks_lookup resolve_pool classifier None fuel changed
           DEFAULT_CASCADE_BUDGET
  end.

(** [None] when the fuel of the cascade runs out. *)
Definition capture_event (fuel : nat) (source : Z) (upsert : capture_upsert) (p : MergeMiningEventPayload)
    : sM (option CaptureOutcome) :=
  '(outcome, changed) ← capture_attempts retry_attempts source upsert p;
  done ← cascade_changed fuel changed;
  mret ((λ _, outcome) <$> done).

Definition capture_in_txn := capture_event.

(** ** Revocation *)

(** [str::trim] drops ASCII white space; other white space does not occur in a reason. *)
Definition is_blank (c : Ascii.ascii) : bool :=
  let n := Ascii.nat_of_ascii c in (n =? 32)%nat || ((9 <=? n)%nat && (n <=? 13)%nat).
Fixpoint all_blank (s : string) : bool :=
  match s with EmptyString => true | String c s => is_blank c && all_blank s end.

Definition lock_event_for_source_health (db : ReadModel) (event : MergeMiningEvent)
    (pre : option PreclassifiedParent) : sM unit :=
  if skips_parent_read_model event then session else
  '(_, _) ← on_env (classify_event_parent invalid_blocks_lookup db event classifier pre);
  session.

(** The state of an event the change did not touch: whether it is the one asked for. *)
Definition noop_revocation_is_complete (t : event_table) (event_id : Z) (change : RevocationChange) : result anyhow bool :=
  match event_revoked_state t event_id with
  | Some revoked => mret (eqb revoked (desired_revoked change))
  | None => Err (Other "merge_mining_event not found")
  end.

(** [Some None] when the change was already in place. *)
Definition revocation_attempt (event_id : Z) (change : RevocationChange) (now : Z) (retry : bool)
    : sM (bool * option (option (list bytes))) :=
  _ ← session;
  _ ← session;
  db ← gets snd;
  pre ← on_env (preclassify_event_parent_with_policy invalid_blocks_lookup db event_id classifier false);
  event ← lift (load_event (rm_events db) event_id);
  _ ← lock_event_for_source_health db event pre;
  db ← gets snd;
  let '(affected, t) := apply_revocation_change (rm_events db) event_id change now in
  if affected =? 0 then
    complete ← lift (noop_revocation_is_complete t event_id change);
    if (complete : bool) then mret (false, Some None)
    else if negb retry then throw (Other "failed to change merge_mining_event after retry budget")
    else mret (false, None)
  else
    _ ← put_tables (with_events db t);
    or_retry retry
      (changed ← reconcile_written event_id pre (Some (m_hash event)); mret (Some changed))
      (λ a, mret (true, Some a)).

Fixpoint revocation_attempts (n : nat) (event_id : Z) (change : RevocationChange) (now : Z)
    : sM (option (list bytes)) :=
  match n with
  | O => throw (Other "revocation retry loop always returns")
  | S n =>
      r ← transaction (revocation_attempt event_id change now (negb (n =? 0)%nat));
      match r with
      | Some a => mret a
      | None => revocation_attempts n event_id change now
      end
  end.

Definition set_event_revocation (fuel : nat) (event_id : Z) (change : RevocationChange) : sM (option unit) :=
  _ ← guardM (match change with Revoke reason => negb (all_blank reason) | Restore => true end)
        (Other "revocation reason must be non-empty");
  now ← on_env now_unix_secs;
  r ← revocation_attempts retry_attempts event_id change now;
  match r with
  | Some changed => cascade_changed fuel changed
  | None => mret (Some ())
  end.

Definition revoke_merge_mining_event (fuel : nat) (event_id : Z) (reason : string) : sM (option unit) :=
  set_event_revocation fuel event_id (Revoke reason).
Definition restore_merge_mining_event (fuel : nat) (event_id : Z) : sM (option unit) :=
  set_event_revocation fuel event_id Restore.

(** ** Updates of one parent's events *)

Definition update_parent_attempt (mutate : sM unit) (reconcile_anchor : option Z) (retry : bool)
    : sM (bool * option (list bytes)) :=
  _ ← session;
  _ ← session;
  _ ← match reconcile_anchor with
      | Some anchor =>
          db ← gets snd;
          event ← lift (load_event (rm_events db) anchor);
          lock_event_for_source_health db event None
      | None => session
      end;
  _ ← mutate;
  or_retry retry
    (match reconcile_anchor with
     | Some anchor => reconcile_written anchor None None
     | None => mret []
     end)
    (λ a, mret (true, Some a)).

Fixpoint update_parent_attempts (n : nat) (mutate : sM unit) (reconcile_anchor : option Z) : sM (list bytes) :=
  match n with
  | O => throw (Other "update retry loop always returns")
  | S n =>
      r ← transaction (update_parent_attempt mutate reconcile_anchor (negb (n =? 0)%nat));
      match r with
      | Some a => mret a
      | None => update_parent_attempts n mutate reconcile_anchor
      end
  end.

Definition update_parent_events (fuel : nat) (mutate : sM unit) (reconcile_anchor : option Z) : sM (option unit) :=
  changed ← update_parent_attempts retry_attempts mutate reconcile_anchor;
  on_err (Context "reconcile dependents for parent") (cascade_changed fuel changed).
End capture.

(** ** The invariant of the tables *)

(** The rows of the events and of the blocks satisfy their invariants. *)
Definition capture_ok `{CaptureTables W} (meets : bytes → bool) (w : W * ReadModel) : Prop :=
  blocks_ok (rm_blocks w.2) ∧ store_inv meets (store_view w).

(** A new verdict or revocation of an event: it names the same child block and parent. *)
Definition reverdict (e e' : EventRow) : Prop :=
  (e_id e', e_source_id e', e_child_height e', e_hash e') = (e_id e, e_source_id e, e_child_height e, e_hash e).
Definition reclassified (t t' : event_table) : Prop :=
  ∀ i, option_Forall2 reverdict (t !! i) (t' !! i).

Definition with_event_table (s : StoreDb) (t : event_table) : StoreDb :=
  mkStoreDb t (sd_extra s) (sd_next_event s) (sd_observations s) (sd_next_observation s) (sd_identities s)
    (sd_next_identity s) (sd_attributions s) (sd_provenance s) (sd_heads s).

Lemma reclassified_refl t : reclassified t t.
Proof. intros i. by destruct (t !! i); constructor. Qed.

Lemma reclassified_row s t i e' x : reclassified (sd_events s) t →
  event_row (with_event_table s t) i = Some (e', x) → ∃ e, event_row s i = Some (e, x) ∧ reverdict e e'.
Proof.
  intros Ht [He Hx]%event_row_Some. simpl in He, Hx. specialize (Ht i). rewrite He in Ht.
  inversion Ht as [e ? Hr|]; subst. exists e. by rewrite event_row_Some.
Qed.

Lemma reclassified_store s t : store_ok s → reclassified (sd_events s) t →
  (∀ i e, t !! i = Some e → chk_event e = true) → store_ok (with_event_table s t).
Proof.
  intros [Hobs [Hd Hn Hc Hu Ho] Hl] Ht Hchk. split; [done|split|].
  - simpl. rewrite <- Hd. apply set_eq. intros i. rewrite !elem_of_dom. specialize (Ht i).
    inversion Ht; split; intros; by eauto.
  - simpl. intros i e He. specialize (Ht i). rewrite He in Ht. inversion Ht as [e0 ? ? He0|]. by apply (Hn i e0).
  - intros i e' x He'. apply event_row_Some in He' as Ht'. destruct Ht' as [Hte _].
    destruct (reclassified_row _ _ _ _ _ Ht He') as (e & He & Hr). destruct (Hc _ _ _ He) as [Hid Hcol].
    unfold chk_event_columns in *. apply andb_prop in Hcol as [_ Hcol]. rewrite (Hchk _ _ Hte).
    injection Hr as -> _ -> _. done.
  - intros i j e x e' x' (e0 & He & Hr)%(reclassified_row _ _ _ _ _ Ht) (e1 & He1 & Hr1)%(reclassified_row _ _ _ _ _ Ht) Hk.
    apply (Hu i j e0 x e1 x' He He1). injection Hr as _ Hs Ht1 Hh. injection Hr1 as _ Hs' Ht' Hh'.
    unfold same_child in Hk. by rewrite Hs, Ht1, Hh, Hs', Ht', Hh' in Hk.
  - done.
  - intros i e x (e0 & He & Hr)%(reclassified_row _ _ _ _ _ Ht). destruct (Hl _ _ _ He) as (o & Hlo & Hlink).
    exists o. split; [done|]. intros Hi. destruct (Hlink Hi) as [[Hn1 Hn2 Hn3] Hk Hp]. injection Hr as _ Hs Ht1 Hh.
    split; [split|..]; try congruence. intros Hnone. rewrite Ht1. auto.
Qed.

Lemma reclassified_inv meets s t : store_inv meets s → reclassified (sd_events s) t →
  (∀ i e, t !! i = Some e → chk_event e = true) → store_inv meets (with_event_table s t).
Proof.
  intros [Hok Hm] Ht Hchk. split; [by apply reclassified_store|].
  intros i e x (e0 & He & [= _ _ _ ->])%(reclassified_row _ _ _ _ _ Ht). by eapply Hm.
Qed.

Lemma store_events_chk s : store_ok s → ∀ i e, sd_events s !! i = Some e → e_id e = i ∧ chk_event e = true.
Proof.
  intros [_ [Hd _ Hc _ _] _] i e He. assert (i ∈ dom (sd_extra s)) as Hi by (rewrite <- Hd; apply elem_of_dom; by exists e).
  apply elem_of_dom in Hi as [x Hx]. destruct (Hc i e x) as [Hid Hcol]; [by apply event_row_Some|].
  by apply andb_prop in Hcol as [Hcol _].
Qed.

Section reconciled.
Context `{BitcoinLib} {W : Type} `{CoreHeaderSource W} `{Clock W}.
Context (lookup : bytes → option InvalidBlock) (resolve_pool : bytes → option bytes → option Z).

Lemma reconcile_reclassifies before after event_id classifier pre wrapper nt (w : W) changed db' w' :
  blocks_ok (rm_blocks after) →
  reconcile_one_event_in_txn lookup resolve_pool before after event_id classifier pre wrapper nt w
    = (Ok (changed, db'), w') →
  blocks_ok (rm_blocks db') ∧ reclassified (rm_events after) (rm_events db') ∧
  ((∀ i e, rm_events after !! i = Some e → chk_event e = true) →
   ∀ i e, rm_events db' !! i = Some e → chk_event e = true).
Proof.
  intros Hb Hr.
  apply reconcile_inv in Hr as [(-> & -> & _)|(ie & ih & ic & w1 & ev & h & c & _ & _ & _ & _ & _ & _ & Hl)].
  { split_and!; [done|apply reclassified_refl|done]. }
  pose proof Hl as Hl'. apply reconcile_locked_spec in Hl as (Hb' & _); [|done]. split; [done|].
  unfold reconcile_locked in Hl'. apply bind_Ok in Hl' as (events & Ha & Hl'). cbv zeta in Hl'.
  apply bind_Ok in Hl' as ([ch t] & Hs & Hl'). apply bind_Ok in Hl' as (db1 & Hrb & [= <- <-]).
  apply upsert_siblings_spec in Hs as (Hb1 & _); [|done].
  apply rebuild_spec in Hrb as (_ & _ & (Hev & _) & _); [|done]. simpl in Hev. rewrite Hev.
  apply apply_event_spec in Ha as [Hchk Hev']. split; [|auto].
  intros i. rewrite Hev'. destruct (rm_events after !! i) as [e|]; constructor.
  by destruct (classification_updates _ _ e).
Qed.
End reconciled.

(** The store's tables stay. *)
Definition same_store `{CaptureTables W} (w w' : W) : Prop := store_of w' = store_of w.
#[global] Instance same_store_preorder `{CaptureTables W} : PreOrder (same_store (W := W)).
Proof. split; [by intros w|]. intros a b c Hab Hbc. unfold same_store in *. congruence. Qed.

(** Calls to Core, the clock and the commit move the environment along [R]. *)
Class QuietCalls {W : Type} (R : W → W → Prop) `{CoreHeaderSource W} `{Clock W} `{ReadModelSession W} := {
  env_status : steps R (get_chain_status : stM W anyhow _);
  env_hash h : steps R (get_block_hash h : stM W anyhow _);
  env_header k h : steps R (get_header k h : stM W anyhow _);
  env_block_header k : steps R (get_block_header k : stM W anyhow _);
  env_verbose k : steps R (get_header_verbose k : stM W anyhow _);
  env_coinbase k : steps R (get_block_coinbase k : stM W anyhow _);
  env_now : steps R (now_unix_secs : stM W anyhow _);
  env_commit : steps R (commit : stM W anyhow _);
}.
#[export] Hint Resolve env_status env_hash env_header env_block_header env_verbose env_coinbase env_now env_commit : steps.

(** They leave the store's tables alone. *)
Abbreviation CaptureEnv W := (@QuietCalls W same_store _ _ _).

Lemma steps_guard {W E} (R : W → W → Prop) `{!PreOrder R} c (e : E) : steps R (guardM c e).
Proof. apply steps_lift. apply _. Qed.

Section calls.
Context `{BitcoinLib} {W : Type} `{CoreHeaderSource W} `{Clock W} `{ReadModelSession W}.
Context (R : W → W → Prop) `{!PreOrder R} `{!QuietCalls R}.
Context (lookup : bytes → option InvalidBlock) (resolve_pool : bytes → option bytes → option Z).
Context (classifier : ConfiguredParentClassifier).
#[local] Hint Resolve steps_guard : steps.

Lemma mtp_loop_env n k b : steps R (mtp_loop n k b : stM W anyhow _).
Proof. revert k. induction n as [|n IH]; intros k; simpl; solve_steps. Qed.
#[local] Hint Resolve mtp_loop_env : steps.
Lemma fetch_competitor_env h b : steps R (fetch_competitor h b : stM W anyhow _).
Proof. unfold fetch_competitor. solve_steps. Qed.
#[local] Hint Resolve fetch_competitor_env : steps.
Lemma mtp_env h b : steps R (median_time_past_passes h b : stM W anyhow _).
Proof. unfold median_time_past_passes. solve_steps. Qed.
#[local] Hint Resolve mtp_env : steps.
Lemma inferred_env h p c k b : steps R (classify_inferred_stale h p c k b : stM W anyhow _).
Proof. unfold classify_inferred_stale. solve_steps. Qed.
#[local] Hint Resolve inferred_env : steps.
Lemma core_unknown_env live h p b : steps R (classify_core_unknown live h p b : stM W anyhow _).
Proof. unfold classify_core_unknown, classify_by_core_prev, classify_invalid_block_child. solve_steps. Qed.
#[local] Hint Resolve core_unknown_env : steps.
Lemma classify_env c h p : steps R (Configured_classify_parent c h p : stM W anyhow _).
Proof.
  destruct c as [|live]; [apply steps_ret; apply _|]. simpl.
  unfold classify_parent_deferred, classify_parent_deferred_with_policy, classify_absent, classify_indexed, ready_tip,
    fetch_coinbase. solve_steps.
Qed.
Lemma classify_strict_env c h p : steps R (Configured_classify_parent_strict c h p : stM W anyhow _).
Proof.
  destruct c as [|live]; [apply steps_ret; apply _|]. simpl.
  unfold classify_parent_strict, classify_parent_deferred_with_policy, classify_absent, classify_indexed, ready_tip,
    fetch_coinbase. solve_steps.
Qed.
#[local] Hint Resolve classify_env classify_strict_env : steps.

Lemma classify_event_env db event pre strict :
  steps R (classify_event_parent_with_policy lookup db event classifier pre strict : stM W anyhow _).
Proof. unfold classify_event_parent_with_policy. solve_steps. Qed.
#[local] Hint Resolve classify_event_env : steps.
Lemma preclassify_env db i strict :
  steps R (preclassify_event_parent_with_policy lookup db i classifier strict : stM W anyhow _).
Proof. unfold preclassify_event_parent_with_policy. solve_steps. Qed.
Lemma reconcile_env before after i pre wrapper nt :
  steps R (reconcile_one_event_in_txn lookup resolve_pool before after i classifier pre wrapper nt : stM W anyhow _).
Proof. unfold reconcile_one_event_in_txn, load_locked_reconcile_event, classify_event_parent. solve_steps. Qed.
Lemma classify_payload_env db p : steps R (classify_payload_parent lookup classifier db p : stM W anyhow _).
Proof. unfold classify_payload_parent. solve_steps. Qed.
End calls.

Section invariant.
Context `{BitcoinLib} {W : Type} `{CoreHeaderSource W} `{Clock W} `{ReadModelSession W} `{CaptureTables W}.
Context `{!CaptureTablesLaws W} `{!CaptureEnv W}.
Context (lookup : bytes → option InvalidBlock) (resolve_pool : bytes → option bytes → option Z).
Context (classifier : ConfiguredParentClassifier).
Context (meets : bytes → bool).
#[local] Abbreviation sound := (capture_ok meets).
#[local] Abbreviation stored := (store_inv meets).

#[local] Abbreviation sM := (stM (W * ReadModel) anyhow).
#[local] Hint Resolve steps_guard classify_env classify_strict_env classify_event_env : steps.

(** A step that keeps the invariant. *)
Definition keeps (w w' : W * ReadModel) : Prop := sound w → sound w'.
#[local] Instance keeps_preorder : PreOrder keeps.
Proof. split; [by intros w Hw|]. intros a b c Hab Hbc Ha. auto. Qed.

Lemma on_env_keeps {A} (m : stM W anyhow A) : steps same_store m → steps keeps (on_env m).
Proof.
  intros Hm w [Hb Hs]. specialize (Hm w.1). unfold on_env. destruct (m w.1) as [r e]. simpl in *. split; [done|].
  unfold store_view. simpl. by rewrite Hm.
Qed.
#[local] Hint Resolve on_env_keeps env_commit : steps.

Lemma put_view s (w : W * ReadModel) : store_view (set_store s w.1, with_events w.2 (sd_events s)) = s.
Proof. unfold store_view. simpl. rewrite store_of_set. by destruct s. Qed.

Lemma restore_view w w' : store_view (restore w w') = store_view w.
Proof. unfold store_view, restore. simpl. by rewrite store_of_set. Qed.
Lemma restore_ok w w' : sound w → sound (restore w w').
Proof. intros [Hb Hs]. split; [done|]. by rewrite restore_view. Qed.

Lemma transaction_keeps {A} (m : sM (bool * A)) : steps keeps m → steps keeps (transaction m).
Proof.
  intros Hm w Hok. specialize (Hm w Hok). unfold transaction. destruct (m w) as [[[[] a]|e] w']; simpl in *;
    try by apply restore_ok.
  pose proof (on_env_keeps commit env_commit w' Hm) as Hc. destruct (on_env commit w') as [[u|e] w'']; simpl in *;
    [done|by apply restore_ok].
Qed.

(** A statement of the store on the tables it sees. *)
Lemma store_write_keeps {A B} (f : StoreDb → result anyhow (A * StoreDb)) (k : A → sM B) :
  (∀ s a s', stored s → f s = Ok (a, s') → stored s') → (∀ a, steps keeps (k a)) →
  steps keeps (s ← gets store_view; '(a, s) ← lift (f s); _ ← put_store s; k a).
Proof.
  intros Hf Hk w Hok. unfold mbind, stM_bind, gets, lift. simpl. destruct (f (store_view w)) as [[a s]|e] eqn:Hw; [|done].
  simpl. apply Hk. destruct Hok as [Hb Hs]. split; [done|]. rewrite put_view. by apply (Hf _ _ _ Hs Hw).
Qed.

Lemma view_events (w : W * ReadModel) db : store_view (w.1, db) = with_event_table (store_view w) (rm_events db).
Proof. done. Qed.

Lemma reconciled_ok (env : W) before after i c pre wrapper nt (w : W) changed db' w' :
  sound (env, after) →
  reconcile_one_event_in_txn lookup resolve_pool before after i c pre wrapper nt w = (Ok (changed, db'), w') →
  sound (env, db').
Proof.
  intros [Hb Hs] Hr. apply reconcile_reclassifies in Hr as (Hb' & Hre & Hchk); [|done]. split; [done|].
  rewrite (view_events (env, after)). apply reclassified_inv; [done|done|]. apply Hchk. intros j e He.
  by apply (store_events_chk _ (inv_store _ _ Hs) j e).
Qed.

Lemma reconcile_tables_ok before after i pre wrapper nt (w : W) changed db' w' :
  sound (w, after) →
  reconcile_one_event_in_txn lookup resolve_pool before after i classifier pre wrapper nt w = (Ok (changed, db'), w') →
  sound (w', db').
Proof.
  intros Hok Hr. pose proof (reconcile_env same_store lookup resolve_pool classifier before after i pre wrapper nt w) as Hst.
  rewrite Hr in Hst. simpl in Hst. apply (reconciled_ok w) in Hr as [Hb Hs]; [|done]. split; [done|].
  unfold store_view in *. simpl in *. by rewrite Hst.
Qed.

Lemma apply_revocation_reverdict t i change now : reclassified t (apply_revocation_change t i change now).2.
Proof.
  unfold apply_revocation_change. destruct (t !! i) as [e|] eqn:He; [|apply reclassified_refl].
  destruct change; destruct (is_active e); simpl; try apply reclassified_refl.
  all: intros j; destruct (decide (i = j)) as [<-|Hj];
    [rewrite lookup_insert_eq, He; by constructor|rewrite lookup_insert_ne by done; apply reclassified_refl].
Qed.

Lemma revocation_ok (w : W * ReadModel) i change now : sound w →
  sound (w.1, with_events w.2 (apply_revocation_change (rm_events w.2) i change now).2).
Proof.
  intros [Hb Hs]. split; [done|]. rewrite view_events. simpl.
  apply reclassified_inv; [done|apply apply_revocation_reverdict|].
  pose proof (store_events_chk _ (inv_store _ _ Hs)) as Hchk. simpl in Hchk. unfold apply_revocation_change.
  destruct (rm_events w.2 !! i) as [e|] eqn:He; [|intros j f Hf; by apply (Hchk j)].
  destruct change; destruct (is_active e); simpl; intros j f Hf; try by apply (Hchk j f).
  all: apply lookup_insert_Some in Hf as [[_ <-]|[_ Hf]]; [by apply (Hchk i e)|by apply (Hchk j)].
Qed.

(** ** Other sessions *)

(** What other sessions commit between two statements: the statements of this development. They
    write the store, reconcile an event, rebuild the row of a parent, revoke or restore an
    event, write a block row or rebind its competitor, and change tables the invariant does not
    read. *)
Inductive others (w : W * ReadModel) : W * ReadModel → Prop :=
  | others_env env : same_store w.1 env → others w (env, w.2)
  | others_store s : store_write meets (store_view w) s → others w (set_store s w.1, with_events w.2 (sd_events s))
  | others_reconcile before i c pre wrapper nt changed db (env env' : W) :
      reconcile_one_event_in_txn lookup resolve_pool before w.2 i c pre wrapper nt env = (Ok (changed, db), env') →
      others w (w.1, db)
  | others_rebuild hash input nt db :
      rebuild_parent_read_model lookup resolve_pool w.2 hash input nt = Ok db → others w (w.1, db)
  | others_revoke i change now : others w (w.1, with_events w.2 (apply_revocation_change (rm_events w.2) i change now).2)
  | others_row r t : store_row (rm_blocks w.2) r = Ok t → others w (w.1, with_blocks w.2 t)
  | others_rebind h gone c t : rebind_stale_competitors (rm_blocks w.2) h gone c = Ok t → others w (w.1, with_blocks w.2 t)
  | others_rest db : rm_blocks db = rm_blocks w.2 → rm_events db = rm_events w.2 → others w (w.1, db).

Lemma others_keep w w' : others w w' → keeps w w'.
Proof.
  intros Ho Hok. pose proof Hok as [Hb Hs].
  destruct Ho as [env He|s Hw|before i c pre wrapper nt changed db env env' Hr|hash input nt db Hr|i change now|r t Ht
    |h gone c t Ht|db Hbl Hev].
  - split; [done|]. unfold store_view in *. simpl. by rewrite He.
  - split; [done|]. rewrite put_view. by eapply store_write_inv.
  - destruct w as [we wm]. by apply (reconciled_ok we before wm i c pre wrapper nt env changed db env').
  - apply rebuild_spec in Hr as (Hb' & _ & (Hev & _) & _); [|done]. split; [done|]. by rewrite view_events, Hev.
  - by apply revocation_ok.
  - apply store_row_blocks in Ht as [Hb' _]; [|done]. by split.
  - apply rebind_blocks in Ht as [Hb' _]; [|done]. by split.
  - split; [simpl; by rewrite Hbl|]. by rewrite view_events, Hev.
Qed.

Lemma others_blocks w w' : others w w' → blocks_ok (rm_blocks w.2) → blocks_ok (rm_blocks w'.2).
Proof.
  intros Ho Hb.
  destruct Ho as [env He|s Hw|before i c pre wrapper nt changed db env env' Hr|hash input nt db Hr|i change now|r t Ht
    |h gone c t Ht|db Hbl Hev]; [done|done| | |done| | |].
  - by apply reconcile_reclassifies in Hr as (Hb' & _ & _).
  - by apply rebuild_spec in Hr as (Hb' & _).
  - by apply store_row_blocks in Ht as [Hb' _].
  - by apply rebind_blocks in Ht as [Hb' _].
  - simpl. by rewrite Hbl.
Qed.

Context (session_others : steps (rtc others) (session : sM _)).
Lemma session_blocks w r w' : session w = (r, w') → blocks_ok (rm_blocks w.2) → blocks_ok (rm_blocks w'.2).
Proof.
  intros Hs. pose proof (session_others w) as Hr. rewrite Hs in Hr. simpl in Hr. clear Hs.
  induction Hr as [|w1 w2 w3 Ho _ IH]; [done|]. intros Hb. by apply IH, (others_blocks w1).
Qed.
Lemma session_keeps : steps keeps (session : sM _).
Proof.
  intros w. pose proof (session_others w) as Hs. induction Hs as [|w1 w2 w3 Ho _ IH]; [done|].
  intros Hok. by apply IH, (others_keep w1).
Qed.
#[local] Hint Resolve session_keeps : steps.

Lemma reconcile_written_keeps i pre wrapper : steps keeps (reconcile_written lookup resolve_pool classifier i pre wrapper).
Proof.
  unfold reconcile_written. apply steps_bind; [apply _|solve_steps|]. intros before.
  apply steps_bind; [apply _|solve_steps|]. intros _. intros w Hok.
  unfold mbind, stM_bind, gets, on_env, put_tables, modify. simpl.
  destruct (reconcile_one_event_in_txn _ _ _ _ _ _ _ _ _ _) as [[[changed db]|e] w'] eqn:Hr; simpl.
  - destruct w as [we wm]. by apply (reconcile_tables_ok _ _ _ _ _ _ _ _ _ _ Hok Hr).
  - apply (on_env_keeps _ (reconcile_env same_store lookup resolve_pool classifier before w.2 i pre wrapper None)) in Hok.
    unfold on_env in Hok. by rewrite Hr in Hok.
Qed.

Lemma or_retry_keeps {A} retry (m : sM A) k : steps keeps m → (∀ a, steps keeps (k a)) → steps keeps (or_retry retry m k).
Proof. intros Hm Hk. unfold or_retry. solve_steps. Qed.

Lemma rebuild_keeps hash (k : ReadModel → sM (list bytes)) : (∀ db, steps keeps (k db)) →
  steps keeps (db ← gets snd; db ← lift (rebuild_parent_read_model lookup resolve_pool db hash None None); _ ← put_tables db; k db).
Proof.
  intros Hk w Hok. unfold mbind, stM_bind, gets, lift, put_tables, modify. simpl.
  destruct (rebuild_parent_read_model _ _ _ _ _ _) as [db|e] eqn:Hr; [|done]. apply Hk.
  destruct Hok as [Hb Hs]. apply rebuild_spec in Hr as (Hb' & _ & (Hev & _) & _); [|done]. split; [done|].
  rewrite view_events, Hev. done.
Qed.

Lemma put_store_ok s (w : W * ReadModel) : sound w → stored s →
  sound (set_store s w.1, with_events w.2 (sd_events s)).
Proof. intros [Hb _] Hs. split; [done|]. by rewrite put_view. Qed.

(** The statements of a counted block, once its locks are held. *)
Lemma retract_counted_keeps source p hash (k : ReadModel → sM (list bytes)) : p_child_block_hash p = Some hash →
  (∀ db, steps keeps (k db)) →
  steps keeps (s ← gets store_view;
    '(_, s) ← lift (delete_child_block_events s source (p_child_height p) hash (p_hash p));
    '(_, s) ← lift (upsert_child_only_observation s source (non_bitcoin_parent p));
    _ ← put_store s;
    db ← gets snd;
    db ← lift (rebuild_parent_read_model lookup resolve_pool db (p_hash p) None None);
    _ ← put_tables db;
    k db).
Proof.
  intros Hhash Hk w Hok. unfold mbind at 1 2 3 4, stM_bind at 1 2 3 4, gets at 1, lift at 1 2. simpl.
  destruct (delete_child_block_events _ _ _ _ _) as [[n s1]|e] eqn:Hd; [|done]. simpl.
  destruct (upsert_child_only_observation s1 _ _) as [[o s2]|e] eqn:Hu; [|done]. simpl.
  apply (rebuild_keeps (p_hash p) k Hk (set_store s2 w.1, with_events w.2 (sd_events s2))).
  destruct Hok as [Hb Hs]. apply put_store_ok; [by split|].
  by eapply retract_inv.
Qed.

Lemma retract_keeps source p : steps keeps (retract_child_block lookup resolve_pool source p).
Proof.
  unfold retract_child_block. destruct (p_child_block_hash p) as [hash|] eqn:Hhash; [|solve_steps]. cbv zeta.
  intros w Hok. unfold mbind at 1, stM_bind at 1, gets at 1. simpl.
  destruct (child_block_is_counted _ _ _ _ _) eqn:Hc; simpl.
  - match goal with |- sound (?m w).2 => assert (steps keeps m) as Hm; [|exact (Hm w Hok)] end.
    apply steps_bind; [apply _|solve_steps|]. intros _.
    apply steps_bind; [apply _|solve_steps|]. intros db.
    apply (retract_counted_keeps source p hash (λ db0, mret (if bool_decide (load_block_cascade_state (rm_blocks db) (p_hash p)
              = load_block_cascade_state (rm_blocks db0) (p_hash p)) then [] else [p_hash p])) Hhash).
    solve_steps.
  - unfold mbind at 1 2, stM_bind at 1 2, lift. simpl. destruct Hok as [Hb Hs].
    destruct (upsert_child_only_observation _ _ _) as [[o s2]|e] eqn:Hu; simpl; [|by split].
    apply put_store_ok; [by split|]. apply (child_only_inv meets) in Hu; [done|done|]. right.
    apply (uncounted_unbacked _ _ _ hash); [apply Hs|done..].
Qed.

(** ** The invariant through a capture *)

(** What the gate's verdict may change of a payload. *)
Lemma classify_payload_hash db p (w : W) pre p' w' :
  classify_payload_parent lookup classifier db p w = (Ok (pre, p'), w') → p_hash p' = p_hash p ∧ p_pow p' = p_pow p.
Proof.
  unfold classify_payload_parent. destruct (p_pow p) eqn:Hp; simpl; intros Hc; st_inv; [|done].
  destruct (negb (is_enabled classifier) && _); st_inv; [by split|].
  match goal with Hx : apply_classification_proof _ _ _ = Ok _ |- _ => rename Hx into Ha end.
  unfold apply_classification_proof in Ha. destruct (invalid_block_proof _ _ _ _) as [k h].
  by apply bind_Ok in Ha as (kind & _ & [= <-]).
Qed.

Lemma classify_payload_true db p (w : W) pre p' w' : payload_true meets p →
  classify_payload_parent lookup classifier db p w = (Ok (pre, p'), w') → payload_true meets p'.
Proof.
  intros Ht Hc. pose proof Hc as [Hh Hp]%classify_payload_hash. pose proof Ht as [Hm Hn]. unfold payload_true. rewrite Hh, Hp.
  split; [done|]. unfold classify_payload_parent in Hc. destruct (p_pow p) eqn:Hpow; simpl in Hc; st_inv; [|done].
  destruct (negb (is_enabled classifier) && _); st_inv; [done|].
  match goal with Hx : apply_classification_proof _ _ _ = Ok _ |- _ => rename Hx into Ha end.
  unfold apply_classification_proof in Ha. destruct (invalid_block_proof _ _ _ _) as [k h].
  apply bind_Ok in Ha as (kind & Hk & [= <-]). simpl. split; [|done]. intros ->.
  rewrite Hpow in Hk. unfold classify_parent in Hk. simpl in Hk. destruct k as [[]|]; simplify_eq/=; by destruct h.
Qed.

(** The closure of a producer runs statements of the store. *)
Definition producer (upsert : CacheDb → StoreDb → Z → MergeMiningEventPayload → result anyhow (CaptureWrite * StoreDb)) : Prop :=
  ∀ c s source p a s', payload_true meets p → upsert c s source p = Ok (a, s') → rtc (store_write meets) s s'.

Lemma capture_attempt_keeps source upsert retry p : producer upsert → payload_true meets p →
  steps keeps (capture_attempt lookup resolve_pool classifier source upsert retry p).
Proof.
  intros Hup Hpt. unfold capture_attempt.
  do 2 (apply steps_bind; [apply _|solve_steps|]; intros _).
  apply steps_bind; [apply _|solve_steps|]; intros db.
  apply steps_bind; [apply _|solve_steps|]; intros env.
  apply steps_bind; [apply _|solve_steps|]; intros [[]|]; [solve_steps| |solve_steps|].
  { apply steps_bind; [apply _|apply retract_keeps|solve_steps]. }
  intros w Hok. unfold mbind at 1, stM_bind at 1.
  pose proof (on_env_keeps _ (classify_payload_env same_store lookup classifier db p) w Hok) as Hok1. unfold on_env in *.
  destruct (classify_payload_parent lookup classifier db p w.1) as [[[pre p']|e] we] eqn:Hcl; simpl in *; [|done].
  apply classify_payload_true in Hcl; [|done].
  match goal with |- sound (?m ?w1).2 => assert (steps keeps m) as Hm; [|exact (Hm w1 Hok1)] end.
  apply steps_bind; [apply _|solve_steps|]; intros _.
  apply steps_bind; [apply _|solve_steps|]; intros c.
  apply (store_write_keeps (λ s, upsert c s source p')); [intros s a s' Hs Hw; by eapply store_writes_inv, Hs; eapply Hup|].
  intros a. apply or_retry_keeps; [|solve_steps].
  destruct a; [apply steps_bind; [apply _|apply reconcile_written_keeps|solve_steps]|solve_steps].
Qed.

Lemma capture_attempts_keeps n source upsert p : producer upsert → payload_true meets p →
  steps keeps (capture_attempts lookup resolve_pool classifier n source upsert p).
Proof.
  intros Hup Hpt. induction n as [|n IH]; simpl; [solve_steps|].
  apply steps_bind; [apply _|by apply transaction_keeps, capture_attempt_keeps|]. intros []; [solve_steps|exact IH].
Qed.

Lemma commit_tables_keeps db (w : W * ReadModel) : sound w → sound (w.1, db) →
  sound (commit_tables db w).2.
Proof.
  intros Hok Hdb. unfold commit_tables, mbind, stM_bind, on_err, on_env, modify.
  pose proof (env_commit w.1) as Hc. destruct (commit w.1) as [[u|e] we]; simpl in *.
  - destruct Hdb as [Hb Hs]. split; [done|]. unfold store_view in *. simpl in *. by rewrite Hc.
  - destruct Hok as [Hb Hs]. split; [done|]. unfold store_view in *. simpl in *. by rewrite Hc.
Qed.

Lemma reconcile_attempts_keeps n i pre strict :
  steps keeps (reconcile_attempts lookup resolve_pool classifier None n i pre strict no_settle).
Proof.
  revert pre. induction n as [|n IH]; intros pre; simpl; [solve_steps|]. unfold tables.
  apply steps_bind; [apply _|solve_steps|]; intros _.
  apply steps_bind; [apply _|solve_steps|]; intros b0.
  apply steps_bind; [apply _| |]; [destruct (negb _); [solve_steps|apply on_env_keeps, preclassify_env; apply _]|]. intros pre'.
  apply steps_bind; [apply _|solve_steps|]; intros _.
  apply steps_bind; [apply _|solve_steps|]; intros before.
  apply steps_bind; [apply _|solve_steps|]; intros _.
  intros w Hok. unfold mbind at 1 2, stM_bind at 1 2, gets at 1, attempt at 1, on_env at 1. simpl.
  pose proof (on_env_keeps _ (reconcile_env same_store lookup resolve_pool classifier before w.2 i pre' None None) w Hok) as Hok1. unfold on_env in Hok1.
  destruct (reconcile_one_event_in_txn _ _ _ _ _ _ _ _ _ _) as [[[changed db]|e] we] eqn:Hr; simpl in *.
  - unfold mbind, stM_bind, no_settle. simpl.
    assert (sound (we, db)) as Hdb by (destruct w; by apply (reconcile_tables_ok _ _ _ _ _ _ _ _ _ _ Hok Hr)).
    pose proof (commit_tables_keeps db (we, w.2) Hok1 Hdb) as Hc. by destruct (commit_tables db (we, w.2)) as [[]].
  - match goal with |- sound (?m ?w1).2 => assert (steps keeps m) as Hm; [|exact (Hm w1 Hok1)] end. solve_steps.
Qed.

Lemma reconcile_block_keeps hash strict :
  steps keeps (reconcile_one_block_with_policy lookup resolve_pool classifier None hash strict no_settle).
Proof.
  unfold reconcile_one_block_with_policy, tables.
  apply steps_bind; [apply _|solve_steps|]; intros _.
  apply steps_bind; [apply _|solve_steps|]; intros db.
  destruct (find_anchor_event_for_block _ _); [apply reconcile_attempts_keeps|].
  apply steps_bind; [apply _|solve_steps|]; intros _.
  intros w Hok. unfold mbind at 1 2, stM_bind at 1 2, gets at 1, lift at 1. simpl.
  destruct (rebuild_parent_read_model _ _ _ _ _ _) as [db'|e] eqn:Hr; [|done].
  apply rebuild_spec in Hr as (Hb' & _ & (Hev & _) & _); [|by destruct Hok]. simpl.
  unfold mbind, stM_bind, no_settle. simpl.
  assert (sound (w.1, db')) as Hdb. { destruct Hok. split; [done|]. by rewrite view_events, Hev. }
  pose proof (commit_tables_keeps db' w Hok Hdb) as Hc. by destruct (commit_tables db' w) as [[]].
Qed.

Lemma enqueue_all_keeps hashes st : steps keeps (enqueue_all hashes st : sM _).
Proof.
  revert st. induction hashes as [|h hs IH]; intros st; simpl; [solve_steps|].
  apply steps_bind; [apply _| |exact IH]. unfold enqueue_dependents, tables. solve_steps.
Qed.

Lemma cascade_keeps fuel budget st : steps keeps (cascade_loop lookup resolve_pool classifier None fuel budget st).
Proof.
  revert st. induction fuel as [|fuel IH]; intros st; simpl; [solve_steps|].
  destruct (cs_queue st) as [|work queue]; [solve_steps|].
  destruct (match budget with Some b => _ | None => _ end); [solve_steps|].
  destruct (was_visited st work); [exact (IH _)|].
  apply steps_bind; [apply _| |].
  - destruct work; [apply reconcile_attempts_keeps|apply reconcile_attempts_keeps|apply reconcile_block_keeps].
  - intros changed. apply steps_bind; [apply _|apply enqueue_all_keeps|exact IH].
Qed.

Lemma cascade_changed_keeps fuel changed : steps keeps (cascade_changed lookup resolve_pool classifier fuel changed).
Proof.
  unfold cascade_changed. destruct changed as [|h hs]; [solve_steps|].
  unfold reconcile_dependents_after_changes. apply steps_bind; [apply _|apply enqueue_all_keeps|].
  intros st. destruct (cs_queue st); [solve_steps|]. unfold drain_reconcile_queue.
  apply steps_bind; [apply _| |solve_steps]. apply steps_bind; [apply _|apply cascade_keeps|solve_steps].
Qed.

Lemma revocation_attempt_keeps i change now retry :
  steps keeps (revocation_attempt lookup resolve_pool classifier i change now retry).
Proof.
  unfold revocation_attempt.
  do 2 (apply steps_bind; [apply _|solve_steps|]; intros _).
  apply steps_bind; [apply _|solve_steps|]; intros db.
  apply steps_bind; [apply _|apply on_env_keeps, preclassify_env; apply _|]; intros pre.
  apply steps_bind; [apply _|solve_steps|]; intros event.
  apply steps_bind; [apply _| |]; [unfold lock_event_for_source_health, classify_event_parent; solve_steps; apply on_env_keeps, classify_event_env; apply _|].
  intros _. intros w Hok. unfold mbind at 1, stM_bind at 1, gets at 1. simpl.
  pose proof (revocation_ok w i change now Hok) as Hrev.
  destruct (apply_revocation_change (rm_events w.2) i change now) as [affected t]. simpl in Hrev.
  destruct (affected =? 0).
  - match goal with |- sound (?m w).2 => assert (steps keeps m) as Hm; [|exact (Hm w Hok)] end. solve_steps.
  - unfold mbind at 1, stM_bind at 1, put_tables, modify. simpl.
    match goal with |- sound (?m ?w1).2 => assert (steps keeps m) as Hm; [|exact (Hm w1 Hrev)] end.
    apply or_retry_keeps; [|solve_steps]. apply steps_bind; [apply _|apply reconcile_written_keeps|solve_steps].
Qed.

Lemma revocation_attempts_keeps n i change now :
  steps keeps (revocation_attempts lookup resolve_pool classifier n i change now).
Proof.
  induction n as [|n IH]; simpl; [solve_steps|].
  apply steps_bind; [apply _|apply transaction_keeps, revocation_attempt_keeps|]. intros []; [solve_steps|exact IH].
Qed.

(** C2. A capture with its retries, retraction and cascade, and a revocation or a restoration,
    leave the tables in a consistent state: every block row satisfies its constraints and names
    a stored competitor, child blocks have one event and one observation per source, every event
    is linked to its own observation, and its parent meets Bitcoin's target. This holds whatever
    Core answers and wherever the operation fails, for events and nears alike, while other
    sessions commit any of the statements of [others] in between; the payload says truly whether
    its parent meets the target, and the closure of the producer runs statements of the store. *)
Theorem captures_keep_tables fuel source upsert p i change (w : W * ReadModel) :
  producer upsert → payload_true meets p → sound w →
  sound (capture_in_txn lookup resolve_pool classifier fuel source upsert p w).2 ∧
  sound (set_event_revocation lookup resolve_pool classifier fuel i change w).2.
Proof.
  intros Hup Hpt Hok. split; revert w Hok.
  - change (steps keeps (capture_event lookup resolve_pool classifier fuel source upsert p)). unfold capture_event.
    apply steps_bind; [apply _|by apply capture_attempts_keeps|]. intros [outcome changed].
    apply steps_bind; [apply _|apply cascade_changed_keeps|solve_steps].
  - change (steps keeps (set_event_revocation lookup resolve_pool classifier fuel i change)). unfold set_event_revocation.
    apply steps_bind; [apply _|solve_steps|]; intros _.
    apply steps_bind; [apply _|apply on_env_keeps, env_now|]; intros now.
    apply steps_bind; [apply _|apply revocation_attempts_keeps|]. intros [changed|]; [apply cascade_changed_keeps|solve_steps].
Qed.
End invariant.

(** ** What a capture leaves *)

(** No event of the source holds the child block, whose observation says its parent is not
    Bitcoin's. *)
Definition retracted (source : Z) (hash : bytes) (s : StoreDb) : Prop :=
  (∀ i e x, event_row s i = Some (e, x) → e_source_id e = source → x_child_hash x ≠ Some hash) ∧
  ∃ j o, sd_observations s !! j = Some o ∧ o_source o = source ∧ o_child_hash o = Some hash ∧
    o_kind o = ObsNonBitcoinParent.

(** The gate on a parent that is not in the catalogue of invalid blocks. *)
Definition gate_lineage `{BitcoinLib} (lookup : bytes → option InvalidBlock) (db : ReadModel) (c : CacheDb) (source : Z)
    (p : MergeMiningEventPayload) (verdict : Lineage) : Prop :=
  lookup (p_hash p) = None ∧
  ∃ header prev_height strict_height table,
    deserialize_header (p_header_bytes p) = Some header ∧
    prev_height = placed_prev_height (rm_blocks db) c (p_prev_hash p) ∧
    (prev_height = None → payload_strict_height db source p = Ok strict_height) ∧
    (is_Some prev_height → strict_height = None ∧ p_pow p = true) ∧
    rm_nbits db = Ok table ∧
    verdict = bitcoin_lineage {| li_bits := hdr_bits header; li_time := hdr_time header;
                                 meets_own_target := p_pow p; prev_height := prev_height;
                                 strict_height := strict_height |} table.

Lemma refuse_parent_Some `{BitcoinLib} lookup db c source p out : refuse_parent lookup db c source p = Ok (Some out) →
  match out with
  | CaptureNotBitcoin reason _ => gate_lineage lookup db c source p (NotBitcoin reason)
  | CapturePending reason => gate_lineage lookup db c source p (Pending reason)
  | Written _ => False
  end.
Proof.
  unfold refuse_parent. destruct (lookup (p_hash p)) eqn:Hl; simpl; intros Hr; [discriminate Hr|].
  apply bind_Ok in Hr as (header & Hh & Hr). apply ok_or_Ok in Hh.
  destruct (is_some _ && _) eqn:Hshare; [discriminate Hr|].
  apply bind_Ok in Hr as (sh & Hsh & Hr). apply bind_Ok in Hr as (table & Ht & Hr).
  assert (∀ v, v = bitcoin_lineage {| li_bits := hdr_bits header; li_time := hdr_time header;
      meets_own_target := p_pow p; prev_height := placed_prev_height (rm_blocks db) c (p_prev_hash p);
      strict_height := sh |} table → gate_lineage lookup db c source p v) as Hgate.
  { intros v Hv. split; [done|]. exists header, (placed_prev_height (rm_blocks db) c (p_prev_hash p)), sh, table.
    destruct (placed_prev_height _ _ _); simpl in *; res_inv; split_and!; try done.
    intros _. split; [done|]. by destruct (p_pow p). }
  cbv zeta in Hr. destruct (bitcoin_lineage _ table) eqn:Hb; res_inv; by apply Hgate.
Qed.

(** The gate lets a parent through: it is a catalogued invalid block, a share on a placed
    block, or one whose lineage is Bitcoin's. *)
Definition gate_passes `{BitcoinLib} (lookup : bytes → option InvalidBlock) (db : ReadModel) (c : CacheDb) (source : Z)
    (p : MergeMiningEventPayload) : Prop :=
  is_Some (lookup (p_hash p)) ∨
  (p_pow p = false ∧ is_Some (placed_prev_height (rm_blocks db) c (p_prev_hash p))) ∨
  ∃ basis, gate_lineage lookup db c source p (Bitcoin basis).

Lemma refuse_parent_None `{BitcoinLib} lookup db c source p : refuse_parent lookup db c source p = Ok None →
  gate_passes lookup db c source p.
Proof.
  unfold refuse_parent, gate_passes. destruct (lookup (p_hash p)) eqn:Hl; simpl; intros Hr; [left; by eexists|].
  apply bind_Ok in Hr as (header & Hh & Hr). apply ok_or_Ok in Hh. cbv zeta in Hr. right.
  destruct (is_some _ && _) eqn:Hshare.
  { left. apply andb_prop in Hshare as [Hp%is_some_true Hn%negb_true_iff]. done. }
  right. apply bind_Ok in Hr as (sh & Hsh & Hr). apply bind_Ok in Hr as (table & Ht & Hr).
  destruct (bitcoin_lineage _ table) as [basis|reason|reason] eqn:Hb; [|by res_inv..]. exists basis. split; [done|].
  exists header, (placed_prev_height (rm_blocks db) c (p_prev_hash p)), sh, table.
  destruct (placed_prev_height _ _ _); simpl in *; res_inv; split_and!; try done.
  intros _. split; [done|]. by destruct (p_pow p).
Qed.

Section outcomes.
Context `{BitcoinLib} {W : Type} `{CoreHeaderSource W} `{Clock W} `{ReadModelSession W} `{CaptureTables W}.
Context `{!CaptureTablesLaws W} `{!CaptureEnv W}.
Context (lookup : bytes → option InvalidBlock) (resolve_pool : bytes → option bytes → option Z).
Context (classifier : ConfiguredParentClassifier).
Context (meets : bytes → bool).
#[local] Abbreviation sM := (stM (W * ReadModel) anyhow).
#[local] Abbreviation sound := (capture_ok meets).
#[local] Abbreviation others := (others (W := W) lookup resolve_pool meets).
Context (session_others : steps (rtc others) (session : sM _)).

Lemma outcome_session w r w' : sound w → session w = (r, w') → sound w'.
Proof.
  intros Hok Hs. pose proof (session_keeps lookup resolve_pool meets session_others w Hok) as Hk. by rewrite Hs in Hk.
Qed.

(** The write that ends a retraction. *)
Lemma child_only_retracts s source p hash a s' : store_ok s → p_child_block_hash p = Some hash →
  (∀ i e x, event_row s i = Some (e, x) → e_source_id e = source → x_child_hash x ≠ Some hash) →
  upsert_child_only_observation s source (non_bitcoin_parent p) = Ok (a, s') → retracted source hash s'.
Proof.
  intros [Hobs _ _] Hhash Hnone Hu. assert (is_some a = true) as Ha.
  { unfold upsert_child_only_observation in Hu. res_pairs. by destruct a. }
  apply child_only_Ok in Hu as [_ Hw]. apply write_observation_spec in Hw as [Hs Hspec]; [|done].
  destruct a as [j|]; [|discriminate Ha]. destruct Hspec as (r & Hr & [Hsrc Hh Hk _ _ _ _] & _). split.
  - intros i e x. rewrite (same_events_row _ _ _ Hs). apply Hnone.
  - exists j, r. rewrite Hr, lookup_insert_eq. split_and!; [done|done|by rewrite Hh|done].
Qed.

Lemma deleted_none s source height hash parent n s' : delete_child_block_events s source height hash parent = Ok (n, s') →
  ∀ i e x, event_row s' i = Some (e, x) → e_source_id e = source → x_child_hash x ≠ Some hash.
Proof.
  intros (Hev & _)%delete_child_block_spec i e x [_ Hc]%Hev Hs Hx. unfold child_block_event in Hc.
  by rewrite (bool_decide_eq_true_2 _ Hs), (bool_decide_eq_true_2 _ Hx) in Hc.
Qed.

Lemma uncounted_none s source height hash parent : child_block_is_counted s source height hash parent = false →
  ∀ i e x, event_row s i = Some (e, x) → e_source_id e = source → x_child_hash x ≠ Some hash.
Proof.
  intros [Hc _]%orb_false_elim i e x Hi Hs Hx. destruct (find_event s _) eqn:Hf; [discriminate Hc|].
  apply (find_event_None _ _ _ _ _ Hf) in Hi. unfold child_block_event in Hi.
  by rewrite (bool_decide_eq_true_2 _ Hs), (bool_decide_eq_true_2 _ Hx) in Hi.
Qed.

Lemma retract_spec source p hash (w : W * ReadModel) changed w' : sound w → p_child_block_hash p = Some hash →
  retract_child_block lookup resolve_pool source p w = (Ok changed, w') → retracted source hash (store_view w').
Proof.
  intros Hok Hhash Hr. unfold retract_child_block in Hr. rewrite Hhash in Hr. cbv zeta in Hr.
  apply st_bind_Ok in Hr as (s & w1 & [-> ->]%st_gets_Ok & Hr).
  destruct (child_block_is_counted _ _ _ _ _) eqn:Hc; simpl in Hr.
  - apply st_bind_Ok in Hr as (u & w2 & Hses & Hr). pose proof (outcome_session _ _ _ Hok Hses) as Hok2.
    st_inv. repeat match goal with Hx : (let '(_, _) := ?q in _) _ = _ |- _ => destruct q; st_inv end.
    unfold put_store, put_tables in *. st_inv.
    match goal with Hd : delete_child_block_events _ _ _ _ _ = _, Hu : upsert_child_only_observation _ _ _ = _ |- _ =>
      pose proof (child_only_retracts _ _ _ _ _ _ (delete_child_block_ok _ _ _ _ _ _ _ (inv_store _ _ (proj2 Hok2)) Hd) Hhash
                    (deleted_none _ _ _ _ _ _ _ Hd) Hu) as Hret end.
    match goal with Hb : rebuild_parent_read_model _ _ ?d _ _ _ = Ok ?d' |- _ =>
      apply rebuild_spec in Hb as (_ & _ & (Hev & _) & _); [|exact (proj1 Hok2)] end.
    unfold store_view. simpl. rewrite Hev, store_of_set. simpl. by destruct_and?; destruct s0.
  - st_inv. match goal with Hx : (let '(_, _) := ?q in _) _ = _ |- _ => destruct q; st_inv end.
    unfold put_store in *. st_inv. rewrite put_view.
    match goal with Hu : upsert_child_only_observation _ _ _ = _ |- _ =>
      exact (child_only_retracts _ _ _ _ _ _ (inv_store _ _ (proj2 Hok)) Hhash (uncounted_none _ _ _ _ _ Hc) Hu) end.
Qed.

(** What the write of an attempt leaves, once it stored [s1]: a near, just that; an event, what
    other sessions make of it before the locks of its reconcile, with new verdicts of events. *)
Definition left_by (write : CaptureWrite) (w3 : W * ReadModel) (s1 s' : StoreDb) : Prop :=
  match write with
  | WroteNear _ => s' = s1
  | WroteEvent _ => ∃ w4, session (set_store s1 w3.1, with_events w3.2 (sd_events s1)) = (Ok (), w4) ∧
      s' = with_event_table (store_view w4) (sd_events s') ∧ reclassified (rm_events w4.2) (sd_events s')
  end.

(** An attempt that began on [w0]: the tables its gate read, its verdict there, and what it
    leaves. It asks to commit or to roll back. *)
Definition attempt_spec (source : Z) (upsert : CacheDb → StoreDb → Z → MergeMiningEventPayload → result anyhow (CaptureWrite * StoreDb))
    (p : MergeMiningEventPayload) (w0 : W * ReadModel) (commits : bool) (outcome : CaptureOutcome) (s' : StoreDb) : Prop :=
  ∃ w1 w2, session w0 = (Ok (), w1) ∧ session w1 = (Ok (), w2) ∧
  match outcome with
  | Written write => commits = true ∧ gate_passes lookup w2.2 (cache_of w2.1) source p ∧
      ∃ pre p' env w3 s1, classify_payload_parent lookup classifier w2.2 p w2.1 = (Ok (pre, p'), env) ∧
        p_hash p' = p_hash p ∧ p_pow p' = p_pow p ∧ session (env, w2.2) = (Ok (), w3) ∧
        upsert (cache_of w3.1) (store_view w3) source p' = Ok (write, s1) ∧ left_by write w3 s1 s'
  | CaptureNotBitcoin reason _ => commits = true ∧ gate_lineage lookup w2.2 (cache_of w2.1) source p (NotBitcoin reason) ∧
      ∀ hash, p_child_block_hash p = Some hash → retracted source hash s'
  | CapturePending reason => commits = false ∧ gate_lineage lookup w2.2 (cache_of w2.1) source p (Pending reason)
  end.

Lemma reconcile_written_left i pre wrapper (w : W * ReadModel) changed w' : blocks_ok (rm_blocks w.2) →
  reconcile_written lookup resolve_pool classifier i pre wrapper w = (Ok changed, w') →
  ∃ w4, session w = (Ok (), w4) ∧ store_view w' = with_event_table (store_view w4) (sd_events (store_view w')) ∧
    reclassified (rm_events w4.2) (sd_events (store_view w')).
Proof.
  intros Hb Hr. unfold reconcile_written in Hr. apply st_bind_Ok in Hr as (before & w1 & [-> ->]%st_gets_Ok & Hr).
  apply st_bind_Ok in Hr as ([] & w4 & Hs & Hr).
  apply st_bind_Ok in Hr as (after & w5 & [-> ->]%st_gets_Ok & Hr).
  apply st_bind_Ok in Hr as ([ch db] & w6 & Hrec & Hr). unfold put_tables in Hr.
  apply st_bind_Ok in Hr as (u' & w7 & ->%st_modify_Ok & Hr). apply st_ret_Ok in Hr as [-> ->].
  unfold on_env in Hrec. destruct (reconcile_one_event_in_txn _ _ _ _ _ _ _ _ _ _) as [r we] eqn:Hone. injection Hrec as -> <-.
  pose proof (reconcile_env same_store lookup resolve_pool classifier w.2 w4.2 i pre wrapper None w4.1) as Hst. rewrite Hone in Hst.
  apply reconcile_reclassifies in Hone as (_ & Hre & _);
    [|by eapply (session_blocks lookup resolve_pool meets session_others)].
  exists w4. split_and!; [done| |done]. unfold store_view. simpl in *. by rewrite Hst.
Qed.

(** The end of an attempt, once the event is written. *)
Lemma written_left write s1 w3 retry pre wr commits outcome ch w' : blocks_ok (rm_blocks w3.2) →
  or_retry retry
    (changed ← match write with
               | WroteEvent o => reconcile_written lookup resolve_pool classifier (ow_event_id o) pre wr
               | WroteNear _ => mret []
               end;
     mret (Written write, changed)) (λ a, mret (true, Some a)) (set_store s1 w3.1, with_events w3.2 (sd_events s1))
    = (Ok (commits, Some (outcome, ch)), w') →
  commits = true ∧ outcome = Written write ∧ left_by write w3 s1 (store_view w').
Proof.
  intros Hb Ha. unfold or_retry in Ha. apply st_bind_Ok in Ha as (r & w1 & Hr & Ha).
  apply (proj1 (st_attempt_Ok _ _ _ _)) in Hr.
  destruct r as [a|e]; [|destruct (_ && _); by st_inv]. apply st_ret_Ok in Ha as [[= -> <-] ->].
  apply st_bind_Ok in Hr as (changed & w2 & Hre & [[= -> ->] ->]%st_ret_Ok). split_and!; [done|done|].
  destruct write as [o|o]; [|apply st_ret_Ok in Hre as [_ ->]; apply put_view].
  by apply reconcile_written_left in Hre.
Qed.

Lemma capture_attempt_spec source upsert retry p (w : W * ReadModel) commits outcome changed w' : sound w →
  capture_attempt lookup resolve_pool classifier source upsert retry p w = (Ok (commits, Some (outcome, changed)), w') →
  attempt_spec source upsert p w commits outcome (store_view w').
Proof.
  intros Hok Ha. unfold capture_attempt in Ha.
  apply st_bind_Ok in Ha as ([] & w1 & Hs1 & Ha). pose proof (outcome_session _ _ _ Hok Hs1) as Hok1.
  apply st_bind_Ok in Ha as ([] & w2 & Hs2 & Ha). pose proof (outcome_session _ _ _ Hok1 Hs2) as Hok2.
  exists w1, w2. split; [done|]. split; [done|].
  apply st_bind_Ok in Ha as (db & w3 & [-> ->]%st_gets_Ok & Ha).
  apply st_bind_Ok in Ha as (env & w4 & [-> ->]%st_gets_Ok & Ha).
  apply st_bind_Ok in Ha as (refused & w5 & [Href ->]%st_lift_Ok & Ha).
  destruct refused as [[write|reason g|reason]|].
  - by apply refuse_parent_Some in Href.
  - apply refuse_parent_Some in Href. apply st_bind_Ok in Ha as (ch & w6 & Hret & Ha).
    apply st_ret_Ok in Ha as [[= -> -> ->] ->]. split_and!; [done|done|]. intros hash Hhash.
    by apply (retract_spec source p hash w2 ch w6).
  - apply refuse_parent_Some in Href. by apply st_ret_Ok in Ha as [[= -> -> ->] ->].
  - apply refuse_parent_None in Href. apply st_bind_Ok in Ha as ([pre p'] & w6 & Hcl & Ha).
    unfold on_env in Hcl. destruct (classify_payload_parent _ _ _ _ _) as [r we] eqn:Hc. injection Hcl as -> <-.
    pose proof Hc as [Hh Hp]%classify_payload_hash.
    apply st_bind_Ok in Ha as ([] & w7 & Hs3 & Ha).
    pose proof (session_blocks lookup resolve_pool meets session_others _ _ _ Hs3 (proj1 Hok2)) as Hb7.
    apply st_bind_Ok in Ha as (c & w8 & [-> ->]%st_gets_Ok & Ha). apply st_bind_Ok in Ha as (s & w9 & [-> ->]%st_gets_Ok & Ha).
    apply st_bind_Ok in Ha as ([write s1] & w10 & [Hu ->]%st_lift_Ok & Ha).
    apply st_bind_Ok in Ha as (u4 & w11 & Hput & Ha). unfold put_store in Hput. apply st_modify_Ok in Hput as ->.
    apply written_left in Ha as (-> & -> & Hleft); [|done].
    split_and!; [done|done|]. exists pre, p', we, w7, s1. by split_and!.
Qed.

Lemma capture_attempt_retry source upsert retry p (w : W * ReadModel) commits w' :
  capture_attempt lookup resolve_pool classifier source upsert retry p w = (Ok (commits, None), w') → commits = false.
Proof.
  intros Ha. unfold capture_attempt, or_retry in Ha. st_inv.
  match goal with Hx : match ?r with Some _ => _ | None => _ end _ = _ |- _ => destruct r as [[]|]; st_inv end.
  repeat match goal with Hx : (let '(_, _) := ?q in _) _ = _ |- _ => destruct q; st_inv end.
  match goal with Hx : match ?r with Ok _ => _ | Err _ => _ end _ = _ |- _ => destruct r; st_inv end.
  by destruct (_ && _); st_inv.
Qed.

(** C5. A capture that answers is all or nothing, and what it writes passed the gate. On an
    error, and on a parent whose lineage is still undecided, the tables are those it began with.
    An answer is that of one attempt, on those tables and on what other sessions commit before
    its gate reads. A parent is refused as not Bitcoin's only when it is not a catalogued
    invalid block and the lineage rule rejects it on the tables the gate read; then no event of
    the source holds the child block any more and its observation records the refusal. A
    capture is written only when the parent is a catalogued invalid block, a share on a block
    those tables place, or of Bitcoin's lineage there. A near leaves just what its write stored;
    an event, that with what other sessions commit and new verdicts of events. *)
Theorem capture_all_or_nothing n source upsert p (w : W * ReadModel) r w' : sound w →
  capture_attempts lookup resolve_pool classifier n source upsert p w = (r, w') →
  match r with
  | Ok (outcome, _) => ∃ w0 commits, store_view w0 = store_view w ∧ w0.2 = w.2 ∧
      attempt_spec source upsert p w0 commits outcome (store_view w') ∧
      (commits = false → store_view w' = store_view w ∧ w'.2 = w.2)
  | Err _ => store_view w' = store_view w ∧ w'.2 = w.2
  end.
Proof.
  revert w. induction n as [|n IH]; intros w Hok Ha; simpl in Ha; [by injection Ha as <- <-|].
  unfold mbind, stM_bind at 1 in Ha. unfold transaction in Ha.
  destruct (capture_attempt lookup resolve_pool classifier source upsert (negb (n =? 0)%nat) p w)
    as [[[commits [[outcome changed]|]]|e] w1] eqn:Hatt.
  - pose proof (capture_attempt_spec _ _ _ _ _ _ _ _ _ Hok Hatt) as Hspec. destruct commits.
    + pose proof (env_commit w1.1) as Hc. unfold on_env in Ha. destruct (commit w1.1) as [[u|e] we]; simpl in *.
      * injection Ha as <- <-. exists w, true. split_and!; [done|done| |done]. unfold store_view in *. simpl. by rewrite Hc.
      * injection Ha as <- <-. by rewrite restore_view.
    + injection Ha as <- <-. exists w, false. rewrite restore_view. split_and!; [done|done| |done].
      destruct Hspec as (w2 & w3 & Hs1 & Hs2 & Hspec). exists w2, w3. split_and!; [done|done|].
      destruct outcome; [by destruct Hspec as [? _]..|exact Hspec].
  - apply capture_attempt_retry in Hatt as ->.
    specialize (IH (restore w w1) (restore_ok meets _ _ Hok) Ha). rewrite restore_view in IH. exact IH.
  - injection Ha as <- <-. by rewrite restore_view.
Qed.
End outcomes.

(** The plain write of a capture. *)
Lemma write_capture_producer meets : producer meets (λ _, write_capture).
Proof. intros c s source p a s' Hp Hw. apply rtc_once. by eapply write_captured. Qed.

Module CaptureSample.
Import Toy EventStoreSample.

(** A session on its own, without Core; the environment is the store. *)
#[local] Instance no_core : CoreHeaderSource StoreDb := {|
  get_chain_status := throw (Other "disabled"); get_block_hash := λ _, throw (Other "disabled");
  get_header := λ _ _, throw (Other "disabled"); get_block_header := λ _, throw (Other "disabled");
  get_header_verbose := λ _, throw (Other "disabled"); get_block_coinbase := λ _, throw (Other "disabled") |}.
#[local] Instance epoch : Clock StoreDb := mret 1500.
#[local] Instance alone : ReadModelSession StoreDb := { session := mret (); commit := mret () }.
Definition cache : CacheDb := mkCacheDb ∅ (Some CacheState_default) false.
#[local] Instance store_env : CaptureTables StoreDb := { store_of := id; set_store := λ s _, s; cache_of := λ _, cache }.
#[local] Instance store_env_laws : CaptureTablesLaws StoreDb.
Proof. done. Qed.
#[local] Instance store_env_ok : CaptureEnv StoreDb.
Proof. split; intros; by intros w. Qed.

Definition parent_of (version bits : Z) : Header :=
  {| hdr_version := version; prev_blockhash := replicate 32 x07; merkle_root := replicate 32 x00; hdr_time := 1100;
     hdr_bits := bits; hdr_nonce := 0 |}.
Definition parent : Z → Header := parent_of 1.
Definition payload_of (child : bytes) (pow : bool) (parent : Header) : MergeMiningEventPayload :=
  {| p_child_height := Some 7; p_child_block_hash := Some child; p_child_header_bytes := None;
     p_child_block_time := None; p_child_nbits := None; p_child_prev_block_hash := None;
     p_hash := block_hash parent; p_prev_hash := replicate 32 x07;
     p_header_bytes := serialize_header parent; p_header_time := 1100;
     p_height := None; p_kind := if pow then PkUnknown else PkNear; p_pow := pow; p_pow_child := None;
     p_difficulty_ok := None; p_provisional := false; p_txid := None; p_script := None;
     p_outputs := None; p_outputs_text := None; p_tx_bytes := None; p_child_txid := None;
     p_child_script := None; p_child_outputs := None; p_proof := None; p_attributions := [];
     p_discovered_at := 5; p_confirmed_at := 5; p_revoked_at := None; p_revocation_reason := None;
     p_provenance := None |}.
Definition payload (bits : Z) : MergeMiningEventPayload := payload_of [x0a] true (parent bits).

Definition start : StoreDb * ReadModel :=
  (empty, mkReadModel ∅ ∅ ∅ {[ 1 := mkSource "namecoin" "auxpow" ]} ∅ (Ok ex_table)).
Definition run (bits : Z) (w : StoreDb * ReadModel) :=
  capture_attempts (λ _, None) (λ _ _, None) Disabled 3 1 (λ _, write_capture) (payload bits) w.
Definition captured : StoreDb * ReadModel := (run 453062093 start).2.

(** Parents meet their target but for that of the near. *)
Definition near : MergeMiningEventPayload := payload_of [x0b] false (parent_of 3 453062093).
Definition meets (hash : bytes) : bool := bool_decide (hash ≠ p_hash near).
Lemma payload_holds : payload_true meets (payload 453062093).
Proof. split; [vm_compute; reflexivity|done]. Qed.
Lemma near_holds : payload_true meets near.
Proof. split; [vm_compute; reflexivity|done]. Qed.

Lemma capture_start_ok : capture_ok meets start.
Proof.
  split; [exact ReconcileSample.empty_ok|]. split; [exact empty_store_ok|]. intros i e x Hi. discriminate Hi.
Qed.
Lemma capture_alone_others lookup : steps (rtc (others lookup (λ _ _, None) meets)) (session : stM (StoreDb * ReadModel) anyhow unit).
Proof. intros w. apply rtc_refl. Qed.
Lemma captured_ok : capture_ok meets captured.
Proof.
  apply (capture_attempts_keeps (λ _, None) (λ _ _, None) Disabled meets (capture_alone_others _) 3 1 (λ _, write_capture)
    (payload 453062093) (write_capture_producer meets) payload_holds start capture_start_ok).
Qed.

(** A near under a parent of the catalogue, after the event, while another session answers
    about a third block before each statement. *)
Section busy.
Definition catalogue (hash : bytes) : option InvalidBlock := if meets hash then None else Some (mkInvalidBlock 9 "x").
Definition answer : ChildBlockObservation := child_only ObsNotMergeMined 8 (replicate 32 x0c) None None 4.
#[local] Instance busy : ReadModelSession StoreDb := {
  session := λ w, (Ok (), match upsert_child_only_observation (store_view w) 1 answer with
                          | Ok (_, s) => (s, with_events w.2 (sd_events s))
                          | Err _ => w
                          end);
  commit := mret () }.
#[local] Instance busy_env : CaptureEnv StoreDb.
Proof. split; intros; by intros w. Qed.
Lemma busy_others : steps (rtc (others catalogue (λ _ _, None) meets)) (session : stM (StoreDb * ReadModel) anyhow unit).
Proof.
  intros w. simpl. destruct (upsert_child_only_observation _ _ _) as [[o s]|e] eqn:Hu; [|apply rtc_refl].
  apply rtc_once. change (s, with_events w.2 (sd_events s)) with (set_store s w.1, with_events w.2 (sd_events s)).
  apply others_store, (write_answered meets _ 1 answer o); [discriminate|exact Hu].
Qed.
Definition near_captured :=
  capture_in_txn catalogue (λ _ _, None) Disabled 10 1 (λ _, write_capture) near captured.

Lemma captures_keep_tables_witness :
  capture_ok meets near_captured.2 ∧ near_captured.1 = Ok (Some (Written (WroteNear 3))) ∧
  size (sd_observations (store_view near_captured.2)) = 3%nat.
Proof.
  split; [|split; vm_compute; reflexivity].
  apply (captures_keep_tables catalogue (λ _ _, None) Disabled meets busy_others 10 1 (λ _, write_capture) near 1 Restore
    captured (write_capture_producer meets) near_holds captured_ok).
Defined.
End busy.

(** The same child block, whose parent now claims bits no Bitcoin epoch has. *)
Lemma capture_all_or_nothing_witness :
  ∃ reason g changed w', run 1 captured = (Ok (CaptureNotBitcoin reason g, changed), w') ∧ retracted 1 [x0a] (store_view w').
Proof.
  destruct (run 1 captured) as [r w'] eqn:Hr.
  pose proof (capture_all_or_nothing (λ _, None) (λ _ _, None) Disabled meets (capture_alone_others _) 3 1 (λ _, write_capture) (payload 1) captured r w'
    captured_ok Hr) as Hspec.
  destruct r as [[[write|reason g|reason] changed]|e]; try (exfalso; vm_compute in Hr; discriminate Hr).
  exists reason, g, changed, w'. split; [reflexivity|].
  destruct Hspec as (w0 & commits & _ & _ & (w1 & w2 & _ & _ & _ & _ & Hret) & _). exact (Hret [x0a] eq_refl).
Defined.

(** The child block again, under another parent that is not Bitcoin's: its event, which
    attests the first parent, is deleted, and the block row of the first parent keeps
    counting it. *)
Definition other_parent : Header :=
  {| hdr_version := 2; prev_blockhash := replicate 32 x07; merkle_root := replicate 32 x00; hdr_time := 1100;
     hdr_bits := 1; hdr_nonce := 0 |}.
Definition other_payload : MergeMiningEventPayload :=
  {| p_child_height := Some 7; p_child_block_hash := Some [x0a]; p_child_header_bytes := None;
     p_child_block_time := None; p_child_nbits := None; p_child_prev_block_hash := None;
     p_hash := block_hash other_parent; p_prev_hash := replicate 32 x07;
     p_header_bytes := serialize_header other_parent; p_header_time := 1100;
     p_height := None; p_kind := PkUnknown; p_pow := true; p_pow_child := None;
     p_difficulty_ok := None; p_provisional := false; p_txid := None; p_script := None;
     p_outputs := None; p_outputs_text := None; p_tx_bytes := None; p_child_txid := None;
     p_child_script := None; p_child_outputs := None; p_proof := None; p_attributions := [];
     p_discovered_at := 6; p_confirmed_at := 6; p_revoked_at := None; p_revocation_reason := None;
     p_provenance := None |}.
Definition after_other : result anyhow (option CaptureOutcome) * (StoreDb * ReadModel) :=
  capture_in_txn (λ _, None) (λ _ _, None) Disabled 10 1 (λ _, write_capture) other_payload captured.

Theorem retraction_forgets_first_parent :
  is_ok after_other.1 = true ∧ size (rm_events after_other.2.2) = 0%nat ∧
  b_total_attestations <$> (rm_blocks after_other.2.2 !! block_hash (parent 453062093)) = Some 1.
Proof. vm_compute. split_and!; reflexivity. Qed.
End CaptureSample.
