(* ===== verification/HistoricalQueue.v ===== *)
(** * The historical reconcile queue

    Models [crates/mmm-read-model/src/mutation/historical_queue.rs] and the historical entry
    points of [mutation/mod.rs]: what an import enqueues (base writes, removals of an
    authoritative snapshot, attestations that changed), the bulk statement for parents Core
    has proven canonical, the reconcile of one queued parent with the seeds it persists, and
    the drain loop.

    The world is that of the capture transactions, whose environment also holds the queue.
    The rows of the queue other sessions hold locked are part of the environment: the bulk
    statement skips them. [updated_at] is not read by anything and is left out. *)

From stdpp Require Import sorting.
From S2P Require Import Prelude BitcoinLib Effects Errors Reader Auxpow Nbits Lineage Classifier LiveLoop Poller Blocks SyncState CoreQueue Events Reconcile Cascade HeaderCache Payload EventStore Capture.

Record HistoricalRow := mkHistRow {
  h_primary_pending : bool;
  h_changed_hashes : list bytes;
  h_generation : Z;
  h_enqueued_at : Z;
}.
#[global] Instance HistoricalRow_eq_dec : EqDecision HistoricalRow.
Proof. solve_decision. Defined.
#[global] Instance ProofRow_eq_dec : EqDecision ProofRow.
Proof. solve_decision. Defined.

Abbreviation hqueue := (@gmap bytes list_eq_dec list_countable HistoricalRow).

(** The queue in the environment, the rows others hold locked, and [now()]. *)
Class HistoricalTables (W : Type) := {
  hqueue_of : W → hqueue;
  set_hqueue : hqueue → W → W;
  locked_rows : W → gset bytes;
  db_now : W → Z;
}.
Class HistoricalTablesLaws (W : Type) `{CaptureTables W} `{HistoricalTables W} := {
  hqueue_of_set q w : hqueue_of (set_hqueue q w) = q;
  hqueue_of_store s w : hqueue_of (set_store s w) = hqueue_of w;
  store_of_hqueue q w : store_of (set_hqueue q w) = store_of w;
}.

(** ** Enqueueing *)

(** [INSERT .. ON CONFLICT DO UPDATE]: the seeds and the place in the queue are kept. *)
Definition requeued (now : Z) (o : option HistoricalRow) : HistoricalRow :=
  match o with
  | None => mkHistRow true [] 1 now
  | Some r => mkHistRow true (h_changed_hashes r) (h_generation r + 1) (h_enqueued_at r)
  end.

Definition enqueue_historical_parent (now : Z) (q : hqueue) (hash : bytes) : result anyhow hqueue :=
  _ ← ensure (bool_decide (length hash = 32%nat)) (Context "enqueue historical parent reconcile" (Other "check constraint"));
  mret (<[hash := requeued now (q !! hash)]> q).

Definition enqueue_historical_parent_reconcile := enqueue_historical_parent.

Fixpoint enqueue_historical_parents (now : Z) (q : hqueue) (hashes : list bytes) : result anyhow hqueue :=
  match hashes with
  | [] => mret q
  | h :: hashes => q ← enqueue_historical_parent now q h; enqueue_historical_parents now q hashes
  end.

(** ** Authoritative snapshots *)

Definition operator_csv : string := "operator-csv".

(** A provenance row of the published snapshot of a chain. *)
Definition authoritative (chain : string) (v : HistoricalEventProvenance) : bool :=
  bool_decide (hp_chain v = chain) && negb (bool_decide (hp_publication_ref v = operator_csv))
  && negb (bool_decide (hp_artifact_scope v = error_block_scope)).

(** The parents with an active event a row of the snapshot attests to be on a stale branch. *)
Definition stale_attestations (s : StoreDb) (chain : string) : list bytes :=
  remove_dups (omap (λ r, let '(_, (i, v)) := r in
    e ← sd_events s !! i;
    if is_active e && authoritative chain v && stale_branch_reason (hp_relevance_reason v)
    then Some (e_hash e) else None) (map_to_list (sd_provenance s))).

(** The provenance rows, with the column of the join they determine. *)
Definition set_provenance (s : StoreDb) (t : gmap provenance_key (Z * HistoricalEventProvenance)) : StoreDb :=
  mkStoreDb (map_imap (λ i e, Some (with_relevance e (joined_relevance t i))) (sd_events s))
    (sd_extra s) (sd_next_event s) (sd_observations s) (sd_next_observation s) (sd_identities s)
    (sd_next_identity s) (sd_attributions s) t (sd_heads s).

(** The contents of [historical_prior_stale_attestations] for the chain, and the store without
    the snapshot. *)
Definition clear_authoritative_historical_provenance_in_transaction (s : StoreDb) (chain : string)
    : list bytes * StoreDb :=
  (stale_attestations s chain,
   set_provenance s (filter (λ r, authoritative chain r.2.2 = false) (sd_provenance s))).

Definition except (a b : list bytes) : list bytes := filter (λ h, h ∉ b) a.

Definition enqueue_changed_historical_attestations_in_transaction (now : Z) (s : StoreDb) (chain : string)
    (prior : list bytes) (q : hqueue) : result anyhow hqueue :=
  let current := stale_attestations s chain in
  let changed := except prior current ++ except current prior in
  let hashes := sort_dedup (filter (λ h, h ∈ changed) (e_hash <$> (map_to_list (sd_events s)).*2)) in
  enqueue_historical_parents now q hashes.

(** An event of the source that neither the current publication nor an operator or
    invalid-block row stands for. *)
Definition absent_from_publication (s : StoreDb) (source : Z) (publication_ref chain : string) (e : EventRow) : bool :=
  bool_decide (e_source_id e = source)
  && negb (existsb (λ r, let '(_, (i, v)) := r in
       bool_decide (i = e_id e) && (bool_decide (hp_artifact_scope v = error_block_scope)
                                    || bool_decide (hp_publication_ref v = operator_csv)))
       (map_to_list (sd_provenance s)))
  && negb (existsb (λ r, let '(_, (i, v)) := r in
       bool_decide (i = e_id e) && bool_decide (hp_publication_ref v = publication_ref)
       && bool_decide (hp_chain v = chain)) (map_to_list (sd_provenance s))).

Section removal.
Context (invalid_blocks_lookup : bytes → option InvalidBlock).

Definition reconcile_authoritative_historical_source_in_transaction (now : Z) (s : StoreDb) (q : hqueue)
    (source : Z) (publication_ref chain : string) : result anyhow (Z * StoreDb * hqueue) :=
  let gone := filter (λ r, absent_from_publication s source publication_ref chain r.2.1 = true) (event_rows s) in
  let parent_hashes := sort_dedup ((λ r, e_hash r.2.1) <$> gone) in
  _ ← ensure (negb (existsb (λ h, is_some (invalid_blocks_lookup h)) parent_hashes))
        (Other "authoritative snapshot would delete catalogued invalid witness");
  let observations : gset Z := list_to_set ((λ r, x_observation r.2.2) <$> gone) in
  let s' := delete_events s (list_to_set (fst <$> gone)) in
  let t := filter (λ r, r.1 ∉ observations) (sd_observations s') in
  _ ← ensure (bool_decide (map_Forall (λ _ y, is_Some (t !! x_observation y)) (sd_extra s')))
        (Other "merge_mining_event_observation_id_fkey");
  q ← enqueue_historical_parents now q parent_hashes;
  mret (Z.of_nat (length gone), with_observations s' t, q).
End removal.

(** ** The bulk statement *)

(** What [eligible] asks of an active event of the parent with block row [b]. *)
Definition event_proven (b : BlockInput) (e : EventRow) : bool :=
  bool_decide (e_kind e = PkCanonical) && bool_decide (e_height e = b_height b)
  && bool_decide (e_difficulty_ok e = Some true) && e_pow e
  && bool_decide (e_header_bytes e = b_header_bytes b) && bool_decide (e_prev_hash e = b_prev_hash b).

Definition bulk_eligible (db : ReadModel) (hash : bytes) (r : HistoricalRow) : bool :=
  match rm_blocks db !! hash with
  | Some b =>
      h_primary_pending r && bool_decide (b_kind b = BkCanonical) && b_core_attested b && b_live_observed b
      && is_some (b_height b) && bool_decide (b_difficulty_epoch_ok b = Some true)
      && negb (bool_decide (active_events (rm_events db) hash = []))
      && forallb (event_proven b) (active_events (rm_events db) hash)
  | None => false
  end.

(** [ORDER BY enqueued_at, btc_parent_header_hash]. *)
Definition queue_le (a b : bytes * HistoricalRow) : Prop :=
  h_enqueued_at a.2 < h_enqueued_at b.2
  ∨ h_enqueued_at a.2 = h_enqueued_at b.2 ∧ bytes_leb a.1 b.1 = true.
#[global] Instance queue_le_dec a b : Decision (queue_le a b).
Proof. unfold queue_le. apply _. Defined.

(** [LIMIT $1 FOR UPDATE OF q SKIP LOCKED]. *)
Definition eligible (db : ReadModel) (q : hqueue) (locked : gset bytes) (batch_size : Z) : list bytes :=
  fst <$> take (Z.to_nat batch_size)
    (merge_sort queue_le (filter (λ kr, bulk_eligible db kr.1 kr.2 = true ∧ kr.1 ∉ locked) (map_to_list q))).

Record BulkRollup := mkBulkRollup {
  br_total : Z; br_sources : Z; br_chains : Z; br_first : option Z; br_last : option Z;
}.

(** The CTE [rollups]: no row for a parent none of whose active events joins a source. *)
Definition bulk_rollup (db : ReadModel) (hash : bytes) : option BulkRollup :=
  let joined := omap (λ e, s ← rm_sources db !! e_source_id e; Some (e, s)) (active_events (rm_events db) hash) in
  match joined with
  | [] => None
  | _ => Some (mkBulkRollup (Z.of_nat (length joined)) (count_distinct ((λ j, e_source_id j.1) <$> joined) + 1)
                 (count_distinct ((λ j, s_chain j.2) <$> filter (λ j, s_kind j.2 = "auxpow"%string) joined))
                 (sql_min ((λ j, e_discovered_at j.1) <$> joined)) (sql_max ((λ j, e_confirmed_at j.1) <$> joined)))
  end.

(** The CTE [updated_blocks]. *)
Definition bulk_row (b : BlockInput) (r : BulkRollup) : BlockInput :=
  {| b_hash := b_hash b; b_prev_hash := b_prev_hash b; b_height := b_height b; b_height_source := b_height_source b;
     b_kind := b_kind b; b_header_bytes := b_header_bytes b; b_header_time := b_header_time b;
     b_bitcoin_miner_pool_id := b_bitcoin_miner_pool_id b; b_coinbase_txid := b_coinbase_txid b;
     b_coinbase_script := b_coinbase_script b; b_coinbase_outputs := b_coinbase_outputs b;
     b_coinbase_status := b_coinbase_status b; b_invalid_block_reason := b_invalid_block_reason b;
     b_canonical_competitor_hash := b_canonical_competitor_hash b;
     b_total_attestations := br_total r; b_distinct_sources := br_sources r; b_auxpow_chain_count := br_chains r;
     b_live_observed := b_live_observed b; b_core_attested := b_core_attested b; b_pow_validated := true;
     b_difficulty_epoch_ok := Some true; b_first_attested_at := br_first r; b_last_attested_at := br_last r;
     b_btc_orphan_class := b_btc_orphan_class b |}.

Definition bulk_block_differs (b : BlockInput) (r : BulkRollup) : bool :=
  distinct_from (b_total_attestations b) (br_total r) || distinct_from (b_distinct_sources b) (br_sources r)
  || distinct_from (b_auxpow_chain_count b) (br_chains r) || distinct_from (b_pow_validated b) true
  || distinct_from (b_difficulty_epoch_ok b) (Some true) || distinct_from (b_first_attested_at b) (br_first r)
  || distinct_from (b_last_attested_at b) (br_last r).

Definition bulk_update_block (db : ReadModel) (t : block_table) (hash : bytes) : block_table :=
  match bulk_rollup db hash, t !! hash with
  | Some r, Some b => if bulk_block_differs b r then <[hash := bulk_row b r]> t else t
  | _, _ => t
  end.

(** The CTE [proof_rollups], and the row [updated_proofs] stores of it. *)
Definition bulk_proof (evs : list EventRow) : option ProofRow :=
  let active := filter (λ e, is_active e = true) evs in
  let active_ids := match active with [] => None | _ => Some (sorted_ids active) end in
  let max_revoked_at := sql_max (omap e_revoked_at evs) in
  if is_some active_ids || is_some max_revoked_at then
    discovered ← sql_min (e_discovered_at <$> evs);
    confirmed ← coalesce (sql_min (e_confirmed_at <$> active)) (sql_min (e_confirmed_at <$> evs));
    Some (mkProof (default (sorted_ids evs) active_ids)
            (default false (coalesce (bool_or (Some ∘ e_pow <$> active)) (bool_or (Some ∘ e_pow <$> evs))))
            discovered confirmed
            (if is_some active_ids then None else max_revoked_at)
            (if is_some active_ids then None else last_revocation_reason evs))
  else None.

Definition bulk_upsert_proof (t : event_table) (hash : bytes) (proofs : proof_table) (source : Z) : proof_table :=
  match bulk_proof (source_events t hash source) with
  | Some p => if bool_decide (proofs !! (hash, source) = Some p) then proofs else <[(hash, source) := p]> proofs
  | None => proofs
  end.

(** The CTEs [updated_proofs] and [dangling_proofs] for one parent; they write different rows. *)
Definition bulk_update_proofs (t : event_table) (proofs : proof_table) (hash : bytes) : proof_table :=
  let proofs := foldl (bulk_upsert_proof t hash) proofs (remove_dups (e_source_id <$> events_of t hash)) in
  filter (λ '((h, s), _), ¬ (h = hash ∧ source_events t hash s = [])) proofs.

(** The CTEs [completed] and [pending_cascade]. *)
Definition bulk_complete (q : hqueue) (hash : bytes) : hqueue :=
  match q !! hash with
  | Some r =>
      if negb (h_primary_pending r) then q
      else if bool_decide (h_changed_hashes r = []) then delete hash q
      else <[hash := mkHistRow false (h_changed_hashes r) (h_generation r + 1) (h_enqueued_at r)]> q
  | None => q
  end.

Definition bulk_reconcile (db : ReadModel) (q : hqueue) (hashes : list bytes) : ReadModel * hqueue :=
  (with_proofs (with_blocks db (foldl (bulk_update_block db) (rm_blocks db) hashes))
     (foldl (bulk_update_proofs (rm_events db)) (rm_proofs db) hashes),
   foldl bulk_complete q hashes).

Definition CANONICAL_BULK_RECONCILE_BATCH_SIZE : Z := 10000.

(** ** Transactions on the queue *)

Section historical.
Context `{BitcoinLib} {W : Type} `{CoreHeaderSource W} `{Clock W} `{ReadModelSession W} `{CaptureTables W} `{HistoricalTables W}.
Context (invalid_blocks_lookup : bytes → option InvalidBlock).
Context (resolve_pool : bytes → option bytes → option Z).
Context (classifier : ConfiguredParentClassifier) (nbits_table : option NbitsTable).

#[local] Abbreviation sM := (stM (W * ReadModel) anyhow).

Definition queue_rows (w : W * ReadModel) : hqueue := hqueue_of w.1.
Definition put_hqueue (q : hqueue) : sM unit := modify (λ w, (set_hqueue q w.1, w.2)).

(** The tables and the queue of [w] in the environment of [w']. *)
Definition restore_queue (w w' : W * ReadModel) : W * ReadModel :=
  (set_hqueue (queue_rows w) (set_store (store_of w.1) w'.1), w.2).

(** A transaction commits when its body says so. *)
Definition queue_transaction {A} (m : sM (bool * A)) : sM A := λ w,
  match m w with
  | (Ok (true, a), w') =>
      match on_env commit w' with
      | (Ok _, w') => (Ok a, w')
      | (Err e, w') => (Err (Context "commit historical reconcile" e), restore_queue w w')
      end
  | (Ok (false, a), w') => (Ok a, restore_queue w w')
  | (Err e, w') => (Err e, restore_queue w w')
  end.

(** The base write of an import, in the transaction of the caller. *)
Definition write_historical_base_in_transaction (source : Z) (p : MergeMiningEventPayload)
    (parent_classification : option ParentClassification)
    (upsert : StoreDb → Z → MergeMiningEventPayload → result anyhow (EventWriteOutcome * StoreDb))
    : sM (EventWriteOutcome * MergeMiningEventPayload) :=
  p ← match parent_classification with
      | Some c => lift (apply_classification_proof invalid_blocks_lookup p (to_proof c))
      | None => db ← gets snd;
                '(_, p) ← on_env (classify_payload_parent invalid_blocks_lookup classifier db p);
                mret p
      end;
  s ← gets store_view;
  '(outcome, s) ← lift (upsert s source p);
  _ ← put_store s;
  _ ← (if ow_parent_read_model_changed outcome then
         now ← gets (λ w, db_now w.1);
         q ← gets queue_rows;
         q ← lift (enqueue_historical_parent now q (p_hash p));
         put_hqueue q
       else mret ());
  mret (outcome, p).

Definition reconcile_proven_canonical_batch (batch_size : Z) : sM Z :=
  queue_transaction (
    _ ← on_err (Context "begin canonical historical bulk reconcile") session;
    _ ← session;
    db ← gets snd;
    q ← gets queue_rows;
    locked ← gets (λ w, locked_rows w.1);
    let hashes := eligible db q locked batch_size in
    let '(db, q) := bulk_reconcile db q hashes in
    _ ← put_hqueue q;
    _ ← put_tables db;
    mret (true, Z.of_nat (length hashes))).

(** ** One queued parent *)

Definition cached_classification_matches_core_view (t : block_table) (parent_hash : bytes) (c : ParentClassification)
    : bool :=
  if bool_decide (kind c = PkInvalidBlock) then true else
  match pc_btc_height c with
  | Some height =>
      match filter (λ r, b_kind r = BkCanonical ∧ b_height r = Some height) (map_to_list t).*2 with
      | [] => negb (bool_decide (kind c = PkStale))
      | [row] => match kind c with
                 | PkCanonical => bool_decide (b_hash row = parent_hash)
                 | PkStale => bool_decide (canonical_competitor_hash c = Some (b_hash row))
                 | PkInvalidBlock => true
                 | PkNear | PkUnknown => false
                 end
      | _ => false
      end
  | None =>
      negb (existsb (λ r, b_core_attested r
                          && (bool_decide (b_hash r = parent_hash) || bool_decide (b_hash r = prev_hash c)))
              (map_to_list t).*2)
  end.

(** The verdict to use, and whether a cached one was rejected. *)
Definition resolve_historical_preclassification (db : ReadModel) (parent_hash : bytes) (event_id : Z)
    (cached : option PreclassifiedParent) : stM W anyhow (option PreclassifiedParent * bool) :=
  match cached with
  | Some p =>
      if negb (is_enabled classifier) then mret (Some p, false)
      else if cached_classification_matches_core_view (rm_blocks db) parent_hash (pp_classification p)
      then mret (Some p, false)
      else pre ← preclassify_event_parent_with_policy invalid_blocks_lookup db event_id classifier false;
           mret (pre, true)
  | None => pre ← preclassify_event_parent_with_policy invalid_blocks_lookup db event_id classifier false;
            mret (pre, false)
  end.

Definition lock_historical_parent_events (t : event_table) (parent_hash : bytes) (anchor_event_id : Z) : bool :=
  existsb (λ e, e_id e =? anchor_event_id) (active_events t parent_hash).

Definition lock_current_historical_primary (q : hqueue) (parent_hash : bytes) (gen : Z) : bool :=
  match q !! parent_hash with
  | Some r => h_primary_pending r && (h_generation r =? gen)
  | None => false
  end.

Definition persist_historical_primary (q : hqueue) (parent_hash : bytes) (gen : Z) (changed_hashes : list bytes)
    : result anyhow hqueue :=
  match q !! parent_hash with
  | Some r =>
      _ ← ensure (h_primary_pending r && (h_generation r =? gen))
            (Other "historical reconcile queue generation changed while locked");
      mret (<[parent_hash := mkHistRow false (sort_dedup (h_changed_hashes r ++ changed_hashes))
                               (h_generation r + 1) (h_enqueued_at r)]> q)
  | None => Err (Other "historical reconcile queue generation changed while locked")
  end.

(** The reconcile inside the transaction: others may commit before its locks are complete. *)
Definition reconcile_historical_event (event_id : Z) (pre : option PreclassifiedParent)
    : sM (list bytes * ReadModel) :=
  before ← gets snd;
  _ ← session;
  after ← gets snd;
  on_env (reconcile_one_event_in_txn invalid_blocks_lookup resolve_pool before after event_id classifier pre
            None nbits_table).

(** One turn of the retry loop: [None] asks for another. *)
Definition anchored_attempt (parent_hash : bytes) (event_id gen : Z) (cached : option PreclassifiedParent)
    (retry : bool) : sM (bool * option unit) :=
  _ ← on_err (Context "begin historical parent reconcile") session;
  _ ← session;
  db ← gets snd;
  '(pre, cached_rejected) ← on_env (resolve_historical_preclassification db parent_hash event_id cached);
  _ ← session;
  db ← gets snd;
  event ← lift (load_event (rm_events db) event_id);
  _ ← lock_event_for_source_health invalid_blocks_lookup classifier db event pre;
  _ ← on_err (Context "lock historical reconcile parent events") session;
  db ← gets snd;
  if negb (lock_historical_parent_events (rm_events db) parent_hash event_id) then mret (false, Some ()) else
  _ ← on_err (Context "lock historical primary reconcile work") session;
  q ← gets queue_rows;
  if negb (lock_current_historical_primary q parent_hash gen) then mret (false, Some ()) else
  if cached_rejected && bool_decide (kind ∘ pp_classification <$> pre = Some PkUnknown)
  then throw (Other "cached historical classification no longer matches the Core view and fresh classification is unknown")
  else
  r ← attempt (reconcile_historical_event event_id pre);
  match r with
  | Ok (changed, db) =>
      q ← gets queue_rows;
      q ← lift (persist_historical_primary q parent_hash gen changed);
      _ ← put_hqueue q;
      _ ← put_tables db;
      mret (true, Some ())
  | Err e => if is_reconcile_lock_set_changed e && retry then mret (false, None) else throw e
  end.

Fixpoint anchored_attempts (n : nat) (parent_hash : bytes) (event_id gen : Z) (cached : option PreclassifiedParent)
    : sM unit :=
  match n with
  | O => throw (Other "historical reconcile retry loop always returns")
  | S n =>
      r ← queue_transaction (anchored_attempt parent_hash event_id gen cached (negb (n =? 0)%nat));
      match r with
      | Some _ => mret ()
      | None => anchored_attempts n parent_hash event_id gen cached
      end
  end.

Definition reconcile_historical_anchored_primary (parent_hash : bytes) (event_id gen : Z)
    (classification : option ParentClassification) : sM unit :=
  anchored_attempts RECONCILE_LOCK_SET_RETRY_LIMIT parent_hash event_id gen (trusted <$> classification).

Definition reconcile_historical_orphan_primary (parent_hash : bytes) (gen : Z) : sM unit :=
  queue_transaction (
    _ ← on_err (Context "begin historical orphaned-block reconcile") session;
    _ ← session;
    _ ← session;
    q ← gets queue_rows;
    if negb (lock_current_historical_primary q parent_hash gen) then mret (false, ()) else
    db ← gets snd;
    let before := load_block_cascade_state (rm_blocks db) parent_hash in
    db ← lift (rebuild_parent_read_model invalid_blocks_lookup resolve_pool db parent_hash None nbits_table);
    let after := load_block_cascade_state (rm_blocks db) parent_hash in
    let changed_hashes := if bool_decide (before = after) then [] else [parent_hash] in
    q ← lift (persist_historical_primary q parent_hash gen changed_hashes);
    _ ← put_hqueue q;
    _ ← put_tables db;
    mret (true, ())).

Definition reconcile_historical_primary (parent_hash : bytes) (gen : Z)
    (classification : option ParentClassification) : sM unit :=
  _ ← session;
  db ← gets snd;
  match find_anchor_event_for_block (rm_events db) parent_hash with
  | Some event_id => reconcile_historical_anchored_primary parent_hash event_id gen classification
  | None => reconcile_historical_orphan_primary parent_hash gen
  end.

(** ** The drain *)

Definition next_historical_work (q : hqueue) : option (bytes * HistoricalRow) :=
  head (merge_sort queue_le (map_to_list q)).

Definition cascade_changed_with_nbits_table (fuel : nat) (changed : list bytes) (budget : Z) : sM (option unit) :=
  match changed with
  | [] => mret (Some ())
  | _ => reconcile_dependents_after_changes invalid_blocks_lookup resolve_pool classifier nbits_table fuel changed budget
  end.

(** [DELETE .. WHERE primary_pending = FALSE AND generation = $2 AND changed_hashes = $3]. *)
Definition complete_historical_work (q : hqueue) (parent_hash : bytes) (gen : Z) (changed : list bytes) : hqueue :=
  match q !! parent_hash with
  | Some r => if negb (h_primary_pending r) && (h_generation r =? gen) && bool_decide (h_changed_hashes r = changed)
              then delete parent_hash q else q
  | None => q
  end.

Definition complete_statement (parent_hash : bytes) (r : HistoricalRow) : sM unit :=
  _ ← on_err (Context "complete historical reconcile work") session;
  q ← gets queue_rows;
  put_hqueue (complete_historical_work q parent_hash (h_generation r) (h_changed_hashes r)).

(** One turn of the loop: [None] when the fuel of the cascade runs out, [Some true] when the
    queue was empty. *)
Definition drain_turn (cascade_fuel : nat) (classifications : gmap bytes ParentClassification) (budget : Z)
    : sM (option bool) :=
  bulk ← reconcile_proven_canonical_batch CANONICAL_BULK_RECONCILE_BATCH_SIZE;
  if 0 <? bulk then mret (Some false) else
  _ ← on_err (Context "load historical reconcile work") session;
  q ← gets queue_rows;
  match next_historical_work q with
  | None => mret (Some true)
  | Some (parent_hash, r) =>
      if h_primary_pending r then
        _ ← reconcile_historical_primary parent_hash (h_generation r) (classifications !! parent_hash);
        mret (Some false)
      else
        c ← on_err (Context "cascade durable historical parent")
              (cascade_changed_with_nbits_table cascade_fuel (h_changed_hashes r) budget);
        match c with
        | None => mret None
        | Some _ => _ ← complete_statement parent_hash r; mret (Some false)
        end
  end.

Fixpoint drain_historical_reconcile_queue_with_budget (fuel cascade_fuel : nat)
    (classifications : gmap bytes ParentClassification) (budget : Z) : sM (option unit) :=
  match fuel with
  | O => mret None
  | S fuel =>
      r ← drain_turn cascade_fuel classifications budget;
      match r with
      | None => mret None
      | Some true => mret (Some ())
      | Some false => drain_historical_reconcile_queue_with_budget fuel cascade_fuel classifications budget
      end
  end.

Definition drain_historical_reconcile_queue (fuel cascade_fuel : nat)
    (classifications : gmap bytes ParentClassification) : sM (option unit) :=
  drain_historical_reconcile_queue_with_budget fuel cascade_fuel classifications DEFAULT_CASCADE_BUDGET.
End historical.

(** ** The bulk statement against the rebuild of one parent *)

Lemma bulk_proof_eq evs : bulk_proof evs = proof_of evs.
Proof.
  unfold bulk_proof, proof_of. destruct (filter (λ e, is_active e = true) evs) as [|a active] eqn:E; simpl.
  - destruct (sql_max (omap e_revoked_at evs)) as [m|]; [|done]. simpl.
    destruct (sql_min (e_discovered_at <$> evs)); [|done]. by destruct (sql_min (e_confirmed_at <$> evs)).
  - destruct (sql_min (e_discovered_at <$> evs)); [|done]. reflexivity.
Qed.

(** An update skipped when it would change nothing. *)
Lemma insert_unless_eq `{Countable K} {A} `{EqDecision A} (m : gmap K A) k a :
  (if bool_decide (m !! k = Some a) then m else <[k := a]> m) = <[k := a]> m.
Proof. case_bool_decide as Hk; [by rewrite (insert_id _ _ _ Hk)|done]. Qed.

Lemma bulk_upsert_lookup t hash sources proofs h s :
  foldl (bulk_upsert_proof t hash) proofs sources !! (h, s) = upsert_proofs t hash proofs sources !! (h, s).
Proof.
  rewrite upsert_proofs_lookup. revert proofs. induction sources as [|x sources IH]; intros proofs; simpl.
  { rewrite bool_decide_eq_false_2; [done|set_solver]. }
  rewrite IH. unfold bulk_upsert_proof. rewrite bulk_proof_eq.
  destruct (proof_of (source_events t hash x)) as [p|] eqn:Ep.
  - rewrite insert_unless_eq.
    destruct (decide ((hash, x) = (h, s))) as [[= -> ->]|Hne].
    + rewrite lookup_insert_eq, Ep. rewrite (bool_decide_eq_true_2 (h = h ∧ s ∈ s :: sources ∧ _)); [match goal with |- (if ?b then _ else _) = _ => destruct b; reflexivity end|].
      split_and!; [done|left|done].
    + rewrite lookup_insert_ne by done. do 2 case_bool_decide; set_solver.
  - erewrite bool_decide_ext; [reflexivity|]. rewrite elem_of_cons. split; [naive_solver|].
    intros (-> & [->|Hs] & Hp); [by rewrite Ep in Hp; destruct Hp|done].
Qed.

Lemma bulk_proofs_lookup t hash proofs h s :
  bulk_update_proofs t proofs hash !! (h, s) =
  if bool_decide (h = hash) then proof_of (source_events t hash s) else proofs !! (h, s).
Proof.
  rewrite <-rebuilt_proofs_lookup. unfold bulk_update_proofs, delete_proofs_without_evidence.
  rewrite !map_lookup_filter, bulk_upsert_lookup. destruct (upsert_proofs _ _ _ _ !! _) as [p|]; [|done]. csimpl.
  apply option_eq. intros p'. case_guard; case_guard; try done; exfalso; destruct (decide (h = hash)); tauto.
Qed.

(** Only the row of the parent is written, from the tables the statement began with. *)
Lemma bulk_blocks_other db t hash k : k ≠ hash → bulk_update_block db t hash !! k = t !! k.
Proof.
  intros Hne. unfold bulk_update_block. destruct (bulk_rollup db hash), (t !! hash); try done.
  case_match; [by rewrite lookup_insert_ne|done].
Qed.

Lemma bulk_row_same b r : bulk_block_differs b r = false → bulk_row b r = b.
Proof.
  unfold bulk_block_differs, distinct_from. intros Hd. repeat apply orb_false_elim in Hd as [Hd ?].
  repeat match goal with H : negb _ = false |- _ => apply negb_false_iff, bool_decide_eq_true in H end.
  destruct b; simpl in *. unfold bulk_row. simpl. by subst.
Qed.

Definition bulk_refreshed (db : ReadModel) (b : BlockInput) : BlockInput :=
  match bulk_rollup db (b_hash b) with Some r => bulk_row b r | None => b end.

Lemma bulk_blocks_hit db t hash b : b_hash b = hash → t !! hash = Some b →
  bulk_update_block db t hash !! hash = Some (bulk_refreshed db b).
Proof.
  intros Hh Hb. unfold bulk_update_block, bulk_refreshed. rewrite Hb, Hh.
  destruct (bulk_rollup db hash) as [r|]; [|done]. destruct (bulk_block_differs b r) eqn:E.
  - by rewrite lookup_insert_eq.
  - by rewrite bulk_row_same.
Qed.

Lemma bulk_blocks_lookup db hashes t k : NoDup hashes → table_ok t →
  foldl (bulk_update_block db) t hashes !! k =
  if bool_decide (k ∈ hashes) then bulk_refreshed db <$> t !! k else t !! k.
Proof.
  intros Hn Ht. assert (∀ h b, t !! h = Some b → b_hash b = h) as Hh by (intros h b Hb; by apply Ht).
  clear Ht. revert t Hh. induction Hn as [|h hashes Hin _ IH]; intros t Hh; simpl; [done|].
  rewrite IH.
  - destruct (decide (k = h)) as [->|Hne].
    + rewrite (bool_decide_eq_false_2 (h ∈ hashes)) by done. rewrite bool_decide_eq_true_2 by left.
      destruct (t !! h) as [b|] eqn:Hb; [by rewrite (bulk_blocks_hit _ _ _ b) by eauto|].
      unfold bulk_update_block. rewrite Hb. by destruct (bulk_rollup db h).
    + rewrite bulk_blocks_other by done. erewrite bool_decide_ext; [reflexivity|]. set_solver.
  - intros k' b Hb. destruct (decide (k' = h)) as [->|Hne]; [|rewrite bulk_blocks_other in Hb by done; by apply Hh].
    destruct (t !! h) as [b0|] eqn:Hb0.
    + rewrite (bulk_blocks_hit _ _ _ b0) in Hb by eauto. simplify_eq. unfold bulk_refreshed.
      destruct (bulk_rollup db _); simpl; by apply Hh.
    + unfold bulk_update_block in Hb. rewrite Hb0 in Hb. destruct (bulk_rollup db h); congruence.
Qed.

(** The join of the events with their sources, as the two rollups write it. *)
Lemma joined_fields (sources : gmap Z SourceRow) (l : list EventRow) :
  let joined := omap (λ e, s ← sources !! e_source_id e; Some (e, s)) l in
  filter (λ e, is_Some (sources !! e_source_id e)) l = joined.*1 ∧
  omap (λ e, s ← sources !! e_source_id e;
             if bool_decide (s_kind s = "auxpow"%string) then Some (s_chain s) else None)
    (filter (λ e, is_Some (sources !! e_source_id e)) l)
  = (λ j, s_chain j.2) <$> filter (λ j, s_kind j.2 = "auxpow"%string) joined.
Proof.
  induction l as [|e l [IH1 IH2]]; [done|]. cbv zeta in *. csimpl.
  destruct (sources !! e_source_id e) as [s|] eqn:Es; simpl.
  - rewrite filter_cons_True by eauto. csimpl. rewrite Es. simpl. split; [by rewrite IH1|]. rewrite IH2.
    case_bool_decide; [by rewrite filter_cons_True|by rewrite filter_cons_False].
  - by rewrite filter_cons_False by (rewrite Es; by intros [??]).
Qed.

Lemma bulk_rollup_eq db hash :
  bulk_rollup db hash =
  (λ r, mkBulkRollup (total_attestations r) (distinct_sources r + 1) (auxpow_chain_count r)
          (first_attested_at r) (last_attested_at r)) <$> load_parent_rollup (rm_events db) (rm_sources db) hash.
Proof.
  unfold bulk_rollup, load_parent_rollup.
  destruct (joined_fields (rm_sources db) (active_events (rm_events db) hash)) as [H1 H2]. rewrite H2, H1. clear H1 H2.
  destruct (omap _ _) as [|j joined]; [done|]. rewrite length_fmap, <-!list_fmap_compose.
  destruct (Z.eqb_spec (Z.of_nat (length (j :: joined))) 0) as [E|]; [by simpl in E|]. done.
Qed.

Section bulk.
Context `{BitcoinLib} (lookup : bytes → option InvalidBlock) (resolve_pool : bytes → option bytes → option Z).
Context (db : ReadModel) (nt : option NbitsTable).
Context (blocks_wf : blocks_ok (rm_blocks db)).
(** The columns a header determines, and the foreign key of [source_id]. *)
Context (events_wf : ∀ i e, rm_events db !! i = Some e →
  is_Some (rm_sources db !! e_source_id e) ∧
  ∃ hd, deserialize_header (e_header_bytes e) = Some hd ∧ e_header_time e = hdr_time hd).
Context (times_wf : ∀ h b hd, rm_blocks db !! h = Some b → deserialize_header (b_header_bytes b) = Some hd →
  b_header_time b = hdr_time hd).

Lemma bulk_eligible_spec hash r : bulk_eligible db hash r = true →
  ∃ b, rm_blocks db !! hash = Some b ∧ b_kind b = BkCanonical ∧ b_core_attested b = true ∧ b_live_observed b = true ∧
    b_difficulty_epoch_ok b = Some true ∧ active_events (rm_events db) hash ≠ [] ∧
    ∀ e, e ∈ active_events (rm_events db) hash → event_proven b e = true.
Proof.
  unfold bulk_eligible. destruct (rm_blocks db !! hash) as [b|]; [|done].
  intros Hb. repeat apply andb_prop in Hb as [Hb ?]. exists b.
  repeat match goal with Hd : bool_decide _ = true |- _ => apply bool_decide_eq_true in Hd end.
  match goal with Hn : negb _ = true |- _ => apply negb_true_iff, bool_decide_eq_false in Hn end.
  split_and!; try done. intros e He. by eapply forallb_forall, list_elem_of_In.
Qed.

(** The representative event of an eligible parent has the columns of the block row. *)
Lemma eligible_representative hash b :
  rm_blocks db !! hash = Some b → active_events (rm_events db) hash ≠ [] →
  (∀ e, e ∈ active_events (rm_events db) hash → event_proven b e = true) →
  ∃ ev hd, load_representative_active_event (rm_events db) hash = Ok ev ∧
    deserialize_header (m_header_bytes ev) = Some hd ∧ m_hash ev = hash ∧ m_prev_hash ev = b_prev_hash b ∧
    m_header_bytes ev = b_header_bytes b ∧ m_header_time ev = b_header_time b.
Proof.
  intros Hb Hne Hp. unfold load_representative_active_event.
  destruct (first_event _ _) as [e|] eqn:He.
  2: { by destruct (active_events (rm_events db) hash). }
  apply first_event_in in He. specialize (Hp e He) as Hpe. unfold event_proven in Hpe.
  repeat apply andb_prop in Hpe as [Hpe ?].
  repeat match goal with Hd : bool_decide _ = true |- _ => apply bool_decide_eq_true in Hd end.
  apply elem_of_active in He as (Hh & Ha & i & Hi). destruct (events_wf i e Hi) as (_ & hd & Hd & Ht).
  simpl. unfold event_from_row. rewrite Hpe. simpl.
  unfold ensure_active_parent_headers_match.
  assert (forallb (λ e', bool_decide (e_header_bytes e' = e_header_bytes e)) (active_events (rm_events db) hash) = true) as ->.
  { apply forallb_forall. intros e' He'%list_elem_of_In. apply bool_decide_eq_true. specialize (Hp e' He').
    unfold event_proven in Hp. repeat apply andb_prop in Hp as [Hp ?].
    repeat match goal with Hd : bool_decide _ = true |- _ => apply bool_decide_eq_true in Hd end. congruence. }
  eexists _, hd. simpl. split_and!; try done. rewrite Ht. symmetry. eapply times_wf; [done|]. congruence.
Qed.

Definition with_pool (b : BlockInput) (pool : option Z) : BlockInput :=
  {| b_hash := b_hash b; b_prev_hash := b_prev_hash b; b_height := b_height b; b_height_source := b_height_source b;
     b_kind := b_kind b; b_header_bytes := b_header_bytes b; b_header_time := b_header_time b;
     b_bitcoin_miner_pool_id := pool; b_coinbase_txid := b_coinbase_txid b;
     b_coinbase_script := b_coinbase_script b; b_coinbase_outputs := b_coinbase_outputs b;
     b_coinbase_status := b_coinbase_status b; b_invalid_block_reason := b_invalid_block_reason b;
     b_canonical_competitor_hash := b_canonical_competitor_hash b;
     b_total_attestations := b_total_attestations b; b_distinct_sources := b_distinct_sources b;
     b_auxpow_chain_count := b_auxpow_chain_count b; b_live_observed := b_live_observed b;
     b_core_attested := b_core_attested b; b_pow_validated := b_pow_validated b;
     b_difficulty_epoch_ok := b_difficulty_epoch_ok b; b_first_attested_at := b_first_attested_at b;
     b_last_attested_at := b_last_attested_at b; b_btc_orphan_class := b_btc_orphan_class b |}.

(** The verdict a rebuild finds for a canonical row Core attested. *)
Lemma persisted_canonical t ev hd b :
  table_ok t → t !! m_hash ev = Some b → b_kind b = BkCanonical →
  b_core_attested b = true → b_difficulty_epoch_ok b = Some true →
  ∃ c, persisted_classification_from_block lookup t ev hd = Some c ∧
    block_placement c = Ok (b_kind b, b_height b, b_height_source b, b_canonical_competitor_hash b,
                            b_invalid_block_reason b) ∧
    coinbase c = None ∧ difficulty_epoch_ok c = Some true ∧ live_observed c = true ∧ core_attested c = true.
Proof.
  intros Ht Hb Hk Hc Hd. destruct (Ht _ _ Hb) as [_ Hchk]. destruct_chk Hchk.
  unfold persisted_classification_from_block, persisted_classification_from_hash, load_block_cascade_state.
  rewrite Hb. simpl. rewrite Hk in *. simpl in *. eexists. split; [done|]. unfold block_placement. simpl.
  repeat match goal with H : _ && _ = true |- _ => apply andb_true_iff in H as [? ?] end.
  repeat match goal with H : bool_decide _ = true |- _ => apply bool_decide_eq_true in H end.
  split_and!; try done. destruct (b_invalid_block_reason b); [done|]. by repeat match goal with H : _ = _ |- _ => rewrite H end.
Qed.

(** The upsert of a rebuilt canonical row merges to the bulk row, but for the pool. *)
Lemma rebuilt_merges hash ev rollup c b pool :
  b_hash b = hash → chk_block b = true → b_kind b = BkCanonical → b_core_attested b = true → b_live_observed b = true →
  m_prev_hash ev = b_prev_hash b → m_header_bytes ev = b_header_bytes b → m_header_time ev = b_header_time b →
  coinbase c = None → difficulty_epoch_ok c = Some true → live_observed c = true → core_attested c = true →
  event_rollup_set b
    (rebuilt_block hash ev rollup c
       (b_kind b, b_height b, b_height_source b, b_canonical_competitor_hash b, b_invalid_block_reason b) pool None)
  = with_pool (bulk_row b (mkBulkRollup (total_attestations rollup) (distinct_sources rollup + 1)
                 (auxpow_chain_count rollup) (first_attested_at rollup) (last_attested_at rollup))) pool.
Proof.
  intros Hh Hchk Hk Hc Hl Hp Hb Ht Hcb Hd Hlo Hca. destruct_chk Hchk. rewrite Hk in *.
  assert (b_btc_orphan_class b = None) as Ho by (destruct (b_btc_orphan_class b); naive_solver).
  unfold event_rollup_set, with_pool, bulk_row, rebuilt_block, merge_difficulty. simpl.
  rewrite Hp, Hb, Ht, Hcb, Hd, Hlo, Hca, Hc, Hl, Ho, Hk. simpl. rewrite orb_true_r. done.
Qed.

Lemma pool_row_stored t b r pool :
  t !! b_hash b = Some b → chk_block b = true → b_kind b = BkCanonical →
  store_row t (with_pool (bulk_row b r) pool) = Ok (<[b_hash b := with_pool (bulk_row b r) pool]> t).
Proof.
  intros Hb Hchk Hk. apply store_row_Ok. split_and!; [exact Hchk| |done]. intros c Hc. simpl in Hc.
  destruct_chk Hchk. rewrite Hk in *.
  repeat match goal with H : _ && _ = true |- _ => apply andb_true_iff in H as [? ?] end.
  repeat match goal with H : bool_decide _ = true |- _ => apply bool_decide_eq_true in H end. congruence.
Qed.

(** An upsert of a rollup row that may be stored stores the merged row. *)
Lemma rollup_upsert t old new r :
  t !! b_hash new = Some old → b_hash old = b_hash new → b_live_observed new = b_core_attested new →
  event_rollup_set old new = r → store_row t r = Ok (<[b_hash new := r]> t) →
  upsert_block_row t new EventRollup = Ok (<[b_hash new := r]> t).
Proof.
  intros Ho Hh Hl <- Hs. unfold upsert_block_row, ensure_live_core_lockstep. rewrite Hl, eqb_reflx, Ho.
  change (conflict_where EventRollup) with event_rollup_where. change (conflict_set EventRollup) with event_rollup_set.
  destruct (event_rollup_where old new) eqn:Hw; [exact Hs|].
  apply event_rollup_where_false in Hw. rewrite Hw. by rewrite insert_id.
Qed.

Lemma rebuild_upserts hash ev rollup c b pool :
  rm_blocks db !! hash = Some b → b_kind b = BkCanonical → b_core_attested b = true → b_live_observed b = true →
  m_prev_hash ev = b_prev_hash b → m_header_bytes ev = b_header_bytes b → m_header_time ev = b_header_time b →
  coinbase c = None → difficulty_epoch_ok c = Some true → live_observed c = true → core_attested c = true →
  load_parent_rollup (rm_events db) (rm_sources db) hash = Some rollup →
  upsert_block_row (rm_blocks db)
    (rebuilt_block hash ev rollup c
       (b_kind b, b_height b, b_height_source b, b_canonical_competitor_hash b, b_invalid_block_reason b) pool None)
    EventRollup
  = Ok (<[hash := with_pool (bulk_refreshed db b) pool]> (rm_blocks db)).
Proof.
  intros Hb Hk Hca Hlo Hmp Hmb Hmt Hcb Hcd Hcl Hcc Hroll. destruct (proj1 blocks_wf _ _ Hb) as [Hh Hchk].
  unfold bulk_refreshed. rewrite bulk_rollup_eq, Hh, Hroll. simpl.
  eapply (rollup_upsert _ b (rebuilt_block hash ev rollup c (b_kind b, _, _, _, _) pool None)).
  - exact Hb.
  - exact Hh.
  - simpl. congruence.
  - by apply rebuilt_merges.
  - simpl. rewrite <-Hh. apply pool_row_stored; [by rewrite Hh|done..].
Qed.

Lemma eligible_rebuild hash r : bulk_eligible db hash r = true →
  ∃ b pool db', rm_blocks db !! hash = Some b ∧
    rebuild_parent_read_model lookup resolve_pool db hash None nt = Ok db' ∧
    rm_blocks db' = <[hash := with_pool (bulk_refreshed db b) pool]> (rm_blocks db) ∧
    rm_events db' = rm_events db ∧
    ∀ h s, rm_proofs db' !! (h, s) =
      if bool_decide (h = hash) then proof_of (source_events (rm_events db) hash s) else rm_proofs db !! (h, s).
Proof.
  intros (b & Hb & Hk & Hca & Hlo & Hd & Hne & Hp)%bulk_eligible_spec.
  destruct (proj1 blocks_wf _ _ Hb) as [Hh Hchk].
  destruct (eligible_representative _ _ Hb Hne Hp) as (ev & hd & Hev & Hhd & Hmh & Hmp & Hmb & Hmt).
  assert (∃ rollup, load_parent_rollup (rm_events db) (rm_sources db) hash = Some rollup) as [rollup Hroll].
  { destruct (active_events (rm_events db) hash) as [|e l] eqn:Ea; [done|].
    assert (e ∈ active_events (rm_events db) hash) as (He & Hact & i & Hi)%elem_of_active by (rewrite Ea; left).
    unfold load_parent_rollup. rewrite Ea, filter_cons_True by (by apply (events_wf i)).
    simpl. eauto. }
  rewrite <-Hmh in Hb.
  destruct (persisted_canonical _ ev hd b (proj1 blocks_wf) Hb Hk Hca Hd) as (c & Hper & Hpl & Hcb & Hcd & Hcl & Hcc).
  rewrite Hmh in Hb. exists b. eexists _, _. split; [done|]. split.
  { unfold rebuild_parent_read_model. rewrite Hroll. apply bind_Ok. exists ev. split; [exact Hev|].
    apply bind_Ok. exists hd. split; [by rewrite Hhd|]. cbv zeta. rewrite Hper. cbn [default from_option id].
    apply bind_Ok. eexists. split; [exact Hpl|]. apply bind_Ok. exists None. split.
    { unfold compute_block_orphan_class. cbn [fst snd]. by rewrite Hk. }
    apply bind_Ok. eexists. split; [by apply rebuild_upserts|].
    apply bind_Ok. eexists. split; [|reflexivity].
    unfold rebuild_auxpow_proofs. apply bind_Ok. exists (). split; [|reflexivity].
    rewrite lookup_insert_eq, orb_true_r. reflexivity. }
  split_and!; [reflexivity|reflexivity|]. intros h s. apply rebuilt_proofs_lookup.
Qed.

Lemma elem_of_eligible q locked n hash : hash ∈ eligible db q locked n →
  ∃ r, q !! hash = Some r ∧ bulk_eligible db hash r = true ∧ hash ∉ locked.
Proof.
  unfold eligible. intros ([h r] & -> & Hin)%list_elem_of_fmap. apply subseteq_take in Hin.
  rewrite merge_sort_Permutation in Hin.
  apply list_elem_of_filter in Hin as [[He Hl] Hq%elem_of_map_to_list]. eauto.
Qed.

Lemma eligible_NoDup q locked n : NoDup (eligible db q locked n).
Proof.
  unfold eligible. eapply sublist_NoDup; [|apply fmap_sublist, sublist_take].
  rewrite merge_sort_Permutation. apply (NoDup_fmap_fst); [|apply NoDup_filter, NoDup_map_to_list].
  intros h r r' [_ Hr]%list_elem_of_filter [_ Hr']%list_elem_of_filter.
  apply elem_of_map_to_list in Hr, Hr'. congruence.
Qed.

Lemma bulk_proofs_fold t hashes proofs h s :
  foldl (bulk_update_proofs t) proofs hashes !! (h, s) =
  if bool_decide (h ∈ hashes) then proof_of (source_events t h s) else proofs !! (h, s).
Proof.
  revert proofs. induction hashes as [|k hashes IH]; intros proofs; simpl; [done|].
  rewrite IH, bulk_proofs_lookup. destruct (decide (h = k)) as [->|Hne].
  - rewrite (bool_decide_eq_true_2 (k = k)), (bool_decide_eq_true_2 (k ∈ k :: hashes)) by (done || left).
    by destruct (bool_decide (k ∈ hashes)).
  - rewrite (bool_decide_eq_false_2 (h = k)) by done. erewrite bool_decide_ext; [reflexivity|]. set_solver.
Qed.

Lemma bulk_cascade_state b : b_difficulty_epoch_ok b = Some true → cascade_state (bulk_refreshed db b) = cascade_state b.
Proof. intros Hd. unfold bulk_refreshed, cascade_state. destruct (bulk_rollup db _); simpl; by rewrite ?Hd. Qed.

(** C8. The bulk statement is the rebuild of each parent it takes: for a batch of eligible parents of
    well-formed tables, the block row and the proofs it leaves for a parent are those
    [rebuild_parent_read_model] computes, which succeeds, except that the bulk statement keeps the
    stored pool; the rows and proofs of every other parent are untouched, and no parent's cascade
    state changes, so that no dependent needs a cascade. *)
Theorem bulk_matches_rebuild q locked n :
  let hashes := eligible db q locked n in
  let db' := (bulk_reconcile db q hashes).1 in
  (∀ hash, hash ∈ hashes → ∃ db1 pool,
     rebuild_parent_read_model lookup resolve_pool db hash None nt = Ok db1 ∧ rm_events db1 = rm_events db' ∧
     is_Some (rm_blocks db1 !! hash) ∧
     rm_blocks db1 !! hash = (λ b, with_pool b pool) <$> rm_blocks db' !! hash ∧
     ∀ s, rm_proofs db1 !! (hash, s) = rm_proofs db' !! (hash, s)) ∧
  (∀ h, h ∉ hashes → rm_blocks db' !! h = rm_blocks db !! h ∧ ∀ s, rm_proofs db' !! (h, s) = rm_proofs db !! (h, s)) ∧
  ∀ h, load_block_cascade_state (rm_blocks db') h = load_block_cascade_state (rm_blocks db) h.
Proof.
  intros hashes db'. pose proof (eligible_NoDup q locked n) as Hn.
  assert (∀ h, rm_blocks db' !! h = if bool_decide (h ∈ hashes) then bulk_refreshed db <$> rm_blocks db !! h
                                    else rm_blocks db !! h) as Hb.
  { intros h. apply bulk_blocks_lookup; [done|]. apply blocks_wf. }
  split_and!.
  - intros hash Hin. destruct (elem_of_eligible _ _ _ _ Hin) as (r & _ & He & _).
    destruct (eligible_rebuild _ _ He) as (b & pool & db1 & Hl & Hr & Hb1 & He1 & Hp1). exists db1, pool.
    rewrite Hb, Hb1, bool_decide_eq_true_2, lookup_insert_eq, Hl by done. split_and!; [done..|].
    intros s. rewrite Hp1. simpl. by rewrite bulk_proofs_fold, !bool_decide_eq_true_2.
  - intros h Hh. rewrite Hb, bool_decide_eq_false_2 by done. split; [done|]. intros s. simpl.
    by rewrite bulk_proofs_fold, bool_decide_eq_false_2.
  - intros h. unfold load_block_cascade_state. rewrite Hb. case_bool_decide as Hin; [|done].
    destruct (elem_of_eligible _ _ _ _ Hin) as (r & _ & (b & Hl & _ & _ & _ & Hd & _)%bulk_eligible_spec & _).
    rewrite Hl. simpl. by rewrite bulk_cascade_state.
Qed.
End bulk.

(** ** What a drain does to the tables and the queue *)

Abbreviation snapshot := (ReadModel * hqueue)%type.

(** No seed of a row is dropped. *)
Definition keeps_seeds (q q' : hqueue) : Prop :=
  ∀ p r h, q !! p = Some r → h ∈ h_changed_hashes r → ∃ r', q' !! p = Some r' ∧ h ∈ h_changed_hashes r'.
#[global] Instance keeps_seeds_preorder : PreOrder keeps_seeds.
Proof.
  split; [intros q p r h; by exists r|]. intros a b c Hab Hbc p r h Hp Hh.
  destruct (Hab p r h Hp Hh) as (r1 & Hr1 & Hs). by apply (Hbc p r1 h).
Qed.

Definition same_queue `{HistoricalTables W} (w w' : W) : Prop := hqueue_of w' = hqueue_of w.
#[global] Instance same_queue_preorder `{HistoricalTables W} : PreOrder (same_queue (W := W)).
Proof. split; [by intros w|]. intros a b c Hab Hbc. unfold same_queue in *. congruence. Qed.

Section steps_of_drain.
Context `{BitcoinLib} {W : Type} `{CoreHeaderSource W} `{Clock W} `{ReadModelSession W} `{CaptureTables W} `{HistoricalTables W}.
Context `{!HistoricalTablesLaws W} `{!QuietCalls (same_queue (W := W))}.
Context (lookup : bytes → option InvalidBlock) (resolve_pool : bytes → option bytes → option Z).
Context (classifier : ConfiguredParentClassifier) (nbits_table : option NbitsTable).

#[local] Abbreviation sM := (stM (W * ReadModel) anyhow).

Definition view (w : W * ReadModel) : snapshot := (w.2, queue_rows w).

(** What other sessions commit between two statements: importers, which enqueue. *)
Context (others : snapshot → snapshot → Prop).
Context (others_ok : ∀ s s', others s s' → model_ok s.1 → model_ok s'.1).
Context (others_keep : ∀ s s', others s s' → keeps_seeds s.2 s'.2).
Context (session_others : ∀ w : W * ReadModel, rtc others (view w) (view (session w).2)).

(** The commits of a cascade, which leave the queue alone, between those of others. *)
Definition cascade_move (s s' : snapshot) : Prop :=
  (model_ok s.1 → model_ok s'.1) ∧ (others s s' ∨ s'.2 = s.2).
Definition cascading (w w' : W * ReadModel) : Prop := rtc cascade_move (view w) (view w').
#[local] Instance cascading_preorder : PreOrder cascading.
Proof. unfold cascading. split; [intros w; apply rtc_refl|]. intros a b c Hab Hbc. by etrans. Qed.

Lemma session_cascading : steps cascading (session : sM unit).
Proof.
  intros w. eapply rtc_subrel; [|apply session_others]. intros s s' Ho. split; [by apply others_ok|by left].
Qed.
Lemma on_env_view {A} (m : stM W anyhow A) w : steps same_queue m → view (on_env m w).2 = view w.
Proof. intros Hm. specialize (Hm w.1). unfold on_env, view, queue_rows. destruct (m w.1). simpl in *. by rewrite Hm. Qed.
Lemma on_env_cascading {A} (m : stM W anyhow A) : steps same_queue m → steps cascading (on_env m).
Proof. intros Hm w. unfold cascading. by rewrite on_env_view. Qed.
#[local] Hint Resolve session_cascading on_env_cascading env_commit : steps.

(** A commit of tables derived from those the transaction locked. *)
Lemma commit_cascading db (ch : list bytes) (w : W * ReadModel) :
  (model_ok w.2 → model_ok db) → cascading w ((_ ← no_settle ch; _ ← commit_tables db; mret ch) w).2.
Proof.
  intros Hdb. unfold no_settle, commit_tables, mbind, stM_bind, on_err, mret, stM_ret.
  pose proof (on_env_view commit w env_commit) as Hv.
  destruct (on_env commit w) as [[u|e] w1]; simpl in *; unfold cascading; [|by rewrite Hv].
  apply rtc_once. rewrite <-Hv. injection Hv as Ht Hq. split; [simpl; by rewrite Ht|]. by right.
Qed.

Lemma reconcile_attempts_cascading n event_id pre strict :
  steps cascading (reconcile_attempts lookup resolve_pool classifier nbits_table n event_id pre strict no_settle).
Proof.
  induction n as [|n IH]; simpl; [solve_steps|]. unfold tables.
  apply steps_bind; [apply _|solve_steps|]; intros []. apply steps_bind; [apply _|solve_steps|]; intros before0.
  apply steps_bind; [apply _| |].
  { destruct (negb _); [solve_steps|]. apply on_env_cascading, preclassify_env; apply _. }
  intros pre'. apply steps_bind; [apply _|solve_steps|]; intros []. apply steps_bind; [apply _|solve_steps|]; intros before.
  apply steps_bind; [apply _|solve_steps|]; intros [].
  intros w. unfold mbind at 1, stM_bind at 1, gets at 1. cbn [fst snd]. rewrite st_attempt_bind.
  pose proof (on_env_view _ w (reconcile_env same_queue lookup resolve_pool classifier before w.2 event_id pre' None nbits_table)) as Hv.
  unfold on_env in *. destruct (reconcile_one_event_in_txn _ _ _ _ _ _ _ _ _ _) as [[[ch db]|e] e'] eqn:Hr; cbn [fst snd] in *.
  - etrans; [|eapply (commit_cascading db ch (e', w.2)); intros Hok; by eapply in_txn_reported].
    unfold cascading. by rewrite Hv.
  - match goal with |- cascading _ (?m ?w1).2 => assert (steps cascading m) as Hm by solve_steps;
      etrans; [|exact (Hm w1)] end. unfold cascading. by rewrite Hv.
Qed.

Lemma reconcile_work_cascading work :
  steps cascading (reconcile_work lookup resolve_pool classifier nbits_table work).
Proof.
  destruct work as [i pre|i|hash]; [apply reconcile_attempts_cascading..|].
  simpl. unfold reconcile_one_block, reconcile_one_block_with_policy, tables.
  do 2 (apply steps_bind; [apply _|solve_steps|]; intros ?).
  destruct (find_anchor_event_for_block _ _); [apply reconcile_attempts_cascading|].
  apply steps_bind; [apply _|solve_steps|]; intros [].
  intros w. unfold mbind at 1, stM_bind at 1, gets at 1. unfold mbind at 1, stM_bind at 1, lift.
  destruct (rebuild_parent_read_model _ _ _ _ _ _) as [db|e] eqn:Hr; [|reflexivity].
  apply commit_cascading. intros Hok. by edestruct rebuild_reported.
Qed.
#[local] Hint Resolve reconcile_work_cascading : steps.

Lemma enqueue_all_cascading hashes st : steps cascading (enqueue_all hashes st : sM _).
Proof. revert st. induction hashes; intros st; simpl; unfold enqueue_dependents, tables; solve_steps. Qed.
#[local] Hint Resolve enqueue_all_cascading : steps.

Lemma cascade_cascading fuel changed budget :
  steps cascading (cascade_changed_with_nbits_table lookup resolve_pool classifier nbits_table fuel changed budget).
Proof.
  assert (∀ st, steps cascading (cascade_loop lookup resolve_pool classifier nbits_table fuel (Some budget) st)) as Hl.
  { induction fuel as [|fuel IH]; intros st; simpl; solve_steps. }
  unfold cascade_changed_with_nbits_table, reconcile_dependents_after_changes, drain_reconcile_queue. solve_steps.
Qed.

(** ** The steps of a drain *)

Definition settled_row (r : HistoricalRow) (changed : list bytes) : HistoricalRow :=
  mkHistRow false (sort_dedup (h_changed_hashes r ++ changed)) (h_generation r + 1) (h_enqueued_at r).

Inductive label := LOthers | LBulk | LPrimary (p : bytes) (changed : list bytes)
                 | LWork (p : bytes) (seeds : list bytes) | LCascade (p : bytes) (seeds : list bytes).

(** A commit of others; the bulk statement; the commit of a primary, with every parent whose
    state it changed in its row; a run of the cascade over the seeds of a row that was not
    completed; a cascade that ended, with the completion of its row. *)
Inductive hstep : label → snapshot → snapshot → Prop :=
| step_others s s' : rtc others s s' → hstep LOthers s s'
| step_bulk db q locked n : hstep LBulk (db, q) (bulk_reconcile db q (eligible db q locked n))
| step_primary db q p r changed db' :
    q !! p = Some r → h_primary_pending r = true → reported changed db db' →
    hstep (LPrimary p changed) (db, q) (db', <[p := settled_row r changed]> q)
| step_work p r fuel budget (w1 w2 : W * ReadModel) res :
    queue_rows w1 !! p = Some r → h_primary_pending r = false →
    cascade_changed_with_nbits_table lookup resolve_pool classifier nbits_table fuel (h_changed_hashes r) budget w1
      = (res, w2) →
    hstep (LWork p (h_changed_hashes r)) (view w1) (view w2)
| step_cascade p r fuel budget (w1 w2 : W * ReadModel) s3 :
    queue_rows w1 !! p = Some r → h_primary_pending r = false →
    cascade_changed_with_nbits_table lookup resolve_pool classifier nbits_table fuel (h_changed_hashes r) budget w1
      = (Ok (Some ()), w2) →
    rtc others (view w2) s3 →
    hstep (LCascade p (h_changed_hashes r)) (view w1)
      (s3.1, complete_historical_work s3.2 p (h_generation r) (h_changed_hashes r)).

Inductive run : list label → snapshot → snapshot → Prop :=
| run_nil s : run [] s s
| run_cons l ls s1 s2 s3 : hstep l s1 s2 → run ls s2 s3 → run (l :: ls) s1 s3.

Lemma run_app ls ls' s1 s2 s3 : run ls s1 s2 → run ls' s2 s3 → run (ls ++ ls') s1 s3.
Proof. induction 1; simpl; [done|]. intros. econstructor; eauto. Qed.
Lemma run_one l s s' : hstep l s s' → run [l] s s'.
Proof. intros. econstructor; [done|constructor]. Qed.

(** *** Each step keeps the seeds or cascades over them *)

Lemma cascade_move_seeds s s' : rtc cascade_move s s' → keeps_seeds s.2 s'.2.
Proof.
  induction 1 as [|x y z [_ [Ho|Hq]] _ IH]; [done|etrans; [by apply others_keep|done]|by rewrite <-Hq].
Qed.
Lemma others_seeds s s' : rtc others s s' → keeps_seeds s.2 s'.2.
Proof. induction 1 as [|x y z Ho _ IH]; [done|]. etrans; [by apply others_keep|done]. Qed.

Lemma insert_seeds q p r r' : q !! p = Some r → h_changed_hashes r ⊆ h_changed_hashes r' → keeps_seeds q (<[p := r']> q).
Proof.
  intros Hp Hs p' r0 h Hr0 Hh. destruct (decide (p = p')) as [<-|Hne].
  - exists r'. rewrite lookup_insert_eq. simplify_eq. split; [done|]. by apply Hs.
  - exists r0. by rewrite lookup_insert_ne.
Qed.

Lemma bulk_complete_seeds q p : keeps_seeds q (bulk_complete q p).
Proof.
  unfold bulk_complete. destruct (q !! p) as [r|] eqn:Hp; [|done]. destruct (negb _); [done|].
  case_bool_decide as Hnil; [|by eapply insert_seeds].
  intros p' r' h Hr' Hh. destruct (decide (p = p')) as [<-|]; [|exists r'; by rewrite lookup_delete_ne].
  simplify_eq. rewrite Hnil in Hh. by apply elem_of_nil in Hh.
Qed.
Lemma bulk_seeds db q hashes : keeps_seeds q (bulk_reconcile db q hashes).2.
Proof.
  simpl. revert q. induction hashes as [|p hashes IH]; intros q; simpl; [done|]. etrans; [apply bulk_complete_seeds|done].
Qed.

Lemma complete_seeds q p gen seeds p' r h : q !! p' = Some r → h ∈ h_changed_hashes r → p' ≠ p →
  complete_historical_work q p gen seeds !! p' = Some r.
Proof.
  intros Hr Hh Hne. unfold complete_historical_work. destruct (q !! p) as [r0|]; [|done].
  destruct (_ && _); [by rewrite lookup_delete_ne|done].
Qed.

Lemma hstep_owes l s s' p r h : hstep l s s' → s.2 !! p = Some r → h ∈ h_changed_hashes r →
  (∃ r', s'.2 !! p = Some r' ∧ h ∈ h_changed_hashes r') ∨ ∃ seeds, l = LCascade p seeds ∧ h ∈ seeds.
Proof.
  intros Hs Hp Hh. destruct Hs as [s s' Ho|db q locked n|db q p0 r0 ch db' Hp0 _ _|p0 r0 fuel budget w1 w2 res _ _ Hc|p0 r0 fuel budget w1 w2 s3 Hp0 _ Hc Ho].
  - left. by eapply others_seeds.
  - left. by eapply bulk_seeds.
  - left. eapply (insert_seeds q p0 r0); [done| |done..]. intros x Hx. apply elem_of_sort_dedup. set_solver.
  - left. pose proof (cascade_cascading fuel (h_changed_hashes r0) budget w1) as Hm. rewrite Hc in Hm.
    by eapply cascade_move_seeds.
  - destruct (decide (p = p0)) as [->|Hne].
    + right. exists (h_changed_hashes r0). simpl in *. by simplify_eq.
    + pose proof (cascade_cascading fuel (h_changed_hashes r0) budget w1) as Hm. rewrite Hc in Hm.
      destruct (cascade_move_seeds _ _ Hm p r h Hp Hh) as (r1 & Hr1 & Hh1).
      destruct (others_seeds _ _ Ho p r1 h Hr1 Hh1) as (r2 & Hr2 & Hh2).
      left. exists r2. split; [|done]. by eapply complete_seeds.
Qed.

Lemma run_owes ls s s' : run ls s s' → ∀ p r h, s.2 !! p = Some r → h ∈ h_changed_hashes r →
  (∃ r', s'.2 !! p = Some r' ∧ h ∈ h_changed_hashes r') ∨ ∃ seeds, LCascade p seeds ∈ ls ∧ h ∈ seeds.
Proof.
  induction 1 as [|l ls s1 s2 s3 Hl _ IH]; intros p r h Hp Hh; [by eauto|].
  destruct (hstep_owes _ _ _ _ _ _ Hl Hp Hh) as [(r' & Hp' & Hh')|(seeds & -> & Hin)].
  - destruct (IH p r' h Hp' Hh') as [?|(seeds & Hin & ?)]; [by left|right]. exists seeds. split; [by right|done].
  - right. exists seeds. split; [left|done].
Qed.

(** *** What the transactions do *)

Lemma queue_transaction_inv {A} (m : sM (bool * A)) w res w' : queue_transaction m w = (res, w') →
  view w' = view w ∨ ∃ a w1, m w = (Ok (true, a), w1) ∧ view w' = view w1.
Proof.
  assert (∀ w0, view (restore_queue w w0) = view w) as Hres.
  { intros w0. unfold view, restore_queue, queue_rows. simpl. by rewrite hqueue_of_set. }
  unfold queue_transaction. destruct (m w) as [[[[] a]|e] w1]; [|intros [= _ <-]; by left..].
  pose proof (on_env_view commit w1 env_commit) as Hc. destruct (on_env commit w1) as [[u|e] w2]; intros [= _ <-]; [right|by left].
  simpl in *. by eauto.
Qed.

(** The rows [put_hqueue] and [put_tables] leave. *)
Lemma put_view_tables q db (w : W * ReadModel) : view (set_hqueue q w.1, db) = (db, q).
Proof. unfold view, queue_rows. simpl. by rewrite hqueue_of_set. Qed.

Lemma persist_Ok q p gen changed q' : persist_historical_primary q p gen changed = Ok q' →
  ∃ r, q !! p = Some r ∧ h_primary_pending r = true ∧ h_generation r = gen ∧ q' = <[p := settled_row r changed]> q.
Proof.
  unfold persist_historical_primary. intros Hp. destruct (q !! p) as [r|]; [|done].
  apply bind_Ok in Hp as ([] & Hg%ensure_Ok & [= <-]). apply andb_prop in Hg as [? ?%Z.eqb_eq]. eauto.
Qed.

(** A transaction that committed a primary: from tables others left, its one step. *)
Definition primary_committed (p : bytes) (s s' : snapshot) : Prop :=
  model_ok s.1 → model_ok s'.1 ∧ ∃ ls, run ls s s' ∧ (∀ p' seeds, LCascade p' seeds ∉ ls).

Lemma committed_primary p s s1 db' q' gen changed :
  rtc others s s1 → persist_historical_primary s1.2 p gen changed = Ok q' →
  (model_ok s1.1 → model_ok db' ∧ reported changed s1.1 db') → primary_committed p s (db', q').
Proof.
  intros Ho (r & Hp & Hpend & _ & ->)%persist_Ok Hdb Hok.
  assert (model_ok s1.1) as Hok1 by (clear -Ho Hok others_ok; induction Ho; eauto).
  destruct (Hdb Hok1) as [Hok' Hrep]. split; [done|]. exists [LOthers; LPrimary p changed]. split.
  - econstructor; [by constructor|]. apply run_one. destruct s1. by econstructor.
  - intros p' seeds Hin. rewrite !elem_of_cons, elem_of_nil in Hin. naive_solver.
Qed.

(** Statements that only let others commit. *)
Definition waiting (w w' : W * ReadModel) : Prop := rtc others (view w) (view w').
#[local] Instance waiting_preorder : PreOrder waiting.
Proof. unfold waiting. split; [intros w; apply rtc_refl|]. intros a b c Hab Hbc. by etrans. Qed.

Lemma session_waiting : steps waiting (session : sM unit).
Proof. intros w. apply session_others. Qed.
Lemma on_env_waiting {A} (m : stM W anyhow A) : steps same_queue m → steps waiting (on_env m).
Proof. intros Hm w. unfold waiting. by rewrite on_env_view. Qed.
#[local] Hint Resolve session_waiting on_env_waiting : steps.

Lemma waits {A} (m : sM A) w r w' : steps waiting m → m w = (r, w') → waiting w w'.
Proof. intros Hm Hr. specialize (Hm w). by rewrite Hr in Hm. Qed.

Lemma resolve_waiting db p i cached :
  steps same_queue (resolve_historical_preclassification lookup classifier db p i cached : stM W anyhow _).
Proof.
  unfold resolve_historical_preclassification.
  pose proof (λ i s, preclassify_env same_queue lookup classifier db i s) as Hp. destruct cached; solve_steps.
Qed.
Lemma lock_event_waiting db event pre : steps waiting (lock_event_for_source_health lookup classifier db event pre : sM unit).
Proof.
  unfold lock_event_for_source_health, classify_event_parent. solve_steps.
  apply on_env_waiting, classify_event_env; apply _.
Qed.

(** A body whose commit is that of the primary [p], once others have committed. *)
Definition committing {A} (p : bytes) (m : sM (bool * A)) : Prop :=
  ∀ w a w', m w = (Ok (true, a), w') → primary_committed p (view w) (view w').

Lemma others_model s s' : rtc others s s' → model_ok s.1 → model_ok s'.1.
Proof. induction 1; eauto. Qed.

Lemma committed_later p s s1 s' : rtc others s s1 → primary_committed p s1 s' → primary_committed p s s'.
Proof.
  intros Ho Hc Hok. destruct (Hc (others_model _ _ Ho Hok)) as (Hok' & ls & Hrun & Hno). split; [done|].
  exists (LOthers :: ls). split; [econstructor; [by constructor|done]|]. intros p' seeds Hin.
  apply elem_of_cons in Hin as [?|Hin]; [done|]. by eapply Hno.
Qed.

Lemma committing_bind {A B} p (m : sM A) (f : A → sM (bool * B)) :
  steps waiting m → (∀ a, committing p (f a)) → committing p (m ≫= f).
Proof.
  intros Hm Hf w b w' (a & w1 & Hw1 & Hw')%st_bind_Ok.
  eapply committed_later; [exact (waits _ _ _ _ Hm Hw1)|by eapply Hf].
Qed.
Lemma committing_rollback {A} p (a : A) : committing p (mret (false, a)).
Proof. intros w b w' Hr. st_inv. Qed.
Lemma committing_throw {A} p e : committing (A := A) p (throw e).
Proof. intros w b w' Hr. st_inv. Qed.

Lemma settle_commits p gen changed db (w : W * ReadModel) a w' :
  (model_ok w.2 → model_ok db ∧ reported changed w.2 db) →
  (q ← gets queue_rows; q ← lift (persist_historical_primary q p gen changed);
   _ ← put_hqueue q; _ ← put_tables db; mret (true, Some ())) w = (Ok (true, a), w') →
  primary_committed p (view w) (view w').
Proof.
  intros Hdb Hr. unfold put_hqueue, put_tables in Hr. st_inv. cbn [fst snd] in *. rewrite put_view_tables.
  by eapply (committed_primary p (view w) (view w)).
Qed.

Lemma reconcile_historical_Ok i pre (w : W * ReadModel) changed db w' :
  reconcile_historical_event lookup resolve_pool classifier nbits_table i pre w = (Ok (changed, db), w') →
  waiting w w' ∧ (model_ok w'.2 → model_ok db ∧ reported changed w'.2 db).
Proof.
  unfold reconcile_historical_event. intros Hr. st_inv.
  match goal with Hs : session _ = _ |- _ => apply (waits _ _ _ _ session_waiting) in Hs; rename Hs into Hwait end.
  match goal with He : on_env ?m ?w1 = _ |- _ => pose proof (on_env_view m w1 (reconcile_env _ _ _ _ _ _ _ _ _ _)) as Hv;
    rewrite He in Hv; rename He into Htxn end.
  simpl in Hv. split; [unfold waiting; by rewrite Hv|]. injection Hv as Ht _. intros Hok. rewrite Ht in *.
  unfold on_env in Htxn. destruct (reconcile_one_event_in_txn _ _ _ _ _ _ _ _ _ _) as [r e] eqn:Hrec. simplify_eq.
  by eapply in_txn_reported.
Qed.

Lemma anchored_commits p i gen cached retry :
  committing p (anchored_attempt lookup resolve_pool classifier nbits_table p i gen cached retry).
Proof.
  unfold anchored_attempt. do 3 (apply committing_bind; [solve_steps|]; intros ?).
  apply committing_bind; [apply on_env_waiting, resolve_waiting|]; intros [pre rejected].
  do 3 (apply committing_bind; [solve_steps|]; intros ?). apply committing_bind; [apply lock_event_waiting|]; intros _.
  do 2 (apply committing_bind; [solve_steps|]; intros ?). destruct (negb _); [apply committing_rollback|].
  do 2 (apply committing_bind; [solve_steps|]; intros ?). destruct (negb _); [apply committing_rollback|].
  destruct (_ && _); [apply committing_throw|]. intros w a' w'. rewrite st_attempt_bind.
  destruct (reconcile_historical_event _ _ _ _ _ _ w) as [[[changed db]|e] w1] eqn:Hr; cbn [fst snd].
  - apply reconcile_historical_Ok in Hr as [Hwait Hdb]. intros Hs.
    eapply committed_later; [exact Hwait|by eapply settle_commits].
  - destruct (_ && _); intros; st_inv.
Qed.

(** A transaction of the drain commits its primary or nothing. *)
Definition primary_outcome (p : bytes) (w w' : W * ReadModel) : Prop :=
  primary_committed p (view w) (view w').

Lemma nothing_committed p s s' : rtc others s s' → primary_committed p s s'.
Proof.
  intros Ho Hok. split; [by eapply others_model|]. exists [LOthers]. split; [by apply run_one; constructor|].
  intros p' seeds Hin. rewrite elem_of_cons, elem_of_nil in Hin. naive_solver.
Qed.
Lemma committed_trans p s1 s2 s3 : primary_committed p s1 s2 → primary_committed p s2 s3 → primary_committed p s1 s3.
Proof.
  intros H12 H23 Hok. destruct (H12 Hok) as (Hok2 & ls & Hrun & Hno). destruct (H23 Hok2) as (Hok3 & ls' & Hrun' & Hno').
  split; [done|]. exists (ls ++ ls'). split; [by eapply run_app|]. intros p' seeds Hin. set_solver.
Qed.
#[local] Instance primary_outcome_preorder p : PreOrder (primary_outcome p).
Proof.
  split; [intros w; by apply nothing_committed|]. intros a b c Hab Hbc. by eapply committed_trans.
Qed.

Lemma transaction_outcome {A} p (m : sM (bool * A)) : committing p m → steps (primary_outcome p) (queue_transaction m).
Proof.
  intros Hm w. destruct (queue_transaction m w) as [res w'] eqn:Ht. simpl. unfold primary_outcome.
  destruct (queue_transaction_inv _ _ _ _ Ht) as [->|(a & w1 & Hw1 & ->)]; [by apply nothing_committed|by eapply Hm].
Qed.
Lemma session_outcome p : steps (primary_outcome p) (session : sM unit).
Proof. intros w. by apply nothing_committed, session_others. Qed.

Lemma anchored_outcome n p i gen cached :
  steps (primary_outcome p) (anchored_attempts lookup resolve_pool classifier nbits_table n p i gen cached).
Proof.
  induction n as [|n IH]; simpl; [apply steps_throw; apply _|].
  apply steps_bind; [apply _|apply transaction_outcome, anchored_commits|]. intros [u|]; [apply steps_ret; apply _|done].
Qed.

Lemma orphan_outcome p gen :
  steps (primary_outcome p) (reconcile_historical_orphan_primary lookup resolve_pool nbits_table p gen).
Proof.
  apply transaction_outcome. do 3 (apply committing_bind; [solve_steps|]; intros ?).
  intros w a2 w' Hr. apply st_bind_Ok in Hr as (q & w1 & [-> ->]%st_gets_Ok & Hr).
  destruct (negb _); [by eapply (committing_rollback p)|].
  unfold put_hqueue, put_tables in Hr. st_inv. cbn [fst snd] in *. rewrite put_view_tables.
  eapply (committed_primary p (view w) (view w)); [done|eassumption|]. intros Hok.
  match goal with Hb : rebuild_parent_read_model _ _ _ _ _ _ = _ |- _ =>
    destruct (rebuild_reported _ _ _ _ _ _ Hok Hb) as [Hok' Hrep] end.
  split; [done|]. intros h Hd. specialize (Hrep h Hd). apply list_elem_of_singleton in Hrep as ->.
  case_bool_decide; [done|left].
Qed.

Lemma primary_reconciles p gen c :
  steps (primary_outcome p) (reconcile_historical_primary lookup resolve_pool classifier nbits_table p gen c).
Proof.
  unfold reconcile_historical_primary. apply steps_bind; [apply _|apply session_outcome|]. intros [].
  apply steps_bind; [apply _|apply steps_gets; apply _|]. intros db. destruct (find_anchor_event_for_block _ _).
  - apply anchored_outcome.
  - apply orphan_outcome.
Qed.

Lemma bulk_model_ok db q locked n : model_ok db →
  model_ok (bulk_reconcile db q (eligible db q locked n)).1.
Proof.
  intros [[Ht Hr] He]. split; [|done]. simpl.
  assert (∀ h, foldl (bulk_update_block db) (rm_blocks db) (eligible db q locked n) !! h =
    if bool_decide (h ∈ eligible db q locked n) then bulk_refreshed db <$> rm_blocks db !! h else rm_blocks db !! h) as Hl
    by (intros h; by apply bulk_blocks_lookup; [apply eligible_NoDup|]).
  assert (∀ h b, foldl (bulk_update_block db) (rm_blocks db) (eligible db q locked n) !! h = Some b →
    ∃ b0, rm_blocks db !! h = Some b0 ∧ (b = b0 ∨ b = bulk_refreshed db b0)) as Hrow.
  { intros h b Hb. rewrite Hl in Hb. case_bool_decide; [|by eauto]. apply fmap_Some in Hb as (b0 & Hb0 & ->). eauto. }
  assert (∀ h, is_Some (rm_blocks db !! h) →
    is_Some (foldl (bulk_update_block db) (rm_blocks db) (eligible db q locked n) !! h)) as Hsome.
  { intros h Hh. rewrite Hl. case_bool_decide; [by apply fmap_is_Some|done]. }
  split.
  - intros h b Hb. destruct (Hrow h b Hb) as (b0 & Hb0 & [->| ->]); [by apply Ht|]. destruct (Ht _ _ Hb0) as [Hh Hc].
    unfold bulk_refreshed. by destruct (bulk_rollup db _).
  - intros h b c Hb Hc. destruct (Hrow h b Hb) as (b0 & Hb0 & Heq). apply Hsome, (Hr h b0 c Hb0).
    destruct Heq as [->| ->]; [done|]. unfold bulk_refreshed in Hc. by destruct (bulk_rollup db _).
Qed.

Lemma bulk_runs n w res w' : model_ok w.2 → reconcile_proven_canonical_batch n w = (res, w') →
  model_ok w'.2 ∧ ∃ ls, run ls (view w) (view w') ∧ ∀ p seeds, LCascade p seeds ∉ ls.
Proof.
  intros Hok Hr. destruct (queue_transaction_inv _ _ _ _ Hr) as [Hv|(a & w1 & Hw1 & Hv)].
  { injection Hv as Ht Hq. split; [by rewrite Ht|]. exists []. unfold view. rewrite Ht, Hq. split; [constructor|].
    intros p seeds. apply not_elem_of_nil. }
  rewrite Hv. replace w'.2 with w1.2 by (by injection Hv). clear Hv Hr.
  apply st_bind_Ok in Hw1 as ([] & w2 & Hb1%st_on_err_Ok & Hw1). apply st_bind_Ok in Hw1 as ([] & w3 & H2' & Hw1).
  assert (waiting w w3) as Hwait.
  { etrans; [exact (waits _ _ _ _ session_waiting Hb1)|exact (waits _ _ _ _ session_waiting H2')]. }
  unfold put_hqueue, put_tables in Hw1. st_inv. destruct (bulk_reconcile _ _ _) as [db1 q1] eqn:Hbulk. st_inv. cbn [fst snd]. rewrite put_view_tables.
  pose proof (others_model _ _ Hwait Hok) as [Hb He]. split.
  - change db1 with (db1, q1).1. rewrite <-Hbulk. apply bulk_model_ok. by split.
  - exists [LOthers; LBulk]. split; [econstructor; [by constructor|]; apply run_one; rewrite <-Hbulk; apply step_bulk|].
    intros p seeds Hin. rewrite !elem_of_cons, elem_of_nil in Hin. naive_solver.
Qed.

(** *** Turns *)

Definition runs (w w' : W * ReadModel) : Prop :=
  model_ok w.2 → model_ok w'.2 ∧ ∃ ls, run ls (view w) (view w').
#[local] Instance runs_preorder : PreOrder runs.
Proof.
  split; [intros w Hok; split; [done|exists []; constructor]|]. intros a b c Hab Hbc Hok.
  destruct (Hab Hok) as (Hok1 & ls & Hr). destruct (Hbc Hok1) as (Hok2 & ls' & Hr').
  split; [done|]. exists (ls ++ ls'). by eapply run_app.
Qed.

Lemma batch_runs n : steps runs (reconcile_proven_canonical_batch n : sM Z).
Proof. intros w Hok. destruct (bulk_runs n w _ _ Hok (surjective_pairing _)) as (? & ls & ? & _). eauto. Qed.
Lemma session_runs : steps runs (session : sM unit).
Proof.
  intros w Hok. split; [exact (others_model _ _ (session_others w) Hok)|]. exists [LOthers].
  apply run_one. constructor. apply session_others.
Qed.
Lemma primary_runs p gen c : steps runs (reconcile_historical_primary lookup resolve_pool classifier nbits_table p gen c).
Proof. intros w Hok. destruct (primary_reconciles p gen c w Hok) as (? & ls & ? & _). eauto. Qed.

Lemma cascading_model s s' : rtc cascade_move s s' → model_ok s.1 → model_ok s'.1.
Proof. induction 1 as [|x y z [Hm _] _ IH]; auto. Qed.
Lemma work_runs p r fuel budget w res w' :
  queue_rows w !! p = Some r → h_primary_pending r = false →
  cascade_changed_with_nbits_table lookup resolve_pool classifier nbits_table fuel (h_changed_hashes r) budget w = (res, w') →
  runs w w'.
Proof.
  intros Hp Hpend Hc Hok. pose proof (cascade_cascading fuel (h_changed_hashes r) budget w) as Hm. rewrite Hc in Hm.
  split; [exact (cascading_model _ _ Hm Hok)|]. exists [LWork p (h_changed_hashes r)]. apply run_one. by econstructor.
Qed.

(** The cascade over the seeds of the row, and its completion. *)
Lemma cascade_runs fuel p r budget w :
  queue_rows w !! p = Some r → h_primary_pending r = false →
  runs w (
    (c ← on_err (Context "cascade durable historical parent")
           (cascade_changed_with_nbits_table lookup resolve_pool classifier nbits_table fuel (h_changed_hashes r) budget);
     match c with
     | None => mret None
     | Some _ => _ ← complete_statement p r; mret (Some false)
     end) w).2.
Proof.
  intros Hp Hpend. pose proof (cascade_cascading fuel (h_changed_hashes r) budget w) as Hc.
  unfold mbind at 1, stM_bind at 1, on_err.
  destruct (cascade_changed_with_nbits_table _ _ _ _ _ _ _ w) as [[[[]|]|e] w2] eqn:Hcas; simpl in *;
    [|by eapply work_runs..].
  unfold complete_statement, mbind, stM_bind, on_err, gets, put_hqueue, modify.
  pose proof (session_others w2) as Ho. destruct (session w2) as [[[]|e] w3] eqn:Hs; simpl in *.
  - intros Hok. split; [exact (others_model _ _ Ho (cascading_model _ _ Hc Hok))|].
    exists [LCascade p (h_changed_hashes r)]. apply run_one. rewrite put_view_tables.
    by eapply (step_cascade p r fuel budget w w2 (view w3)).
  - etrans; [by eapply work_runs|]. pose proof (session_runs w2) as Hcs. by rewrite Hs in Hcs.
Qed.

Lemma next_work_None q : next_historical_work q = None → q = ∅.
Proof.
  unfold next_historical_work. intros Hn. apply map_to_list_empty_iff.
  apply Permutation_nil_r. rewrite <-(merge_sort_Permutation queue_le). by destruct (merge_sort _ _).
Qed.
Lemma next_work_Some q p r : next_historical_work q = Some (p, r) → q !! p = Some r.
Proof.
  unfold next_historical_work. intros Hn. apply elem_of_map_to_list. rewrite <-(merge_sort_Permutation queue_le).
  destruct (merge_sort _ _); simplify_eq/=. left.
Qed.

Lemma turn_runs cf cls budget : steps runs (drain_turn lookup resolve_pool classifier nbits_table cf cls budget).
Proof.
  unfold drain_turn. apply steps_bind; [apply _|apply batch_runs|]. intros bulk.
  destruct (0 <? bulk); [apply steps_ret; apply _|].
  apply steps_bind; [apply _|apply steps_on_err, session_runs|]. intros []. intros w.
  unfold mbind at 1, stM_bind at 1, gets at 1.
  destruct (next_historical_work (queue_rows w)) as [[p r]|] eqn:Hn; [|reflexivity].
  apply next_work_Some in Hn. destruct (h_primary_pending r) eqn:Hpend; [|by apply cascade_runs].
  match goal with |- runs _ (?m w).2 => assert (steps runs m) as Hm; [|exact (Hm w)] end.
  apply steps_bind; [apply _|apply primary_runs|]. intros []. apply steps_ret; apply _.
Qed.

Lemma turn_empty cf cls budget w w' :
  drain_turn lookup resolve_pool classifier nbits_table cf cls budget w = (Ok (Some true), w') → queue_rows w' = ∅.
Proof.
  unfold drain_turn. intros Hr. apply st_bind_Ok in Hr as (bulk & w1 & _ & Hr).
  destruct (0 <? bulk); [by st_inv|]. apply st_bind_Ok in Hr as ([] & w2 & _ & Hr).
  apply st_bind_Ok in Hr as (q & w3 & [-> ->]%st_gets_Ok & Hr).
  destruct (next_historical_work (queue_rows w2)) as [[p r]|] eqn:Hn.
  - destruct (h_primary_pending r); st_inv. by destruct x; st_inv.
  - st_inv. by apply next_work_None.
Qed.

Lemma run_split ls1 l ls2 s s' : run (ls1 ++ l :: ls2) s s' → ∃ s1 s2, hstep l s1 s2 ∧ run ls2 s2 s'.
Proof. revert s. induction ls1 as [|l1 ls1 IH]; intros s Hr; inversion Hr; subst; eauto. Qed.

Lemma primary_owes p changed s s' h : hstep (LPrimary p changed) s s' → h ∈ changed →
  ∃ r, s'.2 !! p = Some r ∧ h ∈ h_changed_hashes r.
Proof.
  intros Hs Hh. inversion Hs as [| |db q p0 r ch db' Hp Hpend Hrep| |]; subst. simpl. rewrite lookup_insert_eq.
  eexists. split; [done|]. apply elem_of_sort_dedup. set_solver.
Qed.

Lemma drain_runs fuel cf cls budget :
  steps runs (drain_historical_reconcile_queue_with_budget lookup resolve_pool classifier nbits_table fuel cf cls budget).
Proof.
  induction fuel as [|fuel IH]; simpl; [apply steps_ret; apply _|].
  apply steps_bind; [apply _|apply turn_runs|]. intros [[]|]; [apply steps_ret; apply _|done|apply steps_ret; apply _].
Qed.
Lemma drain_empty fuel cf cls budget w w' :
  drain_historical_reconcile_queue_with_budget lookup resolve_pool classifier nbits_table fuel cf cls budget w
    = (Ok (Some ()), w') → queue_rows w' = ∅.
Proof.
  revert w. induction fuel as [|fuel IH]; intros w Hr; simpl in Hr; [by st_inv|].
  apply st_bind_Ok in Hr as (r & w1 & Ht & Hr). destruct r as [[]|]; [|by eapply IH|by st_inv].
  st_inv. by eapply turn_empty.
Qed.

(** C7. The queue of historical parents keeps its seeds, whenever the drain stops. From tables that
    satisfy their constraints, with importers committing meanwhile, a drain with any outcome is a
    sequence of the steps above and leaves such tables; a drain that ends leaves the queue empty.
    Every parent whose state the commit of a primary changed is in its row from that commit on, and
    every seed of a row is still a seed of that row at the end unless a cascade over the seeds of
    that row, it included, ran to its end. What an interrupted cascade changed further down is
    not in the row: the cascade starts again from the seeds. *)
Theorem historical_drain_durable fuel cf cls budget w res w' :
  model_ok w.2 →
  drain_historical_reconcile_queue_with_budget lookup resolve_pool classifier nbits_table fuel cf cls budget w
    = (res, w') →
  model_ok w'.2 ∧ (res = Ok (Some ()) → queue_rows w' = ∅) ∧
  ∃ ls, run ls (view w) (view w') ∧
    (∀ p r h, queue_rows w !! p = Some r → h ∈ h_changed_hashes r →
       (∃ r', queue_rows w' !! p = Some r' ∧ h ∈ h_changed_hashes r') ∨ ∃ seeds, LCascade p seeds ∈ ls ∧ h ∈ seeds) ∧
    ∀ earlier p changed later h, ls = earlier ++ LPrimary p changed :: later → h ∈ changed →
      (∃ r', queue_rows w' !! p = Some r' ∧ h ∈ h_changed_hashes r') ∨ ∃ seeds, LCascade p seeds ∈ later ∧ h ∈ seeds.
Proof.
  intros Hok Hr. pose proof (drain_runs fuel cf cls budget w Hok) as (Hok' & ls & Hrun).
  rewrite Hr in Hok', Hrun. simpl in *. split; [done|]. split; [intros ->; by eapply drain_empty|].
  exists ls. split; [done|]. split.
  - intros p r h Hp Hh. exact (run_owes _ _ _ Hrun p r h Hp Hh).
  - intros earlier p changed later h -> Hh. apply run_split in Hrun as (s1 & s2 & Hs & Hrun).
    destruct (primary_owes _ _ _ _ _ Hs Hh) as (r & Hp & Hin). exact (run_owes _ _ _ Hrun p r h Hp Hin).
Qed.
End steps_of_drain.

(** ** The drain ends *)

(** Two turns for a pending row, one for a row whose cascade is due. *)
Definition pending_rows (q : hqueue) : hqueue := filter (λ kr, h_primary_pending kr.2 = true) q.
Definition turns_due (q : hqueue) : nat := (size q + size (pending_rows q))%nat.

Lemma pending_delete q p : pending_rows (delete p q) = delete p (pending_rows q).
Proof. apply map_filter_delete. Qed.

Lemma size_Some `{Countable K} {A} (m : gmap K A) k a : m !! k = Some a → size m ≠ 0%nat.
Proof. intros Hk Hz. apply map_size_empty_inv in Hz as ->. by rewrite lookup_empty in Hk. Qed.

Lemma turns_delete q p r : q !! p = Some r → (turns_due (delete p q) < turns_due q)%nat.
Proof.
  intros Hp. unfold turns_due. rewrite pending_delete, !map_size_delete, Hp. pose proof (size_Some q p r Hp).
  destruct (pending_rows q !! p); simpl; lia.
Qed.

Lemma turns_settle q p r r' : q !! p = Some r → h_primary_pending r = true → h_primary_pending r' = false →
  (turns_due (<[p := r']> q) < turns_due q)%nat.
Proof.
  intros Hp Hpend Hset. unfold turns_due. rewrite map_size_insert_Some by (by eexists).
  unfold pending_rows at 1. rewrite map_filter_insert_False by (simpl; congruence). fold (pending_rows (delete p q)). rewrite pending_delete, map_size_delete.
  assert (pending_rows q !! p = Some r) as Hf by (by apply map_lookup_filter_Some).
  rewrite Hf. pose proof (size_Some _ p r Hf). simpl. lia.
Qed.

Lemma turns_complete q p r : q !! p = Some r → h_primary_pending r = true →
  (turns_due (bulk_complete q p) < turns_due q)%nat.
Proof.
  intros Hp Hpend. unfold bulk_complete. rewrite Hp, Hpend. simpl. case_bool_decide.
  - by eapply turns_delete.
  - by eapply turns_settle.
Qed.

Lemma bulk_complete_other q p k : k ≠ p → bulk_complete q p !! k = q !! k.
Proof.
  intros Hne. unfold bulk_complete. destruct (q !! p); [|done]. destruct (negb _); [done|].
  case_bool_decide; [by rewrite lookup_delete_ne|by rewrite lookup_insert_ne].
Qed.

Lemma turns_bulk hashes q : NoDup hashes → (∀ p, p ∈ hashes → ∃ r, q !! p = Some r ∧ h_primary_pending r = true) →
  (turns_due (foldl bulk_complete q hashes) + length hashes ≤ turns_due q)%nat.
Proof.
  intros Hn. revert q. induction Hn as [|p hashes Hin _ IH]; intros q Hq; simpl; [lia|].
  destruct (Hq p) as (r & Hp & Hpend); [left|]. pose proof (turns_complete q p r Hp Hpend).
  enough (turns_due (foldl bulk_complete (bulk_complete q p) hashes) + length hashes ≤ turns_due (bulk_complete q p))%nat by lia.
  apply IH. intros p' Hp'. rewrite bulk_complete_other by (intros ->; done). apply Hq. by right.
Qed.

Section alone.
Context `{BitcoinLib} {W : Type} `{CoreHeaderSource W} `{Clock W} `{ReadModelSession W} `{CaptureTables W} `{HistoricalTables W}.
Context `{!HistoricalTablesLaws W} `{!QuietCalls (same_queue (W := W))}.
Context (lookup : bytes → option InvalidBlock) (resolve_pool : bytes → option bytes → option Z).
Context (classifier : ConfiguredParentClassifier) (nbits_table : option NbitsTable).
(** No other session commits to these tables while the drain runs; statements may still fail. *)
Context (alone : ∀ w : W * ReadModel, view (session w).2 = view w).

#[local] Abbreviation sM := (stM (W * ReadModel) anyhow).
#[local] Abbreviation cascade := (cascade_changed_with_nbits_table lookup resolve_pool classifier nbits_table).
#[local] Abbreviation drain := (drain_historical_reconcile_queue_with_budget lookup resolve_pool classifier nbits_table).

Definition nobody (s s' : snapshot) : Prop := False.
Lemma alone_others (w : W * ReadModel) : rtc nobody (view w) (view (session w).2).
Proof. by rewrite alone. Qed.

Lemma nobody_view s s' : rtc nobody s s' → s' = s.
Proof. by inversion 1. Qed.

Lemma cascade_queue fuel seeds budget (w : W * ReadModel) : queue_rows (cascade fuel seeds budget w).2 = queue_rows w.
Proof.
  pose proof (cascade_cascading lookup resolve_pool classifier nbits_table nobody (λ _ _ h, match h with end) alone_others
    fuel seeds budget w) as Hc. unfold cascading in Hc. change (queue_rows ?w) with (view w).2.
  induction Hc as [|x y z [_ [[]|Hq]] _ IH]; [done|]. by rewrite IH.
Qed.

Lemma loop_mono fuel fuel' budget st (w : W * ReadModel) : (fuel ≤ fuel')%nat →
  (cascade_loop lookup resolve_pool classifier nbits_table fuel budget st w).1 ≠ Ok None →
  cascade_loop lookup resolve_pool classifier nbits_table fuel' budget st w
  = cascade_loop lookup resolve_pool classifier nbits_table fuel budget st w.
Proof.
  revert fuel' st w. induction fuel as [|fuel IH]; intros [|fuel'] st w Hle; simpl; [done|done|lia|].
  destruct (cs_queue st) as [|work queue]; [done|]. destruct (match budget with Some _ => _ | None => _ end); [done|].
  destruct (was_visited st work); [apply IH; lia|]. unfold mbind, stM_bind.
  destruct (reconcile_work _ _ _ _ work w) as [[changed|e] w1]; [|done].
  destruct (enqueue_all changed _ w1) as [[st1|e] w2]; [|done]. apply IH. lia.
Qed.

Lemma cascade_mono fuel fuel' seeds budget (w : W * ReadModel) : (fuel ≤ fuel')%nat →
  (cascade fuel seeds budget w).1 ≠ Ok None → cascade fuel' seeds budget w = cascade fuel seeds budget w.
Proof.
  intros Hle. unfold cascade_changed_with_nbits_table, reconcile_dependents_after_changes, drain_reconcile_queue.
  destruct seeds as [|h seeds]; [done|]. unfold mbind, stM_bind.
  destruct (enqueue_all (h :: seeds) (cascade_start []) w) as [[st|e] w1]; [|done].
  destruct (cs_queue st) as [|work queue] eqn:Hq; [done|]. intros Hne.
  rewrite (loop_mono fuel fuel' (Some budget) (cascade_start (work :: queue)) w1 Hle); [done|].
  intros Hl. apply Hne. destruct (cascade_loop _ _ _ _ _ _ _ _) as [r w2]. simpl in Hl. by subst r.
Qed.

Lemma cascade_ends seeds budget (w : W * ReadModel) : ∃ fuel, (cascade fuel seeds budget w).1 ≠ Ok None.
Proof.
  unfold cascade_changed_with_nbits_table, reconcile_dependents_after_changes, drain_reconcile_queue.
  destruct seeds as [|h seeds]; [by exists 0%nat|]. unfold mbind, stM_bind.
  destruct (enqueue_all (h :: seeds) (cascade_start []) w) as [[st|e] w1]; [|by exists 0%nat].
  destruct (cs_queue st) as [|work queue] eqn:Hq; [by exists 0%nat|].
  destruct (loop_terminates lookup resolve_pool classifier nbits_table budget _ (work :: queue)
    (cascade_start (work :: queue)) w1 (le_n _) eq_refl) as [fuel Hf].
  exists fuel. destruct (cascade_loop _ _ _ _ _ _ _ _) as [[[st1|]|e] w2]; simpl in *; done.
Qed.

(** *** Every turn of a drain alone makes progress *)

Definition still (w w' : W * ReadModel) : Prop := view w' = view w.
#[local] Instance still_preorder : PreOrder still.
Proof. unfold still. split; [by intros w|]. intros a b c Hab Hbc. congruence. Qed.

Lemma session_still : steps still (session : sM unit).
Proof. intros w. apply alone. Qed.
Lemma on_env_still {A} (m : stM W anyhow A) : steps same_queue m → steps still (on_env m).
Proof. intros Hm w. by apply on_env_view. Qed.
#[local] Hint Resolve session_still on_env_still : steps.

Lemma waiting_still {A} (m : sM A) : steps (waiting nobody) m → steps still m.
Proof. intros Hm w. by apply nobody_view, Hm. Qed.

(** From the tables and rows [v], a result of the body satisfies [Q]. *)
Definition settling {A : Type} (v : snapshot) (m : sM A) (Q : A → snapshot → Prop) : Prop :=
  ∀ w a w', view w = v → m w = (Ok a, w') → Q a (view w').

Lemma settling_bind {A B : Type} (v : snapshot) (m : sM A) (f : A → sM B) (Q : _ → snapshot → Prop) :
  steps still m → (∀ a, settling v (f a) Q) → settling v (m ≫= f) Q.
Proof.
  intros Hm Hf w b w' Hv (a & w1 & Hw1 & Hw')%st_bind_Ok. eapply Hf; [|exact Hw'].
  specialize (Hm w). rewrite Hw1 in Hm. by rewrite <-Hv.
Qed.
Lemma settling_tables {B : Type} (v : snapshot) (f : ReadModel → sM B) (Q : _ → snapshot → Prop) : settling v (f v.1) Q → settling v (gets snd ≫= f) Q.
Proof. intros Hf w b w' <- (a & w1 & [-> ->]%st_gets_Ok & Hw')%st_bind_Ok. by eapply Hf. Qed.
Lemma settling_queue {B : Type} (v : snapshot) (f : hqueue → sM B) (Q : _ → snapshot → Prop) : settling v (f v.2) Q → settling v (gets queue_rows ≫= f) Q.
Proof. intros Hf w b w' <- (a & w1 & [-> ->]%st_gets_Ok & Hw')%st_bind_Ok. by eapply Hf. Qed.
Lemma settling_throw {A : Type} (v : snapshot) (e : anyhow) (Q : A → snapshot → Prop) : settling v (throw e) Q.
Proof. intros w a w' _ Hr. st_inv. Qed.
Lemma settling_lift {A B : Type} (v : snapshot) (r : result anyhow A) (f : A → sM B) (Q : _ → snapshot → Prop) :
  (∀ a, r = Ok a → settling v (f a) Q) → settling v (lift r ≫= f) Q.
Proof. intros Hf w b w' Hv (a & w1 & [Ha ->]%st_lift_Ok & Hw')%st_bind_Ok. by eapply Hf. Qed.

(** The row is settled, or another attempt is asked for and nothing is written. *)
Definition settled_or_retry (p : bytes) (q : hqueue) (a : bool * option unit) (s' : snapshot) : Prop :=
  a = (false, None) ∨ a.1 = true ∧ a.2 = Some () ∧ (turns_due s'.2 < turns_due q)%nat.

Lemma persist_settles {A : Type} p gen changed db (v : snapshot) (a : A) :
  settling v (q ← gets queue_rows; q ← lift (persist_historical_primary q p gen changed);
              _ ← put_hqueue q; _ ← put_tables db; mret (true, a))
    (λ r s', r.1 = true ∧ r.2 = a ∧ (turns_due s'.2 < turns_due v.2)%nat).
Proof.
  apply settling_queue, settling_lift. intros q' (r & Hp & Hpend & _ & ->)%persist_Ok w b w' Hv Hr.
  unfold put_hqueue, put_tables in Hr. st_inv. cbn [fst snd]. rewrite put_view_tables. split_and!; [done..|].
  simpl. by eapply turns_settle.
Qed.

Lemma lock_current q p r : q !! p = Some r → h_primary_pending r = true →
  lock_current_historical_primary q p (h_generation r) = true.
Proof. intros Hp Hpend. unfold lock_current_historical_primary. by rewrite Hp, Hpend, Z.eqb_refl. Qed.

Lemma lock_anchor t p i : find_anchor_event_for_block t p = Some i → lock_historical_parent_events t p i = true.
Proof.
  unfold find_anchor_event_for_block. intros (e & He%first_event_in & ->)%fmap_Some.
  apply existsb_exists. exists e. rewrite list_elem_of_In in He. split; [done|]. apply Z.eqb_refl.
Qed.

Lemma anchored_settles p i r cached retry (v : snapshot) :
  v.2 !! p = Some r → h_primary_pending r = true → find_anchor_event_for_block (rm_events v.1) p = Some i →
  settling v (anchored_attempt lookup resolve_pool classifier nbits_table p i (h_generation r) cached retry)
    (settled_or_retry p v.2).
Proof.
  intros Hp Hpend Hi. unfold anchored_attempt.
  do 2 (apply settling_bind; [solve_steps|]; intros []). apply settling_tables.
  apply settling_bind; [apply on_env_still, resolve_waiting|]; intros [pre rejected].
  apply settling_bind; [solve_steps|]; intros []. apply settling_tables, settling_lift. intros event _.
  apply settling_bind; [apply waiting_still, lock_event_waiting, alone_others|]; intros [].
  apply settling_bind; [solve_steps|]; intros []. apply settling_tables. rewrite lock_anchor by done. cbn [negb].
  apply settling_bind; [solve_steps|]; intros []. apply settling_queue. rewrite (lock_current _ _ r) by done. cbn [negb].
  destruct (_ && _); [apply settling_throw|]. intros w a w' Hv. rewrite st_attempt_bind.
  destruct (reconcile_historical_event _ _ _ _ _ _ w) as [[[changed db]|e] w1] eqn:Hr; cbn [fst snd].
  - apply (reconcile_historical_Ok _ _ _ _ nobody alone_others) in Hr as [Hwait _]. apply nobody_view in Hwait.
    rewrite Hv in Hwait. intros Hs. right. by apply (persist_settles p (h_generation r) changed db v (Some ())) in Hs.
  - destruct (_ && _); intros Hs; [|by st_inv]. left. by st_inv.
Qed.

Lemma transaction_settles {A} (m : sM (bool * A)) w a w' : queue_transaction m w = (Ok a, w') →
  ∃ b w1, m w = (Ok (b, a), w1) ∧ view w' = if b then view w1 else view w.
Proof.
  unfold queue_transaction. destruct (m w) as [[[[] a0]|e] w1]; [| |done].
  - pose proof (on_env_view commit w1 env_commit) as Hc.
    destruct (on_env commit w1) as [[u|e] w2]; intros [= -> <-]. by exists true, w1.
  - intros [= -> <-]. exists false, w1. split; [done|]. unfold view, restore_queue, queue_rows. simpl. by rewrite hqueue_of_set.
Qed.

Lemma anchored_progress n p i r cached w w' :
  queue_rows w !! p = Some r → h_primary_pending r = true →
  find_anchor_event_for_block (rm_events w.2) p = Some i →
  anchored_attempts lookup resolve_pool classifier nbits_table n p i (h_generation r) cached w = (Ok (), w') →
  (turns_due (queue_rows w') < turns_due (queue_rows w))%nat.
Proof.
  intros Hp Hpend. revert w Hp. induction n as [|n IH]; intros w Hp Hi Hr; simpl in Hr; [by st_inv|].
  apply st_bind_Ok in Hr as (o & w1 & Ht & Hr).
  destruct (transaction_settles _ _ _ _ Ht) as (b & w2 & Hb & Hv).
  destruct (anchored_settles p i r cached _ (view w) Hp Hpend Hi w _ _ eq_refl Hb) as [[= -> ->]|(Hc & Ho & Hlt)]; simpl in *.
  - injection Hv as Ht2 Hq. apply IH in Hr; [by rewrite Hq in Hr|by rewrite Hq|by rewrite Ht2].
  - subst b o. st_inv. match goal with Hq : queue_rows _ = _ |- _ => by rewrite Hq end.
Qed.

Lemma orphan_progress p r w w' : queue_rows w !! p = Some r → h_primary_pending r = true →
  reconcile_historical_orphan_primary lookup resolve_pool nbits_table p (h_generation r) w = (Ok (), w') →
  (turns_due (queue_rows w') < turns_due (queue_rows w))%nat.
Proof.
  intros Hp Hpend Hr. destruct (transaction_settles _ _ _ _ Hr) as (b & w2 & Hb & Hv). clear Hr.
  match type of Hb with ?m w = _ => assert (settling (view w) m
    (λ a s', a.1 = true ∧ (turns_due s'.2 < turns_due (queue_rows w))%nat)) as Hm end.
  2: { destruct (Hm w _ _ eq_refl Hb) as [Hc Hlt]. simpl in Hc. subst b. apply (f_equal snd) in Hv. simpl in Hv. by rewrite Hv. }
  do 3 (apply settling_bind; [solve_steps|]; intros []). apply settling_queue.
  rewrite (lock_current _ _ r) by done. cbn [negb]. apply settling_tables, settling_lift. intros db _.
  cbv zeta. apply settling_lift. intros q' (r' & Hp' & Hpend' & _ & ->)%persist_Ok w1 a1 w1' Hv1 Hr.
  apply st_bind_Ok in Hr as ([] & w3 & ->%st_modify_Ok & Hr). apply st_bind_Ok in Hr as ([] & w4 & ->%st_modify_Ok & Hr).
  apply st_ret_Ok in Hr as [-> ->]. cbn [fst snd]. rewrite put_view_tables. split; [done|]. by eapply turns_settle.
Qed.

Lemma primary_progress p r c w w' : queue_rows w !! p = Some r → h_primary_pending r = true →
  reconcile_historical_primary lookup resolve_pool classifier nbits_table p (h_generation r) c w = (Ok (), w') →
  (turns_due (queue_rows w') < turns_due (queue_rows w))%nat.
Proof.
  intros Hp Hpend Hr. unfold reconcile_historical_primary in Hr.
  apply st_bind_Ok in Hr as ([] & w1 & Hs & Hr). apply st_bind_Ok in Hr as (db & w2 & [-> ->]%st_gets_Ok & Hr).
  pose proof (alone w) as Hv. rewrite Hs in Hv. injection Hv as Ht Hq. rewrite <-Hq in Hp |- *.
  destruct (find_anchor_event_for_block _ p) as [i|] eqn:Hi.
  - by eapply anchored_progress.
  - by eapply orphan_progress.
Qed.

Lemma batch_progress n k w w' : reconcile_proven_canonical_batch n w = (Ok k, w') →
  (turns_due (queue_rows w') + Z.to_nat k ≤ turns_due (queue_rows w))%nat ∧ (k = 0 → view w' = view w).
Proof.
  intros Hr. destruct (transaction_settles _ _ _ _ Hr) as (b & w1 & Hb & Hv). clear Hr.
  apply st_bind_Ok in Hb as ([] & w2 & Hs1%st_on_err_Ok & Hb). apply st_bind_Ok in Hb as ([] & w3 & Hs2 & Hb).
  assert (view w3 = view w) as Hw.
  { pose proof (alone w) as Ha. rewrite Hs1 in Ha. pose proof (alone w2) as Ha2. rewrite Hs2 in Ha2. simpl in *. congruence. }
  unfold put_hqueue, put_tables, bulk_reconcile in Hb. st_inv. cbn [fst snd] in *.
  match goal with Hq : queue_rows w' = _ |- _ => unfold queue_rows at 2 in Hq; cbn [fst] in Hq;
    rewrite hqueue_of_set in Hq; unfold view; rewrite Hq end.
  match goal with Hq : queue_rows w3 = _ |- _ => rewrite Hv, Hw, Hq, Nat2Z.id end. split.
  - apply turns_bulk; [apply eligible_NoDup|]. intros p (r & Hp & He & _)%elem_of_eligible. exists r. split; [done|].
    unfold bulk_eligible in He. destruct (rm_blocks w.2 !! p); [|done]. by repeat apply andb_prop in He as [He ?].
  - intros Hz%(Nat2Z.inj _ 0)%nil_length_inv. rewrite Hz. simpl. by destruct (w.2).
Qed.

#[local] Abbreviation turn := (drain_turn lookup resolve_pool classifier nbits_table).

Lemma turn_progress cf cls budget w w' : turn cf cls budget w = (Ok (Some false), w') →
  (turns_due (queue_rows w') < turns_due (queue_rows w))%nat.
Proof.
  unfold drain_turn. intros Hr. apply st_bind_Ok in Hr as (k & w1 & Hb & Hr).
  apply batch_progress in Hb as [Hle Hz]. destruct (Z.ltb_spec 0 k) as [Hk|Hk]; [st_inv; lia|].
  apply st_bind_Ok in Hr as ([] & w2 & Hs%st_on_err_Ok & Hr). apply st_bind_Ok in Hr as (q & w3 & [-> ->]%st_gets_Ok & Hr).
  assert (queue_rows w2 = queue_rows w1) as Hq.
  { pose proof (alone w1) as Ha. rewrite Hs in Ha. by apply (f_equal snd) in Ha. }
  destruct (next_historical_work (queue_rows w2)) as [[p r]|] eqn:Hn; [|by st_inv]. apply next_work_Some in Hn.
  destruct (h_primary_pending r) eqn:Hpend.
  - apply st_bind_Ok in Hr as ([] & w4 & Hp & Hr). st_inv. apply (primary_progress p r) in Hp; [|done..].
    rewrite Hq in Hp. lia.
  - apply st_bind_Ok in Hr as (c & w4 & Hc%st_on_err_Ok & Hr). destruct c; [|by st_inv].
    apply st_bind_Ok in Hr as ([] & w5 & Hd & Hr). unfold complete_statement, put_hqueue in Hd. st_inv.
    match goal with Hs' : session w4 = (_, ?x) |- _ => pose proof (alone w4) as Ha; rewrite Hs' in Ha;
      apply (f_equal snd) in Ha; simpl in Ha end.
    pose proof (cascade_queue cf (h_changed_hashes r) budget w2) as Hcq. rewrite Hc in Hcq. simpl in Hcq.
    unfold queue_rows at 1. simpl. rewrite hqueue_of_set, Ha, Hcq. unfold complete_historical_work.
    rewrite Hn, Hpend, Z.eqb_refl, bool_decide_eq_true_2 by done. simpl. apply turns_delete in Hn. rewrite Hq in *. lia.
Qed.

Lemma turn_stable cls budget w :
  ∃ cf0, ∀ cf, (cf0 ≤ cf)%nat → turn cf cls budget w = turn cf0 cls budget w ∧ (turn cf cls budget w).1 ≠ Ok None.
Proof.
  unfold drain_turn, mbind, stM_bind, on_err, gets, mret, stM_ret.
  destruct (reconcile_proven_canonical_batch _ w) as [[k|e] w1]; [|by exists 0%nat].
  destruct (0 <? k); [by exists 0%nat|].
  destruct (session w1) as [[[]|e] w2]; simpl; [|by exists 0%nat].
  destruct (next_historical_work (queue_rows w2)) as [[p r]|]; [|by exists 0%nat].
  destruct (h_primary_pending r).
  { exists 0%nat. intros cf _. split; [done|]. by destruct (reconcile_historical_primary _ _ _ _ _ _ _ w2) as [[]]. }
  destruct (cascade_ends (h_changed_hashes r) budget w2) as [cf0 Hcf]. exists cf0. intros cf Hle.
  rewrite (cascade_mono cf0 cf) by done. split; [done|].
  destruct (cascade cf0 (h_changed_hashes r) budget w2) as [[[u|]|e] w3]; simpl in *; [|done|done].
  by destruct (complete_statement p r w3) as [[[]|] w4].
Qed.

(** C27. A drain alone ends: when no other session commits to the tables or the queue, whatever Core
    answers and whichever statements fail, a drain given more turns than twice the pending rows
    and the others, and enough passes for its cascades, does not run out of them; it drains the
    queue or fails. *)
Theorem historical_drain_terminates cls budget w :
  ∃ cascade_fuel, ∀ fuel, (turns_due (queue_rows w) < fuel)%nat →
    (drain fuel cascade_fuel cls budget w).1 ≠ Ok None.
Proof.
  enough (∀ n w, (turns_due (queue_rows w) < n)%nat → ∃ cf0, ∀ cf fuel, (cf0 ≤ cf)%nat → (n ≤ fuel)%nat →
    (drain fuel cf cls budget w).1 ≠ Ok None) as Hall.
  { destruct (Hall (S (turns_due (queue_rows w))) w) as [cf Hcf]; [lia|]. exists cf. intros fuel Hf. apply Hcf; lia. }
  induction n as [|n IH]; intros w1 Hn; [lia|]. destruct (turn_stable cls budget w1) as [cf0 Hst].
  destruct (turn cf0 cls budget w1) as [res w2] eqn:Ht.
  assert (∃ cf1, ∀ cf fuel, (cf1 ≤ cf)%nat → (n ≤ fuel)%nat → res = Ok (Some false) →
    (drain fuel cf cls budget w2).1 ≠ Ok None) as [cf1 Hnext].
  { destruct res as [[[]|]|]; try by exists 0%nat. apply turn_progress in Ht. destruct (IH w2) as [cf1 Hcf1]; [lia|].
    exists cf1. intros cf fuel Hc Hf _. by apply Hcf1. }
  exists (Nat.max cf0 cf1). intros cf [|fuel] Hc Hf; [lia|]. simpl. unfold mbind, stM_bind.
  destruct (Hst cf) as [Heq Hne]; [lia|]. rewrite Heq in Hne |- *. simpl in Hne.
  destruct res as [[[]|]|]; [done| |done|done]. apply Hnext; [lia|lia|done].
Qed.
End alone.

(** ** What an import enqueues *)

Lemma enqueue_parents_lookup now hashes q q' : NoDup hashes → enqueue_historical_parents now q hashes = Ok q' →
  ∀ h, q' !! h = if bool_decide (h ∈ hashes) then Some (requeued now (q !! h)) else q !! h.
Proof.
  intros Hn. revert q. induction Hn as [|k hashes Hk _ IH]; intros q Hq h; simpl in Hq; [by res_inv|].
  apply bind_Ok in Hq as (q1 & Hq1 & Hq). rewrite (IH q1 Hq h). unfold enqueue_historical_parent in Hq1. res_inv.
  destruct (decide (h = k)) as [->|Hne].
  - rewrite bool_decide_eq_false_2, bool_decide_eq_true_2 by (done || left). by rewrite lookup_insert_eq.
  - rewrite lookup_insert_ne by done. erewrite bool_decide_ext; [reflexivity|]. set_solver.
Qed.

Lemma sort_dedup_NoDup l : NoDup (sort_dedup l).
Proof. unfold sort_dedup. rewrite merge_sort_Permutation. apply NoDup_remove_dups. Qed.

(** A row of the snapshot of a chain attests that a parent is on a stale branch. *)
Definition attested (s : StoreDb) (chain : string) (h : bytes) : Prop :=
  ∃ k i v e, sd_provenance s !! k = Some (i, v) ∧ sd_events s !! i = Some e ∧ is_active e = true ∧ e_hash e = h ∧
    authoritative chain v = true ∧ stale_branch_reason (hp_relevance_reason v) = true.

Lemma elem_of_stale_attestations s chain h : h ∈ stale_attestations s chain ↔ attested s chain h.
Proof.
  unfold stale_attestations, attested. rewrite elem_of_remove_dups, list_elem_of_omap. split.
  - intros ([k [i v]] & Hin%elem_of_map_to_list & Hh). destruct (sd_events s !! i) as [e|] eqn:He; [|done]. simpl in Hh.
    destruct (_ && _) eqn:Hc; [|done]. simplify_eq. repeat apply andb_prop in Hc as [Hc ?]. naive_solver.
  - intros (k & i & v & e & Hk & He & Ha & <- & Hau & Hs). exists (k, (i, v)).
    rewrite elem_of_map_to_list. split; [done|]. rewrite He. simpl. by rewrite Ha, Hau, Hs.
Qed.

(** Replacing the snapshot of a chain enqueues exactly the parents whose attestation changed.
    Clearing drops every row of the snapshot and no other, and with it every attestation of the
    chain. Whatever the import then wrote, the parents enqueued are those with an event that
    were attested before and are not now, or the reverse: each is pending at a new generation
    with its seeds kept, and the rows of all others are untouched. *)
Theorem changed_attestations_enqueued now s chain s1 prior s2 q q' :
  clear_authoritative_historical_provenance_in_transaction s chain = (prior, s1) →
  enqueue_changed_historical_attestations_in_transaction now s2 chain prior q = Ok q' →
  (∀ k r, sd_provenance s1 !! k = Some r ↔ sd_provenance s !! k = Some r ∧ authoritative chain r.2 = false) ∧
  (∀ h, ¬ attested s1 chain h) ∧
  ∀ h, let changed := (∃ i e, sd_events s2 !! i = Some e ∧ e_hash e = h) ∧
                      (attested s chain h ∧ ¬ attested s2 chain h ∨ attested s2 chain h ∧ ¬ attested s chain h) in
    (changed → q' !! h = Some (requeued now (q !! h))) ∧ (¬ changed → q' !! h = q !! h).
Proof.
  intros [= <- <-] Hq. split_and!.
  - intros k r. simpl. by rewrite map_lookup_filter_Some.
  - intros h (k & i & v & e & Hk & _ & _ & _ & Ha & _). simpl in Hk.
    apply map_lookup_filter_Some in Hk as [_ Hn]. simpl in Hn. congruence.
  - intros h changed. unfold enqueue_changed_historical_attestations_in_transaction in Hq.
    rewrite (enqueue_parents_lookup _ _ _ _ (sort_dedup_NoDup _) Hq h).
    assert (h ∈ sort_dedup (filter (λ h, h ∈ except (stale_attestations s chain) (stale_attestations s2 chain)
        ++ except (stale_attestations s2 chain) (stale_attestations s chain)) (e_hash <$> (map_to_list (sd_events s2)).*2))
      ↔ changed) as Hiff.
    { rewrite elem_of_sort_dedup, list_elem_of_filter, elem_of_app. unfold except.
      rewrite !list_elem_of_filter, !elem_of_stale_attestations. unfold changed.
      assert (h ∈ e_hash <$> (map_to_list (sd_events s2)).*2 ↔ ∃ i e, sd_events s2 !! i = Some e ∧ e_hash e = h) as ->; [|tauto].
      rewrite list_elem_of_fmap. setoid_rewrite list_elem_of_fmap. split.
      - intros (e & -> & [i e'] & -> & Hi%elem_of_map_to_list). eauto.
      - intros (i & e & Hi & <-). exists e. split; [done|]. exists (i, e). split; [done|]. by apply elem_of_map_to_list. }
    split; intros Hc; case_bool_decide; tauto.
Qed.

Lemma existsb_false {A} (f : A → bool) l : existsb f l = false ↔ ∀ x, x ∈ l → f x = false.
Proof.
  rewrite <-not_true_iff_false, existsb_exists. split.
  - intros Hn x Hx. apply not_true_iff_false. intros Hf. apply Hn. exists x. by rewrite <-list_elem_of_In.
  - intros Hall (x & Hx%list_elem_of_In & Hf). by rewrite Hall in Hf.
Qed.

Lemma absent_from_publication_true s source publication chain e :
  absent_from_publication s source publication chain e = true ↔
  e_source_id e = source ∧
  ∀ k v, sd_provenance s !! k = Some (e_id e, v) →
    hp_artifact_scope v ≠ error_block_scope ∧ hp_publication_ref v ≠ operator_csv ∧
    ¬ (hp_publication_ref v = publication ∧ hp_chain v = chain).
Proof.
  unfold absent_from_publication. rewrite !andb_true_iff, bool_decide_eq_true, !negb_true_iff, !existsb_false. split.
  - intros [[Hs Ho] Hp]. split; [done|]. intros k v Hk%elem_of_map_to_list. specialize (Ho _ Hk). specialize (Hp _ Hk).
    simpl in Ho, Hp. rewrite (bool_decide_true (e_id e = e_id e)) in Ho, Hp by done. simpl in Ho, Hp.
    apply orb_false_iff in Ho as [?%bool_decide_eq_false ?%bool_decide_eq_false].
    split_and!; [done..|]. intros [<- <-]. by rewrite !bool_decide_true in Hp.
  - intros [Hs Hall]. split_and!; [done|..]; intros [k [i v]] Hk%elem_of_map_to_list; simpl;
      (destruct (decide (i = e_id e)) as [->|]; [|by rewrite bool_decide_false]);
      destruct (Hall _ _ Hk) as (Hn1 & Hn2 & Hn3); rewrite (bool_decide_true (e_id e = e_id e)) by done; simpl.
    + by rewrite !bool_decide_false.
    + apply andb_false_iff. destruct (decide (hp_publication_ref v = publication));
        [right|left]; apply bool_decide_eq_false; tauto.
Qed.

Lemma removal_selected lookup now s q source publication chain n s' q' :
  store_ok s →
  reconcile_authoritative_historical_source_in_transaction lookup now s q source publication chain = Ok (n, s', q') →
  let absent := absent_from_publication s source publication chain in
  store_ok s' ∧
  (∀ i e x, event_row s' i = Some (e, x) ↔ event_row s i = Some (e, x) ∧ absent e = false) ∧
  n = Z.of_nat (length (filter (λ r, absent r.2.1 = true) (event_rows s))) ∧
  (∀ i e x, event_row s i = Some (e, x) → absent e = true →
     lookup (e_hash e) = None ∧ sd_observations s' !! x_observation x = None) ∧
  ∀ h, let parent := ∃ i e x, event_row s i = Some (e, x) ∧ absent e = true ∧ e_hash e = h in
    (parent → q' !! h = Some (requeued now (q !! h))) ∧ (¬ parent → q' !! h = q !! h).
Proof.
  intros Hok Hr absent. unfold reconcile_authoritative_historical_source_in_transaction in Hr. cbv zeta in Hr.
  fold absent in Hr. change (filter (λ r, absent r.2.1 = true) (event_rows s)) with (selected (λ e _, absent e) s) in *.
  apply bind_Ok in Hr as ([] & Hcat%ensure_Ok & Hr). apply bind_Ok in Hr as ([] & Hfk%ensure_Ok & Hr).
  apply bind_Ok in Hr as (q1 & Hq & [= <- <- <-]). apply bool_decide_eq_true in Hfk.
  assert (∀ h, h ∈ sort_dedup ((λ r, e_hash r.2.1) <$> selected (λ e _, absent e) s) ↔
    ∃ i e x, event_row s i = Some (e, x) ∧ absent e = true ∧ e_hash e = h) as Hparent.
  { intros h. rewrite elem_of_sort_dedup, list_elem_of_fmap. split.
    - intros ([i [e x]] & -> & [He Ha]%elem_of_selected). eauto 6.
    - intros (i & e & x & He & Ha & <-). exists (i, (e, x)). split; [done|]. by apply elem_of_selected. }
  split_and!.
  - by apply delete_events_store_ok.
  - intros i e x. change (event_row (with_observations ?d _) i) with (event_row d i). apply (delete_selected_row (λ e _, absent e)).
  - done.
  - intros i e x He Ha. split.
    + apply negb_true_iff in Hcat. destruct (lookup (e_hash e)) as [ib|] eqn:Hl; [|done]. exfalso.
      apply (Bool.diff_true_false). rewrite <-Hcat. symmetry. apply existsb_exists. exists (e_hash e).
      rewrite <-list_elem_of_In, Hparent, Hl. split; [|done]. eauto 6.
    + simpl. apply map_lookup_filter_None. right. intros o Ho Hni. apply Hni. simpl.
      apply elem_of_list_to_set, list_elem_of_fmap. exists (i, (e, x)). split; [done|]. by apply elem_of_selected.
  - intros h parent. rewrite (enqueue_parents_lookup _ _ _ _ (sort_dedup_NoDup _) Hq h).
    specialize (Hparent h). fold parent in Hparent. split; intros Hc; case_bool_decide; tauto.
Qed.

(** C28. Installing an authoritative snapshot removes exactly what nothing stands for: of the events of
    the source, those without a row of the publication, of an operator or of an invalid-block
    observation go, with their observations, and no other event does; the store keeps its
    invariant, no witness of a catalogued invalid block is removed, the count is the number of
    events removed, and the parents of the removed events, and only they, are enqueued. *)
Theorem authoritative_removal_exact lookup now s q source publication chain n s' q' :
  store_ok s →
  reconcile_authoritative_historical_source_in_transaction lookup now s q source publication chain = Ok (n, s', q') →
  let absent e := e_source_id e = source ∧ ∀ k v, sd_provenance s !! k = Some (e_id e, v) →
    hp_artifact_scope v ≠ error_block_scope ∧ hp_publication_ref v ≠ operator_csv ∧
    ¬ (hp_publication_ref v = publication ∧ hp_chain v = chain) in
  store_ok s' ∧
  (∀ i e x, event_row s' i = Some (e, x) ↔ event_row s i = Some (e, x) ∧ ¬ absent e) ∧
  (∃ gone : gset Z, n = Z.of_nat (size gone) ∧ ∀ i, i ∈ gone ↔ ∃ e x, event_row s i = Some (e, x) ∧ absent e) ∧
  (∀ i e x, event_row s i = Some (e, x) → absent e →
     lookup (e_hash e) = None ∧ sd_observations s' !! x_observation x = None) ∧
  ∀ h, let parent := ∃ i e x, event_row s i = Some (e, x) ∧ absent e ∧ e_hash e = h in
    (parent → q' !! h = Some (requeued now (q !! h))) ∧ (¬ parent → q' !! h = q !! h).
Proof.
  intros Hok Hr absent.
  destruct (removal_selected _ _ _ _ _ _ _ _ _ _ Hok Hr) as (Hok' & Hev & -> & Hw & Hq).
  assert (∀ e, absent_from_publication s source publication chain e = true ↔ absent e) as Habs
    by (intros e; apply absent_from_publication_true).
  split_and!; [done|..].
  - intros i e x. rewrite Hev, <-Habs. by rewrite not_true_iff_false.
  - exists (list_to_set (fst <$> selected (λ e _, absent_from_publication s source publication chain e) s)). split.
    + rewrite size_list_to_set by apply selected_ids_NoDup. by rewrite length_fmap.
    + intros i. rewrite elem_of_list_to_set, list_elem_of_fmap. split.
      * intros ([j [e x]] & -> & [He Ha]%elem_of_selected). exists e, x. by rewrite <-Habs.
      * intros (e & x & He & Ha). exists (i, (e, x)). split; [done|]. apply elem_of_selected. by rewrite Habs.
  - intros i e x He Ha%Habs. eauto.
  - intros h parent. assert (parent ↔ ∃ i e x, event_row s i = Some (e, x) ∧
      absent_from_publication s source publication chain e = true ∧ e_hash e = h) as ->; [|apply Hq].
    unfold parent. by setoid_rewrite Habs.
Qed.

Module HistoricalSample.
Import Toy Sample BlocksSample ReconcileSample CascadeSample.

(** A session on its own, without Core; the environment is the store and the queue. *)
Abbreviation env := (StoreDb * hqueue)%type.
#[local] Instance no_core : CoreHeaderSource env := {|
  get_chain_status := throw (Other "disabled"); get_block_hash := λ _, throw (Other "disabled");
  get_header := λ _ _, throw (Other "disabled"); get_block_header := λ _, throw (Other "disabled");
  get_header_verbose := λ _, throw (Other "disabled"); get_block_coinbase := λ _, throw (Other "disabled") |}.
#[local] Instance epoch : Clock env := mret 1500.
#[local] Instance quiet : ReadModelSession env := { session := mret (); commit := mret () }.
#[local] Instance env_store : CaptureTables env :=
  { store_of := fst; set_store := λ s w, (s, w.2); cache_of := λ _, CaptureSample.cache }.
#[local] Instance env_queue : HistoricalTables env :=
  { hqueue_of := snd; set_hqueue := λ q w, (w.1, q); locked_rows := λ _, ∅; db_now := λ _, 1500 }.
#[local] Instance env_laws : HistoricalTablesLaws env.
Proof. done. Qed.
#[local] Instance env_quiet : QuietCalls (same_queue (W := env)).
Proof. split; intros; by intros w. Qed.

(** The parent of the first event waits for its primary; the second event attests a block on
    top of it, the third one on top of that. *)
Definition grandchild : Header :=
  {| hdr_version := 1; prev_blockhash := block_hash child; merkle_root := merkle_root header;
     hdr_time := 3000; hdr_bits := hdr_bits header; hdr_nonce := 0 |}.
Definition ev3 : EventRow :=
  {| e_id := 3; e_source_id := 1; e_child_height := Some 5; e_hash := block_hash grandchild;
     e_prev_hash := block_hash child; e_header_bytes := serialize_header grandchild;
     e_header_time := 3000; e_height := None; e_kind := PkUnknown; e_pow := true;
     e_difficulty_ok := None; e_script := None; e_outputs := None; e_tx_bytes := None;
     e_discovered_at := 10; e_confirmed_at := 20; e_revoked_at := None;
     e_revocation_reason := None; e_relevance_reason := None |}.
Definition tables3 : ReadModel := with_events model {[ 1 := ev; 2 := ev2; 3 := ev3 ]}.
Definition queue1 : hqueue := {[ block_hash header := mkHistRow true [] 1 9 ]}.
Definition begun : env * ReadModel := ((EventStoreSample.empty, queue1), tables3).
Definition verdicts : gmap bytes ParentClassification := {[ block_hash header := verdict ]}.
Definition drained (budget : Z) (w : env * ReadModel) :=
  drain_historical_reconcile_queue_with_budget (λ _, None) (λ _ _, None) Disabled None 10 20 verdicts budget w.

Lemma tables3_ok : model_ok tables3.
Proof.
  split; [exact empty_ok|]. intros i e Hl. simpl in Hl.
  repeat (apply lookup_insert_Some in Hl as [[<- <-]|[_ Hl]]; [split; reflexivity|]).
  apply lookup_singleton_Some in Hl as [<- <-]. split; reflexivity.
Qed.

Lemma drained_Ok : (drained 100 begun).1 = Ok (Some ()).
Proof. vm_compute. reflexivity. Qed.

Lemma historical_drain_durable_witness :
  queue_rows (drained 100 begun).2 = ∅ ∧ model_ok (drained 100 begun).2.2 ∧
  is_some (rm_blocks (drained 100 begun).2.2 !! block_hash grandchild) = true.
Proof.
  destruct (historical_drain_durable (λ _, None) (λ _ _, None) Disabled None eq) with (fuel := 10%nat) (cf := 20%nat)
    (cls := verdicts) (budget := 100) (w := begun) (res := (drained 100 begun).1) (w' := (drained 100 begun).2)
    as (Hok & He & _).
  - intros s s' -> Hs. exact Hs.
  - intros s s' ->. reflexivity.
  - intros w. apply rtc_refl.
  - exact tables3_ok.
  - apply surjective_pairing.
  - split; [exact (He drained_Ok)|]. split; [exact Hok|]. vm_compute. reflexivity.
Defined.

Lemma quiet_alone : ∀ w : env * ReadModel, view (session w).2 = view w.
Proof. intros w. reflexivity. Qed.

Lemma historical_drain_terminates_witness :
  ∃ cf, (drain_historical_reconcile_queue_with_budget (λ _, None) (λ _ _, None) Disabled None 3 cf verdicts 100 begun).1
        ≠ Ok None.
Proof.
  destruct (historical_drain_terminates (λ _, None) (λ _ _, None) Disabled None quiet_alone verdicts 100 begun)
    as [cf Hcf].
  exists cf. apply Hcf. vm_compute. repeat constructor.
Defined.

(** A cascade that stopped after the child was rebuilt is run again from its seeds: the child no
    longer changes, and the grandchild, which a cascade that was not stopped reconciles, is
    never reached. *)
Lemma interrupted_cascade_not_resumed :
  is_ok (drained 2 begun).1 = false ∧ (drained 100 (drained 2 begun).2).1 = Ok (Some ()) ∧
  rm_blocks (drained 100 (drained 2 begun).2).2.2 !! block_hash grandchild = None ∧
  is_some (rm_blocks (drained 100 begun).2.2 !! block_hash grandchild) = true.
Proof. vm_compute. split_and!; reflexivity. Qed.

(** The tables once the parent of the only event is proven canonical. *)
Definition settled : ReadModel := match (run ∅ verdict).1 with Ok (_, d) => d | Err _ => db ∅ end.
Definition proven_event : EventRow := set_classification ev PkCanonical (Some 7) (Some true).

Lemma settled_blocks : map_Forall (λ _ b, b_header_bytes b = serialize_header header ∧ b_header_time b = 1000) (rm_blocks settled).
Proof. refine (proj1 (bool_decide_eq_true _) _). vm_compute. reflexivity. Qed.
Lemma settled_events : rm_events settled = {[ 1 := proven_event ]}.
Proof. vm_compute. reflexivity. Qed.
Lemma settled_ok : blocks_ok (rm_blocks settled).
Proof.
  unfold settled. destruct (run ∅ verdict) as [[[ch d]|e] []] eqn:Hr; [|exact empty_ok].
  exact (proj1 (proj1 (in_txn_reported _ _ _ _ _ _ _ _ _ _ _ _ (conj empty_ok events_wf : model_ok (db ∅)) Hr))).
Qed.
Lemma header_decodes : deserialize_header (serialize_header header) = Some header ∧ hdr_time header = 1000.
Proof. vm_compute. split; reflexivity. Qed.
Lemma bulk_matches_rebuild_witness :
  eligible settled queue1 ∅ 10 = [block_hash header] ∧
  ∃ db1, rebuild_parent_read_model (λ _, None) (λ _ _, None) settled (block_hash header) None None = Ok db1 ∧
    is_Some (rm_blocks db1 !! block_hash header).
Proof.
  assert (eligible settled queue1 ∅ 10 = [block_hash header]) as He by (vm_compute; reflexivity).
  split; [exact He|].
  destruct (bulk_matches_rebuild (λ _, None) (λ _ _, None) settled None settled_ok) with (q := queue1) (locked := ∅ : gset bytes)
    (n := 10) as (Hin & _).
  - intros i e Hi. rewrite settled_events in Hi. apply lookup_singleton_Some in Hi as [_ <-].
    split; [vm_compute; eauto|]. exists header. split; [exact (proj1 header_decodes)|]. symmetry. exact (proj2 header_decodes).
  - intros h b hd Hb Hd. destruct (settled_blocks h b Hb) as [Hc ->]. rewrite Hc, (proj1 header_decodes) in Hd. injection Hd as <-.
    symmetry. exact (proj2 header_decodes).
  - destruct (Hin (block_hash header)) as (db1 & pool & Hr & _ & Hs & _); [rewrite He; left|]. exists db1. split; [exact Hr|exact Hs].
Defined.

(** A published row that attests its parent to be on a stale branch. *)
Definition published_row : MergeMiningEventPayload :=
  {| p_child_height := Some 7; p_child_block_hash := Some [x0a]; p_child_header_bytes := None;
     p_child_block_time := None; p_child_nbits := None; p_child_prev_block_hash := None;
     p_hash := replicate 32 x01; p_prev_hash := replicate 32 x00; p_header_bytes := [x02]; p_header_time := 0;
     p_height := None; p_kind := PkUnknown; p_pow := true; p_pow_child := None;
     p_difficulty_ok := None; p_provisional := false; p_txid := None; p_script := None;
     p_outputs := None; p_outputs_text := None; p_tx_bytes := None; p_child_txid := None;
     p_child_script := None; p_child_outputs := None; p_proof := None; p_attributions := [];
     p_discovered_at := 5; p_confirmed_at := 5; p_revoked_at := None; p_revocation_reason := None;
     p_provenance := Some (mkProvenance "first" "devcoin" "full_inventory" "rows.csv" 1 "full_classifier_inventory"
       "fixture" "stale" None None None (Some "valid_direct_stale"%string)) |}.
Definition published : StoreDb := EventStoreSample.after EventStoreSample.empty published_row.

Lemma published_ok : store_ok published.
Proof.
  apply (upsert_with_attributions_ok _ 1 _ _ _ EventStoreSample.empty_store_ok
    (EventStoreSample.write_Ok EventStoreSample.empty published_row ltac:(vm_compute; reflexivity))).
Qed.

(** The snapshot is replaced by an empty one. *)
Definition cleared : list bytes * StoreDb := clear_authoritative_historical_provenance_in_transaction published "devcoin".
Definition requeue : result anyhow hqueue :=
  enqueue_changed_historical_attestations_in_transaction 9 cleared.2 "devcoin" cleared.1 ∅.

Lemma changed_attestations_enqueued_witness :
  ∃ q', requeue = Ok q' ∧ (∀ h, ¬ attested cleared.2 "devcoin" h) ∧ q' !! replicate 32 x01 = Some (mkHistRow true [] 1 9).
Proof.
  assert (is_ok requeue = true) as Hr by (vm_compute; reflexivity).
  destruct requeue as [q'|e] eqn:Hq; [|discriminate Hr].
  destruct (changed_attestations_enqueued 9 published "devcoin" cleared.2 cleared.1 cleared.2 ∅ q' (surjective_pairing cleared) Hq)
    as (_ & Hno & Hh).
  exists q'. split; [reflexivity|]. split; [exact Hno|].
  destruct (Hh (replicate 32 x01)) as [Hin _]. rewrite lookup_empty in Hin. apply Hin. split.
  - assert (e_hash <$> sd_events cleared.2 !! 1 = Some (replicate 32 x01)) as He by (vm_compute; reflexivity).
    destruct (sd_events cleared.2 !! 1) as [e|] eqn:Hl; [|discriminate He]. injection He as He. exists 1, e. split; [exact Hl|exact He].
  - left. split; [|apply Hno]. apply elem_of_stale_attestations.
    assert (stale_attestations published "devcoin" = [replicate 32 x01]) as -> by (vm_compute; reflexivity). left.
Defined.

Lemma authoritative_removal_exact_witness :
  ∃ s' q', reconcile_authoritative_historical_source_in_transaction (λ _, None) 9 published ∅ 1 "second" "devcoin"
             = Ok (1, s', q') ∧ store_ok s' ∧ event_row s' 1 = None.
Proof.
  assert (is_ok (reconcile_authoritative_historical_source_in_transaction (λ _, None) 9 published ∅ 1 "second" "devcoin")
          = true) as Hi by (vm_compute; reflexivity).
  destruct (reconcile_authoritative_historical_source_in_transaction (λ _, None) 9 published ∅ 1 "second" "devcoin")
    as [[[n s'] q']|e] eqn:Hr; [|discriminate Hi].
  destruct (authoritative_removal_exact (λ _, None) 9 published ∅ 1 "second" "devcoin" n s' q' published_ok Hr)
    as (Hok & Hev & _).
  exists s', q'. split; [|split; [exact Hok|]].
  - assert (match reconcile_authoritative_historical_source_in_transaction (λ _, None) 9 published ∅ 1 "second" "devcoin"
            with Ok r => r.1.1 =? 1 | Err _ => false end = true) as Hn by (vm_compute; reflexivity).
    rewrite Hr in Hn. apply Z.eqb_eq in Hn. simpl in Hn. by rewrite Hn.
  - destruct (event_row s' 1) as [[e x]|] eqn:He; [|reflexivity]. exfalso. apply Hev in He as [He Ha]. apply Ha.
    apply absent_from_publication_true.
    assert ((λ r, absent_from_publication published 1 "second" "devcoin" r.1) <$> event_row published 1 = Some true) as Hr1
      by (vm_compute; reflexivity). rewrite He in Hr1. injection Hr1 as Hr1. exact Hr1.
Defined.
End HistoricalSample.
