(* ===== verification/Chains.v ===== *)
(** * Chain specifications and bounded backfills

    Models [crates/mmm-producers/src/chains/spec.rs], the table of the child chains and how
    each is fetched and what a failed height does, and [chains/backfill.rs]: the arguments of
    a bounded backfill with its range cap, and the loop over the range with its tally.
    Heights and ranges are [i32] values; arithmetic on them wraps. *)

From stdpp Require Import list_numbers.
From S2P Require Import Prelude BitcoinLib Effects Errors Reader Auxpow Nbits Lineage Classifier LiveLoop Poller.

(** ** The table *)

Inductive ChainId := Namecoin | Rsk | Syscoin | Fractal | Hathor | Elastos | QbitChain | Terracoin.
#[global] Instance ChainId_eq_dec : EqDecision ChainId.
Proof. solve_decision. Defined.

Inductive RpcAuth := RequiredUserPass | OptionalUserPassOrCookie.

Inductive RawBlockAuthentication :=
| NodeValidated
| StrictClassic (genesis_block_hash : string) (chain_id : Z).

Inductive FetchStrategy :=
| RawBlock (authentication : RawBlockAuthentication)
| HeaderBlob (exact_version : Z)
| QbitExtendedHeader (genesis_block_hash : string).

Inductive CaptureFailurePolicy := SkipMalformedProof | HoldMalformedProof | HoldAnyHeightFailure.
#[global] Instance CaptureFailurePolicy_eq_dec : EqDecision CaptureFailurePolicy.
Proof. solve_decision. Defined.

Definition retains_errors (p : CaptureFailurePolicy) : bool := negb (bool_decide (p = SkipMalformedProof)).

Record RangeCap := mkRangeCap { default_max : Z; cap_note : string }.

Inductive RepairScope := RepairGlobal | SourceScoped.

Record ChildPayoutParams := mkPayoutParams {
  pay_namespace : string;
  p2pkh_version : option Z;
  p2sh_version : option Z;
  bech32_hrp : string;
  witness_program : option (Z * Z);
}.
Definition NAMECOIN_CHILD_PAYOUT_PARAMS := mkPayoutParams "namecoin_payout_address" (Some 52) (Some 13) "nc" None.
Definition SYSCOIN_CHILD_PAYOUT_PARAMS := mkPayoutParams "syscoin_payout_address" (Some 63) (Some 5) "sys" None.
Definition FRACTAL_CHILD_REWARD_PARAMS := mkPayoutParams "fractal_reward_address" (Some 0) (Some 5) "bc" None.
Definition QBIT_CHILD_PAYOUT_PARAMS := mkPayoutParams "qbit_payout_address" None None "qb" (Some (2, 32)).

Record FamilySpec := mkFamilySpec {
  fs_label : string;
  fs_auth : RpcAuth;
  fs_fetch : FetchStrategy;
  raw_block_boolean_verbose : bool;
  fs_child_payout : option ChildPayoutParams;
  floor_warning : option string;
  repair_scope : RepairScope;
  failure_policy : CaptureFailurePolicy;
}.

Record ChainSpec := mkChainSpec {
  cs_id : ChainId;
  slug : string;
  display_name : string;
  env_prefix : string;
  source_code : string;
  cs_activation_floor : Z;
  poller_defaults : PollerDefaults;
  family : option FamilySpec;
  backfill_range_cap : option RangeCap;
}.

Definition RSK_ACQUISITION_FLOOR : Z := 139999.
Definition SYSCOIN_FIRST_AUXPOW_HEIGHT : Z := 1973.
Definition FRACTAL_FIRST_AUXPOW_HEIGHT : Z := 1.
Definition HATHOR_FIRST_AUXPOW_HEIGHT : Z := 0.
Definition ELASTOS_FIRST_AUXPOW_HEIGHT : Z := 177000.
Definition FRACTAL_MERGE_MINED_VERSION : Z := 0x20240100.
Definition QBIT_FIRST_AUXPOW_HEIGHT : Z := 0.
Definition QBIT_GENESIS_BLOCK_HASH : string := "0000000000004d60aa5d46013991d0a0e2995d89ee98e53068ae196d763e79f2".

Definition CHAINS : list ChainSpec := [
  mkChainSpec Namecoin "namecoin" "Namecoin" "NAMECOIN" "auxpow:namecoin" 0 (mkPollerDefaults 30 100 0)
    (Some (mkFamilySpec "Namecoin" RequiredUserPass (RawBlock NodeValidated) false (Some NAMECOIN_CHILD_PAYOUT_PARAMS)
             None RepairGlobal SkipMalformedProof)) None;
  mkChainSpec Rsk "rsk" "RSK" "RSK" "auxpow:rsk" RSK_ACQUISITION_FLOOR (mkPollerDefaults 30 100 64) None None;
  mkChainSpec Syscoin "syscoin" "Syscoin" "SYSCOIN" "auxpow:syscoin" SYSCOIN_FIRST_AUXPOW_HEIGHT (mkPollerDefaults 30 100 0)
    (Some (mkFamilySpec "Syscoin" OptionalUserPassOrCookie (RawBlock NodeValidated) false (Some SYSCOIN_CHILD_PAYOUT_PARAMS)
             (Some "start-height precedes Syscoin AuxPoW activation; earlier blocks parse as non-AuxPoW and will be skipped")
             SourceScoped SkipMalformedProof)) None;
  mkChainSpec Fractal "fractal" "Fractal" "FRACTAL" "auxpow:fractal" FRACTAL_FIRST_AUXPOW_HEIGHT (mkPollerDefaults 30 100 0)
    (Some (mkFamilySpec "Fractal" OptionalUserPassOrCookie (HeaderBlob FRACTAL_MERGE_MINED_VERSION) false
             (Some FRACTAL_CHILD_REWARD_PARAMS)
             (Some "start-height precedes Fractal AuxPoW activation; earlier blocks are skipped")
             SourceScoped SkipMalformedProof)) None;
  mkChainSpec Hathor "hathor" "Hathor" "HATHOR" "auxpow:hathor" HATHOR_FIRST_AUXPOW_HEIGHT (mkPollerDefaults 30 100 20) None
    (Some (mkRangeCap 5000 "the public REST API must not be swept"));
  mkChainSpec Elastos "elastos" "Elastos" "ELASTOS" "auxpow:elastos" ELASTOS_FIRST_AUXPOW_HEIGHT (mkPollerDefaults 30 100 0) None
    (Some (mkRangeCap 50000 "needed for a full 177000..tip backfill"));
  mkChainSpec QbitChain "qbit" "Qbit" "QBIT" "auxpow:qbit" QBIT_FIRST_AUXPOW_HEIGHT (mkPollerDefaults 30 100 0)
    (Some (mkFamilySpec "Qbit" OptionalUserPassOrCookie (QbitExtendedHeader QBIT_GENESIS_BLOCK_HASH) false
             (Some QBIT_CHILD_PAYOUT_PARAMS) None SourceScoped HoldMalformedProof)) None;
  mkChainSpec Terracoin "terracoin" "Terracoin" "TERRACOIN" "auxpow:terracoin" 833000 (mkPollerDefaults 30 100 64)
    (Some (mkFamilySpec "Terracoin" RequiredUserPass
             (RawBlock (StrictClassic "00000000804bbc6a621a9dbb564ce469f492e1ccf2d70f8a6b241e26a277afa2" 50)) true None
             (Some "start-height precedes Terracoin AuxPoW activation") SourceScoped HoldAnyHeightFailure)) None
].

(** [None] where the code panics. *)
Definition by_id (id : ChainId) : option ChainSpec := find (λ s, bool_decide (cs_id s = id)) CHAINS.

(** ** Backfill arguments *)

Record BackfillConfig := mkBackfillConfig { bf_spec : ChainSpec; start_height : Z; end_height : Z }.

Definition parse_height (label value : string) : result anyhow Z :=
  ok_or (Context (label +:+ " must be a valid i32 height") (Other "parse")) (parse_int i32_MIN i32_MAX value).

Definition validate_range (c : BackfillConfig) : result anyhow unit :=
  _ ← ensure (0 <=? start_height c) (Other "start-height must be non-negative");
  ensure (start_height c <=? end_height c) (Other "end-height must be greater than or equal to start-height").

Definition validate_against_tip (c : BackfillConfig) (chain_tip : Z) : result anyhow unit :=
  ensure (end_height c <=? chain_tip) (Other "requested end height exceeds observed chain tip").

Section arguments.
Context (lookup : string → option string).

Definition max_backfill_range_from_lookup (spec : ChainSpec) (cap : RangeCap) : Z :=
  default (default_max cap) (lookup (env_prefix spec +:+ "_MAX_BACKFILL_RANGE") ≫= parse_int i32_MIN i32_MAX).
Definition exact_one_from_lookup (key : string) : bool := bool_decide (lookup key = Some "1"%string).
Definition allow_large_backfill_from_lookup (spec : ChainSpec) : bool :=
  exact_one_from_lookup (env_prefix spec +:+ "_ALLOW_LARGE_BACKFILL").

Definition from_args_with_lookup (spec : ChainSpec) (args : list string) : result anyhow BackfillConfig :=
  match args with
  | [a; b] =>
      start_height ← parse_height "start-height" a;
      end_height ← parse_height "end-height" b;
      let config := mkBackfillConfig spec start_height end_height in
      _ ← validate_range config;
      match backfill_range_cap spec with
      | Some cap =>
          let range := add_i32 (sub_i32 end_height start_height) 1 in
          _ ← ensure (negb ((max_backfill_range_from_lookup spec cap <? range)
                            && negb (allow_large_backfill_from_lookup spec)))
                (Other "backfill range exceeds the cap");
          mret config
      | None => mret config
      end
  | _ => Err (Other "usage: backfill <start-height> <end-height>")
  end.
End arguments.

(** ** The range *)

Record BackfillSummary := mkBackfillSummary {
  bs_processed : Z;
  auxpow_written : Z;
  non_auxpow_skipped : Z;
  non_bitcoin_parent_count : Z;
  malformed_skipped : Z;
  malformed_held : Z;
}.
Definition BackfillSummary_default : BackfillSummary := mkBackfillSummary 0 0 0 0 0 0.

Inductive BackfillHeightEffect :=
| EffAuxpowWritten | EffNonAuxpowSkipped | EffNonBitcoinParent | EffMalformedSkipped | EffMalformedHeld.
#[global] Instance BackfillHeightEffect_eq_dec : EqDecision BackfillHeightEffect.
Proof. solve_decision. Defined.

Definition lineage_pending_error : anyhow := Other "backfill stopped: its AuxPoW parent needs a Bitcoin epoch the Core header cache has not reached yet".

(** [BackfillSummary::record]. *)
Definition record_effect (s : BackfillSummary) (e : BackfillHeightEffect) : BackfillSummary :=
  let '(mkBackfillSummary p a n b m h) := s in
  match e with
  | EffAuxpowWritten => mkBackfillSummary (p + 1) (a + 1) n b m h
  | EffNonAuxpowSkipped => mkBackfillSummary (p + 1) a (n + 1) b m h
  | EffNonBitcoinParent => mkBackfillSummary (p + 1) a n (b + 1) m h
  | EffMalformedSkipped => mkBackfillSummary (p + 1) a n b (m + 1) h
  | EffMalformedHeld => mkBackfillSummary (p + 1) a n b m (h + 1)
  end.

Section range.
Context {W : Type} (process_height : Z → stM W anyhow (option BackfillHeightEffect)).

(** [None] when a height runs out of the fuel its processing was given. The delay between
    heights and the progress report have no state. *)
Fixpoint backfill_loop (heights : list Z) (s : BackfillSummary) : stM W anyhow (option BackfillSummary) :=
  match heights with
  | [] => mret (Some s)
  | h :: hs =>
      effect ← process_height h;
      match effect with
      | Some effect => backfill_loop hs (record_effect s effect)
      | None => mret None
      end
  end.

Definition run_delayed_backfill_range (c : BackfillConfig) : stM W anyhow (option BackfillSummary) :=
  backfill_loop (seqZ (start_height c) (end_height c - start_height c + 1)) BackfillSummary_default.
End range.

(** ** Lemmas *)

(** Every chain has its row, and the ids and codes of the rows differ. *)
Lemma by_id_total id : ∃ spec, by_id id = Some spec ∧ cs_id spec = id.
Proof. destruct id; eexists; (split; [vm_compute; reflexivity|done]). Qed.

Lemma parse_int_range lo hi s v : parse_int lo hi s = Some v → lo ≤ v ≤ hi.
Proof.
  unfold parse_int. intros (u & _ & Hv)%bind_Some. destruct (_ && _) eqn:Hr; [|done].
  injection Hv as <-. apply andb_prop in Hr as [?%Z.leb_le ?%Z.leb_le]. lia.
Qed.

Lemma range_add start end_ : 0 ≤ start ≤ end_ → end_ ≤ i32_MAX →
  add_i32 (sub_i32 end_ start) 1 = if bool_decide (start = 0 ∧ end_ = i32_MAX) then i32_MIN else end_ - start + 1.
Proof.
  intros Hs He. unfold add_i32, sub_i32. rewrite (wrap_i32_id (end_ - start)) by (unfold in_i32, i32_MAX in *; lia).
  case_bool_decide as Hc; [destruct Hc as [-> ->]; reflexivity|].
  apply wrap_i32_id. unfold in_i32, i32_MAX in *. lia.
Qed.

(** C39. A backfill whose arguments are accepted has a range of native heights in order, within
    the cap of its chain unless the operator lifted it. The one range the cap does not stop is
    the full range of heights, whose length does not fit the 32-bit arithmetic. *)
Theorem backfill_range_capped lookup spec args c :
  from_args_with_lookup lookup spec args = Ok c →
  bf_spec c = spec ∧ 0 ≤ start_height c ≤ end_height c ∧ end_height c ≤ i32_MAX ∧
  ∀ cap, backfill_range_cap spec = Some cap →
    allow_large_backfill_from_lookup lookup spec = true ∨
    end_height c - start_height c + 1 ≤ max_backfill_range_from_lookup lookup spec cap ∨
    start_height c = 0 ∧ end_height c = i32_MAX.
Proof.
  unfold from_args_with_lookup. destruct args as [|a [|b [|]]]; try done. intros Hf.
  apply bind_Ok in Hf as (s & Hs & Hf). apply bind_Ok in Hf as (e & He & Hf). cbv zeta in Hf.
  apply bind_Ok in Hf as ([] & Hv & Hf). unfold validate_range in Hv.
  apply bind_Ok in Hv as ([] & Hv1%ensure_Ok & Hv2%ensure_Ok). simpl in Hv1, Hv2. apply Z.leb_le in Hv1, Hv2.
  unfold parse_height in Hs, He. apply ok_or_Ok in Hs, He. apply parse_int_range in Hs, He.
  assert (c = mkBackfillConfig spec s e ∧ ∀ cap, backfill_range_cap spec = Some cap →
    allow_large_backfill_from_lookup lookup spec = true ∨
    add_i32 (sub_i32 e s) 1 ≤ max_backfill_range_from_lookup lookup spec cap) as [-> Hcap].
  { destruct (backfill_range_cap spec) as [cap|]; [|injection Hf as <-; by split].
    apply bind_Ok in Hf as ([] & Hc%ensure_Ok & [= <-]). split; [done|]. intros ? [= <-].
    apply negb_true_iff, andb_false_iff in Hc as [Hc%Z.ltb_ge|Hc%negb_false_iff]; auto. }
  simpl. split_and!; [done|lia|lia|lia|]. intros cap Hsome. destruct (Hcap cap Hsome) as [?|Hle]; [by left|].
  right. rewrite range_add in Hle by lia. case_bool_decide; [by right|by left].
Qed.

(** ** The tally *)

(** How many of the heights had an effect. *)
Definition effect_count (effects : list BackfillHeightEffect) (e : BackfillHeightEffect) : Z :=
  Z.of_nat (length (filter (λ x, x = e) effects)).

Definition tally (effects : list BackfillHeightEffect) : BackfillSummary :=
  mkBackfillSummary (Z.of_nat (length effects)) (effect_count effects EffAuxpowWritten)
    (effect_count effects EffNonAuxpowSkipped) (effect_count effects EffNonBitcoinParent)
    (effect_count effects EffMalformedSkipped) (effect_count effects EffMalformedHeld).

Lemma tally_snoc effects e : tally (effects ++ [e]) = record_effect (tally effects) e.
Proof.
  unfold tally, effect_count. rewrite length_app, !filter_app, !length_app. simpl.
  destruct e; repeat (rewrite filter_cons; case_decide; [try done|try done]); simpl; f_equal; lia.
Qed.

Section tallies.
Context {W : Type} (process : Z → stM W anyhow (option BackfillHeightEffect)).

(** The heights processed one after the other from a world to a world. *)
Inductive processed : list Z → list BackfillHeightEffect → W → W → Prop :=
| processed_nil w : processed [] [] w w
| processed_cons h hs e es w w1 w2 : process h w = (Ok (Some e), w1) → processed hs es w1 w2 →
    processed (h :: hs) (e :: es) w w2.

Lemma backfill_loop_tally hs done_ w r w' : backfill_loop process hs (tally done_) w = (Ok (Some r), w') →
  ∃ es, processed hs es w w' ∧ r = tally (done_ ++ es).
Proof.
  revert done_ w. induction hs as [|h hs IH]; intros done_ w Hl; cbn [backfill_loop] in Hl.
  - injection Hl as <- <-. exists []. rewrite app_nil_r. split; [constructor|done].
  - apply st_bind_Ok in Hl as (e & w1 & He & Hl). destruct e as [e|]; [|done].
    rewrite <-tally_snoc in Hl. apply IH in Hl as (es & Hes & ->). exists (e :: es).
    split; [by econstructor|]. by rewrite <-app_assoc.
Qed.

Lemma processed_length hs es w w' : processed hs es w w' → length es = length hs.
Proof. induction 1; simpl; congruence. Qed.

(** A backfill that reports a summary processed every height of its range, once and in
    increasing order; its summary is the tally of what each height did, and the counts of the
    five effects sum to the number of heights. *)
Theorem backfill_summary_exact c w s w' : start_height c ≤ end_height c →
  run_delayed_backfill_range process c w = (Ok (Some s), w') →
  ∃ es, processed (seqZ (start_height c) (end_height c - start_height c + 1)) es w w' ∧ s = tally es ∧
    bs_processed s = end_height c - start_height c + 1 ∧
    bs_processed s = auxpow_written s + non_auxpow_skipped s + non_bitcoin_parent_count s + malformed_skipped s + malformed_held s.
Proof.
  intros Hr Hl. apply (backfill_loop_tally _ []) in Hl as (es & Hes & ->). exists es.
  pose proof (processed_length _ _ _ _ Hes) as Hlen. rewrite length_seqZ in Hlen. simpl.
  split_and!; [done|done|lia|]. clear. unfold effect_count.
  induction es as [|e es IH]; [done|]. simpl. rewrite !filter_cons. destruct e; repeat case_decide; simpl; try done; lia.
Qed.
End tallies.

Module ChainsSample.
Definition hathor : ChainSpec :=
  mkChainSpec Hathor "hathor" "Hathor" "HATHOR" "auxpow:hathor" 0 (mkPollerDefaults 30 100 20) None
    (Some (mkRangeCap 5000 "the public REST API must not be swept")).
Lemma hathor_row : by_id Hathor = Some hathor.
Proof. vm_compute. reflexivity. Qed.

Lemma backfill_range_capped_witness :
  ∃ c, from_args_with_lookup (λ _, None) hathor ["10"; "20"]%string = Ok c ∧ 0 ≤ start_height c ≤ end_height c.
Proof.
  exists (mkBackfillConfig hathor 10 20). split; [vm_compute; reflexivity|].
  apply (backfill_range_capped (λ _, None) hathor ["10"; "20"]%string). vm_compute. reflexivity.
Defined.

(** The cap of the chain is 5000 heights. *)
Lemma full_range_uncapped :
  from_args_with_lookup (λ _, None) hathor ["0"; "2147483647"]%string = Ok (mkBackfillConfig hathor 0 2147483647) ∧
  from_args_with_lookup (λ _, None) hathor ["1"; "2147483647"]%string = Err (Other "backfill range exceeds the cap").
Proof. vm_compute. done. Qed.

Definition process (h : Z) : stM Z anyhow (option BackfillHeightEffect) := λ w,
  (Ok (Some (if h =? 11 then EffMalformedHeld else EffAuxpowWritten)), w + 1).
Lemma backfill_summary_exact_witness :
  run_delayed_backfill_range process (mkBackfillConfig hathor 10 12) 0 = (Ok (Some (mkBackfillSummary 3 2 0 0 0 1)), 3) ∧
  ∃ es, processed process [10; 11; 12] es 0 3 ∧ mkBackfillSummary 3 2 0 0 0 1 = tally es.
Proof.
  split; [vm_compute; reflexivity|].
  destruct (backfill_summary_exact process (mkBackfillConfig hathor 10 12) 0 (mkBackfillSummary 3 2 0 0 0 1) 3)
    as (es & Hes & Ht & _); [simpl; lia|vm_compute; reflexivity|]. exists es. split; [exact Hes|exact Ht].
Defined.
End ChainsSample.
