(* ===== verification/Family.v ===== *)
(** * AuxPoW family pollers

    Models [crates/mmm-producers/src/chains/auxpow_family] (the capture of one height, its
    rescan and the bounded backfill shared by Namecoin, Syscoin, Fractal, Qbit and Terracoin),
    [crates/mmm-store/src/capture_error.rs] and the capture of [producer_runtime.rs].

    The daemon of the child chain answers whatever it likes. The environment holds the table of
    capture errors beside the tables of the store. A height is processed under a lock of the
    session; other sessions commit whenever a statement waits. The pools of a block are resolved
    by parameters; the count of refused parents is only reported and is left out. *)

From Stdlib Require Import Ascii.
From S2P Require Import Prelude BitcoinLib Effects Errors Reader Auxpow Qbit Nbits Lineage Classifier LiveLoop Poller Blocks SyncState CoreQueue Events Reconcile Cascade HeaderCache Payload EventStore ChildHead Writes Capture Chains.

(** ** Capture errors *)

Record CaptureErrorRow := mkCaptureError {
  er_block_hash : option bytes;
  er_kind : string;
  er_detail : option string;
  er_first_seen_at : Z;
  er_last_seen_at : Z;
}.
Definition CAPTURE_ERROR_HEIGHT_CAPTURE_FAILED : string := "height_capture_failed".
Definition CAPTURE_ERROR_MALFORMED_AUXPOW_PROOF : string := "malformed_auxpow_proof".

(** The daemon of the child chain. *)
Class BitcoindRpc (W : Type) := {
  get_block_count : stM W anyhow Z;
  rpc_block_hash : Z → stM W anyhow bytes;
  get_block_raw : bytes → stM W anyhow bytes;
  get_header_with_auxpow : bytes → stM W anyhow bytes;
}.

(** The table of capture errors, and the session-level lock of a height. *)
Class FamilyTables (W : Type) := {
  errors_of : W → gmap (Z * Z) CaptureErrorRow;
  set_errors : gmap (Z * Z) CaptureErrorRow → W → W;
  lock_height : Z → Z → stM (W * ReadModel) anyhow unit;
  unlock_height : Z → Z → stM (W * ReadModel) anyhow unit;
}.

Definition upsert_capture_error (t : gmap (Z * Z) CaptureErrorRow) (source height : Z) (block_hash : option bytes)
    (kind : string) (detail : option string) (now : Z) : gmap (Z * Z) CaptureErrorRow :=
  <[(source, height) :=
      match t !! (source, height) with
      | Some r => mkCaptureError block_hash kind detail (er_first_seen_at r) (Z.max (er_last_seen_at r) now)
      | None => mkCaptureError block_hash kind detail now now
      end]> t.

(** ** Helpers *)

(** [format!("{err:#}")]. *)
Fixpoint display_error (e : error) : string :=
  match e with
  | Msg m => m
  | Ctx m e => m +:+ ": " +:+ display_error e
  | Typed _ e => display_error e
  end.
Definition anyhow_of (e : error) : anyhow := Other (display_error e).

(** [BlockHash::to_string]: the bytes in reverse, in lower-case hexadecimal. *)
Definition hex_digit (n : Z) : ascii := ascii_of_N (Z.to_N (if n <? 10 then n + 48 else n + 87)).
Fixpoint hex_bytes (bs : bytes) : string :=
  match bs with
  | [] => EmptyString
  | b :: bs => String (hex_digit (u8 b / 16)) (String (hex_digit (u8 b mod 16)) (hex_bytes bs))
  end.
Definition block_hash_to_string (hash : bytes) : string := hex_bytes (reverse hash).

Inductive HeightOutcome :=
| AuxpowWritten | NonAuxpowSkipped | NonBitcoinParent | LineagePending | MalformedSkipped | MalformedHeld.
#[global] Instance HeightOutcome_eq_dec : EqDecision HeightOutcome.
Proof. solve_decision. Defined.

Inductive RescanOutcome := Unchanged | RescanCaptured (outcome : HeightOutcome).

Definition height_progress_for (outcome : HeightOutcome) : HeightProgress :=
  match outcome with
  | MalformedHeld | LineagePending => Hold
  | AuxpowWritten | NonAuxpowSkipped | NonBitcoinParent | MalformedSkipped => Advance
  end.

Inductive AuxpowFetch :=
| FetchClassic (parsed : ParsedAuxpowBlock)
| FetchQbit (parsed : ParsedQbitAuxpowBlock)
| FetchNonAuxpow (header : Header)
| FetchMalformed (detail : string) (header : option Header).

(** [bytes.get(..Header::SIZE)]. *)
Definition header_prefix (bs : bytes) : option bytes :=
  if (HEADER_SIZE <=? length bs)%nat then Some (take HEADER_SIZE bs) else None.

Section fetch.
Context `{BitcoinLib}.

Definition authenticated_child_header (bs hash : bytes) : option Header :=
  prefix ← header_prefix bs;
  header ← deserialize_header prefix;
  if bool_decide (block_hash header = hash) then Some header else None.

Definition child_header_version (blob : bytes) : result anyhow Z :=
  _ ← ensure (4 <=? length blob)%nat (Other "header blob is shorter than the 4-byte version field");
  mret (i32_from_le_bytes (slice 0 4 blob)).
Definition is_merge_mined (blob : bytes) (exact_version : Z) : result anyhow bool :=
  version ← child_header_version blob;
  mret (version =? exact_version).

Definition parsed_candidate_or_malformed (parsed : result error ParsedAuxpowBlock) (header : option Header) : AuxpowFetch :=
  match parsed with
  | Ok parsed => FetchClassic parsed
  | Err e => FetchMalformed (display_error e) header
  end.

Definition ensure_genesis (actual : bytes) (genesis : string) : result anyhow unit :=
  ensure (bool_decide (block_hash_to_string actual = genesis))
    (Other "endpoint height 0 is not the mainnet genesis; refusing to capture from a non-mainnet node").

Definition ensure_qbit_native_placement (height : Z) (hash child_block_hash : bytes) (genesis_block_hash : string)
    : result anyhow unit :=
  _ ← ensure (bool_decide (child_block_hash = hash)) (Other "block was returned for another hash");
  ensure (negb (height =? 0) || bool_decide (block_hash_to_string child_block_hash = genesis_block_hash))
    (Other "height 0 is not the mainnet genesis").

Context {W : Type} `{BitcoindRpc W}.

Definition fetch_raw_block_candidate (hash : bytes) (height : Z) (authentication : RawBlockAuthentication)
    : stM W anyhow AuxpowFetch :=
  raw ← on_err (Context "get raw block") (get_block_raw hash);
  let parsed := match authentication with
                | NodeValidated => parse_namecoin_block raw
                | StrictClassic _ chain_id => parse_verified_classic_block raw hash height chain_id
                end in
  mret match parsed with
       | Ok (NonAuxpow h) => FetchNonAuxpow (ph_header h)
       | Ok (AuxpowBlock b) => parsed_candidate_or_malformed (Ok b) None
       | Err e => parsed_candidate_or_malformed (Err e) (authenticated_child_header raw hash)
       end.

Definition fetch_header_blob_candidate (hash : bytes) (exact_version : Z) : stM W anyhow AuxpowFetch :=
  blob ← on_err (Context "get header+AuxPoW") (get_header_with_auxpow hash);
  merge_mined ← on_err (Context "read header version") (lift (is_merge_mined blob exact_version));
  if negb (merge_mined : bool) then
    mret match header_prefix blob ≫= deserialize_header with
         | Some header => FetchNonAuxpow header
         | None => FetchMalformed "non-merge-mined header blob is not an 80-byte header" None
         end
  else mret (parsed_candidate_or_malformed (parse_auxpow_header_blob blob) (authenticated_child_header blob hash)).

Definition fetch_qbit_candidate (hash : bytes) (height : Z) (genesis_block_hash : string) : stM W anyhow AuxpowFetch :=
  raw ← on_err (Context "get raw block") (get_block_raw hash);
  _ ← guardM (0 <=? height) (Context "height is not a native height" (Other "TryFromIntError"));
  match header_prefix raw with
  | None => mret (FetchMalformed "Qbit block is shorter than a header" None)
  | Some prefix =>
      match deserialize_header prefix with
      | None => mret (FetchMalformed "parse Qbit child header" None)
      | Some child_header =>
          _ ← lift (ensure_qbit_native_placement height hash (block_hash child_header) genesis_block_hash);
          mret match parse_qbit_block raw height with
               | Ok None => FetchNonAuxpow child_header
               | Ok (Some parsed) => FetchQbit parsed
               | Err e => FetchMalformed (display_error e)
                            (if downcast "QbitProofError" e then Some child_header else None)
               end
      end
  end.

Definition fetch_auxpow_candidate (fam : FamilySpec) (hash : bytes) (height : Z) : stM W anyhow AuxpowFetch :=
  match fs_fetch fam with
  | RawBlock authentication => fetch_raw_block_candidate hash height authentication
  | HeaderBlob exact_version => fetch_header_blob_candidate hash exact_version
  | QbitExtendedHeader genesis_block_hash => fetch_qbit_candidate hash height genesis_block_hash
  end.

Definition attach_child_payout_if_needed (fam : FamilySpec) (hash : bytes) (parsed : ParsedAuxpowBlock)
    : stM W anyhow ParsedAuxpowBlock :=
  match fs_fetch fam, fs_child_payout fam with
  | HeaderBlob _, Some _ =>
      raw ← on_err (Context "get full child block for reward identity") (get_block_raw hash);
      child ← on_err (Context "parse full child block coinbase") (lift (map_err anyhow_of (parse_child_block_coinbase raw)));
      on_err (Context "pair full child block with AuxPoW proof")
        (lift (map_err anyhow_of (attach_child_block_coinbase parsed child)))
  | _, _ => mret parsed
  end.

Definition ensure_mainnet_endpoint (fam : FamilySpec) : stM W anyhow unit :=
  match fs_fetch fam with
  | QbitExtendedHeader genesis | RawBlock (StrictClassic genesis _) =>
      actual ← on_err (Context "authenticate mainnet genesis") (rpc_block_hash 0);
      lift (ensure_genesis actual genesis)
  | _ => mret ()
  end.
End fetch.

(** ** The capture of a height *)

(** [ClassificationProof::default()]. *)
Definition ClassificationProof_default : ClassificationProof := mkClassificationProof None None None false.

Section family.
Context `{BitcoinLib} {W : Type} `{CoreHeaderSource W} `{Clock W} `{ReadModelSession W} `{CaptureTables W}.
Context `{BitcoindRpc W} `{FamilyTables W}.
Context (invalid_blocks_lookup : bytes → option InvalidBlock).
Context (resolve_pool : bytes → option bytes → option Z).
Context (classifier : ConfiguredParentClassifier).
Context (serialize_txouts : list TxOut → bytes).
Context (hathor_sidecar_digest : Z → Z → option Z).
Context (resolve_event_pools : ParsedAuxpowBlock → list EventPoolAttribution).
Context (resolve_qbit_pools : ParsedQbitAuxpowBlock → list EventPoolAttribution).
(** The context of the producer: the row of the family and the id of the source. *)
Context (fam : FamilySpec) (source : Z).

#[local] Abbreviation sM := (stM (W * ReadModel) anyhow).

Definition record_capture_error (height : Z) (hash : option bytes) (kind : string) (detail : option string) (now : Z) : sM unit :=
  _ ← session;
  modify (λ w, (set_errors (upsert_capture_error (errors_of w.1) source height hash kind detail now) w.1, w.2)).
Definition has_capture_error (height : Z) : sM bool :=
  _ ← session;
  gets (λ w, is_some (errors_of w.1 !! (source, height))).
Definition clear_capture_error (height : Z) : sM bool :=
  _ ← session;
  found ← gets (λ w, is_some (errors_of w.1 !! (source, height)));
  _ ← modify (λ w, (set_errors (delete (source, height) (errors_of w.1)) w.1, w.2));
  mret found.

(** A statement of the store in a transaction of its own. *)
Definition own_transaction (f : CacheDb → StoreDb → result anyhow (ChildDisplacementOutcome * StoreDb)) : sM unit :=
  transaction (
    _ ← session;
    c ← gets (λ w, cache_of w.1);
    s ← gets store_view;
    '(_, s) ← lift (f c s);
    _ ← put_store s;
    mret (true, ())).

Definition observe_block_hash (height : Z) : sM bytes :=
  on_env (on_err (Context "get block hash") (rpc_block_hash height)).

(** The closure of [write_event_in_txn]. *)
Definition write_and_record (child_height : Z) (child_block_hash : bytes) (observed_at : Z) (c : CacheDb) (s : StoreDb)
    (source : Z) (p : MergeMiningEventPayload) : result anyhow (CaptureWrite * StoreDb) :=
  '(write, s) ← write_capture s source p;
  '(_, s) ← record_child_chain_block hathor_sidecar_digest c s source child_height
              (mkHeadRecord child_block_hash (ParentKnown (p_hash p)) (head_captured (p_provisional p)) NoMarker observed_at None);
  mret (write, s).

Definition write_event_in_txn (fuel : nat) (p : MergeMiningEventPayload) : sM (option HeightOutcome) :=
  observed_at ← on_env now_unix_secs;
  child_height ← lift (ok_or (Other "bitcoind-family event payload carries no child height") (p_child_height p));
  child_block_hash ← lift (ok_or (Other "bitcoind-family event payload carries no child block hash") (p_child_block_hash p));
  captured ← capture_in_txn invalid_blocks_lookup resolve_pool classifier fuel source
               (write_and_record child_height child_block_hash observed_at) p;
  let record head_outcome outcome generation :=
    _ ← own_transaction (λ c s, record_child_chain_block_in_own_transaction hathor_sidecar_digest c s source child_height
          (mkHeadRecord child_block_hash (ParentKnown (p_hash p)) head_outcome NoMarker observed_at generation) None);
    mret (Some outcome) in
  match captured with
  | None => mret None
  | Some (Written _) => mret (Some AuxpowWritten)
  | Some (CaptureNotBitcoin _ generation) => record HeadRecorded NonBitcoinParent (Some generation)
  | Some (CapturePending _) => record HeadHeld LineagePending None
  end.

Definition write_classic_event (fuel : nat) (height : Z) (parsed : ParsedAuxpowBlock) : sM (option HeightOutcome) :=
  now ← on_env now_unix_secs;
  p ← lift (build_event_payload invalid_blocks_lookup serialize_txouts parsed (Some height) (resolve_event_pools parsed)
              ClassificationProof_default now);
  write_event_in_txn fuel p.

Definition qbit_evidence (block : ParsedQbitAuxpowBlock) (height : Z) : NormalizedEventEvidence :=
  let parsed := qb_proof block in
  let child := qb_coinbase block in
  {| v_child_height := Some height;
     v_child_block_hash := Some (ParsedHeader_hash (q_child_header parsed));
     v_child_header_bytes := Some (serialize_header (ph_header (q_child_header parsed)));
     v_child_block_time := Some (hdr_time (ph_header (q_child_header parsed)));
     v_child_nbits := Some (hdr_bits (ph_header (q_child_header parsed)));
     v_child_prev_block_hash := None;
     v_parent_header := ph_header (q_parent_header parsed);
     v_pow_child := Some (validates_target (ParsedHeader_hash (q_parent_header parsed)) (hdr_bits (ph_header (q_child_header parsed))));
     v_txid := Some (q_parent_coinbase_txid parsed);
     v_script := Some (q_parent_coinbase_script parsed);
     v_outputs := Some (serialize_txouts (q_parent_coinbase_outputs parsed));
     v_outputs_text := None; v_tx_bytes := None;
     v_child_txid := Some (pc_coinbase_txid child);
     v_child_script := Some (pc_coinbase_script child);
     v_child_outputs := Some (serialize_txouts (pc_coinbase_outputs child));
     v_proof := Some (q_auxpow_bytes parsed) |}.

Definition write_qbit_event (fuel : nat) (height : Z) (block : ParsedQbitAuxpowBlock) : sM (option HeightOutcome) :=
  now ← on_env now_unix_secs;
  p ← lift (build_event_payload_from_evidence invalid_blocks_lookup (qbit_evidence block height) (resolve_qbit_pools block)
              ClassificationProof_default now);
  write_event_in_txn fuel p.

Definition record_malformed_height (height : Z) (hash : bytes) (detail : string) : sM HeightOutcome :=
  match failure_policy fam with
  | SkipMalformedProof => mret MalformedSkipped
  | HoldMalformedProof | HoldAnyHeightFailure =>
      now ← on_env now_unix_secs;
      _ ← record_capture_error height (Some hash) CAPTURE_ERROR_MALFORMED_AUXPOW_PROOF (Some detail) now;
      mret MalformedHeld
  end.

(** The parent and outcome of the head of a block without an event. *)
Definition eventless_record (outcome : HeightOutcome) : option (CurrentBlockParent * ChildChainHeadOutcome) :=
  match outcome with
  | AuxpowWritten | NonBitcoinParent | LineagePending => None
  | NonAuxpowSkipped => Some (ParentNoAuxpow, HeadNoAuxpow)
  | MalformedSkipped => Some (ParentUnknown, HeadUnverified)
  | MalformedHeld => Some (ParentUnknown, HeadHeld)
  end.

(** The outcome of a fetched block, and the observation of one without an event. *)
Definition write_candidate (fuel : nat) (height : Z) (hash : bytes) (candidate : AuxpowFetch)
    : sM (option (HeightOutcome * option (ObservationKind * Header))) :=
  match candidate with
  | FetchClassic parsed =>
      parsed ← on_env (attach_child_payout_if_needed fam hash parsed);
      outcome ← write_classic_event fuel height parsed;
      mret ((λ o, (o, None)) <$> outcome)
  | FetchQbit parsed =>
      outcome ← write_qbit_event fuel height parsed;
      mret ((λ o, (o, None)) <$> outcome)
  | FetchNonAuxpow header =>
      _ ← guardM (bool_decide (block_hash header = hash)) (Other "header does not hash to the block");
      mret (Some (NonAuxpowSkipped, Some (ObsNotMergeMined, header)))
  | FetchMalformed detail header =>
      outcome ← record_malformed_height height hash detail;
      mret (Some (outcome, (λ h, (ObsUnverifiedParent, h)) <$> header))
  end.

Definition record_eventless (height : Z) (hash : bytes) (outcome : HeightOutcome)
    (child_only : option (ObservationKind * Header)) : sM unit :=
  match eventless_record outcome with
  | None => mret ()
  | Some (current_parent, head_outcome) =>
      observed_at ← on_env now_unix_secs;
      let observation := (λ '(kind, header), child_only_from_header kind height header observed_at) <$> child_only in
      own_transaction (λ c s, record_child_chain_block_in_own_transaction hathor_sidecar_digest c s source height
        (mkHeadRecord hash current_parent head_outcome NoMarker observed_at None) observation)
  end.

Definition process_locked_height (fuel : nat) (height : Z) (hash : bytes) : sM (option HeightOutcome) :=
  candidate ← on_env (fetch_auxpow_candidate fam hash height);
  written ← write_candidate fuel height hash candidate;
  match written with
  | None => mret None
  | Some (outcome, child_only) =>
      _ ← record_eventless height hash outcome child_only;
      match outcome with
      | MalformedSkipped | MalformedHeld | LineagePending => mret (Some outcome)
      | AuxpowWritten | NonAuxpowSkipped | NonBitcoinParent =>
          _ ← (if retains_errors (failure_policy fam) then clear_capture_error height else mret false);
          mret (Some outcome)
      end
  end.

Definition retain_failed_height {A} (height : Z) (r : result anyhow A) : sM A :=
  match r with
  | Ok a => mret a
  | Err e =>
      if must_propagate e then throw e
      else if negb (bool_decide (failure_policy fam = HoldAnyHeightFailure)) then throw e
      else
        recorded ← attempt (now ← on_env now_unix_secs;
                            record_capture_error height None CAPTURE_ERROR_HEIGHT_CAPTURE_FAILED
                              (Some "Height capture failed; inspect producer logs and replay this height") now);
        match recorded with
        | Ok _ => throw e
        | Err _ => throw (Context "height failed and its capture error could not be recorded" e)
        end
  end.

(** An operation under the lock of the height. *)
Definition with_height_lock {A} (height : Z) (m : sM A) : sM A :=
  _ ← lock_height source height;
  r ← attempt m;
  r ← attempt (retain_failed_height height r);
  unlock ← attempt (unlock_height source height);
  lift (finish_child_chain_height_operation r unlock).

Definition process_auxpow_height (fuel : nat) (height : Z) : sM (option HeightOutcome) :=
  with_height_lock height (hash ← observe_block_hash height; process_locked_height fuel height hash).

(** Whether a rescan only maintains the displacement of an unchanged block. *)
Definition rescan_unchanged (error_open : bool) (head : option ChildChainHead) (hash : bytes) : option ChildChainHead :=
  opt_filter (λ h, negb error_open && head_is_final h && bool_decide (hd_block_hash h = hash)) head.

Definition rescan_auxpow_height (fuel : nat) (height : Z) : sM (option RescanOutcome) :=
  with_height_lock height (
    hash ← observe_block_hash height;
    _ ← session;
    c ← gets (λ w, cache_of w.1);
    s ← gets store_view;
    head ← lift (load_child_chain_head hathor_sidecar_digest c s source height NoMarker);
    error_open ← (if retains_errors (failure_policy fam) then has_capture_error height else mret false);
    match rescan_unchanged error_open head hash with
    | Some head =>
        now ← on_env now_unix_secs;
        _ ← own_transaction (λ _ s, reobserve_child_chain_block_in_own_transaction s source height hash (current_parent head) now);
        mret (Some Unchanged)
    | None =>
        outcome ← process_locked_height fuel height hash;
        mret (RescanCaptured <$> outcome)
    end).

(** [ChainPoller::process_height] and [ChainPoller::rescan_height]. *)
Definition family_process_height (fuel : nat) (height : Z) : sM (option HeightProgress) :=
  outcome ← process_auxpow_height fuel height;
  mret (height_progress_for <$> outcome).
Definition family_rescan_height (fuel : nat) (height : Z) : sM (option HeightProgress) :=
  outcome ← rescan_auxpow_height fuel height;
  mret ((λ o, match o with Unchanged => Advance | RescanCaptured o => height_progress_for o end) <$> outcome).

(** ** Backfill *)

Definition auxpow_backfill_effect (outcome : HeightOutcome) : result anyhow BackfillHeightEffect :=
  match outcome with
  | AuxpowWritten => Ok EffAuxpowWritten
  | NonAuxpowSkipped => Ok EffNonAuxpowSkipped
  | NonBitcoinParent => Ok EffNonBitcoinParent
  | MalformedSkipped => Ok EffMalformedSkipped
  | MalformedHeld => Ok EffMalformedHeld
  | LineagePending => Err lineage_pending_error
  end.

Definition ensure_backfill_complete (summary : BackfillSummary) : result anyhow unit :=
  ensure (malformed_held summary =? 0) (Other "backfill is incomplete: heights hold an unresolved capture error").

Definition backfill_height (fuel : nat) (height : Z) : sM (option BackfillHeightEffect) :=
  outcome ← process_auxpow_height fuel height;
  match outcome with
  | Some outcome => effect ← lift (auxpow_backfill_effect outcome); mret (Some effect)
  | None => mret None
  end.

(** The bootstrap of the context and the repair of the read model are the caller's. *)
Definition run_auxpow_backfill (fuel : nat) (config : BackfillConfig) (bootstrap repair : sM unit) : sM (option unit) :=
  _ ← on_env (ensure_mainnet_endpoint fam);
  chain_tip ← on_env (on_err (Context "get tip before backfill") get_block_count);
  _ ← lift (validate_against_tip config chain_tip);
  _ ← bootstrap;
  summary ← run_delayed_backfill_range (backfill_height fuel) config;
  match summary with
  | None => mret None
  | Some summary =>
      _ ← repair;
      _ ← lift (ensure_backfill_complete summary);
      mret (Some ())
  end.
End family.

(** ** The environment along the operations of the read model *)

(** A step moves the environment along [R], whatever it does to the read model. *)
Definition env_moves {W} (R : W → W → Prop) (w w' : W * ReadModel) : Prop := R w.1 w'.1.
#[global] Instance env_moves_preorder {W} (R : W → W → Prop) `{!PreOrder R} : PreOrder (env_moves R).
Proof. split; [intros w; unfold env_moves; reflexivity|]. intros a b c Hab Hbc. unfold env_moves in *. by etrans. Qed.

Section env_moves.
Context `{BitcoinLib} {W : Type} `{CoreHeaderSource W} `{Clock W} `{ReadModelSession W}.
Context (R : W → W → Prop) `{!PreOrder R} `{!QuietCalls R}.
Context (lookup : bytes → option InvalidBlock) (resolve_pool : bytes → option bytes → option Z).
Context (classifier : ConfiguredParentClassifier).
#[local] Abbreviation sM := (stM (W * ReadModel) anyhow).
#[local] Instance moves_preorder : PreOrder (env_moves R) := env_moves_preorder R.
Context (session_moves : steps (env_moves R) (session : sM _)).
#[local] Hint Resolve steps_guard session_moves : steps.

Lemma on_env_moves {A} (m : stM W anyhow A) : steps R m → steps (env_moves R) (on_env m).
Proof. intros Hm w. specialize (Hm w.1). unfold on_env, env_moves. by destruct (m w.1). Qed.
#[local] Hint Resolve on_env_moves env_commit : steps.
Lemma put_tables_moves db : steps (env_moves R) (put_tables db : sM _).
Proof. intros w. unfold env_moves. simpl. reflexivity. Qed.
#[local] Hint Resolve put_tables_moves : steps.
Lemma commit_tables_moves db : steps (env_moves R) (commit_tables db : sM _).
Proof.
  unfold commit_tables. apply steps_bind; [apply _|apply steps_on_err, on_env_moves, env_commit|]. intros _.
  intros w. unfold env_moves. simpl. reflexivity.
Qed.
#[local] Hint Resolve commit_tables_moves : steps.

Lemma reconcile_written_moves i pre wrapper :
  steps (env_moves R) (reconcile_written lookup resolve_pool classifier i pre wrapper).
Proof.
  unfold reconcile_written.
  pose proof (λ b a, on_env_moves _ (reconcile_env R lookup resolve_pool classifier b a i pre wrapper None)) as Hr. solve_steps.
Qed.
Lemma attempts_env_moves n i pre strict :
  steps (env_moves R) (reconcile_attempts lookup resolve_pool classifier None n i pre strict no_settle).
Proof.
  revert pre. induction n as [|n IH]; intros pre; simpl; [solve_steps|]. unfold tables, no_settle.
  pose proof (λ b a p, on_env_moves _ (reconcile_env R lookup resolve_pool classifier b a i p None None)) as Hr.
  pose proof (λ db, on_env_moves _ (preclassify_env R lookup classifier db i strict)) as Hp. solve_steps.
Qed.
Lemma reconcile_block_moves hash strict :
  steps (env_moves R) (reconcile_one_block_with_policy lookup resolve_pool classifier None hash strict no_settle).
Proof.
  unfold reconcile_one_block_with_policy, tables, no_settle. pose proof attempts_env_moves as Hr. solve_steps.
Qed.
Lemma enqueue_env_moves hashes st : steps (env_moves R) (enqueue_all hashes st : sM _).
Proof.
  revert st. induction hashes as [|h hs IH]; intros st; simpl; [solve_steps|]. unfold enqueue_dependents, tables. solve_steps.
Qed.
Lemma cascade_moves fuel budget st : steps (env_moves R) (cascade_loop lookup resolve_pool classifier None fuel budget st).
Proof.
  revert st. induction fuel as [|fuel IH]; intros st; simpl; [solve_steps|].
  pose proof attempts_env_moves as Ha. pose proof reconcile_block_moves as Hb. pose proof enqueue_env_moves as He.
  destruct (cs_queue st) as [|work queue]; [solve_steps|].
  destruct (match budget with Some b => _ | None => _ end); [solve_steps|].
  destruct (was_visited st work); [exact (IH _)|].
  apply steps_bind; [apply _| |solve_steps]. destruct work; solve_steps.
Qed.
Lemma cascade_changed_moves fuel changed : steps (env_moves R) (cascade_changed lookup resolve_pool classifier fuel changed).
Proof.
  pose proof enqueue_env_moves as He. pose proof cascade_moves as Hc.
  unfold cascade_changed, reconcile_dependents_after_changes, drain_reconcile_queue. solve_steps.
Qed.
End env_moves.

(** ** The head and the error of a height *)

Class FamilyTablesLaws (W : Type) `{CaptureTables W} `{FamilyTables W} := {
  errors_of_set t w : errors_of (set_errors t w) = t;
  store_of_set_errors t w : store_of (set_errors t w) = store_of w;
  cache_of_set_errors t w : cache_of (set_errors t w) = cache_of w;
  errors_of_set_store s w : errors_of (set_store s w) = errors_of w;
  cache_of_set_store s w : cache_of (set_store s w) = cache_of w;
}.

Section at_height.
Context {W : Type} `{CaptureTables W} `{FamilyTables W} (source height : Z).

Definition head_at (w : W) : option HeadRow := sd_heads (store_of w) !! (source, height).
Definition error_at (w : W) : option CaptureErrorRow := errors_of w !! (source, height).
Definition cached (w : W) : Prop := is_Some (cd_state (cache_of w)).

(** The error of the height stays, and so does the state of the header cache. *)
Definition error_kept (w w' : W) : Prop := error_at w' = error_at w ∧ (cached w → cached w').
(** Others leave the head of a locked height alone too. *)
Definition quiet_at (w w' : W) : Prop := head_at w' = head_at w ∧ error_kept w w'.

#[global] Instance error_kept_preorder : PreOrder error_kept.
Proof. split; [by intros w|]. intros a b c [] []. split; [congruence|tauto]. Qed.
#[global] Instance quiet_at_preorder : PreOrder quiet_at.
Proof. split; [by intros w|]. intros a b c [H1 H2] [H3 H4]. split; [congruence|by etrans]. Qed.
Lemma quiet_error_kept {A} (m : stM W anyhow A) : steps quiet_at m → steps error_kept m.
Proof. intros Hm w. apply Hm. Qed.
Lemma env_quiet_error_kept {A} (m : stM (W * ReadModel) anyhow A) :
  steps (env_moves quiet_at) m → steps (env_moves error_kept) m.
Proof. intros Hm w. apply Hm. Qed.
End at_height.

Section capture_head.
Context `{BitcoinLib} {W : Type} `{CoreHeaderSource W} `{Clock W} `{ReadModelSession W} `{CaptureTables W} `{FamilyTables W}.
Context `{!CaptureTablesLaws W} `{!FamilyTablesLaws W} (source height : Z).
#[local] Abbreviation quiet := (quiet_at (W := W) source height).
#[local] Abbreviation kept := (error_kept (W := W) source height).
Context `{!QuietCalls quiet}.
Context (lookup : bytes → option InvalidBlock) (resolve_pool : bytes → option bytes → option Z).
Context (classifier : ConfiguredParentClassifier).
#[local] Abbreviation sM := (stM (W * ReadModel) anyhow).
Context (session_quiet : steps (env_moves quiet) (session : sM _)).
#[local] Instance quiet_moves : PreOrder (env_moves quiet) := env_moves_preorder quiet.
#[local] Instance kept_moves : PreOrder (env_moves kept) := env_moves_preorder kept.
#[local] Hint Resolve steps_guard session_quiet : steps.

Lemma session_kept : steps (env_moves kept) (session : sM _).
Proof. apply env_quiet_error_kept, session_quiet. Qed.
#[local] Hint Resolve session_kept : steps.

Lemma put_store_kept s : steps (env_moves kept) (put_store s : sM _).
Proof.
  intros w. unfold env_moves, error_kept, error_at, cached. simpl. by rewrite errors_of_set_store, cache_of_set_store.
Qed.
#[local] Hint Resolve put_store_kept : steps.
Lemma put_store_quiet s (w : W * ReadModel) : sd_heads s !! (source, height) = head_at source height w.1 →
  env_moves quiet w (put_store s w).2.
Proof. intros Hs. split; [|apply put_store_kept]. unfold head_at. simpl. by rewrite store_of_set. Qed.

Lemma restore_quiet w w' : env_moves kept w w' → env_moves quiet w (restore w w').
Proof.
  intros [He Hc]. unfold env_moves, quiet_at, error_kept, head_at, error_at, cached in *. simpl.
  by rewrite store_of_set, errors_of_set_store, cache_of_set_store.
Qed.

Lemma transaction_kept {A} (m : sM (bool * A)) : steps (env_moves kept) m → steps (env_moves kept) (transaction m).
Proof.
  intros Hm w. specialize (Hm w). unfold transaction. destruct (m w) as [[[[] a]|e] w1]; simpl in *;
    try apply (restore_quiet w w1 Hm).
  pose proof (on_env_moves quiet commit env_commit w1) as [_ Hc].
  destruct (on_env commit w1) as [[u|e] w2]; simpl in *; [by etrans|]. apply (restore_quiet w w2). by etrans.
Qed.

(** A transaction that answers was committed by its body or rolled back. *)
Lemma transaction_answers {A} (m : sM (bool * A)) w a w' : steps (env_moves kept) m → transaction m w = (Ok a, w') →
  ∃ b w1, m w = (Ok (b, a), w1) ∧ head_at source height w'.1 = head_at source height (if b : bool then w1.1 else w.1).
Proof.
  intros Hm. specialize (Hm w). unfold transaction. destruct (m w) as [[[[] a1]|e] w1]; simpl in *; [| |done].
  - pose proof (on_env_moves quiet commit env_commit w1) as [Hc _].
    destruct (on_env commit w1) as [[u|e] w2]; simpl in *; [|done]. intros [= <- <-]. by exists true, w1.
  - intros [= <- <-]. exists false, w1. split; [done|]. apply (restore_quiet w w1 Hm).
Qed.

(** ** The head through a capture *)

Lemma retract_quiet p : steps (env_moves quiet) (retract_child_block lookup resolve_pool source p).
Proof.
  unfold retract_child_block. destruct (p_child_block_hash p) as [hash|]; [|solve_steps]. cbv zeta.
  intros w. unfold mbind at 1, stM_bind at 1, gets at 1. simpl.
  destruct (child_block_is_counted _ _ _ _ _); simpl.
  - match goal with |- env_moves _ _ (?m w).2 => assert (steps (env_moves quiet) m) as Hm; [|exact (Hm w)] end.
    apply steps_bind; [apply _|solve_steps|]. intros _.
    apply steps_bind; [apply _|solve_steps|]. intros db. clear w. intros w.
    unfold mbind at 1 2 3 4, stM_bind at 1 2 3 4, gets at 1, lift at 1 2. simpl.
    destruct (delete_child_block_events _ _ _ _ _) as [[n s1]|e] eqn:Hd; [|reflexivity]. simpl.
    destruct (upsert_child_only_observation s1 _ _) as [[o s2]|e] eqn:Hu; [|reflexivity]. simpl.
    match goal with |- env_moves _ _ (?m ?w1).2 => assert (steps (env_moves quiet) m) as Hm; [|etrans; [|exact (Hm w1)]] end.
    { pose proof (put_tables_moves quiet) as Hp. solve_steps. }
    apply (put_store_quiet s2 w). apply delete_child_block_heads in Hd. apply child_only_heads in Hu.
    by rewrite Hu, Hd.
  - unfold mbind at 1 2, stM_bind at 1 2, lift. simpl.
    destruct (upsert_child_only_observation _ _ _) as [[o s2]|e] eqn:Hu; simpl; [|reflexivity].
    apply (put_store_quiet s2 w). apply child_only_heads in Hu. by rewrite Hu.
Qed.

Context (upsert : CacheDb → StoreDb → Z → MergeMiningEventPayload → result anyhow (CaptureWrite * StoreDb)).

Lemma capture_attempt_kept retry p : steps (env_moves kept) (capture_attempt lookup resolve_pool classifier source upsert retry p).
Proof.
  unfold capture_attempt, or_retry.
  pose proof (env_quiet_error_kept source height _ (retract_quiet p)) as Hret.
  pose proof (λ db, env_quiet_error_kept source height _ (on_env_moves quiet _ (classify_payload_env quiet lookup classifier db p))) as Hcl.
  pose proof (λ i pre wr, env_quiet_error_kept source height _
    (reconcile_written_moves quiet lookup resolve_pool classifier session_quiet i pre wr)) as Hre.
  solve_steps.
Qed.

(** The head a capture leaves: the one its write recorded, or the old one. *)
Definition captured_head (p : MergeMiningEventPayload) (outcome : CaptureOutcome) (w w' : W) : Prop :=
  match outcome with
  | Written write => ∃ c s p' s1, is_Some (cd_state c) ∧ p_hash p' = p_hash p ∧
      upsert c s source p' = Ok (write, s1) ∧ head_at source height w' = sd_heads s1 !! (source, height)
  | _ => head_at source height w' = head_at source height w
  end.

Lemma moved_kept {A} (m : sM A) w r w' : steps (env_moves kept) m → m w = (r, w') → cached w.1 → cached w'.1.
Proof. intros Hm Hw. specialize (Hm w). rewrite Hw in Hm. by destruct Hm as [_ Hc]. Qed.
Lemma moved_head {A} (m : sM A) w r w' : steps (env_moves quiet) m → m w = (r, w') →
  head_at source height w'.1 = head_at source height w.1.
Proof. intros Hm Hw. specialize (Hm w). rewrite Hw in Hm. by destruct Hm as [Hh _]. Qed.

Lemma put_store_head s w u w' : put_store s w = (Ok u, w') → head_at source height w'.1 = sd_heads s !! (source, height).
Proof. unfold put_store. intros ->%st_modify_Ok. unfold head_at. simpl. by rewrite store_of_set. Qed.

(** The end of an attempt, once the event is written. *)
Lemma written_head write s1 retry pre wr w b outcome ch w' :
  or_retry retry
    (changed ← match write with
               | WroteEvent o => reconcile_written lookup resolve_pool classifier (ow_event_id o) pre wr
               | WroteNear _ => mret []
               end;
     mret (Written write, changed)) (λ a, mret (true, Some a)) w = (Ok (b, Some (outcome, ch)), w') →
  head_at source height w.1 = sd_heads s1 !! (source, height) →
  b = true ∧ outcome = Written write ∧ head_at source height w'.1 = sd_heads s1 !! (source, height).
Proof.
  intros Ha Hh. unfold or_retry in Ha. apply st_bind_Ok in Ha as (r & w1 & Hr & Ha).
  apply (proj1 (st_attempt_Ok _ _ _ _)) in Hr.
  destruct r as [a|e]; [|destruct (_ && _); by st_inv]. apply st_ret_Ok in Ha as [[= -> <-] ->].
  apply st_bind_Ok in Hr as (changed & w2 & Hre & [[= -> ->] ->]%st_ret_Ok). split_and!; [done|done|]. rewrite <-Hh.
  destruct write as [o|o]; [|by apply st_ret_Ok in Hre as [_ ->]].
  by apply (moved_head _ _ _ _ (reconcile_written_moves quiet lookup resolve_pool classifier session_quiet _ _ _) Hre).
Qed.

Lemma capture_attempt_head retry p w b outcome ch w' : cached w.1 →
  capture_attempt lookup resolve_pool classifier source upsert retry p w = (Ok (b, Some (outcome, ch)), w') →
  if b : bool then captured_head p outcome w.1 w'.1 else match outcome with Written _ => False | _ => True end.
Proof.
  intros Hca Ha. unfold capture_attempt in Ha.
  apply st_bind_Ok in Ha as (u1 & w1 & Hs1 & Ha). apply st_bind_Ok in Ha as (u2 & w2 & Hs2 & Ha).
  assert (cached w2.1) as Hc2 by eauto using moved_kept, session_kept.
  assert (head_at source height w2.1 = head_at source height w.1) as Hh2.
  { rewrite (moved_head _ _ _ _ session_quiet Hs2). by rewrite (moved_head _ _ _ _ session_quiet Hs1). }
  apply st_bind_Ok in Ha as (db & w3 & [-> ->]%st_gets_Ok & Ha).
  apply st_bind_Ok in Ha as (env & w4 & [-> ->]%st_gets_Ok & Ha).
  apply st_bind_Ok in Ha as (refused & w5 & [Href ->]%st_lift_Ok & Ha).
  destruct refused as [[write|reason g|reason]|].
  - by apply refuse_parent_Some in Href.
  - apply st_bind_Ok in Ha as (ch' & w6 & Hret & Ha). apply st_ret_Ok in Ha as [[= -> -> ->] ->]. simpl.
    by rewrite (moved_head _ _ _ _ (retract_quiet p) Hret).
  - by apply st_ret_Ok in Ha as [[= -> -> ->] ->].
  - apply st_bind_Ok in Ha as ([pre p'] & w6 & Hcl & Ha).
    pose proof (moved_kept _ _ _ _ (env_quiet_error_kept source height _
      (on_env_moves quiet _ (classify_payload_env quiet lookup classifier w2.2 p))) Hcl Hc2) as Hc6.
    unfold on_env in Hcl. destruct (classify_payload_parent _ _ _ _ _) as [r we] eqn:Hc. injection Hcl as -> _.
    apply classify_payload_hash in Hc as [Hh Hp].
    apply st_bind_Ok in Ha as (u3 & w7 & Hs3 & Ha). pose proof (moved_kept _ _ _ _ session_kept Hs3 Hc6) as Hc7.
    apply st_bind_Ok in Ha as (c & w8 & [-> ->]%st_gets_Ok & Ha). apply st_bind_Ok in Ha as (s & w9 & [-> ->]%st_gets_Ok & Ha).
    apply st_bind_Ok in Ha as ([write s1] & w10 & [Hu ->]%st_lift_Ok & Ha). apply st_bind_Ok in Ha as (u4 & w11 & Hput & Ha).
    apply (written_head write s1) in Ha as (-> & -> & Hw'); [|by apply put_store_head in Hput]. simpl.
    exists (cache_of w7.1), (store_view w7), p', s1. by split_and!.
Qed.

Lemma capture_attempts_head n p w outcome ch w' : cached w.1 →
  capture_attempts lookup resolve_pool classifier n source upsert p w = (Ok (outcome, ch), w') →
  env_moves kept w w' ∧ captured_head p outcome w.1 w'.1.
Proof.
  revert w. induction n as [|n IH]; intros w Hca Ha; simpl in Ha; [done|].
  apply st_bind_Ok in Ha as (r & w1 & Ht & Ha). pose proof (capture_attempt_kept (negb (n =? 0)%nat) p) as Hk.
  pose proof (transaction_kept _ Hk w) as Hk1. rewrite Ht in Hk1. simpl in Hk1.
  pose proof Ht as (b & w2 & Hatt & Hh)%(transaction_answers _ _ _ _ Hk). destruct r as [[out c]|].
  - apply st_ret_Ok in Ha as [[= -> ->] ->]. split; [done|]. apply capture_attempt_head in Hatt; [|done]. destruct b.
    + unfold captured_head in *. destruct out; [|by rewrite Hh..].
      destruct Hatt as (c' & s & p' & s1 & Hc & Hp & Hu & Hs). exists c', s, p', s1. by rewrite Hh.
    + by destruct out.
  - apply capture_attempt_retry in Hatt as ->. destruct (IH w1) as [Hk2 Hcap]; [by apply Hk1|done|].
    split; [by etrans|]. unfold captured_head in *. destruct outcome; [done|by rewrite Hcap..].
Qed.

Lemma capture_event_head fuel p w outcome w' : cached w.1 →
  capture_in_txn lookup resolve_pool classifier fuel source upsert p w = (Ok (Some outcome), w') →
  env_moves kept w w' ∧ captured_head p outcome w.1 w'.1.
Proof.
  intros Hca Hc. unfold capture_in_txn, capture_event in Hc. apply st_bind_Ok in Hc as ([out ch] & w1 & Hat & Hc).
  apply st_bind_Ok in Hc as (d & w2 & Hcas & Hc). apply st_ret_Ok in Hc as [Hd ->].
  destruct d as [u|]; [|done]. injection Hd as ->. apply capture_attempts_head in Hat as [Hk Hcap]; [|done].
  pose proof (cascade_changed_moves quiet lookup resolve_pool classifier session_quiet fuel ch w1) as Hm.
  rewrite Hcas in Hm. destruct Hm as [Hh Hk2]. split; [by etrans|].
  unfold captured_head in *. simpl in Hh. destruct out; [|by rewrite Hh..].
  destruct Hcap as (c' & s & p' & s1 & Hc' & Hp & Hu & Hs). exists c', s, p', s1. by rewrite Hh.
Qed.
End capture_head.

Section own.
Context {W : Type} `{CoreHeaderSource W} `{Clock W} `{ReadModelSession W} `{CaptureTables W} `{FamilyTables W}.
Context `{!CaptureTablesLaws W} `{!FamilyTablesLaws W} (source height : Z).
#[local] Abbreviation quiet := (quiet_at (W := W) source height).
#[local] Abbreviation kept := (error_kept (W := W) source height).
Context `{!QuietCalls quiet}.
#[local] Abbreviation sM := (stM (W * ReadModel) anyhow).
Context (session_quiet : steps (env_moves quiet) (session : sM _)).
#[local] Instance own_kept_moves : PreOrder (env_moves kept) := env_moves_preorder kept.

(** A statement in a transaction of its own leaves the head it computed. *)
Lemma own_transaction_head f (w : W * ReadModel) u w' : cached w.1 → own_transaction f w = (Ok u, w') →
  env_moves kept w w' ∧ ∃ c s out s', is_Some (cd_state c) ∧ f c s = Ok (out, s') ∧
    sd_heads s !! (source, height) = head_at source height w.1 ∧
    head_at source height w'.1 = sd_heads s' !! (source, height).
Proof.
  intros Hca Ho. unfold own_transaction in Ho.
  match type of Ho with transaction ?m _ = _ => assert (steps (env_moves kept) m) as Hk end.
  { pose proof (session_kept source height session_quiet) as Hs. pose proof (put_store_kept source height) as Hp. solve_steps. }
  pose proof (transaction_kept source height _ Hk w) as Hk1. rewrite Ho in Hk1. split; [exact Hk1|].
  apply (transaction_answers source height _ _ _ _ Hk) in Ho as (b & w1 & Hb & Hh).
  apply st_bind_Ok in Hb as (u1 & w2 & Hs & Hb). pose proof (session_quiet w) as Hq. rewrite Hs in Hq.
  destruct Hq as [Hh2 [_ Hc2]]. simpl in *.
  apply st_bind_Ok in Hb as (c & w3 & [-> ->]%st_gets_Ok & Hb). apply st_bind_Ok in Hb as (s & w4 & [-> ->]%st_gets_Ok & Hb).
  apply st_bind_Ok in Hb as ([out s'] & w5 & [Hf ->]%st_lift_Ok & Hb). apply st_bind_Ok in Hb as (u2 & w6 & Hp & Hb).
  apply st_ret_Ok in Hb as [[= -> ->] ->]. apply (put_store_head source height) in Hp.
  exists (cache_of w2.1), (store_view w2), out, s'. split_and!; [by apply Hc2|done|by rewrite <-Hh2|by rewrite Hh].
Qed.
End own.

(** The closure of a height runs two statements of the store: the capture write, event or near,
    and the record of the head. *)
Lemma write_and_record_producer meets digest height hash now : producer meets (write_and_record digest height hash now).
Proof.
  intros c s source p a s' Hp Hw. unfold write_and_record in Hw. apply bind_Ok in Hw as ([w s1] & Hw & Hr).
  apply bind_Ok in Hr as ([d s2] & Hr & [= <- <-]).
  eapply rtc_l; [by eapply write_captured|]. eapply rtc_once. by eapply write_headed.
Qed.

(** ** Which block is recorded *)

Section authentic.
Context `{BitcoinLib}.

(** The strategies that check the block against the hash the daemon was asked for. *)
Definition authenticates (f : FetchStrategy) : bool :=
  match f with RawBlock (StrictClassic _ _) | QbitExtendedHeader _ => true | _ => false end.

Lemma verified_classic_hash raw h t cid b :
  parse_verified_classic_block raw h t cid = Ok (AuxpowBlock b) → ParsedHeader_hash (child_header b) = h.
Proof.
  unfold parse_verified_classic_block. intros Hp. apply bind_Ok in Hp as ([header prefix] & _ & Hp).
  apply bind_Ok in Hp as ([] & Hh%ensure_Ok & Hp). apply bool_decide_eq_true in Hh.
  destruct prefix as [[auxpow off]|]; [|done].
  do 3 apply bind_Ok in Hp as ([] & _ & Hp). cbv zeta in Hp. apply bind_Ok in Hp as (child & _ & Hp).
  apply bind_Ok in Hp as ([] & _ & Hp). apply bind_Ok in Hp as (proof & Hat & Hp).
  do 2 apply bind_Ok in Hp as ([] & _ & Hp). injection Hp as <-.
  unfold attach_child_block_coinbase in Hat. apply bind_Ok in Hat as ([] & _ & Hat). injection Hat as <-. exact Hh.
Qed.

Lemma take_prefix (n : nat) (raw : bytes) : (HEADER_SIZE ≤ length (take n raw))%nat →
  slice 0 HEADER_SIZE (take n raw) = take HEADER_SIZE raw.
Proof.
  unfold slice. rewrite Nat.sub_0_r, length_take. intros Hn. change (drop 0 ?l) with l. rewrite take_take. f_equal. lia.
Qed.

Lemma qbit_block_hash raw t b prefix hd : parse_qbit_block raw t = Ok (Some b) → header_prefix raw = Some prefix →
  deserialize_header prefix = Some hd → ph_header (q_child_header (qb_proof b)) = hd.
Proof.
  intros Hp Hpre Hhd. unfold parse_qbit_block in Hp. apply bind_Ok in Hp as (ext & Hext & Hp).
  apply bind_Ok in Hp as (parsed & Hpar & Hp). destruct parsed as [|proof]; [done|].
  apply bind_Ok in Hp as (cb & _ & Hp). apply bind_Ok in Hp as (nh & _ & Hp). apply bind_Ok in Hp as ([] & _ & [= <-]). simpl.
  assert (∃ n, ext = take n raw) as [n ->].
  { unfold qbit_extended_header_prefix in Hext. res_pairs. destruct (negb _); res_pairs; eauto. }
  unfold header_prefix in Hpre. destruct (HEADER_SIZE <=? length raw)%nat; [|done]. injection Hpre as <-.
  unfold parse_qbit_extended_header in Hpar. apply bind_Ok in Hpar as ([] & Hlen%ensure_Ok & Hpar).
  apply bool_decide_eq_true in Hlen. rewrite take_prefix in Hpar by done.
  apply bind_Ok in Hpar as (ch & Hch%with_context_Ok & Hpar). unfold parse_header in Hch. res_inv.
  rewrite Hhd in *. simplify_eq. res_pairs. destruct (negb _); res_pairs; done.
Qed.

Context {W : Type} `{BitcoindRpc W}.

(** The header of a candidate with a proof. *)
Definition candidate_hash (f : AuxpowFetch) : option bytes :=
  match f with
  | FetchClassic b => Some (ParsedHeader_hash (child_header b))
  | FetchQbit b => Some (ParsedHeader_hash (q_child_header (qb_proof b)))
  | _ => None
  end.

(** The hash of the Bitcoin header in that proof. *)
Definition candidate_parent (f : AuxpowFetch) : option bytes :=
  match f with
  | FetchClassic b => Some (ParsedHeader_hash (parent_header b))
  | FetchQbit b => Some (ParsedHeader_hash (q_parent_header (qb_proof b)))
  | _ => None
  end.

(** The block and the parent of a head are those of the candidate: of its proof, or, for a
    candidate without one, the block the daemon was asked for. *)
Definition head_names (hash : bytes) (f : AuxpowFetch) (row : HeadRow) : Prop :=
  ch_block_hash row = default hash (candidate_hash f) ∧ ch_parent row = candidate_parent f.

(** The outcomes each kind of candidate can have. *)
Definition candidate_outcome (policy : CaptureFailurePolicy) (f : AuxpowFetch) (outcome : HeightOutcome) : Prop :=
  match f with
  | FetchClassic _ | FetchQbit _ => outcome ∈ [AuxpowWritten; NonBitcoinParent; LineagePending]
  | FetchNonAuxpow _ => outcome = NonAuxpowSkipped
  | FetchMalformed _ _ => outcome = if retains_errors policy then MalformedHeld else MalformedSkipped
  end.

Lemma fetch_authentic fam hash t (w : W) f w' k : authenticates (fs_fetch fam) = true →
  fetch_auxpow_candidate fam hash t w = (Ok f, w') → candidate_hash f = Some k → k = hash.
Proof.
  unfold fetch_auxpow_candidate. destruct (fs_fetch fam) as [[|g cid]|v|g]; try done; intros _ Hf Hk.
  - unfold fetch_raw_block_candidate in Hf. apply st_bind_Ok in Hf as (raw & w1 & _ & Hf). apply st_ret_Ok in Hf as [-> _].
    destruct (parse_verified_classic_block _ _ _ _) as [[h|b]|e] eqn:Hp; simplify_eq/=. by apply verified_classic_hash in Hp.
  - unfold fetch_qbit_candidate in Hf. apply st_bind_Ok in Hf as (raw & w1 & _ & Hf).
    apply st_bind_Ok in Hf as ([] & w2 & _ & Hf). destruct (header_prefix raw) as [prefix|] eqn:Hpre; [|by st_inv].
    destruct (deserialize_header prefix) as [hd|] eqn:Hhd; [|by st_inv].
    apply st_bind_Ok in Hf as ([] & w3 & [Hpl _]%st_lift_Ok & Hf). apply st_ret_Ok in Hf as [-> _].
    unfold ensure_qbit_native_placement in Hpl. apply bind_Ok in Hpl as ([] & Hpl%ensure_Ok & _).
    apply bool_decide_eq_true in Hpl. destruct (parse_qbit_block _ _) as [[b|]|e] eqn:Hp; simplify_eq/=.
    unfold ParsedHeader_hash. by rewrite (qbit_block_hash _ _ _ _ _ Hp Hpre Hhd).
Qed.
End authentic.

(** ** What a processed height leaves *)

(** The calls to the daemon of the child chain move the environment along [R]. *)
Class QuietDaemon {W : Type} (R : W → W → Prop) `{BitcoindRpc W} := {
  env_block_hash h : steps R (rpc_block_hash h : stM W anyhow _);
  env_block_raw k : steps R (get_block_raw k : stM W anyhow _);
  env_header_blob k : steps R (get_header_with_auxpow k : stM W anyhow _);
}.
#[export] Hint Resolve env_block_hash env_block_raw env_header_blob : steps.

(** The outcome of a height, in the columns of its head. *)
Definition head_records (outcome : HeightOutcome) (row : HeadRow) : Prop :=
  match outcome with
  | AuxpowWritten => is_Some (ch_parent row) ∧ (ch_outcome row = "captured"%string ∨ ch_outcome row = "unverified"%string)
  | NonBitcoinParent => is_Some (ch_parent row) ∧ ch_outcome row = "recorded"%string
  | LineagePending => is_Some (ch_parent row) ∧ ch_outcome row = "held"%string
  | NonAuxpowSkipped => ch_parent row = None ∧ ch_outcome row = "non_auxpow"%string
  | MalformedSkipped => ch_parent row = None ∧ ch_outcome row = "unverified"%string
  | MalformedHeld => ch_parent row = None ∧ ch_outcome row = "held"%string
  end.

(** The error of a height before and after an outcome. *)
Definition error_follows (policy : CaptureFailurePolicy) (hash : bytes) (outcome : HeightOutcome)
    (before after : option CaptureErrorRow) : Prop :=
  match outcome with
  | MalformedHeld => retains_errors policy = true ∧ ∃ e, after = Some e ∧ er_kind e = CAPTURE_ERROR_MALFORMED_AUXPOW_PROOF ∧
      er_block_hash e = Some hash
  | MalformedSkipped => retains_errors policy = false ∧ after = before
  | LineagePending => after = before
  | AuxpowWritten | NonAuxpowSkipped | NonBitcoinParent => after = if retains_errors policy then None else before
  end.

Section outcomes.
Context `{BitcoinLib} {W : Type} `{CoreHeaderSource W} `{Clock W} `{ReadModelSession W} `{CaptureTables W}.
Context `{BitcoindRpc W} `{FamilyTables W} `{!CaptureTablesLaws W} `{!FamilyTablesLaws W}.
Context (lookup : bytes → option InvalidBlock) (resolve_pool : bytes → option bytes → option Z).
Context (classifier : ConfiguredParentClassifier) (serialize_txouts : list TxOut → bytes).
Context (digest : Z → Z → option Z).
Context (classic_pools : ParsedAuxpowBlock → list EventPoolAttribution).
Context (qbit_pools : ParsedQbitAuxpowBlock → list EventPoolAttribution).
Context (fam : FamilySpec) (source height : Z).
#[local] Abbreviation sM := (stM (W * ReadModel) anyhow).
#[local] Abbreviation quiet := (quiet_at (W := W) source height).
#[local] Abbreviation kept := (error_kept (W := W) source height).
#[local] Abbreviation head w := (head_at source height w.1).
#[local] Abbreviation err w := (error_at source height w.1).

(** While the lock of the height is held, calls, statements and other sessions leave its head
    and its error alone. *)
Context `{!QuietCalls quiet} `{!QuietDaemon quiet}.
Context (session_quiet : steps (env_moves quiet) (session : sM _)).
Context (unlock_quiet : steps (env_moves quiet) (unlock_height source height : sM _)).
#[local] Instance outcome_quiet : PreOrder (env_moves quiet) := env_moves_preorder quiet.
#[local] Instance outcome_kept : PreOrder (env_moves kept) := env_moves_preorder kept.

#[local] Abbreviation write_event := (write_event_in_txn lookup resolve_pool classifier digest source).

Lemma now_quiet : steps (env_moves quiet) (on_env now_unix_secs : sM Z).
Proof. apply on_env_moves, env_now. Qed.

(** A height and a hash of the payload are those of the head its capture leaves. *)
Lemma write_event_head fuel p (w : W * ReadModel) outcome w' k : cached w.1 →
  p_child_height p = Some height → p_child_block_hash p = Some k → write_event fuel p w = (Ok (Some outcome), w') →
  env_moves kept w w' ∧ outcome ∈ [AuxpowWritten; NonBitcoinParent; LineagePending] ∧
  ∃ row, head w' = Some row ∧ ch_block_hash row = k ∧ ch_parent row = Some (p_hash p) ∧ head_records outcome row.
Proof.
  intros Hca Hht Hk Hw. unfold write_event_in_txn in Hw.
  apply st_bind_Ok in Hw as (now & w1 & Hn & Hw). pose proof (now_quiet w) as Hq. rewrite Hn in Hq. destruct Hq as [_ Hk1].
  rewrite Hht, Hk in Hw. apply st_bind_Ok in Hw as (t & w2 & [[= <-] ->]%st_lift_Ok & Hw).
  apply st_bind_Ok in Hw as (k' & w2 & [[= <-] ->]%st_lift_Ok & Hw).
  apply st_bind_Ok in Hw as (captured & w2 & Hc & Hw). destruct captured as [captured|]; [|by st_inv].
  apply (capture_event_head source height lookup resolve_pool classifier session_quiet) in Hc as [Hk2 Hcap]; [|by apply Hk1].
  cbv zeta in Hw. destruct captured as [write|reason g|reason].
  { apply st_ret_Ok in Hw as [[= ->] ->]. split; [by etrans|]. split; [set_solver|].
    destruct Hcap as (c & s & p' & s1 & [st Hst] & Hp & Hu & Hh). unfold write_and_record in Hu.
    apply bind_Ok in Hu as ([wr s2] & Hwr & Hu). apply bind_Ok in Hu as ([d s3] & Hr & [= _ <-]).
    rewrite (record_heads _ _ _ _ _ _ _ _ _ Hr Hst), lookup_insert_eq in Hh. eexists. split; [exact Hh|]. split; [done|].
    split; [by rewrite <-Hp|]. split; [by eexists|]. simpl. destruct (p_provisional p'); [by right|by left]. }
  all: apply st_bind_Ok in Hw as (u & w3 & Hown & Hw); apply st_ret_Ok in Hw as [[= ->] ->].
  all: apply (own_transaction_head source height session_quiet) in Hown as [Hk3 (c & s & out & s' & [st Hst] & Hr & _ & Hh)];
      [|by apply Hk2, Hk1].
  all: split; [by do 2 (etrans; [eassumption|])|]; split; [set_solver|].
  all: rewrite (record_own_heads _ _ _ _ _ _ _ _ _ _ Hr Hst), lookup_insert_eq in Hh.
  all: eexists; split; [exact Hh|]; split; [done|]; split; [done|]; split; [by eexists|done].
Qed.

Lemma attach_child_header hash parsed (w : W) parsed' w' :
  attach_child_payout_if_needed fam hash parsed w = (Ok parsed', w') →
  child_header parsed' = child_header parsed ∧ parent_header parsed' = parent_header parsed.
Proof.
  unfold attach_child_payout_if_needed. destruct (fs_fetch fam); [by st_inv; intros; st_inv| |by st_inv; intros; st_inv].
  destruct (fs_child_payout fam); [|by intros Ha; st_inv].
  intros Ha. apply st_bind_Ok in Ha as (raw & w1 & _ & Ha). apply st_bind_Ok in Ha as (child & w2 & _ & Ha).
  apply st_on_err_Ok, st_lift_Ok in Ha as [Ha _]. apply map_err_Ok in Ha. unfold attach_child_block_coinbase in Ha. by res_inv.
Qed.

Lemma attach_quiet hash parsed : steps quiet (attach_child_payout_if_needed fam hash parsed : stM W anyhow _).
Proof. unfold attach_child_payout_if_needed. solve_steps. Qed.
Lemma fetch_quiet hash : steps quiet (fetch_auxpow_candidate fam hash height : stM W anyhow _).
Proof.
  unfold fetch_auxpow_candidate, fetch_raw_block_candidate, fetch_header_blob_candidate, fetch_qbit_candidate.
  pose proof (λ c, steps_guard quiet c : ∀ e : anyhow, _) as Hg. solve_steps.
Qed.

(** The child block a payload of the family names. *)
Lemma classic_payload_child parsed pools now p :
  build_event_payload lookup serialize_txouts parsed (Some height) pools ClassificationProof_default now = Ok p →
  p_child_height p = Some height ∧ p_child_block_hash p = Some (ParsedHeader_hash (child_header parsed)) ∧
  p_hash p = ParsedHeader_hash (parent_header parsed).
Proof.
  unfold build_event_payload, namecoin_evidence. simpl. intros Hp. res_inv.
  unfold build_event_payload_from_evidence in *. destruct (invalid_block_proof _ _ _ _). by res_inv.
Qed.
Lemma qbit_payload_child block pools now p :
  build_event_payload_from_evidence lookup (qbit_evidence serialize_txouts block height) pools ClassificationProof_default now = Ok p →
  p_child_height p = Some height ∧ p_child_block_hash p = Some (ParsedHeader_hash (q_child_header (qb_proof block))) ∧
  p_hash p = ParsedHeader_hash (q_parent_header (qb_proof block)).
Proof. unfold build_event_payload_from_evidence. destruct (invalid_block_proof _ _ _ _). intros Hp. by res_inv. Qed.

Lemma record_error_at t hash kind detail now (w : W * ReadModel) u w' : t = height →
  record_capture_error source t hash kind detail now w = (Ok u, w') →
  head w' = head w ∧ (cached w.1 → cached w'.1) ∧ ∃ e, err w' = Some e ∧ er_kind e = kind ∧ er_block_hash e = hash.
Proof.
  intros ->. unfold record_capture_error. intros Hr. apply st_bind_Ok in Hr as (u1 & w1 & Hs & Hr).
  pose proof (session_quiet w) as Hq. rewrite Hs in Hq. destruct Hq as [Hh [He Hc]]. apply st_modify_Ok in Hr as ->.
  unfold head_at, error_at, cached in *. simpl in *. rewrite store_of_set_errors, cache_of_set_errors, errors_of_set.
  split_and!; [done|done|]. unfold upsert_capture_error. rewrite lookup_insert_eq. eexists. split; [reflexivity|].
  by destruct (errors_of w1.1 !! (source, height)).
Qed.

(** The error of a malformed block, before its head is recorded. *)
Definition malformed_follows (hash : bytes) (outcome : HeightOutcome) (w w' : W * ReadModel) : Prop :=
  match outcome with
  | MalformedHeld => retains_errors (failure_policy fam) = true ∧
      ∃ e, err w' = Some e ∧ er_kind e = CAPTURE_ERROR_MALFORMED_AUXPOW_PROOF ∧ er_block_hash e = Some hash
  | MalformedSkipped => retains_errors (failure_policy fam) = false ∧ err w' = err w
  | _ => err w' = err w
  end.

Lemma malformed_height hash detail w outcome w' : record_malformed_height fam source height hash detail w = (Ok outcome, w') →
  (outcome = MalformedSkipped ∨ outcome = MalformedHeld) ∧ malformed_follows hash outcome w w' ∧ (cached w.1 → cached w'.1).
Proof.
  unfold record_malformed_height, malformed_follows, retains_errors.
  assert (∀ w, (now ← on_env now_unix_secs;
    _ ← record_capture_error source height (Some hash) CAPTURE_ERROR_MALFORMED_AUXPOW_PROOF (Some detail) now;
    mret MalformedHeld) w = (Ok outcome, w') → outcome = MalformedHeld ∧ (cached w.1 → cached w'.1) ∧
    ∃ e, err w' = Some e ∧ er_kind e = CAPTURE_ERROR_MALFORMED_AUXPOW_PROOF ∧ er_block_hash e = Some hash) as Hheld.
  { clear w. intros w Hm. apply st_bind_Ok in Hm as (now & w1 & Hn & Hm). pose proof (now_quiet w) as Hq. rewrite Hn in Hq.
    destruct Hq as [_ [_ Hc1]]. apply st_bind_Ok in Hm as (u & w2 & Hr & Hm). apply st_ret_Ok in Hm as [-> ->].
    apply record_error_at in Hr as (_ & Hc2 & He); [|done]. split_and!; [done|auto|done]. }
  destruct (failure_policy fam).
  - intros [-> ->]%st_ret_Ok. rewrite bool_decide_true by done. split_and!; [by left|done|done|done].
  - intros (-> & Hc & He)%Hheld. rewrite bool_decide_false by done. split_and!; [by right|done|done|done].
  - intros (-> & Hc & He)%Hheld. rewrite bool_decide_false by done. split_and!; [by right|done|done|done].
Qed.

(** Either the event and the head are written, or the block has no event. *)
Definition candidate_written (hash : bytes) (f : AuxpowFetch) (outcome : HeightOutcome) (w w' : W * ReadModel) : Prop :=
  candidate_outcome (failure_policy fam) f outcome ∧
  match eventless_record outcome with
  | None => err w' = err w ∧ is_Some (candidate_hash f) ∧
      ∃ row, head w' = Some row ∧ head_records outcome row ∧ head_names hash f row
  | Some _ => candidate_hash f = None ∧ candidate_parent f = None ∧ malformed_follows hash outcome w w'
  end.

Lemma built_event_head fuel (build : Z → result anyhow MergeMiningEventPayload) k parent (w : W * ReadModel) o w' : cached w.1 →
  (∀ now p, build now = Ok p → p_child_height p = Some height ∧ p_child_block_hash p = Some k ∧ p_hash p = parent) →
  (now ← on_env now_unix_secs; p ← lift (build now); write_event fuel p) w = (Ok (Some o), w') →
  cached w'.1 ∧ ∀ hash f, candidate_hash f = Some k → candidate_parent f = Some parent → candidate_written hash f o w w'.
Proof.
  intros Hca Hb Hw. apply st_bind_Ok in Hw as (now & w1 & Hn & Hw).
  pose proof (now_quiet w) as Hq. rewrite Hn in Hq. destruct Hq as [_ [He1 Hc1]].
  apply st_bind_Ok in Hw as (p & w2 & [Hp ->]%st_lift_Ok & Hw). apply Hb in Hp as (Hp1 & Hp2 & <-).
  apply (write_event_head _ _ _ _ _ _ (Hc1 Hca) Hp1 Hp2) in Hw as ([He2 Hc2] & Hin & row & Hh & Hk & Hpar & Hr).
  split; [by apply Hc2, Hc1|]. intros hash f Hf Hfp. unfold candidate_written, head_names. rewrite Hf, Hfp.
  assert (eventless_record o = None) as -> by (by destruct o; set_solver).
  split; [by destruct f|]. split; [simpl in *; congruence|]. split; [by eexists|]. exists row. by split_and!.
Qed.

Lemma candidate_height fuel hash f w outcome child_only w' : cached w.1 →
  write_candidate lookup resolve_pool classifier serialize_txouts digest classic_pools qbit_pools fam source fuel height hash f w
    = (Ok (Some (outcome, child_only)), w') →
  cached w'.1 ∧ candidate_written hash f outcome w w'.
Proof.
  intros Hca. destruct f as [parsed|block|header|detail header]; unfold write_candidate.
  - intros Hw. apply st_bind_Ok in Hw as (parsed' & w1 & Hat & Hw). apply st_bind_Ok in Hw as (o & w2 & Hcl & Hw).
    pose proof (on_env_moves quiet _ (attach_quiet hash parsed) w) as Hq. rewrite Hat in Hq. destruct Hq as [_ [He1 Hc1]].
    unfold on_env in Hat. destruct (attach_child_payout_if_needed _ _ _ _) as [r we] eqn:Ha. injection Hat as -> <-.
    apply attach_child_header in Ha as [Ha Hpa]. apply st_ret_Ok in Hw as [Ho ->]. destruct o as [o|]; [|done]. injection Ho as -> _.
    apply (built_event_head _ _ (ParsedHeader_hash (child_header parsed')) (ParsedHeader_hash (parent_header parsed'))
      _ _ _ (Hc1 Hca)) in Hcl as [Hc2 Hcw];
      [|intros now p; apply classic_payload_child].
    split; [done|]. specialize (Hcw hash (FetchClassic parsed) ltac:(by simpl; rewrite Ha) ltac:(by simpl; rewrite Hpa)).
    unfold candidate_written, malformed_follows in *. simpl in He1. by rewrite <-He1.
  - intros Hw. apply st_bind_Ok in Hw as (o & w2 & Hcl & Hw). apply st_ret_Ok in Hw as [Ho ->].
    destruct o as [o|]; [|done]. injection Ho as -> _.
    apply (built_event_head _ _ (ParsedHeader_hash (q_child_header (qb_proof block)))
      (ParsedHeader_hash (q_parent_header (qb_proof block))) _ _ _ Hca) in Hcl as [Hc2 Hcw];
      [|intros now p; apply qbit_payload_child]. split; [done|]. by apply Hcw.
  - intros Hw. apply st_bind_Ok in Hw as ([] & w1 & [_ ->]%st_guard_Ok & Hw). by apply st_ret_Ok in Hw as [[= -> _] ->].
  - intros Hw. apply st_bind_Ok in Hw as (o & w1 & Hm & Hw). apply st_ret_Ok in Hw as [[= -> _] ->].
    apply malformed_height in Hm as (Ho & Hf & Hc). split; [auto|]. unfold candidate_written, candidate_outcome.
    destruct Ho as [-> | ->]; pose proof Hf as [Hp _]; by rewrite Hp.
Qed.

(** A block without an event is recorded under the hash of the daemon. *)
Lemma record_eventless_head hash outcome child_only (w : W * ReadModel) u w' : cached w.1 →
  record_eventless digest source height hash outcome child_only w = (Ok u, w') →
  cached w'.1 ∧ err w' = err w ∧
  match eventless_record outcome with
  | None => head w' = head w
  | Some _ => ∃ row, head w' = Some row ∧ ch_block_hash row = hash ∧ ch_parent row = None ∧ head_records outcome row
  end.
Proof.
  intros Hca. unfold record_eventless. destruct (eventless_record outcome) as [[parent ho]|] eqn:He.
  - intros Hr. apply st_bind_Ok in Hr as (now & w1 & Hn & Hr). pose proof (now_quiet w) as Hq. rewrite Hn in Hq.
    destruct Hq as [_ [He1 Hc1]].
    apply (own_transaction_head source height session_quiet) in Hr as [[He2 Hc2] (c & s & out & s' & [st Hst] & Hr & _ & Hh)];
      [|by apply Hc1].
    split; [by apply Hc2, Hc1|]. split; [simpl in *; congruence|].
    rewrite (record_own_heads _ _ _ _ _ _ _ _ _ _ Hr Hst), lookup_insert_eq in Hh.
    eexists. split; [exact Hh|]. split; [done|]. by destruct outcome; simplify_eq/=.
  - by intros [_ ->]%st_ret_Ok.
Qed.

Lemma clear_error_at (w : W * ReadModel) b w' : clear_capture_error source height w = (Ok b, w') →
  head w' = head w ∧ err w' = None.
Proof.
  unfold clear_capture_error. intros Hr. apply st_bind_Ok in Hr as (u1 & w1 & Hs & Hr).
  pose proof (session_quiet w) as Hq. rewrite Hs in Hq. destruct Hq as [Hh _].
  apply st_bind_Ok in Hr as (fd & w2 & [_ ->]%st_gets_Ok & Hr). apply st_bind_Ok in Hr as (u2 & w3 & ->%st_modify_Ok & Hr).
  apply st_ret_Ok in Hr as [_ ->]. unfold head_at, error_at in *. simpl in *. rewrite store_of_set_errors, errors_of_set.
  split; [done|]. apply lookup_delete_eq.
Qed.

#[local] Abbreviation process_locked :=
  (process_locked_height lookup resolve_pool classifier serialize_txouts digest classic_pools qbit_pools fam source).

Definition recorded_height (hash : bytes) (f : AuxpowFetch) (outcome : HeightOutcome) (w w' : W * ReadModel) : Prop :=
  candidate_outcome (failure_policy fam) f outcome ∧
  (∃ row, head w' = Some row ∧ head_records outcome row ∧ head_names hash f row ∧
     (authenticates (fs_fetch fam) = true ∨ is_some (eventless_record outcome) = true → ch_block_hash row = hash)) ∧
  error_follows (failure_policy fam) hash outcome (err w) (err w').

Lemma locked_height_recorded fuel hash (w : W * ReadModel) outcome w' : cached w.1 →
  process_locked fuel height hash w = (Ok (Some outcome), w') →
  ∃ f env, fetch_auxpow_candidate fam hash height w.1 = (Ok f, env) ∧ recorded_height hash f outcome w w'.
Proof.
  intros Hca Hp. unfold process_locked_height in Hp. apply st_bind_Ok in Hp as (f & w1 & Hf & Hp).
  pose proof (on_env_moves quiet _ (fetch_quiet hash) w) as Hq. rewrite Hf in Hq. destruct Hq as [_ [He1 Hc1]].
  unfold on_env in Hf. destruct (fetch_auxpow_candidate _ _ _ _) as [r we] eqn:Hfe. injection Hf as -> <-.
  apply st_bind_Ok in Hp as (wr & w2 & Hw & Hp). destruct wr as [[o child_only]|]; [|by st_inv].
  apply candidate_height in Hw as [Hc2 Hcw]; [|by apply Hc1].
  apply st_bind_Ok in Hp as (u & w3 & Hr & Hp). apply record_eventless_head in Hr as (_ & He3 & Hh3); [|done].
  assert (o = outcome ∧ head w' = head w3 ∧
    match o with
    | MalformedSkipped | MalformedHeld | LineagePending => err w' = err w3
    | _ => err w' = if retains_errors (failure_policy fam) then None else err w3
    end) as (-> & Hh' & He').
  { destruct o; try (apply st_ret_Ok in Hp as [[= ->] ->]; by split_and!);
      apply st_bind_Ok in Hp as (b & w4 & Hcl & Hp); apply st_ret_Ok in Hp as [[= ->] ->];
      (destruct (retains_errors _); [apply clear_error_at in Hcl as [-> ->]|apply st_ret_Ok in Hcl as [_ ->]]; by split_and!). }
  assert (∃ row, head w3 = Some row ∧ head_records outcome row ∧ head_names hash f row ∧
     (authenticates (fs_fetch fam) = true ∨ is_some (eventless_record outcome) = true → ch_block_hash row = hash)) as Hrow.
  { unfold candidate_written in Hcw. destruct (eventless_record outcome).
    - destruct Hh3 as (row & Hrow & Hk & Hpar & Hrec). destruct Hcw as (_ & Hf1 & Hf2 & _). exists row.
      unfold head_names. rewrite Hf1, Hf2. by split_and!.
    - destruct Hcw as (_ & _ & [k Hcand] & row & Hrow & Hrec & Hn). exists row. rewrite Hh3. split_and!; [done..|].
      intros [Hau|?]; [|done]. destruct Hn as [-> _]. rewrite Hcand. by eapply fetch_authentic. }
  exists f, we. split; [done|]. destruct Hcw as [Hco Hcw].
  split; [done|]. split; [by rewrite Hh'|]. simpl in He1. unfold candidate_written, malformed_follows, error_follows in *.
  destruct outcome; simpl in *; rewrite ?He', ?He3, <-?He1; first [by destruct Hcw as (_ & _ & Hcw); first [exact Hcw|rewrite Hcw]|by rewrite (proj1 Hcw)].
Qed.

(** Nothing propagates or fails once a height has its outcome. *)
Lemma with_height_lock_Ok {A} (m : sM A) (w : W * ReadModel) a w' :
  with_height_lock fam source height m w = (Ok a, w') →
  ∃ w1 w2, lock_height source height w = (Ok (), w1) ∧ m w1 = (Ok a, w2) ∧ env_moves quiet w2 w'.
Proof.
  unfold with_height_lock. intros Hl. apply st_bind_Ok in Hl as ([] & w1 & Hlock & Hl).
  rewrite st_attempt_bind in Hl. destruct (m w1) as [r w2] eqn:Hm. simpl in Hl.
  rewrite st_attempt_bind in Hl. rewrite st_attempt_bind in Hl. apply st_lift_Ok in Hl as [Hf ->].
  destruct r as [a'|e].
  - simpl in *. unfold finish_child_chain_height_operation in Hf.
    pose proof (unlock_quiet w2) as Hq. destruct (unlock_height source height w2) as [[u|e] w3]; simpl in *; [|done].
    injection Hf as ->. eauto.
  - exfalso. assert (∀ w, ∃ e', (retain_failed_height (A := A) fam source height (Err e) w).1 = Err e') as Herr.
    { intros w0. simpl. destruct (must_propagate e); [by eexists|]. destruct (negb _); [by eexists|].
      rewrite st_attempt_bind. case_match; by eexists. }
    destruct (Herr w2) as [e' He']. destruct (retain_failed_height fam source height (Err e) w2) as [r' w3].
    simpl in He'. subst r'. simpl in Hf. done.
Qed.

(** The lock waits for other sessions; the state of the header cache is never dropped. *)
Context (lock_keeps_cache : ∀ w : W * ReadModel, cached w.1 → cached (lock_height source height w).2.1).

#[local] Abbreviation process :=
  (process_auxpow_height lookup resolve_pool classifier serialize_txouts digest classic_pools qbit_pools fam source).
#[local] Abbreviation rescan :=
  (rescan_auxpow_height lookup resolve_pool classifier serialize_txouts digest classic_pools qbit_pools fam source).

Lemma observe_Ok (w : W * ReadModel) hash w1 : observe_block_hash height w = (Ok hash, w1) →
  rpc_block_hash height w.1 = (Ok hash, w1.1) ∧ env_moves quiet w w1.
Proof.
  intros Ho. pose proof (on_env_moves quiet _ (steps_on_err quiet (Context "get block hash") _ (env_block_hash height)) w) as Hq.
  unfold observe_block_hash in Ho. rewrite Ho in Hq. split; [|done].
  unfold on_env, on_err in Ho. destruct (rpc_block_hash height w.1) as [[h|e] we]; by simplify_eq/=.
Qed.

Lemma recorded_quiet hash f outcome w1 w2 w3 w4 : env_moves quiet w1 w2 → recorded_height hash f outcome w2 w3 →
  env_moves quiet w3 w4 → recorded_height hash f outcome w1 w4.
Proof.
  intros [_ [He1 _]] (Hco & Hrow & He) [Hh2 [He2 _]]. unfold recorded_height. by rewrite Hh2, He2, <-He1.
Qed.

Lemma progress_held outcome row : head_records outcome row → height_progress_for outcome = Hold ↔ ch_outcome row = "held"%string.
Proof. destruct outcome; simpl; intros [_ Hr]; try (by rewrite Hr); destruct Hr as [Hr|Hr]; by rewrite Hr. Qed.

(** C9. A height that is processed leaves the block it fetched behind. For a block with a proof
    the head names the block and the Bitcoin parent of the header pair in the proof the daemon
    sent; the block is the one the daemon reported for the height wherever the fetch checks
    that. For a block without an AuxPoW, and for a malformed proof, it names the reported block
    and no parent. The outcome is one that candidate can have, and the head records it. The
    cursor of the poller is held exactly when the head is held. A malformed proof of a chain
    that holds on one leaves an open error for the block; any other settled outcome of such a
    chain closes the error of the height. *)
Theorem height_outcome_recorded fuel (w : W * ReadModel) outcome w' : cached w.1 →
  process fuel height w = (Ok (Some outcome), w') →
  ∃ w1 hash env f env', lock_height source height w = (Ok (), w1) ∧ rpc_block_hash height w1.1 = (Ok hash, env) ∧
    fetch_auxpow_candidate fam hash height env = (Ok f, env') ∧ candidate_outcome (failure_policy fam) f outcome ∧
    (∃ row, head w' = Some row ∧ head_records outcome row ∧ head_names hash f row ∧
       (authenticates (fs_fetch fam) = true ∨ is_some (eventless_record outcome) = true → ch_block_hash row = hash) ∧
       (height_progress_for outcome = Hold ↔ ch_outcome row = "held"%string)) ∧
    error_follows (failure_policy fam) hash outcome (err w1) (err w').
Proof.
  intros Hca Hp. apply with_height_lock_Ok in Hp as (w1 & w2 & Hl & Hp & Hq).
  pose proof (lock_keeps_cache w Hca) as Hc1. rewrite Hl in Hc1. apply st_bind_Ok in Hp as (hash & w3 & Ho & Hp).
  apply observe_Ok in Ho as [Ho Hq1]. apply locked_height_recorded in Hp as (f & env' & Hf & Hp); [|by apply Hq1].
  destruct (recorded_quiet _ _ _ _ _ _ _ Hq1 Hp Hq) as (Hco & (row & Hrow & Hrec & Hn & Hk) & He).
  exists w1, hash, w3.1, f, env'. split_and!; [done..| |done]. exists row. split_and!; [done..|by apply progress_held].
Qed.

(** C33. A chain that holds on any failure does not lose a height that failed. A failure leaves an
    open error for the height, or is one the supervisor must see at once, or says that the
    error could not be recorded; otherwise the lock could not be taken, or the height was
    processed and only the lock could not be released. *)
Theorem failed_height_retained fuel (w : W * ReadModel) e w' : failure_policy fam = HoldAnyHeightFailure →
  process fuel height w = (Err e, w') →
  lock_height source height w = (Err e, w') ∨
  (∃ w1 w2 outcome, lock_height source height w = (Ok (), w1) ∧ unlock_height source height w2 = (Err e, w') ∧
     (hash ← observe_block_hash height;
      process_locked fuel height hash) w1 = (Ok outcome, w2)) ∨
  must_propagate e = true ∨
  (∃ row, err w' = Some row ∧ er_kind row = CAPTURE_ERROR_HEIGHT_CAPTURE_FAILED) ∨
  ∃ cause, e = Context "height failed and its capture error could not be recorded" cause.
Proof.
  intros Hpol. unfold process_auxpow_height, with_height_lock. unfold mbind at 1, stM_bind at 1.
  destruct (lock_height source height w) as [[[]|el] w1]; [|intros [= <- <-]; by left]. intros Hp. right.
  rewrite st_attempt_bind in Hp. destruct ((observe_block_hash height ≫= _) w1) as [r w2] eqn:Hm. simpl in Hp.
  rewrite !st_attempt_bind in Hp. destruct r as [o|e0].
  - left. exists w1, w2, o. simpl in Hp. destruct (unlock_height source height w2) as [[u|eu] w3] eqn:Hu; simpl in Hp; [done|].
    injection Hp as <- <-. by split_and!.
  - right. simpl in Hp. rewrite Hpol, bool_decide_true in Hp by done. simpl in Hp.
    destruct (must_propagate e0) eqn:Hmp; simpl in Hp; [injection Hp as <- _; by left|]. right.
    rewrite st_attempt_bind in Hp. case_match eqn:Hrec; simpl in Hp; [left|right; injection Hp as <- _; by eexists].
    destruct ((on_env now_unix_secs ≫= _) w2) as [r3 w3] eqn:Hn. simpl in *. subst r3.
    apply st_bind_Ok in Hn as (now & w4 & _ & Hn). apply record_error_at in Hn as (_ & _ & row & Hrow & Hkind & _); [|done].
    injection Hp as _ <-. exists row. pose proof (unlock_quiet w3) as [_ [He _]]. by rewrite He.
Qed.

(** A head that a rescan trusts. *)
Definition trusted_head (c : CacheDb) (hash : bytes) (row : HeadRow) : Prop :=
  ch_block_hash row = hash ∧ ch_outcome row ∈ ["captured"; "recorded"; "non_auxpow"]%string ∧
  ∃ s, cd_state c = Some s ∧ core_cache_generation s ≤ ch_generation row.

Lemma outcome_from_Ok v o : outcome_from_db_str v = Ok o → v = outcome_as_db_str o.
Proof. unfold outcome_from_db_str. repeat (case_bool_decide; [subst; by intros [= <-]|]). done. Qed.

Lemma rescan_trusts open c s hash h now_head :
  load_child_chain_head digest c s source height NoMarker = Ok now_head → rescan_unchanged open now_head hash = Some h →
  open = false ∧ ∃ row, sd_heads s !! (source, height) = Some row ∧ trusted_head c hash row.
Proof.
  unfold load_child_chain_head, rescan_unchanged. intros Hl Hr.
  destruct (sd_heads s !! (source, height)) as [row|]; [|by injection Hl as <-].
  destruct (cd_state c) as [st|] eqn:Hst; [|by injection Hl as <-].
  apply bind_Ok in Hl as (o & Ho%outcome_from_Ok & [= <-]). simpl in Hr.
  destruct (_ && _ && _) eqn:Hc; [|done]. apply andb_prop in Hc as [[Hopen Hf]%andb_prop Hk%bool_decide_eq_true].
  simpl in *. apply negb_true_iff in Hopen. unfold head_is_final in Hf. simpl in Hf. apply andb_prop in Hf as [Hf Hg].
  split; [done|]. exists row. split; [done|]. split; [done|]. split.
  - rewrite Ho. destruct o; simpl in *; set_solver.
  - exists st. split; [done|]. apply negb_true_iff, Z.ltb_ge in Hg. lia.
Qed.

Lemma reobserve_heads s hash parent now out s' :
  reobserve_child_chain_block_in_own_transaction s source height hash parent now = Ok (out, s') →
  ∃ row, sd_heads s !! (source, height) = Some row ∧ sd_heads s' !! (source, height) = Some (observed_again row now).
Proof.
  unfold reobserve_child_chain_block_in_own_transaction. intros Hr. apply bind_Ok in Hr as ([] & _ & Hr).
  apply bind_Ok in Hr as (row & Hrow%ok_or_Ok & Hr). cbv zeta in Hr.
  remember (apply_child_displacement _ _ _ _ _ _) as a eqn:Ha. injection Hr as ->. apply (f_equal snd) in Ha. simpl in Ha.
  destruct (sd_heads s !! (source, height)) as [row'|]; [|done]. simpl in Hrow. destruct (bool_decide _); [|done].
  injection Hrow as ->. exists row. split; [done|]. rewrite Ha. simpl. apply lookup_insert_eq.
Qed.

Lemma has_error_at (w : W * ReadModel) b w' : has_capture_error source height w = (Ok b, w') →
  env_moves quiet w w' ∧ b = is_some (err w).
Proof.
  unfold has_capture_error. intros Hr. apply st_bind_Ok in Hr as (u1 & w1 & Hs & Hr).
  pose proof (session_quiet w) as Hq. rewrite Hs in Hq. apply st_gets_Ok in Hr as [-> ->]. split; [done|].
  destruct Hq as [_ [He _]]. unfold error_at in *. simpl in *. by rewrite He.
Qed.

(** C17. A rescan skips the capture of a height only on a head it can trust: the head names the
    block the daemon reports, its outcome is final, its verdict is no older than the header
    cache, and a chain that retains errors has none open there. Then only the time of the head
    changes. Otherwise the height is captured again, with the same trace as a new height. *)
Theorem rescan_skips_only_trusted fuel (w : W * ReadModel) outcome w' : cached w.1 →
  rescan fuel height w = (Ok (Some outcome), w') →
  ∃ w1 hash env, lock_height source height w = (Ok (), w1) ∧ rpc_block_hash height w1.1 = (Ok hash, env) ∧
    match outcome with
    | Unchanged => ∃ w2 row now, env_moves quiet w1 w2 ∧ head w1 = Some row ∧ trusted_head (cache_of w2.1) hash row ∧
        (retains_errors (failure_policy fam) = true → err w1 = None) ∧
        head w' = Some (observed_again row now) ∧ err w' = err w1
    | RescanCaptured outcome => ∃ w2 f env', env_moves quiet w1 w2 ∧
        fetch_auxpow_candidate fam hash height w2.1 = (Ok f, env') ∧ recorded_height hash f outcome w1 w'
    end.
Proof.
  intros Hca Hp. apply with_height_lock_Ok in Hp as (w1 & w2 & Hl & Hp & Hq).
  pose proof (lock_keeps_cache w Hca) as Hc1. rewrite Hl in Hc1. apply st_bind_Ok in Hp as (hash & w3 & Ho & Hp).
  apply observe_Ok in Ho as [Ho Hq1]. exists w1, hash, w3.1. split_and!; [done|done|].
  apply st_bind_Ok in Hp as (u & w4 & Hs & Hp). pose proof (session_quiet w3) as Hq2. rewrite Hs in Hq2.
  apply st_bind_Ok in Hp as (c & w5 & [-> ->]%st_gets_Ok & Hp). apply st_bind_Ok in Hp as (s & w5 & [-> ->]%st_gets_Ok & Hp).
  apply st_bind_Ok in Hp as (nh & w5 & [Hload ->]%st_lift_Ok & Hp). apply st_bind_Ok in Hp as (open & w5 & Hopen & Hp).
  assert (env_moves quiet w1 w4) as Hq14 by (by etrans).
  assert (env_moves quiet w4 w5 ∧ (retains_errors (failure_policy fam) = true → open = is_some (err w4))) as [Hq3 Hop].
  { destruct (retains_errors _); [apply has_error_at in Hopen as [? ?]; by split|]. apply st_ret_Ok in Hopen as [_ ->]. by split. }
  assert (env_moves quiet w1 w5) as Hq15 by (by etrans). destruct (rescan_unchanged open nh hash) as [h|] eqn:Hun.
  - apply st_bind_Ok in Hp as (now & w6 & Hn & Hp). pose proof (now_quiet w5) as Hq4. rewrite Hn in Hq4.
    assert (env_moves quiet w1 w6) as Hq16 by (by etrans). apply st_bind_Ok in Hp as (u' & w7 & Hown & Hp).
    apply st_ret_Ok in Hp as [[= ->] ->].
    apply (own_transaction_head source height session_quiet) in Hown as [[He7 _] (c & s & out & s' & _ & Hr & Hs0 & Hh7)];
      [|by apply Hq16].
    destruct (rescan_trusts _ _ _ _ _ _ Hload Hun) as [-> (row & Hrow & Htr)].
    apply reobserve_heads in Hr as (row' & Hrow' & Hs'). destruct Hq14 as [Hh14 [He14 Hc14]]. destruct Hq16 as [Hh16 [He16 _]].
    destruct Hq as [Hh2 [He2 _]].
    assert (head w1 = Some row) as Hw1 by (by rewrite <-Hh14).
    assert (row' = row) as -> by (rewrite Hs0, Hh16, Hw1 in Hrow'; by injection Hrow').
    exists w4, row, now. split_and!; [done|done|done| | |].
    + intros Hret. specialize (Hop Hret). rewrite He14 in Hop. by destruct (err w1).
    + by rewrite Hh2, Hh7.
    + simpl in *. congruence.
  - apply st_bind_Ok in Hp as (o & w6 & Hpl & Hp). apply st_ret_Ok in Hp as [Ho' ->]. destruct o as [o|]; [|done].
    injection Ho' as ->. apply locked_height_recorded in Hpl as (f & env' & Hf & Hpl); [|by apply Hq15].
    exists w5, f, env'. split_and!; [done..|]. by apply (recorded_quiet _ _ _ _ _ _ _ Hq15 Hpl Hq).
Qed.
End outcomes.

(** ** A complete backfill *)

Section backfill.
Context `{BitcoinLib} {W : Type} `{CoreHeaderSource W} `{Clock W} `{ReadModelSession W} `{CaptureTables W}.
Context `{BitcoindRpc W} `{FamilyTables W}.
Context (lookup : bytes → option InvalidBlock) (resolve_pool : bytes → option bytes → option Z).
Context (classifier : ConfiguredParentClassifier) (serialize_txouts : list TxOut → bytes).
Context (digest : Z → Z → option Z).
Context (classic_pools : ParsedAuxpowBlock → list EventPoolAttribution).
Context (qbit_pools : ParsedQbitAuxpowBlock → list EventPoolAttribution).
Context (fam : FamilySpec) (source : Z).
#[local] Abbreviation sM := (stM (W * ReadModel) anyhow).
#[local] Abbreviation process :=
  (process_auxpow_height lookup resolve_pool classifier serialize_txouts digest classic_pools qbit_pools fam source).
#[local] Abbreviation backfilled :=
  (backfill_height lookup resolve_pool classifier serialize_txouts digest classic_pools qbit_pools fam source).

Lemma on_env_Ok {A} (m : stM W anyhow A) (w : W * ReadModel) a w' : on_env m w = (Ok a, w') → m w.1 = (Ok a, w'.1).
Proof. unfold on_env. destruct (m w.1) as [r we]. by intros [= -> <-]. Qed.

Lemma backfill_height_Ok fuel h (w : W * ReadModel) e w' : backfilled fuel h w = (Ok (Some e), w') →
  ∃ o, process fuel h w = (Ok (Some o), w') ∧ auxpow_backfill_effect o = Ok e.
Proof.
  unfold backfill_height. intros Hb. apply st_bind_Ok in Hb as (o & w1 & Hp & Hb). destruct o as [o|]; [|by st_inv].
  apply st_bind_Ok in Hb as (e' & w2 & [He ->]%st_lift_Ok & Hb). apply st_ret_Ok in Hb as [[= ->] ->]. eauto.
Qed.

Lemma processed_each fuel hs es (w w' : W * ReadModel) : processed (backfilled fuel) hs es w w' →
  EffMalformedHeld ∉ es → ∀ h, h ∈ hs → ∃ w1 w2 o, process fuel h w1 = (Ok (Some o), w2) ∧ height_progress_for o = Advance.
Proof.
  induction 1 as [|h hs e es w w1 w2 Hp _ IH]; intros Hn h' Hh; [set_solver|].
  apply not_elem_of_cons in Hn as [Hne Hn]. apply elem_of_cons in Hh as [->|Hh]; [|by apply IH].
  apply backfill_height_Ok in Hp as (o & Hp & He). exists w, w1, o. split; [done|]. by destruct o; simplify_eq/=.
Qed.

Lemma no_held es : malformed_held (tally es) = 0 → EffMalformedHeld ∉ es.
Proof.
  simpl. unfold effect_count. intros Hz Hin.
  assert (EffMalformedHeld ∈ filter (λ x, x = EffMalformedHeld) es) as Hf by (by apply list_elem_of_filter).
  destruct (filter (λ x, x = EffMalformedHeld) es); [by apply not_elem_of_nil in Hf|simpl in Hz; lia].
Qed.

(** A backfill that completes left nothing behind: the daemon is on the pinned chain where one
    is pinned and had the whole range, and every height of the range was processed to an outcome
    that lets a cursor advance. A height whose parent waits for the header cache stops the run,
    and one with an unresolved error fails it. *)
Theorem backfill_complete fuel config bootstrap repair (w : W * ReadModel) w' :
  run_auxpow_backfill lookup resolve_pool classifier serialize_txouts digest classic_pools qbit_pools fam source
    fuel config bootstrap repair w = (Ok (Some ()), w') →
  (∃ w0 tip w1, get_block_count w0 = (Ok tip, w1) ∧ end_height config ≤ tip) ∧
  (∀ genesis, match fs_fetch fam with
              | QbitExtendedHeader g | RawBlock (StrictClassic g _) => genesis = g
              | _ => False
              end → ∃ w1 actual, rpc_block_hash 0 w.1 = (Ok actual, w1) ∧ block_hash_to_string actual = genesis) ∧
  ∀ h, start_height config ≤ h ≤ end_height config →
    ∃ w1 w2 outcome, process fuel h w1 = (Ok (Some outcome), w2) ∧ height_progress_for outcome = Advance.
Proof.
  unfold run_auxpow_backfill. intros Hr. apply st_bind_Ok in Hr as ([] & w1 & Hg & Hr).
  apply st_bind_Ok in Hr as (tip & w2 & Ht & Hr). apply st_bind_Ok in Hr as ([] & w3 & [Hv ->]%st_lift_Ok & Hr).
  apply st_bind_Ok in Hr as (u & w4 & _ & Hr). apply st_bind_Ok in Hr as (sm & w5 & Hs & Hr). destruct sm as [sm|]; [|by st_inv].
  apply st_bind_Ok in Hr as (u' & w6 & _ & Hr). apply st_bind_Ok in Hr as ([] & w7 & [Hc _]%st_lift_Ok & _).
  unfold validate_against_tip in Hv. apply ensure_Ok, Z.leb_le in Hv. unfold ensure_backfill_complete in Hc.
  apply ensure_Ok, Z.eqb_eq in Hc. split_and!.
  - apply on_env_Ok, st_on_err_Ok in Ht. eauto 6.
  - intros genesis Hgen. apply on_env_Ok in Hg. unfold ensure_mainnet_endpoint in Hg.
    destruct (fs_fetch fam) as [[|g cid]|v|g]; try done; subst g.
    all: apply st_bind_Ok in Hg as (actual & wa & Ha & [He _]%st_lift_Ok); apply st_on_err_Ok in Ha.
    all: unfold ensure_genesis in He; apply ensure_Ok, bool_decide_eq_true in He; eauto.
  - intros h Hh. apply (backfill_loop_tally _ _ []) in Hs as (es & Hes & ->). apply no_held in Hc.
    eapply processed_each; [exact Hes|exact Hc|]. apply elem_of_seqZ. lia.
Qed.
End backfill.

Module FamilySample.
Import Toy EventStoreSample.

(** A session on its own, without Core; the environment is the store and the errors. *)
Abbreviation env := (StoreDb * gmap (Z * Z) CaptureErrorRow)%type.
#[local] Instance no_core : CoreHeaderSource env := {|
  get_chain_status := throw (Other "disabled"); get_block_hash := λ _, throw (Other "disabled");
  get_header := λ _ _, throw (Other "disabled"); get_block_header := λ _, throw (Other "disabled");
  get_header_verbose := λ _, throw (Other "disabled"); get_block_coinbase := λ _, throw (Other "disabled") |}.
#[local] Instance epoch : Clock env := mret 1500.
#[local] Instance alone : ReadModelSession env := { session := mret (); commit := mret () }.
#[local] Instance env_store : CaptureTables env :=
  { store_of := fst; set_store := λ s w, (s, w.2); cache_of := λ _, ChildHeadSample.cache }.
#[local] Instance env_store_laws : CaptureTablesLaws env.
Proof. done. Qed.
#[local] Instance env_errors : FamilyTables env :=
  { errors_of := snd; set_errors := λ t w, (w.1, t); lock_height := λ _ _, mret (); unlock_height := λ _ _, mret () }.
#[local] Instance env_errors_laws : FamilyTablesLaws env.
Proof. done. Qed.

(** The chain has one block, without merge mining; the daemon does not answer below it. *)
Definition child : Header :=
  {| hdr_version := 1; prev_blockhash := replicate 32 x07; merkle_root := replicate 32 x00; hdr_time := 1100;
     hdr_bits := 453062093; hdr_nonce := 0 |}.
#[local] Instance daemon : BitcoindRpc env := {|
  get_block_count := mret 9;
  rpc_block_hash := λ h, if h =? 7 then mret (block_hash child) else throw (Other "offline");
  get_block_raw := λ _, mret (serialize_header child);
  get_header_with_auxpow := λ _, mret (serialize_header child) |}.

Definition namecoin : FamilySpec :=
  mkFamilySpec "Namecoin" RequiredUserPass (RawBlock NodeValidated) false None None RepairGlobal SkipMalformedProof.
Definition terracoin : FamilySpec :=
  mkFamilySpec "Terracoin" RequiredUserPass (RawBlock (StrictClassic "00" 50)) true None None SourceScoped HoldAnyHeightFailure.
Definition start : env * ReadModel :=
  ((empty, ∅), mkReadModel ∅ ∅ ∅ {[ 1 := mkSource "namecoin" "auxpow" ]} ∅ (Ok ex_table)).

Abbreviation process fam h := (process_auxpow_height (λ _, None) (λ _ _, None) Disabled (λ _, []) (λ _ _, None)
  (λ _, []) (λ _, []) fam 1 10 h).
Abbreviation rescan fam h := (rescan_auxpow_height (λ _, None) (λ _ _, None) Disabled (λ _, []) (λ _ _, None)
  (λ _, []) (λ _, []) fam 1 10 h).

#[local] Instance env_quiet h : QuietCalls (quiet_at (W := env) 1 h).
Proof. split; intros; by intros w. Qed.
#[local] Instance daemon_quiet h : QuietDaemon (quiet_at (W := env) 1 h).
Proof. split; intros; intros w; try done. simpl. by destruct (_ =? 7). Qed.
Lemma session_alone h : steps (env_moves (quiet_at (W := env) 1 h)) (session : stM (env * ReadModel) anyhow unit).
Proof. by intros w. Qed.
Lemma unlock_alone h : steps (env_moves (quiet_at (W := env) 1 h)) (unlock_height 1 h : stM (env * ReadModel) anyhow unit).
Proof. by intros w. Qed.
Lemma start_cached (w : env * ReadModel) : cached w.1.
Proof. by eexists. Qed.

Definition answers {A} (p : A → bool) (r : result anyhow (option A)) : bool :=
  match r with Ok (Some a) => p a | _ => false end.
Lemma answers_inv {A} (p : A → bool) (m : stM (env * ReadModel) anyhow (option A)) w :
  answers p (m w).1 = true → ∃ a w', m w = (Ok (Some a), w') ∧ p a = true.
Proof. destruct (m w) as [[[a|]|e] w']; simpl; [|done..]. eauto. Qed.
Definition skipped (o : HeightOutcome) : bool := bool_decide (o = NonAuxpowSkipped).

Lemma height_outcome_recorded_witness :
  ∃ w' row, process namecoin 7 start = (Ok (Some NonAuxpowSkipped), w') ∧
    head_at 1 7 w'.1 = Some row ∧ ch_outcome row = "non_auxpow"%string ∧ ch_block_hash row = block_hash child.
Proof.
  destruct (answers_inv skipped (process namecoin 7) start) as (o & w' & Hp & Ho%bool_decide_eq_true);
    [vm_compute; reflexivity|]. subst o.
  destruct (height_outcome_recorded (λ _, None) (λ _ _, None) Disabled (λ _, []) (λ _ _, None) (λ _, []) (λ _, [])
    namecoin 1 7 (session_alone 7) (unlock_alone 7) (λ w _, start_cached _) 10 start NonAuxpowSkipped w' (start_cached _) Hp)
    as (w1 & hash & e & f & e' & Hl & Hh & Hf & Hco & (row & Hrow & [_ Hout] & Hn & Hk & _) & _).
  exists w', row. split; [exact Hp|]. split; [exact Hrow|]. split; [exact Hout|].
  rewrite (Hk (or_intror eq_refl)). injection Hh as <- _. reflexivity.
Defined.

(** The daemon is offline, and the chain holds on any failure. *)
Lemma failed_height_retained_witness :
  ∃ e w' row, process terracoin 9 start = (Err e, w') ∧ error_at 1 9 w'.1 = Some row ∧
    er_kind row = CAPTURE_ERROR_HEIGHT_CAPTURE_FAILED.
Proof.
  destruct (process terracoin 9 start) as [[o|e] w'] eqn:Hp.
  - exfalso. assert (match (process terracoin 9 start).1 with Ok _ => false | Err _ => true end = true) as Hb
      by (vm_compute; reflexivity). rewrite Hp in Hb. discriminate Hb.
  - destruct (failed_height_retained (λ _, None) (λ _ _, None) Disabled (λ _, []) (λ _ _, None) (λ _, []) (λ _, [])
      terracoin 1 9 (session_alone 9) (unlock_alone 9) 10 start e w' eq_refl Hp)
      as [Hl|[(w1 & w2 & o & Hl & Hu & Hm)|[Hmp|[(row & Hrow & Hk)|[cause Hc]]]]].
    + discriminate Hl.
    + discriminate Hu.
    + exfalso. assert (match (process terracoin 9 start).1 with Ok _ => true | Err e => must_propagate e end = false) as Hb
        by (vm_compute; reflexivity). rewrite Hp in Hb. simpl in Hb. rewrite Hb in Hmp. discriminate Hmp.
    + exists e, w', row. split; [reflexivity|]. split; [exact Hrow|exact Hk].
    + exfalso. assert (match (process terracoin 9 start).1 with
                       | Err (Context m _) => bool_decide (m = "height failed and its capture error could not be recorded"%string)
                       | _ => false end = false) as Hb by (vm_compute; reflexivity).
      rewrite Hp, Hc in Hb. vm_compute in Hb. discriminate Hb.
Defined.

(** A rescan of the block just recorded. *)
Definition unchanged (o : RescanOutcome) : bool := match o with Unchanged => true | _ => false end.
Lemma rescan_skips_only_trusted_witness :
  ∃ w1 w' row now, rescan namecoin 7 w1 = (Ok (Some Unchanged), w') ∧ head_at 1 7 w1.1 = Some row ∧
    head_at 1 7 w'.1 = Some (observed_again row now).
Proof.
  set (w1 := (process namecoin 7 start).2).
  destruct (answers_inv unchanged (rescan namecoin 7) w1) as (o & w' & Hp & Ho); [vm_compute; reflexivity|].
  destruct o; [|discriminate Ho].
  destruct (rescan_skips_only_trusted (λ _, None) (λ _ _, None) Disabled (λ _, []) (λ _ _, None) (λ _, []) (λ _, [])
    namecoin 1 7 (session_alone 7) (unlock_alone 7) (λ w _, start_cached _) 10 w1 Unchanged w' (start_cached _) Hp)
    as (w2 & hash & e & Hl & Hh & w3 & row & now & _ & Hrow & _ & _ & Hrow' & _).
  exists w1, w', row, now. split; [exact Hp|]. injection Hl as <-. split; [exact Hrow|exact Hrow'].
Defined.

Definition config : BackfillConfig := mkBackfillConfig ChainsSample.hathor 7 7.
Lemma backfill_complete_witness :
  ∃ w1 w2 outcome, process namecoin 7 w1 = (Ok (Some outcome), w2) ∧ height_progress_for outcome = Advance.
Proof.
  destruct (answers_inv (λ _, true) (run_auxpow_backfill (λ _, None) (λ _ _, None) Disabled (λ _, []) (λ _ _, None)
    (λ _, []) (λ _, []) namecoin 1 10 config (mret ()) (mret ())) start) as ([] & w' & Hp & _); [vm_compute; reflexivity|].
  destruct (backfill_complete (λ _, None) (λ _ _, None) Disabled (λ _, []) (λ _ _, None) (λ _, []) (λ _, []) namecoin 1
    10 config (mret ()) (mret ()) start w' Hp) as (_ & _ & Hall). apply Hall. simpl. lia.
Defined.
End FamilySample.
