(* ===== verification/Pools.v ===== *)
(** * Pool resolution

    Models [crates/mmm-capture/src/pool_resolver] and [identity_registry.rs]: the embedded
    snapshot of Bitcoin pools with its validation, the index that matches a coinbase script
    by its longest tag and a payout address exactly, the registry of RSK miner addresses,
    and the validation every identity registry shares. A [str] is the string of its UTF-8
    bytes, so [trim] removes the encodings of the Unicode white space. Reading the JSON of
    a snapshot is not modelled: a snapshot is given as the value [serde_json] returns. *)

From S2P Require Import Prelude BitcoinLib CoreQueue Reconcile.
From stdpp Require Import sorting.
From Stdlib Require Strings.String.
From Stdlib Require Import ZifyBool.

Local Open Scope Z_scope.

(** ** Strings *)

Definition as_bytes (s : string) : bytes := String.list_byte_of_string s.
Definition str_len (s : string) : nat := length (as_bytes s).

(** The encodings of the characters of the property [White_Space]. *)
Definition white1 (a : byte) : bool :=
  bool_decide (a ∈ [x09; x0a; x0b; x0c; x0d; x20]).
Definition white2 (a b : byte) : bool := bool_decide (a = xc2) && bool_decide (b ∈ [x85; xa0]).
Definition white3 (a b c : byte) : bool :=
  bool_decide ((a, b, c) = (xe1, x9a, x80)) || bool_decide ((a, b, c) = (xe3, x80, x80))
  || bool_decide ((a, b, c) = (xe2, x81, x9f))
  || bool_decide (a = xe2) && bool_decide (b = x80)
     && (bool_decide (c ∈ [x80; x81; x82; x83; x84; x85; x86; x87; x88; x89; x8a]) ||
         bool_decide (c ∈ [xa8; xa9; xaf])).

(** [trim_start] and, on the reversed bytes, [trim_end]. *)
Fixpoint trim_from (w2 : byte → byte → bool) (w3 : byte → byte → byte → bool) (s : bytes) : bytes :=
  match s with
  | a :: s1 =>
      if white1 a then trim_from w2 w3 s1
      else match s1 with
           | b :: s2 =>
               if w2 a b then trim_from w2 w3 s2
               else match s2 with
                    | c :: s3 => if w3 a b c then trim_from w2 w3 s3 else s
                    | [] => s
                    end
           | [] => s
           end
  | [] => []
  end.
Definition trim_bytes (s : bytes) : bytes :=
  reverse (trim_from (λ a b, white2 b a) (λ a b c, white3 c b a)
             (reverse (trim_from white2 white3 s))).
Definition trim (s : string) : string := String.string_of_list_byte (trim_bytes (as_bytes s)).
Definition is_blank (s : string) : bool := bool_decide (trim s = ""%string).

Definition lower1 (a : byte) : byte :=
  if (65 <=? u8 a) && (u8 a <=? 90) then byte_of_Z (u8 a + 32) else a.
Definition to_ascii_lowercase (s : string) : string := String.string_of_list_byte (lower1 <$> as_bytes s).
Definition is_ascii_hexdigit (a : byte) : bool :=
  (48 <=? u8 a) && (u8 a <=? 57) || (65 <=? u8 a) && (u8 a <=? 70) || (97 <=? u8 a) && (u8 a <=? 102).

(** ** Errors *)

Inductive PoolResolverError :=
| UnsupportedSchemaVersion (version : Z)
| EmptyValue (field pool_slug : string)
| DuplicateValue (field value first_pool duplicate_pool : string)
| InvalidRskMinerAddress (value pool_slug : string)
| WhitespaceValue (field pool_slug : string)
| SlugCanonicalNameConflict (slug first_canonical_name duplicate_canonical_name : string).

Inductive IdentityRegistryError :=
| IrUnsupportedSchemaVersion (version : Z)
| IrEmptyField (field pool_slug : string)
| IrWhitespaceField (field pool_slug : string)
| IrDuplicateIdentifier (field value first_pool duplicate_pool : string)
| IrSlugCanonicalNameConflict (slug first_canonical_name duplicate_canonical_name : string)
| IrInvalidIdentifier (field value pool_slug reason : string).

(** ** The snapshot of Bitcoin pools *)

Record PoolRecord := mkPool {
  pool_slug : string;
  pool_source_id : option Z;
  canonical_name : string;
  coinbase_tags : list string;
  payout_addresses : list string;
  pool_link : option string;
}.

Record PoolSnapshotSource := mkSnapshotSource {
  source_name : string;
  upstream_url : option string;
  license : option string;
  notes : option string;
}.

Record PoolSnapshot := mkSnapshot {
  schema_version : Z;
  generated_at : string;
  scope : string;
  snapshot_source : PoolSnapshotSource;
  pools : list PoolRecord;
}.

Inductive MatchKind := CoinbaseTag | PayoutAddress.

Record PoolMatch := mkMatch {
  pm_pool : PoolRecord;
  matched_by : MatchKind;
  matched_value : string;
}.

Record TagIndexEntry := mkTag { te_tag : string; te_pool_index : nat }.

Record PoolResolver := mkResolver {
  pr_snapshot : PoolSnapshot;
  pr_coinbase_tags : list TagIndexEntry;
  pr_payout_addresses : gmap string nat;
}.

Definition validate_non_empty (field value slug : string) : result PoolResolverError unit :=
  ensure (negb (is_blank value)) (EmptyValue field slug).

(** The loop over one field of a pool. [key] is the form under which it is stored. *)
Fixpoint claim_values (field : string) (key : string → string) (slug : string) (owners : gmap string string)
    (values : list string) : result PoolResolverError (gmap string string) :=
  match values with
  | [] => mret owners
  | v :: values =>
      _ ← validate_non_empty field v slug;
      match owners !! key v with
      | Some first => Err (DuplicateValue field (key v) first slug)
      | None => claim_values field key slug (<[key v := slug]> owners) values
      end
  end.

Fixpoint validate_pools (slug_owners tag_owners address_owners : gmap string string) (ps : list PoolRecord)
    : result PoolResolverError unit :=
  match ps with
  | [] => mret ()
  | p :: ps =>
      _ ← validate_non_empty "slug" (pool_slug p) (pool_slug p);
      _ ← validate_non_empty "canonical_name" (canonical_name p) (pool_slug p);
      match slug_owners !! pool_slug p with
      | Some first => Err (DuplicateValue "slug" (pool_slug p) first (canonical_name p))
      | None =>
          tag_owners ← claim_values "coinbase_tags" id (pool_slug p) tag_owners (coinbase_tags p);
          address_owners ← claim_values "payout_addresses" trim (pool_slug p) address_owners (payout_addresses p);
          validate_pools (<[pool_slug p := canonical_name p]> slug_owners) tag_owners address_owners ps
      end
  end.

Definition validate_snapshot (s : PoolSnapshot) : result PoolResolverError unit :=
  if negb (schema_version s =? 1) then Err (UnsupportedSchemaVersion (schema_version s))
  else validate_pools ∅ ∅ ∅ (pools s).

(** Longest first, then lexically. The tags of a snapshot are distinct, so the order in
    which the sort leaves equal entries does not matter. *)
Definition tag_before (l r : TagIndexEntry) : Prop :=
  (str_len (te_tag r) < str_len (te_tag l))%nat
  ∨ str_len (te_tag l) = str_len (te_tag r) ∧ bytes_le (as_bytes (te_tag l)) (as_bytes (te_tag r)).
#[global] Instance tag_before_dec l r : Decision (tag_before l r).
Proof. unfold tag_before, bytes_le. apply _. Defined.

Definition tag_index (ps : list PoolRecord) : list TagIndexEntry :=
  mjoin (imap (λ i p, (λ t, mkTag t i) <$> coinbase_tags p) ps).
Definition address_index (ps : list PoolRecord) : gmap string nat :=
  foldl (λ m '(a, i), <[trim a := i]> m) ∅
    (mjoin (imap (λ i p, (λ a, (a, i)) <$> payout_addresses p) ps)).

Definition from_snapshot (s : PoolSnapshot) : result PoolResolverError PoolResolver :=
  _ ← validate_snapshot s;
  mret {| pr_snapshot := s; pr_coinbase_tags := merge_sort tag_before (tag_index (pools s));
          pr_payout_addresses := address_index (pools s) |}.

(** [haystack.windows(n)] for [n > 0]. *)
Fixpoint windows (n : nat) (haystack : bytes) : list bytes :=
  match haystack with
  | [] => []
  | _ :: rest => if (n <=? length haystack)%nat then take n haystack :: windows n rest else []
  end.
Definition contains_bytes (haystack needle : bytes) : bool :=
  negb (bool_decide (needle = [])) && (length needle <=? length haystack)%nat
  && existsb (λ candidate, bool_decide (candidate = needle)) (windows (length needle) haystack).

Fixpoint find_map {A B} (f : A → option B) (l : list A) : option B :=
  match l with
  | [] => None
  | a :: l => match f a with Some b => Some b | None => find_map f l end
  end.

(** The index access [pools[i]] panics out of range: here the match is lost. *)
Definition resolve_coinbase_script (r : PoolResolver) (script : bytes) : option PoolMatch :=
  find_map (λ e, if contains_bytes script (as_bytes (te_tag e))
                 then p ← pools (pr_snapshot r) !! te_pool_index e; Some (mkMatch p CoinbaseTag (te_tag e))
                 else None) (pr_coinbase_tags r).

Definition resolve_payout_address (r : PoolResolver) (address : string) : option PoolMatch :=
  i ← pr_payout_addresses r !! trim address;
  p ← pools (pr_snapshot r) !! i;
  Some (mkMatch p PayoutAddress (trim address)).

Definition resolve_payout_addresses (r : PoolResolver) (addresses : list string) : option PoolMatch :=
  find_map (resolve_payout_address r) addresses.

(** ** Lemmas on strings and byte strings *)

Lemma string_of_as_bytes s : String.string_of_list_byte (as_bytes s) = s.
Proof. apply String.string_of_list_byte_of_string. Qed.

#[global] Instance as_bytes_inj : Inj (=) (=) as_bytes.
Proof. intros s t H. by rewrite <-(string_of_as_bytes s), <-(string_of_as_bytes t), H. Qed.

Lemma blank_empty s : as_bytes s = [] → is_blank s = true.
Proof. intros H. apply bool_decide_true. unfold trim. by rewrite H. Qed.

#[global] Instance bytes_le_total : Total bytes_le.
Proof.
  unfold bytes_le. intros a. induction a as [|x a IH]; intros [|y b]; simpl; auto.
  destruct (IH b) as [H|H]; rewrite H; destruct (Z.lt_trichotomy (u8 x) (u8 y)) as [?|[?|?]];
    [left|left|right|left|right|right]; lia.
Qed.

#[global] Instance bytes_le_trans : Transitive bytes_le.
Proof.
  unfold bytes_le. intros a. induction a as [|x a IH]; intros [|y b] [|z c]; simpl; try done.
  intros H1 H2. specialize (IH b c). destruct (bytes_leb a b), (bytes_leb b c);
    try specialize (IH eq_refl eq_refl); lia.
Qed.

Lemma bytes_le_antisymm a b : bytes_le a b → bytes_le b a → a = b.
Proof.
  unfold bytes_le. revert b. induction a as [|x a IH]; intros [|y b]; simpl; try done.
  intros H1 H2. assert (u8 x = u8 y) as Hxy by lia. apply u8_inj in Hxy as <-.
  f_equal. apply IH; lia.
Qed.

Lemma windows_in n h w :
  (0 < n)%nat → w ∈ windows n h ↔ ∃ p s, h = p ++ w ++ s ∧ length w = n.
Proof.
  intros Hn. induction h as [|x h IH]; simpl.
  - split; [by intros ?%elem_of_nil|]. intros (p & s & H & Hl).
    symmetry in H. apply app_nil in H as [_ [-> _]%app_nil]. simpl in Hl. lia.
  - destruct (Nat.leb_spec n (S (length h))) as [Hle|Hlt]; [rewrite elem_of_cons, IH; split|].
    + intros [->|(p & s & -> & Hl)].
      * exists [], (drop n (x :: h)). rewrite app_nil_l, take_drop. split; [done|].
        rewrite length_take. simpl. lia.
      * by exists (x :: p), s.
    + intros ([|y p] & s & H & Hl); simpl in H.
      * left. rewrite H, <-Hl. by rewrite take_app_length.
      * injection H as -> ->. right. eauto.
    + split; [by intros ?%elem_of_nil|]. intros (p & s & H & Hl).
      apply (f_equal length) in H. rewrite !length_app in H. simpl in H. lia.
Qed.

Definition occurs (needle haystack : bytes) : Prop := ∃ p s, haystack = p ++ needle ++ s.

Lemma contains_bytes_true h n : contains_bytes h n = true ↔ n ≠ [] ∧ occurs n h.
Proof.
  unfold contains_bytes. rewrite !andb_true_iff, negb_true_iff, bool_decide_eq_false, Nat.leb_le, existsb_exists.
  split.
  - intros [[Hn _] (w & Hw & ->%bool_decide_eq_true)]. split; [done|].
    apply list_elem_of_In, windows_in in Hw as (p & s & -> & _); [by exists p, s|]. destruct n; simpl; [done|lia].
  - intros [Hn (p & s & ->)]. split_and!; [done|rewrite !length_app; lia|].
    exists n. split; [|by apply bool_decide_eq_true]. apply list_elem_of_In, windows_in; [destruct n; simpl; [done|lia]|].
    eauto.
Qed.

Lemma find_map_Some {A B} (f : A → option B) l b :
  find_map f l = Some b ↔ ∃ l1 a l2, l = l1 ++ a :: l2 ∧ f a = Some b ∧ Forall (λ x, f x = None) l1.
Proof.
  split.
  - induction l as [|x l IH]; simpl; [done|]. destruct (f x) eqn:Hx.
    + intros [= <-]. exists [], x, l. done.
    + intros (l1 & a & l2 & -> & Ha & H)%IH. exists (x :: l1), a, l2. split_and!; auto.
  - intros (l1 & a & l2 & -> & Ha & H). induction H as [|x l1 Hx _ IH]; simpl; [by rewrite Ha|by rewrite Hx].
Qed.

Lemma find_map_None {A B} (f : A → option B) l : find_map f l = None ↔ ∀ a, a ∈ l → f a = None.
Proof.
  induction l as [|x l IH]; simpl; [set_solver|]. destruct (f x) eqn:Hx; set_solver.
Qed.

(** ** What validation accepts *)

(** The values are distinct and none was seen before. *)
Definition fresh (seen : gset string) (l : list string) : Prop := NoDup l ∧ ∀ x, x ∈ l → x ∉ seen.

Lemma fresh_app seen l k : fresh seen (l ++ k) ↔ fresh seen l ∧ fresh (seen ∪ list_to_set l) k.
Proof.
  unfold fresh. rewrite NoDup_app. setoid_rewrite elem_of_app. set_solver.
Qed.

Lemma fresh_cons seen x l : fresh seen (x :: l) ↔ (x ∉ seen) ∧ fresh ({[x]} ∪ seen) l.
Proof. unfold fresh. rewrite NoDup_cons. setoid_rewrite elem_of_cons. set_solver. Qed.

Lemma fresh_nil seen : fresh seen [].
Proof. split; [constructor|set_solver]. Qed.

Lemma fresh_empty l : fresh ∅ l ↔ NoDup l.
Proof. unfold fresh. set_solver. Qed.

Lemma validate_non_empty_Ok field v slug u : validate_non_empty field v slug = Ok u ↔ is_blank v = false.
Proof. destruct u. unfold validate_non_empty. by rewrite ensure_Ok, negb_true_iff. Qed.

Lemma claim_values_Ok field key slug owners values owners' :
  claim_values field key slug owners values = Ok owners' →
  Forall (λ v, is_blank v = false) values ∧ fresh (dom owners) (key <$> values) ∧
  dom owners' = dom owners ∪ list_to_set (key <$> values).
Proof.
  revert owners. induction values as [|v values IH]; intros owners; simpl.
  - intros [= <-]. split_and!; [done|apply fresh_nil|set_solver].
  - destruct (validate_non_empty field v slug) as [u|] eqn:Hv; simpl; [|done].
    apply validate_non_empty_Ok in Hv. destruct (owners !! key v) eqn:Hk; [done|].
    intros (Hb & Hf & Hd)%IH. rewrite fresh_cons. rewrite dom_insert_L in Hf, Hd.
    apply not_elem_of_dom in Hk. split_and!; [by constructor|done|done|set_solver].
Qed.

Lemma claim_values_total field key slug owners values :
  Forall (λ v, is_blank v = false) values → fresh (dom owners) (key <$> values) →
  ∃ owners', claim_values field key slug owners values = Ok owners'.
Proof.
  revert owners. induction values as [|v values IH]; intros owners; simpl; [eauto|].
  intros [Hv Hb]%Forall_cons [Hk Hf]%fresh_cons.
  unfold validate_non_empty. rewrite Hv. simpl.
  apply not_elem_of_dom in Hk as ->. apply IH; [done|]. by rewrite dom_insert_L.
Qed.

Definition pool_named (p : PoolRecord) : Prop :=
  is_blank (pool_slug p) = false ∧ is_blank (canonical_name p) = false ∧
  Forall (λ v, is_blank v = false) (coinbase_tags p) ∧ Forall (λ v, is_blank v = false) (payout_addresses p).

Definition all_tags (ps : list PoolRecord) : list string := ps ≫= coinbase_tags.
Definition all_addresses (ps : list PoolRecord) : list string := ps ≫= λ p, trim <$> payout_addresses p.

(** No name, tag or address is blank, and no two pools share a slug, a tag or a trimmed
    address. *)
Record snapshot_wf (s : PoolSnapshot) : Prop := {
  wf_version : schema_version s = 1;
  wf_named : Forall pool_named (pools s);
  wf_slugs : NoDup (pool_slug <$> pools s);
  wf_tags : NoDup (all_tags (pools s));
  wf_addresses : NoDup (all_addresses (pools s));
}.

Definition pools_fresh (so ta ad : gset string) (ps : list PoolRecord) : Prop :=
  Forall pool_named ps ∧ fresh so (pool_slug <$> ps) ∧ fresh ta (all_tags ps) ∧ fresh ad (all_addresses ps).

Lemma pools_fresh_cons so ta ad p ps :
  pools_fresh so ta ad (p :: ps) ↔
  pool_named p ∧ (pool_slug p ∉ so) ∧ fresh ta (coinbase_tags p) ∧ fresh ad (trim <$> payout_addresses p) ∧
  pools_fresh ({[pool_slug p]} ∪ so) (ta ∪ list_to_set (coinbase_tags p))
    (ad ∪ list_to_set (trim <$> payout_addresses p)) ps.
Proof.
  unfold pools_fresh. rewrite Forall_cons, fmap_cons, fresh_cons.
  unfold all_tags, all_addresses. rewrite !bind_cons, !fresh_app. tauto.
Qed.

Lemma validate_pools_Ok so ta ad ps :
  validate_pools so ta ad ps = Ok () ↔ pools_fresh (dom so) (dom ta) (dom ad) ps.
Proof.
  revert so ta ad. induction ps as [|p ps IH]; intros so ta ad; simpl.
  { split; [intros _|done]. split_and!; [constructor|apply fresh_nil..]. }
  rewrite pools_fresh_cons. unfold pool_named. split.
  - destruct (validate_non_empty _ (pool_slug p) _) eqn:H1; [|done]; simpl.
    destruct (validate_non_empty _ (canonical_name p) _) eqn:H2; [|done]; simpl.
    apply validate_non_empty_Ok in H1, H2. destruct (so !! pool_slug p) eqn:Hs; [done|].
    apply not_elem_of_dom in Hs.
    destruct (claim_values _ id _ _ _) as [ta'|] eqn:Ht; [|done]; simpl.
    destruct (claim_values _ trim _ _ _) as [ad'|] eqn:Ha; [|done]; simpl.
    apply claim_values_Ok in Ht as (? & Ht & Hdt), Ha as (? & Ha & Hda).
    rewrite list_fmap_id in Ht, Hdt. rewrite IH, dom_insert_L, Hdt, Hda. tauto.
  - intros ((H1 & H2 & Hbt & Hba) & Hs%not_elem_of_dom & Ht & Ha & Hps).
    unfold validate_non_empty. rewrite H1, H2, Hs. simpl.
    destruct (claim_values_total "coinbase_tags" id (pool_slug p) ta _ Hbt) as [ta' Ht'];
      [by rewrite list_fmap_id|].
    destruct (claim_values_total "payout_addresses" trim (pool_slug p) ad _ Hba Ha) as [ad' Ha'].
    rewrite Ht', Ha'. simpl. apply IH. rewrite dom_insert_L.
    apply claim_values_Ok in Ht' as (_ & _ & ->), Ha' as (_ & _ & ->). by rewrite list_fmap_id.
Qed.

Lemma validate_snapshot_Ok s : validate_snapshot s = Ok () ↔ snapshot_wf s.
Proof.
  unfold validate_snapshot. destruct (Z.eqb_spec (schema_version s) 1) as [Hv|Hv]; simpl.
  - rewrite validate_pools_Ok, !dom_empty_L. unfold pools_fresh. rewrite !fresh_empty.
    split; [intros (?&?&?&?); by constructor|intros []; auto].
  - split; [done|by intros []].
Qed.

Lemma from_snapshot_Ok s r :
  from_snapshot s = Ok r ↔
  snapshot_wf s ∧ r = mkResolver s (merge_sort tag_before (tag_index (pools s))) (address_index (pools s)).
Proof.
  unfold from_snapshot. rewrite <-validate_snapshot_Ok.
  destruct (validate_snapshot s) as [[]|e]; simpl; [|naive_solver].
  split; [intros [= <-]|intros [_ ->]]; done.
Qed.

(** ** The indexes *)

Lemma elem_of_concat_imap {A B} (f : nat → A → list B) (l : list A) b :
  b ∈ mjoin (imap f l) ↔ ∃ i a, l !! i = Some a ∧ b ∈ f i a.
Proof.
  rewrite list_elem_of_join. setoid_rewrite elem_of_lookup_imap. naive_solver.
Qed.

Lemma tag_index_in ps e :
  e ∈ tag_index ps ↔ ∃ p, ps !! te_pool_index e = Some p ∧ te_tag e ∈ coinbase_tags p.
Proof.
  unfold tag_index. rewrite elem_of_concat_imap. setoid_rewrite list_elem_of_fmap. split.
  - intros (i & p & Hp & t & -> & Ht). eauto.
  - intros (p & Hp & Ht). exists (te_pool_index e), p. split; [done|]. exists (te_tag e). by destruct e.
Qed.

Lemma fmap_concat_imap {A B C} (g : C → B) (f : A → list C) (h : nat → nat) (l : list A) :
  (g ∘ fst) <$> mjoin (imap (λ i a, (λ c, (c, h i)) <$> f a) l) = l ≫= λ a, g <$> f a.
Proof.
  revert h. induction l as [|a l IH]; intros h; [done|].
  rewrite imap_cons. simpl. rewrite fmap_app. f_equal; [|apply (IH (h ∘ S))].
  rewrite <-list_fmap_compose. by apply list_fmap_ext.
Qed.

Lemma insert_all_lookup {A} (key : A → string) (l : list (A * nat)) (m : gmap string nat) k i :
  NoDup ((key ∘ fst) <$> l) →
  foldl (λ m '(a, i), <[key a := i]> m) m l !! k = Some i ↔
  (∃ a, (a, i) ∈ l ∧ key a = k) ∨ (k ∉ (key ∘ fst) <$> l) ∧ m !! k = Some i.
Proof.
  revert m. induction l as [|[a j] l IH]; intros m; cbn [foldl fmap list_fmap fst compose].
  { set_solver. }
  intros [Ha Hl]%NoDup_cons. rewrite IH by done. simpl in Ha.
  destruct (decide (key a = k)) as [<-|Hk].
  - rewrite lookup_insert_eq. setoid_rewrite elem_of_cons. split.
    + intros [(b & Hb & ?)|[_ [= <-]]]; [left; eauto|]. left. exists a. auto.
    + intros [(b & [[= -> ->]|Hb] & Hbk)|[Hn _]]; [right; auto| |set_solver].
      left. eauto.
  - rewrite lookup_insert_ne by done. setoid_rewrite elem_of_cons. naive_solver.
Qed.

Lemma address_index_lookup ps k i :
  NoDup (all_addresses ps) →
  address_index ps !! k = Some i ↔ ∃ p, ps !! i = Some p ∧ k ∈ trim <$> payout_addresses p.
Proof.
  intros Hn. unfold address_index. rewrite (insert_all_lookup trim); [rewrite lookup_empty|].
  - setoid_rewrite elem_of_concat_imap. setoid_rewrite list_elem_of_fmap. naive_solver.
  - by rewrite (fmap_concat_imap trim payout_addresses id).
Qed.

(** A value listed once over all pools has one owner. *)
Lemma NoDup_bind_owner {A B} (f : A → list B) (l : list A) i j a b x :
  NoDup (l ≫= f) → l !! i = Some a → l !! j = Some b → x ∈ f a → x ∈ f b → i = j.
Proof.
  revert i j. induction l as [|y l IH]; intros i j; [done|].
  rewrite bind_cons, NoDup_app. intros (_ & Hd & Hl) Hi Hj Ha Hb.
  destruct i as [|i], j as [|j]; simplify_eq/=; [done| | |f_equal; eauto];
    exfalso; eapply Hd; [exact Ha| |exact Hb|]; apply list_elem_of_bind; eauto using list_elem_of_lookup_2.
Qed.

#[global] Instance tag_before_total : Total tag_before.
Proof.
  intros l r. unfold tag_before.
  destruct (lt_eq_lt_dec (str_len (te_tag l)) (str_len (te_tag r))) as [[?|?]|?]; [by right; left| |by left; left].
  destruct (total bytes_le (as_bytes (te_tag l)) (as_bytes (te_tag r))); [left|right]; by right.
Qed.
#[global] Instance tag_before_trans : Transitive tag_before.
Proof.
  intros l m r. unfold tag_before. intros [?|[? H1]] [?|[? H2]]; [left; lia..|].
  right. split; [lia|]. by etrans.
Qed.

Lemma sorted_before (l1 l2 : list TagIndexEntry) e e' ps :
  merge_sort tag_before (tag_index ps) = l1 ++ e :: l2 → e' ∈ tag_index ps →
  e' ∈ l1 ∨ e' = e ∨ tag_before e e'.
Proof.
  intros Hs He. rewrite <-(merge_sort_Permutation tag_before), Hs in He.
  pose proof (StronglySorted_merge_sort tag_before (tag_index ps)) as Hsort. rewrite Hs in Hsort.
  apply elem_of_app in He as [?|[->|He]%elem_of_cons]; auto.
  right; right. apply StronglySorted_app in Hsort as (_ & _ & Hsort).
  apply StronglySorted_inv in Hsort as [_ Hf]. rewrite Forall_forall in Hf. auto.
Qed.

Local Arguments contains_bytes : simpl never.
Local Arguments as_bytes : simpl never.
Local Arguments trim : simpl never.

Lemma entry_match s script e :
  snapshot_wf s → e ∈ tag_index (pools s) →
  ∃ p, pools s !! te_pool_index e = Some p ∧ te_tag e ∈ coinbase_tags p ∧
    (if contains_bytes script (as_bytes (te_tag e))
     then p ← pools s !! te_pool_index e; Some (mkMatch p CoinbaseTag (te_tag e)) else None) =
    (if contains_bytes script (as_bytes (te_tag e)) then Some (mkMatch p CoinbaseTag (te_tag e)) else None).
Proof. intros Hwf (p & Hp & Ht)%tag_index_in. exists p. rewrite Hp. by repeat case_match. Qed.

(** A tag of the snapshot that occurs in the script is found. *)
Lemma tag_contained s p t script :
  snapshot_wf s → p ∈ pools s → t ∈ coinbase_tags p → occurs (as_bytes t) script →
  contains_bytes script (as_bytes t) = true.
Proof.
  intros Hwf Hp Ht Ho. apply contains_bytes_true. split; [|done]. intros He%blank_empty.
  pose proof (wf_named _ Hwf) as Hn. rewrite Forall_forall in Hn. destruct (Hn p Hp) as (_ & _ & Hb & _).
  rewrite Forall_forall in Hb. specialize (Hb t Ht). congruence.
Qed.

(** What a match of a coinbase script is: a tag of the pool that occurs, and the longest one
    that does, the first in the order of the bytes among those of its length. *)
Definition best_match (s : PoolSnapshot) (script : bytes) (m : PoolMatch) : Prop :=
  matched_by m = CoinbaseTag ∧ pm_pool m ∈ pools s ∧ matched_value m ∈ coinbase_tags (pm_pool m) ∧
  occurs (as_bytes (matched_value m)) script ∧
  ∀ p t, p ∈ pools s → t ∈ coinbase_tags p → occurs (as_bytes t) script →
    p = pm_pool m ∧ t = matched_value m ∨
    (str_len t < str_len (matched_value m))%nat ∨
    str_len t = str_len (matched_value m) ∧ bytes_le (as_bytes (matched_value m)) (as_bytes t) ∧
      t ≠ matched_value m.

Lemma same_tag_same_pool s i p j q t :
  snapshot_wf s → pools s !! i = Some p → pools s !! j = Some q → t ∈ coinbase_tags p → t ∈ coinbase_tags q → p = q.
Proof.
  intros Hwf Hi Hj Hp Hq. pose proof (NoDup_bind_owner coinbase_tags _ _ _ _ _ _ (wf_tags _ Hwf) Hi Hj Hp Hq).
  by simplify_eq.
Qed.

Lemma resolve_script_Some s script m :
  snapshot_wf s →
  resolve_coinbase_script (mkResolver s (merge_sort tag_before (tag_index (pools s))) (address_index (pools s)))
    script = Some m →
  best_match s script m.
Proof.
  intros Hwf (l1 & e & l2 & Hs & Hm & Hl1)%find_map_Some. cbn in Hs, Hm.
  assert (e ∈ tag_index (pools s)) as He.
  { rewrite <-(merge_sort_Permutation tag_before), Hs. set_solver. }
  destruct (entry_match s script e Hwf He) as (p & Hp & Ht & Heq). rewrite Heq in Hm.
  destruct (contains_bytes script (as_bytes (te_tag e))) eqn:Hc; [|done]. injection Hm as <-.
  apply contains_bytes_true in Hc as [_ Ho].
  unfold best_match; cbn. split_and!; [done|by eapply list_elem_of_lookup_2|done|done|].
  intros q t Hq Htq Hoq. apply list_elem_of_lookup in Hq as [j Hj].
  assert (mkTag t j ∈ tag_index (pools s)) as Hin by (apply tag_index_in; eauto).
  destruct (decide (t = te_tag e)) as [->|Hne].
  { left. split; [|done]. by eapply same_tag_same_pool. }
  destruct (sorted_before _ _ _ _ _ Hs Hin) as [H1|[He'|[H1|[H1 H2]]]]; cbn in *; [|subst e; done|auto|].
  - rewrite Forall_forall in Hl1. specialize (Hl1 _ H1). cbn in Hl1.
    rewrite (tag_contained s q) in Hl1 by eauto using list_elem_of_lookup_2. by rewrite Hj in Hl1.
  - right; right. auto.
Qed.

(** A snapshot loads exactly when its version is 1, no slug, name, tag or address is
    blank, and no two entries share a slug, a tag, or an address up to surrounding white
    space. *)
Theorem snapshot_loads_exactly (s : PoolSnapshot) :
  (∃ r, from_snapshot s = Ok r) ↔ snapshot_wf s.
Proof. setoid_rewrite from_snapshot_Ok. naive_solver. Qed.

Lemma tag_resolution (s : PoolSnapshot) (r : PoolResolver) (script : bytes) :
  from_snapshot s = Ok r →
  match resolve_coinbase_script r script with
  | Some m => best_match s script m
  | None => ∀ p t, p ∈ pools s → t ∈ coinbase_tags p → ¬ occurs (as_bytes t) script
  end.
Proof.
  intros [Hwf ->]%from_snapshot_Ok.
  destruct (resolve_coinbase_script _ _) as [m|] eqn:Hm; [by apply resolve_script_Some|].
  intros p t Hp Ht Ho. unfold resolve_coinbase_script in Hm.
  rewrite find_map_None in Hm. cbn in Hm. pose proof Hp as [i Hi]%list_elem_of_lookup.
  specialize (Hm (mkTag t i)). rewrite merge_sort_Permutation, tag_index_in in Hm. cbn in Hm.
  rewrite (tag_contained s p), Hi in Hm by done. discriminate Hm. eauto.
Qed.

Lemma payout_resolution (s : PoolSnapshot) (r : PoolResolver) (address : string) (m : PoolMatch) :
  from_snapshot s = Ok r →
  resolve_payout_address r address = Some m ↔
  matched_by m = PayoutAddress ∧ matched_value m = trim address ∧ pm_pool m ∈ pools s ∧
  trim address ∈ trim <$> payout_addresses (pm_pool m).
Proof.
  intros [Hwf ->]%from_snapshot_Ok. unfold resolve_payout_address. cbn. split.
  - intros (i & (p & Hp & Ha)%address_index_lookup & (q & Hq & [= <-])%bind_Some)%bind_Some; [|apply Hwf].
    simplify_eq. cbn. split_and!; [done|done|by eapply list_elem_of_lookup_2|done].
  - destruct m as [p k v]. cbn. intros (-> & -> & [i Hi]%list_elem_of_lookup & Ha).
    rewrite (proj2 (address_index_lookup _ (trim address) i (wf_addresses _ Hwf))) by eauto.
    cbn. by rewrite Hi.
Qed.
(** C30. With a loaded snapshot, a coinbase script resolves to the pool of the longest tag that
    occurs in it; every other tag that occurs is shorter, or of the same length and later in
    byte order, and the winning tag has one owner. A script resolves to nothing exactly when no
    tag of any pool occurs in it. *)
Theorem most_specific_tag_wins (s : PoolSnapshot) (r : PoolResolver) (script : bytes) :
  from_snapshot s = Ok r →
  match resolve_coinbase_script r script with
  | Some m => best_match s script m
  | None => ∀ p t, p ∈ pools s → t ∈ coinbase_tags p → ¬ occurs (as_bytes t) script
  end.
Proof. apply tag_resolution. Qed.

(** With a loaded snapshot, a payout address resolves exactly to the pool that lists it,
    up to surrounding white space. *)
Theorem payout_address_exact (s : PoolSnapshot) (r : PoolResolver) (address : string) (m : PoolMatch) :
  from_snapshot s = Ok r →
  resolve_payout_address r address = Some m ↔
  matched_by m = PayoutAddress ∧ matched_value m = trim address ∧ pm_pool m ∈ pools s ∧
  trim address ∈ trim <$> payout_addresses (pm_pool m).
Proof. apply payout_resolution. Qed.

(** ** Identity registries *)

Record IdentityRegistryEntry := mkRegistryEntry {
  identifier : string;
  ie_pool_slug : string;
  ie_pool_canonical_name : string;
}.
#[global] Instance IdentityRegistryEntry_eq_dec : EqDecision IdentityRegistryEntry.
Proof. solve_decision. Defined.

Definition validate_field (field value slug : string) : result IdentityRegistryError unit :=
  if is_blank value then Err (IrEmptyField field slug)
  else if negb (bool_decide (value = trim value)) then Err (IrWhitespaceField field slug)
  else mret ().

Section registry.
Context (field : string) (validator : string → result string unit) (key : string → string).

Fixpoint validate_entries (owners canonical : gmap string string) (entries : list IdentityRegistryEntry)
    : result IdentityRegistryError unit :=
  match entries with
  | [] => mret ()
  | e :: entries =>
      _ ← validate_field field (identifier e) (ie_pool_slug e);
      _ ← validate_field "pool_slug" (ie_pool_slug e) (ie_pool_slug e);
      _ ← validate_field "pool_canonical_name" (ie_pool_canonical_name e) (ie_pool_slug e);
      _ ← map_err (IrInvalidIdentifier field (identifier e) (ie_pool_slug e)) (validator (identifier e));
      match owners !! key (identifier e) with
      | Some first => Err (IrDuplicateIdentifier field (key (identifier e)) first (ie_pool_slug e))
      | None =>
          let owners := <[key (identifier e) := ie_pool_slug e]> owners in
          match canonical !! ie_pool_slug e with
          | Some existing =>
              if negb (bool_decide (existing = ie_pool_canonical_name e))
              then Err (IrSlugCanonicalNameConflict (ie_pool_slug e) existing (ie_pool_canonical_name e))
              else validate_entries owners canonical entries
          | None => validate_entries owners (<[ie_pool_slug e := ie_pool_canonical_name e]> canonical) entries
          end
      end
  end.

Definition validate_identity_registry (version : Z) (entries : list IdentityRegistryEntry)
    : result IdentityRegistryError unit :=
  if negb (version =? 1) then Err (IrUnsupportedSchemaVersion version) else validate_entries ∅ ∅ entries.
End registry.

Definition identity_key (i : string) : string := i.
Definition accept_any_identifier (i : string) : result string unit := mret ().

Fixpoint distinct_from (seen : gset string) (entries : list IdentityRegistryEntry) : list (string * string) :=
  match entries with
  | [] => []
  | e :: entries =>
      if bool_decide (ie_pool_slug e ∈ seen) then distinct_from seen entries
      else (ie_pool_slug e, ie_pool_canonical_name e) :: distinct_from ({[ie_pool_slug e]} ∪ seen) entries
  end.
Definition distinct_pool_definitions (entries : list IdentityRegistryEntry) : list (string * string) :=
  distinct_from ∅ entries.

(** ** The registry of RSK miners *)

Record RskMinerEntry := mkRskMiner {
  miner_address : string;
  rm_pool_slug : string;
  rm_pool_canonical_name : string;
}.

Record RskMinerRegistry := mkRskRegistry {
  rr_schema_version : Z;
  rr_generated_at : string;
  rr_scope : string;
  rr_source : PoolSnapshotSource;
  rr_entries : list RskMinerEntry;
}.

Record PoolIdentityRegistry := mkIdentityRegistry {
  ir_rsk : RskMinerRegistry;
  ir_rsk_by_address : gmap string nat;
}.

Definition strip_prefix (prefix s : string) : option string :=
  if bool_decide (take (str_len prefix) (as_bytes s) = as_bytes prefix)
  then Some (String.string_of_list_byte (drop (str_len prefix) (as_bytes s))) else None.
Definition normalize_rsk_address (address : string) : string :=
  let lower := to_ascii_lowercase (trim address) in
  default lower (strip_prefix "0x" lower).

Definition rsk_registry_entry (e : RskMinerEntry) : IdentityRegistryEntry :=
  mkRegistryEntry (miner_address e) (rm_pool_slug e) (rm_pool_canonical_name e).

Definition validate_rsk_miner_address_format (address : string) : result string unit :=
  let normalized := normalize_rsk_address address in
  if (str_len normalized =? 40)%nat && forallb is_ascii_hexdigit (as_bytes normalized) then mret ()
  else Err "expected 40 hex characters (optionally prefixed with 0x)"%string.

Definition map_rsk_registry_error (e : IdentityRegistryError) : PoolResolverError :=
  match e with
  | IrUnsupportedSchemaVersion v => UnsupportedSchemaVersion v
  | IrEmptyField field slug => EmptyValue field slug
  | IrWhitespaceField field slug => WhitespaceValue field slug
  | IrDuplicateIdentifier field value first duplicate => DuplicateValue field value first duplicate
  | IrSlugCanonicalNameConflict slug first duplicate => SlugCanonicalNameConflict slug first duplicate
  | IrInvalidIdentifier _ value slug _ => InvalidRskMinerAddress value slug
  end.

Definition validate_rsk_registry (r : RskMinerRegistry) : result PoolResolverError unit :=
  map_err map_rsk_registry_error
    (validate_identity_registry "miner_address" validate_rsk_miner_address_format normalize_rsk_address
       (rr_schema_version r) (rsk_registry_entry <$> rr_entries r)).

Definition rsk_address_index (entries : list RskMinerEntry) : gmap string nat :=
  foldl (λ m '(e, i), <[normalize_rsk_address (miner_address e) := i]> m) ∅ (imap (λ i e, (e, i)) entries).

Definition from_rsk_registry (r : RskMinerRegistry) : result PoolResolverError PoolIdentityRegistry :=
  _ ← validate_rsk_registry r;
  mret (mkIdentityRegistry r (rsk_address_index (rr_entries r))).

Definition resolve_rsk_miner (r : PoolIdentityRegistry) (address : string) : option RskMinerEntry :=
  i ← ir_rsk_by_address r !! normalize_rsk_address address;
  rr_entries (ir_rsk r) !! i.

Definition rsk_pool_definitions (r : PoolIdentityRegistry) : list (string * string) :=
  distinct_pool_definitions (rsk_registry_entry <$> rr_entries (ir_rsk r)).

(** ** What a registry accepts *)

Definition field_ok (v : string) : Prop := is_blank v = false ∧ v = trim v.

Lemma bind_unit_Ok {E A} (m : result E unit) (f : unit → result E A) a :
  (m ≫= f) = Ok a ↔ m = Ok () ∧ f () = Ok a.
Proof. destruct m as [[]|e]; cbn; naive_solver. Qed.

Lemma validate_field_Ok field v slug u :
  validate_field field v slug = Ok u ↔ field_ok v.
Proof.
  destruct u. unfold validate_field, field_ok. destruct (is_blank v); [naive_solver|].
  case_bool_decide; naive_solver.
Qed.

Definition entry_ok (validator : string → result string unit) (e : IdentityRegistryEntry) : Prop :=
  field_ok (identifier e) ∧ field_ok (ie_pool_slug e) ∧ field_ok (ie_pool_canonical_name e) ∧
  validator (identifier e) = Ok ().

(** A slug has one name, also given the names known already. *)
Definition consistent (canonical : gmap string string) (entries : list IdentityRegistryEntry) : Prop :=
  (∀ e n, e ∈ entries → canonical !! ie_pool_slug e = Some n → n = ie_pool_canonical_name e) ∧
  ∀ e e', e ∈ entries → e' ∈ entries → ie_pool_slug e = ie_pool_slug e' →
    ie_pool_canonical_name e = ie_pool_canonical_name e'.

Lemma consistent_known canonical e entries n :
  canonical !! ie_pool_slug e = Some n →
  consistent canonical (e :: entries) ↔ n = ie_pool_canonical_name e ∧ consistent canonical entries.
Proof.
  intros Hn. unfold consistent. setoid_rewrite elem_of_cons. split; [naive_solver|].
  intros [-> [H1 H2]]. split; [naive_solver|].
  intros a b [->|Ha] [->|Hb] Hs; eauto; [|symmetry]; apply H1; congruence.
Qed.

Lemma consistent_new canonical e entries :
  canonical !! ie_pool_slug e = None →
  consistent canonical (e :: entries) ↔
  consistent (<[ie_pool_slug e := ie_pool_canonical_name e]> canonical) entries.
Proof.
  intros Hn. unfold consistent. setoid_rewrite elem_of_cons. split.
  - intros [H1 H2]. split; [|eauto]. intros a n Ha. rewrite lookup_insert.
    case_decide as Hs; [intros [= <-]; eauto|eauto].
  - intros [H1 H2].
    assert (∀ a, a ∈ entries → ie_pool_slug e = ie_pool_slug a → ie_pool_canonical_name e = ie_pool_canonical_name a).
    { intros a Ha Hs. apply H1; [done|]. by rewrite Hs, lookup_insert_eq. }
    split.
    + intros a n [->|Ha] Hc; [congruence|]. apply H1; [done|].
      rewrite lookup_insert_ne; [done|]. intros Hs. congruence.
    + intros a b [->|Ha] [->|Hb] Hs; eauto. symmetry. eauto.
Qed.

Lemma validate_entries_Ok field validator key owners canonical entries :
  validate_entries field validator key owners canonical entries = Ok () ↔
  Forall (entry_ok validator) entries ∧ fresh (dom owners) (key ∘ identifier <$> entries) ∧
  consistent canonical entries.
Proof.
  revert owners canonical. induction entries as [|e entries IH]; intros owners canonical.
  { simpl. split; [intros _|done]. split_and!; [constructor|apply fresh_nil|split; set_solver]. }
  rewrite Forall_cons, fmap_cons, fresh_cons. unfold entry_ok at 1. cbn [validate_entries].
  rewrite !bind_unit_Ok, !validate_field_Ok, map_err_Ok.
  destruct (owners !! key (identifier e)) eqn:Ho.
  { apply elem_of_dom_2 in Ho. cbn. split; [naive_solver|tauto]. }
  apply not_elem_of_dom in Ho. destruct (canonical !! ie_pool_slug e) eqn:Hc.
  - rewrite (consistent_known _ _ _ _ Hc). case_bool_decide; cbn; [rewrite IH, dom_insert_L; tauto|].
    split; [naive_solver|tauto].
  - rewrite (consistent_new _ _ _ Hc), IH, dom_insert_L. tauto.
Qed.

Lemma validate_identity_registry_Ok field validator key version entries :
  validate_identity_registry field validator key version entries = Ok () ↔
  version = 1 ∧ Forall (entry_ok validator) entries ∧ NoDup (key ∘ identifier <$> entries) ∧
  ∀ e e', e ∈ entries → e' ∈ entries → ie_pool_slug e = ie_pool_slug e' →
    ie_pool_canonical_name e = ie_pool_canonical_name e'.
Proof.
  unfold validate_identity_registry. destruct (Z.eqb_spec version 1); cbn [negb]; [|split; [done|tauto]].
  rewrite validate_entries_Ok, dom_empty_L, fresh_empty. unfold consistent. setoid_rewrite lookup_empty.
  split; [intros (?&?&?&?)|intros (?&?&?&?)]; split_and!; done.
Qed.

Lemma distinct_from_in seen entries s n :
  (s, n) ∈ distinct_from seen entries →
  (s ∉ seen) ∧ ∃ e, e ∈ entries ∧ ie_pool_slug e = s ∧ ie_pool_canonical_name e = n.
Proof.
  revert seen. induction entries as [|e entries IH]; intros seen; cbn; [set_solver|].
  case_bool_decide as Hs.
  - intros (? & e' & ? & ?)%IH. set_solver.
  - rewrite elem_of_cons. intros [[= -> ->]|(? & e' & ? & ?)%IH]; set_solver.
Qed.

Lemma distinct_from_covers seen entries e :
  e ∈ entries → ie_pool_slug e ∉ seen → ∃ n, (ie_pool_slug e, n) ∈ distinct_from seen entries.
Proof.
  revert seen. induction entries as [|e' entries IH]; intros seen; [set_solver|].
  rewrite elem_of_cons. cbn. intros [->|He] Hs.
  - rewrite bool_decide_eq_false_2 by done. eexists. by left.
  - case_bool_decide; [eauto|]. destruct (decide (ie_pool_slug e = ie_pool_slug e')) as [->|Hne].
    { eexists. by left. }
    destruct (IH ({[ie_pool_slug e']} ∪ seen) He) as [n Hn]; [set_solver|]. exists n. by right.
Qed.

Lemma distinct_from_NoDup seen entries : NoDup (distinct_from seen entries).*1.
Proof.
  revert seen. induction entries as [|e entries IH]; intros seen; cbn; [constructor|].
  case_bool_decide; [done|]. apply NoDup_cons. split; [|done].
  intros ([s n] & Hs & (? & _)%distinct_from_in)%list_elem_of_fmap. set_solver.
Qed.

Lemma distinct_definitions_exact entries :
  (∀ e e', e ∈ entries → e' ∈ entries → ie_pool_slug e = ie_pool_slug e' →
     ie_pool_canonical_name e = ie_pool_canonical_name e') →
  NoDup (distinct_pool_definitions entries).*1 ∧
  ∀ s n, (s, n) ∈ distinct_pool_definitions entries ↔
    ∃ e, e ∈ entries ∧ ie_pool_slug e = s ∧ ie_pool_canonical_name e = n.
Proof.
  intros Hc. split; [apply distinct_from_NoDup|]. intros s n. split; [by intros (_ & ?)%distinct_from_in|].
  intros (e & He & <- & <-). destruct (distinct_from_covers ∅ _ _ He) as [n Hn]; [set_solver|].
  pose proof Hn as (_ & e' & He' & Hs & Hn')%distinct_from_in.
  by rewrite (Hc e e'), Hn'.
Qed.

Lemma rsk_index_lookup entries k i :
  NoDup (normalize_rsk_address ∘ miner_address <$> entries) →
  rsk_address_index entries !! k = Some i ↔
  ∃ e, entries !! i = Some e ∧ normalize_rsk_address (miner_address e) = k.
Proof.
  intros Hn. unfold rsk_address_index.
  rewrite (insert_all_lookup (normalize_rsk_address ∘ miner_address)); [rewrite lookup_empty|].
  - setoid_rewrite elem_of_lookup_imap. split.
    + intros [(e & (j & e' & [= -> ->] & He) & Hk)|[_ ?]]; [|done]. eauto.
    + intros (e & He & Hk). left. exists e. split; [|done]. eauto.
  - rewrite fmap_imap. cbn. erewrite imap_ext; [|intros; reflexivity].
    rewrite <-(imap_const (normalize_rsk_address ∘ miner_address)) in Hn. exact Hn.
Qed.

(** A registry of identities is accepted exactly when its version is 1, its fields are
    trimmed and not blank, each identifier is well formed, no two have the same normal form, and
    a slug has one name. The pools it defines are then its slugs, once each, with their names. *)
Theorem registry_accepts_exactly (field : string) (validator : string → result string unit)
    (key : string → string) (version : Z) (entries : list IdentityRegistryEntry) :
  (validate_identity_registry field validator key version entries = Ok () ↔
   version = 1 ∧ Forall (entry_ok validator) entries ∧ NoDup (key ∘ identifier <$> entries) ∧
   ∀ e e', e ∈ entries → e' ∈ entries → ie_pool_slug e = ie_pool_slug e' →
     ie_pool_canonical_name e = ie_pool_canonical_name e') ∧
  (validate_identity_registry field validator key version entries = Ok () →
   NoDup (distinct_pool_definitions entries).*1 ∧
   ∀ s n, (s, n) ∈ distinct_pool_definitions entries ↔
     ∃ e, e ∈ entries ∧ ie_pool_slug e = s ∧ ie_pool_canonical_name e = n).
Proof.
  rewrite validate_identity_registry_Ok. split; [done|]. intros (_ & _ & _ & Hc).
  by apply distinct_definitions_exact.
Qed.

(** With a loaded registry, an RSK miner address resolves exactly to the entry with the same
    address up to surrounding white space, the case of its digits and the prefix [0x]; every
    entry is 40 hexadecimal digits. *)
Theorem rsk_miner_exact (reg : RskMinerRegistry) (r : PoolIdentityRegistry) (address : string) (e : RskMinerEntry) :
  from_rsk_registry reg = Ok r →
  (resolve_rsk_miner r address = Some e ↔
   e ∈ rr_entries reg ∧ normalize_rsk_address (miner_address e) = normalize_rsk_address address) ∧
  (e ∈ rr_entries reg →
   str_len (normalize_rsk_address (miner_address e)) = 40%nat ∧
   Forall (λ b, is_ascii_hexdigit b = true) (as_bytes (normalize_rsk_address (miner_address e)))).
Proof.
  unfold from_rsk_registry. intros ([] & Hv & [= <-])%bind_Ok.
  unfold validate_rsk_registry in Hv. rewrite map_err_Ok, validate_identity_registry_Ok in Hv.
  destruct Hv as (_ & Hok & Hn & _). rewrite <-list_fmap_compose in Hn. split.
  - unfold resolve_rsk_miner. cbn. rewrite bind_Some. setoid_rewrite rsk_index_lookup; [|done].
    setoid_rewrite list_elem_of_lookup. split; [naive_solver|]. intros [[i Hi] He]. exists i. split; [|done]. eauto.
  - intros He. rewrite Forall_fmap, Forall_forall in Hok. specialize (Hok e He) as (_ & _ & _ & Hf). cbn in Hf.
    unfold validate_rsk_miner_address_format in Hf. destruct (_ =? 40)%nat eqn:Hl; [|done].
    destruct (forallb _ _) eqn:Hh; [|done]. apply Nat.eqb_eq in Hl. split; [done|].
    apply Forall_forall. intros b Hb. rewrite forallb_forall in Hh.
    by apply Hh, list_elem_of_In.
Qed.

(** ** Samples *)

Module PoolsSample.

Definition origin : PoolSnapshotSource := mkSnapshotSource "sample" None None None.
Definition via : PoolRecord := mkPool "viabtc" (Some 1) "ViaBTC" ["/ViaBTC/"%string] [" 1Via"%string] None.
Definition tatmas : PoolRecord := mkPool "tatmas" None "TATMAS Pool" ["/ViaBTC/TATMAS Pool/"%string] [] None.
Definition snapshot : PoolSnapshot := mkSnapshot 1 "2026-05-25" "test" origin [via; tatmas].
Definition resolver : PoolResolver :=
  mkResolver snapshot (merge_sort tag_before (tag_index (pools snapshot))) (address_index (pools snapshot)).
Definition script : bytes := x00 :: as_bytes "/ViaBTC/TATMAS Pool/" ++ [x00].

Lemma loads : from_snapshot snapshot = Ok resolver.
Proof. vm_compute. reflexivity. Qed.

Lemma most_specific_tag_wins_witness :
  resolve_coinbase_script resolver script = Some (mkMatch tatmas CoinbaseTag "/ViaBTC/TATMAS Pool/") ∧
  best_match snapshot script (mkMatch tatmas CoinbaseTag "/ViaBTC/TATMAS Pool/").
Proof.
  assert (resolve_coinbase_script resolver script = Some (mkMatch tatmas CoinbaseTag "/ViaBTC/TATMAS Pool/"))
    as H by (vm_compute; reflexivity).
  split; [exact H|]. pose proof (most_specific_tag_wins snapshot resolver script loads) as Hm.
  rewrite H in Hm. exact Hm.
Defined.

Lemma payout_address_exact_witness :
  resolve_payout_address resolver "1Via  " = Some (mkMatch via PayoutAddress "1Via") ∧
  via ∈ pools snapshot ∧ trim "1Via  " ∈ trim <$> payout_addresses via.
Proof.
  assert (resolve_payout_address resolver "1Via  " = Some (mkMatch via PayoutAddress "1Via"))
    as H by (vm_compute; reflexivity).
  split; [exact H|]. apply (payout_address_exact snapshot resolver _ _ loads) in H as (_ & _ & ? & ?). by split.
Defined.

Definition miner : RskMinerEntry :=
  mkRskMiner "0x12D3178a62ef1f520944534ed04504609f7307a1" "f2pool" "F2Pool".
Definition registry : RskMinerRegistry := mkRskRegistry 1 "2026-05-26" "test" origin [miner].

Lemma rsk_miner_exact_witness :
  resolve_rsk_miner (mkIdentityRegistry registry (rsk_address_index [miner]))
    " 12d3178a62ef1f520944534ed04504609f7307A1" = Some miner.
Proof.
  apply (rsk_miner_exact registry); [vm_compute; reflexivity|].
  split; [apply list_elem_of_singleton; reflexivity|vm_compute; reflexivity].
Defined.

Definition entries : list IdentityRegistryEntry := [mkRegistryEntry "a" "f2pool" "F2Pool"; mkRegistryEntry "b" "f2pool" "F2Pool"].

Lemma registry_accepts_exactly_witness :
  validate_identity_registry "identifier" accept_any_identifier identity_key 1 entries = Ok () ∧
  NoDup (distinct_pool_definitions entries).*1.
Proof.
  split; [vm_compute; reflexivity|].
  apply (registry_accepts_exactly "identifier" accept_any_identifier identity_key 1 entries).
  vm_compute. reflexivity.
Defined.

(** The errors of the loaders. *)
Example duplicate_tag_refused :
  from_snapshot (mkSnapshot 1 "" "" origin [via; mkPool "two" None "Two" ["/ViaBTC/"%string] [] None])
  = Err (DuplicateValue "coinbase_tags" "/ViaBTC/" "viabtc" "two").
Proof. vm_compute. reflexivity. Qed.
Example name_conflict_refused :
  validate_identity_registry "identifier" accept_any_identifier identity_key 1
    [mkRegistryEntry "a" "f2pool" "F2Pool"; mkRegistryEntry "b" "f2pool" "Discus Fish"]
  = Err (IrSlugCanonicalNameConflict "f2pool" "F2Pool" "Discus Fish").
Proof. vm_compute. reflexivity. Qed.
End PoolsSample.
