(* ===== verification/Attribution.v ===== *)
(** * Pool attributions

    Models the resolution of the pools of a captured block
    ([crates/mmm-capture/src/capture/mod.rs], [child_payout.rs]) and the policy that decides
    whether a replay may overwrite a stored attribution ([attribution_policy.rs]). Addresses
    are formatted by libraries: the class [AddressLib] has the calls the code makes. *)

From S2P Require Import Prelude BitcoinLib Effects Errors Reader Auxpow SyncState Payload EventStore LiveLoop Poller Chains Pools.

Local Open Scope Z_scope.

Class AddressLib := {
  (** [Address::from_str], then [require_network(Network::Bitcoin)] and [to_string]: the outer
      option is the parse, the inner one the network. *)
  parse_address : string → option (option string);
  hex_decode : string → option bytes;
  (** [Script::is_p2pkh], [is_p2sh] and [witness_version]. *)
  is_p2pkh : bytes → bool;
  is_p2sh : bytes → bool;
  witness_version : bytes → option Z;
  base58_encode_check : bytes → string;
  (** [Hrp::parse] and [segwit::encode]. *)
  segwit_encode : string → Z → bytes → option string;
}.

(** ** Attributions of one match *)

Definition BTC_COINBASE_TAG_NAMESPACE : string := "btc_coinbase_tag".
Definition BTC_PAYOUT_ADDRESS_NAMESPACE : string := "btc_payout_address".
Definition BTC_POOL_SNAPSHOT_SOURCE : string := "btc_pool_snapshot".
Definition BTC_POOL_SNAPSHOT_LEGACY_CHILD_SCRIPT_SOURCE : string := "btc_pool_snapshot_legacy_child_script".
Definition RSK_MINER_REGISTRY_SOURCE : string := "rsk_miner_registry".
Definition RSK_RPC_MINER_SOURCE : string := "rsk_rpc_miner".

Definition from_btc_pool_match (side : PoolAttributionSide) (m : PoolMatch) (pool_id : option Z) (source : string)
    : EventPoolAttribution :=
  let '(namespace, match_kind) :=
    match matched_by m with
    | CoinbaseTag => (BTC_COINBASE_TAG_NAMESPACE, "coinbase_tag"%string)
    | PayoutAddress => (BTC_PAYOUT_ADDRESS_NAMESPACE, "payout_address"%string)
    end in
  {| at_side := side; at_namespace := namespace; at_match_kind := match_kind;
     at_matched_value := matched_value m; at_pool_id := pool_id; at_pool_identity_id := None;
     at_source := source; at_confidence := ConfHigh; at_details := Object [] |}.

Definition from_btc_parent_pool_match (m : PoolMatch) (pool_id : Z) : EventPoolAttribution :=
  from_btc_pool_match SideBtcParent m (Some pool_id) BTC_POOL_SNAPSHOT_SOURCE.
Definition from_legacy_child_pool_match (m : PoolMatch) (pool_id : Z) : EventPoolAttribution :=
  from_btc_pool_match SideChildBlock m (Some pool_id) BTC_POOL_SNAPSHOT_LEGACY_CHILD_SCRIPT_SOURCE.

Definition rsk_miner_address (address : string) (pool_id pool_identity_id : option Z) (mapped : bool)
    : EventPoolAttribution :=
  {| at_side := SideChildBlock; at_namespace := RSK_MINER_ADDRESS_NAMESPACE; at_match_kind := "miner_address";
     at_matched_value := address; at_pool_id := pool_id; at_pool_identity_id := pool_identity_id;
     at_source := if mapped then RSK_MINER_REGISTRY_SOURCE else RSK_RPC_MINER_SOURCE;
     at_confidence := ConfHigh; at_details := Object [] |}.

(** ** Child payout addresses ([child_payout.rs])

    [Chains] has the parameters of each chain. *)

Definition accepts_witness_program (p : ChildPayoutParams) (version : Z) (len : nat) : bool :=
  match witness_program p with
  | None => true
  | Some expected => bool_decide (expected = (version, Z.of_nat len))
  end.

Definition NAMECOIN_PAYOUT_ADDRESS_NAMESPACE : string := "namecoin_payout_address".
Definition SYSCOIN_PAYOUT_ADDRESS_NAMESPACE : string := "syscoin_payout_address".
Definition FRACTAL_REWARD_ADDRESS_NAMESPACE : string := "fractal_reward_address".
Definition QBIT_PAYOUT_ADDRESS_NAMESPACE : string := "qbit_payout_address".

Inductive ChildPayoutConfidence := PayoutHigh | PayoutMedium.

Record PoolIdentityRef := mkIdentityRef {
  ref_pool_id : Z;
  ref_pool_identity_id : Z;
  payout_confidence : ChildPayoutConfidence;
}.

Definition PoolIdentityLookup : Type := gmap (string * string) PoolIdentityRef.

Definition params_for_source_code (code : string) : option ChildPayoutParams :=
  if bool_decide (code = "auxpow:namecoin"%string) then Some NAMECOIN_CHILD_PAYOUT_PARAMS
  else if bool_decide (code = "auxpow:syscoin"%string) then Some SYSCOIN_CHILD_PAYOUT_PARAMS
  else if bool_decide (code = "auxpow:fractal"%string) then Some FRACTAL_CHILD_REWARD_PARAMS
  else if bool_decide (code = "auxpow:qbit"%string) then Some QBIT_CHILD_PAYOUT_PARAMS
  else None.

Definition child_payout_address (params : ChildPayoutParams) (address : string) (identity : option PoolIdentityRef)
    : EventPoolAttribution :=
  {| at_side := SideChildBlock; at_namespace := pay_namespace params; at_match_kind := "payout_address";
     at_matched_value := address; at_pool_id := ref_pool_id <$> identity;
     at_pool_identity_id := ref_pool_identity_id <$> identity;
     at_source := if is_some identity then CHILD_PAYOUT_REGISTRY_SOURCE else CHILD_COINBASE_OUTPUT_SOURCE;
     at_confidence := match payout_confidence <$> identity with Some PayoutHigh => ConfHigh | _ => ConfMedium end;
     at_details := Object [("address_source", Str "child_coinbase_outputs")]%string |}.

(** ** Published outputs *)

(** [str::split] on two ASCII characters, [split_once] and [starts_with]. *)
Fixpoint split_bytes (sep : byte → bool) (s : bytes) : list bytes :=
  match s with
  | [] => [[]]
  | a :: s =>
      if sep a then [] :: split_bytes sep s
      else match split_bytes sep s with
           | piece :: pieces => (a :: piece) :: pieces
           | [] => [[a]]
           end
  end.
Definition split_entries (value : string) : list string :=
  (λ b, trim (String.string_of_list_byte b)) <$>
    split_bytes (λ a, bool_decide (a = x3b) || bool_decide (a = x7c)) (as_bytes value).
Fixpoint split_once_bytes (a : byte) (s : bytes) : option (bytes * bytes) :=
  match s with
  | [] => None
  | b :: s => if bool_decide (b = a) then Some ([], s)
              else '(l, r) ← split_once_bytes a s; Some (b :: l, r)
  end.
Definition split_once (a : byte) (s : string) : option (string * string) :=
  '(l, r) ← split_once_bytes a (as_bytes s);
  Some (String.string_of_list_byte l, String.string_of_list_byte r).
Definition starts_with (prefix s : string) : bool := is_some (strip_prefix prefix s).

(** [if !v.contains(&x) { v.push(x) }] over a list. *)
Definition push_new {A} `{EqDecision A} (v : list A) (x : A) : list A := if bool_decide (x ∈ v) then v else v ++ [x].

Section resolve.
Context `{BitcoinLib, AddressLib}.

Definition published_parent_output_address (candidate : string) : option string :=
  if bool_decide (candidate = ""%string) then None
  else match parse_address candidate with
       | Some on_network => on_network
       | None =>
           if negb (Nat.even (str_len candidate)) || negb (forallb is_ascii_hexdigit (as_bytes candidate)) then None
           else script ← hex_decode candidate; address_from_script script
       end.

Definition published_entry_address (entry : string) : option string :=
  if bool_decide (entry = ""%string) || starts_with "OP_RETURN" entry || starts_with "nonstandard:" entry then None
  else
    let halves :=
      '(lhs, rhs) ← split_once x3a entry;
      match published_parent_output_address (trim lhs) with
      | Some a => Some a
      | None => published_parent_output_address (trim rhs)
      end in
    match halves with Some a => Some a | None => published_parent_output_address entry end.

Definition published_parent_coinbase_output_addresses (value : string) : list string :=
  foldl push_new [] (omap published_entry_address (split_entries value)).

Definition base58_address (version : Z) (payload : bytes) : string :=
  base58_encode_check (byte_of_Z version :: payload).

Definition format_child_script_address (script : bytes) (params : ChildPayoutParams) : option string :=
  if is_p2pkh script then (λ v, base58_address v (take 20 (drop 3 script))) <$> p2pkh_version params
  else if is_p2sh script then (λ v, base58_address v (take 20 (drop 2 script))) <$> p2sh_version params
  else
    version ← witness_version script;
    let program := drop 2 script in
    if negb (accepts_witness_program params version (length program)) then None
    else segwit_encode (bech32_hrp params) version program.

Definition child_output_addresses (outputs : list TxOut) (params : ChildPayoutParams) : list string :=
  foldl push_new [] (omap (λ o, format_child_script_address (script_pubkey o) params) outputs).

Definition resolve_child_payout_attributions (outputs : list TxOut) (params : ChildPayoutParams)
    (identities : option PoolIdentityLookup) : list EventPoolAttribution :=
  (λ address, child_payout_address params address (ids ← identities; ids !! (pay_namespace params, address)))
    <$> child_output_addresses outputs params.

(** ** Attributions of a block *)

Definition resolve_btc_pool_match_from_coinbase (script : bytes) (addresses : list string) (resolver : PoolResolver)
    : option PoolMatch :=
  match resolve_coinbase_script resolver script with
  | Some m => Some m
  | None => resolve_payout_addresses resolver addresses
  end.

Definition resolve_parent_pool_attribution_from_coinbase (script : bytes) (addresses : list string)
    (resolver : PoolResolver) (pool_ids_by_slug : gmap string Z) : option EventPoolAttribution :=
  m ← resolve_btc_pool_match_from_coinbase script addresses resolver;
  from_btc_parent_pool_match m <$> pool_ids_by_slug !! pool_slug (pm_pool m).

(** The error is that of the decoder of the outputs. *)
Definition resolve_parent_pool_attribution_from_serialized_coinbase_outputs (script : bytes)
    (outputs : option bytes) (resolver : PoolResolver) (pool_ids_by_slug : gmap string Z)
    : result unit (option EventPoolAttribution) :=
  match resolve_parent_pool_attribution_from_coinbase script [] resolver pool_ids_by_slug with
  | Some a => mret (Some a)
  | None =>
      match outputs with
      | None => mret None
      | Some outputs_bytes =>
          match deserialize_txouts outputs_bytes with
          | None => Err ()
          | Some outputs =>
              mret (resolve_parent_pool_attribution_from_coinbase script (output_addresses outputs)
                      resolver pool_ids_by_slug)
          end
      end
  end.

Definition resolve_child_pool_attribution_from_script (script : option bytes) (resolver : PoolResolver)
    (pool_ids_by_slug : gmap string Z) : option EventPoolAttribution :=
  m ← script ≫= resolve_coinbase_script resolver;
  from_legacy_child_pool_match m <$> pool_ids_by_slug !! pool_slug (pm_pool m).

Definition resolve_event_pools_with_child_payout (parsed : ParsedAuxpowBlock) (resolver : PoolResolver)
    (pool_ids_by_slug : gmap string Z) (params : option ChildPayoutParams)
    (identities : option PoolIdentityLookup) : list EventPoolAttribution :=
  option_list (resolve_parent_pool_attribution_from_coinbase (parent_coinbase_script parsed)
                 (parent_coinbase_output_addresses parsed) resolver pool_ids_by_slug)
  ++ option_list (resolve_child_pool_attribution_from_script (child_coinbase_script parsed) resolver pool_ids_by_slug)
  ++ match params with
     | Some params => resolve_child_payout_attributions (child_coinbase_outputs parsed) params identities
     | None => []
     end.
End resolve.

(** ** The policy of replays ([attribution_policy.rs]) *)

Inductive WritePolicy :=
| ChildPayout (overwrite : bool)
| IdentityPromoteOnly.

Record KeyedAttributionRow := mkKeyedRow {
  kr_source : string;
  kr_match_kind : string;
  kr_pool_id : option Z;
  kr_pool_identity_id : option Z;
  kr_confidence : string;
  kr_details : Value;
}.

Definition ExistingAttributionSet : Type := gmap (string * string) KeyedAttributionRow.

Definition confidence_db_str (c : PoolAttributionConfidence) : string :=
  match c with ConfHigh => "high" | ConfMedium => "medium" | ConfLow => "low" end.

(** Equality of JSON values. An object is a map, so the order of its fields does not count. *)
Fixpoint value_eqb (v w : Value) : bool :=
  match v, w with
  | Null, Null => true
  | Bool a, Bool b => bool_decide (a = b)
  | Number a, Number b => bool_decide (a = b)
  | Str a, Str b => bool_decide (a = b)
  | Object fs, Object gs =>
      (length fs =? length gs)%nat
      && forallb (λ p, match assoc p.1 gs with Some y => value_eqb p.2 y | None => false end) fs
  | _, _ => false
  end.

(** One row of the array, when it has the fields the key and the comparison need. *)
Definition keyed_row (row : Value) : option (string * string * KeyedAttributionRow) :=
  namespace ← value_get row "namespace" ≫= as_str;
  value ← value_get row "matched_value" ≫= as_str;
  source ← value_get row "source" ≫= as_str;
  match_kind ← value_get row "match_kind" ≫= as_str;
  confidence ← value_get row "confidence" ≫= as_str;
  Some ((namespace, value),
        {| kr_source := source; kr_match_kind := match_kind; kr_pool_id := value_get row "pool_id" ≫= as_i64;
           kr_pool_identity_id := value_get row "pool_identity_id" ≫= as_i64; kr_confidence := confidence;
           kr_details := default (Object []) (value_get row "details") |}).

(** [None] is a value that is not an array. *)
Definition from_json (rows : option (list Value)) : ExistingAttributionSet :=
  foldl (λ m '(k, r), <[k := r]> m) ∅ (omap keyed_row (default [] rows)).

Definition keyed_matches (r : KeyedAttributionRow) (a : EventPoolAttribution) : bool :=
  bool_decide (kr_source r = at_source a) && bool_decide (kr_match_kind r = at_match_kind a)
  && bool_decide (kr_pool_id r = at_pool_id a) && bool_decide (kr_pool_identity_id r = at_pool_identity_id a)
  && bool_decide (kr_confidence r = confidence_db_str (at_confidence a)) && value_eqb (kr_details r) (at_details a).

Definition should_write (existing : ExistingAttributionSet) (a : EventPoolAttribution) (policy : WritePolicy) : bool :=
  match existing !! (at_namespace a, at_matched_value a) with
  | None => true
  | Some row =>
      if keyed_matches row a then false
      else match policy with
           | ChildPayout overwrite =>
               if is_some (kr_pool_id row) && negb (is_some (at_pool_id a)) then false
               else if is_some (kr_pool_id row) && negb overwrite then false
               else true
           | IdentityPromoteOnly =>
               if is_some (kr_pool_id row) && is_some (at_pool_id a)
                  && (negb (bool_decide (kr_pool_id row = at_pool_id a))
                      || negb (bool_decide (kr_pool_identity_id row = at_pool_identity_id a))) then false
               else if is_some (kr_pool_id row) && negb (is_some (at_pool_id a)) then false
               else true
           end
  end.

(** A resolved row is never demoted, and is remapped only on request. *)
Lemma should_write_resolved existing a policy row :
  existing !! (at_namespace a, at_matched_value a) = Some row → is_some (kr_pool_id row) = true →
  should_write existing a policy = true →
  is_some (at_pool_id a) = true ∧
  match policy with
  | ChildPayout overwrite => overwrite = true
  | IdentityPromoteOnly => at_pool_id a = kr_pool_id row ∧ at_pool_identity_id a = kr_pool_identity_id row
  end.
Proof.
  unfold should_write. intros -> Hr. rewrite Hr. destruct (keyed_matches row a); [done|].
  destruct policy as [[]|], (is_some (at_pool_id a)); cbn; try done.
  intros Hw. split; [done|]. revert Hw. repeat case_bool_decide; naive_solver.
Qed.

(** ** Storing attributions *)

Lemma push_new_in {A} `{EqDecision A} (v : list A) x y : y ∈ push_new v x ↔ y ∈ v ∨ y = x.
Proof. unfold push_new. case_bool_decide; set_solver. Qed.
Lemma push_new_NoDup {A} `{EqDecision A} (v : list A) x : NoDup v → NoDup (push_new v x).
Proof.
  unfold push_new. case_bool_decide; [done|]. intros. apply NoDup_app. split_and!; [done|set_solver|apply NoDup_singleton].
Qed.
Lemma push_all {A} `{EqDecision A} (l v : list A) :
  NoDup v → NoDup (foldl push_new v l) ∧ ∀ y, y ∈ foldl push_new v l ↔ y ∈ v ∨ y ∈ l.
Proof.
  revert v. induction l as [|x l IH]; intros v Hv; cbn; [set_solver|].
  destruct (IH (push_new v x)) as [Hn Hi]; [by apply push_new_NoDup|]. split; [done|].
  intros y. rewrite Hi, push_new_in, elem_of_cons. tauto.
Qed.

Definition attribution_ok (a : EventPoolAttribution) : Prop :=
  at_pool_identity_id a ≠ None → at_pool_id a ≠ None.

Lemma attribution_ok_chk a t : attribution_ok a → chk_attribution (new_attribution a t) = true.
Proof.
  unfold attribution_ok, chk_attribution, new_attribution. cbn.
  destruct (at_pool_identity_id a), (at_pool_id a); naive_solver.
Qed.

Lemma merge_attribution_chk old new :
  chk_attribution old = true → chk_attribution new = true → chk_attribution (merge_attribution old new) = true.
Proof.
  unfold chk_attribution, merge_attribution. cbn. destruct old as [? [] [] ? ? ? ? ?], new as [? [] [] ? ? ? ? ?]; done.
Qed.

Lemma attribution_rows_storable t event attributions at_ :
  map_Forall (λ _ r, chk_attribution r = true) t → Forall attribution_ok attributions →
  ∃ t', upsert_event_pool_attribution_rows t event attributions at_ = Ok t'.
Proof.
  intros Ht Ha. revert t Ht. induction Ha as [|a l Ha _ IH]; intros t Ht; cbn; [eauto|].
  pose proof (attribution_ok_chk a at_ Ha) as Hn.
  assert (chk_attribution (match t !! attribution_row_key event a with
    | Some old => merge_attribution old (new_attribution a at_) | None => new_attribution a at_ end) = true) as Hrow.
  { destruct (t !! _) eqn:Hk; [|done]. apply merge_attribution_chk; [by eapply Ht|done]. }
  rewrite Hn, Hrow. cbn. apply IH. by apply map_Forall_insert_2.
Qed.

Lemma stale_cleanup_subset t event attributions :
  delete_stale_event_pool_attributions_for_sources t event attributions ⊆ t.
Proof.
  unfold delete_stale_event_pool_attributions_for_sources.
  generalize (remove_dups ((λ a, (at_side a, at_source a)) <$> attributions)) as groups.
  intros groups. revert t. induction groups as [|g groups IH]; intros t; cbn; [done|].
  etrans; [apply IH|]. apply map_filter_subseteq.
Qed.

Section theorems.
Context `{BitcoinLib, AddressLib}.

(** The pool that lists an address, up to surrounding white space. *)
Definition lists (s : PoolSnapshot) (address : string) (m : PoolMatch) : Prop :=
  matched_by m = PayoutAddress ∧ matched_value m = trim address ∧ pm_pool m ∈ pools s ∧
  trim address ∈ trim <$> payout_addresses (pm_pool m).
Definition no_tag (s : PoolSnapshot) (script : bytes) : Prop :=
  ∀ p t, p ∈ pools s → t ∈ coinbase_tags p → ¬ occurs (as_bytes t) script.

(** The match of a parent: its longest tag, else the first listed address. *)
Definition parent_match (s : PoolSnapshot) (script : bytes) (addresses : list string) (m : PoolMatch) : Prop :=
  best_match s script m ∨
  no_tag s script ∧ ∃ before address after, addresses = before ++ address :: after ∧ lists s address m ∧
    Forall (λ a, ∀ m, ¬ lists s a m) before.

Lemma parent_match_resolved s r script addresses :
  from_snapshot s = Ok r →
  match resolve_btc_pool_match_from_coinbase script addresses r with
  | Some m => parent_match s script addresses m
  | None => no_tag s script ∧ ∀ a m, a ∈ addresses → ¬ lists s a m
  end.
Proof.
  intros Hr. unfold resolve_btc_pool_match_from_coinbase, parent_match.
  pose proof (tag_resolution s r script Hr) as Ht.
  destruct (resolve_coinbase_script r script) as [m|]; [by left|].
  assert (∀ a m, resolve_payout_address r a = Some m ↔ lists s a m) as Ha
    by (intros a m; exact (payout_resolution s r a m Hr)).
  destruct (resolve_payout_addresses r addresses) as [m|] eqn:Hm.
  - apply find_map_Some in Hm as (l1 & a & l2 & -> & Hm%Ha & Hl). right. split; [done|].
    exists l1, a, l2. split_and!; [done|done|]. eapply Forall_impl; [exact Hl|].
    cbn. intros x Hx m' Hm'%Ha. congruence.
  - split; [done|]. intros a m Hin Hl%Ha. unfold resolve_payout_addresses in Hm.
    rewrite find_map_None in Hm. rewrite (Hm a Hin) in Hl. done.
Qed.

Lemma parent_attribution_ok script addresses r ids a :
  resolve_parent_pool_attribution_from_coinbase script addresses r ids = Some a → attribution_ok a.
Proof.
  unfold resolve_parent_pool_attribution_from_coinbase.
  intros (m & _ & (id & _ & ->)%fmap_Some)%bind_Some. unfold attribution_ok.
  destruct m as [? [] ?]; done.
Qed.
Lemma child_attribution_ok script r ids a :
  resolve_child_pool_attribution_from_script script r ids = Some a → attribution_ok a.
Proof.
  unfold resolve_child_pool_attribution_from_script.
  intros (m & _ & (id & _ & ->)%fmap_Some)%bind_Some. unfold attribution_ok.
  destruct m as [? [] ?]; done.
Qed.
Lemma payout_attributions_ok outputs params identities :
  Forall attribution_ok (resolve_child_payout_attributions outputs params identities).
Proof.
  apply Forall_fmap, Forall_forall. intros address _. unfold attribution_ok. cbn.
  by destruct (identities ≫= _).
Qed.
Lemma resolved_attributions_ok parsed r ids params identities :
  Forall attribution_ok (resolve_event_pools_with_child_payout parsed r ids params identities).
Proof.
  unfold resolve_event_pools_with_child_payout. rewrite !Forall_app. split_and!.
  - destruct (resolve_parent_pool_attribution_from_coinbase _ _ _ _) eqn:Hp; repeat constructor.
    by eapply parent_attribution_ok.
  - destruct (resolve_child_pool_attribution_from_script _ _ _) eqn:Hc; repeat constructor.
    by eapply child_attribution_ok.
  - destruct params; [apply payout_attributions_ok|constructor].
Qed.

(** A parent is attributed by the longest tag in its coinbase, and by its payout addresses,
    the first listed one, only when no tag occurs; it has no attribution exactly when nothing
    matches or the matched pool has no row. *)
Theorem parent_attribution_exact (s : PoolSnapshot) (r : PoolResolver) (script : bytes) (addresses : list string)
    (ids : gmap string Z) :
  from_snapshot s = Ok r →
  match resolve_parent_pool_attribution_from_coinbase script addresses r ids with
  | Some a => ∃ m id, parent_match s script addresses m ∧ ids !! pool_slug (pm_pool m) = Some id ∧
                a = from_btc_parent_pool_match m id
  | None => no_tag s script ∧ (∀ a m, a ∈ addresses → ¬ lists s a m) ∨
            ∃ m, parent_match s script addresses m ∧ ids !! pool_slug (pm_pool m) = None
  end.
Proof.
  intros Hr%(parent_match_resolved _ _ script addresses). unfold resolve_parent_pool_attribution_from_coinbase.
  destruct (resolve_btc_pool_match_from_coinbase script addresses r) as [m|]; cbn; [|by left].
  destruct (ids !! pool_slug (pm_pool m)) as [id|] eqn:Hid; cbn; eauto.
Qed.

(** A child's payouts are attributed once per distinct address its outputs format to, in the
    chain's namespace; the pool, the identity and the registry as the source are set exactly for
    an address the registry has. *)
Theorem child_payouts_exact (outputs : list TxOut) (params : ChildPayoutParams) (identities : option PoolIdentityLookup) :
  let attributions := resolve_child_payout_attributions outputs params identities in
  NoDup (at_matched_value <$> attributions) ∧
  (∀ address, address ∈ at_matched_value <$> attributions ↔
     ∃ o, o ∈ outputs ∧ format_child_script_address (script_pubkey o) params = Some address) ∧
  ∀ a, a ∈ attributions →
    at_side a = SideChildBlock ∧ at_namespace a = pay_namespace params ∧
    match identities ≫= (λ ids, ids !! (pay_namespace params, at_matched_value a)) with
    | Some ref => at_pool_id a = Some (ref_pool_id ref) ∧ at_pool_identity_id a = Some (ref_pool_identity_id ref) ∧
                  at_source a = CHILD_PAYOUT_REGISTRY_SOURCE
    | None => at_pool_id a = None ∧ at_pool_identity_id a = None ∧ at_source a = CHILD_COINBASE_OUTPUT_SOURCE
    end.
Proof.
  cbv zeta. unfold resolve_child_payout_attributions.
  assert (∀ l : list string, at_matched_value <$> ((λ address, child_payout_address params address
     (ids ← identities; ids !! (pay_namespace params, address))) <$> l) = l) as Hv.
  { intros l. rewrite <-list_fmap_compose. apply list_fmap_id. }
  rewrite Hv. destruct (push_all (omap (λ o, format_child_script_address (script_pubkey o) params) outputs) [])
    as [Hn Hi]; [constructor|]. split_and!; [exact Hn| |].
  - intros address. unfold child_output_addresses. rewrite Hi, list_elem_of_omap. set_solver.
  - intros a (address & -> & _)%list_elem_of_fmap. cbn. destruct (identities ≫= _) as [[]|]; done.
Qed.

(** The attributions a captured block resolves to never violate the constraints of the
    table: with consistent stored rows, storing them always succeeds. *)
Theorem resolved_attributions_storable (parsed : ParsedAuxpowBlock) (r : PoolResolver) (ids : gmap string Z)
    (params : option ChildPayoutParams) (identities : option PoolIdentityLookup) (db : StoreDb) (event at_ : Z) :
  map_Forall (λ _ row, chk_attribution row = true) (sd_attributions db) →
  ∃ db', upsert_event_pool_attributions db event
           (resolve_event_pools_with_child_payout parsed r ids params identities) at_ = Ok db'.
Proof.
  intros Ht. unfold upsert_event_pool_attributions.
  destruct (attribution_rows_storable
              (delete_stale_event_pool_attributions_for_sources (sd_attributions db) event
                 (resolve_event_pools_with_child_payout parsed r ids params identities)) event
              (resolve_event_pools_with_child_payout parsed r ids params identities) at_) as [t' Ht'].
  - intros k row Hk. eapply Ht, lookup_weaken; [exact Hk|apply stale_cleanup_subset].
  - apply resolved_attributions_ok.
  - rewrite Ht'. cbn. eauto.
Qed.
End theorems.

(** ** Samples *)

Module AttributionSample.
Import Toy PoolsSample.

#[export] Instance addresses : AddressLib := {
  parse_address s := if bool_decide (s = "1Via"%string) then Some (Some s) else None;
  hex_decode s := Some (as_bytes s);
  is_p2pkh s := (length s =? 25)%nat && bool_decide (take 3 s = [x76; xa9; x14]);
  is_p2sh s := (length s =? 23)%nat && bool_decide (take 2 s = [xa9; x14]);
  witness_version s := match s with x52 :: x20 :: _ => Some 2 | _ => None end;
  base58_encode_check bs := String.string_of_list_byte bs;
  segwit_encode hrp _ program := Some (String.append hrp (String.string_of_list_byte program));
}.

Definition ids : gmap string Z := {["viabtc" := 7; "tatmas" := 8]}%string.

(** No tag: the second address is the first one listed. *)
Lemma parent_attribution_exact_witness :
  ∃ m id, parent_match snapshot [x01] ["1None"; "1Via"]%string m ∧ ids !! pool_slug (pm_pool m) = Some id ∧
    mkAttribution SideBtcParent "btc_payout_address" "payout_address" "1Via" (Some 7) None "btc_pool_snapshot"
      ConfHigh (Object []) = from_btc_parent_pool_match m id.
Proof.
  pose proof (parent_attribution_exact snapshot resolver [x01] ["1None"; "1Via"]%string ids loads) as H.
  assert (resolve_parent_pool_attribution_from_coinbase [x01] ["1None"; "1Via"]%string resolver ids =
    Some (mkAttribution SideBtcParent "btc_payout_address" "payout_address" "1Via" (Some 7) None "btc_pool_snapshot"
      ConfHigh (Object []))) as Ha by (vm_compute; reflexivity).
  rewrite Ha in H. exact H.
Defined.

Definition stored : StoreDb := with_attributions EventStoreSample.empty
  {[ (1, SideBtcParent, "btc_payout_address", "1Via")%string :=
     mkAttrRow "payout_address" (Some 7) None "btc_pool_snapshot" ConfHigh (Object []) 5 5 ]}.

Lemma resolved_attributions_storable_witness :
  ∃ db', upsert_event_pool_attributions stored 1
           (resolve_event_pools_with_child_payout ex_block resolver ids (Some NAMECOIN_CHILD_PAYOUT_PARAMS) None) 9 = Ok db'.
Proof.
  apply resolved_attributions_storable. apply map_Forall_singleton. reflexivity.
Defined.

Example published_text :
  published_parent_coinbase_output_addresses "OP_RETURN aa; 1Via:5000 | 1Via;nonstandard:1Via" = ["1Via"%string].
Proof. vm_compute. reflexivity. Qed.
End AttributionSample.
