(* ===== verification/PoolStore.v ===== *)
(** * The tables of pools and pool identities

    Models [crates/mmm-store/src/pool.rs] and the registry upserts of [chains/rsk.rs]: the
    table of pools, the table of pool identities with its constraints, and the queue of
    relationship summaries an identity change must refresh. The statements run outside a
    transaction, so a failing one leaves what the earlier ones wrote: the world is the
    database itself. [fails n] says whether the [n]-th statement of the session fails. *)

From S2P Require Import Prelude BitcoinLib Effects Errors Payload EventStore Pools Attribution.

Local Open Scope Z_scope.

Record PoolRow := mkPoolRow {
  po_id : Z;
  po_canonical_name : string;
  po_coinbase_tags : list string;
  po_payout_addresses : list string;
}.

(** A row of [pool_identity], keyed by namespace and identifier. *)
Record PoolIdentityRow := mkIdentityRow { pi_id : Z; pi_pool_id : Z }.

Record PoolDb := mkPoolDb {
  pd_pools : gmap string PoolRow;
  pd_pool_next : Z;
  pd_identities : gmap (string * string) PoolIdentityRow;
  pd_identity_next : Z;
  (** [relationship_refresh_queue]: the identity rows, oldest first. *)
  pd_queue : list (string * string);
  (** The statements run so far. *)
  pd_statements : nat;
}.

Definition with_pools (db : PoolDb) (t : gmap string PoolRow) (next : Z) : PoolDb :=
  mkPoolDb t next (pd_identities db) (pd_identity_next db) (pd_queue db) (pd_statements db).
Definition with_identities (db : PoolDb) (t : gmap (string * string) PoolIdentityRow) (next : Z)
    (changed : list (string * string)) : PoolDb :=
  mkPoolDb (pd_pools db) (pd_pool_next db) t next (pd_queue db ++ changed) (pd_statements db).
Definition bump_identity (db : PoolDb) : PoolDb :=
  mkPoolDb (pd_pools db) (pd_pool_next db) (pd_identities db) (pd_identity_next db + 1) (pd_queue db) (pd_statements db).
Definition count_statement (db : PoolDb) : PoolDb :=
  mkPoolDb (pd_pools db) (pd_pool_next db) (pd_identities db) (pd_identity_next db) (pd_queue db) (S (pd_statements db)).

(** [pool_identity_namespace_check]. *)
Definition namespace_ok (namespace : string) : bool :=
  bool_decide (namespace ∈ ["rsk_miner_address"; "namecoin_payout_address"; "syscoin_payout_address";
    "fractal_reward_address"; "hathor_reward_address"; "elastos_reward_address"; "elastos_minerinfo";
    "qbit_payout_address"; "core_reward_address"; "exsat_account"]%string).
(** [pool_id REFERENCES pool(id)]. *)
Definition pool_exists (db : PoolDb) (id : Z) : bool := bool_decide (map_Exists (λ _ p, po_id p = id) (pd_pools db)).

Record PoolIdentitySeed := mkSeed { seed_identifier : string; seed_pool_slug : string }.

Section store.
Context (fails : nat → bool).

Definition poolM (A : Type) : Type := stM PoolDb anyhow A.

(** One statement: it fails on its own account, or has the outcome of [f]. A failing statement
    changes nothing. *)
Definition statement {A} (context : string) (f : PoolDb → result unit (A * PoolDb)) : poolM A := λ db,
  let n := pd_statements db in
  let db := count_statement db in
  if fails n then (Err (Other context), db)
  else match f db with
       | Ok (a, db') => (Ok a, db')
       | Err _ => (Err (Other context), db)
       end.

(** ** Pools *)

(** [INSERT INTO pool .. ON CONFLICT (slug) DO UPDATE SET ..]: [update] is the row that replaces
    a stored one. An identity value is consumed also by a conflict. *)
Definition upsert_pool (slug : string) (new : Z → PoolRow) (update : PoolRow → PoolRow) (db : PoolDb)
    : result unit (Z * PoolDb) :=
  let next := pd_pool_next db in
  let row := match pd_pools db !! slug with Some old => update old | None => new next end in
  mret (po_id row, with_pools db (<[slug := row]> (pd_pools db)) (next + 1)).

Definition snapshot_row (p : PoolRecord) (id : Z) : PoolRow :=
  mkPoolRow id (canonical_name p) (coinbase_tags p) (payout_addresses p).

Fixpoint upsert_snapshot_pools (ids : gmap string Z) (ps : list PoolRecord) : poolM (gmap string Z) :=
  match ps with
  | [] => mret ids
  | p :: ps =>
      id ← statement "upsert pool" (upsert_pool (pool_slug p) (snapshot_row p) (λ old, snapshot_row p (po_id old)));
      upsert_snapshot_pools (<[pool_slug p := id]> ids) ps
  end.
Definition upsert_pool_snapshot (s : PoolSnapshot) : poolM (gmap string Z) := upsert_snapshot_pools ∅ (pools s).

Fixpoint upsert_registry_only_pools (ids : gmap string Z) (definitions : list (string * string))
    : poolM (gmap string Z) :=
  match definitions with
  | [] => mret ids
  | (slug, name) :: definitions =>
      if bool_decide (is_Some (ids !! slug)) then upsert_registry_only_pools ids definitions
      else
        id ← statement "upsert registry pool" (upsert_pool slug (λ id, mkPoolRow id name [] []) id);
        upsert_registry_only_pools (<[slug := id]> ids) definitions
  end.

(** ** Identities *)

(** [INSERT .. ON CONFLICT (namespace, identifier) DO NOTHING RETURNING id], which queues what it
    inserted. *)
Definition insert_identity (namespace identifier : string) (pool_id : Z) (db : PoolDb)
    : result unit (option Z * PoolDb) :=
  let next := pd_identity_next db in
  if negb (namespace_ok namespace) then Err ()
  else match pd_identities db !! (namespace, identifier) with
       | Some _ => mret (None, bump_identity db)
       | None =>
           if negb (pool_exists db pool_id) then Err ()
           else mret (Some next,
                  with_identities db (<[(namespace, identifier) := mkIdentityRow next pool_id]> (pd_identities db))
                    (next + 1) [(namespace, identifier)])
       end.

Definition load_identity (namespace identifier : string) (db : PoolDb) : result unit (PoolIdentityRow * PoolDb) :=
  match pd_identities db !! (namespace, identifier) with
  | Some row => mret (row, db)
  | None => Err ()
  end.

(** [UPDATE pool_identity SET pool_id = $1 WHERE id = $2], which queues the rows it changed. The
    identifier of the row is the one just loaded: no other session writes registries. *)
Definition remap_identity (namespace identifier : string) (pool_id : Z) (db : PoolDb) : result unit (unit * PoolDb) :=
  match pd_identities db !! (namespace, identifier) with
  | None => mret ((), db)
  | Some row =>
      if negb (pool_exists db pool_id) then Err ()
      else mret ((), with_identities db
                       (<[(namespace, identifier) := mkIdentityRow (pi_id row) pool_id]> (pd_identities db))
                       (pd_identity_next db) [(namespace, identifier)])
  end.

Definition existing_pool_identity_id (namespace identifier : string) (registry_pool_id : Z) (remap_existing : bool)
    : poolM Z :=
  row ← statement "load pool_identity" (load_identity namespace identifier);
  if pi_pool_id row =? registry_pool_id then mret (pi_id row)
  else if negb remap_existing then throw (Other "identity is already mapped to another pool")
  else
    _ ← statement "remap pool_identity" (remap_identity namespace identifier registry_pool_id);
    mret (pi_id row).

Fixpoint upsert_identities (namespace : string) (ids : gmap string Z) (remap_existing : bool)
    (identity_ids : gmap string Z) (seeds : list PoolIdentitySeed) : poolM (gmap string Z) :=
  match seeds with
  | [] => mret identity_ids
  | seed :: seeds =>
      pool_id ← lift (match ids !! seed_pool_slug seed with
                      | Some id => Ok id
                      | None => Err (Other "registry references a pool slug that is not in the pool table")
                      end);
      row ← statement "insert pool_identity" (insert_identity namespace (seed_identifier seed) pool_id);
      identity_id ← (match row with
                     | Some id => mret id
                     | None => existing_pool_identity_id namespace (seed_identifier seed) pool_id remap_existing
                     end);
      upsert_identities namespace ids remap_existing (<[seed_identifier seed := identity_id]> identity_ids) seeds
  end.
Definition upsert_pool_identities_for_namespace_with_policy (namespace : string) (seeds : list PoolIdentitySeed)
    (ids : gmap string Z) (remap_existing : bool) : poolM (gmap string Z) :=
  upsert_identities namespace ids remap_existing ∅ seeds.

(** The slug map is an in-out argument of the code: here it is returned beside the result. *)
Definition upsert_identity_registry (namespace : string) (entries : list IdentityRegistryEntry)
    (remap_existing : bool) (ids : gmap string Z) : poolM (gmap string Z * gmap string Z) :=
  ids ← upsert_registry_only_pools ids (distinct_pool_definitions entries);
  identity_ids ← upsert_pool_identities_for_namespace_with_policy namespace
    ((λ e, mkSeed (identifier e) (ie_pool_slug e)) <$> entries) ids remap_existing;
  mret (identity_ids, ids).

(** [DELETE FROM pool_identity WHERE namespace = $1 AND identifier <> ALL($2)], which queues
    what it deleted. *)
Definition unlisted (namespace : string) (listed : list string) (k : string * string) : Prop :=
  k.1 = namespace ∧ k.2 ∉ listed.
#[global] Instance unlisted_dec namespace listed k : Decision (unlisted namespace listed k).
Proof. unfold unlisted. apply _. Defined.
Definition delete_unlisted (namespace : string) (listed : list string) (db : PoolDb) : result unit (unit * PoolDb) :=
  mret ((), with_identities db (filter (λ '(k, _), ¬ unlisted namespace listed k) (pd_identities db))
              (pd_identity_next db)
              (map_to_list (filter (λ '(k, _), unlisted namespace listed k) (pd_identities db))).*1).

Definition reconcile_identity_registry (namespace : string) (entries : list IdentityRegistryEntry)
    (ids : gmap string Z) : poolM (gmap string Z) :=
  '(_, ids) ← upsert_identity_registry namespace entries true ids;
  _ ← statement "delete unlisted pool identities" (delete_unlisted namespace (identifier <$> entries));
  mret ids.

(** [SELECT .. WHERE namespace = ANY($1)]. *)
Definition load_pool_identities_by_namespace (namespaces : list string) : poolM PoolIdentityLookup :=
  statement "load pool identities by namespace" (λ db,
    mret ((λ row, mkIdentityRef (pi_pool_id row) (pi_id row) PayoutMedium)
            <$> filter (λ '(k, _), k.1 ∈ namespaces) (pd_identities db), db)).

(** ** The RSK registry ([chains/rsk.rs]) *)

Definition upsert_rsk_only_pools (r : PoolIdentityRegistry) (ids : gmap string Z) : poolM (gmap string Z) :=
  upsert_registry_only_pools ids (rsk_pool_definitions r).

Definition upsert_rsk_pool_identities_with_policy (r : PoolIdentityRegistry) (ids : gmap string Z)
    (remap_existing : bool) : poolM (gmap string Z) :=
  upsert_pool_identities_for_namespace_with_policy RSK_MINER_ADDRESS_NAMESPACE
    ((λ e, mkSeed (normalize_rsk_address (miner_address e)) (rm_pool_slug e)) <$> rr_entries (ir_rsk r))
    ids remap_existing.
Definition upsert_rsk_pool_identities (r : PoolIdentityRegistry) (ids : gmap string Z) : poolM (gmap string Z) :=
  upsert_rsk_pool_identities_with_policy r ids false.
End store.

(** ** Along every statement *)

Section steps_of_statements.
Context (fails : nat → bool) (R : PoolDb → PoolDb → Prop) `{!PreOrder R}.

Lemma steps_statement {A} context (f : PoolDb → result unit (A * PoolDb)) :
  (∀ db, R db (count_statement db)) → (∀ db a db', f db = Ok (a, db') → R db db') →
  steps R (statement fails context f).
Proof.
  intros Hc Hf db. unfold statement. destruct (fails _); [apply Hc|].
  destruct (f (count_statement db)) as [[a db']|] eqn:Heq; cbn; [|apply Hc].
  etrans; [apply Hc|by eapply Hf].
Qed.

Lemma steps_registry_only_pools ids definitions :
  (∀ db, R db (count_statement db)) →
  (∀ slug name db a db', upsert_pool slug (λ id, mkPoolRow id name [] []) id db = Ok (a, db') → R db db') →
  steps R (upsert_registry_only_pools fails ids definitions).
Proof.
  intros Hc Hp. revert ids. induction definitions as [|[slug name] definitions IH]; intros ids; cbn; [solve_steps|].
  case_bool_decide; [apply IH|]. apply steps_bind; [apply _|apply steps_statement; eauto|intros; apply IH].
Qed.

Lemma steps_upsert_identities namespace ids remap identity_ids seeds :
  (∀ db, R db (count_statement db)) →
  (∀ identifier pool db a db', insert_identity namespace identifier pool db = Ok (a, db') → R db db') →
  (∀ identifier pool db a db', remap = true → remap_identity namespace identifier pool db = Ok (a, db') → R db db') →
  steps R (upsert_identities fails namespace ids remap identity_ids seeds).
Proof.
  intros Hc Hi Hr. revert identity_ids. induction seeds as [|seed seeds IH]; intros identity_ids; cbn; [solve_steps|].
  apply steps_bind; [apply _|solve_steps|intros pool].
  apply steps_bind; [apply _|apply steps_statement; eauto|intros row].
  apply steps_bind; [apply _| |intros; apply IH].
  destruct row as [id|]; [solve_steps|]. unfold existing_pool_identity_id.
  apply steps_bind; [apply _|apply steps_statement; [done|]|intros row].
  { unfold load_identity. intros db a db'. destruct (_ !! _); [|done]. intros [= _ <-]. reflexivity. }
  destruct (_ =? _); [solve_steps|]. destruct remap; cbn; [|solve_steps].
  apply steps_bind; [apply _|apply steps_statement; eauto|solve_steps].
Qed.
End steps_of_statements.

(** The pool an identity maps to. *)
Definition pool_of (db : PoolDb) (k : string * string) : option Z := pi_pool_id <$> pd_identities db !! k.

(** Every identity whose pool changes is queued. *)
Definition queued (db db' : PoolDb) : Prop :=
  ∃ l, pd_queue db' = pd_queue db ++ l ∧ ∀ k, pool_of db k ≠ pool_of db' k → k ∈ l.

#[global] Instance queued_preorder : PreOrder queued.
Proof.
  split.
  - intros db. exists []. rewrite app_nil_r. by split.
  - intros a b c (l & Hl & Hk) (l' & Hl' & Hk'). exists (l ++ l'). rewrite Hl', Hl, app_assoc. split; [done|].
    intros k Hne. rewrite elem_of_app. destruct (decide (pool_of a k = pool_of b k)) as [He|He]; [|auto].
    right. apply Hk'. congruence.
Qed.

Lemma queued_same db db' :
  pd_queue db' = pd_queue db → pd_identities db' = pd_identities db → queued db db'.
Proof. intros Hq Hi. exists []. rewrite app_nil_r. split; [done|]. intros k. unfold pool_of. by rewrite Hi. Qed.

Lemma queued_write db t next l :
  (∀ k, pool_of db k ≠ pi_pool_id <$> t !! k → k ∈ l) → queued db (with_identities db t next l).
Proof. intros Hk. exists l. by split. Qed.

Lemma insert_identity_queued namespace identifier pool db a db' :
  insert_identity namespace identifier pool db = Ok (a, db') → queued db db'.
Proof.
  unfold insert_identity. destruct (namespace_ok namespace); cbn; [|done].
  destruct (pd_identities db !! (namespace, identifier)); [intros [= _ <-]; by apply queued_same|].
  destruct (pool_exists db pool); cbn; [|done]. intros [= _ <-]. apply queued_write. unfold pool_of. intros k.
  destruct (decide (k = (namespace, identifier))) as [->|Hne]; [intros _; by left|].
  by rewrite lookup_insert_ne.
Qed.

Lemma remap_identity_queued namespace identifier pool db a db' :
  remap_identity namespace identifier pool db = Ok (a, db') → queued db db'.
Proof.
  unfold remap_identity. destruct (pd_identities db !! (namespace, identifier)); [|by intros [= _ <-]].
  destruct (pool_exists db pool); cbn; [|done]. intros [= _ <-]. apply queued_write. unfold pool_of. intros k.
  destruct (decide (k = (namespace, identifier))) as [->|Hne]; [intros _; by left|].
  by rewrite lookup_insert_ne.
Qed.

Lemma delete_unlisted_queued namespace listed db a db' :
  delete_unlisted namespace listed db = Ok (a, db') → queued db db'.
Proof.
  intros [= _ <-]. apply queued_write. unfold pool_of. intros k Hk.
  destruct (pd_identities db !! k) as [row|] eqn:Hrow.
  - destruct (decide (unlisted namespace listed k)) as [Hu|Hu].
    + apply list_elem_of_fmap. exists (k, row). split; [done|]. apply elem_of_map_to_list, map_lookup_filter_Some. done.
    + rewrite (proj2 (map_lookup_filter_Some _ _ k row)) in Hk by done. done.
  - rewrite (proj2 (map_lookup_filter_None _ _ k)) in Hk by auto. done.
Qed.

Lemma upsert_identity_registry_queued fails namespace entries remap ids :
  steps queued (upsert_identity_registry fails namespace entries remap ids).
Proof.
  unfold upsert_identity_registry, upsert_pool_identities_for_namespace_with_policy.
  apply steps_bind; [apply _| |intros ids'].
  - apply steps_registry_only_pools; [apply _|intros; by apply queued_same|].
    intros slug name db a db' [= _ <-]. by apply queued_same.
  - apply steps_bind; [apply _| |solve_steps].
    apply steps_upsert_identities; [apply _|intros; by apply queued_same|apply insert_identity_queued|].
    intros identifier pool db a db' _. apply remap_identity_queued.
Qed.

(** Whatever statement fails, every pool identity whose pool was added, changed or removed by
    a registry is in the queue of relationship summaries to refresh, after what was there. *)
Theorem identity_changes_queued (fails : nat → bool) (namespace : string) (entries : list IdentityRegistryEntry)
    (ids : gmap string Z) (db : PoolDb) :
  queued db (reconcile_identity_registry fails namespace entries ids db).2 ∧
  ∀ remap, queued db (upsert_identity_registry fails namespace entries remap ids db).2.
Proof.
  split; [|intros remap; apply upsert_identity_registry_queued]. apply (steps_bind queued); [apply upsert_identity_registry_queued|].
  intros [_ ids']. apply (steps_bind queued); [|intros; apply steps_ret, _].
  apply steps_statement; [apply _|intros; by apply queued_same|apply delete_unlisted_queued].
Qed.

(** ** What a default seeding keeps *)

Definition kept (db db' : PoolDb) : Prop :=
  pd_pools db ⊆ pd_pools db' ∧ pd_identities db ⊆ pd_identities db'.
#[global] Instance kept_preorder : PreOrder kept.
Proof. split; [by split|]. intros a b c [] []. split; by etrans. Qed.

Lemma registry_pool_kept slug name db a db' :
  upsert_pool slug (λ id, mkPoolRow id name [] []) id db = Ok (a, db') → kept db db'.
Proof.
  intros [= _ <-]. split; [|done]. cbn. destruct (pd_pools db !! slug) eqn:Hs; [by rewrite insert_id|].
  by apply insert_subseteq.
Qed.

Lemma insert_identity_kept namespace identifier pool db a db' :
  insert_identity namespace identifier pool db = Ok (a, db') → kept db db'.
Proof.
  unfold insert_identity. destruct (namespace_ok namespace); cbn; [|done].
  destruct (pd_identities db !! (namespace, identifier)) eqn:Hk; [by intros [= _ <-]|].
  destruct (pool_exists db pool); cbn; [|done]. intros [= _ <-]. split; [done|]. by apply insert_subseteq.
Qed.

(** A seeding that does not remap changes no stored pool and no stored identity, whatever
    its registry says and whichever statement fails. *)
Theorem default_seed_keeps (fails : nat → bool) (namespace : string) (entries : list IdentityRegistryEntry)
    (r : PoolIdentityRegistry) (ids : gmap string Z) (db : PoolDb) :
  kept db (upsert_identity_registry fails namespace entries false ids db).2 ∧
  kept db (upsert_rsk_pool_identities fails r ids db).2.
Proof.
  assert (∀ namespace ids seeds,
    steps kept (upsert_pool_identities_for_namespace_with_policy fails namespace seeds ids false)) as Hi.
  { intros. apply steps_upsert_identities; [apply _|done|apply insert_identity_kept|done]. }
  split; [|apply Hi]. apply (steps_bind kept).
  - apply steps_registry_only_pools; [apply _|done|apply registry_pool_kept].
  - intros ids'. apply (steps_bind kept); [apply Hi|intros; apply steps_ret, _].
Qed.

(** ** What a reconcile of a registry leaves *)

Lemma statement_Ok {A} fails context (f : PoolDb → result unit (A * PoolDb)) db a db' :
  statement fails context f db = (Ok a, db') → f (count_statement db) = Ok (a, db').
Proof.
  unfold statement. destruct (fails _); [done|]. destruct (f _) as [[b db1]|]; [|done]. by intros [= -> ->].
Qed.

(** Slugs with the identifiers of their rows. *)
Definition ids_ok (ids : gmap string Z) (t : gmap string PoolRow) : Prop :=
  ∀ slug id, ids !! slug = Some id → ∃ row, t !! slug = Some row ∧ po_id row = id.


Lemma registry_only_pools_mono fails ids definitions db ids' db' :
  upsert_registry_only_pools fails ids definitions db = (Ok ids', db') → ids ⊆ ids'.
Proof.
  revert ids db. induction definitions as [|[slug name] definitions IH]; intros ids db; cbn; [by intros [= <- _]|].
  case_bool_decide as Hs; [apply IH|]. rewrite st_bind_Ok. intros (id & db2 & _ & H%IH).
  etrans; [|exact H]. apply insert_subseteq. by apply eq_None_not_Some.
Qed.

Lemma upsert_pool_ids slug name ids db id db1 :
  ids_ok ids (pd_pools db) → upsert_pool slug (λ id, mkPoolRow id name [] []) Datatypes.id db = Ok (id, db1) →
  ids_ok (<[slug := id]> ids) (pd_pools db1) ∧ pd_identities db1 = pd_identities db.
Proof.
  intros Hids Hu. pose proof (registry_pool_kept _ _ _ _ _ Hu) as [Hsub _]. revert Hu. intros [= <- <-]. split; [|done].
  intros s i. rewrite lookup_insert_Some. cbn. intros [[<- <-]|[Hne Hs]].
  - rewrite lookup_insert_eq. eauto.
  - apply Hids in Hs as (row & Hrow & <-). rewrite lookup_insert_ne by done. eauto.
Qed.

Lemma registry_only_pools_Ok fails ids definitions db ids' db' :
  ids_ok ids (pd_pools db) →
  upsert_registry_only_pools fails ids definitions db = (Ok ids', db') →
  ids_ok ids' (pd_pools db') ∧ pd_identities db' = pd_identities db ∧
  ∀ slug, slug ∈ definitions.*1 → is_Some (ids' !! slug).
Proof.
  revert ids db. induction definitions as [|[slug name] definitions IH]; intros ids db Hids; cbn.
  { intros [= <- <-]. split_and!; [done|done|set_solver]. }
  case_bool_decide as Hs.
  - intros Hr. pose proof (registry_only_pools_mono _ _ _ _ _ _ Hr) as Hm.
    apply IH in Hr as (H1 & H2 & H3); [|done]. split_and!; [done|done|].
    intros s [->|?]%elem_of_cons; [|auto]. destruct Hs as [i Hi]. exists i. by eapply lookup_weaken.
  - rewrite st_bind_Ok. intros (id & db1 & Hu%statement_Ok & Hr).
    apply (upsert_pool_ids _ _ ids) in Hu as [Hids1 Hi1]; [|done].
    pose proof (registry_only_pools_mono _ _ _ _ _ _ Hr) as Hm.
    apply IH in Hr as (H1 & H2 & H3); [|done]. split_and!; [done|by rewrite H2, Hi1|].
    intros s [->|?]%elem_of_cons; [|auto]. exists id. eapply lookup_weaken; [|exact Hm]. apply lookup_insert_eq.
Qed.

(** One seed that succeeds leaves its identity with the pool of its slug, and the rest as it was. *)
Definition mapped (namespace identifier : string) (pool : Z) (db db' : PoolDb) : Prop :=
  pd_pools db' = pd_pools db ∧
  ∃ row, pi_pool_id row = pool ∧ pd_identities db' = <[(namespace, identifier) := row]> (pd_identities db).

Lemma existing_identity_mapped fails namespace identifier pool remap db id db' row :
  pd_identities db !! (namespace, identifier) = Some row →
  existing_pool_identity_id fails namespace identifier pool remap db = (Ok id, db') →
  mapped namespace identifier pool db db'.
Proof.
  intros Hrow. unfold existing_pool_identity_id. rewrite st_bind_Ok. intros (row' & db1 & Hl%statement_Ok & H).
  unfold load_identity in Hl. cbn in Hl. rewrite Hrow in Hl. injection Hl as -> <-.
  destruct (Z.eqb_spec (pi_pool_id row') pool) as [He|_].
  - apply st_ret_Ok in H as [_ ->]. split; [done|]. exists row'. split; [done|]. cbn. by rewrite insert_id.
  - destruct remap; cbn in H; [|done]. apply st_bind_Ok in H as ([] & db2 & Hm%statement_Ok & H).
    apply st_ret_Ok in H as [_ ->]. unfold remap_identity in Hm. cbn in Hm. rewrite Hrow in Hm.
    destruct (pool_exists _ _); [|done]. injection Hm as <-. split; [done|]. eexists. split; [|reflexivity]. done.
Qed.

Lemma seed_mapped fails namespace identifier pool remap db row db1 id db' :
  statement fails "insert pool_identity" (insert_identity namespace identifier pool) db = (Ok row, db1) →
  match row with
  | Some id => mret id
  | None => existing_pool_identity_id fails namespace identifier pool remap
  end db1 = (Ok id, db') →
  mapped namespace identifier pool db db'.
Proof.
  intros Hi%statement_Ok Hr. unfold insert_identity in Hi. destruct (namespace_ok namespace); [|done]. cbn in Hi.
  destruct (pd_identities db !! (namespace, identifier)) eqn:Hk.
  - injection Hi as <- <-. eapply existing_identity_mapped in Hr; [|exact Hk]. exact Hr.
  - destruct (pool_exists _ _); [|done]. injection Hi as <- <-. apply st_ret_Ok in Hr as [_ ->].
    split; [done|]. eexists. split; [|reflexivity]. done.
Qed.

Lemma upsert_identities_Ok fails namespace ids remap identity_ids seeds db identity_ids' db' :
  NoDup (seed_identifier <$> seeds) →
  upsert_identities fails namespace ids remap identity_ids seeds db = (Ok identity_ids', db') →
  pd_pools db' = pd_pools db ∧
  (∀ seed, seed ∈ seeds → pool_of db' (namespace, seed_identifier seed) = ids !! seed_pool_slug seed ∧
                          is_Some (ids !! seed_pool_slug seed)) ∧
  ∀ k, (k.1 = namespace → k.2 ∉ seed_identifier <$> seeds) → pd_identities db' !! k = pd_identities db !! k.
Proof.
  revert identity_ids db. induction seeds as [|seed seeds IH]; intros identity_ids db Hnd; cbn.
  { intros [= _ <-]. split_and!; [done|set_solver|done]. }
  apply NoDup_cons in Hnd as [Hn Hnd]. rewrite st_bind_Ok. intros (pool & db0 & Hp & H).
  apply st_lift_Ok in Hp as [Hp ->]. destruct (ids !! seed_pool_slug seed) as [p|] eqn:Hpool; [|done].
  injection Hp as ->. apply st_bind_Ok in H as (row & db1 & Hi & H). apply st_bind_Ok in H as (id & db2 & Hr & H).
  destruct (seed_mapped _ _ _ _ _ _ _ _ _ _ Hi Hr) as (Hpools & r & Hr1 & Hr2).
  apply IH in H as (H1 & H2 & H3); [|done]. split_and!; [congruence| |].
  - intros s [->|Hs]%elem_of_cons; [|by apply H2]. unfold pool_of. rewrite H3 by done.
    rewrite Hr2, lookup_insert_eq. cbn. rewrite Hpool, Hr1. eauto.
  - intros k Hk. rewrite H3, Hr2, lookup_insert_ne; [done| |set_solver]. intros <-. apply (Hk eq_refl). by left.
Qed.

(** A registry reconciled without error leaves its namespace equal to its entries: each
    identifier maps to the row of the pool its entry names, no other identifier is left, and no
    other namespace is touched. *)
Theorem registry_reconciled (fails : nat → bool) (namespace : string) (entries : list IdentityRegistryEntry)
    (ids ids' : gmap string Z) (db db' : PoolDb) :
  ids_ok ids (pd_pools db) → NoDup (identifier <$> entries) →
  reconcile_identity_registry fails namespace entries ids db = (Ok ids', db') →
  (∀ e, e ∈ entries → ∃ row, pd_pools db' !! ie_pool_slug e = Some row ∧
                             pool_of db' (namespace, identifier e) = Some (po_id row)) ∧
  (∀ i, i ∉ identifier <$> entries → pool_of db' (namespace, i) = None) ∧
  (∀ k, k.1 ≠ namespace → pd_identities db' !! k = pd_identities db !! k) ∧
  ids_ok ids' (pd_pools db').
Proof.
  intros Hids Hnd. unfold reconcile_identity_registry, upsert_identity_registry.
  intros ([a ids1] & db1 & Hu & H)%st_bind_Ok.
  apply st_bind_Ok in Hu as (ids2 & db2 & Hp & Hu). apply st_bind_Ok in Hu as (m & db3 & Hi & Hu).
  apply st_ret_Ok in Hu as [[= -> ->] ->].
  apply st_bind_Ok in H as ([] & db4 & Hd%statement_Ok & H). apply st_ret_Ok in H as [-> ->].
  apply registry_only_pools_Ok in Hp as (Hids2 & Hi2 & _); [|done].
  apply upsert_identities_Ok in Hi as (H1 & H2 & H3); [|by rewrite <-list_fmap_compose].
  injection Hd as <-. cbn. rewrite <-list_fmap_compose in H3. change (seed_identifier ∘ _) with identifier in H3.
  rewrite <-H1 in Hids2.
  assert (∀ k, ¬ unlisted namespace (identifier <$> entries) k →
    filter (λ '(k, _), ¬ unlisted namespace (identifier <$> entries) k) (pd_identities db3) !! k = pd_identities db3 !! k)
    as Hkeep.
  { intros k Hk. destruct (pd_identities db3 !! k) as [row|] eqn:Hrow;
      [by apply map_lookup_filter_Some|apply map_lookup_filter_None; auto]. }
  unfold pool_of in *. cbn. split_and!; [| | |done].
  - intros e He. destruct (H2 (mkSeed (identifier e) (ie_pool_slug e))) as [He1 [i Hs]]; [apply list_elem_of_fmap; by exists e|].
    cbn in He1, Hs. destruct (Hids2 _ _ Hs) as (row & Hrow & <-). exists row. split; [done|].
    rewrite Hkeep; [congruence|]. intros [_ Hn]. apply Hn, list_elem_of_fmap. by exists e.
  - intros i Hn. rewrite (proj2 (map_lookup_filter_None _ _ _)); [done|]. right. intros row _ Hu. by apply Hu.
  - intros k Hk. rewrite Hkeep by (intros [? _]; done). rewrite H3, Hi2; [done|]. done.
Qed.

(** ** Samples *)

Module PoolStoreSample.
Definition stored : PoolDb :=
  mkPoolDb {["f2pool" := mkPoolRow 1 "F2Pool" ["/F2Pool/"%string] []; "antpool" := mkPoolRow 2 "AntPool" [] []]}%string 3
    {[("exsat_account", "old") := mkIdentityRow 4 1; ("exsat_account", "kept") := mkIdentityRow 5 2;
      ("elastos_minerinfo", "old") := mkIdentityRow 6 2]}%string 7 [] 0.
Definition entries : list IdentityRegistryEntry :=
  [mkRegistryEntry "kept" "f2pool" "F2Pool"; mkRegistryEntry "new" "luxor" "Luxor"]%string.
Definition ids : gmap string Z := {["f2pool" := 1]}%string.
Definition run := reconcile_identity_registry (λ _, false) "exsat_account" entries ids stored.
Definition ids' : gmap string Z := {["f2pool" := 1; "luxor" := 3]}%string.

Lemma registry_reconciled_witness :
  pool_of run.2 ("exsat_account", "old")%string = None ∧
  ∃ row, pd_pools run.2 !! "luxor"%string = Some row ∧ pool_of run.2 ("exsat_account", "new")%string = Some (po_id row).
Proof.
  destruct (registry_reconciled (λ _, false) "exsat_account" entries ids ids' stored run.2) as (H1 & H2 & _).
  - intros slug id Hs. unfold ids in Hs. apply lookup_singleton_Some in Hs as [<- <-].
    eexists. split; reflexivity.
  - apply (bool_decide_unpack _). vm_compute. exact I.
  - vm_compute. reflexivity.
  - split; [apply H2; apply (bool_decide_unpack _); vm_compute; exact I|].
    apply (H1 (mkRegistryEntry "new" "luxor" "Luxor")). right. left.
Defined.

(** The remapped, the new and the deleted identity are queued. *)
Example reconcile_queue :
  pd_queue run.2 = [("exsat_account", "kept"); ("exsat_account", "new"); ("exsat_account", "old")]%string.
Proof. vm_compute. reflexivity. Qed.
(** A default seeding refuses the remap and keeps the identity. *)
Example default_seed_conflict :
  let '(r, db) := upsert_identity_registry (λ _, false) "exsat_account" entries false ids stored in
  pool_of db ("exsat_account", "kept")%string = Some 2 ∧ match r with Err _ => True | Ok _ => False end.
Proof. vm_compute. by split. Qed.
End PoolStoreSample.
