(* ===== verification/Reclassify.v ===== *)
(** * Re-resolution of stored pools

    Models the offline command [reclassify-pools]
    ([crates/mmm-producers/src/reclassify_pools]): the plan of one page of candidates
    ([plan.rs]), the scan that loads pages by key and applies each parent's updates in a
    transaction with its reconcile ([mod.rs]), and the pass over observations that no event
    backs ([observations.rs], with its statements of [mmm-store/src/observation.rs]). The
    passes of RSK, Hathor and Elastos identities are not modelled. The codes of the table
    of sources are an argument; the classifier is disabled, as the command has it. *)

From S2P Require Import Prelude BitcoinLib Effects Errors Reader Auxpow Nbits Lineage Classifier LiveLoop Poller Blocks SyncState CoreQueue Events Reconcile CoreSuffix Reorg HeaderCache Cascade Payload EventStore Capture Chains Pools Attribution.
From stdpp Require Import sorting.

Local Open Scope Z_scope.

Definition CHILD_PAYOUT_SOURCE_CODES : list string :=
  ["auxpow:namecoin"; "auxpow:syscoin"; "auxpow:fractal"; "auxpow:qbit"]%string.
Definition child_payout_namespaces : list string :=
  [NAMECOIN_PAYOUT_ADDRESS_NAMESPACE; SYSCOIN_PAYOUT_ADDRESS_NAMESPACE; FRACTAL_REWARD_ADDRESS_NAMESPACE;
   QBIT_PAYOUT_ADDRESS_NAMESPACE].

Record ReclassifyPoolsConfig := mkReclassifyConfig {
  rc_overwrite : bool;
  rc_batch_size : Z;
}.

Record ReclassifyPoolsStats := mkReclassifyStats {
  parent_pool_updates : Z;
  child_pool_updates : Z;
  parents_reconciled : Z;
  corrupt_parent_outputs : Z;
  corrupt_child_outputs_skipped : Z;
  observations_scanned : Z;
  observation_pool_updates : Z;
}.

(** ** Candidates *)

(** Source-scoped state of one side of an event. *)
Record ExistingSourceAttribution := mkSourceAttribution {
  sa_row_count : Z;
  sa_row : option (string * string * AttributionRow);
}.

(** The rows of an event on a side from a source. *)
Definition source_rows (t : gmap attribution_key AttributionRow) (event : Z) (side : PoolAttributionSide)
    (source : string) : list (attribution_key * AttributionRow) :=
  filter (λ '((e, s, _, _), r), e = event ∧ s = side ∧ ar_source r = source) (map_to_list t).

(** The lateral aggregate: the columns of the row are given only when it is the only one. *)
Definition source_attribution (t : gmap attribution_key AttributionRow) (event : Z) (side : PoolAttributionSide)
    (source : string) : ExistingSourceAttribution :=
  let rows := source_rows t event side source in
  mkSourceAttribution (Z.of_nat (length rows))
    (match rows with [((_, _, n, v), r)] => Some (n, v, r) | _ => None end).

Definition source_matches (s : ExistingSourceAttribution) (a : EventPoolAttribution) : bool :=
  (sa_row_count s =? 1)
  && match sa_row s with
     | Some (namespace, value, r) =>
         bool_decide (namespace = at_namespace a) && bool_decide (ar_match_kind r = at_match_kind a)
         && bool_decide (value = at_matched_value a) && bool_decide (ar_pool_id r = at_pool_id a)
         && bool_decide (ar_pool_identity_id r = at_pool_identity_id a)
         && bool_decide (ar_confidence r = at_confidence a) && value_eqb (ar_details r) (at_details a)
     | None => false
     end.

(** [jsonb_build_object] of a row, and the payout rows of an event as the page has them. *)
Definition json_row (k : attribution_key) (r : AttributionRow) : Value :=
  let '(_, _, namespace, value) := k in
  Object [("source", Str (ar_source r)); ("namespace", Str namespace); ("match_kind", Str (ar_match_kind r));
          ("matched_value", Str value); ("pool_id", json_opt Number (ar_pool_id r));
          ("pool_identity_id", json_opt Number (ar_pool_identity_id r));
          ("confidence", Str (confidence_db_str (ar_confidence r))); ("details", ar_details r)]%string.
Definition is_payout_row (event : Z) (k : attribution_key) (r : AttributionRow) : Prop :=
  let '(e, s, n, _) := k in
  e = event ∧ s = SideChildBlock ∧ n ∈ child_payout_namespaces ∧ is_child_payout_source (ar_source r) = true.
#[global] Instance is_payout_row_dec event k r : Decision (is_payout_row event k r).
Proof. destruct k as [[[]]]. unfold is_payout_row. apply _. Defined.
Definition payout_rows (t : gmap attribution_key AttributionRow) (event : Z) : list (attribution_key * AttributionRow) :=
  map_to_list (filter (λ '(k, r), is_payout_row event k r) t).
Definition child_payout_set (t : gmap attribution_key AttributionRow) (event : Z) : ExistingAttributionSet :=
  from_json (Some ((λ '(k, r), json_row k r) <$> payout_rows t event)).

Record CandidateRow := mkCandidate {
  ca_id : Z;
  ca_parent : bytes;
  ca_source_code : string;
  ca_parent_attribution : ExistingSourceAttribution;
  ca_child_attribution : ExistingSourceAttribution;
  ca_child_payouts : ExistingAttributionSet;
  ca_parent_script : option bytes;
  ca_parent_outputs : option bytes;
  ca_parent_outputs_text : option string;
  ca_child_script : option bytes;
  ca_child_outputs : option bytes;
  ca_confirmed_at : Z;
}.

(** The joins of the query; [codes] is the column of the table of sources. *)
Definition candidate_of (codes : gmap Z string) (s : StoreDb) (i : Z) : option CandidateRow :=
  e ← sd_events s !! i;
  x ← sd_extra s !! i;
  o ← sd_observations s !! x_observation x;
  code ← codes !! e_source_id e;
  Some {| ca_id := i; ca_parent := e_hash e; ca_source_code := code;
          ca_parent_attribution := source_attribution (sd_attributions s) i SideBtcParent BTC_POOL_SNAPSHOT_SOURCE;
          ca_child_attribution := source_attribution (sd_attributions s) i SideChildBlock
                                    BTC_POOL_SNAPSHOT_LEGACY_CHILD_SCRIPT_SOURCE;
          ca_child_payouts := child_payout_set (sd_attributions s) i;
          ca_parent_script := e_script e; ca_parent_outputs := e_outputs e;
          ca_parent_outputs_text := x_outputs_text x; ca_child_script := o_child_script o;
          ca_child_outputs := o_child_outputs o; ca_confirmed_at := e_confirmed_at e |}.

(** [CANDIDATE_FILTER_SQL]. *)
Definition candidate_filter (overwrite : bool) (source_filter : option Z) (s : StoreDb) (i : Z) (c : CandidateRow) : bool :=
  match sd_events s !! i with
  | None => false
  | Some e =>
      let parent := is_some (ca_parent_script c) || is_some (ca_parent_outputs c) || is_some (ca_parent_outputs_text c) in
      let payout := bool_decide (ca_source_code c ∈ CHILD_PAYOUT_SOURCE_CODES) && is_some (ca_child_outputs c) in
      negb (is_some (e_revoked_at e))
      && (parent || is_some (ca_child_script c) || payout)
      && (overwrite || payout
          || (parent && (sa_row_count (ca_parent_attribution c) =? 0))
          || (is_some (ca_child_script c) && (sa_row_count (ca_child_attribution c) =? 0)))
      && match source_filter with None => true | Some id => e_source_id e =? id end
  end.

Definition above (cursor : option Z) (i : Z) : bool := match cursor with None => true | Some c => c <? i end.

(** The candidate of an event, when the query selects it. *)
Definition selected (codes : gmap Z string) (overwrite : bool) (source_filter : option Z) (s : StoreDb) (i : Z)
    : option CandidateRow :=
  c ← candidate_of codes s i;
  if candidate_filter overwrite source_filter s i c then Some c else None.

(** [ORDER BY e.id LIMIT]. *)
Definition load_candidate_batch (codes : gmap Z string) (cfg : ReclassifyPoolsConfig) (source_filter : option Z)
    (cursor : option Z) (s : StoreDb) : list CandidateRow :=
  take (Z.to_nat (rc_batch_size cfg))
    (omap (selected codes (rc_overwrite cfg) source_filter s)
       (filter (λ i, above cursor i = true) (merge_sort Z.le (elements (dom (sd_events s)))))).

(** ** The plan ([plan.rs]) *)

Record PlannedUpdate := mkPlanned {
  pu_event_id : Z;
  pu_parent_pool_changed : bool;
  pu_child_pool_changed : bool;
  pu_child_payout_changed : bool;
  pu_attributions : list EventPoolAttribution;
  pu_child_payout_attributions : list EventPoolAttribution;
  pu_observed_at : Z;
}.

Record ParentUpdateGroup := mkGroup {
  pg_parent_hash : bytes;
  pg_updates : list PlannedUpdate;
  pg_parent_rollup_changed : bool;
}.

Definition should_write_attribution (current : ExistingSourceAttribution) (resolved : option EventPoolAttribution)
    (overwrite : bool) : bool :=
  match resolved with
  | None => false
  | Some a => if sa_row_count current =? 0 then true else overwrite && negb (source_matches current a)
  end.

Section plan.
Context `{BitcoinLib, AddressLib}.
Context (resolver : PoolResolver) (pool_ids_by_slug : gmap string Z).

Definition resolve_parent_pool_from_published_text (outputs_text : option string) (script : bytes)
    : option EventPoolAttribution :=
  let addresses := from_option published_parent_coinbase_output_addresses [] outputs_text in
  resolve_parent_pool_attribution_from_coinbase script addresses resolver pool_ids_by_slug.

(** The attribution and whether the stored outputs are corrupt. *)
Definition resolve_stored_parent_pool (script outputs : option bytes) (outputs_text : option string)
    : option EventPoolAttribution * bool :=
  let script := default [] script in
  match resolve_parent_pool_attribution_from_serialized_coinbase_outputs script outputs resolver pool_ids_by_slug with
  | Ok (Some a) => (Some a, false)
  | Ok None => (resolve_parent_pool_from_published_text outputs_text script, false)
  | Err _ => (resolve_parent_pool_from_published_text outputs_text script, true)
  end.
Definition resolve_parent_pool (row : CandidateRow) : option EventPoolAttribution * bool :=
  resolve_stored_parent_pool (ca_parent_script row) (ca_parent_outputs row) (ca_parent_outputs_text row).

Context (identities : PoolIdentityLookup).

(** [None] for corrupt outputs. *)
Definition replay_child_payouts (source_code : string) (outputs : option bytes) : option (list EventPoolAttribution) :=
  match params_for_source_code source_code, outputs with
  | Some params, Some outputs =>
      outputs ← deserialize_txouts outputs;
      Some (resolve_child_payout_attributions outputs params (Some identities))
  | _, _ => Some []
  end.

Definition resolve_child_payouts (row : CandidateRow) (overwrite : bool) : option (list EventPoolAttribution) :=
  attributions ← replay_child_payouts (ca_source_code row) (ca_child_outputs row);
  Some (filter (λ a, should_write (ca_child_payouts row) a (ChildPayout overwrite) = true) attributions).

(** The body of the loop for one row: its update, when it needs one, and whether its parent's
    and its child's outputs are corrupt. *)
Definition plan_row (overwrite : bool) (row : CandidateRow) : option PlannedUpdate * bool * bool :=
  let '(parent, corrupt_parent) := resolve_parent_pool row in
  let child := resolve_child_pool_attribution_from_script (ca_child_script row) resolver pool_ids_by_slug in
  let payouts := resolve_child_payouts row overwrite in
  let payout_attributions := default [] payouts in
  let parent_changed := should_write_attribution (ca_parent_attribution row) parent overwrite in
  let child_changed := should_write_attribution (ca_child_attribution row) child overwrite in
  let payout_changed := negb (bool_decide (payout_attributions = [])) in
  (if negb parent_changed && negb child_changed && negb payout_changed then None
   else Some {| pu_event_id := ca_id row; pu_parent_pool_changed := parent_changed;
                pu_child_pool_changed := child_changed; pu_child_payout_changed := payout_changed;
                pu_attributions := (if parent_changed then option_list parent else [])
                                   ++ (if child_changed then option_list child else []);
                pu_child_payout_attributions := payout_attributions; pu_observed_at := ca_confirmed_at row |},
   corrupt_parent, negb (is_some payouts)).

(** The group of a parent, created at the end when it is new. *)
Fixpoint add_update (groups : list ParentUpdateGroup) (parent : bytes) (u : PlannedUpdate) : list ParentUpdateGroup :=
  match groups with
  | [] => [mkGroup parent [u] (pu_parent_pool_changed u)]
  | g :: groups =>
      if bool_decide (pg_parent_hash g = parent)
      then mkGroup parent (pg_updates g ++ [u]) (pg_parent_rollup_changed g || pu_parent_pool_changed u) :: groups
      else g :: add_update groups parent u
  end.

Definition add_corrupt (stats : ReclassifyPoolsStats) (parent child : bool) : ReclassifyPoolsStats :=
  mkReclassifyStats (parent_pool_updates stats) (child_pool_updates stats) (parents_reconciled stats)
    (corrupt_parent_outputs stats + Z.b2z parent) (corrupt_child_outputs_skipped stats + Z.b2z child)
    (observations_scanned stats) (observation_pool_updates stats).

Fixpoint plan_rows (overwrite : bool) (groups : list ParentUpdateGroup) (stats : ReclassifyPoolsStats)
    (rows : list CandidateRow) : list ParentUpdateGroup * ReclassifyPoolsStats :=
  match rows with
  | [] => (groups, stats)
  | row :: rows =>
      let '(u, corrupt_parent, corrupt_child) := plan_row overwrite row in
      let stats := add_corrupt stats corrupt_parent corrupt_child in
      match u with
      | Some u => plan_rows overwrite (add_update groups (ca_parent row) u) stats rows
      | None => plan_rows overwrite groups stats rows
      end
  end.
Definition plan_batch_updates (cfg : ReclassifyPoolsConfig) (stats : ReclassifyPoolsStats) (rows : list CandidateRow)
    : list ParentUpdateGroup * ReclassifyPoolsStats := plan_rows (rc_overwrite cfg) [] stats rows.
End plan.

(** ** Applying a group ([mod.rs]) *)

Definition apply_update (s : StoreDb) (u : PlannedUpdate) : result anyhow StoreDb :=
  let s := if pu_parent_pool_changed u
           then delete_event_pool_attributions_for_source s (pu_event_id u) SideBtcParent BTC_POOL_SNAPSHOT_SOURCE
           else s in
  let s := if pu_child_pool_changed u
           then delete_event_pool_attributions_for_source s (pu_event_id u) SideChildBlock
                  BTC_POOL_SNAPSHOT_LEGACY_CHILD_SCRIPT_SOURCE
           else s in
  s ← upsert_event_pool_attributions s (pu_event_id u) (pu_attributions u) (pu_observed_at u);
  s ← upsert_event_pool_attributions_without_stale_cleanup s (pu_event_id u) (pu_child_payout_attributions u)
        (pu_observed_at u);
  mret (sync_event_observation_attribution s (pu_event_id u)).

Fixpoint apply_updates (s : StoreDb) (us : list PlannedUpdate) : result anyhow StoreDb :=
  match us with
  | [] => mret s
  | u :: us => s ← apply_update s u; apply_updates s us
  end.

Section scan.
Context `{BitcoinLib, AddressLib} {W : Type} `{CoreHeaderSource W} `{Clock W} `{ReadModelSession W} `{CaptureTables W}.
Context (invalid_blocks_lookup : bytes → option InvalidBlock).
Context (resolve_pool : bytes → option bytes → option Z).
Context (codes : gmap Z string) (resolver : PoolResolver) (pool_ids_by_slug : gmap string Z)
  (identities : PoolIdentityLookup).

#[local] Abbreviation sM := (stM (W * ReadModel) anyhow).

Definition mutate_group (g : ParentUpdateGroup) : sM unit :=
  s ← gets store_view;
  s ← lift (apply_updates s (pg_updates g));
  put_store s.

(** The anchor of the reconcile is the first update of the parent's pool; [expect] panics when
    there is none. *)
Definition reconcile_anchor (g : ParentUpdateGroup) : option (option Z) :=
  if pg_parent_rollup_changed g
  then match find pu_parent_pool_changed (pg_updates g) with
       | Some u => Some (Some (pu_event_id u))
       | None => None
       end
  else Some None.

Definition apply_parent_group (fuel : nat) (g : ParentUpdateGroup) : sM (option unit) :=
  match reconcile_anchor g with
  | None => throw (Other "parent_rollup_changed implies a parent-side update")
  | Some anchor => update_parent_events invalid_blocks_lookup resolve_pool Disabled fuel (mutate_group g) anchor
  end.

Definition count_group (stats : ReclassifyPoolsStats) (g : ParentUpdateGroup) : ReclassifyPoolsStats :=
  mkReclassifyStats
    (parent_pool_updates stats + Z.of_nat (length (filter (λ u, pu_parent_pool_changed u = true) (pg_updates g))))
    (child_pool_updates stats
     + Z.of_nat (length (filter (λ u, pu_child_pool_changed u || pu_child_payout_changed u = true) (pg_updates g))))
    (parents_reconciled stats + Z.b2z (pg_parent_rollup_changed g))
    (corrupt_parent_outputs stats) (corrupt_child_outputs_skipped stats) (observations_scanned stats)
    (observation_pool_updates stats).

(** [None] when the fuel of a cascade runs out. *)
Fixpoint apply_groups (fuel : nat) (stats : ReclassifyPoolsStats) (gs : list ParentUpdateGroup)
    : sM (option ReclassifyPoolsStats) :=
  match gs with
  | [] => mret (Some stats)
  | g :: gs =>
      done ← apply_parent_group fuel g;
      match done with
      | None => mret None
      | Some _ => apply_groups fuel (count_group stats g) gs
      end
  end.

(** The loop over pages; other sessions commit between the pages. *)
Fixpoint scan_pages (pages fuel : nat) (cfg : ReclassifyPoolsConfig) (source_filter cursor : option Z)
    (stats : ReclassifyPoolsStats) : sM (option ReclassifyPoolsStats) :=
  match pages with
  | O => mret None
  | S pages =>
      _ ← session;
      rows ← gets (λ w, load_candidate_batch codes cfg source_filter cursor (store_view w));
      match last rows with
      | None => mret (Some stats)
      | Some row =>
          let '(groups, stats) := plan_batch_updates resolver pool_ids_by_slug identities cfg stats rows in
          r ← apply_groups fuel stats groups;
          match r with
          | None => mret None
          | Some stats => scan_pages pages fuel cfg source_filter (Some (ca_id row)) stats
          end
      end
  end.
Definition run_main_candidate_scan (pages fuel : nat) (cfg : ReclassifyPoolsConfig) (source_filter : option Z)
    (stats : ReclassifyPoolsStats) : sM (option ReclassifyPoolsStats) :=
  scan_pages pages fuel cfg source_filter None stats.
End scan.

(** ** Observations without an event ([observations.rs]) *)

Record ObservationPoolRow := mkObservationPool {
  op_id : Z;
  op_source_code : string;
  op_near : bool;
  op_identity_ids : gset Z;
  op_child_script : option bytes;
  op_child_outputs : option bytes;
  op_parent_script : option bytes;
  op_parent_outputs : option bytes;
  op_child_pool : option Z;
  op_parent_pool : option Z;
}.

Definition is_near (k : ObservationKind) : bool := bool_decide (k = ObsNear).

(** The query, of one observation. *)
Definition observation_row (codes : gmap Z string) (source_id : option Z) (overwrite : bool) (i : Z)
    (o : ObservationRow) : option ObservationPoolRow :=
  code ← codes !! o_source o;
  if negb (bool_decide (o_kind o = ObsEvidence))
     && match source_id with None => true | Some id => o_source o =? id end
     && (overwrite
         || negb (is_some (o_child_pool o))
            && (negb (bool_decide (o_identities o = ∅)) || is_some (o_child_script o)
                || is_some (o_child_outputs o) && bool_decide (code ∈ CHILD_PAYOUT_SOURCE_CODES))
         || is_near (o_kind o) && negb (is_some (o_parent_pool o))
            && (is_some (o_parent_script o) || is_some (o_parent_outputs o)))
  then Some {| op_id := i; op_source_code := code; op_near := is_near (o_kind o); op_identity_ids := o_identities o;
               op_child_script := o_child_script o; op_child_outputs := o_child_outputs o;
               op_parent_script := o_parent_script o; op_parent_outputs := o_parent_outputs o;
               op_child_pool := o_child_pool o; op_parent_pool := o_parent_pool o |}
  else None.

Definition load_observation_pool_batch (codes : gmap Z string) (cursor source_id : option Z) (overwrite : bool)
    (limit : Z) (s : StoreDb) : list ObservationPoolRow :=
  take (Z.to_nat limit)
    (omap (λ i, o ← sd_observations s !! i; observation_row codes source_id overwrite i o)
       (filter (λ i, above cursor i = true) (merge_sort Z.le (elements (dom (sd_observations s)))))).

(** [child_miner_identity JOIN pool_identity]; [pools_of] is the table of pool identities. *)
Definition load_child_identity_pools (pools_of : gmap (string * string) Z) (s : StoreDb) : gmap Z Z :=
  list_to_map (omap (λ '(k, i), pool ← pools_of !! k; Some (i, pool)) (map_to_list (sd_identities s))).

Definition settle (stored resolved : option Z) (overwrite : bool) : option Z :=
  match stored, resolved with
  | None, resolved => resolved
  | Some _, Some resolved => if overwrite then Some resolved else stored
  | stored, None => stored
  end.

Section observations.
Context `{BitcoinLib, AddressLib}.
Context (resolver : PoolResolver) (pool_ids_by_slug : gmap string Z) (identities : PoolIdentityLookup).

(** The pools the matches of a child name. *)
Definition child_pools (row : ObservationPoolRow) (identity_pools : gmap Z Z) : gset Z :=
  list_to_set (omap (λ i, identity_pools !! i) (elements (op_identity_ids row)))
  ∪ list_to_set (option_list (resolve_child_pool_attribution_from_script (op_child_script row) resolver pool_ids_by_slug
                              ≫= at_pool_id))
  ∪ list_to_set (omap at_pool_id (default [] (replay_child_payouts identities (op_source_code row) (op_child_outputs row)))).

(** The pool of a near parent, and whether its stored outputs are corrupt. *)
Definition parent_pool (row : ObservationPoolRow) : option Z * bool :=
  if op_near row
  then let '(a, corrupt) := resolve_stored_parent_pool resolver pool_ids_by_slug (op_parent_script row)
                              (op_parent_outputs row) None in
       (a ≫= at_pool_id, corrupt)
  else (None, false).

Definition settled_child_pool (stored : option Z) (pools : gset Z) (overwrite : bool) : option Z :=
  match elements pools with
  | [] => settle stored None overwrite
  | [p] => settle stored (Some p) overwrite
  | _ => if overwrite then None else stored
  end.

(** The pools to store, when they differ, and whether the parent's and the child's outputs are
    corrupt. *)
Definition plan_observation_pools (row : ObservationPoolRow) (identity_pools : gmap Z Z) (overwrite : bool)
    : option (option Z * option Z) * bool * bool :=
  let '(resolved, corrupt_parent) := parent_pool row in
  let child := settled_child_pool (op_child_pool row) (child_pools row identity_pools) overwrite in
  let parent := settle (op_parent_pool row) resolved overwrite in
  (if bool_decide ((child, parent) = (op_child_pool row, op_parent_pool row)) then None else Some (child, parent),
   corrupt_parent, negb (is_some (replay_child_payouts identities (op_source_code row) (op_child_outputs row)))).

Fixpoint plan_observations (rows : list ObservationPoolRow) (identity_pools : gmap Z Z) (overwrite : bool)
    (stats : ReclassifyPoolsStats) : list (ObservationPoolRow * (option Z * option Z)) * ReclassifyPoolsStats :=
  match rows with
  | [] => ([], stats)
  | row :: rows =>
      let '(u, corrupt_parent, corrupt_child) := plan_observation_pools row identity_pools overwrite in
      let '(us, stats) := plan_observations rows identity_pools overwrite (add_corrupt stats corrupt_parent corrupt_child) in
      (option_list (pair row <$> u) ++ us, stats)
  end.
End observations.

Definition with_observation_pools (o : ObservationRow) (child parent : option Z) : ObservationRow :=
  {| o_source := o_source o; o_child_height := o_child_height o; o_child_hash := o_child_hash o;
     o_kind := o_kind o; o_child_time := o_child_time o; o_child_header := o_child_header o;
     o_child_nbits := o_child_nbits o; o_child_prev := o_child_prev o;
     o_difficulty_reported := o_difficulty_reported o; o_child_txid := o_child_txid o;
     o_child_script := o_child_script o; o_child_outputs := o_child_outputs o; o_pow_child := o_pow_child o;
     o_parent := o_parent o; o_parent_header := o_parent_header o; o_parent_time := o_parent_time o;
     o_parent_txid := o_parent_txid o; o_parent_script := o_parent_script o;
     o_parent_outputs := o_parent_outputs o; o_identities := o_identities o; o_child_pool := child;
     o_parent_pool := parent; o_recorded_at := o_recorded_at o; o_displaced := o_displaced o |}.

(** The condition of the [UPDATE]: the row is as it was loaded. *)
Definition unchanged_since (row : ObservationPoolRow) (o : ObservationRow) : bool :=
  negb (bool_decide (o_kind o = ObsEvidence)) && eqb (is_near (o_kind o)) (op_near row)
  && bool_decide (o_child_pool o = op_child_pool row) && bool_decide (o_parent_pool o = op_parent_pool row).

(** One statement over the rows of a page, which have distinct ids; a row that violates a
    constraint fails it. *)
Definition update_observation_pool (s : StoreDb * Z) (u : ObservationPoolRow * (option Z * option Z))
    : result anyhow (StoreDb * Z) :=
  match sd_observations s.1 !! op_id u.1 with
  | Some o =>
      if unchanged_since u.1 o then
        let o := with_observation_pools o u.2.1 u.2.2 in
        _ ← ensure (chk_observation o) (Other "update re-resolved observation pools");
        mret (with_observations s.1 (<[op_id u.1 := o]> (sd_observations s.1)), s.2 + 1)
      else mret s
  | None => mret s
  end.
Fixpoint update_observation_rows (s : StoreDb * Z) (updates : list (ObservationPoolRow * (option Z * option Z)))
    : result anyhow (StoreDb * Z) :=
  match updates with
  | [] => mret s
  | u :: updates => s ← update_observation_pool s u; update_observation_rows s updates
  end.
Definition update_observation_pools (s : StoreDb) (updates : list (ObservationPoolRow * (option Z * option Z)))
    : result anyhow (StoreDb * Z) := update_observation_rows (s, 0) updates.

Section observation_scan.
Context `{BitcoinLib, AddressLib} {W : Type} `{ReadModelSession W} `{CaptureTables W}.
Context (codes : gmap Z string) (resolver : PoolResolver) (pool_ids_by_slug : gmap string Z)
  (identities : PoolIdentityLookup) (pools_of : gmap (string * string) Z).
#[local] Abbreviation sM := (stM (W * ReadModel) anyhow).

Definition count_observations (stats : ReclassifyPoolsStats) (scanned applied : Z) : ReclassifyPoolsStats :=
  mkReclassifyStats (parent_pool_updates stats) (child_pool_updates stats) (parents_reconciled stats)
    (corrupt_parent_outputs stats) (corrupt_child_outputs_skipped stats)
    (observations_scanned stats + scanned) (observation_pool_updates stats + applied).

Fixpoint observation_pages (pages : nat) (cfg : ReclassifyPoolsConfig) (source_id : option Z)
    (identity_pools : gmap Z Z) (cursor : option Z) (stats : ReclassifyPoolsStats) : sM (option ReclassifyPoolsStats) :=
  match pages with
  | O => mret None
  | S pages =>
      _ ← session;
      rows ← gets (λ w, load_observation_pool_batch codes cursor source_id (rc_overwrite cfg) (rc_batch_size cfg)
                          (store_view w));
      match last rows with
      | None => mret (Some stats)
      | Some row =>
          let '(updates, stats) := plan_observations resolver pool_ids_by_slug identities rows identity_pools
                                     (rc_overwrite cfg) stats in
          _ ← session;
          s ← gets store_view;
          '(s, applied) ← lift (update_observation_pools s updates);
          _ ← put_store s;
          observation_pages pages cfg source_id identity_pools (Some (op_id row))
            (count_observations stats (Z.of_nat (length rows)) applied)
      end
  end.
Definition reresolve_observation_pools (pages : nat) (cfg : ReclassifyPoolsConfig) (source_id : option Z)
    (stats : ReclassifyPoolsStats) : sM (option ReclassifyPoolsStats) :=
  identity_pools ← gets (λ w, load_child_identity_pools pools_of (store_view w));
  observation_pages pages cfg source_id identity_pools None stats.
End observation_scan.

(** ** The groups of a plan *)

Section plan_groups.
Context `{BitcoinLib, AddressLib}.
Context (resolver : PoolResolver) (ids : gmap string Z) (identities : PoolIdentityLookup).

(** The update a row asks for, with its parent. *)
Definition planned (overwrite : bool) (row : CandidateRow) : option PlannedUpdate :=
  (plan_row resolver ids identities overwrite row).1.1.
Definition planned_for (overwrite : bool) (parent : bytes) (rows : list CandidateRow) : list PlannedUpdate :=
  omap (λ row, if bool_decide (ca_parent row = parent) then planned overwrite row else None) rows.

(** Groups that hold the updates of [done], the rows planned so far. *)
Record groups_hold (overwrite : bool) (done : list CandidateRow) (groups : list ParentUpdateGroup) : Prop := {
  gh_distinct : NoDup (pg_parent_hash <$> groups);
  gh_updates : ∀ g, g ∈ groups →
    pg_updates g ≠ [] ∧ pg_updates g = planned_for overwrite (pg_parent_hash g) done ∧
    pg_parent_rollup_changed g = existsb pu_parent_pool_changed (pg_updates g);
  gh_covered : ∀ row, row ∈ done → is_Some (planned overwrite row) → ca_parent row ∈ pg_parent_hash <$> groups;
}.

Lemma add_update_parents groups parent u x :
  x ∈ pg_parent_hash <$> add_update groups parent u ↔ x ∈ pg_parent_hash <$> groups ∨ x = parent.
Proof.
  induction groups as [|g groups IH]; cbn; [set_solver|]. case_bool_decide; cbn; set_solver.
Qed.

Lemma add_update_distinct groups parent u :
  NoDup (pg_parent_hash <$> groups) → NoDup (pg_parent_hash <$> add_update groups parent u).
Proof.
  induction groups as [|g groups IH]; cbn; [intros _; apply NoDup_singleton|].
  intros [Hg Hn]%NoDup_cons. case_bool_decide as Hp; cbn; apply NoDup_cons; split; [by rewrite <-Hp|done| |auto].
  rewrite add_update_parents. intros [?|?]; auto.
Qed.

(** The group of the parent gains the update; the others are as they were. *)
Lemma add_update_in groups parent u g :
  NoDup (pg_parent_hash <$> groups) → g ∈ add_update groups parent u →
  (pg_parent_hash g ≠ parent ∧ g ∈ groups) ∨
  g = mkGroup parent [u] (pu_parent_pool_changed u) ∧ parent ∉ pg_parent_hash <$> groups ∨
  ∃ g0, g0 ∈ groups ∧ pg_parent_hash g0 = parent ∧
    g = mkGroup parent (pg_updates g0 ++ [u]) (pg_parent_rollup_changed g0 || pu_parent_pool_changed u).
Proof.
  induction groups as [|g0 groups IH]; cbn.
  { intros _ ->%list_elem_of_singleton. right; left. set_solver. }
  intros [Hg Hn]%NoDup_cons. case_bool_decide as Hp.
  - intros [->|Hin]%elem_of_cons; [right; right; exists g0; set_solver|].
    left. split; [|by right]. intros He. apply Hg. rewrite Hp, <-He. by apply list_elem_of_fmap_2.
  - intros [->|Hin]%elem_of_cons; [left; set_solver|].
    destruct (IH Hn Hin) as [[? ?]|[[? ?]|(g1 & ? & ? & ?)]]; [left; set_solver|right; left|right; right; set_solver].
    split; [done|]. set_solver.
Qed.

Lemma planned_for_snoc overwrite parent done row :
  planned_for overwrite parent (done ++ [row]) =
  planned_for overwrite parent done ++
  (if bool_decide (ca_parent row = parent) then option_list (planned overwrite row) else []).
Proof.
  unfold planned_for. rewrite omap_app. f_equal. cbn. case_bool_decide; [|done]. by destruct (planned overwrite row).
Qed.

Lemma planned_for_none overwrite parent done :
  (∀ row, row ∈ done → is_Some (planned overwrite row) → ca_parent row ≠ parent) → planned_for overwrite parent done = [].
Proof.
  intros Hn. induction done as [|row done IH]; [done|]. unfold planned_for in *. cbn. rewrite IH by set_solver. case_bool_decide as Hp; [|done].
  destruct (planned overwrite row) eqn:Hr; [|done]. destruct (Hn row); [set_solver|done|done].
Qed.

Lemma groups_hold_row overwrite done groups row :
  groups_hold overwrite done groups →
  groups_hold overwrite (done ++ [row])
    (match planned overwrite row with Some u => add_update groups (ca_parent row) u | None => groups end).
Proof.
  intros [Hd Hu Hc]. destruct (planned overwrite row) as [u|] eqn:Hrow; split.
  - by apply add_update_distinct.
  - intros g Hg. rewrite planned_for_snoc, Hrow.
    destruct (add_update_in _ _ _ _ Hd Hg) as [[Hne Hin]|[[-> Hnew]|(g0 & Hin & Hp & ->)]]; cbn.
    + rewrite bool_decide_eq_false_2, app_nil_r by congruence. by apply Hu.
    + rewrite bool_decide_eq_true_2 by done. rewrite planned_for_none; [by rewrite orb_false_r|].
      intros r Hr Hs He. apply Hnew. rewrite <-He. by apply Hc.
    + rewrite bool_decide_eq_true_2 by done. destruct (Hu g0 Hin) as (_ & Heq & Hroll).
      rewrite existsb_app, <-Hroll, <-Hp, <-Heq. cbn. rewrite orb_false_r. split_and!; [by destruct (pg_updates g0)|done|done].
  - intros r. rewrite elem_of_app, list_elem_of_singleton, add_update_parents. intros [Hr| ->] Hs; [left; by apply Hc|by right].
  - done.
  - intros g Hg. rewrite planned_for_snoc, Hrow. destruct (Hu g Hg) as (Hn & Heq & Hroll).
    split_and!; [done| |done]. case_bool_decide; cbn; by rewrite app_nil_r.
  - intros r. rewrite elem_of_app, list_elem_of_singleton. intros [Hr| ->] Hs; [by apply Hc|]. rewrite Hrow in Hs. by destruct Hs.
Qed.

Lemma plan_rows_hold overwrite done groups stats rows :
  groups_hold overwrite done groups →
  groups_hold overwrite (done ++ rows) (plan_rows resolver ids identities overwrite groups stats rows).1.
Proof.
  revert done groups stats. induction rows as [|row rows IH]; intros done groups stats Hg; cbn [plan_rows].
  { by rewrite app_nil_r. }
  pose proof (groups_hold_row _ _ _ row Hg) as Hg'. unfold planned in Hg'.
  destruct (plan_row resolver ids identities overwrite row) as [[u cp] cc]. cbn in Hg'.
  rewrite cons_middle, app_assoc. destruct u; by apply IH.
Qed.

Lemma existsb_find {A} (f : A → bool) l : existsb f l = true → is_Some (List.find f l).
Proof. induction l as [|a l IH]; cbn; [done|]. destruct (f a); cbn; eauto. Qed.

(** The plan of a page has one group per parent, with exactly the updates its rows ask for,
    in their order; a group asks for a reconcile exactly when one of its updates changes the
    parent's pool, and then has an event to reconcile from. *)
Theorem plan_groups_exact (cfg : ReclassifyPoolsConfig) (stats : ReclassifyPoolsStats) (rows : list CandidateRow) :
  let groups := (plan_batch_updates resolver ids identities cfg stats rows).1 in
  groups_hold (rc_overwrite cfg) rows groups ∧ ∀ g, g ∈ groups → is_Some (reconcile_anchor g).
Proof.
  cbv zeta. assert (groups_hold (rc_overwrite cfg) rows (plan_batch_updates resolver ids identities cfg stats rows).1) as Hg.
  { apply (plan_rows_hold _ [] []). split; [constructor|set_solver|set_solver]. }
  split; [done|]. intros g (_ & _ & Hroll)%(gh_updates _ _ _ Hg). unfold reconcile_anchor. rewrite Hroll.
  destruct (existsb _ _) eqn:Hx; [|eauto]. apply existsb_find in Hx as [u ->]. eauto.
Qed.
End plan_groups.

(** ** What a replay keeps *)

Lemma no_source_rows t i side source :
  sa_row_count (source_attribution t i side source) = 0 →
  ∀ n v r, t !! (i, side, n, v) = Some r → ar_source r ≠ source.
Proof.
  cbn. intros Hl n v r Hk Hs. assert (((i, side, n, v), r) ∈ source_rows t i side source) as Hin.
  { apply list_elem_of_filter. split; [done|]. by apply elem_of_map_to_list. }
  destruct (source_rows t i side source); [set_solver|cbn in Hl; lia].
Qed.

Lemma delete_no_rows s i side source :
  (∀ n v r, sd_attributions s !! (i, side, n, v) = Some r → ar_source r ≠ source) →
  sd_attributions (delete_event_pool_attributions_for_source s i side source) = sd_attributions s.
Proof.
  intros Hn. cbn. apply map_filter_id. intros [[[e sd] n] v] r Hk (-> & -> & Hs). by eapply Hn.
Qed.

Lemma keyed_json_row e side n v r :
  keyed_row (json_row (e, side, n, v) r) =
  Some ((n, v), mkKeyedRow (ar_source r) (ar_match_kind r) (as_i64 (json_opt Number (ar_pool_id r)))
                  (as_i64 (json_opt Number (ar_pool_identity_id r))) (confidence_db_str (ar_confidence r)) (ar_details r)).
Proof. reflexivity. Qed.

Lemma insert_all_in {V} (l : list ((string * string) * V)) (m : gmap (string * string) V) k r :
  NoDup l.*1 → (k, r) ∈ l ∨ (k ∉ l.*1) ∧ m !! k = Some r → foldl (λ m '(k, r), <[k := r]> m) m l !! k = Some r.
Proof.
  revert m. induction l as [|[k' r'] l IH]; intros m; cbn; [set_solver|].
  intros [Hk' Hn]%NoDup_cons Hin. apply IH; [done|]. cbn in Hin.
  destruct Hin as [[[= -> ->]|Hin]%elem_of_cons|[Hk Hm]]; [|by left|].
  - right. split; [done|]. apply lookup_insert_eq.
  - right. split; [set_solver|]. rewrite lookup_insert_ne by set_solver. done.
Qed.

Lemma omap_of_fmap {A B C} (f : B → option C) (g : A → B) (l : list A) : omap f (g <$> l) = omap (λ x, f (g x)) l.
Proof. induction l as [|x l IH]; [done|]. cbn. by rewrite IH. Qed.

Lemma as_i64_in z : in_i64 z → as_i64 (Number z) = Some z.
Proof. intros [H1 H2]. unfold as_i64, i64_MIN, i64_MAX. by rewrite !(proj2 (Z.leb_le _ _)) by lia. Qed.

(** The row the page has for a stored payout row with a pool. *)
Lemma payout_set_row t i n v r pool :
  t !! (i, SideChildBlock, n, v) = Some r → is_payout_row i (i, SideChildBlock, n, v) r →
  ar_pool_id r = Some pool → in_i64 pool →
  ∃ row, child_payout_set t i !! (n, v) = Some row ∧ kr_pool_id row = Some pool.
Proof.
  intros Hk Hr Hp Hz. eexists (mkKeyedRow (ar_source r) (ar_match_kind r) (as_i64 (json_opt Number (ar_pool_id r)))
    (as_i64 (json_opt Number (ar_pool_identity_id r))) (confidence_db_str (ar_confidence r)) (ar_details r)).
  split; [|cbn; rewrite Hp; apply as_i64_in, Hz].
  unfold child_payout_set, from_json. cbn [from_option]; unfold id. rewrite omap_of_fmap. apply insert_all_in.
  - assert (∀ l : list (attribution_key * AttributionRow), (∀ kr, kr ∈ l → kr.1.1.1 = (i, SideChildBlock)) → NoDup l.*1 →
      NoDup (omap (λ x, keyed_row (let '(k, r) := x in json_row k r)) l).*1) as Hnd.
    { clear. induction l as [|[[[[e sd] n] v] r] l IH]; intros Hl; [constructor|]. rewrite fmap_cons. intros [Hn Hnd]%NoDup_cons.
      cbn [omap list_omap]. rewrite keyed_json_row, fmap_cons. apply NoDup_cons. split; [|apply IH; [set_solver|done]].
      intros ([k kr] & Hkk & Hin)%list_elem_of_fmap. apply list_elem_of_omap in Hin as ([[[[e' sd'] n'] v'] r'] & Hin & Hj).
      rewrite keyed_json_row in Hj. injection Hj as <- <-. cbn in Hkk. injection Hkk as <- <-.
      pose proof (Hl (((e', sd'), n, v), r') ltac:(by right)) as H1. pose proof (Hl (((e, sd), n, v), r) ltac:(by left)) as H2.
      cbn in H1, H2. rewrite <-H2 in H1. injection H1 as -> ->.
      apply Hn, list_elem_of_fmap. exists ((e, sd, n, v), r'). by split. }
    apply Hnd; [|apply NoDup_fst_map_to_list].
    intros [[[[e sd] n'] v'] r'] Hin%elem_of_map_to_list. apply map_lookup_filter_Some in Hin as [_ (-> & -> & _)]. done.
  - left. apply list_elem_of_omap. exists ((i, SideChildBlock, n, v), r). split; [|apply keyed_json_row].
    by apply elem_of_map_to_list, map_lookup_filter_Some.
Qed.

Section replay.
Context `{BitcoinLib, AddressLib}.
Context (resolver : PoolResolver) (ids : gmap string Z) (identities : PoolIdentityLookup).

(** An attribution from the snapshot of pools. *)
Definition from_snapshot_match (side : PoolAttributionSide) (source : string) (a : EventPoolAttribution) : Prop :=
  at_side a = side ∧ at_source a = source ∧ at_namespace a ∈ [BTC_COINBASE_TAG_NAMESPACE; BTC_PAYOUT_ADDRESS_NAMESPACE].

Lemma pool_match_from side m pool source : from_snapshot_match side source (from_btc_pool_match side m pool source).
Proof. destruct m as [p [] v]; repeat split; cbn; set_solver. Qed.

Lemma coinbase_match script addresses a :
  resolve_parent_pool_attribution_from_coinbase script addresses resolver ids = Some a →
  from_snapshot_match SideBtcParent BTC_POOL_SNAPSHOT_SOURCE a.
Proof.
  unfold resolve_parent_pool_attribution_from_coinbase.
  intros (m & _ & (id & _ & ->)%fmap_Some)%bind_Some. apply pool_match_from.
Qed.

Lemma serialized_match script outputs a :
  resolve_parent_pool_attribution_from_serialized_coinbase_outputs script outputs resolver ids = Ok (Some a) →
  from_snapshot_match SideBtcParent BTC_POOL_SNAPSHOT_SOURCE a.
Proof.
  unfold resolve_parent_pool_attribution_from_serialized_coinbase_outputs.
  destruct (resolve_parent_pool_attribution_from_coinbase _ [] _ _) eqn:Hs; [intros [= <-]; by eapply coinbase_match|].
  destruct outputs as [bs|]; [|done]. destruct (deserialize_txouts bs) as [l|]; [|done].
  intros [= Ha]. by eapply coinbase_match.
Qed.

Lemma stored_parent_match script outputs text a :
  (resolve_stored_parent_pool resolver ids script outputs text).1 = Some a →
  from_snapshot_match SideBtcParent BTC_POOL_SNAPSHOT_SOURCE a.
Proof.
  unfold resolve_stored_parent_pool, resolve_parent_pool_from_published_text.
  destruct (resolve_parent_pool_attribution_from_serialized_coinbase_outputs _ _ _ _) as [[b|]|] eqn:Hs; cbn;
    [intros [= <-]; by eapply serialized_match|by apply coinbase_match..].
Qed.

Lemma child_script_match script a :
  resolve_child_pool_attribution_from_script script resolver ids = Some a →
  from_snapshot_match SideChildBlock BTC_POOL_SNAPSHOT_LEGACY_CHILD_SCRIPT_SOURCE a.
Proof.
  unfold resolve_child_pool_attribution_from_script.
  intros (m & _ & (id & _ & ->)%fmap_Some)%bind_Some. apply pool_match_from.
Qed.

(** What a plan that does not overwrite has. *)
Record fill_only (row : CandidateRow) (u : PlannedUpdate) : Prop := {
  fo_event : pu_event_id u = ca_id row;
  fo_parent : pu_parent_pool_changed u = true → sa_row_count (ca_parent_attribution row) = 0;
  fo_child : pu_child_pool_changed u = true → sa_row_count (ca_child_attribution row) = 0;
  fo_attributions : ∀ a, a ∈ pu_attributions u →
    pu_parent_pool_changed u = true ∧ from_snapshot_match SideBtcParent BTC_POOL_SNAPSHOT_SOURCE a ∨
    pu_child_pool_changed u = true ∧
      from_snapshot_match SideChildBlock BTC_POOL_SNAPSHOT_LEGACY_CHILD_SCRIPT_SOURCE a;
  fo_payouts : ∀ a, a ∈ pu_child_payout_attributions u →
    should_write (ca_child_payouts row) a (ChildPayout false) = true;
}.

Lemma should_write_missing current resolved :
  should_write_attribution current resolved false = true → sa_row_count current = 0.
Proof.
  unfold should_write_attribution. destruct resolved; [|done].
  destruct (Z.eqb_spec (sa_row_count current) 0); [done|]. done.
Qed.

Lemma planned_fill_only row u : planned resolver ids identities false row = Some u → fill_only row u.
Proof.
  unfold planned, plan_row. destruct (resolve_parent_pool resolver ids row) as [parent corrupt] eqn:Hp. cbn.
  case_match; [done|]. intros [= <-]. split; cbn.
  - done.
  - apply should_write_missing.
  - apply should_write_missing.
  - intros a [Ha|Ha]%elem_of_app; case_match; try set_solver.
    + left. split; [done|]. destruct parent as [b|]; [|set_solver]. apply list_elem_of_singleton in Ha as ->.
      eapply stored_parent_match. unfold resolve_parent_pool in Hp. by rewrite Hp.
    + right. split; [done|]. destruct (resolve_child_pool_attribution_from_script _ _ _) as [b|] eqn:Hc; [|set_solver].
      apply list_elem_of_singleton in Ha as ->. by eapply child_script_match.
  - intros a. unfold resolve_child_payouts. destruct (replay_child_payouts _ _ _); cbn; [|set_solver].
    by intros [? _]%list_elem_of_filter.
Qed.


(** The rows of the sources a fill writes are missing, so its deletions delete nothing. *)
Lemma fill_missing codes s i row u :
  candidate_of codes s i = Some row → fill_only row u →
  ca_id row = i ∧ ca_child_payouts row = child_payout_set (sd_attributions s) i ∧
  (pu_parent_pool_changed u = true → ∀ n v r, sd_attributions s !! (i, SideBtcParent, n, v) = Some r →
     ar_source r ≠ BTC_POOL_SNAPSHOT_SOURCE) ∧
  (pu_child_pool_changed u = true → ∀ n v r, sd_attributions s !! (i, SideChildBlock, n, v) = Some r →
     ar_source r ≠ BTC_POOL_SNAPSHOT_LEGACY_CHILD_SCRIPT_SOURCE).
Proof.
  unfold candidate_of. intros Hc [_ Hp Hch _ _].
  apply bind_Some in Hc as (e & _ & Hc). apply bind_Some in Hc as (x & _ & Hc).
  apply bind_Some in Hc as (o & _ & Hc). apply bind_Some in Hc as (code & _ & Hc).
  injection Hc as <-. cbn [ca_id ca_child_payouts ca_parent_attribution ca_child_attribution] in *.
  split_and!; [done|done| |]; intros Hx; apply no_source_rows; auto.
Qed.

Lemma fill_retains i s row u k r :
  fill_only row u → ca_id row = i →
  (pu_parent_pool_changed u = true → ∀ n v r, sd_attributions s !! (i, SideBtcParent, n, v) = Some r →
     ar_source r ≠ BTC_POOL_SNAPSHOT_SOURCE) →
  (pu_child_pool_changed u = true → ∀ n v r, sd_attributions s !! (i, SideChildBlock, n, v) = Some r →
     ar_source r ≠ BTC_POOL_SNAPSHOT_LEGACY_CHILD_SCRIPT_SOURCE) →
  sd_attributions s !! k = Some r → retained_row i (pu_attributions u) k r.
Proof.
  intros [_ _ _ Ha _] Hi Hp Hc. destruct k as [[[e sd] n] v]. intros Hk. cbn.
  destruct (decide (e = i)) as [->|]; [right; left|by left].
  intros (a & Heq & Hin)%list_elem_of_fmap. injection Heq as -> Hs.
  destruct (Ha a Hin) as [[H1 (H2 & H3 & _)]|[H1 (H2 & H3 & _)]]; rewrite H2 in Hk; rewrite H3 in Hs.
  - by eapply Hp.
  - by eapply Hc.
Qed.

Lemma sync_attributions s i : sd_attributions (sync_event_observation_attribution s i) = sd_attributions s.
Proof.
  unfold sync_event_observation_attribution.
  assert (∀ l s, sd_attributions (insert_child_identities s l) = sd_attributions s) as Hi.
  { induction l as [|k l IH]; intros s0; [done|]. unfold insert_child_identities in *. cbn. rewrite IH.
    unfold insert_child_identity. by case_match. }
  destruct (_ ≫= _) as [[j o]|]; cbn; apply Hi.
Qed.

(** The attribution rows a fill writes over those stored. *)
Lemma fill_writes codes s i row u s' :
  candidate_of codes s i = Some row → fill_only row u → apply_update s u = Ok s' →
  ∃ t, upsert_event_pool_attribution_rows
         (delete_stale_event_pool_attributions_for_sources (sd_attributions s) i (pu_attributions u)) i
         (pu_attributions u) (pu_observed_at u) = Ok t ∧
       upsert_event_pool_attribution_rows t i (pu_child_payout_attributions u) (pu_observed_at u) = Ok (sd_attributions s').
Proof.
  intros Hc Hf Hu. destruct (fill_missing _ _ _ _ _ Hc Hf) as (Hid & _ & Hp & Hch).
  unfold apply_update in Hu. rewrite (fo_event _ _ Hf), Hid in Hu.
  set (s1 := if pu_parent_pool_changed u then _ else s) in Hu.
  set (s2 := if pu_child_pool_changed u then _ else s1) in Hu.
  assert (sd_attributions s1 = sd_attributions s) as H1.
  { unfold s1. destruct (pu_parent_pool_changed u) eqn:E; [|done]. by apply delete_no_rows, Hp. }
  assert (sd_attributions s2 = sd_attributions s) as H2.
  { unfold s2. destruct (pu_child_pool_changed u) eqn:E; [|done]. rewrite delete_no_rows; [done|]. rewrite H1. by apply Hch. }
  apply bind_Ok in Hu as (s3 & H3 & Hu). apply bind_Ok in Hu as (s4 & H4 & Hu). injection Hu as <-.
  unfold upsert_event_pool_attributions in H3. apply bind_Ok in H3 as (t & Ht & H3). injection H3 as <-.
  unfold upsert_event_pool_attributions_without_stale_cleanup in H4. apply bind_Ok in H4 as (t' & Ht' & H4). injection H4 as <-.
  rewrite H2 in Ht. exists t. split; [done|]. rewrite sync_attributions. exact Ht'.
Qed.

(** A stored payout row with a pool is not among what a fill writes. *)
Lemma fill_skips_payout codes s i row u n v r a pool :
  candidate_of codes s i = Some row → fill_only row u → sd_attributions s !! (i, SideChildBlock, n, v) = Some r →
  is_payout_row i (i, SideChildBlock, n, v) r → ar_pool_id r = Some pool → in_i64 pool →
  a ∈ pu_attributions u ∨ a ∈ pu_child_payout_attributions u → attribution_row_key i a ≠ (i, SideChildBlock, n, v).
Proof.
  intros Hc Hf Hk Hr Hpool Hz Ha [= Hside Hn Hv]. destruct (fill_missing _ _ _ _ _ Hc Hf) as (_ & Hset & _).
  destruct Ha as [Ha|Ha].
  - destruct Hr as (_ & _ & Hr & _).
    assert (n ∈ [BTC_COINBASE_TAG_NAMESPACE; BTC_PAYOUT_ADDRESS_NAMESPACE]) as Hns.
    { rewrite <-Hn. destruct (fo_attributions _ _ Hf a Ha) as [[_ (_ & _ & ?)]|[_ (_ & _ & ?)]]; done. }
    assert (bool_decide (n ∈ child_payout_namespaces) = false) as Hno.
    { apply elem_of_cons in Hns as [->| ->%list_elem_of_singleton]; reflexivity. }
    by apply bool_decide_eq_false in Hno.
  - destruct (payout_set_row _ _ _ _ _ _ Hk Hr Hpool Hz) as (kr & Hkr & Hkp).
    pose proof (fo_payouts _ _ Hf a Ha) as Hw. rewrite Hset in Hw. rewrite <-Hn, <-Hv in Hkr.
    destruct (should_write_resolved _ a (ChildPayout false) _ Hkr) as [_ ?]; [by rewrite Hkp|done|done].
Qed.

(** C29. A replay that does not overwrite takes no pool away: every stored attribution with a pool
    still has one, those of other events are untouched, and a payout address already mapped to a
    pool keeps its row as it is. *)
Theorem fill_only_keeps_pools (codes : gmap Z string) (s s' : StoreDb) (i : Z) (row : CandidateRow) (u : PlannedUpdate)
    (k : attribution_key) (r : AttributionRow) (pool : Z) :
  candidate_of codes s i = Some row → planned resolver ids identities false row = Some u → apply_update s u = Ok s' →
  sd_attributions s !! k = Some r → ar_pool_id r = Some pool → in_i64 pool →
  ∃ r', sd_attributions s' !! k = Some r' ∧ is_Some (ar_pool_id r') ∧
    (k.1.1.1 ≠ i → r' = r) ∧ (is_payout_row i k r → r' = r).
Proof.
  intros Hc Hf%planned_fill_only Hu Hk Hp Hz. destruct (fill_missing _ _ _ _ _ Hc Hf) as (Hid & _ & Hpar & Hch).
  destruct (fill_writes _ _ _ _ _ _ Hc Hf Hu) as (t & Ht & Ht').
  assert (delete_stale_event_pool_attributions_for_sources (sd_attributions s) i (pu_attributions u) !! k = Some r) as Hk0.
  { apply delete_stale_lookup; [done|]. by eapply fill_retains. }
  assert (is_Some (ar_pool_id r)) as Hs by eauto.
  assert ((∀ a, a ∈ pu_attributions u ∨ a ∈ pu_child_payout_attributions u → attribution_row_key i a ≠ k) →
    sd_attributions s' !! k = Some r) as Hsame.
  { intros Hne. rewrite (upsert_rows_others _ _ _ _ _ _ Ht') by auto. rewrite (upsert_rows_others _ _ _ _ _ _ Ht) by auto. done. }
  destruct (upsert_rows_known _ _ _ _ _ _ _ Ht Hk0 Hs) as (r1 & Hr1 & Hs1 & _).
  destruct (upsert_rows_known _ _ _ _ _ _ _ Ht' Hr1 Hs1) as (r2 & Hr2 & Hs2 & _).
  exists r2. split_and!; [done|done| |].
  - intros Hne. rewrite Hsame in Hr2; [congruence|]. intros a _ <-. by apply Hne.
  - intros Hr. rewrite Hsame in Hr2; [congruence|]. destruct k as [[[e sd] n] v].
    pose proof Hr as (-> & -> & _). intros a. by eapply fill_skips_payout.
Qed.
End replay.

(** ** Pools of observations *)

Lemma reconciled_pool_ok s j o child parent :
  store_ok s → sd_observations s !! j = Some o → o_kind o ≠ ObsEvidence →
  chk_observation (with_observation_pools o child parent) = true →
  store_ok (with_observations s (<[j := with_observation_pools o child parent]> (sd_observations s))).
Proof.
  intros [Hobs Hrows Hl] Hj Hk Hchk. split; [|by apply with_observations_rows|].
  - cbn. apply (observations_insert _ _ _ _ _ Hobs); [lia|by apply (obs_next _ _ Hobs) in Hj|done|].
    intros k r Hne Hr Hkey. destruct Hne. symmetry. by apply (obs_unique _ _ Hobs _ _ o r).
  - apply links_with_observation; [done|]. intros k e y r _ _ _ Hr. cbn in *. rewrite Hj in Hr. simplify_eq.
    intros [[]]. by repeat split.
Qed.

(** An update that respects the kind of its row. *)
Definition planned_pools (u : ObservationPoolRow * (option Z * option Z)) : Prop :=
  op_near u.1 = false → u.2.2 = op_parent_pool u.1.

Lemma planned_chk u o :
  planned_pools u → unchanged_since u.1 o = true → chk_observation o = true →
  o_kind o ≠ ObsEvidence ∧ chk_observation (with_observation_pools o u.2.1 u.2.2) = true.
Proof.
  unfold unchanged_since. rewrite !andb_true_iff, negb_true_iff, bool_decide_eq_false, eqb_true_iff, !bool_decide_eq_true.
  intros Hp [[[Hk Hn] _] Hpool] Hchk. split; [done|]. unfold chk_observation in *. cbn.
  destruct (o_kind o) eqn:Hkind; [done|done|..]; (assert (u.2.2 = o_parent_pool o) as -> by
    (rewrite Hpool; apply Hp; rewrite <-Hn; reflexivity)); exact Hchk.
Qed.

(** What an update leaves of an observation. *)
Definition settled (overwrite : bool) (o o' : ObservationRow) : Prop :=
  o' = with_observation_pools o (o_child_pool o') (o_parent_pool o') ∧
  (o_kind o = ObsEvidence → o' = o) ∧
  (is_Some (o_parent_pool o) → is_Some (o_parent_pool o')) ∧
  (overwrite = false → is_Some (o_child_pool o) → o_child_pool o' = o_child_pool o) ∧
  (overwrite = false → is_Some (o_parent_pool o) → o_parent_pool o' = o_parent_pool o).

Lemma with_pools_id o : o = with_observation_pools o (o_child_pool o) (o_parent_pool o).
Proof. by destruct o. Qed.

Lemma settled_refl overwrite o : settled overwrite o o.
Proof. split_and!; auto using with_pools_id. Qed.
#[global] Instance settled_trans overwrite : Transitive (settled overwrite).
Proof.
  intros a b c (H1 & H2 & H3 & H4 & H5) (K1 & K2 & K3 & K4 & K5). split_and!.
  - rewrite K1, H1. reflexivity.
  - intros Ha. rewrite K2; [auto|]. rewrite H1. exact Ha.
  - auto.
  - intros Ho Ha. rewrite K4; [auto|done|]. by rewrite H4.
  - intros Ho Ha. rewrite K5; [auto|done|]. by rewrite H5.
Qed.

Section settle.
Context `{BitcoinLib, AddressLib}.
Context (resolver : PoolResolver) (ids : gmap string Z) (identities : PoolIdentityLookup).

Lemma settle_keeps stored resolved overwrite :
  is_Some stored → is_Some (settle stored resolved overwrite) ∧
  (overwrite = false → settle stored resolved overwrite = stored).
Proof. intros [x ->]. destruct resolved, overwrite; cbn; (split; [by eexists|done]). Qed.

Lemma plan_observation_settles row identity_pools overwrite c p :
  (plan_observation_pools resolver ids identities row identity_pools overwrite).1.1 = Some (c, p) →
  (is_Some (op_parent_pool row) → is_Some p ∧ (overwrite = false → p = op_parent_pool row)) ∧
  (overwrite = false → is_Some (op_child_pool row) → c = op_child_pool row) ∧
  planned_pools (row, (c, p)).
Proof.
  unfold plan_observation_pools. destruct (parent_pool resolver ids row) as [resolved corrupt] eqn:Hp. cbn.
  case_bool_decide; [done|]. intros [= <- <-]. split_and!.
  - intros Hs. by apply settle_keeps.
  - intros -> Hs. unfold settled_child_pool.
    destruct (elements _) as [|x [|]]; [by apply settle_keeps|by apply settle_keeps|done].
  - unfold planned_pools, parent_pool in *. cbn. intros Hn. rewrite Hn in Hp. injection Hp as <- <-.
    by destruct (op_parent_pool row).
Qed.

Lemma plan_observations_in rows identity_pools overwrite stats u :
  u ∈ (plan_observations resolver ids identities rows identity_pools overwrite stats).1 →
  (plan_observation_pools resolver ids identities u.1 identity_pools overwrite).1.1 = Some u.2.
Proof.
  revert stats. induction rows as [|row rows IH]; intros stats; cbn; [set_solver|].
  destruct (plan_observation_pools _ _ _ row _ _) as [[o cp] cc] eqn:Hr.
  specialize (IH (add_corrupt stats cp cc)). destruct (plan_observations _ _ _ _ _ _ _) as [us st]. cbn in *.
  rewrite elem_of_app. intros [Hu|Hu]; [|auto]. destruct o as [x|]; cbn in Hu; [|set_solver].
  apply list_elem_of_singleton in Hu as ->. cbn. by rewrite Hr.
Qed.

(** One planned update succeeds and settles the row it names. *)
Lemma update_one_settles identity_pools overwrite s n u :
  store_ok s → (plan_observation_pools resolver ids identities u.1 identity_pools overwrite).1.1 = Some u.2 →
  ∃ s' n', update_observation_pool (s, n) u = Ok (s', n') ∧ store_ok s' ∧
    ∀ j, option_Forall2 (settled overwrite) (sd_observations s !! j) (sd_observations s' !! j).
Proof.
  intros Hs Hu. assert (∀ j, option_Forall2 (settled overwrite) (sd_observations s !! j) (sd_observations s !! j)) as Hid.
  { intros j. destruct (sd_observations s !! j); constructor. apply settled_refl. }
  unfold update_observation_pool. cbn [fst snd]. destruct (sd_observations s !! op_id u.1) as [o|] eqn:Ho; [|eauto].
  destruct (unchanged_since u.1 o) eqn:Hun; [|eauto].
  destruct u as [row [c p]]. cbn [fst snd] in *. apply plan_observation_settles in Hu as (Hp & Hc & Hpl).
  destruct (planned_chk (row, (c, p)) o Hpl Hun) as [Hk Hchk]; [by eapply (obs_chk _ _ (ok_observations _ Hs))|].
  cbn [fst snd] in Hchk. rewrite Hchk. eexists _, _. split; [reflexivity|]. split; [by apply reconciled_pool_ok|].
  intros j. cbn. destruct (decide (op_id row = j)) as [<-|Hne]; [|by rewrite lookup_insert_ne].
  rewrite lookup_insert_eq, Ho. constructor.
  unfold unchanged_since in Hun. rewrite !andb_true_iff, !bool_decide_eq_true in Hun. destruct Hun as [[_ H1] H2].
  unfold settled. cbn. rewrite H1, H2. split_and!; [done|done|by intros [? _]%Hp|done|].
  intros Ho' [_ He]%Hp. auto.
Qed.
End settle.

Section settle_claim.
Context `{BitcoinLib, AddressLib}.
Context (resolver : PoolResolver) (ids : gmap string Z) (identities : PoolIdentityLookup).

Lemma update_rows_settle identity_pools overwrite us s n :
  store_ok s → Forall (λ u, (plan_observation_pools resolver ids identities u.1 identity_pools overwrite).1.1 = Some u.2) us →
  ∃ s' n', update_observation_rows (s, n) us = Ok (s', n') ∧ store_ok s' ∧
    ∀ j, option_Forall2 (settled overwrite) (sd_observations s !! j) (sd_observations s' !! j).
Proof.
  intros Hs Hus. revert s n Hs. induction Hus as [|u us Hu _ IH]; intros s n Hs; cbn.
  { eexists _, _. split_and!; [done|done|]. intros j. destruct (sd_observations s !! j); constructor. apply settled_refl. }
  destruct (update_one_settles resolver ids identities identity_pools overwrite s n u Hs Hu) as (s1 & n1 & -> & Hs1 & H1).
  destruct (IH s1 n1 Hs1) as (s2 & n2 & H2 & Hs2 & H3). cbn. rewrite H2. eexists _, _. split_and!; [done|done|].
  intros j. etrans; [apply H1|apply H3].
Qed.

(** The pass over observations without an event never fails on a constraint, whatever was
    written since its page was loaded: it leaves the tables consistent and changes only the two
    pools of rows that no event backs. It never clears a parent's pool, and without [--overwrite]
    it only fills pools that are missing. *)
Theorem observation_pass_settles (rows : list ObservationPoolRow) (identity_pools : gmap Z Z) (overwrite : bool)
    (stats : ReclassifyPoolsStats) (s : StoreDb) :
  store_ok s →
  ∃ s' n, update_observation_pools s (plan_observations resolver ids identities rows identity_pools overwrite stats).1
            = Ok (s', n) ∧ store_ok s' ∧
    ∀ j, option_Forall2 (settled overwrite) (sd_observations s !! j) (sd_observations s' !! j).
Proof.
  intros Hs. apply (update_rows_settle identity_pools); [done|]. apply Forall_forall. intros u Hu.
  by eapply plan_observations_in.
Qed.
End settle_claim.

(** ** The pages of a scan *)

Section pages.
Context (codes : gmap Z string) (cfg : ReclassifyPoolsConfig) (source_filter : option Z).

Abbreviation chosen := (selected codes (rc_overwrite cfg) source_filter).
Abbreviation page := (load_candidate_batch codes cfg source_filter).

(** The pages the loop loads when the tables are [stores n] at its [n]-th load; [None] when it
    does not stop within its pages. *)
Fixpoint page_trace (pages : nat) (stores : nat → StoreDb) (cursor : option Z) : option (list (list CandidateRow)) :=
  match pages with
  | O => None
  | S pages =>
      let rows := page cursor (stores O) in
      match last rows with
      | None => Some []
      | Some row => (rows ::.) <$> page_trace pages (λ n, stores (S n)) (Some (ca_id row))
      end
  end.

(** All the candidates above a cursor, in the order of their ids. *)
Definition candidates (cursor : option Z) (s : StoreDb) : list CandidateRow :=
  omap (chosen s) (filter (λ i, above cursor i = true) (merge_sort Z.le (elements (dom (sd_events s))))).

Lemma chosen_id s i c : chosen s i = Some c → ca_id c = i ∧ i ∈ dom (sd_events s).
Proof.
  unfold selected, candidate_of. intros (c' & Hc & H)%bind_Some. case_match; [|done]. injection H as ->.
  apply bind_Some in Hc as (e & He & Hc). apply bind_Some in Hc as (x & _ & Hc).
  apply bind_Some in Hc as (o & _ & Hc). apply bind_Some in Hc as (code & _ & Hc). injection Hc as <-.
  split; [done|]. by apply elem_of_dom_2 in He.
Qed.

Lemma candidates_in cursor s c :
  c ∈ candidates cursor s ↔ chosen s (ca_id c) = Some c ∧ above cursor (ca_id c) = true.
Proof.
  unfold candidates. rewrite list_elem_of_omap. split.
  - intros (i & Hi & Hc). apply list_elem_of_filter in Hi as [Ha _]. by destruct (chosen_id _ _ _ Hc) as [<- _].
  - intros [Hc Ha]. exists (ca_id c). split; [|done]. apply list_elem_of_filter. split; [done|].
    rewrite merge_sort_Permutation, elem_of_elements. by apply chosen_id in Hc as [_ ?].
Qed.

Lemma omap_sorted s l :
  StronglySorted Z.lt l → StronglySorted Z.lt (ca_id <$> omap (chosen s) l).
Proof.
  induction 1 as [|i l Hl IH Hf]; cbn; [constructor|]. destruct (chosen s i) as [c|] eqn:Hc; [|done].
  cbn. constructor; [done|]. apply chosen_id in Hc as [-> _]. apply Forall_forall. intros j (c' & -> & Hin)%list_elem_of_fmap.
  apply list_elem_of_omap in Hin as (k & Hk & Hc'). apply chosen_id in Hc' as [-> _]. rewrite Forall_forall in Hf. auto.
Qed.

Lemma sorted_strict (l : list Z) : NoDup l → StronglySorted Z.lt (merge_sort Z.le l).
Proof.
  intros Hn. rewrite <-(merge_sort_Permutation Z.le) in Hn. revert Hn.
  generalize (StronglySorted_merge_sort Z.le l). induction 1 as [|i k Hk IH Hf]; [constructor|].
  intros [Hi Hn]%NoDup_cons. constructor; [auto|]. apply Forall_forall. intros j Hj. rewrite Forall_forall in Hf.
  specialize (Hf j Hj). assert (i ≠ j) by congruence. lia.
Qed.

Lemma filter_sorted (P : Z → Prop) `{∀ i, Decision (P i)} l : StronglySorted Z.lt l → StronglySorted Z.lt (filter P l).
Proof.
  induction 1 as [|i l Hl IH Hf]; [constructor|]. rewrite filter_cons. case_decide; [|done]. constructor; [done|].
  rewrite Forall_forall in Hf |- *. intros j [_ Hj]%list_elem_of_filter. auto.
Qed.

Lemma candidates_sorted cursor s : StronglySorted Z.lt (ca_id <$> candidates cursor s).
Proof. apply omap_sorted, filter_sorted, sorted_strict, NoDup_elements. Qed.

(** A page is the front of the candidates above the cursor: what is left is above its last row. *)
Lemma page_front cursor s row :
  last (page cursor s) = Some row →
  StronglySorted Z.lt (ca_id <$> page cursor s) ∧
  (∀ c, c ∈ page cursor s → above cursor (ca_id c) = true ∧ ca_id c ≤ ca_id row) ∧
  ∀ i, is_Some (chosen s i) → above cursor i = true → i ∈ ca_id <$> page cursor s ∨ above (Some (ca_id row)) i = true.
Proof.
  unfold load_candidate_batch. set (n := Z.to_nat _). fold (candidates cursor s). intros Hl.
  pose proof (candidates_sorted cursor s) as Hs. pose proof (take_drop n (candidates cursor s)) as Htd.
  rewrite <-Htd, fmap_app in Hs. apply StronglySorted_app in Hs as (Hcross & Ht & _).
  apply last_Some in Hl as [l Hl]. split_and!; [done| |].
  - intros c Hc. split; [apply (candidates_in _ s); rewrite <-Htd; set_solver|].
    rewrite Hl in Hc, Ht. apply elem_of_app in Hc as [Hc| ->%list_elem_of_singleton]; [|lia].
    rewrite fmap_app in Ht. apply StronglySorted_app in Ht as (Ht & _). apply Z.lt_le_incl, Ht; [by apply list_elem_of_fmap_2|].
    cbn. by left.
  - intros i [c Hc] Ha. pose proof (chosen_id _ _ _ Hc) as [<- _].
    assert (c ∈ candidates cursor s) as Hin by (by apply candidates_in).
    rewrite <-Htd, elem_of_app in Hin. destruct Hin as [Hin|Hin]; [left; by apply list_elem_of_fmap_2|right].
    cbn. apply Z.ltb_lt, Hcross; [|by apply list_elem_of_fmap_2]. rewrite Hl, fmap_app, elem_of_app. right. by left.
Qed.

Lemma page_empty cursor s i :
  0 < rc_batch_size cfg → last (page cursor s) = None → is_Some (chosen s i) → above cursor i = true → False.
Proof.
  intros Hb Hl [c Hc] Ha. pose proof (chosen_id _ _ _ Hc) as [<- _].
  assert (c ∈ candidates cursor s) as Hin by (by apply candidates_in).
  apply last_None in Hl. unfold load_candidate_batch in Hl. fold (candidates cursor s) in Hl.
  destruct (candidates cursor s); [set_solver|]. destruct (Z.to_nat (rc_batch_size cfg)) eqn:E; [lia|done].
Qed.

Lemma trace_covers pages stores cursor l :
  0 < rc_batch_size cfg → page_trace pages stores cursor = Some l →
  StronglySorted Z.lt (ca_id <$> mjoin l) ∧ (∀ i, i ∈ ca_id <$> mjoin l → above cursor i = true) ∧
  ∀ i, (∀ n, is_Some (chosen (stores n) i)) → above cursor i = true → i ∈ ca_id <$> mjoin l.
Proof.
  intros Hb. revert stores cursor l. induction pages as [|pages IH]; intros stores cursor l; [done|].
  cbn [page_trace]. destruct (last (page cursor (stores O))) as [row|] eqn:Hl.
  - intros (l' & Htr & ->)%fmap_Some. apply IH in Htr as (Hs & Ha & Hc).
    destruct (page_front _ _ _ Hl) as (Hps & Hpa & Hpc). cbn [mjoin list_join]. rewrite fmap_app. split_and!.
    + apply StronglySorted_app. split_and!; [|done|done]. intros i j (c & -> & Hin)%list_elem_of_fmap Hj%Ha.
      apply Hpa in Hin as [_ Hle]. cbn in Hj. lia.
    + intros i [(c & -> & Hin)%list_elem_of_fmap|Hi%Ha]%elem_of_app; [by apply Hpa|].
      apply last_Some in Hl as [k Hk]. destruct (Hpa row) as [Hrow _]; [rewrite Hk; set_solver|].
      destruct cursor; cbn in *; lia.
    + intros i Hi Hab. rewrite elem_of_app. destruct (Hpc i (Hi O) Hab) as [?|Hab']; [by left|].
      right. apply Hc; [intros n; apply (Hi (S n))|done].
  - intros [= <-]. split_and!; [constructor|set_solver|]. intros i Hi Hab. exfalso. by eapply page_empty.
Qed.

Lemma trace_stops pages stores cursor bound :
  (∀ n i, i ∈ dom (sd_events (stores n)) → 0 < i ≤ bound) → default 0 cursor ≤ bound →
  bound - default 0 cursor < Z.of_nat pages → is_Some (page_trace pages stores cursor).
Proof.
  revert stores cursor. induction pages as [|pages IH]; intros stores cursor Hd Hc Hp; [lia|].
  cbn [page_trace]. destruct (last (page cursor (stores O))) as [row|] eqn:Hl; [|eauto].
  assert (above cursor (ca_id row) = true ∧ 0 < ca_id row ≤ bound) as [Ha Hr].
  { apply last_Some in Hl as [k Hk]. assert (row ∈ candidates cursor (stores O)) as Hin.
    { rewrite <-(take_drop (Z.to_nat (rc_batch_size cfg))), elem_of_app. left.
      unfold load_candidate_batch in Hk. fold (candidates cursor (stores O)) in Hk. rewrite Hk. set_solver. }
    apply candidates_in in Hin as [[_ Hd']%chosen_id Ha]. eauto. }
  destruct (IH (λ n, stores (S n)) (Some (ca_id row))) as [l ->]; [eauto|cbn; lia| |cbn; eauto].
  cbn. destruct cursor; cbn in *; lia.
Qed.

(** The scan visits every candidate once, whatever the tables become between its pages: the
    rows of its pages have increasing ids, an event that is a candidate at every load is in one of
    them, and the scan stops within as many pages as there are ids, and one more. *)
Theorem scan_visits_once (stores : nat → StoreDb) (bound : Z) :
  0 < rc_batch_size cfg → 0 ≤ bound → (∀ n i, i ∈ dom (sd_events (stores n)) → 0 < i ≤ bound) →
  ∃ l, page_trace (S (Z.to_nat bound)) stores None = Some l ∧ StronglySorted Z.lt (ca_id <$> mjoin l) ∧
    ∀ i, (∀ n, is_Some (chosen (stores n) i)) → i ∈ ca_id <$> mjoin l.
Proof.
  intros Hb Hpos Hd. destruct (trace_stops (S (Z.to_nat bound)) stores None bound Hd) as [l Hl]; [done|cbn; lia|].
  exists l. destruct (trace_covers _ _ _ _ Hb Hl) as (Hs & _ & Hc). split_and!; [done|done|]. intros i Hi. by apply Hc.
Qed.
End pages.

(** ** Samples *)

Module ReclassifySample.
Import Toy PoolsSample AttributionSample.

(** An event whose parent has the tag of a pool, captured without attributions but for a payout
    address that is mapped. *)
Definition event : MergeMiningEventPayload :=
  {| p_child_height := Some 7; p_child_block_hash := Some [x0a]; p_child_header_bytes := None;
     p_child_block_time := None; p_child_nbits := None; p_child_prev_block_hash := None;
     p_hash := [x01]; p_prev_hash := [x00]; p_header_bytes := [x02]; p_header_time := 0;
     p_height := None; p_kind := PkUnknown; p_pow := true; p_pow_child := None;
     p_difficulty_ok := None; p_provisional := false; p_txid := None; p_script := Some script;
     p_outputs := None; p_outputs_text := None; p_tx_bytes := None; p_child_txid := None;
     p_child_script := None; p_child_outputs := None; p_proof := None;
     p_attributions := [child_payout_address NAMECOIN_CHILD_PAYOUT_PARAMS "N1" (Some (mkIdentityRef 3 4 PayoutHigh))];
     p_discovered_at := 5; p_confirmed_at := 5; p_revoked_at := None; p_revocation_reason := None;
     p_provenance := None |}.
Definition stored : StoreDb := EventStoreSample.after EventStoreSample.empty event.
Definition codes : gmap Z string := {[ 1 := "auxpow:namecoin"%string ]}.
Definition payout_key : attribution_key := (1, SideChildBlock, "namecoin_payout_address", "N1")%string.

Definition no_row : CandidateRow :=
  mkCandidate 0 [] "" (mkSourceAttribution 0 None) (mkSourceAttribution 0 None) ∅ None None None None None 0.
Definition row : CandidateRow := default no_row (candidate_of codes stored 1).
Definition no_update : PlannedUpdate := mkPlanned 0 false false false [] [] 0.
Definition update : PlannedUpdate := default no_update (planned resolver ids ∅ false row).
Definition refilled : StoreDb := default stored (result_ok (apply_update stored update)).

Lemma default_Some {A} (a : A) (o : option A) : is_some o = true → o = Some (default a o).
Proof. by destruct o. Qed.
Lemma default_Ok {E A} (a : A) (r : result E A) : is_some (result_ok r) = true → r = Ok (default a (result_ok r)).
Proof. by destruct r. Qed.

Lemma event_written : is_some (EventStoreSample.write EventStoreSample.empty event) = true.
Proof. vm_compute. reflexivity. Qed.
Lemma stored_ok : store_ok stored.
Proof.
  unfold stored. eapply upsert_with_attributions_ok; [exact EventStoreSample.empty_store_ok|].
  apply EventStoreSample.write_Ok, event_written.
Qed.

(** The tag is filled in and the mapped address kept. *)
Lemma fill_only_keeps_pools_witness :
  (∃ r', sd_attributions refilled !! payout_key = Some r' ∧ is_Some (ar_pool_id r')) ∧
  ar_pool_id <$> sd_attributions refilled !! (1, SideBtcParent, "btc_coinbase_tag", "/ViaBTC/TATMAS Pool/")%string
    = Some (Some 8).
Proof.
  split; [|vm_compute; reflexivity].
  destruct (fill_only_keeps_pools resolver ids ∅ codes stored refilled 1 row update payout_key
    (default (mkAttrRow "" None None "" ConfLow Null 0 0) (sd_attributions stored !! payout_key)) 3)
    as (r' & Hr' & Hp & _).
  - apply default_Some. vm_compute. reflexivity.
  - apply default_Some. vm_compute. reflexivity.
  - apply default_Ok. vm_compute. reflexivity.
  - apply default_Some. vm_compute. reflexivity.
  - vm_compute. reflexivity.
  - split; discriminate.
  - exists r'. split; [exact Hr'|exact Hp].
Defined.

Lemma scan_visits_once_witness :
  ∃ l, page_trace codes (mkReclassifyConfig true 500) None 2 (λ _, stored) None = Some l ∧ 1 ∈ ca_id <$> mjoin l.
Proof.
  destruct (scan_visits_once codes (mkReclassifyConfig true 500) None (λ _, stored) 1) as (l & Hl & _ & Hc).
  - reflexivity.
  - discriminate.
  - intros _ i Hi.
    assert (dom (sd_events stored) = {[ 1 ]}) as Hd by (apply leibniz_equiv; intros j; vm_compute; tauto).
    rewrite Hd in Hi. apply elem_of_singleton in Hi as ->. split; reflexivity || discriminate.
  - exists l. split; [exact Hl|]. apply Hc. intros n. eexists. vm_compute. reflexivity.
Defined.

(** An observation of a near block, without a pool. *)
Definition near_rows : list ObservationPoolRow :=
  [mkObservationPool 1 "auxpow:namecoin" true ∅ None None (Some script) None None None]%string.
Lemma observation_pass_settles_witness :
  ∃ s' n, update_observation_pools stored
            (plan_observations resolver ids ∅ near_rows ∅ false (mkReclassifyStats 0 0 0 0 0 0 0)).1 = Ok (s', n) ∧ store_ok s'.
Proof.
  destruct (observation_pass_settles resolver ids ∅ near_rows ∅ false (mkReclassifyStats 0 0 0 0 0 0 0) stored stored_ok)
    as (s' & n & Hu & Hs & _). exists s', n. split; [exact Hu|exact Hs].
Defined.
End ReclassifySample.
