(* ===== verification/Recheck.v ===== *)
(** * Rechecks of undecided parents

    Models [crates/mmm-read-model/src/unknown_reclassify.rs] and
    [known_stale_reclassify.rs]: the pages of undecided parents, the recheck that the cache of
    Core's headers schedules, which hands each page to the durable queue together with its
    cursor, and the demotion of orphans that are known stale blocks.

    The world of the scheduled recheck is that of the drain of the queue, whose environment
    also has the tables and the state of the cache. The exclusive lock of the cache is held
    for a step, and a statement may fail anywhere. Progress reports are not modelled. *)

From S2P Require Import Prelude BitcoinLib Effects Errors Reader Auxpow Nbits Lineage Classifier LiveLoop Poller Blocks SyncState CoreQueue Events Reconcile CoreSuffix Reorg Cascade HeaderCache.
From stdpp Require Import sorting.
From Stdlib Require Import ZifyBool.

Local Open Scope Z_scope.

(** ** Candidates *)

Record Candidate := mkRecheckCandidate {
  rk_event_id : Z;
  rk_parent_hash : bytes;
  rk_sort_child_height : Z;
  rk_before_class : option string;
}.
Definition cursor (c : Candidate) : Z * Z := (rk_sort_child_height c, rk_event_id c).

(** [COALESCE(child_height, 2147483648)]. *)
Definition sort_child_height (e : EventRow) : Z := default 2147483648 (e_child_height e).

Definition orphan_class (db : ReadModel) (h : bytes) : option string := rm_blocks db !! h ≫= b_btc_orphan_class.

(** The [WHERE] of the inner query; [codes] is the column of the table of sources. *)
Definition eligible (codes : gmap Z string) (db : ReadModel) (scope : RecheckScope) (e : EventRow) : bool :=
  bool_decide (e_kind e = PkUnknown) && e_pow e && negb (is_some (e_revoked_at e))
  && (orphans scope || negb (is_some (orphan_class db (e_hash e))))
  && match sources scope with
     | None => true
     | Some wanted => match codes !! e_source_id e with Some code => bool_decide (code ∈ wanted) | None => false end
     end.

(** [ORDER BY child_height NULLS LAST, id]. *)
Definition event_first (a b : EventRow) : bool :=
  match e_child_height a, e_child_height b with
  | Some x, Some y => (x <? y) || (x =? y) && (e_id a <=? e_id b)
  | Some _, None => true
  | None, Some _ => false
  | None, None => e_id a <=? e_id b
  end.

Definition eligible_events (codes : gmap Z string) (db : ReadModel) (scope : RecheckScope) : list EventRow :=
  filter (λ e, eligible codes db scope e = true) (snd <$> map_to_list (rm_events db)).

(** [DISTINCT ON (btc_parent_header_hash)]: the first event of each parent. *)
Definition represents (l : list EventRow) (e : EventRow) : bool :=
  forallb (λ e', negb (bool_decide (e_hash e' = e_hash e)) || event_first e e') l.
Definition candidate_of (db : ReadModel) (e : EventRow) : Candidate :=
  mkRecheckCandidate (e_id e) (e_hash e) (sort_child_height e) (orphan_class db (e_hash e)).
Definition all_candidates (codes : gmap Z string) (db : ReadModel) (scope : RecheckScope) : list Candidate :=
  let l := eligible_events codes db scope in candidate_of db <$> filter (λ e, represents l e = true) l.

(** The comparison of rows [(sort_child_height, id) > (..)]. *)
Definition key_lt (a b : Z * Z) : bool := (a.1 <? b.1) || (a.1 =? b.1) && (a.2 <? b.2).
Definition after (c : option (Z * Z)) (k : Z * Z) : bool := match c with None => true | Some c => key_lt c k end.
Definition candidate_le (a b : Candidate) : Prop := key_lt (cursor b) (cursor a) = false.
#[global] Instance candidate_le_dec a b : Decision (candidate_le a b).
Proof. unfold candidate_le. apply _. Defined.

Definition load_candidate_page (codes : gmap Z string) (scope : RecheckScope) (c : option (Z * Z)) (page_size : Z)
    (db : ReadModel) : list Candidate :=
  take (Z.to_nat page_size)
    (merge_sort candidate_le (filter (λ k, after c (cursor k) = true) (all_candidates codes db scope))).

(** A candidate off [unknown], or with another orphan class. *)
Definition transitioned (db : ReadModel) (c : Candidate) : bool :=
  match rm_events db !! rk_event_id c with
  | Some e => negb (bool_decide (e_kind e = PkUnknown))
              || negb (bool_decide (orphan_class db (e_hash e) = rk_before_class c))
  | None => false
  end.
Definition count_changed (db : ReadModel) (page : list Candidate) : Z :=
  Z.of_nat (length (filter (λ c, transitioned db c = true) page)).

(** ** The scheduled recheck *)

Class RecheckTables (W : Type) := {
  recheck_tables : W → ReadModel;
  cache_state : W → CacheState;
  set_cache_state : CacheState → W → W;
}.

(** A statement does not write, and the state of the cache is apart from the tables. *)
Class RecheckTablesLaws (W : Type) `{ReconcileEnv W} `{RecheckTables W} := {
  cache_state_set s w : cache_state (set_cache_state s w) = s;
  recheck_tables_set s w : recheck_tables (set_cache_state s w) = recheck_tables w;
  statement_tables w : recheck_tables (statement w).2 = recheck_tables w;
  statement_cache w : cache_state (statement w).2 = cache_state w;
}.

Record ScheduledRecheckReport := mkRecheckReport {
  rr_pages : Z;
  rr_candidates : Z;
  rr_changed : Z;
  rr_acknowledged : option Z;
}.

Inductive PageStep :=
| RecoveryContinues
| NothingPending
| PageQueued
| Bounded
| Acknowledged (generation : Z).

Section recheck.
Context {W : Type} `{ReconcileEnv W} `{RecheckTables W}.
Context (codes : gmap Z string).
#[local] Abbreviation qM := (stM (QueueWorld W) anyhow).

Definition put_cache (s : CacheState) : qM unit :=
  modify (λ w, mkQueueWorld (set_cache_state s (q_env w)) (q_rows w) (q_sync w)).

(** One transaction: both writes are visible when it commits. *)
Definition queue_page (generation : Z) (page : list Candidate) (last : Z * Z) : qM unit :=
  _ ← on_err (Context "begin scheduled recheck page") (on_qenv statement);
  now ← gets (λ w, now_secs (q_env w));
  q ← gets q_rows;
  q ← lift (enqueue_core_reconcile_primaries now q (rk_parent_hash <$> page));
  _ ← on_qenv statement;
  s ← gets (λ w, cache_state (q_env w));
  s ← lift (persist_recheck_cursor s generation last);
  _ ← on_err (Context "commit scheduled recheck page") (on_qenv statement);
  _ ← put_queue q;
  put_cache s.

Definition count_page (report : ScheduledRecheckReport) : ScheduledRecheckReport :=
  mkRecheckReport (rr_pages report + 1) (rr_candidates report) (rr_changed report) (rr_acknowledged report).
Definition count_candidates (report : ScheduledRecheckReport) (n : Z) : ScheduledRecheckReport :=
  mkRecheckReport (rr_pages report) (rr_candidates report + n) (rr_changed report) (rr_acknowledged report).
Definition count_transitions (report : ScheduledRecheckReport) (n : Z) : ScheduledRecheckReport :=
  mkRecheckReport (rr_pages report) (rr_candidates report) (rr_changed report + n) (rr_acknowledged report).
Definition acknowledge (report : ScheduledRecheckReport) (g : Z) : ScheduledRecheckReport :=
  mkRecheckReport (rr_pages report) (rr_candidates report) (rr_changed report) (Some g).

(** The next page of the pass, or its acknowledgement. *)
Definition next_page (page_size : Z) (pass : RecheckPass) (report : ScheduledRecheckReport)
    : qM (PageStep * ScheduledRecheckReport * option (list Candidate)) :=
  _ ← on_qenv statement;
  page ← gets (λ w, load_candidate_page codes (rp_scope pass) (rp_cursor pass) page_size (recheck_tables (q_env w)));
  let report := count_page report in
  match last page with
  | None =>
      _ ← on_qenv statement;
      s ← gets (λ w, cache_state (q_env w));
      s ← lift (acknowledge_recheck_pass s (rp_generation pass));
      _ ← put_cache s;
      mret (Acknowledged (rp_generation pass), report, None)
  | Some c =>
      _ ← queue_page (rp_generation pass) page (cursor c);
      mret (PageQueued, count_candidates report (Z.of_nat (length page)), Some page)
  end.

(** The pass that is bound, or a new one over the pending scope. *)
Definition bound_pass (state : ScheduledRecheck) : qM RecheckPass :=
  match sr_pass state with
  | Some pass => mret pass
  | None =>
      _ ← on_qenv statement;
      s ← gets (λ w, cache_state (q_env w));
      let '(pass, s) := bind_recheck_pass s (sr_pending_scope state) in
      _ ← put_cache s;
      mret pass
  end.

(** The body of a lock hold; [None] when the fuel of the drain runs out. [queued] is the last
    page handed to the queue. *)
Definition page_step (fuel : nat) (page_size : Z) (max_pages : option Z) (report : ScheduledRecheckReport)
    (queued : option (list Candidate)) : qM (option (PageStep * ScheduledRecheckReport * option (list Candidate))) :=
  empty ← drain_core_reconcile_queue_up_to fuel CORE_RECOVERY_BATCH true;
  match empty with
  | None => mret None
  | Some false => mret (Some (RecoveryContinues, report, queued))
  | Some true =>
      report ← (match queued with
                | None => mret report
                | Some page =>
                    _ ← on_qenv statement;
                    n ← gets (λ w, count_changed (recheck_tables (q_env w)) page);
                    mret (count_transitions report n)
                end);
      if is_some queued && match max_pages with Some m => m <=? rr_pages report | None => false end
      then mret (Some (Bounded, report, None))
      else
        _ ← on_qenv statement;
        state ← gets (λ w, load_scheduled_recheck (cache_state (q_env w)));
        if negb (is_pending state) then mret (Some (NothingPending, report, None))
        else
          pass ← bound_pass state;
          r ← next_page page_size pass report;
          mret (Some r)
  end.

(** [finish_bitcoin_core_header_cache_operation]: the lock is released on every path. *)
Definition under_cache_lock {A} (m : qM A) : qM A :=
  _ ← on_qenv statement;
  r ← attempt m;
  u ← attempt (on_qenv statement);
  match r, u with
  | Ok a, Ok _ => mret a
  | Err e, Ok _ => throw e
  | Ok _, Err e => throw e
  | Err e, Err _ => throw (Context "unlock failed" e)
  end.

Fixpoint recheck_loop (holds fuel : nat) (page_size : Z) (max_pages : option Z) (report : ScheduledRecheckReport)
    (queued : option (list Candidate)) : qM (option ScheduledRecheckReport) :=
  match holds with
  | O => mret None
  | S holds =>
      r ← under_cache_lock (page_step fuel page_size max_pages report queued);
      match r with
      | None => mret None
      | Some ((RecoveryContinues | PageQueued), report, queued) => recheck_loop holds fuel page_size max_pages report queued
      | Some ((NothingPending | Bounded), report, _) => mret (Some report)
      | Some (Acknowledged g, report, queued) =>
          recheck_loop holds fuel page_size max_pages (acknowledge report g) queued
      end
  end.

Definition run_scheduled_recheck_bounded (holds fuel : nat) (enabled : bool) (page_size : Z) (max_pages : option Z)
    : qM (option ScheduledRecheckReport) :=
  _ ← guardM enabled (Other "reclassify-unknown-parents --scheduled requires BITCOIN_RPC_URL");
  _ ← on_qenv statement;
  _ ← on_qenv statement;
  recheck_loop holds fuel page_size max_pages (mkRecheckReport 0 0 0 None) None.
Definition run_scheduled_recheck (holds fuel : nat) (enabled : bool) (page_size : Z) : qM (option ScheduledRecheckReport) :=
  run_scheduled_recheck_bounded holds fuel enabled page_size None.
End recheck.

(** ** The recheck on demand *)

Section on_demand.
Context `{BitcoinLib} {W : Type} `{CoreHeaderSource W} `{Clock W} `{ReadModelSession W}.
Context (invalid_blocks_lookup : bytes → option InvalidBlock).
Context (resolve_pool : bytes → option bytes → option Z).
Context (classifier : ConfiguredParentClassifier) (codes : gmap Z string).
#[local] Abbreviation sM := (stM (W * ReadModel) anyhow).

(** [None] when the fuel of a cascade runs out. *)
Fixpoint reclassify_candidates (fuel : nat) (page : list Candidate) : sM (option unit) :=
  match page with
  | [] => mret (Some ())
  | c :: page =>
      r ← reconcile_from_merge_mining_event invalid_blocks_lookup resolve_pool classifier None fuel (rk_event_id c) None;
      match r with
      | None => mret None
      | Some _ => reclassify_candidates fuel page
      end
  end.
Definition reclassify_page (fuel : nat) (page : list Candidate) : sM (option Z) :=
  r ← reclassify_candidates fuel page;
  match r with
  | None => mret None
  | Some _ => _ ← session; n ← gets (λ w, count_changed w.2 page); mret (Some n)
  end.

Fixpoint reclassify_pages (pages fuel : nat) (scope : RecheckScope) (batch_size : Z) (c : option (Z * Z)) (changed : Z)
    : sM (option Z) :=
  match pages with
  | O => mret None
  | S pages =>
      _ ← session;
      page ← gets (λ w, load_candidate_page codes scope c batch_size w.2);
      match last page with
      | None => mret (Some changed)
      | Some k =>
          r ← reclassify_page fuel page;
          match r with
          | None => mret None
          | Some n => reclassify_pages pages fuel scope batch_size (Some (cursor k)) (changed + n)
          end
      end
  end.

Definition run_reclassify_unknown_parents (pages fuel : nat) (batch_size : Z) (recheck_orphans : bool) : sM (option Z) :=
  _ ← guardM (is_enabled classifier) (Other "reclassify-unknown-parents requires BITCOIN_RPC_URL");
  _ ← session;
  reclassify_pages pages fuel (mkScope recheck_orphans None) batch_size None 0.
End on_demand.

(** ** Known stale blocks ([known_stale_reclassify.rs]) *)

Definition demotable (r : BlockInput) : bool :=
  bool_decide (b_kind r = BkUnknown)
  && bool_decide (b_btc_orphan_class r ∈ [Some "strict_btc_orphan"; Some "weak_btc_orphan"]%string).

(** The scan of one batch, in the order of the hashes. *)
Definition contaminated (db : ReadModel) : list bytes :=
  merge_sort bytes_le
    (filter (λ h, h ∈ rm_known_stale db)
       (fst <$> filter (λ hr, demotable hr.2 = true) (map_to_list (rm_blocks db)))).
Definition scan_contaminated (batch_size : Z) (db : ReadModel) : list bytes :=
  take (Z.to_nat batch_size) (contaminated db).

Definition exclude_row (r : BlockInput) : BlockInput :=
  {| b_hash := b_hash r; b_prev_hash := b_prev_hash r; b_height := b_height r; b_height_source := b_height_source r;
     b_kind := b_kind r; b_header_bytes := b_header_bytes r; b_header_time := b_header_time r;
     b_bitcoin_miner_pool_id := b_bitcoin_miner_pool_id r; b_coinbase_txid := b_coinbase_txid r;
     b_coinbase_script := b_coinbase_script r; b_coinbase_outputs := b_coinbase_outputs r;
     b_coinbase_status := b_coinbase_status r; b_invalid_block_reason := b_invalid_block_reason r;
     b_canonical_competitor_hash := b_canonical_competitor_hash r; b_total_attestations := b_total_attestations r;
     b_distinct_sources := b_distinct_sources r; b_auxpow_chain_count := b_auxpow_chain_count r;
     b_live_observed := b_live_observed r; b_core_attested := b_core_attested r;
     b_pow_validated := b_pow_validated r; b_difficulty_epoch_ok := b_difficulty_epoch_ok r;
     b_first_attested_at := b_first_attested_at r; b_last_attested_at := b_last_attested_at r;
     b_btc_orphan_class := Some "excluded"%string |}.

(** The [UPDATE] of one hash. *)
Definition demote_row (t : block_table) (h : bytes) : Z * block_table :=
  match t !! h with
  | Some r => if demotable r then (1, <[h := exclude_row r]> t) else (0, t)
  | None => (0, t)
  end.

Section known_stales.
Context {W : Type} `{ReadModelSession W}.
#[local] Abbreviation sM := (stM (W * ReadModel) anyhow).

Fixpoint reclassify_known_stale_hashes_in_transaction (hashes : list bytes) (t : block_table) : Z * block_table :=
  match hashes with
  | [] => (0, t)
  | h :: hashes =>
      let '(n, t) := demote_row t h in
      let '(m, t) := reclassify_known_stale_hashes_in_transaction hashes t in (n + m, t)
  end.

(** The lock is taken before the update; the health bracket around it has no effect on the
    tables modelled. *)
Definition demote_one (h : bytes) : sM Z :=
  _ ← session;
  t ← gets (λ w, rm_blocks w.2);
  let '(n, t) := reclassify_known_stale_hashes_in_transaction [h] t in
  _ ← on_err (Context "commit known-stale demotion transaction") (on_env commit);
  _ ← modify (λ w, (w.1, with_blocks w.2 t));
  mret n.

Fixpoint demote_all (hashes : list bytes) (demoted : Z) : sM Z :=
  match hashes with
  | [] => mret demoted
  | h :: hashes => n ← demote_one h; demote_all hashes (demoted + n)
  end.

(** [None] when the fuel runs out. *)
Fixpoint demote_loop (fuel : nat) (batch_size demoted : Z) : sM (option Z) :=
  match fuel with
  | O => mret None
  | S fuel =>
      _ ← session;
      hashes ← gets (λ w, scan_contaminated batch_size w.2);
      match hashes with
      | [] => mret (Some demoted)
      | _ => demoted ← demote_all hashes demoted; demote_loop fuel batch_size demoted
      end
  end.

Record KnownStaleReclassifySummary := mkStaleSummary { ks_membership_size : Z; ks_demoted : Z }.

Definition run_reclassify_known_stales (fuel : nat) (batch_size : Z) : sM (option KnownStaleReclassifySummary) :=
  _ ← session;
  members ← gets (λ w, Z.of_nat (size (rm_known_stale w.2)));
  if members =? 0 then mret (Some (mkStaleSummary 0 0))
  else r ← demote_loop fuel batch_size 0; mret (mkStaleSummary members <$> r).
End known_stales.

(** ** The candidates of a page *)

(** The table of events is keyed by its ids. *)
Definition keyed (db : ReadModel) : Prop := ∀ i e, rm_events db !! i = Some e → e_id e = i.

#[global] Instance candidate_le_total : Total candidate_le.
Proof. intros a b. unfold candidate_le, key_lt. destruct (cursor a), (cursor b). cbn. lia. Qed.
#[global] Instance candidate_le_trans : Transitive candidate_le.
Proof. intros a b c. unfold candidate_le, key_lt. destruct (cursor a), (cursor b), (cursor c). cbn. lia. Qed.

Lemma all_candidates_in codes db scope c :
  c ∈ all_candidates codes db scope ↔
  ∃ e, e ∈ eligible_events codes db scope ∧ represents (eligible_events codes db scope) e = true ∧ c = candidate_of db e.
Proof.
  unfold all_candidates. rewrite list_elem_of_fmap. split.
  - intros (e & -> & [Hr He]%list_elem_of_filter). eauto.
  - intros (e & He & Hr & ->). exists e. by rewrite list_elem_of_filter.
Qed.

Lemma eligible_in codes db scope e :
  e ∈ eligible_events codes db scope ↔ eligible codes db scope e = true ∧ ∃ i, rm_events db !! i = Some e.
Proof.
  unfold eligible_events. rewrite list_elem_of_filter, list_elem_of_fmap. split.
  - intros [He ([i e'] & -> & Hin%elem_of_map_to_list)]. eauto.
  - intros [He [i Hi]]. split; [done|]. exists (i, e). split; [done|]. by apply elem_of_map_to_list.
Qed.

Lemma event_first_antisymm a b : event_first a b = true → event_first b a = true → e_id a = e_id b.
Proof. unfold event_first. destruct (e_child_height a), (e_child_height b); lia. Qed.

Lemma represents_first l e e' : represents l e = true → e' ∈ l → e_hash e' = e_hash e → event_first e e' = true.
Proof.
  unfold represents. rewrite forallb_forall. intros Hr Hin%list_elem_of_In Hh. specialize (Hr _ Hin).
  by rewrite bool_decide_eq_true_2 in Hr.
Qed.

(** Events with the same id are the same row. *)
Lemma event_by_id codes db scope e e' :
  keyed db → e ∈ eligible_events codes db scope → e' ∈ eligible_events codes db scope → e_id e = e_id e' → e = e'.
Proof.
  intros Hk [_ [i Hi]]%eligible_in [_ [j Hj]]%eligible_in Hid.
  apply Hk in Hi as Hi'. apply Hk in Hj as Hj'. congruence.
Qed.

Lemma eligible_distinct codes db scope : keyed db → NoDup (eligible_events codes db scope).
Proof.
  intros Hk. apply NoDup_filter. apply (NoDup_fmap_1 e_id).
  rewrite <-list_fmap_compose, (list_fmap_ext _ fst); [apply NoDup_fst_map_to_list|].
  intros j [i e] Hin. cbn. apply Hk. apply elem_of_map_to_list. by eapply list_elem_of_lookup_2.
Qed.

Lemma candidates_distinct codes db scope :
  keyed db → NoDup (rk_event_id <$> all_candidates codes db scope) ∧ NoDup (rk_parent_hash <$> all_candidates codes db scope).
Proof.
  intros Hk. unfold all_candidates. rewrite <-!list_fmap_compose.
  split; apply NoDup_fmap_2_strong; try (by apply NoDup_filter, eligible_distinct);
    intros e e' [Hr He]%list_elem_of_filter [Hr' He']%list_elem_of_filter Hf; cbn in Hf.
  - by eapply event_by_id.
  - eapply event_by_id; [done..|]. apply event_first_antisymm; by eapply represents_first.
Qed.

(** The candidates after a cursor, in the order of the pages. *)
Definition remaining (codes : gmap Z string) (scope : RecheckScope) (c : option (Z * Z)) (db : ReadModel) : list Candidate :=
  merge_sort candidate_le (filter (λ k, after c (cursor k) = true) (all_candidates codes db scope)).

Lemma page_take codes scope c n db : load_candidate_page codes scope c n db = take (Z.to_nat n) (remaining codes scope c db).
Proof. done. Qed.

Lemma remaining_in codes scope c db k :
  k ∈ remaining codes scope c db ↔ k ∈ all_candidates codes db scope ∧ after c (cursor k) = true.
Proof. unfold remaining. rewrite merge_sort_Permutation, list_elem_of_filter. tauto. Qed.

Lemma remaining_sorted codes scope c db : StronglySorted candidate_le (remaining codes scope c db).
Proof. apply (StronglySorted_merge_sort _). Qed.

Lemma NoDup_fmap_sublist {A B} (f : A → B) (l1 l2 : list A) : sublist l1 l2 → NoDup (f <$> l2) → NoDup (f <$> l1).
Proof. intros Hs Hn. eapply sublist_NoDup; [exact Hn|]. by apply fmap_sublist. Qed.

Lemma remaining_distinct codes scope c db :
  keyed db →
  NoDup (rk_event_id <$> remaining codes scope c db) ∧ NoDup (rk_parent_hash <$> remaining codes scope c db).
Proof.
  intros Hk. destruct (candidates_distinct codes db scope Hk) as [Hi Hp]. unfold remaining. rewrite merge_sort_Permutation.
  split; (eapply NoDup_fmap_sublist; [apply sublist_filter|done]).
Qed.

Lemma page_parents_distinct codes scope c n db :
  keyed db → NoDup (rk_parent_hash <$> load_candidate_page codes scope c n db).
Proof.
  intros Hk. rewrite page_take. eapply NoDup_fmap_sublist; [apply sublist_take|]. by apply remaining_distinct.
Qed.

Lemma filter_none {A} (P : A → Prop) `{!∀ x, Decision (P x)} (l : list A) : Forall (λ x, ¬ P x) l → filter P l = [].
Proof. induction 1; [done|]. by rewrite filter_cons_False. Qed.
Lemma filter_every {A} (P : A → Prop) `{!∀ x, Decision (P x)} (l : list A) : Forall P l → filter P l = l.
Proof. induction 1 as [|x l Hx Hl IH]; [done|]. by rewrite filter_cons_True, IH. Qed.

Lemma key_lt_trans a b c : key_lt a b = true → key_lt b c = true → key_lt a c = true.
Proof. unfold key_lt. lia. Qed.
Lemma after_trans c k k' : after c k = true → key_lt k k' = true → after c k' = true.
Proof. destruct c as [c|]; [|done]. apply key_lt_trans. Qed.

(** Past the last of a sorted prefix are exactly the elements that follow it. *)
Lemma filter_after_prefix (l1 l2 : list Candidate) k :
  StronglySorted candidate_le (l1 ++ k :: l2) → NoDup (rk_event_id <$> l1 ++ k :: l2) →
  filter (λ x, key_lt (cursor k) (cursor x) = true) (l1 ++ k :: l2) = l2.
Proof.
  intros Hs Hn. rewrite filter_app, (filter_none _ l1).
  - cbn [app]. rewrite filter_cons_False by (unfold key_lt; lia). apply filter_every.
    apply StronglySorted_app_1_r in Hs. inversion_clear Hs as [|? ? Hs' Hall].
    rewrite fmap_app in Hn. apply NoDup_app in Hn as (_ & _ & Hn). cbn in Hn. inversion_clear Hn as [|? ? Hni Hn'].
    apply Forall_forall. intros x Hx. rewrite Forall_forall in Hall. specialize (Hall x Hx).
    assert (rk_event_id k ≠ rk_event_id x) as Hne by (intros Heq; apply Hni; rewrite Heq; by apply list_elem_of_fmap_2).
    unfold candidate_le, key_lt, cursor in *. cbn in *. lia.
  - apply Forall_forall. intros x Hx. assert (candidate_le x k) as Hle.
    { eapply StronglySorted_app_1_elem_of; [exact Hs|done|left]. }
    unfold candidate_le in Hle. congruence.
Qed.

(** A page and what remains after its cursor are what remained before it. *)
Lemma page_step_remaining codes scope c n db k :
  keyed db → last (load_candidate_page codes scope c n db) = Some k →
  remaining codes scope c db ≡ₚ load_candidate_page codes scope c n db ++ remaining codes scope (Some (cursor k)) db.
Proof.
  intros Hk Hl. rewrite page_take in *. set (l := remaining codes scope c db) in *.
  apply last_Some in Hl as [p Hp].
  assert (l = p ++ k :: drop (Z.to_nat n) l) as Hsplit.
  { by rewrite cons_middle, app_assoc, <-Hp, take_drop. }
  assert (remaining codes scope (Some (cursor k)) db ≡ₚ drop (Z.to_nat n) l) as ->; [|by rewrite take_drop].
  rewrite <-(filter_after_prefix p (drop (Z.to_nat n) l) k) at 1; rewrite <-?Hsplit.
  - unfold l, remaining. rewrite !merge_sort_Permutation. cbn [after].
    assert (after c (cursor k) = true) as Ha.
    { apply (remaining_in codes scope c db). fold l. rewrite Hsplit. set_solver. }
    rewrite list_filter_filter_l; [done|]. intros x Hx. by eapply after_trans.
  - apply remaining_sorted.
  - by apply remaining_distinct.
Qed.

Lemma event_first_total a b : event_first a b = true ∨ event_first b a = true.
Proof. unfold event_first. destruct (e_child_height a), (e_child_height b); lia. Qed.
Lemma event_first_trans a b c : event_first a b = true → event_first b c = true → event_first a c = true.
Proof. unfold event_first. destruct (e_child_height a), (e_child_height b), (e_child_height c); lia. Qed.

Lemma first_event_exists (l : list EventRow) e :
  e ∈ l → ∃ f, f ∈ l ∧ ∀ x, x ∈ l → event_first f x = true.
Proof.
  revert e. induction l as [|a l IH]; intros e He; [by apply not_elem_of_nil in He|].
  destruct l as [|b l'].
  { exists a. split; [left|]. intros x ->%list_elem_of_singleton. destruct (event_first_total a a); done. }
  destruct (IH b (list_elem_of_here _ _)) as (f & Hf & Hmin).
  destruct (event_first_total a f) as [Haf|Hfa].
  - exists a. split; [left|]. intros x [->|Hx]%elem_of_cons; [destruct (event_first_total a a); done|].
    eapply event_first_trans; [done|by apply Hmin].
  - exists f. split; [by right|]. intros x [->|Hx]%elem_of_cons; [done|by apply Hmin].
Qed.

(** Every eligible event has its parent among the candidates. *)
Lemma eligible_covered codes db scope e :
  e ∈ eligible_events codes db scope → ∃ k, k ∈ all_candidates codes db scope ∧ rk_parent_hash k = e_hash e.
Proof.
  intros He. destruct (first_event_exists (filter (λ x, e_hash x = e_hash e) (eligible_events codes db scope)) e)
    as (f & [Hh Hf]%list_elem_of_filter & Hmin); [by apply list_elem_of_filter|].
  exists (candidate_of db f). split; [|done]. apply all_candidates_in. exists f. split; [done|]. split; [|done].
  unfold represents. apply forallb_forall. intros x Hx%list_elem_of_In. case_bool_decide as Hxh; [|done]. cbn.
  apply Hmin. apply list_elem_of_filter. split; [congruence|done].
Qed.

(** ** A step of the scheduled recheck *)

(** Where the tables, the state of the cache and the queue stand. *)
Definition at_point {W} `{RecheckTables W} (w : QueueWorld W) (db : ReadModel) (s : CacheState) (q : queue) : Prop :=
  recheck_tables (q_env w) = db ∧ cache_state (q_env w) = s ∧ q_rows w = q.

Section scheduled.
Context {W : Type} `{ReconcileEnv W} `{RecheckTables W} `{!RecheckTablesLaws W}.
Context (codes : gmap Z string).

Lemma at_statement (r : result anyhow unit) w w' db s q :
  on_qenv statement w = (r, w') → at_point w db s q → at_point w' db s q.
Proof.
  unfold on_qenv, at_point. destruct (statement (q_env w)) as [r' e'] eqn:Es. intros [= -> <-] (Ht & Hc & Hq). cbn.
  pose proof (statement_tables (q_env w)) as Ht'. pose proof (statement_cache (q_env w)) as Hc'.
  rewrite Es in *. cbn in *. by rewrite Ht', Hc'.
Qed.
Lemma at_put_cache s' (w : QueueWorld W) db s q :
  at_point w db s q →
  at_point (mkQueueWorld (set_cache_state s' (q_env w)) (q_rows w) (q_sync w)) db s' q.
Proof. unfold at_point. cbn. intros (Ht & _ & Hq). by rewrite cache_state_set, recheck_tables_set. Qed.
Lemma at_put_queue q' (w : QueueWorld W) db s q :
  at_point w db s q → at_point (mkQueueWorld (q_env w) q' (q_sync w)) db s q'.
Proof. unfold at_point. cbn. tauto. Qed.
Lemma at_refl (w : QueueWorld W) : at_point w (recheck_tables (q_env w)) (cache_state (q_env w)) (q_rows w).
Proof. done. Qed.

(** A page that commits has its parents pending in the queue and its cursor stored. *)
Lemma queue_page_Ok g page k w w' db s q :
  at_point w db s q → queue_page g page k w = (Ok (), w') →
  ∃ q' s', at_point w' db s' q' ∧ persist_recheck_cursor s g k = Ok s' ∧
    (∃ now, enqueue_core_reconcile_primaries now q (rk_parent_hash <$> page) = Ok q').
Proof.
  intros Hw Hr. unfold queue_page in Hr. st_inv.
  repeat match goal with
  | M : on_qenv statement ?w = (_, ?w'), P : at_point ?w _ _ _ |- _ =>
      pose proof (at_statement _ _ _ _ _ _ M P); clear M
  end.
  repeat match goal with M : at_point _ _ _ _ |- _ => revert M end. intros Hp1 Hp2 Hp3 Hp4.
  unfold put_queue, put_cache in *. st_inv.
  do 2 eexists. split; [eapply at_put_cache, at_put_queue; done|].
  destruct Hp2 as (_ & _ & <-), Hp3 as (_ & <- & _). eauto.
Qed.

Lemma bound_pass_Ok w w' db s q pass :
  at_point w db s q → bound_pass (load_scheduled_recheck s) w = (Ok pass, w') →
  ∃ s', at_point w' db s' q ∧ sr_pass (load_scheduled_recheck s') = Some pass ∧
    (s' = s ∨ sr_pass (load_scheduled_recheck s) = None ∧
       (pass, s') = bind_recheck_pass s (sr_pending_scope (load_scheduled_recheck s))).
Proof.
  intros Hw Hr. unfold bound_pass in Hr. destruct (sr_pass (load_scheduled_recheck s)) as [p|] eqn:Hp; [st_inv; eauto|].
  st_inv. match goal with M : on_qenv _ _ = _ |- _ => apply (at_statement _ _ _ _ _ _ M) in Hw end.
  pose proof Hw as (_ & Hc & _). rewrite Hc in *. unfold bind_recheck_pass in *. unfold put_cache in *. st_inv.
  eexists. split; [by eapply at_put_cache|]. split; [done|]. by right.
Qed.

Lemma st_bind_Err {S E A B} (m : stM S E A) (f : A → stM S E B) w e w' :
  (m ≫= f) w = (Err e, w') ↔ m w = (Err e, w') ∨ ∃ a w1, m w = (Ok a, w1) ∧ f a w1 = (Err e, w').
Proof.
  unfold mbind, stM_bind. destruct (m w) as [[a|x] w1]; split.
  - eauto.
  - intros [Hx|(? & ? & Hx & ?)]; by simplify_eq.
  - intros Hx. simplify_eq. by left.
  - intros [Hx|(? & ? & Hx & ?)]; by simplify_eq.
Qed.
Lemma st_on_err_Err {S E A} f (m : stM S E A) w e w' :
  on_err f m w = (Err e, w') → ∃ e0, m w = (Err e0, w').
Proof. unfold on_err. destruct (m w) as [[a|x] w1]; cbn; intros [= <- <-]; eauto. Qed.

Lemma statement_fails (w w' : QueueWorld W) e db s q :
  at_point w db s q → on_qenv statement w = (Err e, w') → at_point w' db s q ∧ ¬ ∀ x : W, (statement x).1 = Ok ().
Proof.
  intros Hw Hr. split; [by eapply at_statement|]. intros Hs. unfold on_qenv in Hr. specialize (Hs (q_env w)).
  destruct (statement (q_env w)). cbn in *. congruence.
Qed.

(** A page that fails leaves the queue and the cursor as they were, and only a statement fails. *)
Lemma queue_page_Err g page k w w' db s q e :
  at_point w db s q → queue_page g page k w = (Err e, w') →
  at_point w' db s q ∧
  (NoDup (rk_parent_hash <$> page) → pass_generation s = Some g → ¬ ∀ x : W, (statement x).1 = Ok ()).
Proof.
  intros Hw Hr. unfold queue_page in Hr.
  apply st_bind_Err in Hr as [[e' Hr]%st_on_err_Err|(? & w1 & E1%st_on_err_Ok & Hr)].
  { destruct (statement_fails _ _ _ _ _ _ Hw Hr). tauto. }
  apply (at_statement _ _ _ _ _ _ E1) in Hw.
  do 2 (apply st_bind_Err in Hr as [Hr|(? & ? & [-> ->]%st_gets_Ok & Hr)]; [done|]).
  apply st_bind_Err in Hr as [Hr|(q' & ? & [Eq ->]%st_lift_Ok & Hr)].
  { unfold lift in Hr. simplify_eq. split; [done|]. intros Hn. unfold enqueue_core_reconcile_primaries, enqueue_core_reconcile_hashes in *.
    match goal with M : _ = Err _ |- _ => by rewrite bool_decide_eq_true_2 in M end. }
  apply st_bind_Err in Hr as [Hr|(? & w2 & E2 & Hr)].
  { destruct (statement_fails _ _ _ _ _ _ Hw Hr). tauto. }
  apply (at_statement _ _ _ _ _ _ E2) in Hw.
  apply st_bind_Err in Hr as [Hr|(? & ? & [-> ->]%st_gets_Ok & Hr)]; [done|].
  apply st_bind_Err in Hr as [Hr|(s' & ? & [Es ->]%st_lift_Ok & Hr)].
  { unfold lift in Hr. simplify_eq. split; [done|]. intros _ Hg. destruct Hw as (_ & Hc & _).
    unfold persist_recheck_cursor in *. rewrite Hc, bool_decide_eq_true_2 in *; done. }
  apply st_bind_Err in Hr as [[e' Hr]%st_on_err_Err|(? & w3 & E3%st_on_err_Ok & Hr)].
  { destruct (statement_fails _ _ _ _ _ _ Hw Hr). tauto. }
  by apply st_bind_Err in Hr as [Hr|(? & ? & ? & Hr)].
Qed.

(** A statement that succeeded kept the point; the pass goes on from there. *)
Lemma next_page_Ok n pass report w w' db s q step report' queued' :
  at_point w db s q → 0 < n → next_page codes n pass report w = (Ok (step, report', queued'), w') →
  ∃ q' s', at_point w' db s' q' ∧
  let page := load_candidate_page codes (rp_scope pass) (rp_cursor pass) n db in
  (remaining codes (rp_scope pass) (rp_cursor pass) db = [] ∧ step = Acknowledged (rp_generation pass) ∧ q' = q ∧
     queued' = None ∧ acknowledge_recheck_pass s (rp_generation pass) = Ok s') ∨
  (∃ k now, last page = Some k ∧ step = PageQueued ∧ queued' = Some page ∧
     enqueue_core_reconcile_primaries now q (rk_parent_hash <$> page) = Ok q' ∧
     persist_recheck_cursor s (rp_generation pass) (cursor k) = Ok s').
Proof.
  intros Hw Hn Hr. unfold next_page in Hr.
  apply st_bind_Ok in Hr as (? & w1 & E1 & Hr). apply (at_statement _ _ _ _ _ _ E1) in Hw.
  apply st_bind_Ok in Hr as (? & ? & [-> ->]%st_gets_Ok & Hr). pose proof Hw as (Hdb & _ & _). rewrite Hdb in Hr. cbv zeta in Hr.
  destruct (last _) as [k|] eqn:Hl.
  - apply st_bind_Ok in Hr as ([] & w2 & E2 & Hr). st_inv.
    destruct (queue_page_Ok _ _ _ _ _ _ _ _ Hw E2) as (q' & s' & Hw' & Hp & now & He).
    exists q', s'. split; [done|]. right. exists k, now. done.
  - apply st_bind_Ok in Hr as (? & w2 & E2 & Hr). apply (at_statement _ _ _ _ _ _ E2) in Hw.
    unfold put_cache in Hr. st_inv. pose proof Hw as (_ & Hc & _). rewrite Hc in *.
    exists q. eexists. split; [by eapply at_put_cache|]. left. split; [|done].
    apply last_None in Hl. rewrite page_take in Hl.
    destruct (remaining codes _ _ _); [done|]. destruct (Z.to_nat n) eqn:Hz; [lia|done].
Qed.

Lemma cache_steps s s1 s2 pass :
  is_pending (load_scheduled_recheck s) = true →
  (s1 = s ∨ sr_pass (load_scheduled_recheck s) = None ∧
     (pass, s1) = bind_recheck_pass s (sr_pending_scope (load_scheduled_recheck s))) →
  recheck_step s1 s2 → rtc recheck_step s s2.
Proof.
  intros Hp [->|[Hn Hb]] Hs; [by apply rtc_once|]. eapply rtc_l; [by apply step_bind|]. rewrite <-Hb. by apply rtc_once.
Qed.


(** What one hold did, from the cache [s] the drain left. *)
Definition hold_result (n : Z) (max : option Z) (report : ScheduledRecheckReport) (queued : option (list Candidate)) (s : CacheState)
    (w : QueueWorld W) (r : PageStep * ScheduledRecheckReport * option (list Candidate)) : Prop :=
  let db := recheck_tables (q_env w) in
  let s' := cache_state (q_env w) in
  match r.1.1 with
  | RecoveryContinues => r = (RecoveryContinues, report, queued)
  | Bounded => q_rows w = ∅ ∧ is_Some queued ∧ is_Some max ∧ s' = s
  | NothingPending => q_rows w = ∅ ∧ is_pending (load_scheduled_recheck s') = false ∧ s' = s
  | PageQueued =>
      ∃ pass k page, page = load_candidate_page codes (rp_scope pass) (rp_cursor pass) n db ∧ last page = Some k ∧
        r.2 = Some page ∧
        sr_pass (load_scheduled_recheck s') = Some (mkPass (rp_generation pass) (rp_scope pass) (Some (cursor k))) ∧
        (∀ h, is_Some (q_rows w !! h) ↔ h ∈ rk_parent_hash <$> page) ∧
        (∀ h row, q_rows w !! h = Some row → primary_pending row = true) ∧ rtc recheck_step s s'
  | Acknowledged g =>
      ∃ pass, rp_generation pass = g ∧ remaining codes (rp_scope pass) (rp_cursor pass) db = [] ∧
        (sr_pass (load_scheduled_recheck s) = Some pass ∨
         sr_pass (load_scheduled_recheck s) = None ∧ pass = mkPass g (sr_pending_scope (load_scheduled_recheck s)) None) ∧
        q_rows w = ∅ ∧ acknowledged_generation s' = g ∧ rtc recheck_step s s'
  end.

Lemma queued_rows now (page : list Candidate) q' :
  enqueue_core_reconcile_primaries now ∅ (rk_parent_hash <$> page) = Ok q' →
  (∀ h, is_Some (q' !! h) ↔ h ∈ rk_parent_hash <$> page) ∧ (∀ h row, q' !! h = Some row → primary_pending row = true).
Proof.
  intros [Ho Hi]%enqueue_rows. split.
  - intros h. split.
    + intros [r Hr]. destruct (decide (h ∈ rk_parent_hash <$> page)) as [|Hn]; [done|]. by rewrite Ho in Hr.
    + intros Hh. destruct (Hi h Hh) as (r & -> & _). eauto.
  - intros h r Hr. destruct (decide (h ∈ rk_parent_hash <$> page)) as [Hh|Hn]; [|by rewrite Ho in Hr].
    destruct (Hi h Hh) as (r' & Hr' & Hp & _). congruence.
Qed.

Lemma persist_pass s pass k s' :
  sr_pass (load_scheduled_recheck s) = Some pass → persist_recheck_cursor s (rp_generation pass) k = Ok s' →
  sr_pass (load_scheduled_recheck s') = Some (mkPass (rp_generation pass) (rp_scope pass) (Some k)).
Proof.
  unfold persist_recheck_cursor. case_bool_decide as Hg; [|done]. intros Hp [= <-]. destruct pass as [g sc c], k. cbn in *.
  rewrite Hg in *. cbn in *. by simplify_eq.
Qed.

Lemma bound_page_Ok n max report report0 queued0 w w' db s step report' queued' :
  at_point w db s ∅ → 0 < n → is_pending (load_scheduled_recheck s) = true →
  (pass ← bound_pass (load_scheduled_recheck s); next_page codes n pass report) w = (Ok (step, report', queued'), w') →
  hold_result n max report0 queued0 s w' (step, report', queued').
Proof.
  intros Hw Hn Hp Hr. apply st_bind_Ok in Hr as (pass & w1 & Hb & Hr).
  destruct (bound_pass_Ok _ _ _ _ _ _ Hw Hb) as (s1 & Hw1 & Hs1 & Hor).
  destruct (next_page_Ok _ _ _ _ _ _ _ _ _ _ _ Hw1 Hn Hr)
    as (q' & s' & (Hdb & Hc & Hq) & [(Hrem & -> & -> & -> & Ha)|(k & now & Hl & -> & -> & He & Hpc)]);
    unfold hold_result; cbn; rewrite Hdb, Hc, Hq.
  - exists pass. split; [done|]. split; [done|]. split; [|split; [done|]].
    + destruct Hor as [->|[Hnone [= -> _]]]; [by left|by right].
    + split; [|eapply cache_steps; [done|exact Hor|by eapply step_acknowledge]].
      unfold acknowledge_recheck_pass in Ha. case_bool_decide; [|done]. by injection Ha as <-.
  - exists pass, k. eexists. split; [done|]. split; [done|]. split; [done|].
    destruct (queued_rows _ _ _ He) as [Hk Hpp]. split_and!; [by eapply persist_pass|done|done|].
    eapply cache_steps; [done|exact Hor|by eapply step_cursor].
Qed.

Lemma page_step_Ok fuel n max report queued w w' r :
  0 < n → page_step codes fuel n max report queued w = (Ok (Some r), w') →
  ∃ b w1, drain_core_reconcile_queue_up_to fuel CORE_RECOVERY_BATCH true w = (Ok (Some b), w1) ∧
    hold_result n max report queued (cache_state (q_env w1)) w' r.
Proof.
  intros Hn Hr. unfold page_step in Hr. apply st_bind_Ok in Hr as ([[]|] & w1 & Hd & Hr); [| |by st_inv].
  2: { st_inv. by exists false, w1. }
  exists true, w1. split; [done|]. apply drain_true in Hd as [Hq _].
  assert (at_point w1 (recheck_tables (q_env w1)) (cache_state (q_env w1)) ∅) as Hw by done.
  apply st_bind_Ok in Hr as (report1 & w2 & Hc & Hr).
  assert (at_point w2 (recheck_tables (q_env w1)) (cache_state (q_env w1)) ∅) as Hw2.
  { destruct queued as [page|]; [|by st_inv]. apply st_bind_Ok in Hc as (? & w3 & E3 & Hc). st_inv.
    by apply (at_statement _ _ _ _ _ _ E3). }
  clear Hw Hc. destruct (is_some queued && _) eqn:Hb.
  { apply andb_true_iff in Hb as [Hs Hm]. st_inv. destruct Hw2 as (_ & Hc & Hq2). by destruct queued, max. }
  apply st_bind_Ok in Hr as (? & w3 & E3 & Hr). apply (at_statement _ _ _ _ _ _ E3) in Hw2.
  apply st_bind_Ok in Hr as (? & ? & [-> ->]%st_gets_Ok & Hr). pose proof Hw2 as (_ & Hc & Hq3). rewrite Hc in Hr.
  destruct (is_pending _) eqn:Hp; cbn [negb] in Hr.
  - destruct r as [[step report'] queued']. eapply bound_page_Ok; [exact Hw2|done|done|].
    apply st_bind_Ok in Hr as (pass & w4 & Hbp & Hr). apply st_bind_Ok in Hr as (? & ? & Hnp & Hr). st_inv.
    apply st_bind_Ok. eauto.
  - st_inv. unfold hold_result. cbn. by rewrite Hc.
Qed.

Lemma page_step_total fuel n max report queued w :
  (25 < fuel)%nat → (page_step codes fuel n max report queued w).1 ≠ Ok None.
Proof.
  intros Hf Hn. destruct (page_step codes fuel n max report queued w) as [r w'] eqn:Hr. cbn in Hn. subst r.
  unfold page_step in Hr. apply st_bind_Ok in Hr as ([[]|] & w1 & Hd & Hr); [|by st_inv|].
  - apply st_bind_Ok in Hr as (report1 & w2 & _ & Hr). destruct (is_some queued && _); [by st_inv|].
    apply st_bind_Ok in Hr as (? & w3 & _ & Hr). apply st_bind_Ok in Hr as (? & ? & _ & Hr).
    destruct (negb _); [by st_inv|]. apply st_bind_Ok in Hr as (? & ? & _ & Hr).
    apply st_bind_Ok in Hr as (? & ? & _ & Hr). by st_inv.
  - unfold drain_core_reconcile_queue_up_to in Hd. apply (drain_batch_fuel fuel CORE_RECOVERY_BATCH 0 0 w).
    + unfold CORE_RECOVERY_BATCH. lia.
    + lia.
    + by rewrite Hd.
Qed.

(** The lock is given back with the result of its hold. *)
Lemma under_lock_Ok {A} (m : stM (QueueWorld W) anyhow A) a w w' :
  under_cache_lock m w = (Ok a, w') →
  ∃ w1 w2, on_qenv statement w = (Ok (), w1) ∧ m w1 = (Ok a, w2) ∧ on_qenv statement w2 = (Ok (), w').
Proof.
  unfold under_cache_lock. intros Hr. apply st_bind_Ok in Hr as ([] & w1 & E1 & Hr).
  apply st_bind_Ok in Hr as (r & w2 & E2%st_attempt_Ok & Hr). apply st_bind_Ok in Hr as (u & w3 & E3%st_attempt_Ok & Hr).
  destruct r as [a'|], u as [[]|]; try done. st_inv. eauto.
Qed.

(** Where the loop stops. *)
Lemma recheck_loop_Ok holds fuel n max report queued w report' w' :
  0 < n → recheck_loop codes holds fuel n max report queued w = (Ok (Some report'), w') →
  q_rows w' = ∅ ∧ (max = None → is_pending (load_scheduled_recheck (cache_state (q_env w'))) = false).
Proof.
  intros Hn. revert report queued w. induction holds as [|holds IH]; intros report queued w Hr; [by cbn in Hr|].
  cbn [recheck_loop] in Hr. apply st_bind_Ok in Hr as ([[[step report1] queued1]|] & w1 & Hs & Hr); [|by st_inv].
  apply under_lock_Ok in Hs as (wa & wb & _ & Hs & Hu).
  destruct (page_step_Ok _ _ _ _ _ _ _ _ Hn Hs) as (b & wd & _ & Hh).
  destruct step; [by eapply IH| |by eapply IH| |by eapply IH]; st_inv; cbn in Hh.
  - destruct Hh as (Hq & Hp & _). destruct (at_statement _ _ _ _ _ _ Hu (at_refl _)) as (_ & -> & ->). done.
  - destruct Hh as (Hq & _ & [? ->] & _). destruct (at_statement _ _ _ _ _ _ Hu (at_refl _)) as (_ & _ & ->). done.
Qed.
End scheduled.

(** ** Known stale blocks *)

(** The blocks the run has to demote, and a table with a set of its rows excluded. *)
Definition stale_orphans (db : ReadModel) : gset bytes := list_to_set (contaminated db).
Definition exclude_all (S : gset bytes) (t : block_table) : block_table :=
  map_imap (λ h r, Some (if decide (h ∈ S) then exclude_row r else r)) t.

Lemma contaminated_in db h :
  h ∈ contaminated db ↔ h ∈ rm_known_stale db ∧ ∃ r, rm_blocks db !! h = Some r ∧ demotable r = true.
Proof.
  unfold contaminated. rewrite merge_sort_Permutation, list_elem_of_filter, list_elem_of_fmap. split.
  - intros (Hk & [h' r] & -> & [Hd Hin%elem_of_map_to_list]%list_elem_of_filter). eauto.
  - intros (Hk & r & Hr & Hd). split; [done|]. exists (h, r). split; [done|].
    apply list_elem_of_filter. split; [done|]. by apply elem_of_map_to_list.
Qed.
Lemma contaminated_distinct db : NoDup (contaminated db).
Proof.
  unfold contaminated. rewrite merge_sort_Permutation. apply NoDup_filter.
  eapply NoDup_fmap_sublist; [apply sublist_filter|apply NoDup_fst_map_to_list].
Qed.
Lemma stale_orphans_in db h :
  h ∈ stale_orphans db ↔ h ∈ rm_known_stale db ∧ ∃ r, rm_blocks db !! h = Some r ∧ demotable r = true.
Proof. unfold stale_orphans. rewrite elem_of_list_to_set. apply contaminated_in. Qed.

Lemma lookup_exclude_all S t h :
  exclude_all S t !! h = (λ r, if decide (h ∈ S) then exclude_row r else r) <$> t !! h.
Proof. unfold exclude_all. rewrite map_lookup_imap. by destruct (t !! h). Qed.
Lemma exclude_all_empty t : exclude_all ∅ t = t.
Proof.
  apply map_eq. intros h. rewrite lookup_exclude_all. destruct (t !! h); cbn; [|done]. by rewrite decide_False by set_solver.
Qed.
Lemma exclude_all_union S S' t : exclude_all S' (exclude_all S t) = exclude_all (S ∪ S') t.
Proof.
  apply map_eq. intros h. rewrite !lookup_exclude_all. destruct (t !! h) as [r|]; [|done]. cbn. f_equal.
  destruct (decide (h ∈ S)), (decide (h ∈ S')), (decide (h ∈ S ∪ S')); try done; set_solver.
Qed.
Lemma excluded_not_demotable r : demotable (exclude_row r) = false.
Proof. unfold demotable. cbn. by rewrite andb_false_r. Qed.

Lemma stale_orphans_exclude db S :
  stale_orphans (with_blocks db (exclude_all S (rm_blocks db))) = stale_orphans db ∖ S.
Proof.
  apply set_eq. intros h. rewrite elem_of_difference, !stale_orphans_in. cbn. rewrite lookup_exclude_all.
  destruct (rm_blocks db !! h) as [r|]; cbn; [|naive_solver]. destruct (decide (h ∈ S)).
  - split; [|tauto]. intros (_ & ? & [= <-] & Hd). by rewrite excluded_not_demotable in Hd.
  - naive_solver.
Qed.

Lemma demote_row_one db h :
  h ∈ stale_orphans db → demote_row (rm_blocks db) h = (1, exclude_all {[h]} (rm_blocks db)).
Proof.
  intros (_ & r & Hr & Hd)%stale_orphans_in. unfold demote_row. rewrite Hr, Hd. f_equal. apply map_eq. intros k.
  rewrite lookup_exclude_all. destruct (decide (k = h)) as [->|Hne].
  - rewrite lookup_insert_eq, Hr. cbn. by rewrite decide_True by set_solver.
  - rewrite lookup_insert_ne by done. destruct (rm_blocks db !! k); cbn; [|done]. by rewrite decide_False by set_solver.
Qed.

(** Tables after the demotion of a set. *)
Definition after_demotion (db : ReadModel) (S : gset bytes) : ReadModel := with_blocks db (exclude_all S (rm_blocks db)).

Lemma after_demotion_union db S S' : after_demotion (after_demotion db S) S' = after_demotion db (S ∪ S').
Proof. unfold after_demotion, with_blocks. cbn. by rewrite exclude_all_union. Qed.
Lemma after_demotion_empty db : after_demotion db ∅ = db.
Proof. unfold after_demotion, with_blocks. rewrite exclude_all_empty. by destruct db. Qed.
Lemma stale_orphans_after db S : stale_orphans (after_demotion db S) = stale_orphans db ∖ S.
Proof. apply stale_orphans_exclude. Qed.

Section demotion.
Context {W : Type} `{ReadModelSession W}.
Context (quiet : ∀ w : W * ReadModel, (session w).2.2 = w.2).

Lemma session_quiet r w w' : session w = (r, w') → w'.2 = w.2.
Proof using quiet. intros Hs. by rewrite <-(quiet w), Hs. Qed.
Lemma env_quiet {A} (m : stM W anyhow A) r w w' : on_env m w = (r, w') → w'.2 = w.2.
Proof. unfold on_env. destruct (m w.1). by intros [= <- <-]. Qed.

(** One demotion is all or nothing. *)
Lemma demote_one_result h r w w' :
  h ∈ stale_orphans w.2 → demote_one h w = (r, w') →
  match r with Ok n => n = 1 ∧ w'.2 = after_demotion w.2 {[h]} | Err _ => w'.2 = w.2 end.
Proof using quiet.
  intros Hin Hr. unfold demote_one in Hr. destruct r as [n|e].
  - apply st_bind_Ok in Hr as (? & w1 & Hs%session_quiet & Hr). apply st_bind_Ok in Hr as (? & ? & [-> ->]%st_gets_Ok & Hr).
    rewrite Hs in Hr. cbn in Hr. rewrite demote_row_one in Hr by done.
    apply st_bind_Ok in Hr as (? & w2 & Hc%st_on_err_Ok%env_quiet & Hr). st_inv. cbn. by rewrite Hc, Hs.
  - apply st_bind_Err in Hr as [Hr%session_quiet|(? & w1 & Hs%session_quiet & Hr)]; [done|].
    apply st_bind_Err in Hr as [Hr|(? & ? & [-> ->]%st_gets_Ok & Hr)]; [done|].
    destruct (reclassify_known_stale_hashes_in_transaction _ _) as [n t].
    apply st_bind_Err in Hr as [[e' Hr%env_quiet]%st_on_err_Err|(? & ? & ? & Hr)]; [congruence|].
    by apply st_bind_Err in Hr as [Hr|(? & ? & ? & Hr)].
Qed.

Lemma demote_all_result hs d r w w' :
  NoDup hs → (∀ h, h ∈ hs → h ∈ stale_orphans w.2) → demote_all hs d w = (r, w') →
  ∃ S, S ⊆ list_to_set hs ∧ w'.2 = after_demotion w.2 S ∧ (∀ n, r = Ok n → S = list_to_set hs ∧ n = d + Z.of_nat (length hs)).
Proof using quiet.
  intros Hn. revert d w. induction Hn as [|h hs Hh Hn IH]; intros d w Hin Hr.
  - injection Hr as <- <-. exists ∅. rewrite after_demotion_empty. split_and!; [set_solver|done|]. intros n [= <-]. cbn. split; [done|lia].
  - cbn [demote_all] in Hr. unfold mbind, stM_bind in Hr. destruct (demote_one h w) as [[n1|e] w1] eqn:Hd;
      apply demote_one_result in Hd; [|apply Hin; left| |apply Hin; left].
    + destruct Hd as [-> Hw1]. destruct (IH (d + 1) w1) as (S & HS & Hw & Hok).
      * intros k Hk. rewrite Hw1, stale_orphans_after. apply elem_of_difference.
        split; [apply Hin; by right|]. rewrite elem_of_singleton. by intros ->.
      * done.
      * exists ({[h]} ∪ S). rewrite Hw, Hw1, after_demotion_union. split_and!; [set_solver|done|].
        intros n Hr'. destruct (Hok n Hr') as [-> ->]. cbn. split; [done|lia].
    + injection Hr as <- <-. exists ∅. rewrite after_demotion_empty. split_and!; [set_solver|done|done].
Qed.

Lemma scan_contaminated_spec n db :
  NoDup (scan_contaminated n db) ∧ (∀ h, h ∈ scan_contaminated n db → h ∈ stale_orphans db) ∧
  (0 < n → scan_contaminated n db = [] → stale_orphans db = ∅).
Proof using.
  unfold scan_contaminated. split_and!.
  - eapply sublist_NoDup; [apply contaminated_distinct|apply sublist_take].
  - intros h Hh. unfold stale_orphans. apply elem_of_list_to_set. eapply elem_of_sublist; [exact Hh|apply sublist_take].
  - intros Hn Ht. unfold stale_orphans. destruct (contaminated db); [done|]. destruct (Z.to_nat n) eqn:E; [lia|done].
Qed.

Lemma demote_loop_result fuel n d r w w' :
  0 < n → demote_loop fuel n d w = (r, w') →
  ∃ S, S ⊆ stale_orphans w.2 ∧ w'.2 = after_demotion w.2 S ∧
    ((size (stale_orphans w.2) < fuel)%nat → r ≠ Ok None) ∧
    (∀ m, r = Ok (Some m) → S = stale_orphans w.2 ∧ m = d + Z.of_nat (size (stale_orphans w.2))).
Proof using quiet.
  intros Hn. revert d w. induction fuel as [|fuel IH]; intros d w Hr.
  { injection Hr as <- <-. exists ∅. rewrite after_demotion_empty. split_and!; [set_solver|done|lia|done]. }
  cbn [demote_loop] in Hr. unfold mbind at 1, stM_bind at 1 in Hr. destruct (session w) as [[[]|e] w1] eqn:Hs;
    apply session_quiet in Hs.
  2: { injection Hr as <- <-. exists ∅. rewrite after_demotion_empty. by split_and!; [set_solver|..]. }
  unfold mbind at 1, stM_bind at 1, gets at 1 in Hr. rewrite Hs in Hr.
  destruct (scan_contaminated_spec n w.2) as (Hnd & Hin & Hz).
  destruct (scan_contaminated n w.2) as [|h hs] eqn:Hscan.
  { injection Hr as <- <-. exists ∅. rewrite after_demotion_empty, (Hz Hn eq_refl). split_and!; [set_solver|done|done|].
    intros m [= <-]. rewrite size_empty. split; [done|lia]. }
  rewrite <-Hs in Hin. set (l := h :: hs) in *.
  assert (list_to_set l ⊆ stale_orphans w.2) as Hsub by (intros k Hk%elem_of_list_to_set; rewrite <-Hs; by apply Hin).
  unfold mbind, stM_bind in Hr. destruct (demote_all l d w1) as [[d1|e] w2] eqn:Hd;
    apply demote_all_result in Hd as (S & HS & Hw2 & Hok); try done; rewrite Hs in Hw2.
  2: { injection Hr as <- <-. exists S. split_and!; [set_solver|done|done|done]. }
  destruct (Hok d1 eq_refl) as [-> ->]. destruct (IH _ _ Hr) as (S' & HS' & Hw' & Hf & Hm).
  rewrite Hw2, stale_orphans_after in *. rewrite after_demotion_union in Hw'.
  assert (size (stale_orphans w.2 ∖ list_to_set l) + length l = size (stale_orphans w.2))%nat as Hsize.
  { rewrite size_difference by done. rewrite size_list_to_set by done.
    pose proof (subseteq_size _ _ Hsub) as Hle. rewrite size_list_to_set in Hle by done. lia. }
  exists (list_to_set l ∪ S'). split_and!; [set_solver|done| |].
  - intros Hfu. apply Hf. cbn [length l] in Hsize. lia.
  - intros m Hm'. destruct (Hm m Hm') as [-> ->]. split; [|lia]. by rewrite <-union_difference_L.
Qed.
End demotion.

(** ** Claims *)

(** The pages of a recheck visit every undecided parent once: each eligible event has a
    candidate with its parent, candidates have distinct parents, a page is empty only when no
    candidate is past the cursor, and a page together with what remains past its last
    candidate is what remained before. *)
Theorem recheck_pages_exact codes scope c n db :
  keyed db → 0 < n →
  let page := load_candidate_page codes scope c n db in
  (∀ e, e ∈ eligible_events codes db scope → ∃ k, k ∈ remaining codes scope None db ∧ rk_parent_hash k = e_hash e) ∧
  NoDup (rk_parent_hash <$> remaining codes scope c db) ∧
  (page = [] ↔ remaining codes scope c db = []) ∧
  (∀ k, last page = Some k → remaining codes scope c db ≡ₚ page ++ remaining codes scope (Some (cursor k)) db).
Proof.
  intros Hk Hn page. split_and!.
  - intros e (k & Hin & Hh)%eligible_covered. exists k. by rewrite remaining_in.
  - by apply remaining_distinct.
  - unfold page. rewrite page_take. split; [|by intros ->; rewrite take_nil].
    destruct (remaining codes scope c db); [done|]. destruct (Z.to_nat n) eqn:E; [lia|done].
  - intros k. by apply page_step_remaining.
Qed.

(** C24. A page of the scheduled recheck is handed over whole or not at all: when it commits,
    each of its parents is pending in the queue, no other row moved and the cursor of the
    pass is the last candidate; when it fails, queue and cursor are as before, and a page of
    the pass that is bound fails only when a statement does. *)
Theorem recheck_page_handover `{RecheckTablesLaws W} codes n c pass k (w : QueueWorld W) :
  let db := recheck_tables (q_env w) in
  let page := load_candidate_page codes (rp_scope pass) c n db in
  keyed db → sr_pass (load_scheduled_recheck (cache_state (q_env w))) = Some pass →
  match queue_page (rp_generation pass) page k w with
  | (Ok _, w') =>
      (∀ h, h ∈ rk_parent_hash <$> page → ∃ row, q_rows w' !! h = Some row ∧ primary_pending row = true) ∧
      (∀ h, (h ∉ rk_parent_hash <$> page) → q_rows w' !! h = q_rows w !! h) ∧
      sr_pass (load_scheduled_recheck (cache_state (q_env w'))) = Some (mkPass (rp_generation pass) (rp_scope pass) (Some k))
  | (Err _, w') =>
      q_rows w' = q_rows w ∧ cache_state (q_env w') = cache_state (q_env w) ∧ ¬ ∀ x : W, (statement x).1 = Ok ()
  end.
Proof.
  intros db page Hk Hp. destruct (queue_page _ page k w) as [[[]|e] w'] eqn:Hr.
  - destruct (queue_page_Ok _ _ _ _ _ _ _ _ (at_refl w) Hr) as (q' & s' & (_ & -> & ->) & Hpc & now & He).
    apply enqueue_rows in He as [Ho Hi]. split_and!; [|done|by eapply persist_pass].
    intros h Hh. destruct (Hi h Hh) as (row & Hrow & Hpp & _). eauto.
  - destruct (queue_page_Err _ _ _ _ _ _ _ _ _ (at_refl w) Hr) as [(_ & -> & ->) Hs]. split_and!; [done|done|].
    apply Hs; [by apply page_parents_distinct|]. unfold load_scheduled_recheck in Hp. cbn in Hp.
    destruct (pass_generation _); by simplify_eq/=.
Qed.

(** Every hold of the cache's lock ends within the budget of the drain, and does one of
    the steps of the schedule: it goes on draining, stops with an empty queue and nothing
    pending, hands the next page of the bound pass to an empty queue, or acknowledges a pass
    of which no candidate remains past its cursor. *)
Theorem recheck_hold_exact `{RecheckTablesLaws W} codes fuel n max report queued (w : QueueWorld W) :
  0 < n → (25 < fuel)%nat →
  match page_step codes fuel n max report queued w with
  | (Ok None, _) => False
  | (Ok (Some r), w') =>
      ∃ b w1, drain_core_reconcile_queue_up_to fuel CORE_RECOVERY_BATCH true w = (Ok (Some b), w1) ∧
        hold_result codes n max report queued (cache_state (q_env w1)) w' r
  | (Err _, _) => True
  end.
Proof.
  intros Hn Hf. pose proof (page_step_total codes fuel n max report queued w Hf) as Ht.
  destruct (page_step codes fuel n max report queued w) as [[[r|]|e] w'] eqn:Hr; [|done|done]. by eapply page_step_Ok.
Qed.

(** A scheduled recheck that runs to its end leaves nothing behind: the queue is empty, the
    job is not pending, and no parent is owed a recheck. *)
Theorem scheduled_recheck_settles `{RecheckTablesLaws W} codes holds fuel enabled n (w w' : QueueWorld W) report :
  0 < n → run_scheduled_recheck codes holds fuel enabled n w = (Ok (Some report), w') →
  rtc recheck_step CacheState_default (cache_state (q_env w')) →
  enabled = true ∧ q_rows w' = ∅ ∧ is_pending (load_scheduled_recheck (cache_state (q_env w'))) = false ∧
  ∀ classified source, ¬ owed (cache_state (q_env w')) classified source.
Proof.
  intros Hn Hr Hreach. unfold run_scheduled_recheck, run_scheduled_recheck_bounded in Hr.
  apply st_bind_Ok in Hr as (? & ? & [He ->]%st_guard_Ok & Hr). do 2 apply st_bind_Ok in Hr as (? & ? & _ & Hr).
  destruct (recheck_loop_Ok _ _ _ _ _ _ _ _ _ _ Hn Hr) as [Hq Hp]. specialize (Hp eq_refl). split_and!; [done..|].
  intros classified source Ho. assert (recheck_inv (cache_state (q_env w'))) as Hinv.
  { pose proof recheck_inv_default as Hd. clear -Hd Hreach. induction Hreach; eauto using recheck_inv_step. }
  rewrite (owed_pending _ _ _ Hinv Ho) in Hp. done.
Qed.

(** C25. The demotion of known stale blocks ends, and is exact: with more fuel than such blocks
    the run does not exhaust it; whatever fails, rows change only from a strict or weak
    orphan that is a known stale block to [excluded]; a run that succeeds has demoted them
    all, and counts them. *)
Theorem known_stales_demoted `{ReadModelSession W} fuel n (w : W * ReadModel) :
  (∀ w0 : W * ReadModel, (session w0).2.2 = w0.2) → 0 < n → (size (stale_orphans w.2) < fuel)%nat →
  match run_reclassify_known_stales fuel n w with
  | (Ok None, _) => False
  | (Ok (Some summary), w') =>
      summary = mkStaleSummary (Z.of_nat (size (rm_known_stale w.2))) (Z.of_nat (size (stale_orphans w.2))) ∧
      w'.2 = after_demotion w.2 (stale_orphans w.2) ∧ stale_orphans w'.2 = ∅
  | (Err _, w') => ∃ S, S ⊆ stale_orphans w.2 ∧ w'.2 = after_demotion w.2 S
  end.
Proof.
  intros Hquiet Hn Hf. unfold run_reclassify_known_stales. unfold mbind at 1, stM_bind at 1.
  destruct (session w) as [[[]|e] w1] eqn:Hs; apply (session_quiet Hquiet) in Hs.
  2: { exists ∅. by rewrite after_demotion_empty. }
  unfold mbind at 1, stM_bind at 1, gets at 1. rewrite Hs.
  destruct (Z.eqb_spec (Z.of_nat (size (rm_known_stale w.2))) 0) as [Hz|Hz].
  - assert (stale_orphans w.2 = ∅) as Hempty.
    { apply set_eq. intros h. rewrite stale_orphans_in. assert (rm_known_stale w.2 ≡ ∅) as ->%leibniz_equiv by (apply size_empty_iff; lia).
      set_solver. }
    cbn. rewrite Hempty, after_demotion_empty, size_empty, Hs, Hz. done.
  - unfold mbind, stM_bind. destruct (demote_loop fuel n 0 w1) as [[[d|]|e] w2] eqn:Hd;
      destruct (demote_loop_result Hquiet _ _ _ _ _ _ Hn Hd) as (S & HS & Hw & Hfu & Hok); rewrite Hs in *.
    + destruct (Hok d eq_refl) as [-> ->]. cbn. rewrite Hw. split_and!; [done|done|].
      rewrite stale_orphans_after. set_solver.
    + by destruct (Hfu Hf).
    + exists S. done.
Qed.

(** ** Witnesses *)

Module RecheckSample.
Definition event (i : Z) (height : option Z) (hash : bytes) : EventRow :=
  {| e_id := i; e_source_id := 1; e_child_height := height; e_hash := hash; e_prev_hash := []; e_header_bytes := [];
     e_header_time := 0; e_height := None; e_kind := PkUnknown; e_pow := true; e_difficulty_ok := None; e_script := None;
     e_outputs := None; e_tx_bytes := None; e_discovered_at := 10; e_confirmed_at := 20; e_revoked_at := None;
     e_revocation_reason := None; e_relevance_reason := None |}.
(** A strict orphan. *)
Definition orphan (h : bytes) : BlockInput :=
  {| b_hash := h; b_prev_hash := []; b_height := None; b_height_source := None; b_kind := BkUnknown; b_header_bytes := [];
     b_header_time := 0; b_bitcoin_miner_pool_id := None; b_coinbase_txid := None; b_coinbase_script := None;
     b_coinbase_outputs := None; b_coinbase_status := NotAttempted; b_invalid_block_reason := None;
     b_canonical_competitor_hash := None; b_total_attestations := 1; b_distinct_sources := 1; b_auxpow_chain_count := 1;
     b_live_observed := false; b_core_attested := false; b_pow_validated := true; b_difficulty_epoch_ok := None;
     b_first_attested_at := None; b_last_attested_at := None; b_btc_orphan_class := Some "strict_btc_orphan"%string |}.

(** Two events of one parent and one of another, which is an orphan and known stale. *)
Definition model : ReadModel :=
  mkReadModel {[ 1 := event 1 None [x01]; 2 := event 2 (Some 7) [x01]; 3 := event 3 (Some 5) [x02] ]}
    {[ [x02] := orphan [x02] ]} ∅ {[ 1 := mkSource "namecoin" "auxpow" ]} {[ [x02] ]} (Err (Other "empty")).
Definition codes : gmap Z string := {[ 1 := "namecoin"%string ]}.

Lemma model_keyed : keyed model.
Proof.
  intros i e Hi. unfold model in Hi. cbn in Hi.
  repeat (apply lookup_insert_Some in Hi as [[<- <-]|[_ Hi]]; [done|]). by apply lookup_singleton_Some in Hi as [<- <-].
Qed.

Lemma recheck_pages_exact_witness :
  (rk_event_id <$> load_candidate_page codes everything None 1 model) = [3] ∧
  (rk_event_id <$> remaining codes everything None model) = [3; 2] ∧
  NoDup (rk_parent_hash <$> remaining codes everything None model).
Proof.
  split; [vm_compute; reflexivity|]. split; [vm_compute; reflexivity|].
  apply (recheck_pages_exact codes everything None 1 model model_keyed). lia.
Defined.

(** A session of its own, whose reconciles change nothing. *)
#[local] Instance env : ReconcileEnv (ReadModel * CacheState) := {
  reconcile_block _ := mret [];
  dependent_edges _ _ := [];
  now_secs _ := 10;
  statement := mret ();
}.
#[local] Instance tables_of : RecheckTables (ReadModel * CacheState) := {
  recheck_tables := fst;
  cache_state := snd;
  set_cache_state s w := (w.1, s);
}.
#[local] Instance tables_laws : RecheckTablesLaws (ReadModel * CacheState).
Proof. by split. Qed.

Definition scheduled_all : CacheState := (schedule_core_recheck CacheState_default everything true).2.
Definition bound : RecheckPass * CacheState :=
  bind_recheck_pass scheduled_all (sr_pending_scope (load_scheduled_recheck scheduled_all)).
Definition world (s : CacheState) : QueueWorld (ReadModel * CacheState) := mkQueueWorld (model, s) ∅ None.

Definition first_page : list Candidate := load_candidate_page codes everything None 1 model.
Definition handed_over : result anyhow unit * QueueWorld (ReadModel * CacheState) :=
  queue_page (rp_generation bound.1) first_page (5, 3) (world bound.2).

Lemma recheck_page_handover_witness :
  handed_over.1 = Ok () ∧ (rk_parent_hash <$> first_page) = [[x02]] ∧
  match handed_over with
  | (Ok _, w') => ∀ h, h ∈ rk_parent_hash <$> first_page → ∃ row, q_rows w' !! h = Some row ∧ primary_pending row = true
  | (Err _, _) => False
  end.
Proof.
  assert (handed_over.1 = Ok ()) as Hok by (vm_compute; reflexivity). split; [exact Hok|]. split; [vm_compute; reflexivity|].
  pose proof (recheck_page_handover codes 1 None bound.1 (5, 3) (world bound.2) model_keyed eq_refl) as Hh.
  change (match handed_over with
    | (Ok _, w') => (∀ h, h ∈ rk_parent_hash <$> first_page → ∃ row, q_rows w' !! h = Some row ∧ primary_pending row = true) ∧
        (∀ h, (h ∉ rk_parent_hash <$> first_page) → q_rows w' !! h = q_rows (world bound.2) !! h) ∧
        sr_pass (load_scheduled_recheck (cache_state (q_env w'))) =
          Some (mkPass (rp_generation bound.1) (rp_scope bound.1) (Some (5, 3)))
    | (Err _, w') => q_rows w' = q_rows (world bound.2) ∧ cache_state (q_env w') = cache_state (q_env (world bound.2)) ∧
        ¬ ∀ x : ReadModel * CacheState, (statement x).1 = Ok ()
    end) in Hh.
  destruct handed_over as [[u|e] w']; [exact (proj1 Hh)|discriminate Hok].
Defined.

Definition hold : result anyhow (option (PageStep * ScheduledRecheckReport * option (list Candidate))) * QueueWorld (ReadModel * CacheState) :=
  page_step codes 26 1 None (mkRecheckReport 0 0 0 None) None (world scheduled_all).

Definition hold_spec (x : result anyhow (option (PageStep * ScheduledRecheckReport * option (list Candidate))) *
    QueueWorld (ReadModel * CacheState)) : Prop :=
  match x with
  | (Ok None, _) => False
  | (Ok (Some r), w') =>
      ∃ b w1, drain_core_reconcile_queue_up_to 26 CORE_RECOVERY_BATCH true (world scheduled_all) = (Ok (Some b), w1) ∧
        hold_result codes 1 None (mkRecheckReport 0 0 0 None) None (cache_state (q_env w1)) w' r
  | (Err _, _) => True
  end.

Lemma recheck_hold_exact_witness :
  match hold.1 with Ok (Some (PageQueued, _, _)) => true | _ => false end = true ∧ hold_spec hold.
Proof.
  split; [vm_compute; reflexivity|].
  exact (recheck_hold_exact codes 26 1 None (mkRecheckReport 0 0 0 None) None (world scheduled_all)
    ltac:(lia) ltac:(lia)).
Defined.

(** The state a whole run leaves: two pages of one, then the acknowledgement. *)
Definition settled : CacheState :=
  Eval vm_compute in match persist_recheck_cursor bound.2 1 (5, 3) with
                     | Ok s => match persist_recheck_cursor s 1 (7, 2) with
                               | Ok s => match acknowledge_recheck_pass s 1 with Ok s => s | Err _ => s end
                               | Err _ => s
                               end
                     | Err _ => bound.2
                     end.

Lemma settled_reachable : rtc recheck_step CacheState_default settled.
Proof.
  eapply rtc_l; [apply (step_schedule _ everything true)|]. eapply rtc_l; [apply step_bind; vm_compute; reflexivity|].
  eapply rtc_l; [eapply (step_cursor _ 1 (5, 3)); vm_compute; reflexivity|].
  eapply rtc_l; [eapply (step_cursor _ 1 (7, 2)); vm_compute; reflexivity|].
  apply rtc_once. eapply (step_acknowledge _ 1). vm_compute. reflexivity.
Qed.

Lemma run_settled :
  ∃ w', run_scheduled_recheck codes 9 26 true 1 (world scheduled_all) = (Ok (Some (mkRecheckReport 3 2 0 (Some 1))), w') ∧
    cache_state (q_env w') = settled.
Proof. eexists. split; vm_compute; reflexivity. Qed.

Lemma scheduled_recheck_settles_witness :
  ∃ w', run_scheduled_recheck codes 9 26 true 1 (world scheduled_all) = (Ok (Some (mkRecheckReport 3 2 0 (Some 1))), w') ∧
    q_rows w' = ∅ ∧ is_pending (load_scheduled_recheck (cache_state (q_env w'))) = false.
Proof.
  destruct run_settled as (w' & Hr & Hc). exists w'. split; [exact Hr|].
  destruct (scheduled_recheck_settles codes 9 26 true 1 (world scheduled_all) w' (mkRecheckReport 3 2 0 (Some 1))
    ltac:(lia) Hr) as (_ & Hq & Hp & _); [|exact (conj Hq Hp)].
  rewrite Hc. exact settled_reachable.
Defined.

(** The orphan that is a known stale block, over a session of its own. *)
#[local] Instance alone : ReadModelSession unit := { session := mret (); commit := mret () }.
Definition demotion : result anyhow (option KnownStaleReclassifySummary) * (unit * ReadModel) :=
  run_reclassify_known_stales 2 1 (tt, model).
Definition demotion_spec (r : result anyhow (option KnownStaleReclassifySummary) * (unit * ReadModel)) : Prop :=
  match r with
  | (Ok None, _) => False
  | (Ok (Some summary), w') =>
      summary = mkStaleSummary (Z.of_nat (size (rm_known_stale model))) (Z.of_nat (size (stale_orphans model))) ∧
      w'.2 = after_demotion model (stale_orphans model) ∧ stale_orphans w'.2 = ∅
  | (Err _, w') => ∃ S, S ⊆ stale_orphans model ∧ w'.2 = after_demotion model S
  end.

Lemma known_stales_demoted_witness : demotion.1 = Ok (Some (mkStaleSummary 1 1)) ∧ demotion_spec demotion.
Proof.
  split; [vm_compute; reflexivity|].
  apply (known_stales_demoted 2 1 (tt, model)); [done|lia|]. apply (proj1 (Nat.ltb_lt _ _)). vm_compute. reflexivity.
Defined.
End RecheckSample.
